(* ===== verification/_CoqProject ===== *)
-Q . S2P
Prelude.v
Errors.v
Header.v
Assembler.v
ImageValues.v
UpdateTypes.v
UpdateMachine.v
UpdateLemmas.v
UpdateInvariants.v
UpdateRuns.v
UpdateProperties.v
UploadSession.v
Crc16.v
Base64.v
SerialFraming.v
Sha256.v
McubootImage.v
Client.v
Transport.v
Dispatcher.v
ReconnectPolicy.v
StoredZip.v
SerialPort.v
SerialPortProperties.v
SerialPortRuns.v
SerialPortOpen.v
Json.v
JsonExact.v
Minicbor.v
DfuPackage.v
DfuPackageProperties.v
ImageReader.v
BootModel.v
BootModelProperties.v
Cbor.v
GroupCodecs.v
CborLaws.v
QcborModel.v
GroupProperties.v
StubDevice.v
StubDeviceProperties.v
StubThread.v
GroupRequests.v
UploadDriver.v
UploadDriverProperties.v
UploadToDevice.v
FirmwareUpdater.v
FirmwareUpdaterProperties.v
Console.v
UpdateCommand.v
UpdateCommandProperties.v
UpdateRun.v
UpdateRunProperties.v
UpdateRunEnds.v
UpdateScript.v
DeviceExchange.v
UpdateOnDevice.v
