(* ===== verification/Prelude.v ===== *)
(** * smply: a verified core

    smply is a client library for MCUmgr, the management protocol of Zephyr
    devices. It sends SMP requests over a transport, matches the answers,
    uploads firmware images and drives a device through a firmware update; its
    support libraries read DFU packages and model what the bootloader does. This
    library models the parts that decide something, as executable definitions
    that follow the C++ line by line, and proves what makes them correct.

    ** The program and its parts

    - Bytes to messages. A transport hands [SmpClient] bytes in fragments; the
      assembler ([src/smp/assembler.cpp]) cuts them into messages, each behind
      an 8-byte header ([src/smp/codec.cpp]). Over a serial line the messages
      are framed in base64 lines with a CRC ([transports/serial/]), over BLE cut
      into fragments, and a send queue hands them to the transport's writer
      ([transports/common/]). The serial-port adapter
      ([transports/serial_port/]) runs an I/O thread against the application's
      calls: [send] frames and queues, the thread writes, reads and posts what
      it read to the application's dispatcher, [close] stops and joins it.
    - Requests. The client ([src/smp/client.cpp]) keeps the requests in flight,
      gives each a sequence number and a deadline, matches answers to them, and
      owes every request one callback, which may call it back. The dispatcher
      ([src/util/dispatcher.cpp]) carries work to the application's thread.
    - Payloads. The management groups ([src/groups/]) encode requests and decode
      answers over a CBOR reader and writer ([src/cbor/]) around QCBOR.
    - The image. A firmware file is read through the application's
      [ImageSource]; the library parses its MCUboot header, scans its TLVs for
      the image hash, and computes the SHA-256 of the file ([src/image/]).
    - The upload. A pure session ([src/groups/image/upload_session.cpp]) decides
      which chunk to send next from what the device answered; a driver
      ([upload_driver.cpp]) sends it through the client.
    - The update. A pure state machine ([src/dfu/update_state_machine.cpp])
      turns the answers of a device into the next effect: query, upload, mark,
      reset, reconnect, confirm, wait, finish; and keeps the report. The updater
      ([src/dfu/firmware_updater.cpp]) carries the effects out.
      A run ([support/dfu_app/update_run.cpp]) is the application's loop around
      it: it polls, reconnects, asks whether to confirm, and stops in time. The
      tools' command line ([update_command.cpp], [update_inputs.cpp]) names the
      images of an update, and the console prints what became of it.
    - Support. A DFU package is a stored zip with a JSON manifest
      ([support/dfu_package/]); the boot model ([support/boot_model/]) is what
      MCUboot and Zephyr do to a device's slots; the small CBOR codec
      ([support/minicbor/]) and the boot model make the pretend device of
      [examples/stub_device/], the other end of the wire.

    ** Files

    - [Prelude]: machine integers ([wrap], [fits]), endianness, lists, [iterate]
      for loops with its termination and invariant rules, tactics.
    - [Errors]: [ErrorCode], [MgmtError], [Error], [Result]
      ([include/smply/error.hpp], [result.hpp]).
    - [Header]: [encode], [decode_header] ([src/smp/codec.cpp]).
    - [Assembler]: [MessageAssembler] with [feed] ([src/smp/assembler.cpp]); the
      relation [stream] is its abstract specification.
    - [ImageValues]: [ImageHash], [ImageVersion], [parse_version],
      [version_to_string] ([src/image/image_values.cpp]).
    - [UpdateTypes], [UpdateMachine]: the data and the whole transition function
      of [dfu::Machine] ([src/dfu/update_state_machine.cpp]): [decide_step] is
      [decide], [apply] is [Machine::apply]. [UpdateLemmas], [UpdateInvariants]
      and [UpdateRuns] carry the proofs: what each helper does, the invariant of
      each state, the protocol table and its preservation over runs.
      [UpdateProperties] has the theorems.
    - [UploadSession]: [plan_next], [record_sent], [on_response], [resume] and
      the chunk size ([src/groups/image/upload_session.cpp]).
    - [Crc16], [Base64], [SerialFraming]: the serial framing
      ([transports/serial/]).
    - [SerialPort]: the serial-port adapter, in its POSIX form
      ([posix/serial_port_posix.cpp]): [State], the I/O thread as a program
      counter [IoPoint] with [io_step], [read_port] and [write_port], the calls
      of the application as [ClientPoint] with [client_step] and
      [shutdown_step]; [adapter_step] interleaves the two, an event for every
      action one thread can see of the other. [SerialPortProperties] has the
      moves of the state, its invariants and the measure of the thread,
      [SerialPortRuns] the theorems. [SerialPortOpen]: [open_transport] over the
      system calls it makes.
    - [Sha256]: the incremental hasher ([src/image/sha256.cpp]) and FIPS 180-4
      as its specification.
    - [McubootImage]: [ImageSource] as an interface (class [ReadsFile], with
      [MemoryImageSource] as an instance), the header parser, the TLV scan and
      the digest of a source ([src/image/]).
    - [Client]: [SmpClient::Impl] ([src/smp/client.cpp]).
    - [Transport]: the BLE fragmenter, the link state and the send queue
      ([transports/common/]). [Dispatcher]: [smply::Dispatcher].
      [ReconnectPolicy]: the backoff of [support/dfu_app/].
    - [Minicbor]: the small codec ([support/minicbor/]), whose value trees are
      the specification of the façade's theorems. [Cbor]: [Reader], [Writer] and
      the error decoder ([src/cbor/]) over the classes [QDecoder] and
      [QEncoder]; [CborLaws] states what QCBOR documents as classes of laws and
      proves the façade against them; [QcborModel] is an instance.
    - [GroupCodecs], [GroupRequests], [GroupProperties]: the decoders, the
      requests of every group, and their theorems ([src/groups/]).
    - [UploadDriver], [UploadDriverProperties]: [UploadDriver] and the upload
      half of [ImageManagement].
    - [FirmwareUpdater], [FirmwareUpdaterProperties]: [FirmwareUpdater::Impl].
    - [StoredZip], [Json], [DfuPackage]: [read_stored_zip], [parse_json],
      [read_package], [read_dependencies], [check_board]
      ([support/dfu_package/]). [JsonExact] has the grammar of RFC 8259 as a
      relation and the parser's exactness, [DfuPackageProperties] the package's
      theorems.
    - [ImageReader], [BootModel], [BootModelProperties]: [describe] and the
      whole of [BootModel] ([support/boot_model/]).
    - [StubDevice], [StubDeviceProperties]: [StubDevice::answer] and
      [StubDevice::reboot] ([examples/stub_device/stub_device.cpp]), and what
      they do with the packets of a file. [StubThread]: its thread as steps over
      the queue, the link and the stop.
    - [UpdateRun], [UpdateRunProperties], [UpdateRunEnds]: [UpdateRun]
      ([support/dfu_app/update_run.cpp]) over [FirmwareUpdater]; what is around a
      run is the class [RunEnv], what its theorems ask of it [QuietHooks] and
      [FiniteEnv].
    - [UploadToDevice]: the upload session, its messages and the pretend device
      joined by a link that loses things.
    - [Console]: [to_string] of an error ([src/core.cpp]), [printable] and the
      lines of [UpdateConsole]. [UpdateCommand], [UpdateCommandProperties]: the
      shared flags, their rules, [FileImageSource] and [UpdateInputs]
      ([support/dfu_app/]), and the command line of [examples/cli_dfu/].
    - [UpdateScript]: what the update machine does of one image when all goes
      well. [DeviceExchange]: the group operations answered by the pretend
      device. [UpdateOnDevice]: the updater, the groups, the upload and the
      device on one bench, driven to the end of an update.

    ** What the theorems show

    - End to end: whatever a link loses, an upload the session calls complete is
      in the slot of the device byte for byte, with every other slot untouched
      ([completed_upload_stored]); once the link holds the upload completes
      within a chunk more than the file has ([upload_recovers]). The slot
      table the device writes is the one the library reads
      ([device_table_read]); the device's thread serves its requests one after
      the other, whatever arrives when ([device_serves_in_turn]). A whole update
      of a swapping device, from [start] to [UpdateFinished], ends in success
      with the device running the file, confirmed, and the old image kept
      ([update_installed]).
    - The update: every run follows the protocol table ([run_follows_protocol]);
      nothing is changed on the device before the checks pass, and a refused
      update changed nothing ([mutation_only_when_admitted],
      [refused_left_device_alone]); a confirm, which cannot be undone, only goes
      to an image known to run on trial ([confirm_only_on_trial]); nothing is
      staged after the reset; the outcome is verified against the device's own
      table and the report is honest ([completion_verified], [boot_inspection],
      [report_is_honest], [cancel_tells_of_revert]); waits are bounded. The
      updater runs exactly that machine ([updater_runs_machine]), ends every
      accepted update once, and uploads the files it was given. A run around it
      reports what became of the update and never makes a call the updater
      refuses ([run_reports_update]); with a deadline it returns
      ([run_ends_by_deadline]).
    - The upload: requests stay inside the image, progress is what the server
      said, "already present" is claimed only where no answer had reported a
      byte stored before, an attempt against a server that does not rewind ends,
      and the first packet fits. The driver refines the session, its requests
      parse to what was meant, and its callbacks run once.
    - The client: every callback is owed exactly once ([callbacks_exactly_once]),
      answers reach the request they match ([answers_correlated]), a disconnect
      and a deadline settle what they should.
    - The wire: the assembler refines its stream specification whatever the
      fragmentation, within its buffer bound; header, serial and BLE framing
      round-trip; a hostile device can neither grow the receivers nor have a
      packet with a wrong CRC delivered; the error report of an answer is read
      exactly, and every request parses to what its call asked for.
    - The serial port, in every interleaving: what [send] accepted is what the
      peer's receiver delivers ([peer_receives_accepted]) and, no wake-up being
      lost, all of it is written ([accepted_is_written]); the listener hears
      what the peer framed ([listener_hears_peer]); a close is final
      ([port_close_is_final]) and returns ([port_close_returns]); and a failed
      open leaks no descriptor ([open_leaks_nothing]).
    - The image: the header parser accepts exactly the MCUboot layouts within
      the limits; the TLV scan finds the hash of a well-formed image and never
      reads outside it; the hasher computes SHA-256 however its input is split;
      the boot model's independent reader agrees ([readers_agree]).
    - The package: no archive is read outside its bytes, what the build tools
      write is read back, the JSON parser accepts exactly the grammar, and an
      accepted package is sorted, consistent with its images' headers and has
      the dependencies it carries met.
    - The tools: the inputs of a command are the images of its package or files,
      each once, and [start] has nothing against them but what it finds in a file
      ([inputs_startable]); a command line is read as what it says, and accepted
      when it keeps the documented rules ([command_line_exact]); no text of a
      device or a package reaches the terminal with a control character
      ([console_tame]).
    - The boot model: its invariant over any sequence of calls, the life of a
      trial (confirmed or reverted), and that the flags of the listing predict
      the next boot.
    - Where the code does not do what it documents, a lemma shows the run:
      [shutdown_drops_request], [retry_never_returns],
      [rewinding_server_unbounded], [second_upload_drops_callback],
      [cancel_in_progress_lost], [restart_inside_finished_is_lost],
      [stale_answer_fails_next_update], [second_resume_fails_update],
      [cancel_while_uploading_fails], [wide_code_reports_zero],
      [second_build_unchecked], [marked_slot_erased],
      [stale_reconnect_fails_next_update], [one_packet_called_present],
      [new_link_forgotten].

    ** Loops and fuel

    A loop of the source is [iterate] over its body or a [Fixpoint] with fuel.
    [feed] gets [length input + 2] rounds, since each consumes a message or
    empties the buffer ([feed_spec] shows it returns); the planning loop one per
    target ([plan_loop_fuel]); the serial loops one per byte, and framing a message
    at most one per byte of it ([frame_message_spec]); the TLV scan
    [kMaxImageTlvs + 2], since each round but the last counts an entry
    ([find_total]), and so does the package's walk; the boot model's reader one
    per byte and one, since an entry takes four bytes; the file digest one per
    chunk and two ([sha256_total]); the decimal printer 20 digits, enough for 64 bits;
    the CBOR and JSON parsers one level per nesting the code allows and one
    round per byte. The zip's directory search goes down one offset a round.
    The client's queue can go on for as long as callbacks queue more, so its
    fuel is a parameter: [poll_settles_expired] shows [poll] returns for an
    application that stops, [retry_never_returns] that it need not for one that
    does not. The updater's dispatch loop has one round to spare, since an event
    chains at most one other, and [updater_runs_machine] shows every input is
    served. A reconnect episode has one round per attempt of the policy and one;
    a run's own fuel is a parameter, enough of which exists when the run has a
    deadline ([run_ends_by_deadline]). The loop over the arguments gets one round
    more than there are arguments ([arguments_end]).

    ** What is a parameter, and what is left out

    Parameters: QCBOR, through [QDecoder] and [QEncoder] with the laws of
    [CborLaws]; the application's image source, transport and callbacks, the
    latter as a function from what has happened to what the application calls
    next; in [Client] the decoder of a device's error report and in
    [UploadSession] the encoder's size of a first packet, which [Cbor] and
    [UploadDriver] supply. A time point is an unbounded integer. An access
    outside a container, undefined in C++ or an exception, is [None], and
    theorems show where it does not occur.

    Left out: the coroutine support ([async/task.hpp]) and [detail/expected.hpp],
    which are plumbing over compiler machinery; the Windows transports: the Win32
    serial port, which mirrors the POSIX one over overlapped I/O, and WinRT BLE,
    which is the platform's objects; the length of the pretend device's sleep;
    the condition variable of [dispatcher_wait.cpp], whose waits are a parameter
    of [UpdateRun]; the [main] functions of [examples/], their help texts and the
    generators of demonstration images; the names of refusals and of the codes of
    the groups.

    ** Plan

    What could still be added is what is left out above: the Win32 adapter
    against the theorems of [SerialPortRuns], and the demonstration packages
    against the reader of [DfuPackage]. *)

From stdpp Require Export base numbers list list_numbers option strings.
From Stdlib Require Export ZArith Lia.
Export ListNotations.

#[global] Set Default Goal Selector "!".

Open Scope Z_scope.

(** ** Machine integers

    A [w]-bit unsigned integer is a [Z]; [wrap w] is the conversion a
    [static_cast] to that width performs, and [fits w] the range of values the
    type can hold. *)

Definition wrap (w x : Z) : Z := x mod 2 ^ w.

Definition fits (w x : Z) : Prop := 0 <= x < 2 ^ w.

Definition fitsb (w x : Z) : bool := (0 <=? x) && (x <? 2 ^ w).

Abbreviation u8 := (fits 8).
Abbreviation u16 := (fits 16).
Abbreviation u32 := (fits 32).
Abbreviation u64 := (fits 64).

(** A [std::byte] (or [std::uint8_t], or [char] seen as a byte) is a [Z] in
    the range [u8]; a span or a vector of them is a list. *)
Abbreviation bytes := (list Z).

Definition byte_list (l : bytes) : Prop := Forall (fits 8) l.

(** [std::size]: the length of a container as the [size_t] the code compares. *)
Abbreviation zlen l := (Z.of_nat (length l)).

Create HintDb smply.
Create Rewrite HintDb smply_rw.

Lemma fits_wrap w x : 0 <= w -> fits w (wrap w x).
Proof.
  intros Hw. unfold fits, wrap. apply Z.mod_pos_bound.
  apply Z.pow_pos_nonneg; lia.
Qed.

Lemma wrap_fits w x : fits w x -> wrap w x = x.
Proof. intros. unfold wrap. apply Z.mod_small. assumption. Qed.

Lemma fitsb_spec w x : fitsb w x = true <-> fits w x.
Proof.
  unfold fitsb, fits. rewrite andb_true_iff, Z.leb_le, Z.ltb_lt. reflexivity.
Qed.

#[export] Hint Resolve fits_wrap : smply.
#[export] Hint Rewrite wrap_fits using assumption : smply_rw.

#[global] Instance fits_dec w x : Decision (fits w x).
Proof. unfold fits. apply _. Defined.

(** ** Big- and little-endian fields *)

Lemma lxor_fits w a b : fits w a -> fits w b -> fits w (Z.lxor a b).
Proof.
  unfold fits. intros [Ha Ha'] [Hb Hb'].
  assert (0 <= Z.lxor a b) by (by apply Z.lxor_nonneg).
  split; [done|]. destruct (decide (Z.lxor a b = 0)) as [->|]; [lia|].
  apply Z.log2_lt_pow2; [lia|]. eapply Z.le_lt_trans; [by apply Z.log2_lxor|].
  assert (0 < w) by (apply Z.nle_gt; intros Hw; pose proof (Z.pow_le_mono_r 2 w 0 ltac:(lia) Hw); change (2 ^ 0) with 1 in *;
    assert (a = 0) by lia; assert (b = 0) by lia; subst; done).
  apply Z.max_lub_lt; (destruct (decide (0 < a)), (decide (0 < b)); try (apply Z.log2_lt_pow2; lia)).
  all: rewrite Z.log2_nonpos; lia.
Qed.

Lemma byte_div x : u16 x -> u8 (x / 256).
Proof.
  unfold fits. change (2 ^ 8) with 256. change (2 ^ 16) with 65536. intros H.
  split; [apply Z.div_pos; lia | apply Z.div_lt_upper_bound; lia].
Qed.

Lemma lor_shiftl_add h l n :
  0 <= n -> 0 <= l < 2 ^ n -> Z.lor (Z.shiftl h n) l = h * 2 ^ n + l.
Proof.
  intros Hn Hl. rewrite Z.shiftl_mul_pow2 by lia.
  rewrite <- Z.add_lor_land.
  replace (Z.land (h * 2 ^ n) l) with 0; [lia|].
  symmetry. apply Z.bits_inj'. intros i Hi. rewrite Z.land_spec, Z.bits_0.
  destruct (Z.lt_ge_cases i n) as [Hin|Hin].
  - rewrite Z.mul_pow2_bits_low by lia. reflexivity.
  - destruct (decide (l = 0)) as [->|Hl0]; [by rewrite Z.bits_0, andb_false_r|].
    rewrite (Z.bits_above_log2 l i), andb_false_r; [reflexivity|lia|].
    apply Z.log2_lt_pow2; [lia|].
    apply Z.lt_le_trans with (2 ^ n); [lia|apply Z.pow_le_mono_r; lia].
Qed.

Lemma land_255 x : Z.land x 255 = x mod 256.
Proof. change 255 with (Z.ones 8). by rewrite Z.land_ones by lia. Qed.

Lemma shiftr_8 x : Z.shiftr x 8 = x / 256.
Proof. by rewrite Z.shiftr_div_pow2 by lia. Qed.

(** ** Lists *)

Lemma take_drop_app_le {A} (l1 l2 : list A) n :
  (n <= length l1)%nat ->
  take n (l1 ++ l2) = take n l1 /\ drop n (l1 ++ l2) = drop n l1 ++ l2.
Proof.
  intros Hn. split; [by apply take_app_le | by apply drop_app_le].
Qed.

Lemma byte_list_app l1 l2 : byte_list (l1 ++ l2) <-> byte_list l1 /\ byte_list l2.
Proof. apply Forall_app. Qed.

Lemma byte_list_take n l : byte_list l -> byte_list (take n l).
Proof. apply Forall_take. Qed.

Lemma byte_list_drop n l : byte_list l -> byte_list (drop n l).
Proof. apply Forall_drop. Qed.

#[export] Hint Resolve byte_list_take byte_list_drop : smply.

(** A boolean fact about every [i] below a numeral, by evaluation. *)
Lemma check_below (n : nat) (P : Z -> bool) i :
  forallb (fun k => P (Z.of_nat k)) (seq 0 n) = true -> 0 <= i < Z.of_nat n -> P i = true.
Proof.
  intros H Hi. rewrite forallb_forall in H. rewrite <- (Z2Nat.id i) by lia.
  apply H, in_seq. lia.
Qed.

(** ** Loops

    A [while] loop of the source is a body that says whether to go round again
    or to return. [iterate] runs it with fuel, and [iterate_total] is the
    termination argument: a measure that decreases, under an invariant, on
    every round bounds the fuel needed. *)

Inductive loop (S R : Type) :=
| Continue (s : S)
| Return (r : R).
Arguments Continue {S R} s.
Arguments Return {S R} r.

Fixpoint iterate {S R} (body : S -> loop S R) (fuel : nat) (s : S) : option R :=
  match fuel with
  | O => None
  | Datatypes.S fuel' =>
      match body s with
      | Continue s' => iterate body fuel' s'
      | Return r => Some r
      end
  end.

Section iterate.
Context {S R : Type} (body : S -> loop S R).

Lemma iterate_mono fuel fuel' s r :
  (fuel <= fuel')%nat -> iterate body fuel s = Some r -> iterate body fuel' s = Some r.
Proof.
  revert fuel' s. induction fuel as [|fuel IH]; intros fuel' s Hle H; [done|].
  destruct fuel' as [|fuel']; [lia|]. simpl in *.
  destruct (body s); [apply IH; [lia|done]|done].
Qed.

Lemma iterate_total (I : S -> Prop) (m : S -> nat) :
  (forall s s', I s -> body s = Continue s' -> I s' /\ (m s' < m s)%nat) ->
  forall fuel s, I s -> (m s < fuel)%nat -> exists r, iterate body fuel s = Some r.
Proof.
  intros Hstep fuel. induction fuel as [|fuel IH]; intros s HI Hm; [lia|].
  simpl. destruct (body s) as [s'|r] eqn:E; [|by eexists].
  destruct (Hstep s s' HI E) as [HI' Hlt]. apply IH; [done|lia].
Qed.

(** Partial correctness: an invariant kept by every round holds of the state
    the loop returns from. *)
Lemma iterate_inv (I : S -> Prop) (Q : R -> Prop) :
  (forall s s', I s -> body s = Continue s' -> I s') ->
  (forall s r, I s -> body s = Return r -> Q r) ->
  forall fuel s r, I s -> iterate body fuel s = Some r -> Q r.
Proof.
  intros Hc Hr fuel. induction fuel as [|fuel IH]; intros s r HI H; [done|].
  simpl in H. destruct (body s) as [s'|r'] eqn:E; [eauto|]. simplify_eq. eauto.
Qed.

End iterate.

(** Two bodies that agree wherever the loop goes make the same loop. *)
Lemma iterate_ext {S R} (b1 b2 : S -> loop S R) (I : S -> Prop) :
  (forall s, I s -> b1 s = b2 s) ->
  (forall s s', I s -> b1 s = Continue s' -> I s') ->
  forall fuel s, I s -> iterate b1 fuel s = iterate b2 fuel s.
Proof.
  intros Heq Hc fuel. induction fuel as [|fuel IH]; intros s HI; [done|].
  simpl. rewrite <- Heq by done. destruct (b1 s) as [s'|r] eqn:E; [eauto|done].
Qed.

(** ** Tactics *)

(** Splits every boolean conjunction, disjunction and comparison among the
    hypotheses into the proposition it decides. *)
Ltac bool_to_prop :=
  repeat match goal with
  | H : (_ && _) = true |- _ => apply andb_true_iff in H; destruct H
  | H : (_ || _) = false |- _ => apply orb_false_iff in H; destruct H
  | H : negb _ = true |- _ => apply negb_true_iff in H
  | H : negb _ = false |- _ => apply negb_false_iff in H
  | H : (_ =? _) = true |- _ => apply Z.eqb_eq in H
  | H : (_ =? _) = false |- _ => apply Z.eqb_neq in H
  | H : (_ <? _) = true |- _ => apply Z.ltb_lt in H
  | H : (_ <? _) = false |- _ => apply Z.ltb_ge in H
  | H : (_ <=? _) = true |- _ => apply Z.leb_le in H
  | H : (_ <=? _) = false |- _ => apply Z.leb_gt in H
  | H : bool_decide _ = true |- _ => apply bool_decide_eq_true in H
  | H : bool_decide _ = false |- _ => apply bool_decide_eq_false in H
  end.

(** Case analysis on the scrutinee of the outermost conditional of the goal or
    of a hypothesis, keeping the equation. *)
Ltac split_if :=
  match goal with
  | |- context [if ?b then _ else _] => destruct b eqn:?
  | H : context [if ?b then _ else _] |- _ => destruct b eqn:?
  end.
