(* ===== verification/Errors.v ===== *)
(** * The error model

    [include/smply/error.hpp] and [include/smply/result.hpp]: the error
    categories, the device's own report in either SMP version's shape, the
    structured error, and [Result]. Every fallible operation of the library
    returns one of these. *)

From S2P Require Import Prelude.

(** [smply::ErrorCode]. *)
Inductive ErrorCode :=
| Ok
| InvalidArgument
| InvalidState
| MalformedMessage
| UnsupportedSmpVersion
| MessageTooLarge
| CborEncode
| CborDecode
| ProtocolError
| UnexpectedResponse
| Timeout
| Cancelled
| TransportError
| TransportBusy
| Disconnected
| ImageMismatch
| UpdateFailed
| UpdateRefused
| Internal.

#[global] Instance ErrorCode_eq_dec : EqDecision ErrorCode.
Proof. solve_decision. Defined.

(** [smply::Group] is an open 16-bit enumeration: any value round-trips, so a
    group is its number. *)
Abbreviation Group := Z.

Definition Group_Os : Group := 0.
Definition Group_Image : Group := 1.

(** [smply::MgmtError]: [rc] is read against [group] only when
    [group_scoped]. *)
Record MgmtError := mkMgmtError {
  me_group : Group;
  me_rc : Z;
  me_group_scoped : bool
}.

#[global] Instance MgmtError_eq_dec : EqDecision MgmtError.
Proof. solve_decision. Defined.

(** [MgmtError::smp]. *)
Definition MgmtError_smp (rc : Z) : MgmtError := mkMgmtError Group_Os rc false.

(** [MgmtError::scoped]. *)
Definition MgmtError_scoped (group : Group) (rc : Z) : MgmtError :=
  mkMgmtError group rc true.

(** The codes of [smply::SmpError] and [smply::ImageError] the modelled
    decisions branch on. Both enumerations are open on the wire, so a code is
    its number. *)
Definition SmpError_NoMemory : Z := 2.
Definition SmpError_BadState : Z := 6.
Definition SmpError_Busy : Z := 10.
Definition ImageError_ImageAlreadyPending : Z := 28.

(** [smply::Error]. [where_] is the call-site tag and [os_error] the category
    and number an adapter attaches: diagnostics, excluded from comparison. *)
Record Error := mkError {
  code : ErrorCode;
  mgmt : option MgmtError;
  reason : string;
  os_error : string * Z;
  where_ : option string
}.

#[global] Instance Error_eq_dec : EqDecision Error.
Proof. solve_decision. Defined.

(** [Error{}]: no error. *)
Definition Error_none : Error := mkError Ok None "" ("system"%string, 0) None.

(** [Error{code, where}]. *)
Definition Error_at (c : ErrorCode) (where_ : string) : Error :=
  mkError c None "" ("system"%string, 0) (Some where_).

(** [Error{code, mgmt, where}]. *)
Definition Error_mgmt (c : ErrorCode) (m : MgmtError) (where_ : string) : Error :=
  mkError c (Some m) "" ("system"%string, 0) (Some where_).

(** [limits::kMaxReasonLength]. *)
Definition kMaxReasonLength : nat := 128.

(** [Error::with_reason]. *)
Definition with_reason (r : string) (e : Error) : Error :=
  mkError (code e) (mgmt e) r (os_error e) (where_ e).

(** [operator==] on [Error]: the category, the device's report and its text. *)
Definition Error_eqb (a b : Error) : bool :=
  bool_decide (code a = code b) && bool_decide (mgmt a = mgmt b)
  && bool_decide (reason a = reason b).

(** [smp_error]: the flat code an error carries, if it carries one. *)
Definition smp_error (e : Error) : option Z :=
  match mgmt e with
  | Some m => if me_group_scoped m then None else Some (me_rc m)
  | None => None
  end.

(** [image_error]: the image-group code an error carries, if any. *)
Definition image_error (e : Error) : option Z :=
  match mgmt e with
  | Some m =>
      if negb (me_group_scoped m) || negb (me_group m =? Group_Image)
      then None else Some (me_rc m)
  | None => None
  end.

(** ** [Result<T>] *)

Inductive Result (A : Type) :=
| Success (a : A)
| Fail (e : Error).
Arguments Success {A} a.
Arguments Fail {A} e.

(** [smply::fail(code, where)]. *)
Definition fail {A} (c : ErrorCode) (where_ : string) : Result A :=
  Fail (Error_at c where_).

Declare Scope result_scope.
Delimit Scope result_scope with result.

Definition result_bind {A B} (r : Result A) (k : A -> Result B) : Result B :=
  match r with Success a => k a | Fail e => Fail e end.

Notation "'let?' x ':=' r 'in' k" :=
  (result_bind r (fun x => k)) (at level 10, x pattern, r at level 100, k at level 200)
  : result_scope.

Open Scope result_scope.

Lemma result_bind_Success {A B} (r : Result A) (k : A -> Result B) b :
  result_bind r k = Success b <-> exists a, r = Success a /\ k a = Success b.
Proof. destruct r; simpl; split; [intros; eauto | intros (? & [= ->] & ?); done | done | intros (? & [=] & _)]. Qed.

Lemma result_bind_assoc {A B C} (r : Result A) (f : A -> Result B) (g : B -> Result C) :
  result_bind (result_bind r f) g = result_bind r (fun a => result_bind (f a) g).
Proof. by destruct r. Qed.

(** The two readings of a device report are exclusive: a flat code is never
    read as an image-group code and the other way round. *)
Lemma smp_image_error_exclusive e :
  smp_error e = None \/ image_error e = None.
Proof.
  unfold smp_error, image_error.
  destruct (mgmt e) as [m|]; [|by left].
  destruct (me_group_scoped m); simpl; auto.
Qed.
