(* ===== verification/Header.v ===== *)
(** * The 8-byte SMP header

    [include/smply/smp/header.hpp] and [src/smp/codec.cpp]: the header types
    and the codec, with the round trip in both directions and a complete
    account of what [decode_header] rejects. *)

From S2P Require Import Prelude Errors.

(** [smply::Operation], the low three bits of byte 0. *)
Inductive Operation := Read | ReadResponse | Write | WriteResponse.

(** [smply::Version], bits 4..3 of byte 0. *)
Inductive Version := V1 | V2.

#[global] Instance Operation_eq_dec : EqDecision Operation.
Proof. solve_decision. Defined.

#[global] Instance Version_eq_dec : EqDecision Version.
Proof. solve_decision. Defined.

(** The enumerators' values, [static_cast<std::uint8_t>]. *)
Definition operation_bits (op : Operation) : Z :=
  match op with Read => 0 | ReadResponse => 1 | Write => 2 | WriteResponse => 3 end.

Definition version_bits (v : Version) : Z :=
  match v with V1 => 0 | V2 => 1 end.

(** [static_cast<Operation>] and [static_cast<Version>] of a value the decoder
    has checked to be in range. *)
Definition operation_of_bits (z : Z) : Operation :=
  match z with 0 => Read | 1 => ReadResponse | 2 => Write | _ => WriteResponse end.

Definition version_of_bits (z : Z) : Version :=
  match z with 0 => V1 | _ => V2 end.

(** [kHeaderSize] and [kMaxEncodableLength]. *)
Definition kHeaderSize : nat := 8.
Definition kMaxEncodableLength : Z := 65535.

(** [smply::Header]. The field names carry an [h_] prefix. *)
Record Header := mkHeader {
  h_op : Operation;
  h_version : Version;
  h_flags : Z;
  h_length : Z;
  h_group : Group;
  h_seq : Z;
  h_command : Z
}.

#[global] Instance Header_eq_dec : EqDecision Header.
Proof. solve_decision. Defined.

(** [Header::total_size]: the whole message, header included. *)
Definition total_size (h : Header) : nat := (kHeaderSize + Z.to_nat (h_length h))%nat.

(** The integer fields are held at their widths. *)
Definition header_ok (h : Header) : Prop :=
  u8 (h_flags h) /\ u16 (h_length h) /\ u16 (h_group h) /\ u8 (h_seq h) /\ u8 (h_command h).

(** ** The codec *)

(** [kReservedMask], [kVersionMask], [kVersionShift], [kOperationMask],
    [kMaxOperation] and [kMaxVersion]. *)
Definition kReservedMask : Z := 224.
Definition kVersionMask : Z := 3.
Definition kVersionShift : Z := 3.
Definition kOperationMask : Z := 7.
Definition kMaxOperation : Z := 3.
Definition kMaxVersion : Z := 1.

(** [read_be16]. *)
Definition read_be16 (high low : Z) : Z := wrap 16 (Z.lor (Z.shiftl high 8) low).

(** [high_byte] and [low_byte]. *)
Definition high_byte (value : Z) : Z := Z.land (Z.shiftr value 8) 255.
Definition low_byte (value : Z) : Z := Z.land value 255.

(** [encode]. *)
Definition encode (header : Header) : bytes :=
  let vbits := Z.land (version_bits (h_version header)) kVersionMask in
  let op_bits := Z.land (operation_bits (h_op header)) kOperationMask in
  let byte0 := wrap 8 (Z.lor (Z.shiftl vbits kVersionShift) op_bits) in
  [ byte0;
    h_flags header;
    high_byte (h_length header);
    low_byte (h_length header);
    high_byte (h_group header);
    low_byte (h_group header);
    h_seq header;
    h_command header ].

(** [decode_header] on a span of exactly [kHeaderSize] bytes. *)
Definition decode_header_fixed (b0 b1 b2 b3 b4 b5 b6 b7 : Z) : Result Header :=
  if negb (Z.land b0 kReservedMask =? 0) then
    fail MalformedMessage "smp header: reserved bits set"
  else
    let vbits := Z.land (Z.shiftr b0 kVersionShift) kVersionMask in
    if kMaxVersion <? vbits then
      fail UnsupportedSmpVersion "smp header: reserved version"
    else
      let op_bits := Z.land b0 kOperationMask in
      if kMaxOperation <? op_bits then
        fail MalformedMessage "smp header: unknown operation"
      else
        Success (mkHeader (operation_of_bits op_bits) (version_of_bits vbits)
                          b1 (read_be16 b2 b3) (read_be16 b4 b5) b6 b7).

(** [decode_header] on a dynamic span: [bytes.first<kHeaderSize>()] of a span
    that is long enough. *)
Definition decode_header (input : bytes) : Result Header :=
  match input with
  | b0 :: b1 :: b2 :: b3 :: b4 :: b5 :: b6 :: b7 :: _ =>
      decode_header_fixed b0 b1 b2 b3 b4 b5 b6 b7
  | _ => fail MalformedMessage "smp header: truncated"
  end.

(** [is_response] and [response_to]. *)
Definition is_response (op : Operation) : bool :=
  match op with ReadResponse | WriteResponse => true | _ => false end.

Definition response_to (request : Operation) : Operation :=
  match request with
  | Read => ReadResponse
  | Write => WriteResponse
  | ReadResponse | WriteResponse => request
  end.

(** [operation_name]. *)
Definition operation_name (op : Operation) : string :=
  match op with
  | Read => "read"
  | ReadResponse => "read-response"
  | Write => "write"
  | WriteResponse => "write-response"
  end.

(** ** Field lemmas *)

Lemma high_low_byte x :
  u16 x -> u8 (high_byte x) /\ u8 (low_byte x) /\ read_be16 (high_byte x) (low_byte x) = x.
Proof.
  intros Hx. unfold high_byte, low_byte, read_be16.
  rewrite !land_255, shiftr_8.
  pose proof (byte_div x Hx) as Hd.
  rewrite (Z.mod_small (x / 256)) by (unfold fits in Hd; lia).
  assert (u8 (x mod 256)) by (unfold fits; change (2 ^ 8) with 256; apply Z.mod_pos_bound; lia).
  split; [done|]. split; [done|].
  rewrite lor_shiftl_add by (unfold fits in *; lia).
  change (2 ^ 8) with 256.
  rewrite Z.mul_comm, <- Z_div_mod_eq_full by lia. by apply wrap_fits.
Qed.

Lemma read_be16_bytes h l :
  u8 h -> u8 l ->
  u16 (read_be16 h l) /\ high_byte (read_be16 h l) = h /\ low_byte (read_be16 h l) = l.
Proof.
  intros Hh Hl. unfold read_be16, high_byte, low_byte.
  rewrite lor_shiftl_add by (unfold fits in *; lia).
  unfold fits in *. change (2 ^ 8) with 256 in *. change (2 ^ 16) with 65536.
  rewrite wrap_fits by (unfold fits; change (2 ^ 16) with 65536; lia).
  rewrite !land_255, shiftr_8.
  split; [lia|].
  rewrite Z.div_add_l, (Z.div_small l), Z.add_0_r by lia.
  rewrite Z.mod_small by lia. split; [done|].
  rewrite Z.add_comm, Z.mod_add by lia. by rewrite Z.mod_small by lia.
Qed.

Lemma encode_length h : length (encode h) = kHeaderSize.
Proof. reflexivity. Qed.

Lemma encode_bytes h : header_ok h -> byte_list (encode h).
Proof.
  intros (Hf & Hl & Hg & Hs & Hc). unfold encode, byte_list.
  destruct (high_low_byte _ Hl) as (? & ? & _), (high_low_byte _ Hg) as (? & ? & _).
  repeat (apply Forall_cons; split); try apply Forall_nil; try done; apply fits_wrap; lia.
Qed.

(** Exhaustive facts about byte 0, settled by computation over its 256 values. *)
Lemma byte_cases (P : Z -> bool) :
  forallb P (Z.of_nat <$> seq 0 256) = true -> forall b, u8 b -> P b = true.
Proof.
  intros Hall b Hb. rewrite forallb_forall in Hall. apply Hall.
  apply list_elem_of_In, list_elem_of_fmap.
  exists (Z.to_nat b). unfold fits in Hb. change (2 ^ 8) with 256 in Hb.
  split; [lia|]. apply elem_of_seq. lia.
Qed.

Definition byte0_ok (b : Z) : bool :=
  (Z.land b kReservedMask =? 0)
  && (Z.land (Z.shiftr b kVersionShift) kVersionMask <=? kMaxVersion)
  && (Z.land b kOperationMask <=? kMaxOperation).

Lemma byte0_reencode b :
  u8 b -> byte0_ok b = true ->
  wrap 8 (Z.lor
    (Z.shiftl (Z.land (version_bits (version_of_bits
       (Z.land (Z.shiftr b kVersionShift) kVersionMask))) kVersionMask) kVersionShift)
    (Z.land (operation_bits (operation_of_bits (Z.land b kOperationMask))) kOperationMask)) = b.
Proof.
  intros Hb. revert b Hb.
  enough (forall b, u8 b ->
    (negb (byte0_ok b) ||
    (wrap 8 (Z.lor
    (Z.shiftl (Z.land (version_bits (version_of_bits
       (Z.land (Z.shiftr b kVersionShift) kVersionMask))) kVersionMask) kVersionShift)
    (Z.land (operation_bits (operation_of_bits (Z.land b kOperationMask))) kOperationMask)) =? b))
     = true) as H.
  { intros b Hb Hok. specialize (H b Hb). rewrite Hok in H. simpl in H. by apply Z.eqb_eq. }
  apply (byte_cases (fun b => _)). vm_compute. reflexivity.
Qed.

Lemma decode_fixed_success b0 b1 b2 b3 b4 b5 b6 b7 h :
  decode_header_fixed b0 b1 b2 b3 b4 b5 b6 b7 = Success h ->
  byte0_ok b0 = true /\
  h = mkHeader (operation_of_bits (Z.land b0 kOperationMask))
        (version_of_bits (Z.land (Z.shiftr b0 kVersionShift) kVersionMask))
        b1 (read_be16 b2 b3) (read_be16 b4 b5) b6 b7.
Proof.
  unfold decode_header_fixed, byte0_ok. intros H.
  repeat split_if; try discriminate. injection H as <-. bool_to_prop.
  split; [|done]. rewrite !andb_true_iff, Z.eqb_eq, !Z.leb_le. lia.
Qed.

(** The length field [decode_header] reports fits sixteen bits. *)
Lemma decode_header_ok l h :
  byte_list l -> decode_header l = Success h -> header_ok h.
Proof.
  intros Hl H. unfold decode_header in H.
  do 8 (destruct l as [|? l]; [discriminate|]).
  apply decode_fixed_success in H as [_ ->].
  unfold byte_list in Hl. rewrite !Forall_cons in Hl. destruct_and! Hl.
  unfold header_ok; simpl.
  repeat match goal with
  | |- _ /\ _ => split
  | |- u16 (read_be16 ?a ?b) => apply (read_be16_bytes a b)
  end; assumption.
Qed.

(** A decoded header depends on the first eight bytes only. *)
Lemma decode_header_take l :
  (kHeaderSize <= length l)%nat -> decode_header (take kHeaderSize l) = decode_header l.
Proof.
  intros Hl. unfold kHeaderSize in *.
  do 8 (destruct l as [|? l]; [simpl in Hl; lia|]). reflexivity.
Qed.

Lemma decode_header_app l1 l2 :
  (kHeaderSize <= length l1)%nat -> decode_header (l1 ++ l2) = decode_header l1.
Proof.
  intros Hl. unfold kHeaderSize in *.
  do 8 (destruct l1 as [|? l1]; [simpl in Hl; lia|]). reflexivity.
Qed.

Lemma decode_encoded h rest :
  header_ok h -> decode_header (encode h ++ rest) = Success h.
Proof.
  intros (_ & Hl & Hg & _ & _).
  destruct (high_low_byte _ Hl) as (_ & _ & El), (high_low_byte _ Hg) as (_ & _ & Eg).
  destruct h as [op v fl len grp sq cmd]; simpl in *.
  unfold decode_header_fixed. rewrite El, Eg. destruct op, v; reflexivity.
Qed.

(** Decoding then encoding reproduces the first eight bytes exactly: every
    accepted header has one encoding, reserved bits and unknown flags included. *)
Lemma encode_decoded (l : bytes) (h : Header) :
  byte_list l -> decode_header l = Success h -> encode h = take kHeaderSize l.
Proof.
  intros Hl H. unfold decode_header in H.
  do 8 (destruct l as [|? l]; [discriminate|]).
  apply decode_fixed_success in H as [Hok ->].
  unfold byte_list in Hl. rewrite !Forall_cons in Hl. destruct_and! Hl.
  unfold encode; cbn [h_op h_version h_flags h_length h_group h_seq h_command].
  rewrite byte0_reencode by done.
  repeat match goal with
  | H1 : u8 ?a, H2 : u8 ?b |- context [high_byte (read_be16 ?a ?b)] =>
      destruct (read_be16_bytes a b H1 H2) as (_ & -> & ->)
  end.
  reflexivity.
Qed.

(** [decode_header] fails in exactly the four documented ways: a truncated
    span, reserved bits, a reserved version, an operation above 3 -- and in no
    other. *)
Lemma decode_header_errors (l : bytes) (e : Error) :
  decode_header l = Fail e <->
  ((length l < kHeaderSize)%nat /\ e = Error_at MalformedMessage "smp header: truncated") \/
  exists b0, head l = Some b0 /\ (kHeaderSize <= length l)%nat /\
    ((Z.land b0 kReservedMask <> 0 /\
        e = Error_at MalformedMessage "smp header: reserved bits set") \/
     (Z.land b0 kReservedMask = 0 /\
        kMaxVersion < Z.land (Z.shiftr b0 kVersionShift) kVersionMask /\
        e = Error_at UnsupportedSmpVersion "smp header: reserved version") \/
     (Z.land b0 kReservedMask = 0 /\
        Z.land (Z.shiftr b0 kVersionShift) kVersionMask <= kMaxVersion /\
        kMaxOperation < Z.land b0 kOperationMask /\
        e = Error_at MalformedMessage "smp header: unknown operation")).
Proof.
  unfold kHeaderSize.
  do 8 (destruct l as [|? l];
    [split; [intros [= <-]; left; simpl; split; [lia|done]
            |intros [[_ ->]|(? & _ & Hlen & _)]; [done|simpl in Hlen; lia]]|]).
  simpl. unfold decode_header_fixed, fail. split.
  - intros H. right. eexists. split; [done|]. split; [lia|].
    repeat split_if; bool_to_prop; simplify_eq; naive_solver lia.
  - intros [[? _]|(b0 & [= <-] & _ & H)]; [lia|].
    repeat split_if; bool_to_prop; simplify_eq; naive_solver lia.
Qed.

(** ** Properties *)

(** Encoding and decoding a header are inverse. A header whose fields are at
    their widths is decoded from its encoding, whatever bytes follow it; and a
    header decoded from eight bytes encodes to those bytes, so every accepted
    header has one encoding, reserved bits and unknown flags included. *)
Lemma header_roundtrip (h : Header) (l : bytes) :
  (header_ok h -> decode_header (encode h ++ l) = Success h) /\
  (byte_list l -> decode_header l = Success h -> encode h = take kHeaderSize l).
Proof. split; [apply decode_encoded|apply encode_decoded]. Qed.
