(* ===== verification/Assembler.v ===== *)
(** * The message assembler

    [src/smp/assembler.hpp] and [src/smp/assembler.cpp]: a byte stream split
    back into SMP messages. The abstract specification is [stream], a relation
    between the bytes of a connection, the messages they carry and what is left
    at the end; [feed] is shown to implement it for every way of cutting the
    stream into fragments. *)

From S2P Require Import Prelude Errors Header.

(** What [MessageSink::on_message] receives: the header and its payload. The
    sequence of calls is the assembler's only output. *)
Abbreviation Message := (Header * bytes)%type.

(** [smp::AssemblerLimits]. *)
Record AssemblerLimits := mkAssemblerLimits {
  max_payload : Z;
  max_buffer : nat
}.

(** [smp::MessageAssembler]. *)
Record MessageAssembler := mkAssembler {
  limits_ : AssemblerLimits;
  buffer_ : bytes;
  peak_buffered_ : nat;
  feeding_ : bool
}.

(** The constructor. The reservation it makes is not observable. *)
Definition new_assembler (limits : AssemblerLimits) : MessageAssembler :=
  mkAssembler limits [] 0 false.

(** [MessageAssembler::reset]. *)
Definition reset (a : MessageAssembler) : MessageAssembler :=
  mkAssembler (limits_ a) [] (peak_buffered_ a) (feeding_ a).

(** [MessageAssembler::message_size]. *)
Definition message_size (limits : AssemblerLimits) (header : Header) : Result nat :=
  if max_payload limits <? h_length header then
    fail MessageTooLarge "assembler: payload exceeds limit"
  else if (max_buffer limits <? total_size header)%nat then
    fail MessageTooLarge "assembler: message exceeds buffer limit"
  else Success (total_size header).

(** [MessageAssembler::stash]. *)
Definition stash (l : bytes) (a : MessageAssembler) : MessageAssembler :=
  let buffer := buffer_ a ++ l in
  mkAssembler (limits_ a) buffer (peak_buffered_ a `max` length buffer)%nat (feeding_ a).

Definition set_feeding (b : bool) (a : MessageAssembler) : MessageAssembler :=
  mkAssembler (limits_ a) (buffer_ a) (peak_buffered_ a) b.

(** [header.length] bytes after the header: [subspan(kHeaderSize, length)]. *)
Definition payload_of (header : Header) (l : bytes) : bytes :=
  take (Z.to_nat (h_length header)) (drop kHeaderSize l).

(** The variables of the loop in [feed]: the bytes not yet consumed, the
    assembler, and the calls made to the sink so far. *)
Record feed_state := mkFeed {
  fs_input : bytes;
  fs_asm : MessageAssembler;
  fs_out : list Message
}.

Abbreviation feed_result := (Result unit * MessageAssembler * list Message)%type.

(** A top-up of the slow path: [stash(input.first(take))] where [take] is what
    is still wanted, or all there is. *)
Definition top_up (wanted : nat) (input : bytes) (a : MessageAssembler)
  : bytes * MessageAssembler :=
  let n := (wanted `min` length input)%nat in
  (drop n input, stash (take n input) a).

(** The body of the [while (true)] loop of [MessageAssembler::feed], with the
    empty-buffer path. *)
Definition feed_fast (s : feed_state) : loop feed_state feed_result :=
  let input := fs_input s in
  let a := fs_asm s in
  if (length input <? kHeaderSize)%nat then Return (Success tt, stash input a, fs_out s)
  else match decode_header input with
  | Fail e => Return (Fail e, reset a, fs_out s)
  | Success header =>
      match message_size (limits_ a) header with
      | Fail e => Return (Fail e, reset a, fs_out s)
      | Success total =>
          if (length input <? total)%nat then Return (Success tt, stash input a, fs_out s)
          else Continue (mkFeed (drop total input) a
                           (fs_out s ++ [(header, payload_of header input)]))
      end
  end.

(** The held-message path, from the decode of the buffered header on. *)
Definition feed_slow_message (input : bytes) (a : MessageAssembler) (out : list Message)
  : loop feed_state feed_result :=
  match decode_header (buffer_ a) with
  | Fail e => Return (Fail e, reset a, out)
  | Success header =>
      match message_size (limits_ a) header with
      | Fail e => Return (Fail e, reset a, out)
      | Success total =>
          let '(input, a) :=
            if (length (buffer_ a) <? total)%nat
            then top_up (total - length (buffer_ a)) input a else (input, a) in
          if (length (buffer_ a) <? total)%nat then Return (Success tt, a, out)
          else Continue (mkFeed input (reset a)
                           (out ++ [(header, payload_of header (buffer_ a))]))
      end
  end.

(** The held-message path: complete the header first. *)
Definition feed_slow (s : feed_state) : loop feed_state feed_result :=
  let '(input, a) :=
    if (length (buffer_ (fs_asm s)) <? kHeaderSize)%nat
    then top_up (kHeaderSize - length (buffer_ (fs_asm s))) (fs_input s) (fs_asm s)
    else (fs_input s, fs_asm s) in
  if (length (buffer_ a) <? kHeaderSize)%nat then Return (Success tt, a, fs_out s)
  else feed_slow_message input a (fs_out s).

Definition feed_body (s : feed_state) : loop feed_state feed_result :=
  if bool_decide (buffer_ (fs_asm s) = []) then feed_fast s else feed_slow s.

(** [MessageAssembler::feed]: the re-entrancy refusal, then the loop, whose
    guard clears the flag on every exit. Each round either consumes a whole
    message from the input or empties the buffer, so [length input + 2] rounds
    are enough ([feed_total]). *)
Definition feed_fuel (input : bytes) : nat := length input + 2.

Definition feed (input : bytes) (a : MessageAssembler) : option feed_result :=
  if feeding_ a then Some (fail InvalidState "assembler: reentrant feed", a, [])
  else
    match iterate feed_body (feed_fuel input) (mkFeed input (set_feeding true a) []) with
    | Some (r, a', out) => Some (r, set_feeding false a', out)
    | None => None
    end.

(** Feeding the fragments of a stream in turn; like the client, stop at the
    first framing violation. *)
Fixpoint feed_all (frags : list bytes) (a : MessageAssembler) : option feed_result :=
  match frags with
  | [] => Some (Success tt, a, [])
  | f :: rest =>
      match feed f a with
      | Some (Success _, a', out) =>
          match feed_all rest a' with
          | Some (r, a'', out') => Some (r, a'', out ++ out')
          | None => None
          end
      | other => other
      end
  end.

(** ** The abstract specification *)

(** What a stream ends in: bytes of a message that is not complete, or a
    framing violation. *)
Inductive ending := Partial (rest : bytes) | Violation (e : Error).

Inductive stream (lim : AssemblerLimits) : bytes -> list Message -> ending -> Prop :=
| stream_short l :
    (length l < kHeaderSize)%nat -> stream lim l [] (Partial l)
| stream_bad_header l e :
    (kHeaderSize <= length l)%nat -> decode_header l = Fail e ->
    stream lim l [] (Violation e)
| stream_too_large l h e :
    (kHeaderSize <= length l)%nat -> decode_header l = Success h ->
    message_size lim h = Fail e -> stream lim l [] (Violation e)
| stream_partial l h total :
    (kHeaderSize <= length l)%nat -> decode_header l = Success h ->
    message_size lim h = Success total -> (length l < total)%nat ->
    stream lim l [] (Partial l)
| stream_message l h total ms e :
    (kHeaderSize <= length l)%nat -> decode_header l = Success h ->
    message_size lim h = Success total -> (total <= length l)%nat ->
    stream lim (drop total l) ms e ->
    stream lim l ((h, payload_of h l) :: ms) e.

Lemma message_size_total lim h total :
  message_size lim h = Success total ->
  total = total_size h /\ (kHeaderSize <= total <= max_buffer lim)%nat
  /\ h_length h <= max_payload lim.
Proof.
  unfold message_size. intros H. repeat split_if; simplify_eq.
  apply Nat.ltb_ge in Heqb0. bool_to_prop. unfold total_size in *. repeat split; lia.
Qed.

(** Every stream has exactly one reading. *)
Lemma stream_exists lim l : exists ms e, stream lim l ms e.
Proof.
  remember (length l) as n eqn:Hn. revert l Hn.
  induction (lt_wf n) as [n _ IH]. intros l Hn.
  destruct (decide (length l < kHeaderSize)%nat) as [?|?]; [by eexists _, _; apply stream_short|].
  destruct (decode_header l) as [h|e] eqn:Hd;
    [|eexists _, _; eapply stream_bad_header; [lia|done]].
  destruct (message_size lim h) as [total|e] eqn:Hs;
    [|eexists _, _; eapply stream_too_large; [lia|done|done]].
  destruct (decide (length l < total)%nat) as [?|?];
    [eexists _, _; eapply stream_partial; [lia|done|done|done]|].
  destruct (message_size_total _ _ _ Hs) as (_ & [? _] & _). unfold kHeaderSize in *.
  destruct (IH (length (drop total l))) with (l := drop total l) as (ms & e & Hst);
    [rewrite length_drop; lia|done|].
  eexists _, _. eapply stream_message; [unfold kHeaderSize; lia|done|done|lia|done].
Qed.

Lemma stream_det lim l ms e ms' e' :
  stream lim l ms e -> stream lim l ms' e' -> ms = ms' /\ e = e'.
Proof.
  intros H. revert ms' e'.
  induction H as [| | | |l h total ms e ? ? ? ? Hst IH]; intros ms' e' H';
    inversion H'; subst;
    repeat match goal with
    | H1 : ?x = Success ?a, H2 : ?x = Success ?b |- _ =>
        assert (a = b) as <- by congruence; clear H2
    end; try lia; try (split; congruence).
  match goal with
  | Hs : stream _ (drop total l) _ _ |- _ => destruct (IH _ _ Hs) as [-> ->]
  end. split; reflexivity.
Qed.

(** ** The assembler's invariant *)

(** What is held between calls is the unfinished head of a message, no call is
    in progress, and what is held never exceeded the bound: one message, or one
    header where the configured buffer is smaller than that. *)
Record assembler_ok (a : MessageAssembler) : Prop := {
  ok_partial : stream (limits_ a) (buffer_ a) [] (Partial (buffer_ a));
  ok_peak : (peak_buffered_ a <= kHeaderSize `max` max_buffer (limits_ a))%nat;
  ok_held : (length (buffer_ a) <= peak_buffered_ a)%nat
}.

Lemma new_assembler_ok lim : assembler_ok (new_assembler lim).
Proof. split; simpl; [apply stream_short; simpl; unfold kHeaderSize; lia|lia|lia]. Qed.

(** What one call is to produce from the bytes held and the bytes given. *)
Definition feeds_to (lim : AssemblerLimits) (l : bytes) (out : list Message) (r : feed_result) : Prop :=
  exists ms e, stream lim l ms e /\
    let '(res, a', out') := r in
    out' = out ++ ms /\ limits_ a' = lim /\ assembler_ok a' /\
    match e with
    | Partial rest => res = Success tt /\ buffer_ a' = rest
    | Violation err => res = Fail err /\ buffer_ a' = []
    end.

(** The measure of the loop. *)
Definition feed_measure (s : feed_state) : nat :=
  (length (fs_input s) + if bool_decide (buffer_ (fs_asm s) = []) then 0 else 1)%nat.

(** One round either ends the call with what the specification asks for, or
    hands the next round a smaller problem whose answer extends to this one. *)
Definition round_ok (s : feed_state) (step : loop feed_state feed_result) : Prop :=
  let l := buffer_ (fs_asm s) ++ fs_input s in
  match step with
  | Return r => feeds_to (limits_ (fs_asm s)) l (fs_out s) r
  | Continue s' =>
      limits_ (fs_asm s') = limits_ (fs_asm s) /\ assembler_ok (fs_asm s') /\
      (feed_measure s' < feed_measure s)%nat /\
      forall r, feeds_to (limits_ (fs_asm s)) (buffer_ (fs_asm s') ++ fs_input s') (fs_out s') r ->
        feeds_to (limits_ (fs_asm s)) l (fs_out s) r
  end.

Lemma feeds_to_partial lim l out a :
  limits_ a = lim -> assembler_ok a -> buffer_ a = l ->
  feeds_to lim l out (Success tt, a, out).
Proof.
  intros <- Hok <-. exists [], (Partial (buffer_ a)). rewrite app_nil_r.
  split; [apply Hok|]. repeat split; apply Hok.
Qed.

Lemma reset_ok a :
  (peak_buffered_ a <= kHeaderSize `max` max_buffer (limits_ a))%nat -> assembler_ok (reset a).
Proof. intros H. split; simpl; [apply stream_short; simpl; unfold kHeaderSize; lia|done|lia]. Qed.

Lemma feeds_to_violation lim l out a e :
  limits_ a = lim -> (peak_buffered_ a <= kHeaderSize `max` max_buffer lim)%nat ->
  stream lim l [] (Violation e) ->
  feeds_to lim l out (Fail e, reset a, out).
Proof.
  intros <- Hp Hs. exists [], (Violation e). rewrite app_nil_r.
  split; [done|]. repeat split; by apply reset_ok.
Qed.

Lemma feeds_to_message lim l out h total r :
  (kHeaderSize <= length l)%nat -> decode_header l = Success h ->
  message_size lim h = Success total -> (total <= length l)%nat ->
  feeds_to lim (drop total l) (out ++ [(h, payload_of h l)]) r ->
  feeds_to lim l out r.
Proof.
  intros Hl Hd Hs Ht (ms & e & Hst & Hr). exists ((h, payload_of h l) :: ms), e.
  split; [by eapply stream_message|]. destruct r as [[res a'] out'].
  destruct Hr as (-> & Hr). split; [|done]. by rewrite <- app_assoc.
Qed.

(** Stashing bytes that leave the message unfinished keeps the invariant. *)
Lemma stash_ok a l :
  (peak_buffered_ a <= kHeaderSize `max` max_buffer (limits_ a))%nat ->
  stream (limits_ a) (buffer_ a ++ l) [] (Partial (buffer_ a ++ l)) ->
  assembler_ok (stash l a).
Proof.
  intros Hp Hs. split; simpl; [done| |lia].
  assert (length (buffer_ a ++ l) < kHeaderSize \/ length (buffer_ a ++ l) <= max_buffer (limits_ a))%nat
    as Hb.
  { inversion Hs as [| | |? h total ? ? Hm|]; subst; [by left|].
    apply message_size_total in Hm as (_ & ? & _). right. lia. }
  lia.
Qed.

Lemma feed_fast_ok s :
  buffer_ (fs_asm s) = [] -> assembler_ok (fs_asm s) -> round_ok s (feed_fast s).
Proof.
  intros Hb Hok. destruct s as [input a out]. simpl in *.
  unfold feed_fast, round_ok; cbn [fs_asm fs_input fs_out]. rewrite Hb. cbn [app].
  pose proof (ok_peak a Hok) as Hp.
  destruct (Nat.ltb_spec (length input) kHeaderSize).
  { apply feeds_to_partial; [done| |by simpl; rewrite Hb].
    apply stash_ok; [done|]. rewrite Hb. by apply stream_short. }
  destruct (decode_header input) as [h|e] eqn:Hd;
    [|apply feeds_to_violation; [done|done|by apply stream_bad_header]].
  destruct (message_size (limits_ a) h) as [total|e] eqn:Hs;
    [|apply feeds_to_violation; [done|done|by eapply stream_too_large]].
  destruct (Nat.ltb_spec (length input) total).
  { apply feeds_to_partial; [done| |by simpl; rewrite Hb].
    apply stash_ok; [done|]. rewrite Hb. by eapply stream_partial. }
  destruct (message_size_total _ _ _ Hs) as (_ & [? _] & _).
  simpl. rewrite Hb. repeat split; try apply Hok.
  - unfold feed_measure; simpl. rewrite Hb, length_drop. unfold kHeaderSize in *.
    case_bool_decide; [lia|done].
  - intros r Hr. simpl in Hr. by eapply feeds_to_message.
Qed.

(** The top-up hands over what is wanted, or all there is. *)
Lemma top_up_spec n input a input' a' :
  top_up n input a = (input', a') ->
  buffer_ a' ++ input' = buffer_ a ++ input /\ limits_ a' = limits_ a /\
  peak_buffered_ a' = (peak_buffered_ a `max` length (buffer_ a'))%nat /\
  length (buffer_ a') = (length (buffer_ a) + n `min` length input)%nat /\
  length input' = (length input - n `min` length input)%nat.
Proof.
  unfold top_up. intros [= <- <-]. simpl.
  rewrite <- app_assoc, take_drop, length_app, length_take, length_drop.
  repeat split; lia.
Qed.

Lemma payload_of_prefix h l1 l2 :
  length l1 = total_size h -> payload_of h (l1 ++ l2) = payload_of h l1.
Proof.
  intros Hl. unfold payload_of, total_size in *.
  rewrite drop_app_le by lia. rewrite take_app_le; [done|]. rewrite length_drop. lia.
Qed.

(** The held-message path once the header is whole. *)
Lemma feed_slow_message_ok s input a :
  buffer_ a ++ input = buffer_ (fs_asm s) ++ fs_input s ->
  limits_ a = limits_ (fs_asm s) ->
  (peak_buffered_ a <= kHeaderSize `max` max_buffer (limits_ a))%nat ->
  buffer_ (fs_asm s) <> [] ->
  (kHeaderSize <= length (buffer_ a))%nat ->
  (length input <= length (fs_input s))%nat ->
  (length (buffer_ a) = kHeaderSize \/
     stream (limits_ a) (buffer_ a) [] (Partial (buffer_ a))) ->
  round_ok s (feed_slow_message input a (fs_out s)).
Proof.
  intros Heq Hlim Hp Hne Hlen Hin Hor. unfold feed_slow_message, round_ok.
  rewrite <- Heq, <- Hlim.
  assert (decode_header (buffer_ a ++ input) = decode_header (buffer_ a)) as Hd'
    by by apply decode_header_app.
  assert (kHeaderSize <= length (buffer_ a ++ input))%nat as Hlen' by (rewrite length_app; lia).
  destruct (decode_header (buffer_ a)) as [h|e] eqn:Hd;
    [|apply feeds_to_violation; [done|done|by apply stream_bad_header]].
  destruct (message_size (limits_ a) h) as [total|e] eqn:Hs;
    [|apply feeds_to_violation; [done|done|by eapply stream_too_large]].
  destruct (message_size_total _ _ _ Hs) as (-> & [Htot Hmax] & _).
  assert (length (buffer_ a) <= total_size h)%nat as Hle.
  { destruct Hor as [->|Hst]; [done|].
    inversion Hst as [| | |? h' t' _ Hdh Hsh Hlt|]; subst; [lia|].
    assert (h' = h) as -> by congruence. assert (t' = total_size h) as -> by congruence. lia. }
  destruct (if (length (buffer_ a) <? total_size h)%nat
            then top_up (total_size h - length (buffer_ a)) input a else (input, a))
    as [input' a'] eqn:Hup.
  assert (buffer_ a' ++ input' = buffer_ a ++ input /\ limits_ a' = limits_ a /\
    (peak_buffered_ a' <= kHeaderSize `max` max_buffer (limits_ a))%nat /\
    length (buffer_ a') = (length (buffer_ a) + (total_size h - length (buffer_ a)) `min` length input)%nat /\
    (length input' <= length input)%nat /\ (length (buffer_ a') <= peak_buffered_ a' \/ total_size h <= length (buffer_ a'))%nat)
    as (Heq' & Hlim' & Hp' & Hlb & Hli & Hpk).
  { destruct (Nat.ltb_spec (length (buffer_ a)) (total_size h)).
    - apply top_up_spec in Hup as (-> & -> & -> & E1 & E2). rewrite E1. repeat split; lia.
    - injection Hup as <- <-. repeat split; lia. }
  destruct (Nat.ltb_spec (length (buffer_ a')) (total_size h)) as [Hlt|Hge].
  - assert (input' = []) as ->.
    { apply length_zero_iff_nil. apply (f_equal length) in Heq'. rewrite !length_app in Heq'. lia. }
    rewrite app_nil_r in Heq'. rewrite <- Heq' in *.
    apply feeds_to_partial; [by rewrite Hlim'| |done].
    split; [rewrite Hlim'; by eapply stream_partial|by rewrite Hlim'|].
    lia.
  - simpl. repeat split.
    + done.
    + simpl. apply stream_short. simpl. unfold kHeaderSize. lia.
    + simpl. by rewrite Hlim'.
    + simpl. lia.
    + unfold feed_measure; simpl. repeat case_bool_decide; try done; lia.
    + intros r Hr. rewrite <- Heq' in *.
      assert (length (buffer_ a') = total_size h) as Hlen'' by lia.
      eapply feeds_to_message; [done|done|done|rewrite length_app; lia|].
      rewrite <- Hlen'' at 1. rewrite drop_app_length, payload_of_prefix by done. done.
Qed.

Lemma feed_slow_ok s :
  buffer_ (fs_asm s) <> [] -> assembler_ok (fs_asm s) -> round_ok s (feed_slow s).
Proof.
  intros Hne Hok. unfold feed_slow. pose proof (ok_peak _ Hok) as Hp.
  destruct (Nat.ltb_spec (length (buffer_ (fs_asm s))) kHeaderSize) as [Hlt|Hge].
  - destruct (top_up _ (fs_input s) (fs_asm s)) as [input a] eqn:Hup.
    apply top_up_spec in Hup as (Heq & Hlim & Hpk & Hlb & Hli).
    assert (peak_buffered_ a <= kHeaderSize `max` max_buffer (limits_ a))%nat as Hp'
      by (rewrite Hlim; lia).
    destruct (Nat.ltb_spec (length (buffer_ a)) kHeaderSize) as [Hlt'|Hge'].
    + assert (input = []) as -> by (apply length_zero_iff_nil; lia).
      unfold round_ok. rewrite <- Heq, app_nil_r.
      apply feeds_to_partial; [done| |done].
      split; [by apply stream_short|done|lia].
    + apply feed_slow_message_ok; try done; lia.
  - destruct (Nat.ltb_spec (length (buffer_ (fs_asm s))) kHeaderSize); [lia|].
    apply feed_slow_message_ok; try done. right. apply Hok.
Qed.

Lemma feed_body_ok s : assembler_ok (fs_asm s) -> round_ok s (feed_body s).
Proof.
  intros Hok. unfold feed_body. case_bool_decide; [by apply feed_fast_ok|by apply feed_slow_ok].
Qed.

Lemma feed_loop_ok fuel s :
  assembler_ok (fs_asm s) -> (feed_measure s < fuel)%nat ->
  exists r, iterate feed_body fuel s = Some r /\
    feeds_to (limits_ (fs_asm s)) (buffer_ (fs_asm s) ++ fs_input s) (fs_out s) r.
Proof.
  revert s. induction fuel as [|fuel IH]; intros s Hok Hm; [lia|]. simpl.
  pose proof (feed_body_ok s Hok) as Hr. unfold round_ok in Hr.
  destruct (feed_body s) as [s'|r]; [|by eexists].
  destruct Hr as (Hlim & Hok' & Hlt & Hback).
  destruct (IH s' Hok') as (r & E & Hf); [lia|].
  exists r. split; [done|]. apply Hback. by rewrite <- Hlim.
Qed.

Lemma set_feeding_ok b a : assembler_ok a -> assembler_ok (set_feeding b a).
Proof. intros [? ? ?]. by split. Qed.

(** What a call that is not re-entrant returns: always a result, and the one
    the specification gives for the bytes held followed by the bytes given. *)
Lemma feed_spec input a :
  assembler_ok a -> feeding_ a = false ->
  exists r, feed input a = Some r /\ feeding_ (r.1.2) = false /\
    feeds_to (limits_ a) (buffer_ a ++ input) [] r.
Proof.
  intros Hok Hf. unfold feed. rewrite Hf.
  destruct (feed_loop_ok (feed_fuel input) (mkFeed input (set_feeding true a) []))
    as ([[res a'] out] & -> & ms & e & Hst & -> & Hlim & Hok' & He).
  - by apply set_feeding_ok.
  - unfold feed_measure, feed_fuel. simpl. case_bool_decide; lia.
  - eexists. split; [done|]. split; [done|]. exists ms, e. split; [done|].
    split; [done|]. split; [done|]. split; [by apply set_feeding_ok|]. by destruct e.
Qed.

(** ** Streams and fragments *)

(** A message read from a prefix is read from the whole stream. *)
Lemma stream_app_partial lim l1 ms1 rest l2 ms2 e :
  stream lim l1 ms1 (Partial rest) -> stream lim (rest ++ l2) ms2 e ->
  stream lim (l1 ++ l2) (ms1 ++ ms2) e.
Proof.
  intros H. remember (Partial rest) as p eqn:Hp. revert rest Hp.
  induction H as [| | | |l h total ms p ? ? Hs ? Hst IH]; intros rest Hp Hl2; simplify_eq; try done.
  destruct (message_size_total _ _ _ Hs) as (Ht & _ & _).
  simpl. assert (payload_of h l = payload_of h (l ++ l2)) as ->.
  { unfold payload_of, total_size in *. rewrite drop_app_le by lia.
    rewrite take_app_le; [done|]. rewrite length_drop. lia. }
  eapply stream_message; [rewrite length_app; lia|by rewrite decode_header_app|done| |].
  - rewrite length_app. lia.
  - rewrite drop_app_le by lia. by eapply IH.
Qed.

Lemma stream_app_violation lim l1 ms e l2 :
  stream lim l1 ms (Violation e) -> stream lim (l1 ++ l2) ms (Violation e).
Proof.
  intros H. remember (Violation e) as p eqn:Hp. revert Hp.
  induction H as [| | | |l h total ms p ? ? Hs ? Hst IH]; intros Hp; simplify_eq.
  - apply stream_bad_header; [rewrite length_app; lia|by rewrite decode_header_app].
  - eapply stream_too_large; [rewrite length_app; lia|by rewrite decode_header_app|done].
  - destruct (message_size_total _ _ _ Hs) as (Ht & _ & _).
    assert (payload_of h l = payload_of h (l ++ l2)) as ->.
    { unfold payload_of, total_size in *. rewrite drop_app_le by lia.
      rewrite take_app_le; [done|]. rewrite length_drop. lia. }
    eapply stream_message; [rewrite length_app; lia|by rewrite decode_header_app|done| |].
    + rewrite length_app. lia.
    + rewrite drop_app_le by lia. by apply IH.
Qed.

(** Feeding the fragments of a stream reads the stream. *)
Lemma feed_all_spec frags a :
  assembler_ok a -> feeding_ a = false ->
  exists res a' out e, feed_all frags a = Some (res, a', out) /\
    stream (limits_ a) (buffer_ a ++ concat frags) out e /\
    assembler_ok a' /\ feeding_ a' = false /\ limits_ a' = limits_ a /\
    match e with
    | Partial rest => res = Success tt /\ buffer_ a' = rest
    | Violation err => res = Fail err /\ buffer_ a' = []
    end.
Proof.
  revert a. induction frags as [|f frags IH]; intros a Hok Hf.
  { exists (Success tt), a, [], (Partial (buffer_ a)). simpl. rewrite app_nil_r.
    repeat split; try done; apply Hok. }
  destruct (feed_spec f a Hok Hf) as ([[res a1] out1] & E & Hf1 & ms & e & Hst & Hout & Hlim & Hok1 & He).
  simpl in Hf1, Hout. subst out1.
  cbn [feed_all concat]. rewrite E, app_assoc. destruct e as [rest|err].
  - destruct He as [-> <-].
    destruct (IH a1 Hok1 Hf1) as (res2 & a2 & out2 & e2 & -> & Hst2 & Hok2 & Hf2 & Hlim2 & He2).
    rewrite Hlim in Hst2, Hlim2.
    exists res2, a2, (ms ++ out2), e2. repeat split; try done; try apply Hok2.
    by eapply stream_app_partial.
  - destruct He as [-> Hb]. exists (Fail err), a1, ms, (Violation err).
    repeat split; try done; try apply Hok1. by apply stream_app_violation.
Qed.

(** The bytes of a sequence of messages. *)
Definition message_bytes (m : Message) : bytes := encode m.1 ++ m.2.

(** A message the limits admit. *)
Definition message_ok (lim : AssemblerLimits) (m : Message) : Prop :=
  header_ok m.1 /\ zlen m.2 = h_length m.1 /\
  h_length m.1 <= max_payload lim /\ (total_size m.1 <= max_buffer lim)%nat.

Lemma stream_messages lim ms :
  Forall (message_ok lim) ms -> stream lim (concat (message_bytes <$> ms)) ms (Partial []).
Proof.
  induction 1 as [|[h p] ms (Hh & Hp & Hpay & Hbuf) _ IH].
  { apply stream_short. simpl. unfold kHeaderSize. lia. }
  cbn [fst snd] in *. rewrite fmap_cons. cbn [concat]. unfold message_bytes at 1; cbn [fst snd].
  set (l := (encode h ++ p) ++ concat (message_bytes <$> ms)).
  assert (decode_header l = Success h) as Hd.
  { unfold l. rewrite <- app_assoc. by apply decode_encoded. }
  assert (length (encode h ++ p) = total_size h) as Hlen.
  { rewrite length_app, encode_length. unfold total_size. lia. }
  assert (payload_of h l = p) as Hpl.
  { unfold l. rewrite payload_of_prefix by done. unfold payload_of.
    rewrite <- (encode_length h), drop_app_length. apply take_ge. lia. }
  replace ((h, p) :: ms) with ((h, payload_of h l) :: ms) by by rewrite Hpl.
  eapply stream_message; [|done| | |].
  - unfold l. rewrite !length_app, encode_length. lia.
  - unfold message_size. rewrite (proj2 (Z.ltb_ge _ _)) by lia.
    by rewrite (proj2 (Nat.ltb_ge _ _)) by lia.
  - unfold l. rewrite length_app. lia.
  - unfold l. rewrite <- Hlen, drop_app_length. done.
Qed.

(** ** Properties *)

(** C22. [feed] always returns, and refines the stream specification: it calls
    the sink with exactly the messages that the bytes already held followed by
    the bytes given contain, reports a violation exactly when the stream has
    one, holds exactly the unfinished rest, and keeps the invariant. *)
Theorem feed_refines_stream (input : bytes) (a : MessageAssembler) :
  assembler_ok a -> feeding_ a = false ->
  exists res a' out e,
    feed input a = Some (res, a', out) /\
    stream (limits_ a) (buffer_ a ++ input) out e /\
    assembler_ok a' /\ feeding_ a' = false /\
    match e with
    | Partial rest => res = Success tt /\ buffer_ a' = rest
    | Violation err => res = Fail err /\ buffer_ a' = []
    end.
Proof.
  intros Hok Hf.
  destruct (feed_spec input a Hok Hf) as ([[res a'] out] & E & Hf' & ms & e & Hst & Hout & _ & Hok' & He).
  simpl in Hout. subst out. exists res, a', ms, e. auto.
Qed.

Lemma feed_refines_stream_witness :
  exists res a' out e,
    feed [0; 0; 0; 1; 0; 0; 5; 6; 42; 8] (new_assembler (mkAssemblerLimits 16 64))
      = Some (res, a', out) /\
    stream (mkAssemblerLimits 16 64) ([] ++ [0; 0; 0; 1; 0; 0; 5; 6; 42; 8]) out e /\
    assembler_ok a' /\ feeding_ a' = false /\
    match e with
    | Partial rest => res = Success tt /\ buffer_ a' = rest
    | Violation err => res = Fail err /\ buffer_ a' = []
    end.
Proof.
  apply (feed_refines_stream _ (new_assembler (mkAssemblerLimits 16 64)));
    [apply new_assembler_ok|reflexivity].
Defined.

(** Fragmentation is irrelevant: two ways of cutting the same bytes into
    fragments give the same messages, the same outcome and the same bytes held,
    whole, byte by byte, or at any points between. *)
Lemma fragmentation_irrelevant (lim : AssemblerLimits) (frags frags' : list bytes) :
  concat frags = concat frags' ->
  exists res out a a',
    feed_all frags (new_assembler lim) = Some (res, a, out) /\
    feed_all frags' (new_assembler lim) = Some (res, a', out) /\
    buffer_ a = buffer_ a'.
Proof.
  intros Heq.
  destruct (feed_all_spec frags (new_assembler lim) (new_assembler_ok lim) eq_refl)
    as (res & a & out & e & E & Hst & _ & _ & _ & He).
  destruct (feed_all_spec frags' (new_assembler lim) (new_assembler_ok lim) eq_refl)
    as (res' & a' & out' & e' & E' & Hst' & _ & _ & _ & He').
  rewrite <- Heq in Hst'. destruct (stream_det _ _ _ _ _ _ Hst Hst') as [<- <-].
  exists res, out, a, a'.
  assert (res = res' /\ buffer_ a = buffer_ a') as [-> ?]; [|done].
  destruct e; destruct He as [-> ->], He' as [-> ->]; done.
Qed.

Lemma feed_all_messages lim ms frags :
  Forall (message_ok lim) ms -> concat frags = concat (message_bytes <$> ms) ->
  exists a, feed_all frags (new_assembler lim) = Some (Success tt, a, ms) /\ buffer_ a = [].
Proof.
  intros Hms Heq. pose proof (stream_messages lim ms Hms) as Hst.
  destruct (feed_all_spec frags (new_assembler lim) (new_assembler_ok lim) eq_refl)
    as (res & a & out & e & E & Hst' & _ & _ & _ & He).
  simpl in Hst'. rewrite Heq in Hst'.
  destruct (stream_det _ _ _ _ _ _ Hst Hst') as [<- <-]. destruct He as [-> Hb].
  by exists a.
Qed.

(** C23. Round trip over the wire: any sequence of messages within the limits,
    encoded one after the other and cut into any fragments, is delivered
    complete, in order and unchanged, with nothing left over. *)
Theorem messages_delivered (lim : AssemblerLimits) (ms : list Message) (frags : list bytes) :
  Forall (message_ok lim) ms -> concat frags = concat (message_bytes <$> ms) ->
  exists a, feed_all frags (new_assembler lim) = Some (Success tt, a, ms) /\ buffer_ a = [].
Proof. apply feed_all_messages. Qed.

Lemma messages_delivered_witness :
  exists a,
    feed_all [[0; 0; 0]; [1; 0; 0; 5; 6; 42]] (new_assembler (mkAssemblerLimits 16 64))
    = Some (Success tt, a, [(mkHeader Read V1 0 1 0 5 6, [42])]) /\ buffer_ a = [].
Proof.
  apply messages_delivered; [|reflexivity].
  repeat constructor; simpl; try (vm_compute; congruence); unfold total_size, kHeaderSize; simpl; lia.
Defined.

(** The buffer bound is real: across any sequence of calls from a new
    assembler the bytes held never exceed [max_buffer] -- or one header, where
    [max_buffer] is configured smaller than a header -- whatever the device
    claims in its length fields. *)
Lemma assembler_bounded (lim : AssemblerLimits) (frags : list bytes) :
  exists res a out,
    feed_all frags (new_assembler lim) = Some (res, a, out) /\
    (length (buffer_ a) <= peak_buffered_ a)%nat /\
    (peak_buffered_ a <= kHeaderSize `max` max_buffer lim)%nat /\
    Forall (fun m => h_length m.1 <= max_payload lim) out.
Proof.
  destruct (feed_all_spec frags (new_assembler lim) (new_assembler_ok lim) eq_refl)
    as (res & a & out & e & E & Hst & [? ? ?] & _ & Hlim & _).
  exists res, a, out. rewrite Hlim in *. repeat split; try done. simpl in Hst. clear -Hst.
  induction Hst as [| | | |l h total ms e ? ? Hs]; constructor; try done.
  by apply message_size_total in Hs as (_ & _ & ?).
Qed.
