(* ===== verification/ImageValues.v ===== *)
(** * Image hashes and versions

    [include/smply/mcuboot_image.hpp] and [src/image/image_values.cpp]: the two
    values a device reports about an image and MCUboot defines. The parser of
    the version string is shown to invert its printer and to stay within the
    widths of the header's fields. *)

From S2P Require Import Prelude Errors.
From Stdlib Require Import Ascii.


Open Scope Z_scope.

(** [limits::kMaxImageHashLength] and [limits::kMaxVersionStringLength]. *)
Definition kMaxImageHashLength : nat := 64.
Definition kMaxVersionStringLength : nat := 32.

(** [smply::ImageHash]. The class keeps a 64-byte array and a size, and every
    operation of it -- [bytes], [size], [empty], [operator==] -- reads the first
    [size] bytes only, so the value is that prefix. *)
Abbreviation ImageHash := bytes.

(** [ImageHash::empty]. *)
Definition hash_empty (h : ImageHash) : bool := bool_decide (h = []).

(** [ImageHash::from(ConstBytes)]. *)
Definition ImageHash_from (l : bytes) : Result ImageHash :=
  if bool_decide (l = []) then fail CborDecode "image: empty hash"
  else if (kMaxImageHashLength <? length l)%nat then fail CborDecode "image: hash too long"
  else Success l.

(** [smply::ImageVersion]. *)
Record ImageVersion := mkVersion {
  v_major : Z;
  v_minor : Z;
  v_revision : Z;
  v_build : Z
}.

#[global] Instance ImageVersion_eq_dec : EqDecision ImageVersion.
Proof. solve_decision. Defined.

Definition version_ok (v : ImageVersion) : Prop :=
  u8 (v_major v) /\ u8 (v_minor v) /\ u16 (v_revision v) /\ u32 (v_build v).

(** ** [ImageVersion::parse] *)

(** The value of a character between '0' and '9'. *)
Definition digit_value (c : ascii) : option Z :=
  let z := Z.of_N (N_of_ascii c) in
  if (48 <=? z) && (z <=? 57) then Some (z - 48) else None.

(** The digit loop of the lambda [number]: the value so far, whether a digit
    was consumed ([at != start]), and the text from [at] on. *)
Fixpoint number_loop (limit value : Z) (consumed : bool) (text : string)
  : Result (Z * string) :=
  match text with
  | String c rest =>
      match digit_value c with
      | Some d =>
          let value := value * 10 + d in
          if limit <? value then fail InvalidArgument "image: version component too large"
          else number_loop limit value true rest
      | None =>
          if consumed then Success (value, text)
          else fail InvalidArgument "image: version component missing"
      end
  | EmptyString =>
      if consumed then Success (value, text)
      else fail InvalidArgument "image: version component missing"
  end.

(** The lambda [number]: the component's value and the text after it. *)
Definition number (limit : Z) (text : string) : Result (Z * string) :=
  number_loop limit 0 false text.

(** The lambda [separator]: the text after the expected character, if it is
    there. *)
Definition separator (expected : ascii) (text : string) : option string :=
  match text with
  | String c rest => if Ascii.eqb c expected then Some rest else None
  | EmptyString => None
  end.

(** [if (separator('.') || separator('+'))]. *)
Definition build_separator (text : string) : option string :=
  match separator "." text with
  | Some rest => Some rest
  | None => separator "+" text
  end.

(** [ImageVersion::parse]. *)
Definition parse_version (text : string) : Result ImageVersion :=
  if bool_decide (text = "") || (kMaxVersionStringLength <? String.length text)%nat then
    fail InvalidArgument "image: version string not parseable"
  else
    let? (major, text) := number 255 text in
    match separator "." text with
    | None => fail InvalidArgument "image: version needs major.minor.revision"
    | Some text =>
        let? (minor, text) := number 255 text in
        match separator "." text with
        | None => fail InvalidArgument "image: version needs major.minor.revision"
        | Some text =>
            let? (revision, text) := number 65535 text in
            let? (build, text) :=
              match build_separator text with
              | Some text => number 4294967295 text
              | None => Success (0, text)
              end in
            match text with
            | EmptyString => Success (mkVersion major minor revision build)
            | String _ _ => fail InvalidArgument "image: trailing text after version"
            end
        end
    end.

(** ** [ImageVersion::to_string] *)

Definition digit_char (d : Z) : ascii := ascii_of_N (Z.to_N (d + 48)).

(** [std::to_string] of an unsigned value, least significant digit last. *)
Fixpoint decimal (fuel : nat) (n : Z) (acc : string) : string :=
  match fuel with
  | O => acc
  | S fuel' =>
      let acc' := String (digit_char (n mod 10)) acc in
      if n <? 10 then acc' else decimal fuel' (n / 10) acc'
  end.

(** Twenty digits hold any 64-bit value. *)
Definition to_string_u (n : Z) : string := decimal 20 n "".

Definition version_to_string (v : ImageVersion) : string :=
  to_string_u (v_major v) +:+ "." +:+ to_string_u (v_minor v) +:+ "." +:+
  to_string_u (v_revision v) +:+
  (if v_build v =? 0 then "" else "." +:+ to_string_u (v_build v)).

(** ** Lemmas *)

Lemma digit_value_char d : 0 <= d < 10 -> digit_value (digit_char d) = Some d.
Proof.
  intros Hd. assert (d ∈ seqZ 0 10) as Hin by (apply elem_of_seqZ; lia).
  revert Hin. clear Hd. vm_compute. intros Hin.
  repeat (apply elem_of_cons in Hin as [->|Hin]; [reflexivity|]). by apply elem_of_nil in Hin.
Qed.

(** The text [number] stops at: the end, or a character that is no digit. *)
Definition ends_number (text : string) : Prop :=
  match text with
  | EmptyString => True
  | String c _ => digit_value c = None
  end.

Lemma number_loop_stop limit value text :
  ends_number text -> number_loop limit value true text = Success (value, text).
Proof. destruct text as [|c text]; simpl; [done|]. by intros ->. Qed.

(** Reading back a printed number, digit by digit. *)
Lemma number_decimal limit fuel n acc v b :
  0 <= n < 10 ^ Z.of_nat fuel -> 0 <= v -> fuel <> 0%nat ->
  exists k, 0 <= k /\
    (v * 10 ^ k + n <= limit ->
     number_loop limit v b (decimal fuel n acc) = number_loop limit (v * 10 ^ k + n) true acc).
Proof.
  revert n acc. induction fuel as [|fuel IH]; intros n acc Hn Hv Hf; [done|].
  simpl. destruct (Z.ltb_spec n 10).
  - exists 1. split; [lia|]. intros Hl. rewrite Z.mod_small by lia. simpl.
    rewrite digit_value_char by lia. rewrite Z.pow_1_r in *.
    by rewrite (proj2 (Z.ltb_ge _ _)) by lia.
  - rewrite Nat2Z.inj_succ, Z.pow_succ_r in Hn by lia.
    assert (n = 10 * (n / 10) + n mod 10) as Hdm by (apply Z.div_mod; lia).
    pose proof (Z.mod_pos_bound n 10 ltac:(lia)) as Hm.
    destruct (IH (n / 10) (String (digit_char (n mod 10)) acc)) as (k & Hk & E); [|done| |].
    + split; [apply Z.div_pos; lia|apply Z.div_lt_upper_bound; lia].
    + intros ->. simpl in Hn. lia.
    + exists (k + 1). split; [lia|]. rewrite Z.pow_add_r, Z.pow_1_r by lia. intros Hl.
      assert (0 <= v * 10 ^ k) by (apply Z.mul_nonneg_nonneg; [lia|apply Z.pow_nonneg; lia]).
      rewrite E by lia. simpl. rewrite digit_value_char by lia.
      replace ((v * 10 ^ k + n / 10) * 10 + n mod 10) with (v * (10 ^ k * 10) + n) by lia.
      by rewrite (proj2 (Z.ltb_ge _ _)) by lia.
Qed.

Lemma number_to_string limit n acc :
  0 <= n <= limit -> limit < 10 ^ 20 -> ends_number acc ->
  number limit (decimal 20 n acc) = Success (n, acc).
Proof.
  intros Hn Hl Ha. unfold number.
  destruct (number_decimal limit 20 n acc 0 false) as (k & _ & E); [|lia|done|].
  - change (Z.of_nat 20) with 20. lia.
  - rewrite E by lia. rewrite Z.mul_0_l, Z.add_0_l. by apply number_loop_stop.
Qed.

Lemma decimal_app fuel n acc acc' :
  decimal fuel n (acc +:+ acc') = decimal fuel n acc +:+ acc'.
Proof.
  revert n acc. induction fuel as [|fuel IH]; intros n acc; [done|]. simpl.
  destruct (n <? 10); [done|].
  change (String (digit_char (n mod 10)) (acc +:+ acc'))
    with (String (digit_char (n mod 10)) acc +:+ acc'). apply IH.
Qed.

Lemma to_string_app n acc : to_string_u n +:+ acc = decimal 20 n acc.
Proof. unfold to_string_u. by rewrite <- decimal_app. Qed.

Lemma decimal_length fuel n acc m :
  0 <= n < 10 ^ Z.of_nat m -> (0 < m)%nat ->
  (String.length (decimal fuel n acc) <= m + String.length acc)%nat.
Proof.
  revert n acc m. induction fuel as [|fuel IH]; intros n acc m Hn Hm; simpl; [lia|].
  destruct (Z.ltb_spec n 10); simpl; [lia|].
  destruct m as [|m]; [lia|]. rewrite Nat2Z.inj_succ, Z.pow_succ_r in Hn by lia.
  destruct (decide (m = 0%nat)) as [->|]; [simpl in Hn; lia|].
  etrans; [apply (IH _ _ m); [|lia]|simpl; lia].
  split; [apply Z.div_pos; lia|apply Z.div_lt_upper_bound; lia].
Qed.

Lemma decimal_nonempty fuel n acc :
  fuel <> 0%nat \/ acc <> "" -> decimal fuel n acc <> "".
Proof.
  revert n acc. induction fuel as [|fuel IH]; intros n acc H; simpl; [naive_solver|].
  destruct (n <? 10); [done|]. apply IH. by right.
Qed.

Lemma number_fits limit text n rest :
  number limit text = Success (n, rest) -> 0 <= n <= limit.
Proof.
  unfold number. intros H.
  enough (forall v b, (b = true -> 0 <= v <= limit) -> 0 <= v ->
    number_loop limit v b text = Success (n, rest) -> 0 <= n <= limit) as Hg.
  { by apply (Hg 0 false); [|lia|]. }
  clear H. induction text as [|c text IH]; intros v b Hv H0; simpl.
  { destruct b; [|done]. intros [= <- <-]. by apply Hv. }
  destruct (digit_value c) as [d|] eqn:Hd.
  - assert (0 <= d).
    { unfold digit_value in Hd. split_if; [|done]. bool_to_prop. simplify_eq. lia. }
    destruct (Z.ltb_spec limit (v * 10 + d)); [done|]. apply IH; lia.
  - destruct b; [|done]. intros [= <- <-]. by apply Hv.
Qed.

#[local] Arguments decimal : simpl never.

Lemma separator_dot text : separator "." (String "." text) = Some text.
Proof. reflexivity. Qed.

Lemma dot_app text : "." +:+ text = String "." text.
Proof. reflexivity. Qed.

(** ** Properties *)

(** [ImageVersion::parse] inverts [ImageVersion::to_string]: every version
    a header can hold, build number present or not, round-trips through the
    device's text form, which always fits the 32 characters accepted. *)
Lemma version_roundtrip (v : ImageVersion) :
  version_ok v -> parse_version (version_to_string v) = Success v.
Proof.
  intros (Hma & Hmi & Hre & Hbu). destruct v as [ma mi re bu].
  unfold version_to_string; simpl in *. unfold fits in *. simpl (2 ^ _) in *.
  set (tail := if bu =? 0 then "" else "." +:+ to_string_u bu).
  rewrite !to_string_app, !dot_app.
  assert (String.length tail <= 11 /\ ends_number tail)%nat as [Htl Hte].
  { unfold tail. destruct (bu =? 0); simpl; [by split; [lia|]|].
    unfold to_string_u. pose proof (decimal_length 20 bu "" 10 ltac:(simpl; lia) ltac:(lia)) as Hl.
    simpl in Hl. split; [change (S (String.length (decimal 20 bu "")) <= 11)%nat; lia|done]. }
  unfold parse_version.
  match goal with |- context [bool_decide (?t = "")] => assert (t <> "") as Hne by (apply decimal_nonempty; by left) end.
  rewrite bool_decide_eq_false_2 by done.
  rewrite (proj2 (Nat.ltb_ge _ _)).
  2: { pose proof (decimal_length 20 re tail 5 ltac:(simpl; lia) ltac:(lia)) as H1.
       pose proof (decimal_length 20 mi (String "." (decimal 20 re tail)) 3 ltac:(simpl; lia) ltac:(lia)) as H2.
       pose proof (decimal_length 20 ma (String "." (decimal 20 mi (String "." (decimal 20 re tail)))) 3
         ltac:(simpl; lia) ltac:(lia)) as H3.
       cbn [String.length] in *. unfold kMaxVersionStringLength. lia. }
  cbn [orb]. rewrite number_to_string by (simpl; done || lia). cbn [result_bind].
  rewrite separator_dot, number_to_string by (simpl; done || lia). cbn [result_bind].
  rewrite separator_dot, number_to_string by (simpl; done || lia). cbn [result_bind].
  unfold tail. destruct (Z.eqb_spec bu 0) as [->|]; [done|].
  rewrite dot_app. unfold build_separator. rewrite separator_dot.
  unfold to_string_u. by rewrite number_to_string by (simpl; done || lia).
Qed.

(** Whatever text a device sends, a version [ImageVersion::parse] accepts
    is within the widths the fields are stored at: nothing is truncated by the
    narrowing casts. *)
Lemma parse_version_fits (text : string) (v : ImageVersion) :
  parse_version text = Success v -> version_ok v.
Proof.
  unfold parse_version. intros H. split_if; [done|].
  apply result_bind_Success in H as ([ma t1] & H1 & H).
  destruct (separator "." t1) as [t1'|]; [|done].
  apply result_bind_Success in H as ([mi t2] & H2 & H).
  destruct (separator "." t2) as [t2'|]; [|done].
  apply result_bind_Success in H as ([re t3] & H3 & H).
  apply result_bind_Success in H as ([bu t4] & H4 & H).
  destruct t4; [|done]. injection H as <-.
  apply number_fits in H1, H2, H3.
  assert (0 <= bu <= 4294967295) as Hb.
  { destruct (build_separator t3); [by apply number_fits in H4|]. simplify_eq. lia. }
  unfold version_ok, fits; simpl. lia.
Qed.
