(* ===== verification/UpdateTypes.v ===== *)
(** * The data of a firmware update

    The types of [include/smply/dfu/firmware_updater.hpp],
    [include/smply/groups/os.hpp], [include/smply/groups/image.hpp] and
    [src/dfu/update_state_machine.hpp] that the update decisions read and write.
    Enumerators carry a one-letter prefix naming their type ([S_] update state,
    [E_] effect, [K_] event kind, [A_] apply outcome, [M_] bootloader mode, [R_]
    refusal); record fields carry a prefix where two structures share a name.
    [std::optional] is [option], a duration or a time point is a [Z], and the
    pointer a lookup in a slot table returns is the index and the slot. *)

From S2P Require Import Prelude Errors ImageValues.

Abbreviation TimePoint := Z (only parsing).
Abbreviation Duration := Z (only parsing).

(** ** Enumerations *)

(** [smply::UpdateMode]. *)
Inductive UpdateMode := TestThenConfirm | ConfirmImmediately | UploadOnly.

(** [smply::UpdateState]. *)
Inductive UpdateState :=
| S_Idle
| S_QueryingParameters
| S_QueryingBootloader
| S_InspectingImages
| S_Planning
| S_Uploading
| S_VerifyingUpload
| S_MarkingForTest
| S_Resetting
| S_AwaitingDisconnect
| S_AwaitingReconnect
| S_VerifyingBooted
| S_AwaitingDeviceApply
| S_AwaitingConfirmation
| S_Confirming
| S_VerifyingConfirmed
| S_AwaitingDeviceCommit
| S_Completed
| S_Failed
| S_Cancelled.

(** [smply::is_terminal]. *)
Definition is_terminal (s : UpdateState) : bool :=
  match s with S_Completed | S_Failed | S_Cancelled => true | _ => false end.

(** [smply::ModeSource]. *)
Inductive ModeSource := Reported | Supplied | Assumed.

(** [smply::Refusal]. *)
Inductive Refusal :=
| R_RevertUnavailable | R_Downgrade | R_UnsupportedMode | R_MultiImageUnsupported.

(** [smply::CommitBy]. *)
Inductive CommitBy := Client | Device.

(** [smply::McubootMode]. *)
Inductive McubootMode :=
| M_Unknown
| M_SingleSlot
| M_SwapUsingScratch
| M_UpgradeOnly
| M_SwapUsingMove
| M_DirectXip
| M_DirectXipWithRevert
| M_RamLoad
| M_FirmwareLoader
| M_SingleSlotRamLoad
| M_SwapUsingOffset.

(** [dfu::Effect]. *)
Inductive Effect :=
| E_None
| E_Continue
| E_QueryParameters
| E_QueryBootloader
| E_ReadState
| E_StartUpload
| E_ResumeUpload
| E_MarkForTest
| E_Reset
| E_ForceReset
| E_AwaitDisconnect
| E_RequestReconnect
| E_AwaitApply
| E_RequestConfirmation
| E_Confirm
| E_Finish.

(** [dfu::Event::Kind]. *)
Inductive Kind :=
| K_Start
| K_Continue
| K_ParametersRead
| K_ParametersUnavailable
| K_BootloaderRead
| K_StateRead
| K_UploadFinished
| K_UploadSuspended
| K_MarkedForTest
| K_ResetAccepted
| K_Disconnected
| K_Reconnected
| K_ReconnectFailed
| K_Tick
| K_ConfirmApproved
| K_Confirmed
| K_Failed
| K_Cancel.

#[global] Instance UpdateMode_eq_dec : EqDecision UpdateMode.
Proof. solve_decision. Defined.

#[global] Instance UpdateState_eq_dec : EqDecision UpdateState.
Proof. solve_decision. Defined.

#[global] Instance ModeSource_eq_dec : EqDecision ModeSource.
Proof. solve_decision. Defined.

#[global] Instance Refusal_eq_dec : EqDecision Refusal.
Proof. solve_decision. Defined.

#[global] Instance CommitBy_eq_dec : EqDecision CommitBy.
Proof. solve_decision. Defined.

#[global] Instance McubootMode_eq_dec : EqDecision McubootMode.
Proof. solve_decision. Defined.

#[global] Instance Effect_eq_dec : EqDecision Effect.
Proof. solve_decision. Defined.

#[global] Instance Kind_eq_dec : EqDecision Kind.
Proof. solve_decision. Defined.

(** ** The device's slot table *)

(** [smply::ImageSlot]. *)
Record ImageSlot := mkSlot {
  sl_image : Z;
  sl_slot : Z;
  sl_version : string;
  sl_hash : option ImageHash;
  sl_bootable : bool;
  sl_pending : bool;
  sl_confirmed : bool;
  sl_active : bool;
  sl_permanent : bool
}.

(** [smply::ImageState]. *)
Record ImageState := mkImageState {
  slots : list ImageSlot;
  split_status : option Z
}.

(** [const ImageSlot*], not null: which entry of the table, and the entry. Two
    pointers into one table are equal exactly when the indices are. *)
Abbreviation slot_ptr := (nat * ImageSlot)%type.

(** A linear search for the first entry satisfying a test, as the range-based
    loops and [std::ranges::find_if] make it. *)
Fixpoint find_slot_from (i : nat) (test : ImageSlot -> bool) (l : list ImageSlot) : option slot_ptr :=
  match l with
  | [] => None
  | s :: l' => if test s then Some (i, s) else find_slot_from (S i) test l'
  end.

Definition find_slot (test : ImageSlot -> bool) (st : ImageState) : option slot_ptr :=
  find_slot_from 0 test (slots st).

(** [ImageState::active_slot]. *)
Definition active_slot (image : Z) (st : ImageState) : option slot_ptr :=
  find_slot (fun s => (sl_image s =? image) && sl_active s) st.

(** [ImageState::secondary]. *)
Definition secondary (image : Z) (st : ImageState) : option slot_ptr :=
  find_slot (fun s => (sl_image s =? image) && negb (sl_active s)) st.

(** [ImageState::find_by_hash]. *)
Definition find_by_hash (hash : ImageHash) (st : ImageState) : option slot_ptr :=
  find_slot (fun s => bool_decide (sl_hash s = Some hash)) st.

(** ** The plan *)

(** [smply::BootloaderMode]. *)
Record BootloaderMode := mkBootloaderMode {
  bm_mode : McubootMode;
  bm_raw_mode : Z;
  bm_no_downgrade : bool
}.

(** [smply::UpdatePlan], less [upload] and [reconnect_hint], which the driver
    reads and no decision does. *)
Record UpdatePlan := mkPlan {
  mode : UpdateMode;
  fallback_mode : option McubootMode;
  allow_no_revert : bool;
  check_downgrade : bool;
  skip_if_already_present : bool;
  disconnect_grace : Duration;
  apply_timeout : Duration;
  apply_poll_interval : Duration
}.

(** [dfu::Target::Build]. *)
Record Build := mkBuild { b_hash : ImageHash; b_version : ImageVersion }.

(** [dfu::Target]. The two builds of a direct-XIP target are a pair, primary
    then secondary. *)
Record Target := mkTarget {
  t_image : Z;
  t_commit : CommitBy;
  t_hash : ImageHash;
  t_version : ImageVersion;
  t_builds : option (Build * Build)
}.

(** [dfu::Image]: a target with what the machine has decided about it. *)
Record Image := mkImage {
  im_target : Target;
  chosen : nat;
  chosen_known : bool;
  in_trial : bool
}.

Definition set_in_trial (x : bool) (i : Image) : Image :=
  mkImage (im_target i) (chosen i) (chosen_known i) x.

(** ** The report *)

(** [smply::ImageReport], and an update of each field. *)
Record ImageReport := mkImageReport {
  ir_image : Z;
  ir_commit : CommitBy;
  ir_target_hash : ImageHash;
  ir_bytes_transferred : Z;
  ir_upload_skipped : bool;
  ir_upload_slot : option Z;
  ir_rolled_back : bool;
  ir_applied : bool;
  ir_committed : bool
}.

Definition set_ir_image (x : Z) (r : ImageReport) : ImageReport :=
  mkImageReport x (ir_commit r) (ir_target_hash r) (ir_bytes_transferred r) (ir_upload_skipped r) (ir_upload_slot r) (ir_rolled_back r) (ir_applied r) (ir_committed r).

Definition set_ir_commit (x : CommitBy) (r : ImageReport) : ImageReport :=
  mkImageReport (ir_image r) x (ir_target_hash r) (ir_bytes_transferred r) (ir_upload_skipped r) (ir_upload_slot r) (ir_rolled_back r) (ir_applied r) (ir_committed r).

Definition set_ir_target_hash (x : ImageHash) (r : ImageReport) : ImageReport :=
  mkImageReport (ir_image r) (ir_commit r) x (ir_bytes_transferred r) (ir_upload_skipped r) (ir_upload_slot r) (ir_rolled_back r) (ir_applied r) (ir_committed r).

Definition set_ir_bytes_transferred (x : Z) (r : ImageReport) : ImageReport :=
  mkImageReport (ir_image r) (ir_commit r) (ir_target_hash r) x (ir_upload_skipped r) (ir_upload_slot r) (ir_rolled_back r) (ir_applied r) (ir_committed r).

Definition set_ir_upload_skipped (x : bool) (r : ImageReport) : ImageReport :=
  mkImageReport (ir_image r) (ir_commit r) (ir_target_hash r) (ir_bytes_transferred r) x (ir_upload_slot r) (ir_rolled_back r) (ir_applied r) (ir_committed r).

Definition set_ir_upload_slot (x : option Z) (r : ImageReport) : ImageReport :=
  mkImageReport (ir_image r) (ir_commit r) (ir_target_hash r) (ir_bytes_transferred r) (ir_upload_skipped r) x (ir_rolled_back r) (ir_applied r) (ir_committed r).

Definition set_ir_rolled_back (x : bool) (r : ImageReport) : ImageReport :=
  mkImageReport (ir_image r) (ir_commit r) (ir_target_hash r) (ir_bytes_transferred r) (ir_upload_skipped r) (ir_upload_slot r) x (ir_applied r) (ir_committed r).

Definition set_ir_applied (x : bool) (r : ImageReport) : ImageReport :=
  mkImageReport (ir_image r) (ir_commit r) (ir_target_hash r) (ir_bytes_transferred r) (ir_upload_skipped r) (ir_upload_slot r) (ir_rolled_back r) x (ir_committed r).

Definition set_ir_committed (x : bool) (r : ImageReport) : ImageReport :=
  mkImageReport (ir_image r) (ir_commit r) (ir_target_hash r) (ir_bytes_transferred r) (ir_upload_skipped r) (ir_upload_slot r) (ir_rolled_back r) (ir_applied r) x.

(** [smply::UpdateReport], and an update of each field. *)
Record UpdateReport := mkReport {
  rp_final_state : UpdateState;
  rp_bytes_transferred : Z;
  rp_upload_skipped : bool;
  rp_target_hash : option ImageHash;
  rp_final_device_state : option ImageState;
  rp_cause : option Error;
  rp_rolled_back : bool;
  rp_upload_slot : option Z;
  rp_revert_pending : bool;
  rp_bootloader_mode : McubootMode;
  rp_mode_source : ModeSource;
  rp_refusal : option Refusal;
  rp_images : list ImageReport
}.

Definition set_rp_final_state (x : UpdateState) (r : UpdateReport) : UpdateReport :=
  mkReport x (rp_bytes_transferred r) (rp_upload_skipped r) (rp_target_hash r) (rp_final_device_state r) (rp_cause r) (rp_rolled_back r) (rp_upload_slot r) (rp_revert_pending r) (rp_bootloader_mode r) (rp_mode_source r) (rp_refusal r) (rp_images r).

Definition set_rp_bytes_transferred (x : Z) (r : UpdateReport) : UpdateReport :=
  mkReport (rp_final_state r) x (rp_upload_skipped r) (rp_target_hash r) (rp_final_device_state r) (rp_cause r) (rp_rolled_back r) (rp_upload_slot r) (rp_revert_pending r) (rp_bootloader_mode r) (rp_mode_source r) (rp_refusal r) (rp_images r).

Definition set_rp_upload_skipped (x : bool) (r : UpdateReport) : UpdateReport :=
  mkReport (rp_final_state r) (rp_bytes_transferred r) x (rp_target_hash r) (rp_final_device_state r) (rp_cause r) (rp_rolled_back r) (rp_upload_slot r) (rp_revert_pending r) (rp_bootloader_mode r) (rp_mode_source r) (rp_refusal r) (rp_images r).

Definition set_rp_target_hash (x : option ImageHash) (r : UpdateReport) : UpdateReport :=
  mkReport (rp_final_state r) (rp_bytes_transferred r) (rp_upload_skipped r) x (rp_final_device_state r) (rp_cause r) (rp_rolled_back r) (rp_upload_slot r) (rp_revert_pending r) (rp_bootloader_mode r) (rp_mode_source r) (rp_refusal r) (rp_images r).

Definition set_rp_final_device_state (x : option ImageState) (r : UpdateReport) : UpdateReport :=
  mkReport (rp_final_state r) (rp_bytes_transferred r) (rp_upload_skipped r) (rp_target_hash r) x (rp_cause r) (rp_rolled_back r) (rp_upload_slot r) (rp_revert_pending r) (rp_bootloader_mode r) (rp_mode_source r) (rp_refusal r) (rp_images r).

Definition set_rp_cause (x : option Error) (r : UpdateReport) : UpdateReport :=
  mkReport (rp_final_state r) (rp_bytes_transferred r) (rp_upload_skipped r) (rp_target_hash r) (rp_final_device_state r) x (rp_rolled_back r) (rp_upload_slot r) (rp_revert_pending r) (rp_bootloader_mode r) (rp_mode_source r) (rp_refusal r) (rp_images r).

Definition set_rp_rolled_back (x : bool) (r : UpdateReport) : UpdateReport :=
  mkReport (rp_final_state r) (rp_bytes_transferred r) (rp_upload_skipped r) (rp_target_hash r) (rp_final_device_state r) (rp_cause r) x (rp_upload_slot r) (rp_revert_pending r) (rp_bootloader_mode r) (rp_mode_source r) (rp_refusal r) (rp_images r).

Definition set_rp_upload_slot (x : option Z) (r : UpdateReport) : UpdateReport :=
  mkReport (rp_final_state r) (rp_bytes_transferred r) (rp_upload_skipped r) (rp_target_hash r) (rp_final_device_state r) (rp_cause r) (rp_rolled_back r) x (rp_revert_pending r) (rp_bootloader_mode r) (rp_mode_source r) (rp_refusal r) (rp_images r).

Definition set_rp_revert_pending (x : bool) (r : UpdateReport) : UpdateReport :=
  mkReport (rp_final_state r) (rp_bytes_transferred r) (rp_upload_skipped r) (rp_target_hash r) (rp_final_device_state r) (rp_cause r) (rp_rolled_back r) (rp_upload_slot r) x (rp_bootloader_mode r) (rp_mode_source r) (rp_refusal r) (rp_images r).

Definition set_rp_bootloader_mode (x : McubootMode) (r : UpdateReport) : UpdateReport :=
  mkReport (rp_final_state r) (rp_bytes_transferred r) (rp_upload_skipped r) (rp_target_hash r) (rp_final_device_state r) (rp_cause r) (rp_rolled_back r) (rp_upload_slot r) (rp_revert_pending r) x (rp_mode_source r) (rp_refusal r) (rp_images r).

Definition set_rp_mode_source (x : ModeSource) (r : UpdateReport) : UpdateReport :=
  mkReport (rp_final_state r) (rp_bytes_transferred r) (rp_upload_skipped r) (rp_target_hash r) (rp_final_device_state r) (rp_cause r) (rp_rolled_back r) (rp_upload_slot r) (rp_revert_pending r) (rp_bootloader_mode r) x (rp_refusal r) (rp_images r).

Definition set_rp_refusal (x : option Refusal) (r : UpdateReport) : UpdateReport :=
  mkReport (rp_final_state r) (rp_bytes_transferred r) (rp_upload_skipped r) (rp_target_hash r) (rp_final_device_state r) (rp_cause r) (rp_rolled_back r) (rp_upload_slot r) (rp_revert_pending r) (rp_bootloader_mode r) (rp_mode_source r) x (rp_images r).

Definition set_rp_images (x : list ImageReport) (r : UpdateReport) : UpdateReport :=
  mkReport (rp_final_state r) (rp_bytes_transferred r) (rp_upload_skipped r) (rp_target_hash r) (rp_final_device_state r) (rp_cause r) (rp_rolled_back r) (rp_upload_slot r) (rp_revert_pending r) (rp_bootloader_mode r) (rp_mode_source r) (rp_refusal r) x.

(** [UpdateReport{}]. *)
Definition empty_report : UpdateReport :=
  mkReport S_Idle 0 false None None None false None false M_Unknown Assumed None [].

(** ** The machine's working state *)

(** [dfu::Context], and an update of each field. *)
Record Context := mkContext {
  targets : list Image;
  current : nat;
  device : option ImageState;
  buf_size : Z;
  no_downgrade : bool;
  report : UpdateReport;
  upload_in_progress : bool;
  swap_scheduled : bool;
  mark_retried : bool;
  reset_forced : bool;
  confirm_approved : bool;
  confirm_reread : bool;
  preconditions_checked : bool;
  grace_deadline : option TimePoint;
  apply_poll : option TimePoint;
  apply_deadline : option TimePoint;
  apply_phase : option UpdateState
}.

Definition set_targets (x : list Image) (r : Context) : Context :=
  mkContext x (current r) (device r) (buf_size r) (no_downgrade r) (report r) (upload_in_progress r) (swap_scheduled r) (mark_retried r) (reset_forced r) (confirm_approved r) (confirm_reread r) (preconditions_checked r) (grace_deadline r) (apply_poll r) (apply_deadline r) (apply_phase r).

Definition set_current (x : nat) (r : Context) : Context :=
  mkContext (targets r) x (device r) (buf_size r) (no_downgrade r) (report r) (upload_in_progress r) (swap_scheduled r) (mark_retried r) (reset_forced r) (confirm_approved r) (confirm_reread r) (preconditions_checked r) (grace_deadline r) (apply_poll r) (apply_deadline r) (apply_phase r).

Definition set_device (x : option ImageState) (r : Context) : Context :=
  mkContext (targets r) (current r) x (buf_size r) (no_downgrade r) (report r) (upload_in_progress r) (swap_scheduled r) (mark_retried r) (reset_forced r) (confirm_approved r) (confirm_reread r) (preconditions_checked r) (grace_deadline r) (apply_poll r) (apply_deadline r) (apply_phase r).

Definition set_buf_size (x : Z) (r : Context) : Context :=
  mkContext (targets r) (current r) (device r) x (no_downgrade r) (report r) (upload_in_progress r) (swap_scheduled r) (mark_retried r) (reset_forced r) (confirm_approved r) (confirm_reread r) (preconditions_checked r) (grace_deadline r) (apply_poll r) (apply_deadline r) (apply_phase r).

Definition set_no_downgrade (x : bool) (r : Context) : Context :=
  mkContext (targets r) (current r) (device r) (buf_size r) x (report r) (upload_in_progress r) (swap_scheduled r) (mark_retried r) (reset_forced r) (confirm_approved r) (confirm_reread r) (preconditions_checked r) (grace_deadline r) (apply_poll r) (apply_deadline r) (apply_phase r).

Definition set_report (x : UpdateReport) (r : Context) : Context :=
  mkContext (targets r) (current r) (device r) (buf_size r) (no_downgrade r) x (upload_in_progress r) (swap_scheduled r) (mark_retried r) (reset_forced r) (confirm_approved r) (confirm_reread r) (preconditions_checked r) (grace_deadline r) (apply_poll r) (apply_deadline r) (apply_phase r).

Definition set_upload_in_progress (x : bool) (r : Context) : Context :=
  mkContext (targets r) (current r) (device r) (buf_size r) (no_downgrade r) (report r) x (swap_scheduled r) (mark_retried r) (reset_forced r) (confirm_approved r) (confirm_reread r) (preconditions_checked r) (grace_deadline r) (apply_poll r) (apply_deadline r) (apply_phase r).

Definition set_swap_scheduled (x : bool) (r : Context) : Context :=
  mkContext (targets r) (current r) (device r) (buf_size r) (no_downgrade r) (report r) (upload_in_progress r) x (mark_retried r) (reset_forced r) (confirm_approved r) (confirm_reread r) (preconditions_checked r) (grace_deadline r) (apply_poll r) (apply_deadline r) (apply_phase r).

Definition set_mark_retried (x : bool) (r : Context) : Context :=
  mkContext (targets r) (current r) (device r) (buf_size r) (no_downgrade r) (report r) (upload_in_progress r) (swap_scheduled r) x (reset_forced r) (confirm_approved r) (confirm_reread r) (preconditions_checked r) (grace_deadline r) (apply_poll r) (apply_deadline r) (apply_phase r).

Definition set_reset_forced (x : bool) (r : Context) : Context :=
  mkContext (targets r) (current r) (device r) (buf_size r) (no_downgrade r) (report r) (upload_in_progress r) (swap_scheduled r) (mark_retried r) x (confirm_approved r) (confirm_reread r) (preconditions_checked r) (grace_deadline r) (apply_poll r) (apply_deadline r) (apply_phase r).

Definition set_confirm_approved (x : bool) (r : Context) : Context :=
  mkContext (targets r) (current r) (device r) (buf_size r) (no_downgrade r) (report r) (upload_in_progress r) (swap_scheduled r) (mark_retried r) (reset_forced r) x (confirm_reread r) (preconditions_checked r) (grace_deadline r) (apply_poll r) (apply_deadline r) (apply_phase r).

Definition set_confirm_reread (x : bool) (r : Context) : Context :=
  mkContext (targets r) (current r) (device r) (buf_size r) (no_downgrade r) (report r) (upload_in_progress r) (swap_scheduled r) (mark_retried r) (reset_forced r) (confirm_approved r) x (preconditions_checked r) (grace_deadline r) (apply_poll r) (apply_deadline r) (apply_phase r).

Definition set_preconditions_checked (x : bool) (r : Context) : Context :=
  mkContext (targets r) (current r) (device r) (buf_size r) (no_downgrade r) (report r) (upload_in_progress r) (swap_scheduled r) (mark_retried r) (reset_forced r) (confirm_approved r) (confirm_reread r) x (grace_deadline r) (apply_poll r) (apply_deadline r) (apply_phase r).

Definition set_grace_deadline (x : option TimePoint) (r : Context) : Context :=
  mkContext (targets r) (current r) (device r) (buf_size r) (no_downgrade r) (report r) (upload_in_progress r) (swap_scheduled r) (mark_retried r) (reset_forced r) (confirm_approved r) (confirm_reread r) (preconditions_checked r) x (apply_poll r) (apply_deadline r) (apply_phase r).

Definition set_apply_poll (x : option TimePoint) (r : Context) : Context :=
  mkContext (targets r) (current r) (device r) (buf_size r) (no_downgrade r) (report r) (upload_in_progress r) (swap_scheduled r) (mark_retried r) (reset_forced r) (confirm_approved r) (confirm_reread r) (preconditions_checked r) (grace_deadline r) x (apply_deadline r) (apply_phase r).

Definition set_apply_deadline (x : option TimePoint) (r : Context) : Context :=
  mkContext (targets r) (current r) (device r) (buf_size r) (no_downgrade r) (report r) (upload_in_progress r) (swap_scheduled r) (mark_retried r) (reset_forced r) (confirm_approved r) (confirm_reread r) (preconditions_checked r) (grace_deadline r) (apply_poll r) x (apply_phase r).

Definition set_apply_phase (x : option UpdateState) (r : Context) : Context :=
  mkContext (targets r) (current r) (device r) (buf_size r) (no_downgrade r) (report r) (upload_in_progress r) (swap_scheduled r) (mark_retried r) (reset_forced r) (confirm_approved r) (confirm_reread r) (preconditions_checked r) (grace_deadline r) (apply_poll r) (apply_deadline r) x.

(** [context.report.images[i]], updated. *)
Definition alter_image_report (f : ImageReport -> ImageReport) (i : nat) (c : Context) : Context :=
  set_report (set_rp_images (alter f i (rp_images (report c))) (report c)) c.

(** [context.targets[i]], updated. *)
Definition alter_target (f : Image -> Image) (i : nat) (c : Context) : Context :=
  set_targets (alter f i (targets c)) c.

(** [dfu::Event]. [ev_state] is the borrowed slot table: [None] is the null
    pointer. *)
Record Event := mkEvent {
  kind : Kind;
  now : TimePoint;
  ev_buf_size : Z;
  ev_bootloader : BootloaderMode;
  ev_state : option ImageState;
  ev_transferred : Z;
  ev_already_present : bool;
  ev_error : Error
}.

(** [dfu::Step]. *)
Record Step := mkStep {
  next : UpdateState;
  effect : Effect;
  st_target : nat;
  st_build : nat;
  st_image : Z;
  st_buf_size : Z;
  st_hash : ImageHash
}.

(** [Step{next, effect}]: the parameters at their defaults. *)
Definition step (n : UpdateState) (e : Effect) : Step := mkStep n e 0 0 0 0 [].

(** ** Lemmas on slot tables *)

Lemma find_slot_from_spec i test l j s :
  find_slot_from i test l = Some (j, s) ->
  exists k, (j = i + k)%nat /\ l !! k = Some s /\ test s = true /\
    forall k' s', (k' < k)%nat -> l !! k' = Some s' -> test s' = false.
Proof.
  revert i. induction l as [|s' l IH]; intros i; simpl; [done|].
  destruct (test s') eqn:Ht.
  - intros [= <- <-]. exists 0%nat. repeat split; [lia|done|lia].
  - intros H. destruct (IH _ H) as (k & -> & Hk & Hs & Hmin). exists (S k).
    repeat split; [lia|done|done|]. intros [|k'] s'' Hlt Hl; [by simplify_eq/=|].
    apply (Hmin k'); [lia|done].
Qed.

Lemma find_slot_from_None i test l :
  find_slot_from i test l = None <-> Forall (fun s => test s = false) l.
Proof.
  revert i. induction l as [|s l IH]; intros i; simpl; [by split; [constructor|]|].
  rewrite Forall_cons, <- (IH (S i)). destruct (test s); naive_solver.
Qed.
