(* ===== verification/UpdateMachine.v ===== *)
(** * The update decisions

    [src/dfu/update_state_machine.cpp]: [dfu::Machine], events in, steps out.
    Every function of the file is a definition here, over an explicit
    [Context]; [decide] is the transition table and [apply] one turn of the
    machine. The properties are in [UpdateInvariants] and after. *)

From S2P Require Import Prelude Errors ImageValues UpdateTypes.

(** ** Failing *)

(** [fail(Context&, Error)]: terminal failure, recording why and whether the
    device is about to revert. *)
Definition fail_error (c : Context) (e : Error) : Step * Context :=
  let r := set_rp_revert_pending (swap_scheduled c) (report c) in
  let r := set_rp_cause (Some e) r in
  (step S_Failed E_Finish, set_report r c).

(** [fail(Context&, ErrorCode, const char* )]. *)
Definition fail_code (c : Context) (code : ErrorCode) (where_ : string) : Step * Context :=
  fail_error c (Error_at code where_).

(** ** Bootloader mode and refusals *)

(** [record_mode]. *)
Definition record_mode (reported : McubootMode) (plan : UpdatePlan) (r : UpdateReport)
  : UpdateReport :=
  if bool_decide (reported <> M_Unknown) then
    set_rp_mode_source Reported (set_rp_bootloader_mode reported r)
  else match fallback_mode plan with
  | Some m =>
      if bool_decide (m <> M_Unknown)
      then set_rp_mode_source Supplied (set_rp_bootloader_mode m r)
      else set_rp_mode_source Assumed (set_rp_bootloader_mode M_Unknown r)
  | None => set_rp_mode_source Assumed (set_rp_bootloader_mode M_Unknown r)
  end.

(** [mode_refusal]. *)
Definition mode_refusal (plan : UpdatePlan) (c : Context) : option Refusal :=
  let accepts_no_revert := bool_decide (mode plan = UploadOnly) || allow_no_revert plan in
  match rp_bootloader_mode (report c) with
  | M_SingleSlot | M_FirmwareLoader | M_RamLoad | M_SingleSlotRamLoad => Some R_UnsupportedMode
  | M_UpgradeOnly => if accepts_no_revert then None else Some R_RevertUnavailable
  | M_DirectXip =>
      if (1 <? length (targets c))%nat then Some R_MultiImageUnsupported
      else if accepts_no_revert then None else Some R_RevertUnavailable
  | M_DirectXipWithRevert =>
      if (1 <? length (targets c))%nat then Some R_MultiImageUnsupported else None
  | M_Unknown | M_SwapUsingScratch | M_SwapUsingMove | M_SwapUsingOffset => None
  end.

(** [without_set_state]. *)
Definition without_set_state (c : Context) : bool :=
  bool_decide (rp_bootloader_mode (report c) = M_DirectXip).

(** [older]. *)
Definition older (image running : ImageVersion) : bool :=
  if negb (v_major image =? v_major running) then v_major image <? v_major running
  else if negb (v_minor image =? v_minor running) then v_minor image <? v_minor running
  else v_revision image <? v_revision running.

(** [refusal_text]. *)
Definition refusal_text (r : Refusal) : string :=
  match r with
  | R_RevertUnavailable => "dfu: the bootloader cannot revert this update"
  | R_Downgrade => "dfu: the device refuses an image older than the one it runs"
  | R_UnsupportedMode => "dfu: no update path for this bootloader mode"
  | R_MultiImageUnsupported => "dfu: this bootloader mode updates one image only"
  end.

(** ** Reading the slot table *)

(** [active_of]. *)
Definition active_of (c : Context) (image : Z) : option slot_ptr :=
  match device c with
  | Some st => active_slot image st
  | None => None
  end.

(** [anything_pending]. *)
Definition anything_pending (c : Context) (image : Z) : bool :=
  match device c with
  | Some st => existsb (fun s => (sl_image s =? image) && sl_pending s) (slots st)
  | None => false
  end.

(** [holds]. *)
Definition holds (slot : option slot_ptr) (t : Target) : bool :=
  match slot with
  | Some (_, s) => negb (hash_empty (t_hash t)) && bool_decide (sl_hash s = Some (t_hash t))
  | None => false
  end.

(** [slot_holding]. *)
Definition slot_holding (c : Context) (t : Target) : option slot_ptr :=
  match device c with
  | Some st =>
      find_slot (fun s => (sl_image s =? t_image t) && holds (Some (0%nat, s)) t) st
  | None => None
  end.

(** [upload_only]. *)
Definition upload_only (plan : UpdatePlan) : bool := bool_decide (mode plan = UploadOnly).

(** The [confirmed] flag of a slot the code has checked to be there. *)
Definition ptr_confirmed (p : option slot_ptr) : bool :=
  match p with Some (_, s) => sl_confirmed s | None => false end.

(** The [pending] flag, likewise. *)
Definition ptr_pending (p : option slot_ptr) : bool :=
  match p with Some (_, s) => sl_pending s | None => false end.

(** [running_on_trial]. *)
Definition running_on_trial (c : Context) (t : Target) : bool :=
  let active := active_of c (t_image t) in
  bool_decide (t_commit t = Client) && holds active t && negb (ptr_confirmed active).

(** The loop of [next_in_trial], over the entries from [index] on. *)
Fixpoint find_in_trial (index : nat) (l : list Image) : option nat :=
  match l with
  | [] => None
  | i :: l' => if in_trial i then Some index else find_in_trial (S index) l'
  end.

(** [next_in_trial]. *)
Definition next_in_trial (c : Context) (from : nat) : nat :=
  default (length (targets c)) (find_in_trial from (drop from (targets c))).

(** [is_downgrade]. *)
Definition is_downgrade (plan : UpdatePlan) (c : Context) : bool :=
  if negb (check_downgrade plan) || negb (no_downgrade c) then false
  else existsb (fun i =>
    let t := im_target i in
    let running := active_of c (t_image t) in
    match running with
    | None => false
    | Some (_, s) =>
        if holds running t then false
        else match parse_version (sl_version s) with
        | Success version => older (t_version t) version
        | Fail _ => false
        end
    end) (targets c).

(** [check_preconditions]: the refusal checks, run once. *)
Definition check_preconditions (plan : UpdatePlan) (c : Context) : option Step * Context :=
  if preconditions_checked c then (None, c)
  else
    let c := set_preconditions_checked true c in
    let refusal :=
      match mode_refusal plan c with
      | Some r => Some r
      | None => if is_downgrade plan c then Some R_Downgrade else None
      end in
    match refusal with
    | None => (None, c)
    | Some r =>
        let c := set_report (set_rp_refusal (Some r) (report c)) c in
        let '(s, c) := fail_code c UpdateRefused (refusal_text r) in
        (Some s, c)
    end.

(** ** After the reset *)

(** [confirmation_fork]. *)
Definition confirmation_fork (plan : UpdatePlan) (c : Context) : Step * Context :=
  let c := set_current (next_in_trial c 0) c in
  if bool_decide (mode plan = ConfirmImmediately) || confirm_approved c
  then (step S_Confirming E_Confirm, c)
  else (step S_AwaitingConfirmation E_RequestConfirmation, c).

(** [dfu::Apply]. *)
Inductive Apply := A_Applying | A_OnTrial | A_Committed | A_Failed.

(** [apply_of]. *)
Definition apply_of (c : Context) (t : Target) : Apply :=
  let active := active_of c (t_image t) in
  if holds active t then (if ptr_confirmed active then A_Committed else A_OnTrial)
  else
    let holder := slot_holding c t in
    if ptr_pending holder then A_Applying else A_Failed.

(** The loop of [await_commit] over the targets from [index] on: the early
    return, or whether an image is still being committed. *)
Fixpoint await_commit_loop (index : nat) (l : list Image) (committing : bool) (c : Context)
  : (Step + bool) * Context :=
  match l with
  | [] => (inr committing, c)
  | i :: l' =>
      if bool_decide (t_commit (im_target i) <> Device)
      then await_commit_loop (S index) l' committing c
      else match apply_of c (im_target i) with
      | A_Committed =>
          await_commit_loop (S index) l' committing
            (alter_image_report (fun r => set_ir_committed true (set_ir_applied true r)) index c)
      | A_OnTrial =>
          await_commit_loop (S index) l' true
            (alter_image_report (set_ir_applied true) index c)
      | A_Applying | A_Failed =>
          let c := alter_image_report (set_ir_applied false) index c in
          let '(s, c) := fail_code c UpdateFailed "dfu: device did not commit an image" in
          (inl s, c)
      end
  end.

(** [await_commit]. *)
Definition await_commit (c : Context) : Step * Context :=
  match await_commit_loop 0 (targets c) false c with
  | (inl s, c) => (s, c)
  | (inr true, c) => (step S_AwaitingDeviceCommit E_AwaitApply, c)
  | (inr false, c) => (step S_Completed E_Finish, c)
  end.

(** The loop of [await_device]. *)
Fixpoint await_device_loop (index : nat) (l : list Image) (applying : bool) (c : Context)
  : (Step + bool) * Context :=
  match l with
  | [] => (inr applying, c)
  | i :: l' =>
      if bool_decide (t_commit (im_target i) <> Device)
      then await_device_loop (S index) l' applying c
      else match apply_of c (im_target i) with
      | A_Committed =>
          await_device_loop (S index) l' applying
            (alter_image_report (fun r => set_ir_applied true (set_ir_committed true r)) index c)
      | A_OnTrial =>
          await_device_loop (S index) l' applying
            (alter_image_report (set_ir_applied true) index c)
      | A_Applying => await_device_loop (S index) l' true c
      | A_Failed =>
          let '(s, c) := fail_code c UpdateFailed "dfu: device did not apply an image" in
          (inl s, c)
      end
  end.

(** [await_device]. *)
Definition await_device (plan : UpdatePlan) (c : Context) : Step * Context :=
  match await_device_loop 0 (targets c) false c with
  | (inl s, c) => (s, c)
  | (inr true, c) => (step S_AwaitingDeviceApply E_AwaitApply, c)
  | (inr false, c) =>
      if negb (swap_scheduled c) then await_commit c else confirmation_fork plan c
  end.

(** [wait_read_failed]. *)
Definition wait_read_failed (st : UpdateState) (e : Error) (c : Context) : Step * Context :=
  match code e with
  | Disconnected => (step S_AwaitingReconnect E_RequestReconnect, c)
  | Timeout => (step st E_AwaitApply, c)
  | _ => fail_error c e
  end.

(** [confirm_failed]. *)
Definition confirm_failed (e : Error) (c : Context) : Step * Context :=
  let c := set_swap_scheduled true c in
  if bool_decide (code e = Disconnected) then (step S_AwaitingReconnect E_RequestReconnect, c)
  else if bool_decide (code e = Timeout) && negb (confirm_reread c)
  then (step S_VerifyingBooted E_ReadState, set_confirm_reread true c)
  else fail_error c e.

(** The first loop of [inspect_boot]: some [Client] image has no running slot. *)
Definition client_without_active (c : Context) : bool :=
  existsb (fun i =>
    bool_decide (t_commit (im_target i) = Client) &&
    bool_decide (active_of c (t_image (im_target i)) = None)) (targets c).

(** The second loop of [inspect_boot]: what became of each image, from [index]
    on. The table it reads does not change, nor does the mode. *)
Fixpoint inspect_loop (index : nat) (l : list Image) (reverted not_booted : bool) (c : Context)
  : bool * bool * Context :=
  match l with
  | [] => (reverted, not_booted, c)
  | i :: l' =>
      let c := alter_target (set_in_trial false) index c in
      let t := im_target i in
      if bool_decide (t_commit t <> Client) then inspect_loop (S index) l' reverted not_booted c
      else
        let active := active_of c (t_image t) in
        if negb (holds active t) then
          if anything_pending c (t_image t)
          then inspect_loop (S index) l' reverted true c
          else inspect_loop (S index) l' true not_booted
                 (alter_image_report (set_ir_rolled_back true) index c)
        else
          inspect_loop (S index) l' reverted not_booted
            (alter_target (set_in_trial (negb (without_set_state c) && negb (ptr_confirmed active)))
               index c)
  end.

(** [inspect_boot]. *)
Definition inspect_boot (plan : UpdatePlan) (c : Context) : Step * Context :=
  if client_without_active c then fail_code c UpdateFailed "dfu: no active slot after reboot"
  else
    let '(reverted, not_booted, c) := inspect_loop 0 (targets c) false false c in
    let c := set_swap_scheduled
               (not_booted || (next_in_trial c 0 <? length (targets c))%nat) c in
    if reverted then fail_code c UpdateFailed "dfu: device reverted to the old image"
    else if not_booted then fail_code c UpdateFailed "dfu: device did not boot the new image"
    else await_device plan c.

(** ** Staging *)

(** [staged]. *)
Definition staged (plan : UpdatePlan) (c : Context) : Step * Context :=
  if upload_only plan then (step S_Completed E_Finish, c)
  else if swap_scheduled c then
    match check_preconditions plan c with
    | (Some refused, c) => (refused, c)
    | (None, c) => (step S_Resetting E_Reset, c)
    end
  else inspect_boot plan c.

(** [listed_slot]. *)
Definition listed_slot (c : Context) (image global : Z) : option slot_ptr :=
  match device c with
  | Some st => find_slot (fun s => (sl_image s =? image) && (sl_slot s =? global)) st
  | None => None
  end.

(** A value for the entry the code reads at [context.current]; the machine's
    invariant ([current_in_range]) shows the default is never used. *)
Definition no_image : Image :=
  mkImage (mkTarget 0 Client [] (mkVersion 0 0 0 0) None) 0 false false.

Definition current_image (c : Context) : Image := default no_image (targets c !! current c).

Definition current_target (c : Context) : Target := im_target (current_image c).

(** Pointer comparison. *)
Definition same_slot (a b : option slot_ptr) : bool :=
  match a, b with
  | Some (i, _), Some (j, _) => (i =? j)%nat
  | None, None => true
  | _, _ => false
  end.

(** [builds[index]]. *)
Definition build_at (builds : Build * Build) (index : nat) : Build :=
  match index with O => builds.1 | _ => builds.2 end.

(** One round of the loop of [choose_build]: the build [index], already in its
    own slot or not. *)
Definition choose_round (c : Context) (t : Target) (builds : Build * Build)
  (acc : nat * bool) (index : nat) : nat * bool :=
  let '(chosen, present) := acc in
  let base := wrap 32 (t_image t * 2) in
  let running := active_of c (t_image t) in
  let slot := listed_slot c (t_image t) (wrap 32 (base + Z.of_nat index)) in
  match slot with
  | None => (chosen, present)
  | Some (_, s) =>
      if bool_decide (sl_hash s <> Some (b_hash (build_at builds index))) then (chosen, present)
      else if negb present || same_slot slot running then (index, true)
      else (chosen, present)
  end.

(** Which build [choose_build] settles on. *)
Definition chosen_build (c : Context) (t : Target) (builds : Build * Build) : nat :=
  let base := wrap 32 (t_image t * 2) in
  let free :=
    match active_of c (t_image t) with
    | Some (_, s) => if sl_slot s =? wrap 32 (base + 1) then 0%nat else 1%nat
    | None => 1%nat
    end in
  (foldl (choose_round c t builds) (free, false) [0%nat; 1%nat]).1.

(** The target once the build [index] is chosen. *)
Definition take_build (builds : Build * Build) (index : nat) (i : Image) : Image :=
  let t := im_target i in
  let b := build_at builds index in
  mkImage (mkTarget (t_image t) (t_commit t) (b_hash b) (b_version b) (t_builds t))
    index true (in_trial i).

(** [choose_build]. *)
Definition choose_build (c : Context) : option Step * Context :=
  let i := current_image c in
  match t_builds (im_target i) with
  | None => (None, c)
  | Some builds =>
      if chosen_known i then (None, c)
      else
        let m := rp_bootloader_mode (report c) in
        if bool_decide (m <> M_DirectXip) && bool_decide (m <> M_DirectXipWithRevert) then
          let '(s, c) := fail_code c InvalidArgument
                           "dfu: one file per slot needs a direct-XIP device" in
          (Some s, c)
        else
          let index := chosen_build c (im_target i) builds in
          let c' := alter_target (take_build builds index) (current c) c in
          (None, alter_image_report (set_ir_target_hash (b_hash (build_at builds index)))
                   (current c) c')
  end.

(** [next_target]. *)
Definition next_target (plan : UpdatePlan) (c : Context) : Step * Context :=
  let c := set_current (S (current c)) c in
  let c := set_mark_retried false c in
  if (current c <? length (targets c))%nat then (step S_Planning E_Continue, c)
  else staged plan c.

(** [mark_or_skip]. *)
Definition mark_or_skip (plan : UpdatePlan) (c : Context) : Step * Context :=
  if without_set_state c then next_target plan (set_swap_scheduled true c)
  else (step S_MarkingForTest E_MarkForTest, c).

(** The loop of [plan_from_state]. [fuel] is the number of targets, which the
    index runs over once. *)
Fixpoint plan_loop (fuel : nat) (plan : UpdatePlan) (c : Context) : Step * Context :=
  if negb (current c <? length (targets c))%nat then staged plan c
  else match fuel with
  | O => staged plan c
  | S fuel' =>
      match choose_build c with
      | (Some failed, c) => (failed, c)
      | (None, c) =>
          let t := current_target c in
          let holder := slot_holding c t in
          let advance c := plan_loop fuel' plan (set_current (S (current c)) c) in
          match holder with
          | Some (_, s) =>
              if same_slot holder (active_of c (t_image t)) then
                advance (alter_image_report (set_ir_upload_skipped true) (current c) c)
              else if sl_pending s then
                let c := alter_image_report
                  (fun r => set_ir_upload_slot (Some (sl_slot s)) (set_ir_upload_skipped true r))
                  (current c) c in
                advance (set_swap_scheduled (swap_scheduled c || negb (upload_only plan)) c)
              else if skip_if_already_present plan then
                let c := alter_image_report (set_ir_upload_skipped true) (current c) c in
                if upload_only plan then advance c
                else match check_preconditions plan c with
                | (Some refused, c) => (refused, c)
                | (None, c) =>
                    mark_or_skip plan
                      (alter_image_report (set_ir_upload_slot (Some (sl_slot s))) (current c) c)
                end
              else match check_preconditions plan c with
              | (Some refused, c) => (refused, c)
              | (None, c) => (step S_Uploading E_StartUpload, set_upload_in_progress true c)
              end
          | None =>
              match check_preconditions plan c with
              | (Some refused, c) => (refused, c)
              | (None, c) => (step S_Uploading E_StartUpload, set_upload_in_progress true c)
              end
          end
      end
  end.

(** [plan_from_state]. *)
Definition plan_from_state (plan : UpdatePlan) (c : Context) : Step * Context :=
  let after_reset :=
    (current c =? 0)%nat && existsb (fun i => running_on_trial c (im_target i)) (targets c) in
  if after_reset && negb (upload_only plan) then
    inspect_boot plan
      (set_report (set_rp_images (set_ir_upload_skipped true <$> rp_images (report c)) (report c)) c)
  else plan_loop (length (targets c)) plan c.

(** ** Answers *)

(** [summarise]. *)
Definition summarise (c : Context) : Context :=
  let r := report c in
  match rp_images r with
  | [] => c
  | first :: _ =>
      let images := rp_images r in
      let r := set_rp_bytes_transferred
                 (foldl (fun sum i => wrap 64 (sum + ir_bytes_transferred i)) 0 images) r in
      let r := set_rp_upload_skipped (forallb ir_upload_skipped images) r in
      let r := set_rp_rolled_back (existsb ir_rolled_back images) r in
      let r := set_rp_upload_slot (ir_upload_slot first) r in
      set_report r c
  end.

(** [upload_finished]. *)
Definition upload_finished (ev : Event) (plan : UpdatePlan) (c : Context) : Step * Context :=
  let c := set_upload_in_progress false c in
  let c := alter_image_report
    (fun r => set_ir_upload_skipped (ir_upload_skipped r || ev_already_present ev)
                (set_ir_bytes_transferred (ev_transferred ev) r)) (current c) c in
  if upload_only plan then next_target plan c
  else (step S_VerifyingUpload E_ReadState, c).

(** [mark_refused]. *)
Definition mark_refused (e : Error) (c : Context) : Step * Context :=
  let recoverable :=
    bool_decide (image_error e = Some ImageError_ImageAlreadyPending)
    || bool_decide (smp_error e = Some SmpError_BadState) in
  if recoverable && negb (mark_retried c)
  then (step S_InspectingImages E_ReadState, set_mark_retried true c)
  else fail_error c e.

(** [reset_refused]. *)
Definition reset_refused (e : Error) (c : Context) : Step * Context :=
  if bool_decide (smp_error e = Some SmpError_Busy) && negb (reset_forced c)
  then (step S_Resetting E_ForceReset, set_reset_forced true c)
  else if bool_decide (code e = Disconnected) || bool_decide (code e = Timeout)
  then (step S_AwaitingDisconnect E_AwaitDisconnect, c)
  else fail_error c e.

(** [needs_current]. *)
Definition needs_current (s : UpdateState) : bool :=
  match s with S_Uploading | S_VerifyingUpload | S_MarkingForTest | S_Confirming => true | _ => false end.

(** [names_current]. *)
Definition names_current (e : Effect) : bool :=
  match e with E_StartUpload | E_MarkForTest | E_Confirm => true | _ => false end.

(** [carries_table]. *)
Definition carries_table (k : Kind) : bool :=
  match k with K_StateRead | K_MarkedForTest | K_Confirmed => true | _ => false end.

(** [parameterise]. *)
Definition parameterise (s : Step) (c : Context) : Step * Context :=
  match effect s with
  | E_StartUpload =>
      let i := current_image c in
      (mkStep (next s) (effect s) (current c) (chosen i) (t_image (im_target i)) (buf_size c)
         (st_hash s), c)
  | E_MarkForTest | E_Confirm =>
      let t := current_target c in
      (mkStep (next s) (effect s) (st_target s) (st_build s) (t_image t) (st_buf_size s)
         (t_hash t), c)
  | E_Finish =>
      let r := set_rp_final_state (next s) (report c) in
      let r := set_rp_target_hash
                 (Some match targets c with [] => [] | i :: _ => t_hash (im_target i) end) r in
      let r := set_rp_final_device_state (device c) r in
      (s, set_report r c)
  | _ => (s, c)
  end.

(** ** Time *)

(** The two states that wait on a device applying or committing an image. *)
Definition waiting_state (s : UpdateState) : bool :=
  match s with S_AwaitingDeviceApply | S_AwaitingDeviceCommit => true | _ => false end.

(** Whether a deadline is armed and has been reached. *)
Definition due (deadline : option TimePoint) (t : TimePoint) : bool :=
  match deadline with Some d => d <=? t | None => false end.

(** [tick]. *)
Definition tick (st : UpdateState) (t : TimePoint) (c : Context) : Step * Context :=
  if bool_decide (st = S_AwaitingDisconnect) && due (grace_deadline c) t then
    (step S_AwaitingReconnect E_RequestReconnect, c)
  else if negb (waiting_state st) || negb (due (apply_poll c) t) then (step st E_None, c)
  else
    let c := set_apply_poll None c in
    if due (apply_deadline c) t then
      fail_code c Timeout
        (if bool_decide (st = S_AwaitingDeviceApply)
         then "dfu: device did not apply an image in time"
         else "dfu: device did not commit an image in time")
    else (step st E_ReadState, c).

(** [keep_time]. *)
Definition keep_time (s : Step) (t : TimePoint) (plan : UpdatePlan) (c : Context) : Context :=
  let c := if bool_decide (next s <> S_AwaitingDisconnect) then set_grace_deadline None c else c in
  match effect s with
  | E_AwaitDisconnect => set_grace_deadline (Some (t + disconnect_grace plan)) c
  | E_AwaitApply =>
      let c :=
        if bool_decide (apply_phase c <> Some (next s))
        then set_apply_deadline (Some (t + apply_timeout plan)) (set_apply_phase (Some (next s)) c)
        else c in
      set_apply_poll (Some (t + apply_poll_interval plan)) c
  | E_Finish => set_apply_phase None (set_apply_deadline None (set_apply_poll None c))
  | _ => c
  end.

(** ** The transition table *)

(** [bootloader_failed]. *)
Definition bootloader_failed (e : Error) (plan : UpdatePlan) (c : Context) : Step * Context :=
  match code e with
  | ProtocolError | CborDecode =>
      (step S_InspectingImages E_ReadState, set_report (record_mode M_Unknown plan (report c)) c)
  | _ => fail_error c e
  end.

(** [VerifyingUpload], on [StateRead]. *)
Definition verify_upload (plan : UpdatePlan) (c : Context) : Step * Context :=
  match slot_holding c (current_target c) with
  | None => fail_code c ImageMismatch "dfu: uploaded image not present in any slot"
  | Some (_, s) =>
      mark_or_skip plan (alter_image_report (set_ir_upload_slot (Some (sl_slot s))) (current c) c)
  end.

(** [Confirming], on [Confirmed]. *)
Definition confirmed_one (c : Context) : Step * Context :=
  let c := alter_target (set_in_trial false) (current c) c in
  let c := set_current (next_in_trial c (current c)) c in
  if (current c <? length (targets c))%nat then (step S_Confirming E_Confirm, c)
  else (step S_VerifyingConfirmed E_ReadState, set_swap_scheduled false c).

(** The test of [VerifyingConfirmed]: every [Client] image runs its file,
    confirmed. *)
Definition all_confirmed (c : Context) : bool :=
  forallb (fun i =>
    let t := im_target i in
    let active := active_of c (t_image t) in
    bool_decide (t_commit t <> Client) || (holds active t && ptr_confirmed active)) (targets c).

(** [VerifyingConfirmed], on [StateRead]. *)
Definition verify_confirmed (c : Context) : Step * Context :=
  if all_confirmed c then await_commit c
  else fail_code (set_swap_scheduled true c) UpdateFailed
         "dfu: device did not report the image as confirmed".

(** The fall-through of [decide]: an event the state has no rule for. *)
Definition illegal (c : Context) : Step * Context :=
  fail_code c Internal "dfu: event not legal in this state".

(** [decide]. *)
Definition decide_step (st : UpdateState) (ev : Event) (plan : UpdatePlan) (c : Context)
  : Step * Context :=
  match kind ev with
  | K_Cancel =>
      if is_terminal st then (step st E_None, c)
      else (step S_Cancelled E_Finish,
            set_report (set_rp_revert_pending (swap_scheduled c) (report c)) c)
  | K_Tick => tick st (now ev) c
  | k =>
      match st, k with
      | S_Idle, K_Start => (step S_QueryingParameters E_QueryParameters, c)

      | S_QueryingParameters, K_ParametersRead =>
          (step S_QueryingBootloader E_QueryBootloader, set_buf_size (ev_buf_size ev) c)
      | S_QueryingParameters, K_ParametersUnavailable =>
          (step S_QueryingBootloader E_QueryBootloader, c)

      | S_QueryingBootloader, K_BootloaderRead =>
          let c := set_report (record_mode (bm_mode (ev_bootloader ev)) plan (report c)) c in
          (step S_InspectingImages E_ReadState,
           set_no_downgrade (bm_no_downgrade (ev_bootloader ev)) c)
      | S_QueryingBootloader, K_Failed => bootloader_failed (ev_error ev) plan c

      | S_InspectingImages, K_StateRead =>
          (step S_Planning E_Continue, set_device (ev_state ev) c)
      | S_InspectingImages, K_Failed => fail_error c (ev_error ev)

      | S_Planning, K_Continue => plan_from_state plan c

      | S_Uploading, K_UploadFinished => upload_finished ev plan c
      | S_Uploading, K_UploadSuspended => (step S_AwaitingReconnect E_RequestReconnect, c)
      | S_Uploading, K_Failed => fail_error c (ev_error ev)

      | S_VerifyingUpload, K_StateRead => verify_upload plan (set_device (ev_state ev) c)
      | S_VerifyingUpload, K_Failed => fail_error c (ev_error ev)

      | S_MarkingForTest, K_MarkedForTest =>
          next_target plan (set_swap_scheduled true (set_device (ev_state ev) c))
      | S_MarkingForTest, K_Failed => mark_refused (ev_error ev) c

      | S_Resetting, K_ResetAccepted => (step S_AwaitingDisconnect E_AwaitDisconnect, c)
      | S_Resetting, K_Failed => reset_refused (ev_error ev) c

      | S_AwaitingDisconnect, K_Disconnected => (step S_AwaitingReconnect E_RequestReconnect, c)

      | S_AwaitingReconnect, K_Reconnected =>
          if upload_in_progress c then (step S_Uploading E_ResumeUpload, c)
          else (step S_VerifyingBooted E_ReadState, c)
      | S_AwaitingReconnect, K_ReconnectFailed => fail_error c (ev_error ev)

      | S_VerifyingBooted, K_StateRead => inspect_boot plan (set_device (ev_state ev) c)
      | S_VerifyingBooted, K_Failed => fail_error c (ev_error ev)

      | S_AwaitingDeviceApply, K_StateRead => await_device plan (set_device (ev_state ev) c)
      | S_AwaitingDeviceApply, K_Failed => wait_read_failed st (ev_error ev) c

      | S_AwaitingDeviceCommit, K_StateRead => await_commit (set_device (ev_state ev) c)
      | S_AwaitingDeviceCommit, K_Failed => wait_read_failed st (ev_error ev) c

      | S_AwaitingConfirmation, K_ConfirmApproved =>
          (step S_Confirming E_Confirm, set_confirm_approved true c)

      | S_Confirming, K_Confirmed => confirmed_one (set_device (ev_state ev) c)
      | S_Confirming, K_Failed => confirm_failed (ev_error ev) c

      | S_VerifyingConfirmed, K_StateRead => verify_confirmed (set_device (ev_state ev) c)
      | S_VerifyingConfirmed, K_Failed => confirm_failed (ev_error ev) c

      | (S_Completed | S_Failed | S_Cancelled), _ => (step st E_None, c)

      | _, _ => illegal c
      end
  end.

(** ** The machine *)

(** [dfu::Machine]. *)
Record Machine := mkMachine {
  plan_ : UpdatePlan;
  state_ : UpdateState;
  context_ : Context
}.

(** [Machine::Machine]: one report entry per target. *)
Definition initial_report (t : Target) : ImageReport :=
  mkImageReport (t_image t) (t_commit t) (t_hash t) 0 false None false false false.

Definition new_machine (ts : list Target) (plan : UpdatePlan) : Machine :=
  mkMachine plan S_Idle
    (mkContext ((fun t => mkImage t 0 false false) <$> ts) 0 None 0 false
       (set_rp_images (initial_report <$> ts) empty_report)
       false false false false false false false None None None None).

(** The two guards of [Machine::apply]. *)
Definition consistent (st : UpdateState) (c : Context) : bool :=
  negb (bool_decide (targets c = []))
  && (negb (needs_current st) || (current c <? length (targets c))%nat).

Definition complete (ev : Event) : bool :=
  negb (carries_table (kind ev)) || bool_decide (is_Some (ev_state ev)).

(** The step decided, before its parameters: [decide], or one of the failures
    [Machine::apply] reports itself. *)
Definition guarded_step (st : UpdateState) (ev : Event) (plan : UpdatePlan) (c : Context)
  : Step * Context :=
  let '(s, c) :=
    if is_terminal st || (consistent st c && complete ev) then decide_step st ev plan c
    else fail_code c Internal
           (if consistent st c then "dfu: answer without a slot table"
            else "dfu: no image to work on") in
  if names_current (effect s) && (length (targets c) <=? current c)%nat
  then fail_code c Internal "dfu: no image to work on"
  else (s, c).

(** [Machine::apply]. *)
Definition apply (ev : Event) (m : Machine) : Step * Machine :=
  let '(s, c) := guarded_step (state_ m) ev (plan_ m) (context_ m) in
  let c := summarise c in
  let '(s, c) := parameterise s c in
  let c := keep_time s (now ev) (plan_ m) c in
  (s, mkMachine (plan_ m) (next s) c).

(** [Machine::next_deadline]. *)
Definition next_deadline (m : Machine) : option TimePoint :=
  match grace_deadline (context_ m) with
  | Some d => Some d
  | None => apply_poll (context_ m)
  end.

(** A run: the machine after a sequence of events, and the steps it asked
    for. *)
Fixpoint run (evs : list Event) (m : Machine) : list Step * Machine :=
  match evs with
  | [] => ([], m)
  | ev :: evs' =>
      let '(s, m') := apply ev m in
      let '(ss, m'') := run evs' m' in
      (s :: ss, m'')
  end.
