(* ===== verification/UpdateLemmas.v ===== *)
(** * Lemmas on the update decisions

    What each function of [UpdateMachine] can answer and which part of the
    context it can change: the outcome tables, the frames of the three loops
    over the images, and the closed forms of what they compute. The invariants
    and the properties are built on these. *)

From S2P Require Import Prelude Errors ImageValues UpdateTypes UpdateMachine.

(** ** Outcomes

    Which state and effect each function may answer with. *)

Abbreviation outcome := (UpdateState * Effect)%type.

Definition outcome_of (r : Step * Context) : outcome := (next r.1, effect r.1).

Definition failed : outcome := (S_Failed, E_Finish).

Definition commit_outcomes : list outcome :=
  [failed; (S_AwaitingDeviceCommit, E_AwaitApply); (S_Completed, E_Finish)].

Definition boot_outcomes : list outcome :=
  commit_outcomes ++
  [(S_AwaitingDeviceApply, E_AwaitApply); (S_Confirming, E_Confirm);
   (S_AwaitingConfirmation, E_RequestConfirmation)].

Definition staged_outcomes : list outcome := boot_outcomes ++ [(S_Resetting, E_Reset)].

Definition mark_outcomes : list outcome :=
  staged_outcomes ++ [(S_Planning, E_Continue); (S_MarkingForTest, E_MarkForTest)].

Definition plan_outcomes : list outcome := mark_outcomes ++ [(S_Uploading, E_StartUpload)].

(** The protocol as a table: from each state, the pairs of next state and
    effect one event may lead to. *)
Definition outcomes (st : UpdateState) : list outcome :=
  match st with
  | S_Completed | S_Failed | S_Cancelled => [(st, E_None)]
  | _ =>
    [failed; (S_Cancelled, E_Finish); (st, E_None)] ++
    match st with
    | S_Idle => [(S_QueryingParameters, E_QueryParameters)]
    | S_QueryingParameters => [(S_QueryingBootloader, E_QueryBootloader)]
    | S_QueryingBootloader => [(S_InspectingImages, E_ReadState)]
    | S_InspectingImages => [(S_Planning, E_Continue)]
    | S_Planning => plan_outcomes
    | S_Uploading =>
        [(S_VerifyingUpload, E_ReadState); (S_AwaitingReconnect, E_RequestReconnect);
         (S_Planning, E_Continue); (S_Completed, E_Finish)]
    | S_VerifyingUpload => mark_outcomes
    | S_MarkingForTest => [(S_InspectingImages, E_ReadState); (S_Planning, E_Continue)] ++ staged_outcomes
    | S_Resetting => [(S_AwaitingDisconnect, E_AwaitDisconnect); (S_Resetting, E_ForceReset)]
    | S_AwaitingDisconnect => [(S_AwaitingReconnect, E_RequestReconnect)]
    | S_AwaitingReconnect => [(S_Uploading, E_ResumeUpload); (S_VerifyingBooted, E_ReadState)]
    | S_VerifyingBooted => boot_outcomes
    | S_AwaitingDeviceApply =>
        [(S_AwaitingReconnect, E_RequestReconnect); (S_AwaitingDeviceApply, E_ReadState)] ++ boot_outcomes
    | S_AwaitingDeviceCommit =>
        [(S_AwaitingReconnect, E_RequestReconnect); (S_AwaitingDeviceCommit, E_ReadState)] ++ commit_outcomes
    | S_AwaitingConfirmation => [(S_Confirming, E_Confirm)]
    | S_Confirming =>
        [(S_Confirming, E_Confirm); (S_VerifyingConfirmed, E_ReadState);
         (S_AwaitingReconnect, E_RequestReconnect); (S_VerifyingBooted, E_ReadState)]
    | S_VerifyingConfirmed =>
        [(S_AwaitingReconnect, E_RequestReconnect); (S_VerifyingBooted, E_ReadState)] ++ commit_outcomes
    | _ => []
    end
  end.

(** Membership in a literal table. *)
Ltac in_table := cbn; repeat (first [left; reflexivity | right]); fail.

(** ** Frames *)

(** The context with the per-image reports replaced, and nothing else. *)
Definition with_images (imgs : list ImageReport) (c : Context) : Context :=
  set_report (set_rp_images imgs (report c)) c.

Lemma with_images_self c : with_images (rp_images (report c)) c = c.
Proof. by destruct c as [? ? ? ? ? []]. Qed.

Lemma alter_image_report_frame f i c :
  alter_image_report f i c = with_images (alter f i (rp_images (report c))) c.
Proof. reflexivity. Qed.

(** Whether a [Device] image runs its file by the last table. *)
Definition device_runs (c : Context) (i : Image) : Prop :=
  t_commit (im_target i) = Device ->
  apply_of c (im_target i) = A_Committed \/ apply_of c (im_target i) = A_OnTrial.

Definition device_committed (c : Context) (i : Image) : Prop :=
  t_commit (im_target i) = Device -> apply_of c (im_target i) = A_Committed.

(** The entries of [l] that are [Device] images are reported applied in [imgs],
    from [index] on. *)
Definition reported_applied (index : nat) (l : list Image) (imgs : list ImageReport) : Prop :=
  forall j i r, l !! j = Some i -> t_commit (im_target i) = Device ->
    imgs !! (index + j)%nat = Some r -> ir_applied r = true.

(** ... and committed. *)
Definition reported_committed (index : nat) (l : list Image) (imgs : list ImageReport) : Prop :=
  forall j i r, l !! j = Some i -> t_commit (im_target i) = Device ->
    imgs !! (index + j)%nat = Some r -> ir_committed r = true.

Lemma reported_applied_cons index i l imgs :
  (t_commit (im_target i) = Device -> forall r, imgs !! index = Some r -> ir_applied r = true) ->
  reported_applied (S index) l imgs -> reported_applied index (i :: l) imgs.
Proof.
  intros H0 H [|j] i' r Hj Hc Hr; simplify_eq/=.
  - rewrite Nat.add_0_r in Hr. by apply H0.
  - replace (index + S j)%nat with (S index + j)%nat in Hr by lia. by eapply H.
Qed.

Lemma reported_committed_cons index i l imgs :
  (t_commit (im_target i) = Device -> forall r, imgs !! index = Some r -> ir_committed r = true) ->
  reported_committed (S index) l imgs -> reported_committed index (i :: l) imgs.
Proof.
  intros H0 H [|j] i' r Hj Hc Hr; simplify_eq/=.
  - rewrite Nat.add_0_r in Hr. by apply H0.
  - replace (index + S j)%nat with (S index + j)%nat in Hr by lia. by eapply H.
Qed.

(** What the loops over the [Device] images leave behind: per-image reports
    that agree with the old ones before [index], and either the early failure
    [why] or, for the images passed over, what [ok] asks of the reports and of
    the flag returned. *)
Definition loop_post (why : string) (ok : list ImageReport -> bool -> Prop)
  (index : nat) (c : Context) (result : (Step + bool) * Context) : Prop :=
  exists imgs, length imgs = length (rp_images (report c)) /\
    (forall k, (k < index)%nat -> imgs !! k = rp_images (report c) !! k) /\
    match result with
    | (inr b, c') => c' = with_images imgs c /\ ok imgs b
    | (inl s, c') => (s, c') = fail_code (with_images imgs c) UpdateFailed why
    end.

(** A round that updates its own report entry and goes on. *)
Lemma loop_post_alter why (ok ok' : list ImageReport -> bool -> Prop) f index c result :
  loop_post why ok' (S index) (alter_image_report f index c) result ->
  (forall imgs b, imgs !! index = f <$> rp_images (report c) !! index -> ok' imgs b -> ok imgs b) ->
  loop_post why ok index c result.
Proof.
  intros (imgs & Hl & Hk & H) Hok. exists imgs.
  rewrite alter_image_report_frame in *. cbn in Hl. rewrite length_alter in Hl.
  split; [done|]. split.
  { intros k Hlt. rewrite Hk by lia. cbn. by rewrite list_lookup_alter_ne by lia. }
  pose proof (Hk index ltac:(lia)) as Hidx. cbn in Hidx. rewrite list_lookup_alter_eq in Hidx.
  destruct result as [[s|b] c']; [done|]. destruct H as (-> & H). split; [done|]. by apply Hok.
Qed.

(** A round that leaves the reports alone. *)
Lemma loop_post_skip why (ok ok' : list ImageReport -> bool -> Prop) index c result :
  loop_post why ok' (S index) c result ->
  (forall imgs b, ok' imgs b -> ok imgs b) ->
  loop_post why ok index c result.
Proof.
  intros (imgs & Hl & Hk & H) Hok. exists imgs. split; [done|].
  split; [intros k ?; apply Hk; lia|].
  destruct result as [[s|b] c']; [done|]. destruct H as (-> & H). split; [done|]. by apply Hok.
Qed.

Lemma loop_post_fail why ok f index c :
  loop_post why ok index c
    (let '(s, c') := fail_code (alter_image_report f index c) UpdateFailed why in (inl s, c')).
Proof.
  exists (alter f index (rp_images (report c))). rewrite length_alter. split; [done|].
  split; [|done]. intros k ?. by rewrite list_lookup_alter_ne by lia.
Qed.

(** What the loop of [await_commit] establishes: every [Device] image runs its
    file and is reported applied, and unless it says an image is still being
    committed all are committed, and reported so. *)
Definition commit_ok (c : Context) (l : list Image) (index : nat) (committing : bool)
  (imgs : list ImageReport) (b : bool) : Prop :=
  Forall (device_runs c) l /\ reported_applied index l imgs /\
  (b = false -> committing = false /\ Forall (device_committed c) l /\
                reported_committed index l imgs).

Lemma commit_ok_cons c i l index committing committing' f imgs b :
  (t_commit (im_target i) = Device ->
     imgs !! index = f <$> rp_images (report c) !! index /\
     (forall r, ir_applied (f r) = true) /\
     (apply_of c (im_target i) = A_Committed /\ committing' = committing /\
        (forall r, ir_committed (f r) = true)
      \/ apply_of c (im_target i) = A_OnTrial /\ committing' = true)) ->
  (t_commit (im_target i) <> Device -> committing' = committing) ->
  commit_ok c l (S index) committing' imgs b ->
  commit_ok c (i :: l) index committing imgs b.
Proof.
  intros Hdev Hcl (Hr & Ha & Hb). split; [|split].
  - constructor; [|done]. intros Hd. destruct (Hdev Hd) as (_ & _ & ?). naive_solver.
  - apply reported_applied_cons; [|done]. intros Hd r Hl.
    destruct (Hdev Hd) as (Hidx & Hf & _). rewrite Hidx in Hl.
    apply fmap_Some in Hl as (? & _ & ->). apply Hf.
  - intros ->. destruct (Hb eq_refl) as (-> & Hc & Hrc). split_and!.
    + destruct (decide (t_commit (im_target i) = Device)) as [Hd|Hd]; [|by rewrite Hcl].
      destruct (Hdev Hd) as (_ & _ & ?). naive_solver.
    + constructor; [|done]. intros Hd. destruct (Hdev Hd) as (_ & _ & ?). naive_solver.
    + apply reported_committed_cons; [|done]. intros Hd r Hl.
      destruct (Hdev Hd) as (Hidx & _ & [(_ & _ & Hf)|[_ ?]]); [|done]. rewrite Hidx in Hl.
      apply fmap_Some in Hl as (? & _ & ->). apply Hf.
Qed.

Lemma await_commit_loop_spec l index committing c :
  loop_post "dfu: device did not commit an image" (commit_ok c l index committing) index c
    (await_commit_loop index l committing c).
Proof.
  revert index committing c. induction l as [|i l IH]; intros index committing c; simpl.
  { exists (rp_images (report c)). rewrite with_images_self.
    repeat split; try done; try constructor; by intros ?. }
  case_bool_decide as Hd.
  { eapply loop_post_skip; [apply IH|]. intros imgs b.
    apply (commit_ok_cons c i l index committing committing id); [done|done]. }
  destruct (apply_of c (im_target i)) eqn:Ha.
  - apply loop_post_fail.
  - eapply loop_post_alter; [apply IH|]. intros imgs b Hidx Hok.
    eapply (commit_ok_cons c i); [intros _; split; [exact Hidx|split; [done|by right]]|done|done].
  - eapply loop_post_alter; [apply IH|]. intros imgs b Hidx Hok.
    eapply (commit_ok_cons c i); [intros _; split; [exact Hidx|split; [done|by left]]|done|done].
  - apply loop_post_fail.
Qed.

(** What the loop of [await_device] establishes when it does not say an image
    is still being applied. *)
Definition device_ok (c : Context) (l : list Image) (index : nat) (applying : bool)
  (imgs : list ImageReport) (b : bool) : Prop :=
  b = false -> applying = false /\ Forall (device_runs c) l /\ reported_applied index l imgs.

Lemma device_ok_cons c i l index applying applying' f imgs b :
  (t_commit (im_target i) = Device ->
     applying' = true \/
     (imgs !! index = f <$> rp_images (report c) !! index /\
      (forall r, ir_applied (f r) = true) /\ device_runs c i /\ applying' = applying)) ->
  (t_commit (im_target i) <> Device -> applying' = applying) ->
  device_ok c l (S index) applying' imgs b -> device_ok c (i :: l) index applying imgs b.
Proof.
  intros Hdev Hcl Hb ->. destruct (Hb eq_refl) as (-> & Hr & Ha).
  split_and!.
  - destruct (decide (t_commit (im_target i) = Device)) as [Hd|Hd]; [|by rewrite Hcl].
    destruct (Hdev Hd) as [?|(_ & _ & _ & <-)]; done.
  - constructor; [|done]. intros Hd. destruct (Hdev Hd) as [?|(_ & _ & H & _)]; [done|by apply H].
  - apply reported_applied_cons; [|done]. intros Hd r Hl.
    destruct (Hdev Hd) as [?|(Hidx & Hf & _)]; [done|]. rewrite Hidx in Hl.
    apply fmap_Some in Hl as (? & _ & ->). apply Hf.
Qed.

Lemma await_device_loop_spec l index applying c :
  loop_post "dfu: device did not apply an image" (device_ok c l index applying) index c
    (await_device_loop index l applying c).
Proof.
  revert index applying c. induction l as [|i l IH]; intros index applying c; simpl.
  { exists (rp_images (report c)). rewrite with_images_self.
    repeat split; try done; try constructor; by intros ?. }
  case_bool_decide as Hd.
  { eapply loop_post_skip; [apply IH|]. intros imgs b.
    apply (device_ok_cons c i l index applying applying id); [done|done]. }
  destruct (apply_of c (im_target i)) eqn:Ha.
  - eapply loop_post_skip; [apply IH|]. intros imgs b Hok.
    eapply (device_ok_cons c i _ _ _ _ id); [intros _; by left|done|done].
  - eapply loop_post_alter; [apply IH|]. intros imgs b Hidx Hok.
    eapply (device_ok_cons c i); [intros _; right; split; [exact Hidx|]|done|done].
    split; [done|]. split; [by intros _; right|done].
  - eapply loop_post_alter; [apply IH|]. intros imgs b Hidx Hok.
    eapply (device_ok_cons c i); [intros _; right; split; [exact Hidx|]|done|done].
    split; [done|]. split; [by intros _; left|done].
  - exists (rp_images (report c)). rewrite with_images_self. by repeat split.
Qed.

(** ** The boot inspection in closed form *)

(** A [Client] image that is not running its file, with nothing queued: the
    signature of a revert; and the one whose swap has not happened. *)
Definition is_reverted (c : Context) (i : Image) : bool :=
  let t := im_target i in
  bool_decide (t_commit t = Client) && negb (holds (active_of c (t_image t)) t)
  && negb (anything_pending c (t_image t)).

Definition is_not_booted (c : Context) (i : Image) : bool :=
  let t := im_target i in
  bool_decide (t_commit t = Client) && negb (holds (active_of c (t_image t)) t)
  && anything_pending c (t_image t).

(** A [Client] image running its file unconfirmed, where the bootloader has
    confirms: a confirm is owed. *)
Definition owes_confirm (c : Context) (i : Image) : bool :=
  let t := im_target i in
  bool_decide (t_commit t = Client) && holds (active_of c (t_image t)) t
  && negb (without_set_state c) && negb (ptr_confirmed (active_of c (t_image t))).

Definition inspected (c : Context) (i : Image) : Image := set_in_trial (owes_confirm c i) i.

Definition roll_back (c : Context) (i : Image) (r : ImageReport) : ImageReport :=
  if is_reverted c i then set_ir_rolled_back true r else r.

(** The context with the targets and the per-image reports replaced. *)
Definition with_targets (ts : list Image) (imgs : list ImageReport) (c : Context) : Context :=
  set_targets ts (with_images imgs c).

Lemma alter_middle {A} (f : A -> A) pre x l n :
  n = length pre -> alter f n (pre ++ x :: l) = pre ++ f x :: l.
Proof. intros ->. rewrite <- (Nat.add_0_r (length pre)). by rewrite alter_app_r. Qed.

Lemma with_targets_self c : with_targets (targets c) (rp_images (report c)) c = c.
Proof. by destruct c as [? ? ? ? ? []]. Qed.

(** The second loop of [inspect_boot], in closed form. *)
Lemma inspect_loop_spec l pre ipre il index reverted not_booted c :
  index = length pre -> targets c = pre ++ l ->
  index = length ipre -> rp_images (report c) = ipre ++ il -> length il = length l ->
  inspect_loop index l reverted not_booted c =
    (reverted || existsb (is_reverted c) l, not_booted || existsb (is_not_booted c) l,
     with_targets (pre ++ (inspected c <$> l)) (ipre ++ zip_with (roll_back c) l il) c).
Proof.
  revert pre ipre il index reverted not_booted c.
  induction l as [|i l IH]; intros pre ipre il index rv nb c Hi Ht Hj Hr Hlen.
  { destruct il; [|done]. simpl. rewrite !orb_false_r, <- Ht, <- Hr. by rewrite with_targets_self. }
  destruct il as [|r il]; [done|]. injection Hlen as Hlen.
  assert (forall c' rv' nb',
    targets c' = pre ++ inspected c i :: l ->
    rp_images (report c') = ipre ++ roll_back c i r :: il ->
    c' = with_targets (targets c') (rp_images (report c')) c ->
    rv' = rv || is_reverted c i -> nb' = nb || is_not_booted c i ->
    inspect_loop (S index) l rv' nb' c' =
      (rv || existsb (is_reverted c) (i :: l), nb || existsb (is_not_booted c) (i :: l),
       with_targets (pre ++ (inspected c <$> i :: l)) (ipre ++ zip_with (roll_back c) (i :: l) (r :: il)) c))
    as Hgo.
  { intros c' rv' nb' Ht' Hr' Hc' -> ->.
    rewrite (IH (pre ++ [inspected c i]) (ipre ++ [roll_back c i r]) il);
      [|rewrite length_app; simpl; lia|by rewrite <- app_assoc|rewrite length_app; simpl; lia
       |by rewrite <- app_assoc|done].
    rewrite Hc'. simpl. by rewrite <- !app_assoc, !orb_assoc. }
  cbn [inspect_loop].
  change (active_of (alter_target (set_in_trial false) index c)) with (active_of c).
  change (anything_pending (alter_target (set_in_trial false) index c)) with (anything_pending c).
  case_bool_decide as Hc; [|destruct (holds (active_of c (t_image (im_target i))) (im_target i)) eqn:Hh;
    [|destruct (anything_pending c (t_image (im_target i))) eqn:Hp]]; cbn [negb];
    (apply Hgo; [| |by destruct c as [? ? ? ? ? []]| |]);
    unfold roll_back, inspected, is_reverted, is_not_booted, owes_confirm;
    rewrite ?(bool_decide_eq_false_2 (_ = Client)) by done;
    rewrite ?(bool_decide_eq_true_2 (_ = Client)) by done;
    rewrite ?Hh, ?Hp; cbn; rewrite ?orb_false_r, ?orb_true_r; try done;
    by rewrite ?Ht, ?Hr, !alter_middle by done.
Qed.

(** ** The fuel of the planning loop

    One round per target left is enough: more changes nothing, so [plan_loop]
    with the number of targets is the source's loop. *)

Lemma choose_build_frame c :
  current (choose_build c).2 = current c /\
  length (targets (choose_build c).2) = length (targets c).
Proof.
  unfold choose_build. destruct (t_builds _); [|done]. destruct (chosen_known _); [done|].
  destruct (_ && _); [done|]. simpl. by rewrite length_alter.
Qed.

Lemma plan_loop_fuel plan c fuel fuel' :
  (length (targets c) - current c <= fuel)%nat -> (length (targets c) - current c <= fuel')%nat ->
  plan_loop fuel plan c = plan_loop fuel' plan c.
Proof.
  revert c fuel'. induction fuel as [|fuel IH]; intros c fuel' Hf Hf'.
  { destruct fuel' as [|fuel']; [done|]. cbn [plan_loop].
    destruct (Nat.ltb_spec (current c) (length (targets c))); [lia|done]. }
  destruct fuel' as [|fuel'].
  { cbn [plan_loop]. destruct (Nat.ltb_spec (current c) (length (targets c))); [lia|done]. }
  cbn [plan_loop]. destruct (Nat.ltb_spec (current c) (length (targets c))) as [Hc|]; [|done].
  cbn [negb]. destruct (choose_build_frame c) as [Hcur Hlen].
  destruct (choose_build c) as [[s|] c1]; [done|]. simpl in Hcur, Hlen.
  assert (forall c2, targets c2 = targets c1 -> current c2 = S (current c1) ->
    plan_loop fuel plan c2 = plan_loop fuel' plan c2) as Hgo.
  { intros c2 Ht Hcu. apply IH; rewrite Ht, Hcu; lia. }
  destruct (slot_holding _ _) as [[k s]|]; [|done].
  destruct (same_slot _ _); [by apply Hgo|]. destruct (sl_pending s); [by apply Hgo|].
  destruct (skip_if_already_present plan); [|done]. destruct (upload_only plan); [by apply Hgo|done].
Qed.
