(* ===== verification/UpdateInvariants.v ===== *)
(** * The machine's invariant

    What holds of the context in each state of [dfu::Machine], for an update of
    the targets [ts] under [plan], and that every function of the decisions
    leads to a state whose invariant holds. *)

From S2P Require Import Prelude Errors ImageValues UpdateTypes UpdateMachine UpdateLemmas.

(** ** The invariant *)

(** What of the targets never changes: the image numbers and who commits. *)
Definition static_of (i : Image) : Z * CommitBy := (t_image (im_target i), t_commit (im_target i)).

Section invariant.
Context (plan : UpdatePlan) (ts : list Target).

Definition shape (c : Context) : Prop :=
  static_of <$> targets c = (fun t => (t_image t, t_commit t)) <$> ts /\
  length (rp_images (report c)) = length (targets c).

(** Of every state that is not terminal: only a [Client] image is owed a
    confirm, nothing has been reported as the outcome yet, and once the refusal
    checks have run the bootloader mode admits the update. *)
Record base (c : Context) : Prop := {
  b_shape : shape c;
  b_current : (current c <= length (targets c))%nat;
  b_trial : Forall (fun i => in_trial i = true -> t_commit (im_target i) = Client) (targets c);
  b_cause : rp_cause (report c) = None;
  b_refusal : rp_refusal (report c) = None;
  b_revert : rp_revert_pending (report c) = false;
  b_mode : preconditions_checked c = true -> mode_refusal plan c = None
}.

(** The current target is there, and the refusal checks have passed. *)
Definition staging (c : Context) : Prop :=
  (current c < length (targets c))%nat /\ preconditions_checked c = true.

(** The current target is owed a confirm. *)
Definition confirming (c : Context) : Prop :=
  exists i, targets c !! current c = Some i /\ in_trial i = true.

Definition all_applied (c : Context) : Prop :=
  reported_applied 0 (targets c) (rp_images (report c)).

Definition all_committed (c : Context) : Prop :=
  Forall (device_committed c) (targets c) /\
  reported_committed 0 (targets c) (rp_images (report c)).

Definition idle_upload (c : Context) : Prop := upload_in_progress c = false.

Definition dinv (st : UpdateState) (c : Context) : Prop :=
  match st with
  | S_Idle | S_QueryingParameters | S_QueryingBootloader =>
      base c /\ idle_upload c /\ preconditions_checked c = false
  | S_InspectingImages | S_Planning | S_VerifyingBooted => base c /\ idle_upload c
  | S_Uploading => base c /\ upload_in_progress c = true /\ staging c
  | S_VerifyingUpload | S_MarkingForTest => base c /\ idle_upload c /\ staging c
  | S_Resetting | S_AwaitingDisconnect =>
      base c /\ idle_upload c /\ preconditions_checked c = true /\ swap_scheduled c = true
  | S_AwaitingReconnect => base c /\ (upload_in_progress c = true -> staging c)
  | S_AwaitingDeviceApply =>
      base c /\ idle_upload c /\
      (swap_scheduled c = true -> (next_in_trial c 0 < length (targets c))%nat)
  | S_AwaitingConfirmation | S_Confirming =>
      base c /\ idle_upload c /\ swap_scheduled c = true /\ all_applied c /\ confirming c
  | S_VerifyingConfirmed =>
      base c /\ idle_upload c /\ swap_scheduled c = false /\ all_applied c
  | S_AwaitingDeviceCommit => base c /\ idle_upload c /\ swap_scheduled c = false
  | S_Completed =>
      base c /\
      (upload_only plan = false -> swap_scheduled c = false /\ all_committed c)
  | S_Failed =>
      shape c /\ rp_cause (report c) <> None /\
      rp_revert_pending (report c) = swap_scheduled c
  | S_Cancelled =>
      shape c /\ rp_cause (report c) = None /\ rp_refusal (report c) = None /\
      rp_revert_pending (report c) = swap_scheduled c
  end.

Definition leads (r : Step * Context) : Prop := dinv (next r.1) r.2.

(** ** What the updates of the context keep *)

Lemma mode_refusal_frame c c' :
  rp_bootloader_mode (report c') = rp_bootloader_mode (report c) ->
  length (targets c') = length (targets c) -> mode_refusal plan c' = mode_refusal plan c.
Proof. intros Hm Hl. unfold mode_refusal. by rewrite Hm, Hl. Qed.

Lemma shape_length c : shape c -> length (targets c) = length ts.
Proof. intros [H _]. apply (f_equal length) in H. by rewrite !length_fmap in H. Qed.

Lemma static_alter f (i : nat) (l : list Image) :
  (forall x, static_of (f x) = static_of x) -> static_of <$> alter f i l = static_of <$> l.
Proof.
  intros Hf. apply list_eq. intros k. rewrite !list_lookup_fmap.
  destruct (decide (k = i)) as [->|].
  - rewrite list_lookup_alter_eq. destruct (l !! i); [simpl; by rewrite Hf|done].
  - by rewrite list_lookup_alter_ne.
Qed.

(** The context with anything changed but the targets, the index and the parts
    of the report the invariant reads. *)
Lemma base_frame c c' :
  base c -> targets c' = targets c -> current c' = current c ->
  length (rp_images (report c')) = length (rp_images (report c)) ->
  rp_cause (report c') = rp_cause (report c) ->
  rp_refusal (report c') = rp_refusal (report c) ->
  rp_revert_pending (report c') = rp_revert_pending (report c) ->
  rp_bootloader_mode (report c') = rp_bootloader_mode (report c) ->
  (preconditions_checked c' = true -> preconditions_checked c = true) -> base c'.
Proof.
  intros [[Hs Hl] ? ? ? ? ? Hm] Ht Hc Hi Hca Hre Hrv Hmo Hp.
  split; rewrite ?Ht, ?Hc, ?Hca, ?Hre, ?Hrv; try done.
  - split; rewrite Ht; [done|by rewrite Hi].
  - intros H. rewrite (mode_refusal_frame c c'); [by auto|done|by rewrite Ht].
Qed.

(** Changes to per-image reports. *)
Lemma base_with_images imgs c :
  base c -> length imgs = length (rp_images (report c)) -> base (with_images imgs c).
Proof. intros Hb Hl. by eapply base_frame. Qed.

Lemma base_alter_image_report f i c : base c -> base (alter_image_report f i c).
Proof. intros Hb. apply base_with_images; [done|]. by rewrite length_alter. Qed.

(** Changes to the targets that keep their identity. *)
Lemma base_with_targets tgts imgs c :
  base c -> static_of <$> tgts = static_of <$> targets c ->
  length imgs = length (rp_images (report c)) ->
  Forall (fun i => in_trial i = true -> t_commit (im_target i) = Client) tgts ->
  base (with_targets tgts imgs c).
Proof.
  intros [[Hs Hl] ? ? ? ? ? Hm] Ht Hi Htr.
  assert (length tgts = length (targets c)) as Hlen.
  { apply (f_equal length) in Ht. by rewrite !length_fmap in Ht. }
  split; cbn; try done.
  - split; cbn; [by rewrite Ht|by rewrite Hlen, Hi].
  - by rewrite Hlen.
  - intros Hp. rewrite (mode_refusal_frame c); [by auto|done|done].
Qed.

Lemma base_set_current n c : base c -> (n <= length (targets c))%nat -> base (set_current n c).
Proof. intros [? ? ? ? ? ? ?] ?. by split. Qed.

Lemma base_set_device d c : base c -> base (set_device d c).
Proof. intros Hb. by eapply base_frame. Qed.

Lemma base_set_swap b c : base c -> base (set_swap_scheduled b c).
Proof. intros Hb. by eapply base_frame. Qed.

Lemma base_set_upload b c : base c -> base (set_upload_in_progress b c).
Proof. intros Hb. by eapply base_frame. Qed.

Lemma base_set_mark_retried b c : base c -> base (set_mark_retried b c).
Proof. intros Hb. by eapply base_frame. Qed.

Lemma base_shape_fail c e : shape c -> leads (fail_error c e).
Proof. intros [Hs Hl]. by repeat split. Qed.

Lemma fail_leads c e : base c -> leads (fail_error c e).
Proof. intros Hb. apply base_shape_fail, Hb. Qed.

Lemma fail_code_leads c code why : base c -> leads (fail_code c code why).
Proof. apply fail_leads. Qed.

(** ** After the reset *)

Lemma find_in_trial_Some l index k :
  find_in_trial index l = Some k ->
  exists j i, (k = index + j)%nat /\ l !! j = Some i /\ in_trial i = true.
Proof.
  revert index. induction l as [|i l IH]; intros index; simpl; [done|].
  destruct (in_trial i) eqn:Hi; [intros [= <-]; exists 0%nat, i; by rewrite Nat.add_0_r|].
  intros H. destruct (IH _ H) as (j & i' & -> & Hl & Ht). exists (S j), i'. split; [lia|done].
Qed.

Lemma find_in_trial_None l index :
  find_in_trial index l = None <-> Forall (fun i => in_trial i = false) l.
Proof.
  revert index. induction l as [|i l IH]; intros index; simpl; [by split; [constructor|]|].
  rewrite Forall_cons, <- (IH (S index)). destruct (in_trial i); naive_solver.
Qed.

Lemma next_in_trial_le c from : (next_in_trial c from <= length (targets c))%nat.
Proof.
  unfold next_in_trial. destruct (find_in_trial _ _) as [k|] eqn:E; simpl; [|lia].
  apply find_in_trial_Some in E as (j & i & -> & Hl & _).
  rewrite lookup_drop in Hl. apply lookup_lt_Some in Hl. lia.
Qed.

Lemma next_in_trial_lt c from :
  (next_in_trial c from < length (targets c))%nat ->
  exists i, targets c !! next_in_trial c from = Some i /\ in_trial i = true.
Proof.
  unfold next_in_trial. destruct (find_in_trial _ _) as [k|] eqn:E; simpl; [|lia].
  apply find_in_trial_Some in E as (j & i & -> & Hl & Ht). intros _.
  rewrite lookup_drop in Hl. by exists i.
Qed.

Lemma next_in_trial_ge c :
  (length (targets c) <= next_in_trial c 0)%nat <-> Forall (fun i => in_trial i = false) (targets c).
Proof.
  unfold next_in_trial. rewrite drop_0, <- (find_in_trial_None _ 0).
  destruct (find_in_trial _ _) as [k|] eqn:E; simpl; [|done]. split; [|done].
  apply find_in_trial_Some in E as (j & i & -> & Hl & _). apply lookup_lt_Some in Hl. lia.
Qed.

Lemma confirmation_fork_leads c :
  base c -> idle_upload c -> swap_scheduled c = true -> all_applied c ->
  (next_in_trial c 0 < length (targets c))%nat -> leads (confirmation_fork plan c).
Proof.
  intros Hb Hu Hs Ha Hn. destruct (next_in_trial_lt _ _ Hn) as (i & Hi & Ht).
  assert (base (set_current (next_in_trial c 0) c)) as Hb'
    by (apply base_set_current; [done|lia]).
  unfold confirmation_fork, leads.
  destruct (bool_decide _ || _); simpl; repeat split; try apply Hb'; try done; by exists i.
Qed.

Lemma await_commit_leads c :
  base c -> idle_upload c -> swap_scheduled c = false -> leads (await_commit c).
Proof.
  intros Hb Hu Hs. unfold await_commit.
  destruct (await_commit_loop_spec (targets c) 0 false c) as (imgs & Hl & _ & H).
  pose proof (base_with_images imgs c Hb Hl) as Hb'.
  destruct (await_commit_loop 0 (targets c) false c) as [[s|b] c'].
  - rewrite H. by apply fail_code_leads.
  - destruct H as (-> & _ & _ & Hc). destruct b; [by repeat split; try apply Hb'|].
    destruct (Hc eq_refl) as (_ & Hco & Hrc). split; [done|]. by repeat split.
Qed.

Lemma await_device_leads c :
  base c -> idle_upload c ->
  (swap_scheduled c = true -> (next_in_trial c 0 < length (targets c))%nat) ->
  leads (await_device plan c).
Proof.
  intros Hb Hu Hn. unfold await_device.
  destruct (await_device_loop_spec (targets c) 0 false c) as (imgs & Hl & _ & H).
  pose proof (base_with_images imgs c Hb Hl) as Hb'.
  destruct (await_device_loop 0 (targets c) false c) as [[s|b] c'].
  - rewrite H. by apply fail_code_leads.
  - destruct H as (-> & Hc). destruct b; [split; [done|by split]|].
    destruct (Hc eq_refl) as (_ & _ & Ha). destruct (swap_scheduled c) eqn:Hs.
    + change (swap_scheduled (with_images imgs c)) with (swap_scheduled c). rewrite Hs; simpl.
      apply confirmation_fork_leads; try done. by apply Hn.
    + change (swap_scheduled (with_images imgs c)) with (swap_scheduled c). rewrite Hs; simpl.
      by apply await_commit_leads.
Qed.

(** The second loop of [inspect_boot], from a whole context. *)
Lemma inspect_loop_whole c :
  shape c ->
  exists imgs, length imgs = length (rp_images (report c)) /\
    imgs = zip_with (roll_back c) (targets c) (rp_images (report c)) /\
    inspect_loop 0 (targets c) false false c =
      (existsb (is_reverted c) (targets c), existsb (is_not_booted c) (targets c),
       with_targets (inspected c <$> targets c) imgs c).
Proof.
  intros [_ Hl]. eexists. split; [|split; [reflexivity|]].
  - rewrite length_zip_with. lia.
  - by rewrite (inspect_loop_spec _ [] [] (rp_images (report c))).
Qed.

Lemma inspected_static c (l : list Image) : static_of <$> (inspected c <$> l) = static_of <$> l.
Proof. by rewrite <- list_fmap_compose. Qed.

Lemma inspected_client c (l : list Image) :
  Forall (fun i => in_trial i = true -> t_commit (im_target i) = Client) (inspected c <$> l).
Proof.
  apply Forall_fmap, Forall_forall. intros i _; simpl. unfold owes_confirm. intros H.
  bool_to_prop. done.
Qed.

Lemma inspect_boot_leads c : base c -> idle_upload c -> leads (inspect_boot plan c).
Proof.
  intros Hb Hu. unfold inspect_boot.
  destruct (client_without_active c); [by apply fail_code_leads|].
  destruct (inspect_loop_whole c (b_shape _ Hb)) as (imgs & Hl & _ & ->).
  pose proof (base_with_targets (inspected c <$> targets c) imgs c Hb
    (inspected_static _ _) Hl (inspected_client _ _)) as Hb'.
  destruct (existsb (is_reverted c) (targets c));
    [by apply fail_code_leads, base_set_swap|].
  destruct (existsb (is_not_booted c) (targets c));
    [by apply fail_code_leads, base_set_swap|].
  apply await_device_leads; [by apply base_set_swap|done|].
  intros H. cbn in H. by apply Nat.ltb_lt in H.
Qed.

(** ** Staging *)

Lemma check_preconditions_spec c :
  base c ->
  match check_preconditions plan c with
  | (Some s, c') => leads (s, c')
  | (None, c') => base c' /\ c' = set_preconditions_checked true c
  end.
Proof.
  intros Hb. unfold check_preconditions. destruct (preconditions_checked c) eqn:Hp.
  { split; [done|]. destruct c; simpl in *; by subst. }
  assert (shape (set_preconditions_checked true c)) as Hsh by apply Hb.
  destruct (mode_refusal plan (set_preconditions_checked true c)) eqn:Hm.
  { by apply base_shape_fail. }
  destruct (is_downgrade _ _); [by apply base_shape_fail|].
  split; [|done]. destruct Hb. by split.
Qed.

Lemma staged_leads c : base c -> idle_upload c -> leads (staged plan c).
Proof.
  intros Hb Hu. unfold staged. destruct (upload_only plan) eqn:Hup.
  { split; [done|]. by rewrite Hup. }
  destruct (swap_scheduled c) eqn:Hs; [|by apply inspect_boot_leads].
  pose proof (check_preconditions_spec c Hb) as H.
  destruct (check_preconditions plan c) as [[s|] c']; [done|].
  destruct H as [Hb' ->]. by repeat split; try apply Hb'.
Qed.

Lemma next_target_leads c :
  base c -> idle_upload c -> (current c < length (targets c))%nat -> leads (next_target plan c).
Proof.
  intros Hb Hu Hc. unfold next_target.
  assert (base (set_mark_retried false (set_current (S (current c)) c))) as Hb'
    by (apply base_set_mark_retried, base_set_current; [done|lia]).
  destruct (_ <? _)%nat; [by repeat split; try apply Hb'|by apply staged_leads].
Qed.

Lemma mark_or_skip_leads c :
  base c -> idle_upload c -> staging c -> leads (mark_or_skip plan c).
Proof.
  intros Hb Hu [Hc Hp]. unfold mark_or_skip. destruct (without_set_state c).
  - apply next_target_leads; [by apply base_set_swap|done|done].
  - by repeat split; try apply Hb.
Qed.

(** [choose_build] fails, or fixes the current target's build and no more. *)
Lemma choose_build_spec c :
  base c ->
  match choose_build c with
  | (Some s, c') => leads (s, c')
  | (None, c') =>
      base c' /\ current c' = current c /\ upload_in_progress c' = upload_in_progress c /\
      length (targets c') = length (targets c)
  end.
Proof.
  intros Hb. unfold choose_build.
  destruct (t_builds _) as [builds|]; [|done]. destruct (chosen_known _); [done|].
  destruct (bool_decide _ && bool_decide _); [by apply fail_code_leads|].
  set (ix := chosen_build _ _ _). split_and!; try done; cbn; [|by rewrite length_alter].
  match goal with |- base ?x =>
    replace x with (with_targets (alter (take_build builds ix) (current c) (targets c))
                     (rp_images (report x)) c) by by destruct c as [? ? ? ? ? []] end.
  apply base_with_targets; [done| |by cbn; rewrite length_alter|].
  - by apply static_alter.
  - apply Forall_alter; [apply Hb|]. intros i _ H. exact H.
Qed.

Lemma upload_leads c :
  base c -> (current c < length (targets c))%nat ->
  leads (match check_preconditions plan c with
         | (Some refused, c) => (refused, c)
         | (None, c) => (step S_Uploading E_StartUpload, set_upload_in_progress true c)
         end).
Proof.
  intros Hb Hc. pose proof (check_preconditions_spec c Hb) as H.
  destruct (check_preconditions plan c) as [[s|] c']; [done|]. destruct H as [Hb' ->].
  split; [by apply base_set_upload|by repeat split].
Qed.

Lemma plan_loop_leads fuel c : base c -> idle_upload c -> leads (plan_loop fuel plan c).
Proof.
  revert c. induction fuel as [|fuel IH]; intros c Hb Hu; cbn [plan_loop].
  { destruct (negb _); by apply staged_leads. }
  destruct (Nat.ltb_spec (current c) (length (targets c))) as [Hc|]; cbn [negb];
    [|by apply staged_leads].
  pose proof (choose_build_spec c Hb) as H.
  destruct (choose_build c) as [[s|] c1]; [done|]. destruct H as (Hb1 & Hc1 & Hu1 & Hl1).
  unfold idle_upload in Hu. rewrite Hu in Hu1. rewrite <- Hc1, <- Hl1 in Hc.
  assert (forall f, base (set_current (S (current c1)) (alter_image_report f (current c1) c1))) as Hadv.
  { intros f. apply base_set_current; [by apply base_alter_image_report|cbn; lia]. }
  destruct (slot_holding c1 (current_target c1)) as [[k s]|]; [|by apply upload_leads].
  destruct (same_slot _ _); [by apply IH|].
  destruct (sl_pending s); [by apply IH; [apply (base_set_swap _ _ (Hadv _))|]|].
  destruct (skip_if_already_present plan); [|by apply upload_leads].
  destruct (upload_only plan); [by apply IH|].
  pose proof (check_preconditions_spec _ (base_alter_image_report (set_ir_upload_skipped true) (current c1) c1 Hb1)) as H.
  destruct (check_preconditions plan _) as [[s'|] c2]; [done|]. destruct H as [Hb2 ->].
  apply mark_or_skip_leads; [by apply base_alter_image_report|done|by split].
Qed.

Lemma plan_from_state_leads c : base c -> idle_upload c -> leads (plan_from_state plan c).
Proof.
  intros Hb Hu. unfold plan_from_state.
  destruct (_ && negb (upload_only plan)); [|by apply plan_loop_leads].
  apply inspect_boot_leads; [|done].
  apply (base_with_images (set_ir_upload_skipped true <$> rp_images (report c))); [done|].
  by rewrite length_fmap.
Qed.

(** ** Answers *)

Lemma upload_finished_leads ev c :
  base c -> staging c -> leads (upload_finished ev plan c).
Proof.
  intros Hb [Hc Hp]. unfold upload_finished.
  assert (forall f, base (alter_image_report f (current c) (set_upload_in_progress false c))) as Hb'.
  { intros f. by apply base_alter_image_report, base_set_upload. }
  destruct (upload_only plan); [by apply next_target_leads|].
  split; [apply Hb'|by repeat split].
Qed.

Lemma verify_upload_leads c :
  base c -> idle_upload c -> staging c -> leads (verify_upload plan c).
Proof.
  intros Hb Hu Hs. unfold verify_upload.
  destruct (slot_holding _ _) as [[k s]|]; [|by apply fail_code_leads].
  apply mark_or_skip_leads; [by apply base_alter_image_report|done|done].
Qed.

Lemma wait_read_failed_leads st e c :
  (st = S_AwaitingDeviceApply \/ st = S_AwaitingDeviceCommit) -> dinv st c ->
  leads (wait_read_failed st e c).
Proof.
  intros Hst Hd. assert (base c /\ idle_upload c) as [Hb Hu]
    by (by destruct Hst; subst; split; apply Hd).
  unfold wait_read_failed.
  destruct (code e); try (by apply fail_leads); [done|].
  split; [done|]. unfold idle_upload in Hu. simpl. congruence.
Qed.

Lemma confirm_failed_leads e c : base c -> idle_upload c -> leads (confirm_failed e c).
Proof.
  intros Hb Hu. unfold confirm_failed. pose proof (base_set_swap true c Hb) as Hb'.
  destruct (bool_decide (code e = Disconnected)).
  { split; [done|]. unfold idle_upload in Hu. simpl. congruence. }
  destruct (_ && _); [|by apply fail_leads].
  split; [by eapply base_frame|done].
Qed.

Lemma confirmed_one_leads c :
  base c -> idle_upload c -> swap_scheduled c = true -> all_applied c -> leads (confirmed_one c).
Proof.
  intros Hb Hu Hs Ha. unfold confirmed_one.
  set (c1 := alter_target (set_in_trial false) (current c) c).
  assert (base c1) as Hb1.
  { assert (c1 = with_targets (alter (set_in_trial false) (current c) (targets c))
                   (rp_images (report c)) c) as -> by by destruct c as [? ? ? ? ? []].
    apply base_with_targets; [done|by apply static_alter|done|].
    apply Forall_alter; [apply Hb|]. by intros i _ _. }
  assert (all_applied c1) as Ha1.
  { intros j i r Hj Hc Hr. cbn in Hj. destruct (decide (j = current c)) as [->|].
    - rewrite list_lookup_alter_eq in Hj. apply fmap_Some in Hj as (i0 & Hi0 & ->). by eapply Ha.
    - rewrite list_lookup_alter_ne in Hj by done. by eapply Ha. }
  pose proof (base_set_current (next_in_trial c1 (current c)) c1 Hb1 (next_in_trial_le _ _)) as Hb2.
  change (current c1) with (current c).
  destruct (Nat.ltb_spec (current (set_current (next_in_trial c1 (current c)) c1))
              (length (targets (set_current (next_in_trial c1 (current c)) c1)))) as [Hlt|Hge].
  - destruct (next_in_trial_lt _ _ Hlt) as (i & Hi & Ht).
    split; [done|]. repeat split; try done. by exists i.
  - split; [by apply base_set_swap|done].
Qed.

Lemma verify_confirmed_leads c :
  base c -> idle_upload c -> swap_scheduled c = false -> leads (verify_confirmed c).
Proof.
  intros Hb Hu Hs. unfold verify_confirmed.
  destruct (all_confirmed c); [by apply await_commit_leads|].
  by apply fail_code_leads, base_set_swap.
Qed.
(** ** One decision *)

(** What the invariant reads of a context. *)
Definition core (c : Context) :=
  (targets c, current c, device c, swap_scheduled c, upload_in_progress c, preconditions_checked c,
   (rp_images (report c), rp_cause (report c), rp_refusal (report c), rp_revert_pending (report c),
    rp_bootloader_mode (report c))).

Lemma base_core c c' : core c = core c' -> base c -> base c'.
Proof.
  intros [= Ht Hc _ _ _ Hp Hi Hca Hr Hrv Hm] Hb.
  eapply (base_frame c); rewrite ?Hi, ?Hp; done.
Qed.

Lemma dinv_core st c c' : core c = core c' -> dinv st c -> dinv st c'.
Proof.
  intros Hcore Hd. pose proof (base_core _ _ Hcore) as Hb.
  injection Hcore as Ht Hc Hdv Hs Hu Hp Hi Hca Hr Hrv Hm.
  assert (Forall (device_committed c) (targets c) -> Forall (device_committed c') (targets c')) as Hdc.
  { unfold device_committed, apply_of, active_of, slot_holding. by rewrite Ht, Hdv. }
  destruct st; simpl in *;
    unfold idle_upload, staging, confirming, all_applied, all_committed, next_in_trial, shape in *;
    rewrite <- ?Ht, <- ?Hc, <- ?Hs, <- ?Hu, <- ?Hp, <- ?Hi, <- ?Hca, <- ?Hr, <- ?Hrv;
    rewrite <- ?Ht in Hdc; naive_solver.
Qed.

Lemma base_of st c : is_terminal st = false -> dinv st c -> base c.
Proof. destruct st; simpl; try done; naive_solver. Qed.

Lemma tick_leads st t c : is_terminal st = false -> dinv st c -> leads (tick st t c).
Proof.
  intros Hst Hd. pose proof (base_of _ _ Hst Hd) as Hb. unfold tick.
  assert (forall st x, dinv st c -> dinv st (set_apply_poll x c)) as Hpoll
    by (intros ??; by apply dinv_core).
  case_bool_decide as E; [subst|]; cbn [andb].
  - destruct (due _ _); [|exact Hd]. destruct Hd as (_ & Hu & _).
    split; [done|]. unfold idle_upload in Hu. simpl. congruence.
  - destruct (_ || _); [done|]. destruct (due _ _); [|by apply Hpoll].
    apply fail_code_leads. by apply (base_core c).
Qed.

(** A mode recorded before the refusal checks have run. *)
Lemma base_record_mode m c :
  base c -> preconditions_checked c = false ->
  base (set_report (record_mode m plan (report c)) c).
Proof.
  intros [[Hs Hl] ? ? ? ? ? ?] Hp.
  split; unfold record_mode; destruct (fallback_mode plan); repeat case_bool_decide; simpl;
    try done; try congruence; by split.
Qed.

Lemma bootloader_failed_leads e c :
  base c -> idle_upload c -> preconditions_checked c = false -> leads (bootloader_failed e plan c).
Proof.
  intros Hb Hu Hp. pose proof (base_record_mode M_Unknown c Hb Hp) as Hb'.
  unfold bootloader_failed. destruct (code e); try (by apply fail_leads); by split.
Qed.

Lemma mark_refused_leads e c :
  base c -> idle_upload c -> leads (mark_refused e c).
Proof.
  intros Hb Hu. unfold mark_refused. destruct (_ && _); [|by apply fail_leads].
  split; [by apply base_set_mark_retried|done].
Qed.

Lemma reset_refused_leads e c : dinv S_Resetting c -> leads (reset_refused e c).
Proof.
  intros Hd. unfold reset_refused.
  destruct (_ && _); [by apply (dinv_core _ c)|]. destruct (_ || _); [done|].
  by apply fail_leads, Hd.
Qed.

Lemma cancel_leads c :
  base c -> leads (step S_Cancelled E_Finish,
                   set_report (set_rp_revert_pending (swap_scheduled c) (report c)) c).
Proof. intros []. by repeat split; try apply b_shape0. Qed.

Create HintDb leads.
#[local] Hint Resolve base_set_device base_set_swap plan_from_state_leads inspect_boot_leads
  await_device_leads await_commit_leads verify_upload_leads verify_confirmed_leads
  upload_finished_leads next_target_leads confirmed_one_leads bootloader_failed_leads
  mark_refused_leads confirm_failed_leads : leads.

Lemma decide_leads st ev c :
  is_terminal st = false -> dinv st c -> leads (decide_step st ev plan c).
Proof.
  intros Hst Hd. pose proof (base_of _ _ Hst Hd) as Hb.
  assert (forall e, leads (fail_error c e)) as Hf by (intros; by apply fail_leads).
  assert (leads (illegal c)) as Hi by by apply fail_code_leads.
  assert (forall st d, dinv st c -> base (set_device d c)) as Hsd
    by (intros; by apply base_set_device).
  unfold decide_step.
  destruct (kind ev) eqn:Hk;
    try (by apply tick_leads); try (by rewrite Hst; apply cancel_leads);
    destruct st; try done; cbn [dinv] in Hd; destruct_and? Hd; try done;
    try (by auto 6 with leads).
  - split; [by apply (base_core c)|done].
  - split; [|done]. eapply (base_core (set_report _ c)); [done|]. by apply base_record_mode.
  - split; [by apply base_set_device|done].
  - by apply next_target_leads; [by apply base_set_swap, base_set_device| |apply H2].
  - split; [done|]. simpl. unfold idle_upload in *. congruence.
  - destruct (upload_in_progress c) eqn:Hu; [by split; [|split; auto]|by split].
  - by apply (dinv_core S_Confirming c).
  - by apply reset_refused_leads.
  - by apply wait_read_failed_leads; [left|].
  - by apply wait_read_failed_leads; [right|].
Qed.
End invariant.
