(* ===== verification/UpdateRuns.v ===== *)
(** * Runs of the machine

    The invariant of [UpdateInvariants] carried through [Machine::apply] and
    through a whole sequence of events, the table of outcomes each decision
    stays in, and the flags that are only ever raised. *)

From stdpp Require Import sets.
From S2P Require Import Prelude Errors ImageValues UpdateTypes UpdateMachine UpdateLemmas UpdateInvariants.

(** ** Every decision stays in its table *)

Definition ends_in (table : list outcome) (r : Step * Context) : Prop := outcome_of r ∈ table.

(** Membership of a decided outcome in a literal table. *)
Ltac in_outcomes := unfold ends_in; set_solver.

Section outcomes.
Context (plan : UpdatePlan).

Lemma ends_in_incl (t t' : list outcome) r : t ⊆ t' -> ends_in t r -> ends_in t' r.
Proof. intros Hs. apply Hs. Qed.

Lemma await_commit_ends c : ends_in commit_outcomes (await_commit c).
Proof.
  unfold await_commit. destruct (await_commit_loop_spec (targets c) 0 false c) as (imgs & _ & _ & H).
  destruct (await_commit_loop _ _ _ _) as [[s|[]] c']; [rewrite H| |]; in_outcomes.
Qed.

Lemma confirmation_fork_ends c : ends_in boot_outcomes (confirmation_fork plan c).
Proof. unfold confirmation_fork. destruct (_ || _); in_outcomes. Qed.

Lemma await_device_ends c : ends_in boot_outcomes (await_device plan c).
Proof.
  unfold await_device. destruct (await_device_loop_spec (targets c) 0 false c) as (imgs & _ & _ & H).
  destruct (await_device_loop _ _ _ _) as [[s|[]] c']; [rewrite H| |]; try (in_outcomes).
  destruct (negb _); [|apply confirmation_fork_ends].
  eapply ends_in_incl, await_commit_ends. set_solver.
Qed.

Lemma inspect_boot_ends c : ends_in boot_outcomes (inspect_boot plan c).
Proof.
  unfold inspect_boot. destruct (client_without_active c); [in_outcomes|].
  destruct (inspect_loop _ _ _ _ _) as [[[] []] c']; try (in_outcomes).
  apply await_device_ends.
Qed.

(** A refusal is a failure. *)
Lemma check_preconditions_ends c s c' :
  check_preconditions plan c = (Some s, c') -> outcome_of (s, c') = failed.
Proof.
  unfold check_preconditions. destruct (preconditions_checked c); [done|].
  destruct (mode_refusal _ _); [|destruct (is_downgrade _ _)]; by intros [= <- <-].
Qed.

Lemma staged_ends c : ends_in staged_outcomes (staged plan c).
Proof.
  unfold staged. destruct (upload_only plan); [in_outcomes|].
  destruct (swap_scheduled c); [|eapply ends_in_incl, inspect_boot_ends; set_solver].
  destruct (check_preconditions plan c) as [[s|] c'] eqn:E; [|in_outcomes].
  apply check_preconditions_ends in E. unfold ends_in. rewrite E. set_solver.
Qed.

Lemma next_target_ends c : ends_in ((S_Planning, E_Continue) :: staged_outcomes) (next_target plan c).
Proof.
  unfold next_target. destruct (_ <? _)%nat; [in_outcomes|].
  eapply ends_in_incl, staged_ends. set_solver.
Qed.

Lemma mark_or_skip_ends c : ends_in mark_outcomes (mark_or_skip plan c).
Proof.
  unfold mark_or_skip. destruct (without_set_state c); [|in_outcomes].
  eapply ends_in_incl, next_target_ends. set_solver.
Qed.

Lemma choose_build_ends c s c' : choose_build c = (Some s, c') -> outcome_of (s, c') = failed.
Proof.
  unfold choose_build. destruct (t_builds _); [|done]. destruct (chosen_known _); [done|].
  destruct (_ && _); by intros [= <- <-].
Qed.

Lemma plan_loop_ends fuel c : ends_in plan_outcomes (plan_loop fuel plan c).
Proof.
  assert (forall c, ends_in plan_outcomes (staged plan c)) as Hst
    by (intros; eapply ends_in_incl, staged_ends; set_solver).
  assert (forall c', ends_in plan_outcomes
    (match check_preconditions plan c' with
     | (Some refused, c) => (refused, c)
     | (None, c) => (step S_Uploading E_StartUpload, set_upload_in_progress true c)
     end)) as Hup.
  { intros c'. destruct (check_preconditions plan c') as [[s|] c1] eqn:E;
      [apply check_preconditions_ends in E; unfold ends_in; rewrite E|unfold ends_in]; set_solver. }
  revert c. induction fuel as [|fuel IH]; intros c; cbn [plan_loop].
  { destruct (negb _); apply Hst. }
  destruct (negb _); [apply Hst|].
  destruct (choose_build c) as [[s|] c1] eqn:E.
  { apply choose_build_ends in E. unfold ends_in. rewrite E. set_solver. }
  destruct (slot_holding _ _) as [[k s]|]; [|apply Hup].
  destruct (same_slot _ _); [apply IH|]. destruct (sl_pending s); [apply IH|].
  destruct (skip_if_already_present plan); [|apply Hup]. destruct (upload_only plan); [apply IH|].
  destruct (check_preconditions plan _) as [[s'|] c2] eqn:E2.
  { apply check_preconditions_ends in E2. unfold ends_in. rewrite E2. set_solver. }
  eapply ends_in_incl, mark_or_skip_ends. set_solver.
Qed.

Lemma plan_from_state_ends c : ends_in plan_outcomes (plan_from_state plan c).
Proof.
  unfold plan_from_state. destruct (_ && negb _); [|apply plan_loop_ends].
  eapply ends_in_incl, inspect_boot_ends. set_solver.
Qed.

Lemma tick_table st t c : is_terminal st = false -> ends_in (outcomes st) (tick st t c).
Proof.
  intros Hst. unfold tick. case_bool_decide as E; [subst|]; cbn [andb].
  { destruct (due _ _); in_outcomes. }
  destruct (waiting_state st) eqn:Hw; cbn [negb orb].
  - destruct (due (apply_poll c) t); cbn [negb]; [destruct (due _ _)|];
      destruct st; try done; in_outcomes.
  - destruct st; try done; in_outcomes.
Qed.

Lemma upload_finished_ends ev c : ends_in (outcomes S_Uploading) (upload_finished ev plan c).
Proof.
  unfold upload_finished. destruct (upload_only plan) eqn:Hu; [|in_outcomes].
  unfold next_target. destruct (_ <? _)%nat; [in_outcomes|].
  unfold staged. rewrite Hu. in_outcomes.
Qed.

Lemma decide_ends st ev c : ends_in (outcomes st) (decide_step st ev plan c).
Proof.
  unfold decide_step. destruct (kind ev);
    try (destruct (is_terminal st) eqn:Ht; [|by apply tick_table]);
    destruct st; try done; try (in_outcomes).
  - eapply ends_in_incl, plan_from_state_ends. set_solver.
  - unfold verify_upload. destruct (slot_holding _ _) as [[k s]|]; [|in_outcomes].
    eapply ends_in_incl, mark_or_skip_ends. set_solver.
  - eapply ends_in_incl, inspect_boot_ends. set_solver.
  - eapply ends_in_incl, await_device_ends. set_solver.
  - unfold verify_confirmed. destruct (all_confirmed _); [|in_outcomes].
    eapply ends_in_incl, await_commit_ends. set_solver.
  - eapply ends_in_incl, await_commit_ends. set_solver.
  - apply upload_finished_ends.
  - eapply ends_in_incl, next_target_ends. set_solver.
  - destruct (upload_in_progress c); in_outcomes.
  - unfold confirmed_one. destruct (_ <? _)%nat; in_outcomes.
  - unfold bootloader_failed. destruct (code _); in_outcomes.
  - unfold mark_refused. destruct (_ && _); in_outcomes.
  - unfold reset_refused. destruct (_ && _); [|destruct (_ || _)]; in_outcomes.
  - unfold wait_read_failed. destruct (code _); in_outcomes.
  - unfold confirm_failed. destruct (bool_decide _); [|destruct (_ && _)]; in_outcomes.
  - unfold confirm_failed. destruct (bool_decide _); [|destruct (_ && _)]; in_outcomes.
  - unfold wait_read_failed. destruct (code _); in_outcomes.
Qed.

End outcomes.

(** ** What a decision leaves alone

    Once the refusal checks have run, neither the flag saying so nor the
    refusal they recorded changes again, and a forced reset stays on record.
    No decision but that of [tick] touches a deadline. *)

Definition raised (c : Context) :=
  (preconditions_checked c, rp_refusal (report c), reset_forced c).

Definition timers (c : Context) :=
  (grace_deadline c, apply_poll c, apply_deadline c, apply_phase c).

(** A file of the target: the primary one, or the second of two builds. *)
Definition has_file (i : Image) : Prop :=
  chosen i = 0%nat \/ (chosen i = 1%nat /\ t_builds (im_target i) <> None).

(** The image and the files of a target stay, and one of them stays chosen. *)
Definition steady_image (i i' : Image) : Prop :=
  (t_builds (im_target i') = t_builds (im_target i) /\ t_image (im_target i') = t_image (im_target i)) /\
  (has_file i -> has_file i').

Definition steady : list Image -> list Image -> Prop := Forall2 steady_image.

#[global] Instance steady_image_preorder : PreOrder steady_image.
Proof. split; [by split|]. intros i i' i'' [[] Hf] [[] Hf']. split; [split; congruence|auto]. Qed.

Lemma steady_alter f k (l : list Image) :
  (forall i, l !! k = Some i -> steady_image i (f i)) -> steady l (alter f k l).
Proof.
  intros Hf. apply Forall2_same_length_lookup_2; [by rewrite length_alter|].
  intros j i i' Hi. destruct (decide (j = k)) as [->|Hjk].
  - rewrite list_lookup_alter_eq, Hi. intros [= <-]. by apply Hf.
  - rewrite list_lookup_alter_ne by done. rewrite Hi. by intros [= <-].
Qed.

(** [c'] comes from [c] without a flag lowered, a deadline touched or a file
    lost. *)
Definition kept (c c' : Context) : Prop :=
  timers c' = timers c /\ (preconditions_checked c = true -> raised c' = raised c) /\
  steady (targets c) (targets c').

#[global] Instance kept_preorder : PreOrder kept.
Proof.
  split; [by split|]. intros c c' c'' (Ht & Hr & Hs) (Ht' & Hr' & Hs').
  unfold kept. split_and!; [congruence| |by etrans].
  intros Hp. specialize (Hr Hp). rewrite Hr'; [done|]. unfold raised in Hr. congruence.
Qed.

Section kept.
Context (plan : UpdatePlan).

Definition keeps (c : Context) (r : Step * Context) : Prop := kept c r.2.

Lemma keeps_via c c' r : kept c c' -> keeps c' r -> keeps c r.
Proof. unfold keeps. by etrans. Qed.

Lemma keeps_fail c e : keeps c (fail_error c e).
Proof. by split. Qed.

Lemma kept_check c : kept c (check_preconditions plan c).2.
Proof.
  unfold check_preconditions. destruct (preconditions_checked c) eqn:Hp; [done|].
  destruct (mode_refusal _ _); [|destruct (is_downgrade _ _)]; (split; [done|]; by rewrite Hp).
Qed.

Lemma keeps_await_commit c : keeps c (await_commit c).
Proof.
  unfold await_commit. destruct (await_commit_loop_spec (targets c) 0 false c) as (imgs & _ & _ & H).
  destruct (await_commit_loop _ _ _ _) as [[s|[]] c']; [by rewrite H|..]; by destruct H as [-> _].
Qed.

Lemma keeps_await_device c : keeps c (await_device plan c).
Proof.
  unfold await_device. destruct (await_device_loop_spec (targets c) 0 false c) as (imgs & _ & _ & H).
  destruct (await_device_loop _ _ _ _) as [[s|[]] c']; [by rewrite H|..]; destruct H as [-> _]; [done|].
  destruct (negb _); [by eapply keeps_via, keeps_await_commit|].
  unfold confirmation_fork. by destruct (_ || _).
Qed.

Lemma inspect_loop_kept l index rv nb c : kept c (inspect_loop index l rv nb c).2.
Proof.
  revert index rv nb c. induction l as [|i l IH]; intros index rv nb c; simpl; [done|].
  repeat case_match; (etrans; [|apply IH]); split_and!; try done;
    cbn; repeat (etrans; [|apply steady_alter; by split]); done.
Qed.

Lemma keeps_inspect_boot c : keeps c (inspect_boot plan c).
Proof.
  unfold inspect_boot. destruct (client_without_active c); [done|].
  pose proof (inspect_loop_kept (targets c) 0 false false c) as Hr.
  destruct (inspect_loop _ _ _ _ _) as [[rv nb] c']; simpl in Hr.
  apply (keeps_via _ c'); [done|].
  destruct rv; [done|]. destruct nb; [done|]. by eapply keeps_via, keeps_await_device.
Qed.

Lemma keeps_staged c : keeps c (staged plan c).
Proof.
  unfold staged. destruct (upload_only plan); [done|].
  destruct (swap_scheduled c); [|apply keeps_inspect_boot].
  pose proof (kept_check c) as H. by destruct (check_preconditions plan c) as [[s|] c'].
Qed.

Lemma keeps_next_target c : keeps c (next_target plan c).
Proof.
  unfold next_target. destruct (_ <? _)%nat; [done|]. by eapply keeps_via, keeps_staged.
Qed.

Lemma keeps_mark_or_skip c : keeps c (mark_or_skip plan c).
Proof.
  unfold mark_or_skip. destruct (without_set_state c); [|done].
  by eapply keeps_via, keeps_next_target.
Qed.

Lemma chosen_build_file c t builds : chosen_build c t builds = 0%nat \/ chosen_build c t builds = 1%nat.
Proof.
  unfold chosen_build. cbv zeta. cbn [foldl]. unfold choose_round.
  repeat case_match; simplify_eq/=; auto.
Qed.

Lemma kept_choose_build c : kept c (choose_build c).2.
Proof.
  unfold choose_build. destruct (t_builds _) as [builds|] eqn:Hb; [|done].
  destruct (chosen_known _); [done|]. destruct (_ && _); [done|]. split_and!; [done..|].
  cbn. apply steady_alter. intros i Hi. unfold current_image in Hb. rewrite Hi in Hb. cbn in Hb.
  split; [done|]. intros _. unfold has_file. cbn. rewrite Hb.
  destruct (chosen_build_file c (im_target (current_image c)) builds); auto.
Qed.

Lemma keeps_upload c :
  keeps c (match check_preconditions plan c with
           | (Some refused, c) => (refused, c)
           | (None, c) => (step S_Uploading E_StartUpload, set_upload_in_progress true c)
           end).
Proof.
  pose proof (kept_check c) as H. destruct (check_preconditions plan c) as [[s|] c']; [done|].
  by apply (keeps_via _ c').
Qed.

Lemma keeps_plan_loop fuel c : keeps c (plan_loop fuel plan c).
Proof.
  revert c. induction fuel as [|fuel IH]; intros c; cbn [plan_loop].
  { destruct (negb _); apply keeps_staged. }
  destruct (negb _); [apply keeps_staged|].
  pose proof (kept_choose_build c) as Hr.
  destruct (choose_build c) as [[s|] c1]; simpl in Hr; [done|].
  apply (keeps_via _ c1); [done|]. pose proof (keeps_upload c1) as Hup.
  destruct (slot_holding _ _) as [[k s]|]; [|done].
  destruct (same_slot _ _); [by eapply keeps_via, IH|].
  destruct (sl_pending s); [by eapply keeps_via, IH|].
  destruct (skip_if_already_present plan); [|done].
  destruct (upload_only plan); [by eapply keeps_via, IH|].
  clear Hup. set (c2 := alter_image_report _ _ _).
  apply (keeps_via _ c2); [done|]. pose proof (kept_check c2) as Hc2.
  destruct (check_preconditions plan c2) as [[s'|] c3]; [done|].
  apply (keeps_via _ c3); [done|]. by eapply keeps_via, keeps_mark_or_skip.
Qed.

Lemma keeps_plan_from_state c : keeps c (plan_from_state plan c).
Proof.
  unfold plan_from_state. destruct (_ && negb _); [|apply keeps_plan_loop].
  by eapply keeps_via, keeps_inspect_boot.
Qed.

Lemma keeps_upload_finished ev c : keeps c (upload_finished ev plan c).
Proof.
  unfold upload_finished. destruct (upload_only plan); [|done].
  by eapply keeps_via, keeps_next_target.
Qed.

Lemma keeps_confirm_failed e c : keeps c (confirm_failed e c).
Proof. unfold confirm_failed. destruct (bool_decide _); [done|]. by destruct (_ && _). Qed.

Lemma keeps_wait_read_failed st e c : keeps c (wait_read_failed st e c).
Proof. unfold wait_read_failed. by destruct (code e). Qed.

Lemma kept_record_mode m c : kept c (set_report (record_mode m plan (report c)) c).
Proof.
  unfold record_mode. destruct (fallback_mode plan); repeat case_bool_decide; by split.
Qed.

Lemma keeps_confirmed_one c d : keeps c (confirmed_one (set_device d c)).
Proof.
  unfold confirmed_one. cbv zeta. destruct (_ <? _)%nat; (split_and!; [done..|]); by apply steady_alter.
Qed.

(** [reset_forced] is raised only by the step that forces the reset. *)
Lemma decide_keeps st ev c :
  kind ev <> K_Tick -> effect (decide_step st ev plan c).1 <> E_ForceReset ->
  keeps c (decide_step st ev plan c).
Proof.
  intros Hk. unfold decide_step. destruct (kind ev); destruct st; simpl; try done; intros He;
    try (eapply keeps_via; [|first [apply keeps_inspect_boot | apply keeps_await_device
      | apply keeps_await_commit | apply keeps_next_target]]; done);
    try apply keeps_plan_from_state; try apply keeps_upload_finished;
    try apply keeps_confirm_failed; try apply keeps_wait_read_failed.
  - eapply keeps_via; [apply kept_record_mode|done].
  - unfold verify_upload. destruct (slot_holding _ _) as [[k s]|]; [|done].
    by eapply keeps_via, keeps_mark_or_skip.
  - unfold verify_confirmed. destruct (all_confirmed _); [|done].
    by eapply keeps_via, keeps_await_commit.
  - by destruct (upload_in_progress c).
  - apply keeps_confirmed_one.
  - unfold bootloader_failed. destruct (code _); try done; apply kept_record_mode.
  - unfold mark_refused. by destruct (_ && _).
  - unfold reset_refused in *. destruct (_ && _); [done|]. by destruct (_ || _).
Qed.

(** [tick] may take the poll down, and touches nothing else. *)
Lemma tick_raised st t c : raised (tick st t c).2 = raised c.
Proof. unfold tick. destruct (_ && _); [done|]. destruct (_ || _); [done|]. by destruct (due _ _). Qed.

Lemma tick_timers st t c :
  timers (tick st t c).2 = timers c \/
  (waiting_state st = true /\ timers (tick st t c).2 = timers (set_apply_poll None c)).
Proof.
  unfold tick. destruct (_ && _); [by left|]. destruct (waiting_state st); [|by left].
  destruct (due (apply_poll c) t); [|by left]. right. split; [done|]. by destruct (due _ _).
Qed.

End kept.

(** ** One turn of the machine *)

(** The bookkeeping around a decision changes nothing the invariant reads. *)
Lemma core_summarise c : core (summarise c) = core c.
Proof. unfold summarise. by destruct (rp_images _) eqn:E; rewrite ?E. Qed.

Lemma raised_summarise c : raised (summarise c) = raised c.
Proof. unfold summarise. by destruct (rp_images _). Qed.

Lemma parameterise_next s c :
  next (parameterise s c).1 = next s /\ effect (parameterise s c).1 = effect s.
Proof. unfold parameterise. by destruct (effect s) eqn:E; rewrite ?E. Qed.

Lemma core_parameterise s c : core (parameterise s c).2 = core c.
Proof. unfold parameterise. by destruct (effect s). Qed.

Lemma raised_parameterise s c : raised (parameterise s c).2 = raised c.
Proof. unfold parameterise. by destruct (effect s). Qed.

Lemma core_keep_time s t plan c : core (keep_time s t plan c) = core c.
Proof. unfold keep_time. by repeat case_match. Qed.

Lemma raised_keep_time s t plan c : raised (keep_time s t plan c) = raised c.
Proof. unfold keep_time. by repeat case_match. Qed.

(** What [apply] makes of the decision it takes. *)
Lemma apply_spec ev m s m' :
  apply ev m = (s, m') ->
  let r := guarded_step (state_ m) ev (plan_ m) (context_ m) in
  plan_ m' = plan_ m /\ state_ m' = next s /\ next s = next r.1 /\ effect s = effect r.1 /\
  s = (parameterise r.1 (summarise r.2)).1 /\
  core (context_ m') = core r.2 /\ raised (context_ m') = raised r.2.
Proof.
  unfold apply. destruct (guarded_step _ _ _ _) as [s0 c0] eqn:E. simpl.
  pose proof (parameterise_next s0 (summarise c0)) as [Hn He].
  pose proof (core_parameterise s0 (summarise c0)) as Hc.
  pose proof (raised_parameterise s0 (summarise c0)) as Hr.
  destruct (parameterise s0 (summarise c0)) as [s1 c1]; simpl in *.
  intros [= <- <-]; simpl. rewrite core_keep_time, raised_keep_time, Hc, Hr.
  by rewrite core_summarise, raised_summarise.
Qed.

(** The totals of the report are up to date after every turn. *)
Lemma summarise_idem c : summarise (summarise c) = summarise c.
Proof. unfold summarise at 2 3. by destruct (rp_images (report c)) eqn:E; unfold summarise; rewrite ?E; cbn; rewrite ?E. Qed.

Lemma apply_summarised ev m s m' :
  apply ev m = (s, m') -> summarise (context_ m') = context_ m'.
Proof.
  unfold apply. destruct (guarded_step _ _ _ _) as [s0 c0].
  pose proof (summarise_idem c0) as Hi. generalize dependent (summarise c0). clear c0. intros c Hc.
  destruct (parameterise s0 c) as [s1 c1] eqn:Hp. intros [= <- <-]; simpl.
  assert (summarise c1 = c1) as Hc1.
  { unfold parameterise in Hp. destruct (effect s0); simplify_eq/=; try done.
    unfold summarise in *. simpl. destruct (rp_images (report c)); [done|].
    rewrite <- Hc. reflexivity. }
  assert (forall f : Context -> Context, (forall c, report (f c) = report c) ->
    (forall r c, set_report r (f c) = f (set_report r c)) -> summarise (f c1) = f c1) as Hf.
  { intros f Hr Hs. rewrite <- Hc1 at 2. unfold summarise. rewrite Hr.
    destruct (rp_images (report c1)); [done|]. by rewrite Hs. }
  apply (Hf (keep_time s1 (now ev) (plan_ m))); unfold keep_time; intros;
    destruct (effect s1); cbn; repeat (case_bool_decide; cbn in * ); done.
Qed.

Lemma decide_terminal plan st ev c :
  is_terminal st = true -> decide_step st ev plan c = (step st E_None, c).
Proof.
  intros Hst. unfold decide_step, tick. destruct st; try done; destruct (kind ev); done.
Qed.

(** A terminal machine only answers that nothing is to be done. *)
Lemma apply_terminal ev m s m' :
  is_terminal (state_ m) = true -> summarise (context_ m) = context_ m -> apply ev m = (s, m') ->
  s = step (state_ m) E_None /\ state_ m' = state_ m /\ report (context_ m') = report (context_ m).
Proof.
  intros Ht Hs. unfold apply, guarded_step. rewrite Ht. cbn [orb].
  rewrite decide_terminal by done. cbn. rewrite Hs. intros [= <- <-].
  split_and!; [done|done|]. unfold keep_time. cbn. by case_bool_decide.
Qed.

Section machine.
Context (plan : UpdatePlan) (ts : list Target).

(** The invariant of the machine. *)
Definition minv (m : Machine) : Prop :=
  plan_ m = plan /\ dinv plan ts (state_ m) (context_ m).

Lemma minv_new : minv (new_machine ts plan).
Proof.
  split; [done|]. simpl. split; [|done]. split; simpl; try done.
  - split; simpl; [by rewrite <- list_fmap_compose|by rewrite !length_fmap].
  - lia.
  - by apply Forall_fmap, Forall_forall.
Qed.

Lemma dinv_shape st c : dinv plan ts st c -> shape ts c.
Proof.
  destruct (is_terminal st) eqn:Hst.
  - destruct st; try done; simpl; intros; destruct_and?; [by eapply b_shape|done|done].
  - intros Hd. eapply b_shape, base_of; done.
Qed.

(** Where an image has to be there, it is. *)
Lemma dinv_current st c :
  needs_current st = true -> dinv plan ts st c -> (current c < length (targets c))%nat.
Proof.
  destruct st; try done; simpl; intros _ Hd; destruct_and? Hd;
    try (match goal with H : staging _ |- _ => apply H end).
  destruct H4 as (i & Hi & _). by apply lookup_lt_Some in Hi.
Qed.

Lemma dinv_consistent st c :
  ts <> [] -> is_terminal st = false -> dinv plan ts st c -> consistent st c = true.
Proof.
  intros Hts Hst Hd. pose proof (shape_length _ _ (dinv_shape _ _ Hd)) as Hl.
  unfold consistent. apply andb_true_iff. split.
  - rewrite bool_decide_eq_false_2; [done|]. intros H. rewrite H in Hl. by destruct ts.
  - destruct (needs_current st) eqn:Hn; [|done]. by apply Nat.ltb_lt, (dinv_current st).
Qed.

(** Which state an effect is asked for in. *)
Definition goes_to (o : outcome) : bool :=
  match o.2 with
  | E_StartUpload | E_ResumeUpload => bool_decide (o.1 = S_Uploading)
  | E_MarkForTest => bool_decide (o.1 = S_MarkingForTest)
  | E_Reset | E_ForceReset => bool_decide (o.1 = S_Resetting)
  | E_AwaitDisconnect => bool_decide (o.1 = S_AwaitingDisconnect)
  | E_Confirm => bool_decide (o.1 = S_Confirming)
  | E_AwaitApply => waiting_state o.1
  | E_Finish => is_terminal o.1
  | _ => true
  end.

Lemma outcomes_go st o : o ∈ outcomes st -> goes_to o = true.
Proof.
  assert (Forall (fun o => goes_to o = true) (outcomes st)) as H
    by (destruct st; repeat constructor).
  revert o. by apply Forall_forall.
Qed.

Lemma decide_goes st ev c : goes_to (outcome_of (decide_step st ev plan c)) = true.
Proof. eapply outcomes_go, decide_ends. Qed.

(** The guards of [apply] hold back nothing but an answer without its table. *)
Lemma guarded_decides st ev c :
  ts <> [] -> dinv plan ts st c -> is_terminal st = true \/ complete ev = true ->
  guarded_step st ev plan c = decide_step st ev plan c.
Proof.
  intros Hts Hd Hev. unfold guarded_step. destruct (is_terminal st) eqn:Hst; cbn [orb].
  { by rewrite decide_terminal. }
  rewrite dinv_consistent by done. destruct Hev as [?|Hev]; [done|]; rewrite Hev. cbn [andb].
  pose proof (decide_leads plan ts st ev c Hst Hd) as Hl.
  pose proof (decide_goes st ev c) as Hg.
  destruct (decide_step st ev plan c) as [s c']. unfold leads in Hl. simpl in Hl.
  destruct (names_current (effect s)) eqn:Hn; [|done].
  assert (current c' < length (targets c'))%nat as Hlt.
  { apply (dinv_current (next s)); [|done].
    unfold goes_to in Hg; simpl in Hg. destruct (effect s); try done;
      apply bool_decide_eq_true in Hg; by rewrite Hg. }
  cbn [andb]. by rewrite (proj2 (Nat.leb_gt _ _) Hlt).
Qed.

Lemma guarded_incomplete st ev c :
  ts <> [] -> dinv plan ts st c -> is_terminal st = false -> complete ev = false ->
  guarded_step st ev plan c = fail_code c Internal "dfu: answer without a slot table".
Proof.
  intros Hts Hd Hst Hev. unfold guarded_step. by rewrite Hst, dinv_consistent, Hev.
Qed.

Lemma guarded_leads st ev c :
  ts <> [] -> dinv plan ts st c -> leads plan ts (guarded_step st ev plan c).
Proof.
  intros Hts Hd. destruct (is_terminal st) eqn:Hst.
  { rewrite guarded_decides by auto. by rewrite decide_terminal. }
  destruct (complete ev) eqn:Hev.
  - rewrite guarded_decides by auto. by apply decide_leads.
  - rewrite guarded_incomplete by done. by eapply fail_code_leads, base_of.
Qed.

Lemma guarded_ends st ev c : ends_in (outcomes st) (guarded_step st ev plan c).
Proof.
  unfold guarded_step.
  assert (is_terminal st = false -> forall c w, ends_in (outcomes st) (fail_code c Internal w)) as Hf
    by (intros; destruct st; try done; in_outcomes).
  destruct (is_terminal st) eqn:Hst; cbn [orb]; [by rewrite decide_terminal; [destruct st; try done; in_outcomes|]|].
  pose proof (decide_ends plan st ev c) as He.
  destruct (consistent st c && complete ev).
  - destruct (decide_step st ev plan c) as [s c']. destruct (_ && _); [by apply Hf|done].
  - simpl. by apply Hf.
Qed.

Lemma guarded_raised st ev c :
  preconditions_checked c = true -> effect (guarded_step st ev plan c).1 <> E_ForceReset ->
  raised (guarded_step st ev plan c).2 = raised c.
Proof.
  intros Hp. unfold guarded_step. destruct (_ || _); [|done].
  assert (effect (decide_step st ev plan c).1 <> E_ForceReset ->
    raised (decide_step st ev plan c).2 = raised c) as Hk.
  { destruct (decide (kind ev = K_Tick)) as [Hk|Hk].
    - intros _. unfold decide_step. rewrite Hk. apply tick_raised.
    - intros He. by apply decide_keeps. }
  destruct (decide_step st ev plan c) as [s c'].
  destruct (names_current (effect s)) eqn:Hn; cbn [andb]; [|done].
  destruct (_ <=? _)%nat; [|done]. intros _. apply Hk.
  intros He. simpl in He. by rewrite He in Hn.
Qed.

(** Every step leaves the targets their files. *)
Lemma guarded_steady plan' st ev c : steady (targets c) (targets (guarded_step st ev plan' c).2).
Proof.
  assert (steady (targets c) (targets (decide_step st ev plan' c).2)) as Hd.
  { destruct (decide (kind ev = K_Tick)) as [Hk|Hk].
    - unfold decide_step. rewrite Hk. unfold tick.
      destruct (_ && _); [done|]. destruct (_ || _); [done|]. by destruct (due _ _).
    - destruct (decide (effect (decide_step st ev plan' c).1 = E_ForceReset)) as [He|He].
      + pose proof (decide_ends plan' st ev c) as Hends. revert He Hends.
        destruct st, (kind ev) eqn:Hkind; unfold decide_step; rewrite ?Hkind; try done;
          unfold ends_in, outcome_of; try (intros He; rewrite He; set_solver).
        intros _ _. unfold reset_refused. destruct (_ && _); [done|]. by destruct (_ || _).
      + by apply decide_keeps. }
  unfold guarded_step. destruct (_ || _); [|done].
  destruct (decide_step st ev plan' c) as [s c']. by destruct (_ && _).
Qed.

(** ** Runs *)

Lemma minv_apply ev m s m' : ts <> [] -> minv m -> apply ev m = (s, m') -> minv m'.
Proof.
  intros Hts [Hp Hd] Ha. apply apply_spec in Ha as (Hp' & Hs & Hn & _ & _ & Hc & _).
  split; [by rewrite Hp'|]. rewrite Hs, Hn.
  eapply dinv_core; [symmetry; exact Hc|]. rewrite Hp. by apply guarded_leads.
Qed.

Lemma run_snoc evs ev m :
  run (evs ++ [ev]) m =
    let '(ss, m1) := run evs m in let '(s, m2) := apply ev m1 in (ss ++ [s], m2).
Proof.
  revert m. induction evs as [|e evs IH]; intros m; simpl.
  { by destruct (apply ev m). }
  destruct (apply e m) as [s1 m1]. rewrite IH. destruct (run evs m1) as [ss m2].
  by destruct (apply ev m2).
Qed.

(** Induction on runs, from the last event. *)
Lemma run_ind (P : list Step -> Machine -> Prop) m0 :
  P [] m0 ->
  (forall evs ss m ev s m', run evs m0 = (ss, m) -> P ss m -> apply ev m = (s, m') ->
     P (ss ++ [s]) m') ->
  forall evs ss m, run evs m0 = (ss, m) -> P ss m.
Proof.
  intros H0 Hstep evs. induction evs as [|ev evs IH] using rev_ind; intros ss m Hr.
  { by injection Hr as <- <-. }
  rewrite run_snoc in Hr. destruct (run evs m0) as [ss1 m1] eqn:E1.
  destruct (apply ev m1) as [s m2] eqn:E2. injection Hr as <- <-. by eapply Hstep; eauto.
Qed.

Lemma minv_run evs ss m :
  ts <> [] -> run evs (new_machine ts plan) = (ss, m) -> minv m.
Proof.
  intros Hts. apply (run_ind (fun _ m => minv m)); [apply minv_new|].
  intros ? ? ? ? ? ? _ Hm. by eapply minv_apply.
Qed.

Lemma run_plan evs ss m : run evs (new_machine ts plan) = (ss, m) -> plan_ m = plan.
Proof.
  revert evs ss m. apply (run_ind (fun _ m => plan_ m = plan)); [done|].
  intros evs ss m ev s m' _ <- Ha. by apply apply_spec in Ha as [].
Qed.

(** The targets of a run keep their files, and an upload names one of them. *)
Lemma files_run evs ss m :
  run evs (new_machine ts plan) = (ss, m) ->
  Forall2 (fun t i => (t_builds (im_target i) = t_builds t /\ t_image (im_target i) = t_image t) /\ has_file i) ts (targets (context_ m)).
Proof.
  revert evs ss m. apply (run_ind (fun _ m => Forall2 _ ts (targets (context_ m)))).
  - cbn. rewrite Forall2_fmap_r. apply Forall_Forall2_diag, Forall_true. intros t. split; [done|by left].
  - intros evs ss m ev s m' _ Hf Ha. apply apply_spec in Ha as (_ & _ & _ & _ & _ & Hc & _).
    injection Hc as -> _. pose proof (guarded_steady (plan_ m) (state_ m) ev (context_ m)) as Hs.
    apply Forall2_same_length_lookup. rewrite <- (Forall2_length _ _ _ Hs). split; [by eapply Forall2_length|].
    intros k t i' Ht Hi'. destruct (Forall2_lookup_r _ _ _ _ _ Hs Hi') as (i & Hi & [] & Hf').
    destruct (Forall2_lookup_lr _ _ _ _ _ _ Hf Ht Hi) as [[] Hfi]. split; [split; congruence|auto].
Qed.

Lemma guarded_names st ev c :
  names_current (effect (guarded_step st ev plan c).1) = true ->
  (current (guarded_step st ev plan c).2 < length (targets (guarded_step st ev plan c).2))%nat.
Proof.
  unfold guarded_step. destruct (if _ || _ then _ else _) as [s c'].
  destruct (names_current (effect s)) eqn:Hn; cbn [andb]; [|cbn [fst]; by rewrite Hn].
  destruct (Nat.leb_spec (length (targets c')) (current c')); done.
Qed.

Lemma upload_step_file evs ss m ev s m' :
  run evs (new_machine ts plan) = (ss, m) -> apply ev m = (s, m') -> effect s = E_StartUpload ->
  exists t, ts !! st_target s = Some t /\ st_image s = t_image t /\
    (st_build s = 0%nat \/ (st_build s = 1%nat /\ t_builds t <> None)).
Proof.
  intros Hr Ha He. pose proof (run_plan _ _ _ Hr) as Hp. pose proof (files_run (evs ++ [ev]) (ss ++ [s]) m') as Hf.
  rewrite run_snoc, Hr, Ha in Hf. specialize (Hf eq_refl).
  apply apply_spec in Ha as (_ & _ & _ & He' & Hs & Hc & _). rewrite Hp in *.
  pose proof (guarded_names (state_ m) ev (context_ m)) as Hlt. rewrite <- He', He in Hlt. specialize (Hlt eq_refl).
  set (r := guarded_step _ _ _ _) in *. injection Hc as Htg _.
  pose proof (core_summarise r.2) as Hsum. injection Hsum as Hsum Hcur _.
  assert (exists i, targets r.2 !! current r.2 = Some i) as [i Hi] by by apply lookup_lt_is_Some_2.
  rewrite Htg in Hf. destruct (Forall2_lookup_r _ _ _ _ _ Hf Hi) as (t & Ht & [Hb Him] & Hfile).
  exists t. unfold parameterise in Hs. rewrite <- He', He in Hs. subst s. cbn [fst st_target st_build st_image].
  unfold current_image. rewrite Hsum, Hcur, Hi. cbn. split_and!; [done..|].
  destruct Hfile as [|[]]; [by left|right; split; congruence].
Qed.
End machine.
