(* ===== verification/UpdateProperties.v ===== *)
(** * What a firmware update is guaranteed

    The properties of [dfu::Machine] over whole runs: a sequence of events, in
    any order and with any content, applied to a new machine. *)

From stdpp Require Import sets.
From S2P Require Import Prelude Errors ImageValues UpdateTypes UpdateMachine UpdateLemmas UpdateInvariants UpdateRuns.

(** ** A sample update

    One image, swap with revert, tested and then confirmed; for the
    witnesses. *)

Definition sample_plan : UpdatePlan := mkPlan TestThenConfirm None false false true 5 30 2.

Definition old_hash : ImageHash := replicate 32 1.
Definition new_hash : ImageHash := replicate 32 2.

Definition sample_target : Target := mkTarget 0 Client new_hash (mkVersion 2 0 0 0) None.

Definition slot_of (slot : Z) (h : ImageHash) (pending confirmed active : bool) : ImageSlot :=
  mkSlot 0 slot "1.0.0" (Some h) true pending confirmed active false.

Definition event (k : Kind) (t : TimePoint) : Event :=
  mkEvent k t 0 (mkBootloaderMode M_SwapUsingMove 4 false) None 0 false Error_none.

Definition table_event (k : Kind) (t : TimePoint) (l : list ImageSlot) : Event :=
  mkEvent k t 0 (mkBootloaderMode M_Unknown 0 false) (Some (mkImageState l None)) 0 false Error_none.

Definition error_event (t : TimePoint) (e : Error) : Event :=
  mkEvent K_Failed t 0 (mkBootloaderMode M_Unknown 0 false) None 0 false e.

Definition running_old : ImageSlot := slot_of 0 old_hash false true true.

Definition staging_events : list Event :=
  [event K_Start 0; event K_ParametersRead 1; event K_BootloaderRead 2;
   table_event K_StateRead 3 [running_old]; event K_Continue 4; event K_UploadFinished 5;
   table_event K_StateRead 6 [running_old; slot_of 1 new_hash false false false]].

Definition reset_events : list Event :=
  staging_events ++
  [table_event K_MarkedForTest 7 [running_old; slot_of 1 new_hash true false false];
   event K_ResetAccepted 8].

Definition boot_events : list Event := reset_events ++ [event K_Disconnected 9; event K_Reconnected 10].

Definition trial_table : list ImageSlot :=
  [slot_of 0 new_hash false false true; slot_of 1 old_hash false true false].

Definition trial_events : list Event := boot_events ++ [table_event K_StateRead 11 trial_table].

Definition confirmed_table : list ImageSlot :=
  [slot_of 0 new_hash false true true; slot_of 1 old_hash false false false].

Definition confirm_events : list Event :=
  trial_events ++ [event K_ConfirmApproved 12; table_event K_Confirmed 13 confirmed_table].

Definition complete_events : list Event :=
  confirm_events ++ [table_event K_StateRead 14 confirmed_table].

Definition sample_run (evs : list Event) : list Step * Machine :=
  run evs (new_machine [sample_target] sample_plan).

Lemma sample_run_eq evs :
  run evs (new_machine [sample_target] sample_plan) = ((sample_run evs).1, (sample_run evs).2).
Proof. apply surjective_pairing. Qed.

Example sample_completes : state_ (sample_run complete_events).2 = S_Completed.
Proof. vm_compute. reflexivity. Qed.

Example sample_effects :
  effect <$> (sample_run complete_events).1 =
    [E_QueryParameters; E_QueryBootloader; E_ReadState; E_Continue; E_StartUpload; E_ReadState;
     E_MarkForTest; E_Reset; E_AwaitDisconnect; E_RequestReconnect; E_ReadState;
     E_RequestConfirmation; E_Confirm; E_ReadState; E_Finish].
Proof. vm_compute. reflexivity. Qed.

(** ** The protocol *)

(** The runs the table of outcomes allows. *)
Inductive follows : UpdateState -> list Step -> UpdateState -> Prop :=
| follows_nil st : follows st [] st
| follows_cons st s ss st' :
    (next s, effect s) ∈ outcomes st -> follows (next s) ss st' -> follows st (s :: ss) st'.

(** C1. Whatever the events, every step the machine takes is one the protocol
    table allows in the state it was in: the machine refines the protocol. *)
Theorem run_follows_protocol (evs : list Event) (m : Machine) :
  follows (state_ m) (run evs m).1 (state_ (run evs m).2).
Proof.
  revert m. induction evs as [|ev evs IH]; intros m; simpl; [constructor|].
  destruct (apply ev m) as [s m'] eqn:Ha. specialize (IH m').
  destruct (run evs m') as [ss m'']. simpl in *.
  apply apply_spec in Ha as (_ & Hs & Hn & He & _). constructor; [|by rewrite <- Hs].
  rewrite Hn, He. apply guarded_ends.
Qed.

(** For an update with at least one image the two "no image to work on"
    guards of [Machine::apply] never trip: whenever an answer carries the table
    it promises, the machine does what the transition table decides. *)
Lemma guards_never_trip (ts : list Target) (plan : UpdatePlan) (evs : list Event) (ev : Event) :
  ts <> [] -> complete ev = true ->
  let m := (run evs (new_machine ts plan)).2 in
  guarded_step (state_ m) ev (plan_ m) (context_ m)
  = decide_step (state_ m) ev (plan_ m) (context_ m).
Proof.
  intros Hts Hev m. destruct (run evs (new_machine ts plan)) as [ss m'] eqn:Hr.
  destruct (minv_run plan ts evs ss m' Hts Hr) as [Hp Hd]. subst m; simpl. rewrite Hp.
  apply (guarded_decides plan ts); auto.
Qed.

Lemma run_summarised ts plan evs ss m :
  run evs (new_machine ts plan) = (ss, m) -> is_terminal (state_ m) = true ->
  summarise (context_ m) = context_ m.
Proof.
  revert evs ss m. apply (run_ind (fun _ m => is_terminal (state_ m) = true ->
    summarise (context_ m) = context_ m)); [done|]. intros; by eapply apply_summarised.
Qed.

(** A terminal state is final: no later event moves the machine, asks for
    an effect or changes a word of the report. *)
Lemma terminal_is_final (ts : list Target) (plan : UpdatePlan) (evs evs' : list Event)
  (ss ss' : list Step) (m m' : Machine) :
  run evs (new_machine ts plan) = (ss, m) -> is_terminal (state_ m) = true ->
  run evs' m = (ss', m') ->
  state_ m' = state_ m /\ report (context_ m') = report (context_ m) /\
  Forall (fun s => effect s = E_None) ss'.
Proof.
  intros Hr Ht. pose proof (run_summarised _ _ _ _ _ Hr Ht) as Hs.
  clear Hr. revert m Ht Hs ss'. induction evs' as [|ev evs' IH]; intros m Ht Hs ss'; simpl.
  { intros [= <- <-]. split_and!; [done|done|constructor]. }
  destruct (apply ev m) as [s m1] eqn:Ha. destruct (run evs' m1) as [ss1 m2] eqn:Hr.
  intros [= <- <-]. pose proof (apply_summarised _ _ _ _ Ha) as Hs1.
  apply apply_terminal in Ha as (-> & Hst & Hrep); [|done|done].
  destruct (IH m1) with (ss' := ss1) as (Hst' & Hrep' & Hall); [by rewrite Hst|done|done|].
  split_and!; [congruence|congruence|by constructor].
Qed.

(** ** Safety *)

(** Effects that change what the device holds or runs, before the new image has
    booted. *)
Definition mutating (e : Effect) : bool :=
  match e with
  | E_StartUpload | E_ResumeUpload | E_MarkForTest | E_Reset | E_ForceReset => true
  | _ => false
  end.

(** The step just taken, and the context it left, in a run. *)
Lemma run_step ts plan evs ev ss m s m' :
  ts <> [] -> run evs (new_machine ts plan) = (ss, m) -> apply ev m = (s, m') ->
  minv plan ts m /\ minv plan ts m' /\ state_ m' = next s /\ goes_to (next s, effect s) = true.
Proof.
  intros Hts Hr Ha. pose proof (minv_run plan ts evs ss m Hts Hr) as Hm.
  split; [done|]. split; [by eapply minv_apply|].
  apply apply_spec in Ha as (_ & Hs & Hn & He & _). split; [done|].
  rewrite Hn, He. eapply outcomes_go, guarded_ends.
Qed.

(** After a mutating effect the refusal checks have run, and none refused. *)
Lemma mutating_checked ts plan m s :
  minv plan ts m -> state_ m = next s -> goes_to (next s, effect s) = true ->
  mutating (effect s) = true ->
  preconditions_checked (context_ m) = true /\ rp_refusal (report (context_ m)) = None /\
  mode_refusal plan (context_ m) = None.
Proof.
  intros [_ Hd] Hs Hg Hmu. rewrite Hs in Hd. unfold goes_to in Hg; simpl in Hg.
  assert (base plan ts (context_ m) /\ preconditions_checked (context_ m) = true) as [Hb Hp].
  { destruct (effect s); try done; apply bool_decide_eq_true in Hg; rewrite Hg in Hd; simpl in Hd;
      unfold staging in Hd; naive_solver. }
  split_and!; [done|apply Hb|by apply Hb].
Qed.

(** C2. Nothing on the device is changed before the refusal checks have
    passed: when the machine asks for an upload, a mark, or a reset, plain or
    forced, the bootloader mode it established admits the update and no refusal
    is on record. *)
Theorem mutation_only_when_admitted (ts : list Target) (plan : UpdatePlan) (evs : list Event)
  (ev : Event) (ss : list Step) (m m' : Machine) (s : Step) :
  ts <> [] -> run evs (new_machine ts plan) = (ss, m) -> apply ev m = (s, m') ->
  mutating (effect s) = true ->
  preconditions_checked (context_ m') = true /\ rp_refusal (report (context_ m')) = None /\
  mode_refusal plan (context_ m') = None.
Proof.
  intros Hts Hr Ha Hmu. destruct (run_step _ _ _ _ _ _ _ _ Hts Hr Ha) as (_ & Hm' & Hs & Hg).
  by eapply mutating_checked.
Qed.

Lemma mutation_only_when_admitted_witness :
  let m := (sample_run (take 4 staging_events)).2 in
  let m' := (apply (event K_Continue 4) m).2 in
  preconditions_checked (context_ m') = true /\ rp_refusal (report (context_ m')) = None /\
  mode_refusal sample_plan (context_ m') = None.
Proof.
  exact (mutation_only_when_admitted [sample_target] sample_plan (take 4 staging_events)
    (event K_Continue 4) _ _ _ _ ltac:(done) (sample_run_eq _) (surjective_pairing _)
    ltac:(vm_compute; reflexivity)).
Defined.

(** A refused update left the device as it was: if a run ends with a
    refusal on record, none of its steps asked for an upload, a mark or a
    reset. *)
Lemma refused_left_device_alone (ts : list Target) (plan : UpdatePlan) (evs : list Event)
  (ss : list Step) (m : Machine) :
  ts <> [] -> run evs (new_machine ts plan) = (ss, m) ->
  rp_refusal (report (context_ m)) <> None ->
  Forall (fun s => mutating (effect s) = false) ss.
Proof.
  intros Hts Hr. cut (Forall (fun s => mutating (effect s) = false) ss \/
    (preconditions_checked (context_ m) = true /\ rp_refusal (report (context_ m)) = None));
    [naive_solver|].
  revert evs ss m Hr.
  apply (run_ind (fun ss m => Forall (fun s => mutating (effect s) = false) ss \/
    (preconditions_checked (context_ m) = true /\ rp_refusal (report (context_ m)) = None)));
    [by left; constructor|].
  intros evs ss m ev s m' Hr IH Ha. destruct (run_step _ _ _ _ _ _ _ _ Hts Hr Ha) as (Hm & Hm' & Hs & Hg).
  destruct (mutating (effect s)) eqn:Hmu.
  { right. destruct (mutating_checked _ _ _ _ Hm' Hs Hg Hmu) as (? & ? & _). done. }
  destruct IH as [Hall|[Hp Hre]]; [left; by apply Forall_app_2; [|constructor]|].
  right. apply apply_spec in Ha as (_ & _ & _ & He & _ & _ & Hra).
  rewrite guarded_raised in Hra; [|done|intros Hf; rewrite <- He in Hf; by rewrite Hf in Hmu].
  unfold raised in Hra. by injection Hra as -> -> _.
Qed.

Definition refused_events : list Event :=
  [event K_Start 0; event K_ParametersRead 1;
   mkEvent K_BootloaderRead 2 0 (mkBootloaderMode M_UpgradeOnly 3 false) None 0 false Error_none;
   table_event K_StateRead 3 [running_old]; event K_Continue 4].

(** *** The reset *)

(** The machine is past asking for the reset; [uploading] says whether an
    upload is suspended. *)
Definition past_reset (st : UpdateState) (uploading : bool) : bool :=
  match st with
  | S_Resetting | S_AwaitingDisconnect | S_VerifyingBooted | S_AwaitingDeviceApply
  | S_AwaitingConfirmation | S_Confirming | S_VerifyingConfirmed | S_AwaitingDeviceCommit
  | S_Completed | S_Failed | S_Cancelled => true
  | S_AwaitingReconnect => negb uploading
  | _ => false
  end.

(** Effects that belong before the reset, the reset itself included. *)
Definition stages (e : Effect) : bool :=
  match e with E_StartUpload | E_ResumeUpload | E_MarkForTest | E_Reset => true | _ => false end.

(** The states [past_reset] leads to, by the table. *)
Lemma past_reset_table st o :
  o ∈ outcomes st -> past_reset st false = true -> (st = S_AwaitingReconnect -> o.1 <> S_Uploading) ->
  stages o.2 = false /\ past_reset o.1 false = true.
Proof.
  intros Ho. destruct st; try done; intros _ Hst; revert o Ho Hst;
    match goal with |- forall o, o ∈ ?t -> _ =>
      let t' := eval cbn in t in change t with t' end;
    intros o Ho Hst; rewrite ?list_elem_of_cons, ?elem_of_cons in Ho;
    destruct_or? Ho; try (by subst); try set_solver.
Qed.

(** A wait for the link entered after the upload does not resume one. *)
Lemma to_reconnect plan st ev c :
  st <> S_Uploading -> next (guarded_step st ev plan c).1 = S_AwaitingReconnect ->
  upload_in_progress (guarded_step st ev plan c).2 = upload_in_progress c.
Proof.
  assert (forall table r, ends_in table r -> next r.1 = S_AwaitingReconnect ->
    forallb (fun o => negb (bool_decide (o.1 = S_AwaitingReconnect))) table = true -> False) as Hno.
  { intros table r Hin Hn Hall. rewrite forallb_forall in Hall.
    specialize (Hall _ (proj1 (list_elem_of_In _ _) Hin)). simpl in Hall. by rewrite Hn in Hall. }
  intros Hst. unfold guarded_step. destruct (_ || _); [|done].
  destruct (decide_step st ev plan c) as [s c'] eqn:E. destruct (_ && _); [done|].
  intros Hn. simpl in Hn |- *. pose proof (decide_ends plan st ev c) as He. rewrite E in He.
  assert (forall st t, tick st t c = (s, c') -> upload_in_progress c' = upload_in_progress c) as Htick.
  { intros st' t Ht. apply (f_equal (fun r => upload_in_progress r.2)) in Ht. simpl in Ht.
    rewrite <- Ht. unfold tick. by repeat case_match. }
  destruct st; try (exfalso; eapply Hno; [exact He|exact Hn|reflexivity]); clear He;
    unfold decide_step, illegal, fail_code, fail_error in E;
    destruct (kind ev); cbn [is_terminal] in E; simplify_eq; try done; try (by eapply Htick);
    unfold wait_read_failed, confirm_failed, confirmed_one, verify_confirmed, fail_code, fail_error in E;
    try (by repeat case_match; simplify_eq).
  - exfalso. eapply (Hno boot_outcomes (s, c')); [rewrite <- E; apply await_device_ends|done|done].
  - exfalso. destruct (all_confirmed _); [|by simplify_eq].
    eapply (Hno commit_outcomes (s, c')); [rewrite <- E; apply await_commit_ends|done|done].
  - exfalso. eapply (Hno commit_outcomes (s, c')); [rewrite <- E; apply await_commit_ends|done|done].
Qed.

Lemma reconnect_idle plan ev c :
  upload_in_progress c = false ->
  next (guarded_step S_AwaitingReconnect ev plan c).1 <> S_Uploading.
Proof.
  intros Hu. unfold guarded_step. destruct (_ || _); [|done].
  assert (next (decide_step S_AwaitingReconnect ev plan c).1 <> S_Uploading) as Hd.
  { unfold decide_step, tick. destruct (kind ev); cbn; rewrite ?Hu; done. }
  destruct (decide_step _ _ _ _) as [s c']. by destruct (_ && _).
Qed.

(** Once past the reset, always past it, and nothing is staged again. *)
Lemma past_reset_step ts plan ev m s m' :
  ts <> [] -> minv plan ts m -> apply ev m = (s, m') ->
  past_reset (state_ m) (upload_in_progress (context_ m)) = true ->
  stages (effect s) = false /\
  past_reset (state_ m') (upload_in_progress (context_ m')) = true.
Proof.
  intros Hts [Hp Hd] Ha Hpast.
  apply apply_spec in Ha as (_ & Hs & Hn & He & _ & Hc & _).
  pose proof (guarded_ends (plan_ m) (state_ m) ev (context_ m)) as Hin.
  unfold ends_in, outcome_of in Hin. rewrite <- Hn, <- He in Hin.
  assert (upload_in_progress (context_ m') =
    upload_in_progress (guarded_step (state_ m) ev (plan_ m) (context_ m)).2) as Hu
    by (unfold core in Hc; congruence).
  destruct (past_reset_table (state_ m) (next s, effect s)) as [Hst Hpast']; [done| | |].
  - by destruct (state_ m).
  - intros Hst. rewrite Hst in Hn, Hpast. simpl in Hpast |- *. rewrite Hn.
    apply reconnect_idle. by destruct (upload_in_progress (context_ m)).
  - split; [done|]. rewrite Hs. destruct (decide (next s = S_AwaitingReconnect)) as [Hr|Hr];
      [|by destruct (next s)].
    rewrite to_reconnect in Hu; [|by intros H; rewrite H in Hpast|by rewrite <- Hn].
    rewrite Hr, Hu. simpl.
    destruct (state_ m); try done; simpl in Hd; unfold idle_upload in Hd;
      try (destruct_and? Hd; by rewrite H1); exfalso; revert Hin; rewrite Hr; clear; set_solver.
Qed.

(** The device is reset at most once, and nothing is staged after it: once
    the machine has asked for the reset, no later step asks for an upload, the
    resumption of one, a mark, or another reset. *)
Lemma nothing_staged_after_reset (ts : list Target) (plan : UpdatePlan) (evs : list Event)
  (ss1 ss2 : list Step) (s : Step) (m : Machine) :
  ts <> [] -> run evs (new_machine ts plan) = (ss1 ++ s :: ss2, m) -> effect s = E_Reset ->
  Forall (fun s' => stages (effect s') = false) ss2.
Proof.
  intros Hts Hr He.
  set (P := fun (ss : list Step) (m : Machine) => forall ss1 s ss2, ss = ss1 ++ s :: ss2 ->
    effect s = E_Reset -> Forall (fun s' => stages (effect s') = false) ss2 /\
    past_reset (state_ m) (upload_in_progress (context_ m)) = true).
  enough (P (ss1 ++ s :: ss2) m) as HP by by eapply HP.
  revert Hr. generalize (ss1 ++ s :: ss2) as ss. revert m. clear ss1 s ss2 He. intros m ss Hr.
  revert evs ss m Hr. apply (run_ind P).
  { intros ss1 s ss2 H. by destruct ss1. }
  intros evs ss m ev s m' Hr IH Ha ss1 s1 ss2 Heq He.
  destruct (run_step _ _ _ _ _ _ _ _ Hts Hr Ha) as (Hm & Hm' & Hs & Hg).
  destruct ss2 as [|s2 ss2 _] using rev_ind.
  - apply app_inj_tail in Heq as [_ ->]. split; [constructor|].
    rewrite He in Hg. apply bool_decide_eq_true in Hg. simpl in Hg. by rewrite Hs, Hg.
  - rewrite app_comm_cons, app_assoc in Heq. apply app_inj_tail in Heq as [-> <-].
    destruct (IH _ _ _ eq_refl He) as [Hall Hpast].
    destruct (past_reset_step _ _ _ _ _ _ Hts Hm Ha Hpast) as [Hst Hpast'].
    split; [|done]. apply Forall_app_2; [done|by constructor].
Qed.

(** *** The confirm *)



(** ** The report *)

(** A step into a terminal state finishes, unless the machine was there. *)
Lemma terminal_table st o :
  o ∈ outcomes st -> is_terminal o.1 = true ->
  o.2 = E_Finish \/ (is_terminal st = true /\ o = (st, E_None)).
Proof.
  assert (forallb (fun o => negb (is_terminal o.1) || bool_decide (o.2 = E_Finish)
    || (is_terminal st && bool_decide (o = (st, E_None)))) (outcomes st) = true) as H
    by (destruct st; vm_compute; reflexivity).
  rewrite forallb_forall in H. intros Ho Ht. specialize (H o (proj1 (list_elem_of_In _ _) Ho)).
  rewrite Ht in H. cbn [negb orb] in H. apply orb_true_iff in H as [H|H].
  - left. by apply bool_decide_eq_true in H.
  - right. apply andb_true_iff in H as [? H]. by apply bool_decide_eq_true in H.
Qed.

(** The outcome of a run, as its report has to tell it. *)
Definition honest (plan : UpdatePlan) (m : Machine) : Prop :=
  let c := context_ m in
  let r := report c in
  rp_final_state r = state_ m /\
  match state_ m with
  | S_Completed =>
      rp_cause r = None /\ rp_refusal r = None /\ rp_revert_pending r = false /\
      (upload_only plan = false -> swap_scheduled c = false /\ all_committed c)
  | S_Failed => rp_cause r <> None /\ rp_revert_pending r = swap_scheduled c
  | S_Cancelled =>
      rp_cause r = None /\ rp_refusal r = None /\ rp_revert_pending r = swap_scheduled c
  | _ => True
  end.

Lemma final_state_told ts plan evs ss m :
  run evs (new_machine ts plan) = (ss, m) -> is_terminal (state_ m) = true ->
  rp_final_state (report (context_ m)) = state_ m.
Proof.
  revert evs ss m. apply (run_ind (fun _ m => is_terminal (state_ m) = true ->
    rp_final_state (report (context_ m)) = state_ m)); [done|].
  intros evs ss m ev s m' Hr IH Ha Ht.
  pose proof (apply_spec _ _ _ _ Ha) as (_ & Hs & Hn & He & Hst & _).
  rewrite Hs in Ht. destruct (terminal_table (state_ m) (next s, effect s)) as [Hf|[Htm Ho]].
  { rewrite Hn, He. apply guarded_ends. }
  { done. }
  - simpl in Hf. revert Ha. unfold apply. destruct (guarded_step _ _ _ _) as [s0 c0]; simpl in *.
    rewrite He in Hf. unfold parameterise. rewrite Hf.
    intros [= <- <-]. simpl. unfold keep_time. rewrite Hf. by case_bool_decide.
  - pose proof (run_summarised _ _ _ _ _ Hr Htm) as Hsum.
    apply apply_terminal in Ha as (_ & -> & ->); [|done|done]. by apply IH.
Qed.

(** C4. The report is honest. A completed update has no cause, no refusal and
    no revert to come, and unless it only uploaded, nothing is left scheduled
    and every [Device] image is committed, by the last table and by its report;
    a failed one says why; a failed or a cancelled one says a revert is to come
    exactly when a swap is still scheduled; and the state told is the state the
    machine is in. *)
Theorem report_is_honest (ts : list Target) (plan : UpdatePlan) (evs : list Event)
  (ss : list Step) (m : Machine) :
  ts <> [] -> run evs (new_machine ts plan) = (ss, m) -> is_terminal (state_ m) = true ->
  honest plan m.
Proof.
  intros Hts Hr Ht. pose proof (minv_run _ _ _ _ _ Hts Hr) as [_ Hd].
  split; [by eapply final_state_told|].
  destruct (state_ m); try done; simpl in Hd; destruct_and? Hd; [|done|done].
  destruct H. done.
Qed.

Lemma report_is_honest_witness : honest sample_plan (sample_run complete_events).2.
Proof.
  exact (report_is_honest [sample_target] sample_plan complete_events _ _ ltac:(done)
    (sample_run_eq _) ltac:(vm_compute; reflexivity)).
Defined.

(** Cancelling is possible in every state that is not terminal, ends the
    update at once, and says whether the device will revert: it will when the
    image is marked and waits for its reset or runs on trial, and will not once
    the confirms are in. *)
Lemma cancel_tells_of_revert (ts : list Target) (plan : UpdatePlan) (evs : list Event)
  (ev : Event) (ss : list Step) (m m' : Machine) (s : Step) :
  ts <> [] -> run evs (new_machine ts plan) = (ss, m) -> is_terminal (state_ m) = false ->
  kind ev = K_Cancel -> apply ev m = (s, m') ->
  state_ m' = S_Cancelled /\ effect s = E_Finish /\
  match state_ m with
  | S_Resetting | S_AwaitingDisconnect | S_AwaitingConfirmation | S_Confirming =>
      rp_revert_pending (report (context_ m')) = true
  | S_VerifyingConfirmed | S_AwaitingDeviceCommit =>
      rp_revert_pending (report (context_ m')) = false
  | _ => rp_revert_pending (report (context_ m')) = swap_scheduled (context_ m)
  end.
Proof.
  intros Hts Hr Ht Hk Ha. pose proof (minv_run _ _ _ _ _ Hts Hr) as [Hp Hd].
  apply apply_spec in Ha as (_ & Hs & Hn & He & _ & Hc & _).
  rewrite Hp, (guarded_decides plan ts) in Hn, He, Hc; try done;
    try (right; unfold complete; by rewrite Hk).
  unfold decide_step in Hn, He, Hc. rewrite Hk, Ht in Hn, He, Hc. simpl in Hn, He.
  rewrite Hs, Hn, He. split; [done|]. split; [done|].
  assert (rp_revert_pending (report (context_ m')) = swap_scheduled (context_ m)) as ->
    by (unfold core in Hc; simpl in Hc; congruence).
  destruct (state_ m); try done; simpl in Hd; destruct_and? Hd; done.
Qed.

(** ** What the boot inspection establishes *)

(** Every [Client] image runs its file by the last table, and is confirmed
    there unless the bootloader has no confirms. *)
Definition clients_settled (c : Context) : Prop :=
  Forall (fun i => t_commit (im_target i) = Client ->
    holds (active_of c (t_image (im_target i))) (im_target i) = true /\
    (without_set_state c = true \/ ptr_confirmed (active_of c (t_image (im_target i))) = true))
    (targets c).

(** [await_commit] and [await_device] change per-image reports only, as far as
    [clients_settled] can see. *)
Lemma clients_settled_frame c c' :
  targets c' = targets c -> device c' = device c ->
  rp_bootloader_mode (report c') = rp_bootloader_mode (report c) ->
  clients_settled c -> clients_settled c'.
Proof.
  intros Ht Hd Hm. unfold clients_settled, without_set_state, active_of. by rewrite Ht, Hd, Hm.
Qed.

Lemma await_commit_settled c : clients_settled c -> clients_settled (await_commit c).2.
Proof.
  unfold await_commit. destruct (await_commit_loop_spec (targets c) 0 false c) as (imgs & _ & _ & H).
  destruct (await_commit_loop _ _ _ _) as [[s|[]] c'];
    [rewrite H; by apply clients_settled_frame|..]; destruct H as [-> _];
    by apply clients_settled_frame.
Qed.

(** The images the inspection finds neither reverted nor unbooted, with none
    owed a confirm. *)
Lemma inspected_settled c imgs :
  existsb (is_reverted c) (targets c) = false -> existsb (is_not_booted c) (targets c) = false ->
  Forall (fun i => in_trial i = false) (inspected c <$> targets c) ->
  clients_settled (with_targets (inspected c <$> targets c) imgs c).
Proof.
  intros Hr Hn Ht. unfold clients_settled. simpl. apply Forall_fmap.
  rewrite Forall_fmap in Ht. rewrite Forall_forall in Ht |- *.
  intros i Hi Hc. specialize (Ht i Hi). simpl in *. unfold owes_confirm in Ht.
  assert (is_reverted c i = false /\ is_not_booted c i = false) as [Hri Hni].
  { rewrite <- !not_true_iff_false in *. rewrite existsb_exists in Hr, Hn.
    apply list_elem_of_In in Hi. split; intros ?; [apply Hr|apply Hn]; by exists i. }
  unfold is_reverted, is_not_booted in Hri, Hni.
  change (active_of (with_targets (inspected c <$> targets c) imgs c)) with (active_of c).
  rewrite Hc in *. cbn in Hri, Hni, Ht.
  destruct (holds (active_of c (t_image (im_target i))) (im_target i)); cbn in *;
    [|by destruct (anything_pending c (t_image (im_target i)))].
  split; [done|].
  change (without_set_state (with_targets (inspected c <$> targets c) imgs c)) with (without_set_state c).
  destruct (without_set_state c); [by left|]. right. by apply negb_false_iff in Ht.
Qed.

(** Whether some image is owed a confirm, as [inspect_boot] asks it. *)
Lemma trial_left c imgs :
  let c' := with_targets (inspected c <$> targets c) imgs c in
  (next_in_trial c' 0 <? length (targets c'))%nat = existsb (owes_confirm c) (targets c).
Proof.
  intros c'. apply eq_true_iff_eq. rewrite existsb_exists, Nat.ltb_lt. split.
  - intros H. apply next_in_trial_lt in H as (i & Hi & Ht). simpl in Hi.
    apply list_lookup_fmap_Some_1 in Hi as (i0 & -> & Hi0). exists i0.
    split; [|exact Ht]. by apply list_elem_of_In; eapply list_elem_of_lookup_2.
  - intros (i & Hi & Ho). destruct (decide (next_in_trial c' 0 < length (targets c'))%nat); [done|].
    assert (Forall (fun i => in_trial i = false) (targets c')) as Hf by (apply next_in_trial_ge; lia).
    simpl in Hf. rewrite Forall_fmap, Forall_forall in Hf. apply list_elem_of_In in Hi.
    specialize (Hf i Hi). simpl in Hf. congruence.
Qed.

(** What the whole inspection answers: the reverted images are told apart from
    the ones that have not booted, and each is marked in its report. *)
Definition inspection (plan : UpdatePlan) (c : Context) : Step * Context :=
  let after := set_swap_scheduled
    (existsb (is_not_booted c) (targets c) || existsb (owes_confirm c) (targets c))
    (with_targets (inspected c <$> targets c)
       (zip_with (roll_back c) (targets c) (rp_images (report c))) c) in
  if client_without_active c then fail_code c UpdateFailed "dfu: no active slot after reboot"
  else if existsb (is_reverted c) (targets c)
  then fail_code after UpdateFailed "dfu: device reverted to the old image"
  else if existsb (is_not_booted c) (targets c)
  then fail_code after UpdateFailed "dfu: device did not boot the new image"
  else await_device plan after.

Lemma inspect_boot_spec ts plan c : shape ts c -> inspect_boot plan c = inspection plan c.
Proof.
  intros Hs. unfold inspect_boot, inspection. destruct (client_without_active c); [done|].
  destruct (inspect_loop_whole ts c Hs) as (imgs & _ & -> & ->). by rewrite trial_left.
Qed.

(** After the reboot the machine tells the fates of the images apart. On
    the slot table read back it fails when a [Client] image has no running slot,
    when one reverted (it does not run its file and nothing is queued for it) and
    when one has not booted (something still is), marks exactly the reverted ones
    rolled back, owes a confirm to exactly the ones running their file
    unconfirmed, and otherwise waits for the [Device] images. *)
Lemma boot_inspection (ts : list Target) (plan : UpdatePlan) (evs : list Event) (ev : Event)
  (ss : list Step) (m : Machine) :
  ts <> [] -> run evs (new_machine ts plan) = (ss, m) -> state_ m = S_VerifyingBooted ->
  kind ev = K_StateRead -> ev_state ev <> None ->
  guarded_step (state_ m) ev plan (context_ m)
  = inspection plan (set_device (ev_state ev) (context_ m)).
Proof.
  intros Hts Hr Hst Hk He. pose proof (minv_run _ _ _ _ _ Hts Hr) as [_ Hd].
  rewrite (guarded_decides plan ts); [|done|done|].
  - unfold decide_step. rewrite Hk, Hst. simpl.
    apply (inspect_boot_spec ts). exact (dinv_shape _ _ _ _ Hd).
  - right. unfold complete. destruct (ev_state ev); [|done]. by rewrite Hk.
Qed.

Lemma await_device_settled plan c :
  swap_scheduled c = false -> clients_settled c -> clients_settled (await_device plan c).2.
Proof.
  intros Hs Hc. unfold await_device.
  destruct (await_device_loop_spec (targets c) 0 false c) as (imgs & _ & _ & H).
  destruct (await_device_loop _ _ _ _) as [[s|[]] c'];
    [rewrite H; by apply (clients_settled_frame c)|..]; destruct H as [-> _];
    [by apply (clients_settled_frame c)|].
  change (swap_scheduled (with_images imgs c)) with (swap_scheduled c). rewrite Hs. cbn [negb].
  apply await_commit_settled. by apply (clients_settled_frame c).
Qed.

(** With a swap still scheduled, the wait for the devices does not end the
    update. *)
Lemma await_device_scheduled plan c :
  swap_scheduled c = true -> next (await_device plan c).1 <> S_Completed /\
  next (await_device plan c).1 <> S_AwaitingDeviceCommit.
Proof.
  intros Hs. unfold await_device.
  destruct (await_device_loop_spec (targets c) 0 false c) as (imgs & _ & _ & H).
  destruct (await_device_loop _ _ _ _) as [[s|[]] c']; [by rewrite H|..]; destruct H as [-> _]; [done|].
  change (swap_scheduled (with_images imgs c)) with (swap_scheduled c). rewrite Hs. cbn [negb].
  unfold confirmation_fork. by destruct (_ || _).
Qed.

Lemma inspection_settled plan c :
  next (inspection plan c).1 = S_Completed \/ next (inspection plan c).1 = S_AwaitingDeviceCommit ->
  clients_settled (inspection plan c).2.
Proof.
  unfold inspection. destruct (client_without_active c); [naive_solver|].
  destruct (existsb (is_reverted c) (targets c)) eqn:Hr; [naive_solver|].
  destruct (existsb (is_not_booted c) (targets c)) eqn:Hn; [naive_solver|]. cbn [orb].
  set (c1 := set_swap_scheduled _ _). intros Hnext.
  destruct (existsb (owes_confirm c) (targets c)) eqn:Ho.
  { destruct (await_device_scheduled plan c1 eq_refl). naive_solver. }
  apply await_device_settled; [done|].
  eapply clients_settled_frame; [..|apply inspected_settled with (imgs := [])]; try done.
  apply Forall_fmap, Forall_forall. intros i Hi. simpl.
  apply not_true_iff_false. intros Hi'. rewrite <- not_true_iff_false, existsb_exists in Ho.
  apply Ho. exists i. split; [by apply list_elem_of_In|done].
Qed.

Lemma all_confirmed_settled c : all_confirmed c = true -> clients_settled c.
Proof.
  unfold all_confirmed, clients_settled. rewrite forallb_forall, Forall_forall.
  intros H i Hi Hc. specialize (H i (proj1 (list_elem_of_In _ _) Hi)). simpl in H.
  rewrite Hc in H. cbn in H. apply andb_true_iff in H as [? ?]. by split; [|right].
Qed.



(** ** Time *)

Lemma timers_summarise c : timers (summarise c) = timers c.
Proof. unfold summarise. by destruct (rp_images _). Qed.

Lemma timers_parameterise s c : timers (parameterise s c).2 = timers c.
Proof. unfold parameterise. by destruct (effect s). Qed.

Lemma force_reset_state st : (S_Resetting, E_ForceReset) ∈ outcomes st -> st = S_Resetting.
Proof. intros H. destruct st; try done; exfalso; revert H; set_solver. Qed.

(** A decision leaves the deadlines alone, but that a due poll of a wait is taken
    down. *)
Lemma decide_timers plan st ev c :
  timers (decide_step st ev plan c).2 = timers c \/
  (waiting_state st = true /\ timers (decide_step st ev plan c).2 = timers (set_apply_poll None c)).
Proof.
  destruct (decide (kind ev = K_Tick)) as [Hk|Hk].
  { unfold decide_step. rewrite Hk. apply tick_timers. }
  left. destruct (decide (effect (decide_step st ev plan c).1 = E_ForceReset)) as [He|He];
    [|by apply decide_keeps].
  pose proof (decide_ends plan st ev c) as Hin. pose proof (decide_goes plan st ev c) as Hg.
  unfold ends_in, outcome_of in *. rewrite He in Hin, Hg. apply bool_decide_eq_true in Hg.
  simpl in Hg. rewrite Hg in Hin. apply force_reset_state in Hin as ->. clear Hg He.
  unfold decide_step, reset_refused, fail_error, illegal, fail_code.
  by destruct (kind ev); repeat case_match.
Qed.

Lemma guarded_timers plan st ev c :
  timers (guarded_step st ev plan c).2 = timers c \/
  (waiting_state st = true /\ timers (guarded_step st ev plan c).2 = timers (set_apply_poll None c)).
Proof.
  unfold guarded_step. destruct (_ || _); [|by left]. pose proof (decide_timers plan st ev c) as H.
  destruct (decide_step st ev plan c) as [s c']. by destruct (_ && _).
Qed.

(** The deadlines after a turn, from the ones before. *)
Lemma apply_timers ev m s m' :
  apply ev m = (s, m') ->
  exists c, timers (context_ m') = timers (keep_time s (now ev) (plan_ m) c) /\
    (timers c = timers (context_ m) \/
     (waiting_state (state_ m) = true /\ timers c = timers (set_apply_poll None (context_ m)))).
Proof.
  unfold apply. pose proof (guarded_timers (plan_ m) (state_ m) ev (context_ m)) as Hg.
  destruct (guarded_step _ _ _ _) as [s0 c0]. pose proof (timers_parameterise s0 (summarise c0)) as Hp.
  destruct (parameterise s0 (summarise c0)) as [s1 c1]. intros [= <- <-]. exists c1.
  split; [done|]. simpl in *. by rewrite Hp, timers_summarise.
Qed.

(** Which deadlines are armed in which state. *)
Definition tinv (m : Machine) : Prop :=
  (is_Some (grace_deadline (context_ m)) <-> state_ m = S_AwaitingDisconnect) /\
  (waiting_state (state_ m) = true -> apply_phase (context_ m) = Some (state_ m)) /\
  (is_Some (apply_phase (context_ m)) -> is_Some (apply_deadline (context_ m))).

(** A step into one of the timed states arms its deadline, or the machine was
    there. *)
Lemma timed_table st o :
  o ∈ outcomes st ->
  (o.1 = S_AwaitingDisconnect -> o.2 = E_AwaitDisconnect \/ (o.2 = E_None /\ st = o.1)) /\
  (waiting_state o.1 = true -> o.2 = E_AwaitApply \/ ((o.2 = E_None \/ o.2 = E_ReadState) /\ st = o.1)).
Proof.
  assert (forallb (fun o =>
    (negb (bool_decide (o.1 = S_AwaitingDisconnect)) || bool_decide (o.2 = E_AwaitDisconnect)
     || (bool_decide (o.2 = E_None) && bool_decide (st = o.1))) &&
    (negb (waiting_state o.1) || bool_decide (o.2 = E_AwaitApply)
     || ((bool_decide (o.2 = E_None) || bool_decide (o.2 = E_ReadState)) && bool_decide (st = o.1))))
    (outcomes st) = true) as H by (destruct st; vm_compute; reflexivity).
  rewrite forallb_forall in H. intros Ho. specialize (H o (proj1 (list_elem_of_In _ _) Ho)).
  apply andb_true_iff in H as [H1 H2]. split.
  - intros E. rewrite E in H1. cbn in H1. repeat case_bool_decide; naive_solver.
  - intros E. rewrite E in H2. cbn in H2. repeat case_bool_decide; naive_solver.
Qed.

(** What [keep_time] makes of each deadline. *)
Lemma keep_time_grace s t plan c :
  grace_deadline (keep_time s t plan c) =
    if bool_decide (effect s = E_AwaitDisconnect) then Some (t + disconnect_grace plan)
    else if bool_decide (next s = S_AwaitingDisconnect) then grace_deadline c else None.
Proof.
  unfold keep_time. destruct (effect s); cbn; destruct (decide (next s = S_AwaitingDisconnect));
    rewrite ?(bool_decide_eq_true_2 (next s = _)), ?(bool_decide_eq_false_2 (next s = _)) by done;
    rewrite ?(bool_decide_eq_true_2 (next s <> _)), ?(bool_decide_eq_false_2 (next s <> _)) by tauto;
    cbn; try done; by case_bool_decide.
Qed.

Lemma keep_time_phase s t plan c :
  apply_phase (keep_time s t plan c) =
    match effect s with
    | E_AwaitApply => Some (next s)
    | E_Finish => None
    | _ => apply_phase c
    end.
Proof.
  unfold keep_time. destruct (bool_decide (next s <> S_AwaitingDisconnect)), (effect s); try done;
    cbn; case_bool_decide as E; cbn; try done;
    destruct (decide (apply_phase c = Some (next s))); tauto.
Qed.

Lemma keep_time_deadline s t plan c :
  apply_deadline (keep_time s t plan c) =
    match effect s with
    | E_AwaitApply =>
        if bool_decide (apply_phase c = Some (next s)) then apply_deadline c
        else Some (t + apply_timeout plan)
    | E_Finish => None
    | _ => apply_deadline c
    end.
Proof.
  unfold keep_time. destruct (bool_decide (next s <> S_AwaitingDisconnect)), (effect s); try done;
    cbn; repeat case_bool_decide; try done; tauto.
Qed.

Lemma tinv_apply ev m s m' : tinv m -> apply ev m = (s, m') -> tinv m'.
Proof.
  intros (Hg & Hw & Hd) Ha. pose proof (apply_timers _ _ _ _ Ha) as (c & Ht & Hc).
  apply apply_spec in Ha as (_ & Hs & Hn & He & _).
  assert ((next s, effect s) ∈ outcomes (state_ m)) as Hin by (rewrite Hn, He; apply guarded_ends).
  destruct (timed_table _ _ Hin) as [Tg Tw]. apply outcomes_go in Hin. unfold goes_to in Hin.
  simpl in Tg, Tw, Hin. clear Hn He.
  assert (grace_deadline c = grace_deadline (context_ m) /\ apply_deadline c = apply_deadline (context_ m)
    /\ apply_phase c = apply_phase (context_ m)) as (Hcg & Hcd & Hcp).
  { unfold timers in Hc. destruct Hc as [Hc|[_ Hc]]; simpl in Hc; split_and!; congruence. }
  unfold timers in Ht. unfold tinv. rewrite Hs. injection Ht as -> _ -> ->.
  rewrite <- Hcg in Hg. rewrite <- Hcp in Hw, Hd. rewrite <- Hcd in Hd. clear - Hg Hw Hd Tg Tw Hin.
  rewrite keep_time_grace, keep_time_phase, keep_time_deadline. split_and!.
  - assert (effect s = E_AwaitDisconnect -> next s = S_AwaitingDisconnect) as Hto.
    { intros E. rewrite E in Hin. by apply bool_decide_eq_true in Hin. }
    clear Hin. case_bool_decide as E; [split; [auto|done]|].
    case_bool_decide as E'; [|split; [by intros []|done]].
    destruct (Tg E') as [?|[_ Hst]]; [done|]. split; [done|].
    intros _. apply Hg. by rewrite Hst.
  - intros Hws. destruct (Tw Hws) as [-> |[[-> | ->] Hst]]; [done|..]; rewrite <- Hst in *; auto.
  - destruct (effect s); try done; try (by intros []). clear Hin. case_bool_decide as E; [|done].
    intros _. apply Hd. by rewrite E.
Qed.

Lemma tinv_run ts plan evs ss m : run evs (new_machine ts plan) = (ss, m) -> tinv m.
Proof.
  revert evs ss m. apply (run_ind (fun _ m => tinv m)).
  - split_and!; [|done|by intros []]. by split; [intros []|].
  - intros ? ? ? ? ? ? _ Hm. by eapply tinv_apply.
Qed.


(** The sample update with the device in charge of committing. *)
Definition device_events : list Event :=
  boot_events ++ [table_event K_StateRead 11 [running_old; slot_of 1 new_hash true false false]].

Definition device_targets : list Target := [mkTarget 0 Device new_hash (mkVersion 2 0 0 0) None].

Definition device_run : list Step * Machine := run device_events (new_machine device_targets sample_plan).


Example device_wait_values :
  apply_deadline (context_ device_run.2) = Some 41 /\ next_deadline device_run.2 = Some 13.
Proof. vm_compute. done. Qed.

(** The wait for the link to drop is bounded too, and only it. The grace
    deadline is armed exactly while the machine waits for the disconnect, it is
    then what the driver is told to wake up for, and the first tick at or after
    it asks for the reconnect as if the link had dropped. *)
Lemma disconnect_wait_bounded (ts : list Target) (plan : UpdatePlan) (evs : list Event)
  (ss : list Step) (m : Machine) :
  ts <> [] -> run evs (new_machine ts plan) = (ss, m) ->
  (is_Some (grace_deadline (context_ m)) <-> state_ m = S_AwaitingDisconnect) /\
  (forall d, grace_deadline (context_ m) = Some d ->
     next_deadline m = Some d /\
     forall ev s m', apply ev m = (s, m') -> kind ev = K_Tick -> d <= now ev ->
       state_ m' = S_AwaitingReconnect /\ effect s = E_RequestReconnect).
Proof.
  intros Hts Hr. pose proof (minv_run _ _ _ _ _ Hts Hr) as [Hp Hinv].
  destruct (tinv_run _ _ _ _ _ Hr) as (Hg & _ & _). split; [done|]. intros d Hd.
  split; [unfold next_deadline; by rewrite Hd|]. intros ev s m' Ha Hk Hnow.
  assert (state_ m = S_AwaitingDisconnect) as Hst by (apply Hg; by rewrite Hd).
  apply apply_spec in Ha as (_ & -> & -> & -> & _).
  rewrite Hp, (guarded_decides plan ts); try done; try (right; unfold complete; by rewrite Hk).
  unfold decide_step, tick. rewrite Hk, Hst, Hd. cbn [due].
  rewrite (proj2 (Z.leb_le d (now ev)) Hnow). done.
Qed.

Example disconnect_wait_value : next_deadline (sample_run reset_events).2 = Some 13.
Proof. vm_compute. reflexivity. Qed.

(** ** Planning ends *)

Definition leaves_planning (r : Step * Context) : Prop := next r.1 <> S_Planning.

Lemma leaves_planning_ends table r :
  ends_in table r -> forallb (fun o => negb (bool_decide (o.1 = S_Planning))) table = true ->
  leaves_planning r.
Proof.
  intros Hin Hall Hn. rewrite forallb_forall in Hall.
  specialize (Hall _ (proj1 (list_elem_of_In _ _) Hin)). simpl in Hall. by rewrite Hn in Hall.
Qed.

Lemma staged_leaves plan c : leaves_planning (staged plan c).
Proof. by eapply leaves_planning_ends; [apply staged_ends|]. Qed.

(** Where the bootloader takes no marks, the update is of one image: nothing is
    left to plan after it. *)
Lemma mark_or_skip_leaves plan ts c :
  base plan ts c -> staging c -> leaves_planning (mark_or_skip plan c).
Proof.
  intros Hb [Hc Hp]. unfold mark_or_skip. destruct (without_set_state c) eqn:Hw; [|done].
  pose proof (b_mode _ _ _ Hb Hp) as Hm. unfold mode_refusal in Hm.
  unfold without_set_state in Hw. apply bool_decide_eq_true in Hw. rewrite Hw in Hm.
  destruct (Nat.ltb_spec 1 (length (targets c))) as [|Hl]; [done|].
  unfold next_target. cbn [targets current set_mark_retried set_current set_swap_scheduled].
  destruct (Nat.ltb_spec (S (current c)) (length (targets c))); [lia|]. apply staged_leaves.
Qed.

Lemma check_preconditions_leaves plan c s c' :
  check_preconditions plan c = (Some s, c') -> leaves_planning (s, c').
Proof.
  intros H. apply check_preconditions_ends in H. injection H as H _. intros Hn. simpl in *. congruence.
Qed.

Lemma upload_leaves plan c :
  leaves_planning (match check_preconditions plan c with
    | (Some refused, c) => (refused, c)
    | (None, c) => (step S_Uploading E_StartUpload, set_upload_in_progress true c)
    end).
Proof.
  destruct (check_preconditions plan c) as [[s|] c'] eqn:E; [|done].
  by eapply check_preconditions_leaves.
Qed.

Lemma plan_loop_leaves fuel plan ts c :
  base plan ts c -> leaves_planning (plan_loop fuel plan c).
Proof.
  revert c. induction fuel as [|fuel IH]; intros c Hb; cbn [plan_loop].
  { destruct (negb _); apply staged_leaves. }
  destruct (Nat.ltb_spec (current c) (length (targets c))) as [Hc|]; cbn [negb];
    [|apply staged_leaves].
  pose proof (choose_build_spec plan ts c Hb) as H.
  destruct (choose_build c) as [[s|] c1] eqn:E.
  { apply choose_build_ends in E. injection E as E _. intros Hn. simpl in *. congruence. }
  destruct H as (Hb1 & Hc1 & _ & Hl1). rewrite <- Hc1, <- Hl1 in Hc.
  assert (forall f, base plan ts (set_current (S (current c1)) (alter_image_report f (current c1) c1))) as Hadv.
  { intros f. apply base_set_current; [by apply base_alter_image_report|cbn; lia]. }
  pose proof (upload_leaves plan c1) as Hup.
  destruct (slot_holding _ _) as [[k s]|]; [|done].
  destruct (same_slot _ _); [by apply IH|].
  destruct (sl_pending s); [by apply IH, (base_set_swap _ _ _ _ (Hadv _))|].
  destruct (skip_if_already_present plan); [|done]. destruct (upload_only plan); [by apply IH|].
  clear Hup. set (c2 := alter_image_report _ _ _).
  assert (base plan ts c2) as Hb2 by by apply base_alter_image_report.
  pose proof (check_preconditions_spec plan ts c2 Hb2) as Hck.
  destruct (check_preconditions plan c2) as [[s'|] c3] eqn:E3; [by eapply check_preconditions_leaves|].
  destruct Hck as [Hb3 ->]. eapply mark_or_skip_leaves; [by apply base_alter_image_report|by split].
Qed.

(** Planning never loops: the [Continue] a planning machine asked for always
    takes it out of the planning state. *)
Lemma planning_progresses (ts : list Target) (plan : UpdatePlan) (evs : list Event)
  (ev : Event) (ss : list Step) (m m' : Machine) (s : Step) :
  ts <> [] -> run evs (new_machine ts plan) = (ss, m) -> state_ m = S_Planning ->
  kind ev = K_Continue -> apply ev m = (s, m') -> state_ m' <> S_Planning.
Proof.
  intros Hts Hr Hst Hk Ha. pose proof (minv_run _ _ _ _ _ Hts Hr) as [Hp Hinv].
  apply apply_spec in Ha as (_ & -> & -> & _).
  rewrite Hp, (guarded_decides plan ts); try done; try (right; unfold complete; by rewrite Hk).
  unfold decide_step. rewrite Hk, Hst. rewrite Hst in Hinv. destruct Hinv as [Hb _].
  change (leaves_planning (plan_from_state plan (context_ m))).
  unfold plan_from_state. destruct (_ && negb _); [|by eapply plan_loop_leaves].
  by eapply leaves_planning_ends; [apply inspect_boot_ends|].
Qed.
