(* ===== verification/UploadSession.v ===== *)
(** * The image upload session

    [src/groups/image/upload_session.hpp] and [.cpp]: which chunk to send next,
    given what the device answered. The functions are translated one for one over
    an explicit [UploadState]; unsigned arithmetic is written with its
    wrap-around. The CBOR encoder is third-party code, so the size of the probe
    encoding is a parameter of the chunk-size computation.

    The properties run the session the way the driver does: a request is recorded
    as sent, its answer folded in, and the request that follows recorded in
    turn. *)

From S2P Require Import Prelude Errors Header.

(** ** Limits *)

Definition kUploadChunkMax : Z := 512.
Definition kUploadChunkMin : Z := 32.
Definition kMaxChunkRetries : Z := 3.
Definition kMaxUploadRestarts : Z := 2.
Definition kMaxNoProgress : Z := 3.
Definition kDefaultSmpMessageBudget : Z := 256.

(** ** Data *)

(** [upload::UploadConfig]. *)
Record UploadConfig := mkUploadConfig {
  image_size : Z;
  chunk_size : Z;
  cfg_image : Z;
  cfg_sha : option bytes;
  cfg_upgrade_only : bool;
  max_chunk_retries : Z;
  max_restarts : Z;
  max_no_progress : Z
}.

(** [upload::Phase]. *)
Inductive Phase := Idle | Sending | Done | Failed | Suspended.

#[global] Instance Phase_eq_dec : EqDecision Phase.
Proof. solve_decision. Defined.

(** [upload::UploadState], and an update of each field. *)
Record UploadState := mkUploadState {
  confirmed_off : Z;
  in_flight_off : Z;
  in_flight_len : Z;
  in_flight_first_packet : bool;
  consecutive_no_progress : Z;
  restarts : Z;
  retries : Z;
  progressed : bool;
  first_packet_pending : bool;
  phase : Phase
}.

Definition set_confirmed_off (x : Z) (r : UploadState) : UploadState :=
  mkUploadState x (in_flight_off r) (in_flight_len r) (in_flight_first_packet r) (consecutive_no_progress r) (restarts r) (retries r) (progressed r) (first_packet_pending r) (phase r).

Definition set_in_flight_off (x : Z) (r : UploadState) : UploadState :=
  mkUploadState (confirmed_off r) x (in_flight_len r) (in_flight_first_packet r) (consecutive_no_progress r) (restarts r) (retries r) (progressed r) (first_packet_pending r) (phase r).

Definition set_in_flight_len (x : Z) (r : UploadState) : UploadState :=
  mkUploadState (confirmed_off r) (in_flight_off r) x (in_flight_first_packet r) (consecutive_no_progress r) (restarts r) (retries r) (progressed r) (first_packet_pending r) (phase r).

Definition set_in_flight_first_packet (x : bool) (r : UploadState) : UploadState :=
  mkUploadState (confirmed_off r) (in_flight_off r) (in_flight_len r) x (consecutive_no_progress r) (restarts r) (retries r) (progressed r) (first_packet_pending r) (phase r).

Definition set_consecutive_no_progress (x : Z) (r : UploadState) : UploadState :=
  mkUploadState (confirmed_off r) (in_flight_off r) (in_flight_len r) (in_flight_first_packet r) x (restarts r) (retries r) (progressed r) (first_packet_pending r) (phase r).

Definition set_restarts (x : Z) (r : UploadState) : UploadState :=
  mkUploadState (confirmed_off r) (in_flight_off r) (in_flight_len r) (in_flight_first_packet r) (consecutive_no_progress r) x (retries r) (progressed r) (first_packet_pending r) (phase r).

Definition set_retries (x : Z) (r : UploadState) : UploadState :=
  mkUploadState (confirmed_off r) (in_flight_off r) (in_flight_len r) (in_flight_first_packet r) (consecutive_no_progress r) (restarts r) x (progressed r) (first_packet_pending r) (phase r).

Definition set_progressed (x : bool) (r : UploadState) : UploadState :=
  mkUploadState (confirmed_off r) (in_flight_off r) (in_flight_len r) (in_flight_first_packet r) (consecutive_no_progress r) (restarts r) (retries r) x (first_packet_pending r) (phase r).

Definition set_first_packet_pending (x : bool) (r : UploadState) : UploadState :=
  mkUploadState (confirmed_off r) (in_flight_off r) (in_flight_len r) (in_flight_first_packet r) (consecutive_no_progress r) (restarts r) (retries r) (progressed r) x (phase r).

Definition set_phase (x : Phase) (r : UploadState) : UploadState :=
  mkUploadState (confirmed_off r) (in_flight_off r) (in_flight_len r) (in_flight_first_packet r) (consecutive_no_progress r) (restarts r) (retries r) (progressed r) (first_packet_pending r) x.

(** [UploadState{}]. *)
Definition initial_state : UploadState := mkUploadState 0 0 0 false 0 0 0 false true Idle.

(** [upload::UploadRequest]. *)
Record UploadRequest := mkRequest { off : Z; req_length : Z; first_packet : bool }.

(** [UploadRequest{}]. *)
Definition no_request : UploadRequest := mkRequest 0 0 false.

(** [upload::UploadResponse]. *)
Record UploadResponse := mkResponse {
  resp_off : option Z;
  resp_match : option bool;
  failure : option Error
}.

(** [upload::Action]. *)
Inductive Action := SendChunk | Complete | FailUpload | Suspend.

(** [upload::Step]. *)
Record Step := mkStep {
  action : Action;
  request : UploadRequest;
  error : Error;
  match_ : option bool;
  completed_on_first_packet : bool
}.

#[global] Instance Action_eq_dec : EqDecision Action.
Proof. solve_decision. Defined.

#[global] Instance UploadRequest_eq_dec : EqDecision UploadRequest.
Proof. solve_decision. Defined.

(** ** The decisions *)

(** [fail_with]. *)
Definition fail_with (st : UploadState) (e : Error) : Step * UploadState :=
  (mkStep FailUpload no_request e None false, set_phase Failed st).

(** [refuse]. *)
Definition refuse (why : string) : Step :=
  mkStep FailUpload no_request (Error_at InvalidState why) None false.

(** [send_from]. *)
Definition send_from (st : UploadState) (config : UploadConfig) : Step :=
  let first := first_packet_pending st in
  let o := if first then 0 else confirmed_off st in
  let remaining := wrap 64 (image_size config - o) in
  let len := if remaining <? chunk_size config then wrap 32 remaining else chunk_size config in
  mkStep SendChunk (mkRequest o len first) Error_none None false.

(** [is_transient]. *)
Definition is_transient (e : Error) : bool :=
  if bool_decide (code e = Timeout) then true
  else if bool_decide (code e <> ProtocolError) then false
  else bool_decide (smp_error e = Some SmpError_Busy)
       || bool_decide (smp_error e = Some SmpError_NoMemory).

(** [plan_next]. *)
Definition plan_next (st : UploadState) (config : UploadConfig) : Step :=
  if bool_decide (phase st = Failed) then refuse "upload: session already failed"
  else if bool_decide (phase st = Suspended) then refuse "upload: session suspended"
  else if image_size config <=? confirmed_off st then mkStep Complete no_request Error_none None false
  else send_from st config.

(** [resume]. *)
Definition resume (st : UploadState) (config : UploadConfig) : Step * UploadState :=
  if bool_decide (phase st <> Suspended) then (refuse "upload: no suspended session", st)
  else
    let st := set_first_packet_pending true st in
    let st := set_phase Idle st in
    let st := set_retries 0 st in
    let st := set_consecutive_no_progress 0 st in
    (plan_next st config, st).

(** [record_sent]. *)
Definition record_sent (st : UploadState) (r : UploadRequest) : UploadState :=
  set_phase Sending
    (set_in_flight_first_packet (first_packet r)
       (set_in_flight_len (req_length r) (set_in_flight_off (off r) st))).

(** [on_response], when there was no usable response. *)
Definition on_failure (st : UploadState) (e : Error) (config : UploadConfig) : Step * UploadState :=
  if is_transient e && (retries st <? max_chunk_retries config) then
    (mkStep SendChunk (mkRequest (in_flight_off st) (in_flight_len st) (in_flight_first_packet st))
       Error_none None false,
     set_retries (wrap 32 (retries st + 1)) st)
  else if bool_decide (code e = Disconnected) then
    (mkStep Suspend no_request e None false, set_phase Suspended st)
  else fail_with st e.

(** [on_response], when the device reports the whole image. *)
Definition on_complete (st : UploadState) (reported : Z) (m : option bool) : Step * UploadState :=
  if bool_decide (m = Some false) then
    fail_with st (Error_at ImageMismatch "upload: device hash does not match the file")
  else
    (mkStep Complete no_request Error_none m (in_flight_first_packet st && negb (progressed st)),
     set_phase Done (set_confirmed_off reported st)).

(** [on_response], when the device asks for offset zero. *)
Definition on_restart (st : UploadState) (config : UploadConfig) : Step * UploadState :=
  if max_restarts config <=? restarts st then
    fail_with st (Error_at UpdateFailed "upload: too many restarts")
  else
    let st := set_restarts (wrap 32 (restarts st + 1)) st in
    let st := set_confirmed_off 0 st in
    let st := set_first_packet_pending true st in
    let st := set_consecutive_no_progress 0 st in
    let st := set_retries 0 st in
    (send_from st config, st).

(** [on_response], when the offset is followed: the state with [reported]
    adopted. *)
Definition adopt (reported : Z) (st : UploadState) : UploadState :=
  set_retries 0
    (set_first_packet_pending false
       (set_progressed (progressed st || (0 <? reported)) (set_confirmed_off reported st))).

(** [on_response], for an offset strictly inside the image. *)
Definition on_offset (st : UploadState) (reported : Z) (config : UploadConfig) : Step * UploadState :=
  if in_flight_first_packet st then
    let st := set_consecutive_no_progress 0 (adopt reported st) in (send_from st config, st)
  else if confirmed_off st <? reported then
    let st := set_consecutive_no_progress 0 (set_progressed true (adopt reported st)) in
    (send_from st config, st)
  else
    let st := set_consecutive_no_progress (wrap 32 (consecutive_no_progress st + 1)) st in
    if max_no_progress config <? consecutive_no_progress st then
      fail_with st (Error_at UpdateFailed "upload: server stopped advancing")
    else let st := adopt reported st in (send_from st config, st).

(** [on_response]. *)
Definition on_response (st : UploadState) (r : UploadResponse) (config : UploadConfig)
  : Step * UploadState :=
  match failure r with
  | Some e => on_failure st e config
  | None =>
      match resp_off r with
      | None => fail_with st (Error_at MalformedMessage "upload: response has no offset")
      | Some reported =>
          if image_size config <? reported then
            fail_with st (Error_at MalformedMessage "upload: offset beyond the image")
          else if reported =? image_size config then on_complete st reported (resp_match r)
          else if reported =? 0 then on_restart st config
          else on_offset st reported config
      end
  end.

(** ** The session as the driver runs it

    [ImageUpload] sends the first request, feeds each answer to [on_response],
    and calls [resume] once the link is back; a request is recorded when it goes
    out. An input the phase does not allow (an answer with no request out, a
    reconnect of a session that is not suspended) does not occur and is
    skipped. *)

Inductive input := Answer (r : UploadResponse) | Reconnect.

Abbreviation trace := (list (option input * Step)).

(** A request going out. *)
Definition sent (r : Step * UploadState) : Step * UploadState :=
  (r.1, if bool_decide (action r.1 = SendChunk) then record_sent r.2 (request r.1) else r.2).

Definition turn (config : UploadConfig) (i : input) (st : UploadState)
  : option (Step * UploadState) :=
  match i, phase st with
  | Answer r, Sending => Some (sent (on_response st r config))
  | Reconnect, Suspended => Some (sent (resume st config))
  | _, _ => None
  end.

Definition begin (config : UploadConfig) : Step * UploadState :=
  sent (plan_next initial_state config, initial_state).

Definition extend (config : UploadConfig) (t : trace * UploadState) (i : input)
  : trace * UploadState :=
  match turn config i t.2 with
  | Some (s, st) => (t.1 ++ [(Some i, s)], st)
  | None => t
  end.

Definition session (config : UploadConfig) (inputs : list input) : trace * UploadState :=
  foldl (extend config) ([(None, (begin config).1)], (begin config).2) inputs.

Lemma session_snoc config inputs i :
  session config (inputs ++ [i]) = extend config (session config inputs) i.
Proof. unfold session. by rewrite foldl_snoc. Qed.

(** ** Invariant *)

(** What [UploadConfig] promises: a non-empty image and a workable chunk, at
    their widths. *)
Record config_ok (config : UploadConfig) : Prop := {
  co_size : 0 < image_size config < 2 ^ 64;
  co_chunk : 0 < chunk_size config < 2 ^ 32;
  co_retries : u32 (max_chunk_retries config);
  co_restarts : u32 (max_restarts config);
  co_no_progress : u32 (max_no_progress config)
}.

(** A request asks for bytes of the image, as many as fit in a chunk, and starts
    at zero when it is a first packet. *)
Definition request_ok (config : UploadConfig) (r : UploadRequest) : Prop :=
  0 <= off r < image_size config /\
  req_length r = Z.min (chunk_size config) (image_size config - off r) /\
  (first_packet r = true -> off r = 0).

(** The request in flight. *)
Definition in_flight (st : UploadState) : UploadRequest :=
  mkRequest (in_flight_off st) (in_flight_len st) (in_flight_first_packet st).

Definition live (st : UploadState) : Prop := phase st = Sending \/ phase st = Suspended.

Record sinv (config : UploadConfig) (st : UploadState) : Prop := {
  si_retries : 0 <= retries st <= max_chunk_retries config;
  si_restarts : 0 <= restarts st <= max_restarts config;
  si_no_progress : u32 (consecutive_no_progress st);
  si_phase : phase st <> Idle;
  si_live : live st ->
    0 <= confirmed_off st < image_size config /\
    consecutive_no_progress st <= max_no_progress config /\
    request_ok config (in_flight st) /\
    (phase st = Sending ->
       first_packet_pending st = in_flight_first_packet st /\
       in_flight_off st = if in_flight_first_packet st then 0 else confirmed_off st);
  si_progressed : progressed st = false -> live st -> confirmed_off st = 0
}.

(** The request [send_from] makes. *)
Lemma send_from_spec config st :
  config_ok config -> 0 <= confirmed_off st < image_size config ->
  let o := if first_packet_pending st then 0 else confirmed_off st in
  send_from st config =
    mkStep SendChunk
      (mkRequest o (Z.min (chunk_size config) (image_size config - o)) (first_packet_pending st))
      Error_none None false.
Proof.
  intros [Hs Hc _ _ _] Ho. unfold send_from. cbv zeta. f_equal. f_equal.
  set (o := if first_packet_pending st then 0 else confirmed_off st).
  assert (0 <= o < image_size config) by (subst o; destruct (first_packet_pending st); lia).
  rewrite (wrap_fits 64) by (unfold fits; lia).
  destruct (Z.ltb_spec (image_size config - o) (chunk_size config)); [|lia].
  rewrite (wrap_fits 32) by (unfold fits; lia). lia.
Qed.

Lemma send_from_ok config st :
  config_ok config -> 0 <= confirmed_off st < image_size config ->
  request_ok config (request (send_from st config)).
Proof.
  intros Hc Ho. rewrite send_from_spec by done. pose proof (co_size _ Hc).
  split; simpl; [destruct (first_packet_pending st); lia|]. split; [done|].
  by intros ->.
Qed.

(** A request just made from the state goes out. *)
Lemma sinv_sent config st :
  config_ok config -> 0 <= retries st <= max_chunk_retries config ->
  0 <= restarts st <= max_restarts config -> u32 (consecutive_no_progress st) ->
  consecutive_no_progress st <= max_no_progress config ->
  0 <= confirmed_off st < image_size config ->
  (progressed st = false -> confirmed_off st = 0) ->
  sinv config (sent (send_from st config, st)).2.
Proof.
  intros Hc Hr Hre Hn Hnp Ho Hp. pose proof (send_from_ok config st Hc Ho) as Hok.
  rewrite send_from_spec in * by done. unfold sent; simpl in *.
  split; simpl; try done. auto.
Qed.

Lemma sinv_begin config : config_ok config -> sinv config (begin config).2.
Proof.
  intros Hc. destruct (Hc) as [Hs ? Hr Hre Hn]. unfold begin, plan_next. cbn [phase initial_state].
  rewrite !bool_decide_eq_false_2 by done. cbn [confirmed_off initial_state].
  destruct (Z.leb_spec (image_size config) 0); [lia|]. unfold fits in *.
  apply sinv_sent; simpl; unfold fits; try lia; done.
Qed.

(** The session ends. *)
Lemma sinv_dead config st :
  0 <= retries st <= max_chunk_retries config -> 0 <= restarts st <= max_restarts config ->
  u32 (consecutive_no_progress st) -> phase st = Failed \/ phase st = Done -> sinv config st.
Proof.
  intros ? ? ? Hp.
  assert (~ live st) as Hn by (intros [E|E]; destruct Hp; congruence).
  split; try done; by destruct Hp as [-> | ->].
Qed.

Lemma sinv_terminal config st p :
  sinv config st -> p = Failed \/ p = Done -> sinv config (set_phase p st).
Proof. intros [? ? ? ? ? ?] Hp. by apply sinv_dead. Qed.

(** The session is suspended. *)
Lemma sinv_suspended config st : sinv config st -> phase st = Sending -> sinv config (set_phase Suspended st).
Proof.
  intros [? ? ? ? Hl Hp] Hph. destruct (Hl (or_introl Hph)) as (? & ? & ? & _).
  split; simpl; try done. intros Hf _. apply Hp; [done|by left].
Qed.

Lemma sinv_failure config st e :
  config_ok config -> sinv config st -> phase st = Sending ->
  sinv config (sent (on_failure st e config)).2.
Proof.
  intros Hc Hi Hph. unfold on_failure.
  destruct (is_transient e && (retries st <? max_chunk_retries config)) eqn:Ht.
  - bool_to_prop. pose proof (co_retries _ Hc) as Hm. unfold fits in Hm.
    destruct Hi as [Hr Hre Hn Hp Hl Hpr]. destruct (Hl (or_introl Hph)) as (Ho & Hnp & Hreq & Hfl).
    unfold sent; simpl. rewrite wrap_fits by (unfold fits; lia).
    split; simpl; try done; try lia; [intros _; split; [done|split; [done|split; [done|by intros _; apply Hfl]]]|].
    intros H' _. apply Hpr; [done|by left].
  - case_bool_decide; [by apply sinv_suspended|by apply sinv_terminal; [|left]].
Qed.

Lemma sinv_restart config st :
  config_ok config -> sinv config st -> sinv config (sent (on_restart st config)).2.
Proof.
  intros Hc Hi. unfold on_restart. pose proof (co_restarts _ Hc) as Hm. pose proof (co_size _ Hc).
  pose proof (si_restarts _ _ Hi). pose proof (co_retries _ Hc) as Hr. pose proof (co_no_progress _ Hc) as Hn.
  unfold fits in Hm, Hr, Hn.
  destruct (Z.leb_spec (max_restarts config) (restarts st)); [by apply sinv_terminal; [|left]|].
  apply sinv_sent; simpl; rewrite ?wrap_fits by (unfold fits; lia); unfold fits; try lia; done.
Qed.

Lemma sinv_adopt config st reported :
  config_ok config -> restarts st <= max_restarts config -> 0 <= restarts st ->
  u32 (consecutive_no_progress st) -> consecutive_no_progress st <= max_no_progress config ->
  0 < reported < image_size config ->
  sinv config (sent (send_from (adopt reported st) config, adopt reported st)).2.
Proof.
  intros Hc ? ? ? ? Hr. pose proof (co_retries _ Hc) as Hre. unfold fits in Hre.
  apply sinv_sent; simpl; try done; lia.
Qed.

Lemma sinv_offset config st reported :
  config_ok config -> sinv config st -> phase st = Sending -> 0 < reported < image_size config ->
  sinv config (sent (on_offset st reported config)).2.
Proof.
  intros Hc Hi Hph Hr. unfold on_offset. pose proof (co_no_progress _ Hc) as Hm. unfold fits in Hm.
  pose proof (co_retries _ Hc) as Hre. unfold fits in Hre.
  destruct (si_restarts _ _ Hi) as [? ?]. pose proof (si_no_progress _ _ Hi) as Hn.
  destruct (si_live _ _ Hi (or_introl Hph)) as (Ho & Hnp & _).
  destruct (in_flight_first_packet st); [|destruct (Z.ltb_spec (confirmed_off st) reported)].
  - apply sinv_sent; simpl; try done; unfold fits; lia.
  - apply sinv_sent; simpl; try done; unfold fits; lia.
  - destruct (Z.ltb_spec (max_no_progress config)
      (consecutive_no_progress (set_consecutive_no_progress (wrap 32 (consecutive_no_progress st + 1)) st))) as [|Hle].
    + apply sinv_dead; simpl; [by destruct Hi|by destruct Hi|by apply fits_wrap|by left].
    + apply sinv_adopt; simpl; try done. by apply fits_wrap.
Qed.

Lemma sinv_answer config st r :
  config_ok config -> sinv config st -> phase st = Sending ->
  (forall o, resp_off r = Some o -> 0 <= o) ->
  sinv config (sent (on_response st r config)).2.
Proof.
  intros Hc Hi Hph Hpos. assert (forall e, sinv config (sent (fail_with st e)).2) as Hfail
    by (intros; by apply sinv_terminal; [|left]).
  unfold on_response. destruct (failure r) as [e|]; [by apply sinv_failure|].
  destruct (resp_off r) as [o|]; [|apply Hfail]. specialize (Hpos o eq_refl).
  destruct (Z.ltb_spec (image_size config) o); [apply Hfail|].
  destruct (Z.eqb_spec o (image_size config)).
  - unfold on_complete. case_bool_decide; [apply Hfail|].
    apply sinv_dead; simpl; try by destruct Hi. by right.
  - destruct (Z.eqb_spec o 0); [by apply sinv_restart|]. apply sinv_offset; try done. lia.
Qed.

Lemma sinv_resume config st :
  config_ok config -> sinv config st -> phase st = Suspended -> sinv config (sent (resume st config)).2.
Proof.
  intros Hc Hi Hph. unfold resume. rewrite bool_decide_eq_false_2 by tauto.
  destruct (si_live _ _ Hi (or_intror Hph)) as (Ho & Hnp & _).
  pose proof (co_no_progress _ Hc) as Hm. unfold fits in Hm. pose proof (co_retries _ Hc) as Hre.
  unfold fits in Hre. unfold plan_next; simpl.
  destruct (Z.leb_spec (image_size config) (confirmed_off st)); [lia|].
  apply sinv_sent; simpl; try (by destruct Hi); unfold fits; try lia.
  intros Hp. apply (si_progressed _ _ Hi); [done|by right].
Qed.

(** ** Sessions *)

(** Offsets arrive as 64-bit unsigned integers. *)
Definition input_ok (i : input) : Prop :=
  match i with
  | Answer r => forall o, resp_off r = Some o -> u64 o
  | Reconnect => True
  end.

(** The offset an answer reports, when it is usable. *)
Definition reported_by (p : option input * Step) : option Z :=
  match p.1 with
  | Some (Answer r) => match failure r with None => resp_off r | Some _ => None end
  | _ => None
  end.

(** The offset last reported, zero before any. *)
Definition last_offset (t : trace) : Z := default 0 (last (omap reported_by t)).

Definition none_moved (t : trace) : Prop :=
  Forall (fun p => forall o, reported_by p = Some o -> o = 0) t.

(** What is known of a session and its history. *)
Record history (config : UploadConfig) (t : trace) (st : UploadState) : Prop := {
  hi_inv : sinv config st;
  hi_requests : Forall (fun p => action p.2 = SendChunk -> request_ok config (request p.2)) t;
  hi_offset : live st -> confirmed_off st = last_offset t;
  hi_moved : live st -> progressed st = false -> none_moved t;
  hi_present : forall t1 p t2, t = t1 ++ p :: t2 -> completed_on_first_packet p.2 = true ->
    none_moved t1
}.

Lemma last_offset_snoc t p :
  last_offset (t ++ [p]) = default (last_offset t) (reported_by p).
Proof.
  unfold last_offset. rewrite omap_app. simpl.
  destruct (reported_by p) as [o|]; [by rewrite last_snoc|by rewrite app_nil_r].
Qed.

(** What an answer does to a running session. *)
Lemma on_response_spec config st r :
  config_ok config -> sinv config st -> phase st = Sending ->
  (forall o, resp_off r = Some o -> u64 o) ->
  let '(s, st') := sent (on_response st r config) in
  (action s = SendChunk -> request_ok config (request s)) /\
  (live st' -> confirmed_off st' = default (confirmed_off st) (reported_by (Some (Answer r), s))) /\
  (live st' -> progressed st' = false -> progressed st = false /\
     forall o, reported_by (Some (Answer r), s) = Some o -> o = 0) /\
  (completed_on_first_packet s = true -> progressed st = false).
Proof.
  intros Hc Hi Hph Hu.
  assert (sinv config (sent (on_response st r config)).2) as Hi'
    by (apply sinv_answer; try done; intros o Ho; by destruct (Hu o Ho)).
  destruct (sent (on_response st r config)) as [s st'] eqn:E. simpl in Hi'.
  split.
  { intros Ha. unfold sent in E. injection E as Es Est. rewrite Es, Ha in Est. simpl in Est.
    assert (phase st' = Sending) as Hp' by by rewrite <- Est.
    destruct (si_live _ _ Hi' (or_introl Hp')) as (_ & _ & Hreq & _).
    rewrite <- Est in Hreq. unfold in_flight in Hreq. simpl in Hreq. by destruct (request s). }
  unfold reported_by; cbn [fst].
  assert (forall st, ~ live (set_phase Failed st)) as HF by by intros ? [|].
  assert (forall st, ~ live (set_phase Done st)) as HD by by intros ? [|].
  unfold sent, on_response in E. destruct (failure r) as [e|].
  { unfold on_failure, fail_with in E. simpl.
    destruct (_ && _); [|case_bool_decide]; injection E as <- <-; simpl;
      split_and!; try done; intros Hl; exfalso; by eapply HF. }
  assert (forall s st0, completed_on_first_packet s = false -> ~ live st0 ->
    (live st0 -> confirmed_off st0 = default (confirmed_off st) (resp_off r)) /\
    (live st0 -> progressed st0 = false -> progressed st = false /\
       forall o, resp_off r = Some o -> o = 0) /\
    (completed_on_first_packet s = true -> progressed st = false)) as Hdead
    by (intros ? ? -> ?; split_and!; done).
  destruct (resp_off r) as [o|]; [|injection E as <- <-; by apply Hdead].
  destruct (Hu o eq_refl) as [Hpos _]. unfold on_complete, on_restart, on_offset, fail_with in E.
  destruct (Z.ltb_spec (image_size config) o); [injection E as <- <-; by apply Hdead|].
  destruct (Z.eqb_spec o (image_size config)).
  { case_bool_decide; injection E as <- <-; [by apply Hdead|]. simpl.
    split_and!; [by intros ?%HD|by intros ?%HD|]. intros Hb. by bool_to_prop. }
  destruct (Z.eqb_spec o 0) as [->|].
  { destruct (_ <=? _); injection E as <- <-; [by apply Hdead|]. simpl.
    split_and!; [done| |done]. intros _ ?. split; [done|]. by intros ? [= <-]. }
  assert ((0 <? o) = true) as Ho by (apply Z.ltb_lt; lia).
  destruct (in_flight_first_packet st); [|destruct (_ <? o); [|destruct (_ <? _)]];
    injection E as <- <-; try (by apply Hdead); unfold adopt; simpl;
    rewrite ?Ho, ?orb_true_r; by split_and!.
Qed.

(** A session resumed: what it keeps, and the first packet it sends. *)
Lemma resume_spec config st :
  config_ok config -> sinv config st -> phase st = Suspended ->
  resume st config =
    (mkStep SendChunk (mkRequest 0 (Z.min (chunk_size config) (image_size config)) true)
       Error_none None false,
     mkUploadState (confirmed_off st) (in_flight_off st) (in_flight_len st)
       (in_flight_first_packet st) 0 (restarts st) 0 (progressed st) true Idle).
Proof.
  intros Hc Hi Hph. destruct (si_live _ _ Hi (or_intror Hph)) as (Ho & _).
  unfold resume. rewrite bool_decide_eq_false_2 by tauto. cbv zeta.
  set (st' := set_consecutive_no_progress _ _). unfold plan_next.
  destruct (Z.leb_spec (image_size config) (confirmed_off st')) as [Hle|]; [cbn in Hle; lia|].
  rewrite send_from_spec by done. cbn. by rewrite Z.sub_0_r.
Qed.

Lemma history_extend config t st i :
  config_ok config -> input_ok i -> history config t st ->
  history config (extend config (t, st) i).1 (extend config (t, st) i).2.
Proof.
  intros Hc Hin [Hi Hr Ho Hm Hp]. unfold extend, turn; cbn [fst snd].
  assert (forall p, (completed_on_first_packet p.2 = true -> none_moved t) ->
    forall t1 q t2, t ++ [p] = t1 ++ q :: t2 -> completed_on_first_packet q.2 = true -> none_moved t1)
    as Hpres.
  { intros p Hlast t1 q t2 Heq Hq. destruct t2 as [|q' t2 _] using rev_ind.
    - apply app_inj_tail in Heq as [<- <-]. auto.
    - rewrite app_comm_cons, app_assoc in Heq. apply app_inj_tail in Heq as [-> _]. by eapply Hp. }
  destruct i as [r|]; destruct (phase st) eqn:Hph; try (by split).
  - pose proof (on_response_spec config st r Hc Hi Hph Hin) as H.
    assert (sinv config (sent (on_response st r config)).2) as Hi'
      by (apply sinv_answer; try done; intros o Hro; by destruct (Hin o Hro)).
    destruct (sent (on_response st r config)) as [s st']. destruct H as (Ha & Hof & Hmv & Hcp).
    assert (live st) as Hl by by left. split; simpl; try done.
    + by apply Forall_app_2; [|constructor].
    + intros Hl'. rewrite last_offset_snoc, <- Ho by done. by apply Hof.
    + intros Hl' Hpr. destruct (Hmv Hl' Hpr) as [Hpr' Hz].
      apply Forall_app_2; [by apply Hm|by constructor].
    + apply Hpres. simpl. intros Hb. apply Hm; auto.
  - pose proof (sinv_resume config st Hc Hi Hph) as Hi'.
    rewrite (resume_spec config st Hc Hi Hph) in *. unfold sent in *; simpl in *.
    assert (live st) as Hl by by right. split; simpl; try done.
    + apply Forall_app_2; [done|constructor; [|done]]. intros _. simpl.
      pose proof (co_size _ Hc). split; simpl; [lia|]. split; [f_equal; lia|done].
    + intros _. rewrite last_offset_snoc. simpl. by apply Ho.
    + intros _ Hpr. apply Forall_app_2; [by apply Hm|by constructor].
    + by apply Hpres.
Qed.

Lemma history_session config inputs :
  config_ok config -> Forall input_ok inputs ->
  history config (session config inputs).1 (session config inputs).2.
Proof.
  intros Hc. induction inputs as [|i inputs IH] using rev_ind.
  - intros _. pose proof (sinv_begin config Hc) as Hi. pose proof (co_size _ Hc) as Hs.
    assert (begin config = sent (send_from initial_state config, initial_state)) as Hb.
    { unfold begin, plan_next; cbn. destruct (Z.leb_spec (image_size config) 0); [lia|done]. }
    unfold session; cbn [foldl]. split; try done.
    + constructor; [|done]. intros _. rewrite Hb. exact (send_from_ok config initial_state Hc ltac:(cbn; lia)).
    + intros _. rewrite Hb. done.
    + intros _ _. by constructor.
    + intros t1 q t2 Heq _. destruct t1 as [|? t1]; [constructor|]. by destruct t1.
  - intros [Hall Hi]%Forall_app. inversion Hi; subst. rewrite session_snoc.
    specialize (IH Hall). destruct (session config inputs) as [t st]. by apply history_extend.
Qed.

(** ** Sample uploads *)

Definition sample_config : UploadConfig := mkUploadConfig 1000 100 0 None false 3 2 3.

Definition answer_at (o : Z) : input := Answer (mkResponse (Some o) None None).

Definition lost_link : input := Answer (mkResponse None None (Some (Error_at Disconnected "link"))).

Definition sample_inputs : list input :=
  [answer_at 100; answer_at 200; lost_link; Reconnect; answer_at 150; answer_at 250].

Lemma sample_config_ok : config_ok sample_config.
Proof. split; unfold fits; simpl; lia. Qed.

Lemma sample_inputs_ok : Forall input_ok sample_inputs.
Proof.
  repeat (apply Forall_cons; split; [try exact I; intros o [= <-]; unfold fits; lia|]).
  constructor.
Qed.

Example sample_requests :
  (fun p => off (request p.2)) <$> (session sample_config sample_inputs).1
  = [0; 100; 200; 0; 0; 150; 250].
Proof. vm_compute. reflexivity. Qed.

(** ** Properties *)

(** Every request of an upload, whatever the device answers and however
    often the link drops, asks for bytes inside the image: a full chunk, or what
    is left of the image, and a first packet always at offset zero. *)
Lemma requests_within_image (config : UploadConfig) (inputs : list input) :
  config_ok config -> Forall input_ok inputs ->
  Forall (fun p => action p.2 = SendChunk -> request_ok config (request p.2))
    (session config inputs).1.
Proof. intros Hc Hi. exact (hi_requests _ _ _ (history_session config inputs Hc Hi)). Qed.

(** The upload follows the server. While the session is alive its progress
    is the offset the server last reported, neither more nor less, and the
    request in flight starts there, or at zero when it is a first packet. *)
Lemma follows_server (config : UploadConfig) (inputs : list input) :
  config_ok config -> Forall input_ok inputs ->
  let t := (session config inputs).1 in
  let st := (session config inputs).2 in
  live st ->
  confirmed_off st = last_offset t /\ 0 <= confirmed_off st < image_size config /\
  (phase st = Sending ->
     in_flight_off st = if in_flight_first_packet st then 0 else last_offset t).
Proof.
  intros Hc Hi. destruct (history_session config inputs Hc Hi) as [Hinv _ Ho _ _].
  intros t st Hl. fold t st in Hinv, Ho.
  destruct (si_live _ _ Hinv Hl) as (Hr & _ & _ & Hs). specialize (Ho Hl).
  split; [done|]. split; [done|]. intros Hp. destruct (Hs Hp) as [_ ->].
  by destruct (in_flight_first_packet st).
Qed.

(** C12. "Already present" is never claimed for an image this session sent: when
    an upload completes with that verdict, no earlier answer of the session, on
    this link or before a reconnect, reported a byte stored. *)
Theorem already_present_honest (config : UploadConfig) (inputs : list input)
  (t1 t2 : trace) (i : option input) (s : Step) :
  config_ok config -> Forall input_ok inputs ->
  (session config inputs).1 = t1 ++ (i, s) :: t2 -> completed_on_first_packet s = true ->
  none_moved t1.
Proof.
  intros Hc Hi Ht Hs. destruct (history_session config inputs Hc Hi) as [_ _ _ _ Hp]. by eapply Hp.
Qed.

Lemma already_present_honest_witness :
  none_moved [(None, (begin sample_config).1)].
Proof.
  exact (already_present_honest sample_config [answer_at 1000] [(None, (begin sample_config).1)] []
    (Some (answer_at 1000)) (mkStep Complete no_request Error_none None true) sample_config_ok
    ltac:(apply Forall_singleton; intros o [= <-]; unfold fits; lia)
    ltac:(vm_compute; reflexivity) eq_refl).
Defined.

(** A suspended upload resumes by asking: [resume] sends a first packet at
    offset zero with fresh per-attempt budgets, keeps the restart budget, the
    progress and the record that bytes were stored, and never takes the session
    for complete. *)
Lemma resume_asks_again (config : UploadConfig) (inputs : list input) :
  config_ok config -> Forall input_ok inputs ->
  let st := (session config inputs).2 in
  phase st = Suspended ->
  let '(s, st') := resume st config in
  action s = SendChunk /\
  request s = mkRequest 0 (Z.min (chunk_size config) (image_size config)) true /\
  retries st' = 0 /\ consecutive_no_progress st' = 0 /\ restarts st' = restarts st /\
  progressed st' = progressed st /\ confirmed_off st' = confirmed_off st.
Proof.
  intros Hc Hi st Hp. destruct (history_session config inputs Hc Hi) as [Hinv _ _ _ _].
  by rewrite resume_spec.
Qed.

(** ** Termination *)

(** The most answers an attempt can take from a server that does not rewind. *)
Definition answers_bound (config : UploadConfig) : Z :=
  2 * (max_restarts config + 1) * (image_size config + 1) * (max_no_progress config + 1)
  * (max_chunk_retries config + 1).

(** What every answered request uses up, the most significant first: restarts,
    the first packet, bytes to go, repeats, retransmissions. *)
Definition budget_left (config : UploadConfig) (st : UploadState) : Z :=
  ((((max_restarts config - restarts st) * 2 + (if in_flight_first_packet st then 1 else 0))
    * (image_size config + 1) + (image_size config - confirmed_off st))
   * (max_no_progress config + 1) + (max_no_progress config - consecutive_no_progress st))
  * (max_chunk_retries config + 1) + (max_chunk_retries config - retries st).

Lemma radix_lt base a a' b b' :
  0 <= b < base -> 0 <= b' < base -> a' < a -> a' * base + b' < a * base + b.
Proof. nia. Qed.

Lemma budget_left_range config st :
  config_ok config -> sinv config st -> phase st = Sending ->
  0 <= budget_left config st < answers_bound config.
Proof.
  intros Hc Hi Hp. destruct Hi as [Hr Hre Hn _ Hl _].
  destruct (Hl (or_introl Hp)) as (Ho & Hnp & _). unfold fits in Hn.
  pose proof (co_size _ Hc). unfold budget_left, answers_bound.
  set (f := if in_flight_first_packet st then 1 else 0).
  assert (0 <= f <= 1) by (subst f; destruct (in_flight_first_packet st); lia).
  set (a := (max_restarts config - restarts st) * 2 + f).
  assert (0 <= a < 2 * (max_restarts config + 1)) by lia.
  set (b := a * (image_size config + 1) + (image_size config - confirmed_off st)).
  assert (0 <= b < 2 * (max_restarts config + 1) * (image_size config + 1)) by nia.
  set (c := b * (max_no_progress config + 1) + (max_no_progress config - consecutive_no_progress st)).
  assert (0 <= c < 2 * (max_restarts config + 1) * (image_size config + 1) * (max_no_progress config + 1)) by nia.
  nia.
Qed.

Lemma budget_decreases config st r :
  config_ok config -> max_no_progress config < 2 ^ 32 - 1 -> sinv config st -> phase st = Sending ->
  (forall o, resp_off r = Some o -> u64 o) ->
  (forall o, failure r = None -> resp_off r = Some o -> o = 0 \/ confirmed_off st <= o) ->
  let st' := (sent (on_response st r config)).2 in
  phase st' = Sending -> budget_left config st' < budget_left config st.
Proof.
  intros Hc HN Hi Hp Hu Hrw st' Hp'.
  assert (sinv config st') as Hi'
    by (apply sinv_answer; try done; intros o Ho; by destruct (Hu o Ho)).
  destruct (Hi) as [Hr Hre Hn _ Hl _]. destruct (Hl (or_introl Hp)) as (Ho & Hnp & _).
  destruct (Hi') as [Hr' Hre' Hn' _ Hl' _]. destruct (Hl' (or_introl Hp')) as (Ho' & Hnp' & _).
  unfold fits in Hn, Hn'. pose proof (co_restarts _ Hc) as HR. pose proof (co_retries _ Hc) as HK.
  unfold fits in HR, HK. clear Hl Hl'.
  unfold budget_left.
  revert Hr' Hre' Hn' Ho' Hnp' Hp'. subst st'. unfold on_response.
  destruct (failure r) as [e|].
  { unfold on_failure. destruct (_ && _) eqn:E; [|case_bool_decide; done]. bool_to_prop.
    unfold sent; simpl. intros. rewrite wrap_fits by (unfold fits; lia). lia. }
  destruct (resp_off r) as [o|]; [|done]. specialize (Hrw o eq_refl eq_refl).
  destruct (Hu o eq_refl) as [Hpos _].
  destruct (Z.ltb_spec (image_size config) o); [done|].
  destruct (Z.eqb_spec o (image_size config)); [unfold on_complete; by case_bool_decide|].
  destruct (Z.eqb_spec o 0).
  { unfold on_restart. destruct (Z.leb_spec (max_restarts config) (restarts st)); [done|].
    unfold sent; simpl. intros. rewrite (wrap_fits 32 (restarts st + 1)) in * by (unfold fits; lia).
    apply radix_lt; [lia|lia|]. apply radix_lt; [lia|lia|]. apply radix_lt; [lia|lia|].
    destruct (in_flight_first_packet st); lia. }
  unfold on_offset. destruct (in_flight_first_packet st) eqn:Hf;
    [|destruct (Z.ltb_spec (confirmed_off st) o);
      [|destruct (Z.ltb_spec (max_no_progress config) (consecutive_no_progress
           (set_consecutive_no_progress (wrap 32 (consecutive_no_progress st + 1)) st))); [done|]]];
    unfold sent; simpl; intros.
  - apply radix_lt; [lia|lia|]. apply radix_lt; [lia|lia|]. apply radix_lt; lia.
  - apply radix_lt; [lia|lia|]. apply radix_lt; [lia|lia|]. lia.
  - rewrite (wrap_fits 32 (consecutive_no_progress st + 1)) in * by (unfold fits; lia).
    assert (o = confirmed_off st) as -> by lia. apply radix_lt; [lia|lia|]. lia.
Qed.

(** No answer of the history goes back to an offset between zero and the one
    before it. *)
Definition never_rewinds (t : trace) : Prop :=
  forall t1 p t2 o, t = t1 ++ p :: t2 -> reported_by p = Some o -> o = 0 \/ last_offset t1 <= o.

Lemma attempt_bounded config rs :
  config_ok config -> max_no_progress config < 2 ^ 32 - 1 ->
  Forall input_ok (Answer <$> rs) ->
  let t := (session config (Answer <$> rs)).1 in
  let st := (session config (Answer <$> rs)).2 in
  never_rewinds t -> phase st = Sending ->
  zlen t = zlen rs + 1 /\ budget_left config st + zlen rs < answers_bound config.
Proof.
  intros Hc HN. induction rs as [|r rs IH] using rev_ind.
  - intros _ t st _ Hp. split; [done|].
    pose proof (budget_left_range config st Hc (sinv_begin config Hc) Hp). simpl. lia.
  - rewrite fmap_app. intros [Hall Hr]%Forall_app. apply Forall_cons in Hr as [Hr _].
    cbn [fmap list_fmap]. rewrite session_snoc.
    destruct (history_session config (Answer <$> rs) Hc Hall) as [Hi _ Ho _ _].
    specialize (IH Hall). destruct (session config (Answer <$> rs)) as [t st]. simpl in *.
    unfold extend, turn; simpl. destruct (phase st) eqn:Hp; try (intros; simpl in *; congruence).
    pose proof (budget_decreases config st r Hc HN Hi Hp Hr) as Hdec.
    destruct (sent (on_response st r config)) as [s st'] eqn:E. simpl in *. intros Hnr Hp'.
    assert (never_rewinds t) as Hnt.
    { intros t1 p t2 o -> . eapply (Hnr t1 p (t2 ++ [(Some (Answer r), s)])). by rewrite <- app_assoc. }
    destruct (IH Hnt eq_refl) as [Hlen Hb].
    assert (budget_left config st' < budget_left config st) as Hlt.
    { apply Hdec; [|done]. intros o Hf Hro. rewrite Ho by (by left).
      eapply (Hnr t (Some (Answer r), s) []); [done|]. unfold reported_by; simpl. by rewrite Hf. }
    rewrite !length_app. simpl. split; lia.
Qed.

(** An attempt ends. Against a server that does not rewind, the number of
    answers one attempt can take is bounded: after [answers_bound] of them, no
    matter which mixture of progress, repeats, restarts and failures they are,
    the session has completed, failed or been suspended. *)
Lemma upload_terminates (config : UploadConfig) (rs : list UploadResponse) :
  config_ok config -> max_no_progress config < 2 ^ 32 - 1 ->
  Forall input_ok (Answer <$> rs) ->
  never_rewinds (session config (Answer <$> rs)).1 ->
  answers_bound config <= zlen rs ->
  phase (session config (Answer <$> rs)).2 <> Sending.
Proof.
  intros Hc HN Hi Hnr Hlen Hp.
  destruct (attempt_bounded config rs Hc HN Hi Hnr Hp) as [_ Hb].
  destruct (history_session config (Answer <$> rs) Hc Hi) as [Hinv _ _ _ _].
  pose proof (budget_left_range config _ Hc Hinv Hp). lia.
Qed.

(** A one-byte image, no budgets: four answers are the bound. *)
Definition tiny_config : UploadConfig := mkUploadConfig 1 1 0 None false 0 0 0.

Definition tiny_answers : list UploadResponse := replicate 4 (mkResponse (Some 1) None None).

(** A server that goes back and forth between two offsets. *)
Fixpoint seesaw (n : nat) : list UploadResponse :=
  match n with
  | O => []
  | S n' => seesaw n' ++ [mkResponse (Some (if Nat.even n' then 100 else 50)) None None]
  end.

Lemma seesaw_state n :
  let st := (session sample_config (Answer <$> seesaw (2 + n))).2 in
  phase st = Sending /\ in_flight_first_packet st = false /\ first_packet_pending st = false /\
  confirmed_off st = (if Nat.even n then 50 else 100) /\
  consecutive_no_progress st = (if Nat.even n then 1 else 0) /\
  restarts st = 0 /\ retries st = 0.
Proof.
  induction n as [|n IH]; [vm_compute; done|].
  change (seesaw (2 + S n)) with
    (seesaw (2 + n) ++ [mkResponse (Some (if Nat.even (2 + n) then 100 else 50)) None None]).
  rewrite fmap_app. cbn [fmap list_fmap]. rewrite session_snoc.
  destruct (session sample_config (Answer <$> seesaw (2 + n))) as [t st].
  destruct st as [co fo fl ff np rs rt pr fp ph]. simpl in IH.
  destruct IH as (-> & -> & -> & -> & -> & -> & ->).
  rewrite Nat.even_succ, <- Nat.negb_even. change (Nat.even (2 + n)) with (Nat.even n).
  by destruct (Nat.even n).
Qed.

(** The bound on answers that do not advance is a bound on consecutive ones
    only. A server that rewinds and advances in turn is never stopped: whatever
    number of answers it gives, the session asks for the next chunk. *)
Lemma rewinding_server_unbounded (n : nat) :
  phase (session sample_config (Answer <$> seesaw n)).2 = Sending.
Proof.
  destruct n as [|[|n]]; [vm_compute; reflexivity|vm_compute; reflexivity|].
  apply (seesaw_state n).
Qed.

(** ** Chunk size *)

(** [upload::FirstPacketFields]. *)
Record FirstPacketFields := mkFields {
  fp_image_size : Z;
  fp_image : Z;
  fp_sha : option bytes;
  fp_upgrade_only : bool
}.

(** [upload::ChunkBudget]. *)
Record ChunkBudget := mkBudget {
  server_buf_size : option Z;
  transport_max_message_size : Z;
  transport_message_overhead : Z;
  configured_max : Z
}.

(** [kProbeBufferSize]. *)
Definition kProbeBufferSize : Z := 256.

(** [bstr_header_size]. *)
Definition bstr_header_size (length : Z) : Z :=
  if length <? 24 then 1 else if length <=? 255 then 2 else if length <=? 65535 then 3 else 5.

(** [kChunkDataHeaderSize]. *)
Definition kChunkDataHeaderSize : Z := bstr_header_size kUploadChunkMax.

(** What the session relies on of the CBOR encoder: how long the first-packet map
    is with [n] bytes of data. A byte string of [n] bytes takes its header and
    [n] bytes (UploadDriver.v gives the encoder that has these sizes), and the other entries do not depend on it (RFC 8949, section
    3.1). *)
Class FirstPacketEncoder := {
  encoded_size : FirstPacketFields -> Z -> Z;
  encoded_size_data : forall f n, 0 <= n < 2 ^ 32 ->
    encoded_size f n = encoded_size f 0 - 1 + bstr_header_size n + n;
  encoded_size_pos : forall f, 1 <= encoded_size f 0
}.

Section chunk_size.
Context `{FirstPacketEncoder}.

(** [writer.close_map().finish()] of the probe: it fails when the map does not
    fit the buffer. *)
Definition probe (fields : FirstPacketFields) : option Z :=
  if encoded_size fields 0 <=? kProbeBufferSize then Some (encoded_size fields 0) else None.

(** [first_packet_overhead]. *)
Definition first_packet_overhead (fields : FirstPacketFields) : Z :=
  match probe fields with
  | None => kProbeBufferSize
  | Some size => (size - 1) + kChunkDataHeaderSize
  end.

(** [compute_chunk_size]. *)
Definition compute_chunk_size (budget : ChunkBudget) (fields : FirstPacketFields) : Result Z :=
  let message_budget :=
    match server_buf_size budget with
    | Some size => if 0 <? size then size else kDefaultSmpMessageBudget
    | None => kDefaultSmpMessageBudget
    end in
  if message_budget <=? transport_message_overhead budget then
    fail MessageTooLarge "upload: no room for a chunk"
  else
    let message_budget := message_budget - transport_message_overhead budget in
    let message_budget :=
      if 0 <? transport_max_message_size budget
      then Z.min message_budget (transport_max_message_size budget) else message_budget in
    let overhead := Z.of_nat kHeaderSize + first_packet_overhead fields in
    if message_budget <=? overhead then fail MessageTooLarge "upload: no room for a chunk"
    else
      let available := message_budget - overhead in
      let capped := Z.min available (configured_max budget) in
      if capped <? kUploadChunkMin then
        fail MessageTooLarge "upload: chunk below the 32-byte minimum"
      else Success (wrap 32 capped).

(** Whether a message fits what the device and the transport take. *)
Definition message_fits (budget : ChunkBudget) (size : Z) : Prop :=
  (forall b, server_buf_size budget = Some b -> 0 < b ->
     size + transport_message_overhead budget <= b) /\
  (0 < transport_max_message_size budget -> size <= transport_max_message_size budget).

(** The chunk size chosen is one the upload can use: at least the 32 bytes
    the device needs in a first packet, at most the configured maximum, and the
    whole first message, SMP header and CBOR envelope included, fits both the
    device's buffer with the transport's framing and the transport's own
    limit. *)
Lemma chunk_size_fits (budget : ChunkBudget) (fields : FirstPacketFields) (n : Z) :
  0 <= configured_max budget <= kUploadChunkMax -> 0 <= transport_message_overhead budget ->
  encoded_size fields 0 <= kProbeBufferSize ->
  compute_chunk_size budget fields = Success n ->
  kUploadChunkMin <= n <= configured_max budget /\
  message_fits budget (Z.of_nat kHeaderSize + encoded_size fields n).
Proof.
  intros Hmax Hov Hprobe. unfold compute_chunk_size, first_packet_overhead, probe.
  rewrite (proj2 (Z.leb_le _ _) Hprobe). cbv zeta. unfold kUploadChunkMax, kUploadChunkMin in *.
  change kChunkDataHeaderSize with 3. change (Z.of_nat kHeaderSize) with 8.
  set (size := match server_buf_size budget with Some s => _ | None => _ end).
  destruct (Z.leb_spec size (transport_message_overhead budget)); [done|].
  set (mb := if 0 <? _ then _ else _). destruct (Z.leb_spec mb (8 + (encoded_size fields 0 - 1 + 3))); [done|].
  destruct (Z.ltb_spec (Z.min (mb - (8 + (encoded_size fields 0 - 1 + 3))) (configured_max budget)) 32); [done|].
  intros [= <-]. rewrite wrap_fits by (unfold fits; lia).
  set (c := Z.min (mb - _) _) in *. assert (c <= 512) as Hc by lia. assert (bstr_header_size c <= 3) as Hb.
  { unfold bstr_header_size. clearbody c. destruct (Z.ltb_spec c 24); [lia|]. destruct (Z.leb_spec c 255); [lia|].
    destruct (Z.leb_spec c 65535); lia. }
  rewrite encoded_size_data by lia. split; [lia|]. split.
  - intros b Hs Hb0. assert (size = b) as Hsz
      by (subst size; rewrite Hs; by rewrite (proj2 (Z.ltb_lt _ _) Hb0)).
    assert (mb <= size - transport_message_overhead budget) by (subst mb; destruct (0 <? _); lia).
    lia.
  - intros Ht. assert (mb <= transport_max_message_size budget)
      by (subst mb; rewrite (proj2 (Z.ltb_lt _ _) Ht); lia).
    lia.
Qed.

End chunk_size.

(** An encoder whose envelope takes 41 bytes around the data. *)
#[local] Instance sample_encoder : FirstPacketEncoder.
Proof.
  refine {| encoded_size f n := 41 + bstr_header_size n + n |}; intros; change (bstr_header_size 0) with 1; lia.
Defined.
