(* ===== verification/Crc16.v ===== *)
(** * The CRC of the serial framing

    [transports/serial/crc16.hpp]: CRC-16/XMODEM, bit by bit, most significant
    bit first. The receiver checks a packet by running the CRC over it with its
    two CRC bytes appended and requiring zero; [crc16_residue] is why that is a
    check. *)

From S2P Require Import Prelude.

(** One bit of the inner loop. *)
Definition crc_bit (crc : Z) : Z :=
  let carry := negb (Z.land crc 32768 =? 0) in
  let crc := wrap 16 (Z.shiftl crc 1) in
  if carry then Z.lxor crc 4129 else crc.

(** One byte of the outer loop. *)
Definition crc_byte (crc value : Z) : Z :=
  Nat.iter 8 crc_bit (Z.lxor crc (wrap 16 (Z.shiftl value 8))).

(** [crc16_xmodem]. *)
Definition crc16_xmodem (seed : Z) (data : bytes) : Z := foldl crc_byte seed data.

(** The CRC as the two bytes the sender appends. *)
Definition crc_bytes (crc : Z) : bytes := [Z.land (Z.shiftr crc 8) 255; Z.land crc 255].

(** The published check value. *)
Example crc16_check :
  crc16_xmodem 0 [49; 50; 51; 52; 53; 54; 55; 56; 57] = 12739.
Proof. vm_compute. reflexivity. Qed.

Lemma crc_bit_fits crc : u16 (crc_bit crc).
Proof.
  unfold crc_bit. destruct (negb _); [apply lxor_fits; [|done]|]; by apply fits_wrap.
Qed.

Lemma crc_byte_fits crc value : u16 (crc_byte crc value).
Proof. unfold crc_byte. rewrite Nat.iter_succ. apply crc_bit_fits. Qed.

Lemma crc16_fits seed data : u16 seed -> u16 (crc16_xmodem seed data).
Proof.
  intros Hs. unfold crc16_xmodem. destruct data as [|v data _] using rev_ind; [done|].
  rewrite foldl_snoc. apply crc_byte_fits.
Qed.

(** A register whose top byte cancels shifts its low byte up. *)
Lemma crc_low_byte lo : u8 lo -> Nat.iter 8 crc_bit lo = lo * 256.
Proof.
  intros Hlo. apply Z.eqb_eq.
  apply (check_below 256 (fun lo => Nat.iter 8 crc_bit lo =? lo * 256)); [vm_compute; reflexivity|].
  exact Hlo.
Qed.

(** A packet followed by its CRC, most significant byte first, has CRC zero: the
    receiver's check accepts what the sender computes. *)
Lemma crc16_residue (seed : Z) (data : bytes) :
  u16 seed -> crc16_xmodem seed (data ++ crc_bytes (crc16_xmodem seed data)) = 0.
Proof.
  intros Hs. pose proof (crc16_fits seed data Hs) as Hc. unfold crc16_xmodem in *.
  rewrite foldl_app. set (c := foldl crc_byte seed data) in *. clearbody c.
  unfold crc_bytes; cbn [foldl]. rewrite !land_255, shiftr_8.
  unfold fits in Hc. change (2 ^ 16) with 65536 in Hc.
  assert (0 <= c / 256 < 256) by (split; [apply Z.div_pos; lia|apply Z.div_lt_upper_bound; lia]).
  pose proof (Z.mod_pos_bound c 256 ltac:(lia)). rewrite (Z.mod_small (c / 256)) by lia.
  assert (forall lo, 0 <= lo < 256 -> wrap 16 (Z.shiftl lo 8) = lo * 256) as Hw.
  { intros lo Hlo. rewrite Z.shiftl_mul_pow2 by lia. apply wrap_fits. unfold fits. lia. }
  assert (crc_byte c (c / 256) = c mod 256 * 256) as ->.
  { unfold crc_byte. rewrite Hw by lia.
    rewrite <- (crc_low_byte (c mod 256)) by (unfold fits; lia). f_equal.
    assert (c = Z.lor (Z.shiftl (c / 256) 8) (c mod 256)) as Hcd.
    { rewrite lor_shiftl_add by lia. pose proof (Z.div_mod c 256). lia. }
    rewrite Hcd at 1.
    replace (c / 256 * 256) with (Z.shiftl (c / 256) 8) by (rewrite Z.shiftl_mul_pow2; lia).
    apply Z.bits_inj'. intros n Hn. rewrite Z.lxor_spec, Z.lor_spec.
    destruct (Z.lt_ge_cases n 8).
    - rewrite Z.shiftl_spec_low by lia. by rewrite xorb_false_r.
    - destruct (Z.testbit (c mod 256) n) eqn:Hb; [|by rewrite orb_false_r, xorb_nilpotent].
      exfalso. change 256 with (2 ^ 8) in Hb. by rewrite Z.mod_pow2_bits_high in Hb by lia. }
  unfold crc_byte. rewrite Hw by lia. rewrite Z.lxor_nilpotent. vm_compute. reflexivity.
Qed.
