(* ===== verification/Base64.v ===== *)
(** * Base64, as the serial framing uses it

    [transports/serial/base64.hpp]. A symbol is the byte of its character. The
    caller's output buffer is its size: the functions return the bytes they
    write into it. *)

From S2P Require Import Prelude.

(** [base64_encoded_size]. *)
Definition base64_encoded_size (raw : nat) : nat := ((raw + 2) / 3 * 4)%nat.

(** [base64_max_decoded_size]. *)
Definition base64_max_decoded_size (chars : nat) : nat := (chars / 4 * 3)%nat.

(** [kAlphabet]: A to Z, a to z, 0 to 9, plus and slash. *)
Definition kAlphabet : bytes :=
  seqZ 65 26 ++ seqZ 97 26 ++ seqZ 48 10 ++ [43; 47].

(** [kAlphabet[i]], for [i] below 64. *)
Definition symbol_of (i : Z) : Z := nth (Z.to_nat i) kAlphabet 0.

(** The padding character. *)
Definition pad : Z := 61.

(** The scan of [base64_value]. *)
Fixpoint value_from (i : Z) (l : bytes) (symbol : Z) : Z :=
  match l with
  | [] => -1
  | a :: l' => if a =? symbol then i else value_from (i + 1) l' symbol
  end.

(** [base64_value]. *)
Definition base64_value (symbol : Z) : Z := value_from 0 kAlphabet symbol.

(** The 24 bits of a group, missing bytes as zero. *)
Definition triple (b0 b1 b2 : Z) : Z := Z.lor (Z.lor (Z.shiftl b0 16) (Z.shiftl b1 8)) b2.

(** The character for the six bits of [t] from [shift] up. *)
Definition sextet (t shift : Z) : Z := symbol_of (Z.land (Z.shiftr t shift) 63).

(** The loop of [base64_encode]. *)
Fixpoint encode_loop (l : bytes) : bytes :=
  match l with
  | [] => []
  | [b0] => let t := triple b0 0 0 in [sextet t 18; sextet t 12; pad; pad]
  | [b0; b1] => let t := triple b0 b1 0 in [sextet t 18; sextet t 12; sextet t 6; pad]
  | b0 :: b1 :: b2 :: l' =>
      let t := triple b0 b1 b2 in
      [sextet t 18; sextet t 12; sextet t 6; sextet t 0] ++ encode_loop l'
  end.

(** [base64_encode]: the characters written, none when the buffer is too small. *)
Definition base64_encode (l : bytes) (out_size : nat) : bytes :=
  let needed := base64_encoded_size (length l) in
  if (needed =? 0)%nat || (out_size <? needed)%nat then [] else encode_loop l.

(** The inner loop of [base64_decode], from symbol [j] of the quartet on: the
    bits gathered and the number of bytes they hold, or a refusal. *)
Fixpoint quartet_loop (final_quartet : bool) (j : nat) (symbols : bytes) (quad : Z)
  : option (Z * nat) :=
  match symbols with
  | [] => Some (quad, 3%nat)
  | symbol :: rest =>
      if symbol =? pad then
        if negb final_quartet || (j <? 2)%nat then None
        else if (j =? 2)%nat && negb (bool_decide (head rest = Some pad)) then None
        else Some (wrap 32 (Z.shiftl quad ((4 - Z.of_nat j) * 6)), (j - 1)%nat)
      else
        let value := base64_value symbol in
        if value <? 0 then None
        else quartet_loop final_quartet (S j) rest (wrap 32 (Z.lor (Z.shiftl quad 6) value))
  end.

(** The bytes a quartet holds. *)
Definition quartet_bytes (quad : Z) (bytes_here : nat) : bytes :=
  (fun k => Z.land (Z.shiftr quad (16 - 8 * Z.of_nat k)) 255) <$> seq 0 bytes_here.

(** The outer loop of [base64_decode]. *)
Fixpoint decode_loop (l : bytes) : option bytes :=
  match l with
  | [] => Some []
  | s0 :: s1 :: s2 :: s3 :: l' =>
      match quartet_loop (bool_decide (l' = [])) 0 [s0; s1; s2; s3] 0 with
      | None => None
      | Some (quad, n) =>
          match decode_loop l' with
          | None => None
          | Some rest => Some (quartet_bytes quad n ++ rest)
          end
      end
  | _ => None
  end.

(** [base64_decode]. *)
Definition base64_decode (l : bytes) (out_size : nat) : option bytes :=
  if negb (length l mod 4 =? 0)%nat then None
  else if (out_size <? base64_max_decoded_size (length l))%nat then None
  else decode_loop l.

Example base64_man : base64_encode [77; 97; 110] 4 = [84; 87; 70; 117].
Proof. reflexivity. Qed.

(** ** Lemmas *)

Lemma symbol_value i :
  0 <= i < 64 -> base64_value (symbol_of i) = i /\ u8 (symbol_of i) /\
    symbol_of i <> pad /\ symbol_of i <> 10 /\ symbol_of i <> 13.
Proof.
  intros Hi.
  pose proof (check_below 64 (fun i => (base64_value (symbol_of i) =? i) && fitsb 8 (symbol_of i) &&
    negb (symbol_of i =? pad) && negb (symbol_of i =? 10) && negb (symbol_of i =? 13)) i
    ltac:(vm_compute; reflexivity) Hi) as H. simpl in H.
  bool_to_prop. split_and!; try done. by apply fitsb_spec.
Qed.

(** A group's bits as a number. *)
Lemma triple_value b0 b1 b2 :
  u8 b0 -> u8 b1 -> u8 b2 -> triple b0 b1 b2 = b0 * 65536 + b1 * 256 + b2.
Proof.
  unfold fits. intros. unfold triple.
  replace (Z.lor (Z.shiftl b0 16) (Z.shiftl b1 8)) with (Z.shiftl (b0 * 256 + b1) 8).
  - rewrite lor_shiftl_add by lia. change (2 ^ 8) with 256. lia.
  - replace (b0 * 256 + b1) with (Z.lor (Z.shiftl b0 8) b1) by (rewrite lor_shiftl_add; lia).
    by rewrite Z.shiftl_lor, Z.shiftl_shiftl by lia.
Qed.

Lemma sextet_value t shift :
  0 <= shift -> sextet t shift = symbol_of (t / 2 ^ shift mod 64) /\ 0 <= t / 2 ^ shift mod 64 < 64.
Proof.
  intros Hs. unfold sextet. change 63 with (Z.ones 6). rewrite Z.land_ones by lia.
  rewrite Z.shiftr_div_pow2 by lia. split; [done|]. apply Z.mod_pos_bound. lia.
Qed.

Lemma quad_push quad v :
  0 <= quad < 2 ^ 18 -> 0 <= v < 64 -> wrap 32 (Z.lor (Z.shiftl quad 6) v) = quad * 64 + v.
Proof.
  intros Hq Hv. rewrite lor_shiftl_add by lia. apply wrap_fits. unfold fits. lia.
Qed.

(** One symbol of the alphabet consumed. *)
Lemma quartet_symbol final j i rest quad :
  0 <= i < 64 -> 0 <= quad < 2 ^ 18 ->
  quartet_loop final j (symbol_of i :: rest) quad = quartet_loop final (S j) rest (quad * 64 + i).
Proof.
  intros Hi Hq. destruct (symbol_value i Hi) as (Hv & _ & Hp & _). cbn [quartet_loop].
  rewrite (proj2 (Z.eqb_neq _ _) Hp), Hv. destruct (Z.ltb_spec i 0); [lia|]. by rewrite quad_push.
Qed.

(** The bytes of the bits gathered. *)
Lemma quartet_bytes_3 quad :
  quartet_bytes quad 3 = [quad / 65536 mod 256; quad / 256 mod 256; quad mod 256].
Proof.
  unfold quartet_bytes. cbn [seq fmap list_fmap]. rewrite !land_255, !Z.shiftr_div_pow2 by lia.
  cbn. by rewrite Z.div_1_r.
Qed.

(** A quartet of six-bit digits. *)
Lemma quartet_full final d0 d1 d2 d3 :
  0 <= d0 < 64 -> 0 <= d1 < 64 -> 0 <= d2 < 64 -> 0 <= d3 < 64 ->
  quartet_loop final 0 [symbol_of d0; symbol_of d1; symbol_of d2; symbol_of d3] 0
  = Some (((d0 * 64 + d1) * 64 + d2) * 64 + d3, 3%nat).
Proof. intros. rewrite !quartet_symbol by lia. done. Qed.

Lemma quartet_two d0 d1 :
  0 <= d0 < 64 -> 0 <= d1 < 64 ->
  quartet_loop true 0 [symbol_of d0; symbol_of d1; pad; pad] 0
  = Some ((d0 * 64 + d1) * 4096, 1%nat).
Proof.
  intros. rewrite !quartet_symbol by lia. cbn [quartet_loop]. rewrite Z.eqb_refl. cbn.
  rewrite Z.shiftl_mul_pow2 by lia. rewrite wrap_fits by (unfold fits; lia). done.
Qed.

Lemma quartet_three d0 d1 d2 :
  0 <= d0 < 64 -> 0 <= d1 < 64 -> 0 <= d2 < 64 ->
  quartet_loop true 0 [symbol_of d0; symbol_of d1; symbol_of d2; pad] 0
  = Some (((d0 * 64 + d1) * 64 + d2) * 64, 2%nat).
Proof.
  intros. rewrite !quartet_symbol by lia. cbn [quartet_loop]. rewrite Z.eqb_refl. cbn.
  rewrite Z.shiftl_mul_pow2 by lia. rewrite wrap_fits by (unfold fits; lia). done.
Qed.

(** A group encoded and decoded: the digits are those of the 24 bits. *)
Lemma decode_group b0 b1 b2 l :
  u8 b0 -> u8 b1 -> u8 b2 ->
  decode_loop (encode_loop (b0 :: b1 :: b2 :: l)) =
    match decode_loop (encode_loop l) with
    | Some rest => Some (b0 :: b1 :: b2 :: rest)
    | None => None
    end.
Proof.
  intros H0 H1 H2. cbn [encode_loop app]. rewrite triple_value by done. unfold fits in *.
  set (t := b0 * 65536 + b1 * 256 + b2).
  destruct (sextet_value t 18 ltac:(lia)) as [-> ?]. destruct (sextet_value t 12 ltac:(lia)) as [-> ?].
  destruct (sextet_value t 6 ltac:(lia)) as [-> ?]. destruct (sextet_value t 0 ltac:(lia)) as [-> ?].
  cbn [decode_loop]. rewrite quartet_full by lia. rewrite quartet_bytes_3.
  destruct (decode_loop (encode_loop l)); [|done]. do 2 f_equal.
  change (2 ^ 18) with 262144 in *. change (2 ^ 12) with 4096 in *. change (2 ^ 6) with 64 in *.
  change (2 ^ 0) with 1 in *.
  assert (((t / 262144 mod 64 * 64 + t / 4096 mod 64) * 64 + t / 64 mod 64) * 64 + t / 1 mod 64 = t) as ->.
  { subst t. Z.div_mod_to_equations. lia. }
  subst t. cbn [app]. repeat f_equal; Z.div_mod_to_equations; lia.
Qed.

Lemma decode_encode_loop l : byte_list l -> decode_loop (encode_loop l) = Some l.
Proof.
  induction l as [l IH] using (induction_ltof1 _ length). intros Hl. unfold ltof in IH.
  destruct l as [|b0 [|b1 [|b2 l]]]; [done| | |].
  - inversion Hl as [|? ? H0 _]; subst. cbn [encode_loop]. rewrite triple_value by done. unfold fits in *.
    set (t := b0 * 65536 + 0 * 256 + 0).
    destruct (sextet_value t 18 ltac:(lia)) as [-> ?]. destruct (sextet_value t 12 ltac:(lia)) as [-> ?].
    cbn [decode_loop]. rewrite bool_decide_eq_true_2 by done. rewrite quartet_two by lia.
    unfold quartet_bytes. cbn [seq fmap list_fmap app]. rewrite land_255, Z.shiftr_div_pow2 by lia.
    do 2 f_equal. subst t. cbn. Z.div_mod_to_equations. lia.
  - inversion Hl as [|? ? H0 Hl']; subst. inversion Hl' as [|? ? H1 _]; subst.
    cbn [encode_loop]. rewrite triple_value by done. unfold fits in *.
    set (t := b0 * 65536 + b1 * 256 + 0).
    destruct (sextet_value t 18 ltac:(lia)) as [-> ?]. destruct (sextet_value t 12 ltac:(lia)) as [-> ?].
    destruct (sextet_value t 6 ltac:(lia)) as [-> ?].
    cbn [decode_loop]. rewrite bool_decide_eq_true_2 by done. rewrite quartet_three by lia.
    unfold quartet_bytes. cbn [seq fmap list_fmap app]. rewrite !land_255, !Z.shiftr_div_pow2 by lia.
    subst t. cbn. repeat f_equal; Z.div_mod_to_equations; lia.
  - inversion Hl as [|? ? H0 Hl1]; subst. inversion Hl1 as [|? ? H1 Hl2]; subst.
    inversion Hl2 as [|? ? H2 Hl3]; subst.
    rewrite decode_group by done. rewrite IH; [done|simpl; lia|done].
Qed.

(** ** Sizes and characters *)

Lemma encode_loop_app l1 l2 :
  (length l1 mod 3 = 0)%nat -> encode_loop (l1 ++ l2) = encode_loop l1 ++ encode_loop l2.
Proof.
  induction l1 as [l1 IH] using (induction_ltof1 _ length). unfold ltof in IH. intros Hm.
  destruct l1 as [|b0 [|b1 [|b2 l1]]]; [done|done|done|].
  cbn [app encode_loop]. rewrite IH; [done|simpl; lia|].
  cbn [length] in Hm. replace (S (S (S (length l1)))) with (length l1 + 1 * 3)%nat in Hm by lia.
  by rewrite Nat.Div0.mod_add in Hm.
Qed.

Lemma encode_loop_length l : length (encode_loop l) = base64_encoded_size (length l).
Proof.
  unfold base64_encoded_size.
  induction l as [l IH] using (induction_ltof1 _ length). unfold ltof in IH.
  destruct l as [|b0 [|b1 [|b2 l]]]; [done|done|done|].
  cbn [encode_loop]. rewrite length_app, IH by (simpl; lia). cbn [length].
  replace (S (S (S (length l))) + 2)%nat with (length l + 2 + 1 * 3)%nat by lia.
  rewrite Nat.div_add by lia. lia.
Qed.

Lemma base64_encoded_size_groups n : base64_encoded_size (3 * n) = (4 * n)%nat.
Proof.
  unfold base64_encoded_size. replace (3 * n + 2)%nat with (2 + n * 3)%nat by lia.
  rewrite Nat.div_add by lia.
  change (2 / 3)%nat with 0%nat. lia.
Qed.

(** No character of an encoding ends a line. *)
Lemma encode_loop_chars l :
  Forall (fun c => u8 c /\ c <> 10 /\ c <> 13) (encode_loop l).
Proof.
  assert (forall t shift, 0 <= shift ->
    u8 (sextet t shift) /\ sextet t shift <> 10 /\ sextet t shift <> 13) as Hs.
  { intros t shift Hsh. destruct (sextet_value t shift Hsh) as [-> Hr].
    destruct (symbol_value _ Hr) as (_ & ? & _ & ? & ?). done. }
  assert (u8 pad /\ pad <> 10 /\ pad <> 13) as Hp by (unfold pad, fits; lia).
  induction l as [l IH] using (induction_ltof1 _ length). unfold ltof in IH.
  destruct l as [|b0 [|b1 [|b2 l]]]; cbn [encode_loop].
  - constructor.
  - repeat constructor; try apply Hs; try apply Hp; lia.
  - repeat constructor; try apply Hs; try apply Hp; lia.
  - apply Forall_app_2; [repeat constructor; apply Hs; lia|apply IH; simpl; lia].
Qed.

(** A group of bytes that fits the buffer is encoded whole. *)
Lemma base64_encode_fits l out_size :
  l <> [] -> (base64_encoded_size (length l) <= out_size)%nat -> base64_encode l out_size = encode_loop l.
Proof.
  intros Hl Ho. unfold base64_encode. destruct (Nat.eqb_spec (base64_encoded_size (length l)) 0) as [He|].
  - rewrite <- encode_loop_length in He. by destruct l as [|b0 [|b1 [|b2 l]]].
  - cbn [orb]. destruct (Nat.ltb_spec out_size (base64_encoded_size (length l))); [lia|done].
Qed.

(** Decoding gives back what was encoded. *)
Lemma base64_roundtrip l out_size :
  byte_list l -> (base64_encoded_size (length l) / 4 * 3 <= out_size)%nat ->
  base64_decode (encode_loop l) out_size = Some l.
Proof.
  intros Hl Ho. unfold base64_decode, base64_max_decoded_size. rewrite encode_loop_length.
  unfold base64_encoded_size at 1. rewrite Nat.Div0.mod_mul. cbn [Nat.eqb negb].
  destruct (Nat.ltb_spec out_size (base64_encoded_size (length l) / 4 * 3)); [lia|].
  by apply decode_encode_loop.
Qed.

(** What decodes is never longer than the room asked for. *)
Lemma quartet_loop_bytes final j symbols quad q n :
  (j + length symbols <= 4)%nat -> quartet_loop final j symbols quad = Some (q, n) -> (n <= 3)%nat.
Proof.
  revert j quad. induction symbols as [|s symbols IH]; intros j quad Hj; cbn [quartet_loop].
  { intros [= _ <-]. lia. }
  simpl in Hj. destruct (s =? pad).
  - repeat (case_match; [done|]). intros [= _ <-]. lia.
  - case_match; [done|]. apply IH. lia.
Qed.

Lemma decode_loop_length l d :
  decode_loop l = Some d -> (length d <= length l / 4 * 3)%nat.
Proof.
  revert d. induction l as [l IH] using (induction_ltof1 _ length). unfold ltof in IH. intros d.
  destruct l as [|s0 [|s1 [|s2 [|s3 l]]]]; try done; [by intros [= <-]|].
  cbn [decode_loop]. destruct (quartet_loop _ _ _ _) as [[q n]|] eqn:Eq; [|done].
  destruct (decode_loop l) as [rest|] eqn:Er; [|done]. intros [= <-].
  apply quartet_loop_bytes in Eq; [|simpl; lia].
  apply IH in Er; [|simpl; lia]. unfold quartet_bytes. rewrite length_app, length_fmap, length_seq.
  cbn [length]. replace (S (S (S (S (length l))))) with (length l + 1 * 4)%nat by lia.
  rewrite Nat.div_add by lia. lia.
Qed.
