(* ===== verification/SerialFraming.v ===== *)
(** * The serial framing

    [transports/serial/serial_framing.hpp]: [SerialFramer] cuts an SMP message
    into console frames, [LineSplitter] cuts the inbound byte stream into lines,
    [SerialDeframer] puts the messages together again. Borrowed views are the
    bytes they show; a [size_t] index is a [nat], its subtractions guarded as in
    the source; counters wrap at their width.

    The property is the round trip: whatever the reads of the port look like, and
    whatever else the console prints between frames, the messages sent come out,
    in order, once each. *)

From S2P Require Import Prelude Crc16 Base64.

(** ** Constants *)

Definition kPacketMarker : bytes := [6; 9].
Definition kFragmentMarker : bytes := [4; 20].
Definition kMaxFrame : nat := 127.
Definition kMarkerSize : nat := 2.
Definition kTerminatorSize : nat := 1.
Definition kMaxBase64PerFrame : nat := (kMaxFrame - kMarkerSize - kTerminatorSize)%nat.
Definition kMaxRawPerFrame : nat := (kMaxBase64PerFrame / 4 * 3)%nat.
Definition kMaxSerialPacket : nat := Z.to_nat 65533.
Definition newline : Z := 10.
Definition carriage_return : Z := 13.

(** ** The sender *)

(** [FramePlan]. *)
Record FramePlan := mkFramePlan { triplets : nat; carries_crc : bool }.

(** [plan_frame]. *)
Definition plan_frame (packet_size offset : nat) (first : bool) : FramePlan :=
  let '(budget, off) :=
    if first then (kMaxRawPerFrame - 3, offset + 1)%nat else (kMaxRawPerFrame, offset) in
  let left := (packet_size - off)%nat in
  let to_process := if (left <? budget)%nat then left else budget in
  let '(to_process, carries) :=
    if (left <=? budget)%nat then
      if (budget - left <=? 1)%nat then (to_process - 1, false)%nat else (to_process, true)
    else (to_process, false) in
  mkFramePlan (to_process / 3) carries.

(** [SerialFramer]. *)
Record SerialFramer := mkFramer {
  packet_ : bytes;
  crc_ : Z;
  offset_ : nat;
  first_ : bool
}.

(** [SerialFramer::SerialFramer]. *)
Definition new_framer (packet : bytes) : SerialFramer :=
  let p := if (kMaxSerialPacket <? length packet)%nat then [] else packet in
  mkFramer p (crc16_xmodem 0 p) 0 true.

(** [SerialFramer::done]. *)
Definition framer_done (f : SerialFramer) : bool := (length (packet_ f) <=? offset_ f)%nat.

Definition advance_by (n : nat) (f : SerialFramer) : SerialFramer :=
  mkFramer (packet_ f) (crc_ f) (offset_ f + n) (first_ f).

(** [encode_group], into what is left of an output of [out_size] bytes. *)
Definition encode_group (group : bytes) (out_size : nat) (out : bytes) : bytes :=
  out ++ base64_encode group (out_size - length out).

(** [packet_.subspan(offset_, n)]. *)
Definition subspan (f : SerialFramer) (n : nat) : bytes := take n (drop (offset_ f) (packet_ f)).

(** The loop of [next_frame] over the whole groups of a frame. *)
Fixpoint put_triplets (n : nat) (out_size : nat) (out : bytes) (f : SerialFramer)
  : bytes * SerialFramer :=
  match n with
  | O => (out, f)
  | S n' => put_triplets n' out_size (encode_group (subspan f 3) out_size out) (advance_by 3 f)
  end.

(** [encode_tail]. *)
Definition encode_tail (out_size : nat) (out : bytes) (f : SerialFramer) : bytes * SerialFramer :=
  let crc_hi := Z.land (Z.shiftr (crc_ f) 8) 255 in
  let crc_lo := Z.land (crc_ f) 255 in
  let tail := (length (packet_ f) - offset_ f)%nat in
  if (tail =? 0)%nat then (encode_group [crc_hi; crc_lo] out_size out, f)
  else if (tail =? 1)%nat then
    (encode_group (subspan f 1 ++ [crc_hi; crc_lo]) out_size out, advance_by 1 f)
  else
    let out := encode_group (subspan f 2 ++ [crc_hi]) out_size out in
    (encode_group [crc_lo] out_size out, advance_by 2 f).

(** [SerialFramer::next_frame], into a buffer of [out_size] bytes: the frame
    written, empty when the framer is done or the buffer too small. *)
Definition next_frame (out_size : nat) (f : SerialFramer) : bytes * SerialFramer :=
  if framer_done f || (out_size <? kMaxFrame)%nat then ([], f)
  else
    let plan := plan_frame (length (packet_ f)) (offset_ f) (first_ f) in
    let out := if first_ f then kPacketMarker else kFragmentMarker in
    let '(out, f) :=
      if first_ f then
        let declared := wrap 16 (zlen (packet_ f) + 2) in
        (encode_group ([Z.land (Z.shiftr declared 8) 255; Z.land declared 255] ++ take 1 (packet_ f))
           out_size out,
         advance_by 1 f)
      else (out, f) in
    let '(out, f) := put_triplets (triplets plan) out_size out f in
    let '(out, f) := if carries_crc plan then encode_tail out_size out f else (out, f) in
    (out ++ [newline], mkFramer (packet_ f) (crc_ f) (offset_ f) false).

(** The sending loop: [while (!framer.done())], one buffer of [kMaxFrame] bytes
    for every frame. *)
Fixpoint frames_loop (fuel : nat) (f : SerialFramer) : list bytes :=
  match fuel with
  | O => []
  | S fuel' =>
      if framer_done f then []
      else let '(frame, f') := next_frame kMaxFrame f in frame :: frames_loop fuel' f'
  end.

Definition frames (packet : bytes) : list bytes :=
  frames_loop (length packet) (new_framer packet).

(** The loop of [SerialFramer::count]. *)
Fixpoint count_loop (fuel : nat) (size off : nat) (first : bool) : nat :=
  match fuel with
  | O => 0
  | S fuel' =>
      if (off <? size)%nat then
        let plan := plan_frame size off first in
        let off := if first then (off + 1)%nat else off in
        let off := (off + 3 * triplets plan)%nat in
        let off := if carries_crc plan then size else off in
        S (count_loop fuel' size off false)
      else 0
  end.

(** [SerialFramer::count]. *)
Definition count (f : SerialFramer) : nat :=
  count_loop (length (packet_ f)) (length (packet_ f)) 0 true.

(** ** The line splitter *)

(** [LineSplitter]. [ready_] is the buffer the last line was handed out in. *)
Record LineSplitter := mkSplitter {
  line_ : bytes;
  ready_line : bytes;
  max_line_ : nat;
  dropped_ : Z;
  discarding_ : bool
}.

(** [LineSplitter::LineSplitter]. *)
Definition new_splitter (max_line : nat) : LineSplitter := mkSplitter [] [] max_line 0 false.

(** [LineSplitter::reset]. *)
Definition reset_splitter (s : LineSplitter) : LineSplitter :=
  mkSplitter [] [] (max_line_ s) (dropped_ s) false.

(** One byte of the loop of [next_line]: a line completed, or not. *)
Definition next_byte (value : Z) (s : LineSplitter) : option bytes * LineSplitter :=
  if negb (value =? newline) then
    if discarding_ s then (None, s)
    else if (length (line_ s) =? max_line_ s)%nat then
      (None, mkSplitter [] (ready_line s) (max_line_ s) (dropped_ s) true)
    else (None, mkSplitter (line_ s ++ [value]) (ready_line s) (max_line_ s) (dropped_ s) false)
  else if discarding_ s then
    (None, mkSplitter (line_ s) (ready_line s) (max_line_ s) (wrap 64 (dropped_ s + 1)) false)
  else
    let line :=
      if bool_decide (last (line_ s) = Some carriage_return)
      then take (length (line_ s) - 1) (line_ s) else line_ s in
    (Some line, mkSplitter [] line (max_line_ s) (dropped_ s) false).

(** [LineSplitter::next_line]: the line, what is left of the chunk, and the
    splitter. *)
Fixpoint next_line (chunk : bytes) (s : LineSplitter) : option bytes * bytes * LineSplitter :=
  match chunk with
  | [] => (None, [], s)
  | value :: rest =>
      match next_byte value s with
      | (Some line, s) => (Some line, rest, s)
      | (None, s) => next_line rest s
      end
  end.

(** ** The deframer *)

(** [SerialCounters]. *)
Record SerialCounters := mkCounters {
  ignored : Z;
  crc_failures : Z;
  framing_errors : Z;
  packets : Z
}.

(** [SerialDeframer]. *)
Record SerialDeframer := mkDeframer {
  buffer_ : bytes;
  max_packet_ : nat;
  declared_ : nat;
  ready_ : nat;
  peak_ : nat;
  counters_ : SerialCounters
}.

(** [SerialDeframer::Outcome]. *)
Inductive Outcome := NeedMore | Packet | Ignored | ErrorOutcome.

(** [SerialDeframer::SerialDeframer]. *)
Definition new_deframer (max_packet : nat) : SerialDeframer :=
  mkDeframer [] max_packet 0 0 0 (mkCounters 0 0 0 0).

(** [SerialDeframer::packet]. *)
Definition packet (d : SerialDeframer) : bytes := take (ready_ d) (buffer_ d).

(** [SerialDeframer::reset]. *)
Definition reset_deframer (d : SerialDeframer) : SerialDeframer :=
  mkDeframer [] (max_packet_ d) 0 0 (peak_ d) (counters_ d).

(** [SerialDeframer::fail]. *)
Definition deframe_fail (d : SerialDeframer) : Outcome * SerialDeframer :=
  let n := counters_ d in
  (ErrorOutcome,
   mkDeframer [] (max_packet_ d) 0 (ready_ d) (peak_ d)
     (mkCounters (ignored n) (crc_failures n) (wrap 64 (framing_errors n + 1)) (packets n))).

(** [++counters_.ignored; return Outcome::Ignored]. *)
Definition ignore_line (d : SerialDeframer) : Outcome * SerialDeframer :=
  let n := counters_ d in
  (Ignored,
   mkDeframer (buffer_ d) (max_packet_ d) (declared_ d) (ready_ d) (peak_ d)
     (mkCounters (wrap 64 (ignored n + 1)) (crc_failures n) (framing_errors n) (packets n))).

(** [decode_into_buffer]. *)
Definition decode_into_buffer (body : bytes) (d : SerialDeframer) : option SerialDeframer :=
  if (kMaxBase64PerFrame <? length body)%nat then None
  else match base64_decode body kMaxRawPerFrame with
  | None => None
  | Some decoded =>
      if negb (declared_ d =? 0)%nat && (declared_ d <? length (buffer_ d) + length decoded)%nat
      then None
      else
        let buffer := buffer_ d ++ decoded in
        Some (mkDeframer buffer (max_packet_ d) (declared_ d) (ready_ d)
                (Nat.max (peak_ d) (length buffer)) (counters_ d))
  end.

(** [take_declared_length]: whether it succeeded, and the deframer as it leaves
    it. *)
Definition take_declared_length (d : SerialDeframer) : bool * SerialDeframer :=
  match buffer_ d with
  | high :: low :: rest =>
      let declared := Z.to_nat (Z.lor (Z.shiftl high 8) low) in
      if (declared <=? 2)%nat || (max_packet_ d <? declared)%nat then (false, d)
      else ((length rest <=? declared)%nat,
            mkDeframer rest (max_packet_ d) declared (ready_ d) (peak_ d) (counters_ d))
  | _ => (false, d)
  end.

(** The end of [feed_line], once the frame is in the buffer. *)
Definition check_complete (d : SerialDeframer) : Outcome * SerialDeframer :=
  if (length (buffer_ d) <? declared_ d)%nat then (NeedMore, d)
  else if (declared_ d <? length (buffer_ d))%nat then deframe_fail d
  else
    let n := counters_ d in
    if negb (crc16_xmodem 0 (buffer_ d) =? 0) then
      (ErrorOutcome,
       mkDeframer [] (max_packet_ d) 0 (ready_ d) (peak_ d)
         (mkCounters (ignored n) (wrap 64 (crc_failures n + 1)) (framing_errors n) (packets n)))
    else
      (Packet,
       mkDeframer (buffer_ d) (max_packet_ d) 0 (length (buffer_ d) - 2) (peak_ d)
         (mkCounters (ignored n) (crc_failures n) (framing_errors n) (wrap 64 (packets n + 1)))).

(** A line that begins with a marker. *)
Definition feed_frame (starts : bool) (body : bytes) (d : SerialDeframer) : Outcome * SerialDeframer :=
  let d := if starts then mkDeframer [] (max_packet_ d) 0 (ready_ d) (peak_ d) (counters_ d) else d in
  if negb starts && bool_decide (buffer_ d = []) then deframe_fail d
  else match decode_into_buffer body d with
  | None => deframe_fail d
  | Some d =>
      if starts then
        match take_declared_length d with
        | (false, d) => deframe_fail d
        | (true, d) => check_complete d
        end
      else check_complete d
  end.

(** [SerialDeframer::feed_line]. *)
Definition feed_line (line : bytes) (d : SerialDeframer) : Outcome * SerialDeframer :=
  let d := if negb (ready_ d =? 0)%nat
           then mkDeframer [] (max_packet_ d) (declared_ d) 0 (peak_ d) (counters_ d) else d in
  if (length line <? kMarkerSize)%nat then ignore_line d
  else
    let starts := bool_decide (take 2 line = kPacketMarker) in
    let continues := bool_decide (take 2 line = kFragmentMarker) in
    if negb starts && negb continues then ignore_line d
    else feed_frame starts (drop kMarkerSize line) d.

(** ** The receiver, as the header composes it *)

(** The port's reader: lines out of a chunk while there are any, each fed to the
    deframer, each packet delivered. *)
Fixpoint receive_loop (fuel : nat) (chunk : bytes) (s : LineSplitter) (d : SerialDeframer)
  (out : list bytes) : list bytes * LineSplitter * SerialDeframer :=
  match fuel with
  | O => (out, s, d)
  | S fuel' =>
      match next_line chunk s with
      | (None, _, s) => (out, s, d)
      | (Some line, rest, s) =>
          match feed_line line d with
          | (Packet, d) => receive_loop fuel' rest s d (out ++ [packet d])
          | (_, d) => receive_loop fuel' rest s d out
          end
      end
  end.

Definition receive (chunk : bytes) (s : LineSplitter) (d : SerialDeframer) (out : list bytes) :=
  receive_loop (S (length chunk)) chunk s d out.

(** A whole connection: the reads of the port, in order. *)
Fixpoint receive_all (chunks : list bytes) (s : LineSplitter) (d : SerialDeframer) (out : list bytes)
  : list bytes * LineSplitter * SerialDeframer :=
  match chunks with
  | [] => (out, s, d)
  | chunk :: chunks' => let '(out, s, d) := receive chunk s d out in receive_all chunks' s d out
  end.

Definition sample_packet : bytes := seqZ 0 200.

Example sample_frames :
  length <$> frames sample_packet = [127; 127; 27]%nat /\ count (new_framer sample_packet) = 3%nat.
Proof. vm_compute. done. Qed.

Example sample_roundtrip_evaluated :
  (receive_all (frames sample_packet) (new_splitter 127) (new_deframer 4096) []).1.1 = [sample_packet].
Proof. vm_compute. reflexivity. Qed.

(** ** What a frame carries *)

Lemma div3_bounds n : (3 * (n / 3) <= n < 3 * (n / 3) + 3)%nat.
Proof. pose proof (Nat.div_mod n 3 ltac:(lia)). pose proof (Nat.mod_upper_bound n 3 ltac:(lia)). lia. Qed.

(** The raw bytes a frame has room for after the opening group, and the offset
    that group reaches. *)
Definition frame_budget (first : bool) : nat := if first then 90 else 93.
Definition frame_start (first : bool) (offset : nat) : nat := if first then S offset else offset.

Lemma plan_frame_spec size offset first :
  (frame_start first offset <= size)%nat ->
  let left := (size - frame_start first offset)%nat in
  let plan := plan_frame size offset first in
  if carries_crc plan
  then triplets plan = (left / 3)%nat /\ (left + 2 <= frame_budget first)%nat
  else (3 * triplets plan < left /\ 3 * triplets plan <= frame_budget first /\ 0 < triplets plan)%nat.
Proof.
  intros Hs. unfold plan_frame.
  change (kMaxRawPerFrame - 3)%nat with (frame_budget true).
  change kMaxRawPerFrame with (frame_budget false).
  replace (if first then (frame_budget true, (offset + 1)%nat) else (frame_budget false, offset))
    with (frame_budget first, frame_start first offset)
    by (destruct first; simpl; f_equal; lia).
  cbv zeta. set (left := (size - frame_start first offset)%nat). set (budget := frame_budget first).
  assert (budget = 90 \/ budget = 93)%nat as Hb by (subst budget; destruct first; auto).
  assert (3 * (budget / 3) = budget)%nat as Hb3 by (destruct Hb as [-> | ->]; done).
  pose proof (div3_bounds left). pose proof (div3_bounds (left - 1)). pose proof (div3_bounds budget).
  destruct (Nat.leb_spec left budget); [destruct (Nat.leb_spec (budget - left) 1)|];
    destruct (Nat.ltb_spec left budget); cbn [carries_crc triplets]; try lia;
    replace (budget - 1)%nat with (left - 1)%nat by lia; lia.
Qed.

(** The loop over the whole groups, when they are there and the buffer has
    room. *)
Lemma put_triplets_spec n out_size out f :
  (offset_ f + 3 * n <= length (packet_ f))%nat -> (length out + 4 * n <= out_size)%nat ->
  put_triplets n out_size out f =
    (out ++ encode_loop (take (3 * n) (drop (offset_ f) (packet_ f))), advance_by (3 * n) f).
Proof.
  revert out f. induction n as [|n IH]; intros out f Hf Ho.
  { cbn. rewrite app_nil_r. destruct f. unfold advance_by; simpl. by rewrite Nat.add_0_r. }
  cbn [put_triplets]. unfold encode_group.
  assert (length (subspan f 3) = 3%nat) as Hl
    by (unfold subspan; rewrite length_take, length_drop; lia).
  rewrite base64_encode_fits; [|by destruct (subspan f 3)|rewrite Hl; cbn; lia].
  rewrite IH; [|simpl; lia|rewrite length_app, encode_loop_length, Hl; cbn; lia].
  cbn [offset_ packet_ advance_by]. unfold advance_by; simpl. f_equal; [|f_equal; lia].
  rewrite <- app_assoc. f_equal. rewrite <- encode_loop_app by (by rewrite Hl). f_equal.
  unfold subspan. replace (S (n + S (n + S (n + 0))))%nat with (3 + 3 * n)%nat by lia.
  rewrite <- drop_drop. by rewrite take_take_drop.
Qed.

(** The tail with the CRC: at most two bytes are left of the packet. *)
Lemma encode_tail_spec out_size out f :
  (length (packet_ f) <= offset_ f + 2)%nat ->
  (length out + base64_encoded_size (length (packet_ f) - offset_ f + 2) <= out_size)%nat ->
  encode_tail out_size out f =
    (out ++ encode_loop (drop (offset_ f) (packet_ f) ++ crc_bytes (crc_ f)),
     advance_by (length (packet_ f) - offset_ f) f).
Proof.
  intros Hf Ho. unfold encode_tail, encode_group, subspan, crc_bytes.
  pose proof (length_drop (packet_ f) (offset_ f)) as Hl.
  destruct (drop (offset_ f) (packet_ f)) as [|b0 [|b1 [|]]]; cbn [length] in Hl; [| | |lia];
    rewrite <- Hl in Ho |- *; cbn [Nat.eqb take app]; cbn in Ho.
  - rewrite base64_encode_fits by (done || (cbn; lia)). unfold advance_by. rewrite Nat.add_0_r.
    by destruct f.
  - by rewrite base64_encode_fits by (done || (cbn; lia)).
  - rewrite (base64_encode_fits [b0; b1; _]) by (done || (cbn; lia)).
    rewrite base64_encode_fits; [|done|rewrite length_app, encode_loop_length; cbn; lia].
    by rewrite <- app_assoc.
Qed.

(** The length prefix of a packet. *)
Definition declared_bytes (p : bytes) : bytes :=
  let declared := wrap 16 (zlen p + 2) in [Z.land (Z.shiftr declared 8) 255; Z.land declared 255].

Section frame.
Context (f : SerialFramer).

Let plan := plan_frame (length (packet_ f)) (offset_ f) (first_ f).
Let start := frame_start (first_ f) (offset_ f).

(** The raw bytes of the next frame, and where it leaves the framer. *)
Definition frame_raw : bytes :=
  (if first_ f then declared_bytes (packet_ f) ++ take 1 (packet_ f) else []) ++
  (if carries_crc plan then drop start (packet_ f) ++ crc_bytes (crc_ f)
   else take (3 * triplets plan) (drop start (packet_ f))).

Definition frame_end : nat :=
  if carries_crc plan then length (packet_ f) else (start + 3 * triplets plan)%nat.

Definition frame_marker : bytes := if first_ f then kPacketMarker else kFragmentMarker.

Definition after_frame : SerialFramer := mkFramer (packet_ f) (crc_ f) frame_end false.

Context (Hdone : framer_done f = false) (Hfirst : first_ f = true -> offset_ f = 0%nat).

Lemma frame_start_le : (start <= length (packet_ f))%nat.
Proof.
  unfold framer_done in Hdone. apply Nat.leb_gt in Hdone. subst start. unfold frame_start.
  destruct (first_ f); lia.
Qed.

Lemma opening_length :
  length (if first_ f then declared_bytes (packet_ f) ++ take 1 (packet_ f) else [])
  = if first_ f then 3%nat else 0%nat.
Proof.
  pose proof frame_start_le as Hs. subst start. unfold frame_start in Hs.
  destruct (first_ f); [|done]. rewrite length_app, length_take.
  change (length (declared_bytes (packet_ f))) with 2%nat. lia.
Qed.

Lemma frame_raw_length : (length frame_raw <= kMaxRawPerFrame)%nat.
Proof.
  pose proof (plan_frame_spec (length (packet_ f)) (offset_ f) (first_ f) frame_start_le) as Hp.
  fold plan start in Hp. unfold frame_raw. rewrite length_app, opening_length.
  change kMaxRawPerFrame with 93%nat. unfold frame_budget in Hp.
  destruct (carries_crc plan); rewrite ?length_app, ?length_take, length_drop; simpl;
    destruct (first_ f); lia.
Qed.

Lemma frame_chars_length : (length (encode_loop frame_raw) <= kMaxBase64PerFrame)%nat.
Proof.
  rewrite encode_loop_length. pose proof frame_raw_length as H. unfold base64_encoded_size.
  change kMaxRawPerFrame with 93%nat in H. change kMaxBase64PerFrame with 124%nat.
  assert ((length frame_raw + 2) / 3 < 32)%nat; [|lia]. apply Nat.Div0.div_lt_upper_bound. lia.
Qed.

Lemma next_frame_spec out_size :
  (kMaxFrame <= out_size)%nat ->
  next_frame out_size f = (frame_marker ++ encode_loop frame_raw ++ [newline], after_frame).
Proof.
  intros Hsize. change kMaxFrame with 127%nat in Hsize.
  pose proof (plan_frame_spec (length (packet_ f)) (offset_ f) (first_ f) frame_start_le) as Hp.
  pose proof frame_start_le as Hs. pose proof opening_length as Ho.
  unfold next_frame. rewrite Hdone. cbn [orb]. change kMaxFrame with 127%nat.
  rewrite (proj2 (Nat.ltb_ge _ _) Hsize).
  fold plan. cbv zeta. cbn iota.
  set (out0 := if first_ f then kPacketMarker else kFragmentMarker).
  set (op := if first_ f then declared_bytes (packet_ f) ++ take 1 (packet_ f) else []) in *.
  assert (length out0 = 2%nat) as Hout by (subst out0; by destruct (first_ f)).
  (* the opening group *)
  match goal with |- (let '(_, _) := ?x in _) = _ =>
    replace x with (out0 ++ encode_loop op, mkFramer (packet_ f) (crc_ f) start (first_ f)) end.
  2: { subst out0 op start. destruct (first_ f) eqn:Hf; [|destruct f; by simpl in *; subst].
       unfold encode_group, declared_bytes in *. cbv zeta in *.
       rewrite base64_encode_fits; [|done|].
       - unfold advance_by. rewrite Hf, Hfirst by done. done.
       - rewrite Ho. cbn in *. lia. }
  assert (length (encode_loop op) = if first_ f then 4%nat else 0%nat) as Hop
    by (rewrite encode_loop_length, Ho; by destruct (first_ f)).
  fold plan start in Hp. unfold frame_budget in Hp.
  rewrite put_triplets_spec; cbn [offset_ packet_].
  2: { destruct (carries_crc plan); pose proof (div3_bounds (length (packet_ f) - start)); lia. }
  2: { rewrite length_app, Hout, Hop. destruct (carries_crc plan), (first_ f); pose proof (div3_bounds (length (packet_ f) - start)); lia. }
  set (body := take (3 * triplets plan) (drop start (packet_ f))).
  unfold after_frame, frame_marker, frame_raw, frame_end. fold out0 plan start op body.
  assert (length op mod 3 = 0)%nat as Hop3 by (rewrite Ho; by destruct (first_ f)).
  destruct (carries_crc plan).
  - destruct Hp as [Ht Hl]. pose proof (div3_bounds (length (packet_ f) - start)).
    assert (length body = 3 * triplets plan)%nat as Hbody
      by (subst body; rewrite length_take, length_drop; lia).
    assert (length body mod 3 = 0)%nat as Hbody3 by (by rewrite Hbody, Nat.mul_comm, Nat.Div0.mod_mul).
    rewrite encode_tail_spec; unfold advance_by; cbn [offset_ packet_ crc_ first_].
    2: { lia. }
    2: { rewrite !length_app, !encode_loop_length, Hout, Ho, Hbody. rewrite base64_encoded_size_groups.
         etransitivity; [|exact Hsize].
         assert (length (packet_ f) - (start + 3 * triplets plan) = 0 \/
           length (packet_ f) - (start + 3 * triplets plan) = 1 \/
           length (packet_ f) - (start + 3 * triplets plan) = 2)%nat as Hr by lia.
         set (r := (length (packet_ f) - (start + 3 * triplets plan))%nat) in *.
         assert (3 * triplets plan + r + 2 <= if first_ f then 90 else 93)%nat as Hle by lia.
         revert Hr Hle. clearbody r. generalize (triplets plan) as t. clear. intros t Hr Hle. revert Hle.
         destruct Hr as [-> |[-> | ->]], (first_ f);
           repeat match goal with |- context [base64_encoded_size ?n] =>
             let v := eval vm_compute in (base64_encoded_size n) in
             change (base64_encoded_size n) with v end; lia. }
    f_equal; [|f_equal; lia].
    replace (drop start (packet_ f)) with (body ++ drop (start + 3 * triplets plan) (packet_ f))
      by (subst body; rewrite <- drop_drop; apply take_drop).
    rewrite (encode_loop_app op) by done. rewrite <- (app_assoc body), (encode_loop_app body) by done.
    by rewrite <- !app_assoc.
  - unfold advance_by; cbn [offset_ packet_ crc_ first_].
    rewrite (encode_loop_app op) by done. by rewrite <- !app_assoc.
Qed.
End frame.

(** ** What the deframer makes of a frame *)

Lemma two_bytes v : u16 v -> Z.lor (Z.shiftl (Z.land (Z.shiftr v 8) 255) 8) (Z.land v 255) = v.
Proof.
  intros Hv. rewrite !land_255, shiftr_8. pose proof (byte_div v Hv) as Hd. unfold fits in Hd.
  pose proof (Z.mod_pos_bound v 256 ltac:(lia)).
  rewrite (Z.mod_small (v / 256)) by lia. rewrite lor_shiftl_add by lia.
  pose proof (Z.div_mod v 256). lia.
Qed.

Lemma two_bytes_list v : byte_list [Z.land (Z.shiftr v 8) 255; Z.land v 255].
Proof.
  rewrite !land_255. repeat constructor; unfold fits; try (apply Z.mod_pos_bound; lia);
    (pose proof (Z.mod_pos_bound (Z.shiftr v 8) 256); pose proof (Z.mod_pos_bound v 256); lia).
Qed.

(** A packet the framing can carry, to a deframer that takes it. *)
Record sendable (mx : nat) (p : bytes) : Prop := {
  se_bytes : byte_list p;
  se_nonempty : (0 < length p)%nat;
  se_size : (length p <= kMaxSerialPacket)%nat;
  se_room : (length p + 2 <= mx)%nat
}.

(** A framer in the middle of a packet. *)
Record framing (p : bytes) (f : SerialFramer) : Prop := {
  fr_packet : packet_ f = p;
  fr_crc : crc_ f = crc16_xmodem 0 p;
  fr_first : first_ f = true -> offset_ f = 0%nat
}.

(** A deframer that holds the first [o] bytes of a packet. *)
Record holding (mx : nat) (p : bytes) (o : nat) (d : SerialDeframer) : Prop := {
  ho_buffer : buffer_ d = take o p;
  ho_some : (0 < o)%nat;
  ho_declared : declared_ d = (length p + 2)%nat;
  ho_ready : ready_ d = 0%nat;
  ho_max : max_packet_ d = mx
}.

Lemma kMaxSerialPacket_Z : Z.of_nat kMaxSerialPacket = 65533.
Proof. unfold kMaxSerialPacket. rewrite Z2Nat.id; lia. Qed.

Lemma decode_frame raw d :
  byte_list raw -> (length raw <= kMaxRawPerFrame)%nat ->
  (length (encode_loop raw) <= kMaxBase64PerFrame)%nat ->
  declared_ d = 0%nat \/ (length (buffer_ d) + length raw <= declared_ d)%nat ->
  decode_into_buffer (encode_loop raw) d =
    Some (mkDeframer (buffer_ d ++ raw) (max_packet_ d) (declared_ d) (ready_ d)
            (Nat.max (peak_ d) (length (buffer_ d ++ raw))) (counters_ d)).
Proof.
  intros Hb Hr Hc Hd. unfold decode_into_buffer.
  destruct (Nat.ltb_spec kMaxBase64PerFrame (length (encode_loop raw))); [lia|].
  rewrite base64_roundtrip; [|done|].
  - destruct (Nat.eqb_spec (declared_ d) 0); cbn [negb andb]; [done|].
    destruct (Nat.ltb_spec (declared_ d) (length (buffer_ d) + length raw)); [lia|done].
  - rewrite encode_loop_length in Hc. unfold base64_encoded_size in *.
    rewrite Nat.div_mul by lia. change kMaxBase64PerFrame with 124%nat in Hc.
    change kMaxRawPerFrame with 93%nat. lia.
Qed.

Lemma crc_bytes_residue p : crc16_xmodem 0 (p ++ crc_bytes (crc16_xmodem 0 p)) = 0.
Proof. apply crc16_residue. unfold fits. lia. Qed.

(** The buffer holds part of the packet, or the packet and its CRC. *)
Lemma check_complete_spec mx p o d :
  (0 < o < length p + 2)%nat -> declared_ d = (length p + 2)%nat -> ready_ d = 0%nat ->
  max_packet_ d = mx -> buffer_ d = take o p -> (o <= length p)%nat ->
  exists d', check_complete d = (NeedMore, d') /\ holding mx p o d'.
Proof.
  intros Ho Hd Hr Hm Hb Hop. exists d. unfold check_complete. rewrite Hb, Hd, length_take.
  destruct (Nat.ltb_spec (Nat.min o (length p)) (length p + 2)); [|lia].
  split; [done|]. split; try done. lia.
Qed.

Lemma check_complete_packet p d :
  declared_ d = (length p + 2)%nat -> buffer_ d = p ++ crc_bytes (crc16_xmodem 0 p) ->
  exists d', check_complete d = (Packet, d') /\ packet d' = p /\ max_packet_ d' = max_packet_ d.
Proof.
  intros Hd Hb. unfold check_complete.
  assert (length (buffer_ d) = length p + 2)%nat as Hl by (rewrite Hb, length_app; done).
  rewrite Hl, Hd, Nat.ltb_irrefl, Hb, crc_bytes_residue. cbn [Z.eqb negb].
  eexists. split; [done|]. split; [|done]. unfold packet; simpl.
  replace (length p + 2 - 2)%nat with (length p) by lia. by rewrite take_app_length.
Qed.

Lemma frame_raw_bytes mx p f : sendable mx p -> framing p f -> byte_list (frame_raw f).
Proof.
  intros Hs [Hp Hc _]. unfold frame_raw. rewrite Hp. pose proof (se_bytes _ _ Hs) as Hb.
  apply byte_list_app. split.
  - destruct (first_ f); [|constructor]. apply byte_list_app.
    split; [apply two_bytes_list|by apply byte_list_take].
  - destruct (carries_crc _); [apply byte_list_app; split|]; auto with smply. apply two_bytes_list.
Qed.

(** The opening frame: its length prefix is taken off. *)
Lemma take_declared_spec mx p rest d :
  sendable mx p -> buffer_ d = declared_bytes p ++ rest -> max_packet_ d = mx ->
  (length rest <= length p + 2)%nat ->
  take_declared_length d =
    (true, mkDeframer rest mx (length p + 2) (ready_ d) (peak_ d) (counters_ d)).
Proof.
  intros [_ Hne Hsz Hr] Hb Hm Hl. unfold take_declared_length, declared_bytes in *. rewrite Hb.
  cbn [app]. pose proof kMaxSerialPacket_Z as HK.
  rewrite two_bytes by (apply fits_wrap; lia). rewrite wrap_fits by (unfold fits; lia).
  replace (Z.to_nat (zlen p + 2)) with (length p + 2)%nat by lia.
  destruct (Nat.leb_spec (length p + 2) 2); [lia|].
  destruct (Nat.ltb_spec (max_packet_ d) (length p + 2)); [lia|]. cbn [orb].
  rewrite (proj2 (Nat.leb_le _ _) Hl). by rewrite Hm.
Qed.

(** What of the packet, and of the CRC, a frame adds. *)
Definition frame_data (f : SerialFramer) : bytes :=
  let plan := plan_frame (length (packet_ f)) (offset_ f) (first_ f) in
  let start := frame_start (first_ f) (offset_ f) in
  if carries_crc plan then drop start (packet_ f) ++ crc_bytes (crc_ f)
  else take (3 * triplets plan) (drop start (packet_ f)).

(** The buffer once the frame is in: the packet up to where the frame ends, or
    all of it with its CRC. *)
Lemma frame_data_spec p f :
  framing p f -> framer_done f = false ->
  let filled := take (frame_start (first_ f) (offset_ f)) p ++ frame_data f in
  if framer_done (after_frame f) then filled = p ++ crc_bytes (crc16_xmodem 0 p)
  else filled = take (offset_ (after_frame f)) p /\ (offset_ (after_frame f) < length p)%nat /\
       (0 < offset_ (after_frame f))%nat.
Proof.
  intros [Hp Hc Hf] Hd.
  assert (frame_start (first_ f) (offset_ f) <= length (packet_ f))%nat as Hs
    by (apply frame_start_le; auto).
  pose proof (plan_frame_spec _ _ _ Hs) as H. unfold framer_done, after_frame, frame_end, frame_data.
  rewrite Hp, Hc in *. cbn [packet_ offset_ crc_]. cbv zeta in *.
  set (plan := plan_frame _ _ _) in *. destruct (carries_crc plan).
  - rewrite Nat.leb_refl. by rewrite app_assoc, take_drop.
  - set (t := (3 * triplets plan)%nat) in *. destruct (Nat.leb_spec (length p) (frame_start (first_ f) (offset_ f) + t)); [lia|].
    split; [|lia]. by rewrite take_take_drop.
Qed.

Lemma frame_raw_data f :
  frame_raw f = (if first_ f then declared_bytes (packet_ f) ++ take 1 (packet_ f) else []) ++ frame_data f.
Proof. reflexivity. Qed.

Lemma feed_line_frame mx p f d :
  sendable mx p -> framing p f -> framer_done f = false ->
  (first_ f = true /\ max_packet_ d = mx \/ first_ f = false /\ holding mx p (offset_ f) d) ->
  exists d', max_packet_ d' = mx /\
    if framer_done (after_frame f)
    then feed_line (frame_marker f ++ encode_loop (frame_raw f)) d = (Packet, d') /\ packet d' = p
    else feed_line (frame_marker f ++ encode_loop (frame_raw f)) d = (NeedMore, d') /\
         holding mx p (offset_ (after_frame f)) d'.
Proof.
  intros Hs Hf Hdone Hcase. pose proof (frame_raw_bytes mx p f Hs Hf) as Hb.
  pose proof (frame_raw_length f Hdone (fr_first _ _ Hf)) as Hrl.
  pose proof (frame_chars_length f Hdone (fr_first _ _ Hf)) as Hcl.
  pose proof (frame_data_spec p f Hf Hdone) as Hdata.
  assert (forall d0, buffer_ d0 = take (frame_start (first_ f) (offset_ f)) p ++ frame_data f ->
    declared_ d0 = (length p + 2)%nat -> ready_ d0 = 0%nat -> max_packet_ d0 = mx ->
    exists d', max_packet_ d' = mx /\
      if framer_done (after_frame f) then check_complete d0 = (Packet, d') /\ packet d' = p
      else check_complete d0 = (NeedMore, d') /\ holding mx p (offset_ (after_frame f)) d') as Hfin.
  { intros d0 Hbuf Hde Hre Hma. destruct (framer_done (after_frame f)).
    - rewrite Hdata in Hbuf. destruct (check_complete_packet p d0 Hde Hbuf) as (d' & ? & ? & ?).
      exists d'. split; [congruence|done].
    - destruct Hdata as (He & Hlt & Hpos). rewrite He in Hbuf.
      destruct (check_complete_spec mx p (offset_ (after_frame f)) d0 ltac:(lia) Hde Hre Hma Hbuf ltac:(lia)) as (d' & ? & Hh).
      exists d'. split; [apply Hh|done]. }
  assert (length (take (frame_start (first_ f) (offset_ f)) p ++ frame_data f) <= length p + 2)%nat as Hlen.
  { destruct (framer_done (after_frame f)); [rewrite Hdata, length_app; done|].
    destruct Hdata as (-> & ? & _). rewrite length_take. lia. }
  unfold feed_line. set (d0 := if negb (ready_ d =? 0)%nat then _ else d).
  assert (ready_ d0 = 0%nat /\ max_packet_ d0 = max_packet_ d) as [Hr0 Hm0].
  { subst d0. destruct (Nat.eqb_spec (ready_ d) 0); done. }
  rewrite length_app. unfold frame_marker. pose proof (fr_packet _ _ Hf) as Hp.
  rewrite frame_raw_data in *. destruct Hcase as [[Hfi Hm]|[Hfi Hh]]; rewrite Hfi in *.
  - cbn [app take length Nat.ltb Nat.leb Nat.add kMarkerSize drop kPacketMarker].
    rewrite bool_decide_eq_true_2 by done. cbn [negb andb]. unfold feed_frame. cbn [negb andb].
    rewrite drop_0, decode_frame; [|done|done|done|by left]. cbn [buffer_ app declared_ ready_ max_packet_].
    rewrite Hp in *. rewrite <- !app_assoc in *. cbn [buffer_ app]. 
    erewrite (take_declared_spec mx p); [|done|cbn; reflexivity|cbn; congruence|].
    + cbn [ready_ peak_ counters_]. apply Hfin; [|done|done|done].
      unfold frame_start. by rewrite (fr_first _ _ Hf).
    + unfold frame_start in Hlen. by rewrite (fr_first _ _ Hf) in Hlen.
  - cbn [app take length Nat.ltb Nat.leb Nat.add kMarkerSize drop kFragmentMarker].
    destruct Hh as [Hbu Hso Hde Hre Hma].
    assert (d0 = d) as -> by (subst d0; by rewrite Hre).
    rewrite bool_decide_eq_false_2 by done. rewrite bool_decide_eq_true_2 by done.
    cbn [negb andb]. unfold feed_frame. cbn [negb andb].
    rewrite bool_decide_eq_false_2.
    2: { rewrite Hbu. intros E. apply (f_equal length) in E. rewrite length_take in E. simpl in E.
         pose proof (se_nonempty _ _ Hs). lia. }
    rewrite drop_0, decode_frame; [|done|done|done|].
    + apply Hfin; cbn; try done; by rewrite Hbu.
    + right. unfold frame_start in Hlen. rewrite Hbu, Hde. by rewrite <- length_app.
Qed.

(** ** The stream *)

Abbreviation receiver := (LineSplitter * SerialDeframer * list bytes)%type.

(** A line arrives. *)
Definition deliver (line : bytes) (d : SerialDeframer) (out : list bytes)
  : SerialDeframer * list bytes :=
  match feed_line line d with
  | (Packet, d) => (d, out ++ [packet d])
  | (_, d) => (d, out)
  end.

(** A byte arrives. *)
Definition rx_byte (r : receiver) (value : Z) : receiver :=
  let '(s, d, out) := r in
  match next_byte value s with
  | (Some line, s) => let '(d, out) := deliver line d out in (s, d, out)
  | (None, s) => (s, d, out)
  end.

Lemma rx_byte_eq s d out value :
  rx_byte (s, d, out) value =
    match next_byte value s with
    | (Some line, s) => let '(d, out) := deliver line d out in (s, d, out)
    | (None, s) => (s, d, out)
    end.
Proof. reflexivity. Qed.

(** The reader loop takes the bytes one by one, whatever the chunk. *)
Lemma receive_loop_bytes fuel chunk s d out :
  (length chunk < fuel)%nat ->
  receive_loop fuel chunk s d out =
    let '(s, d, out) := foldl rx_byte (s, d, out) chunk in (out, s, d).
Proof.
  revert chunk s d out. induction fuel as [|fuel IH]; intros chunk s d out Hf; [lia|].
  cbn [receive_loop].
  assert (match next_line chunk s with
          | (None, _, s') => foldl rx_byte (s, d, out) chunk = (s', d, out)
          | (Some line, rest, s') => (length rest < length chunk)%nat /\
              foldl rx_byte (s, d, out) chunk =
                let '(d, out) := deliver line d out in foldl rx_byte (s', d, out) rest
          end) as Hnl.
  { clear IH Hf fuel. revert s. induction chunk as [|v chunk IH]; intros s; cbn [next_line foldl]; [done|].
    rewrite rx_byte_eq. destruct (next_byte v s) as [[line|] s'] eqn:E.
    - split; [simpl; lia|]. by destruct (deliver line d out).
    - specialize (IH s'). destruct (next_line chunk s') as [[[line|] rest] s''];
        [|exact IH]. destruct IH as [Hl ->]. split; [simpl; lia|done]. }
  destruct (next_line chunk s) as [[[line|] rest] s']; [|by rewrite Hnl].
  destruct Hnl as [Hl ->]. unfold deliver.
  destruct (feed_line line d) as [[] d']; (rewrite IH by lia; reflexivity).
Qed.

Lemma receive_all_bytes chunks s d out :
  receive_all chunks s d out =
    let '(s, d, out) := foldl rx_byte (s, d, out) (concat chunks) in (out, s, d).
Proof.
  revert s d out. induction chunks as [|chunk chunks IH]; intros s d out; [done|].
  cbn [receive_all concat]. unfold receive. rewrite receive_loop_bytes by lia. rewrite foldl_app.
  destruct (foldl rx_byte (s, d, out) chunk) as [[s' d'] out']. apply IH.
Qed.

(** A splitter between lines. *)
Record between_lines (m : nat) (s : LineSplitter) : Prop := {
  bl_line : line_ s = [];
  bl_discarding : discarding_ s = false;
  bl_max : max_line_ s = m
}.

(** A line as it is handed out: without the carriage return before its newline. *)
Definition strip (l : bytes) : bytes :=
  if bool_decide (last l = Some carriage_return) then take (length l - 1) l else l.

Lemma scan_line m n s d out :
  Forall (fun v => v <> newline) n -> discarding_ s = false -> max_line_ s = m ->
  (length (line_ s) <= m)%nat ->
  exists s', foldl rx_byte (s, d, out) n = (s', d, out) /\ max_line_ s' = m /\
    if (length (line_ s) + length n <=? m)%nat
    then line_ s' = line_ s ++ n /\ discarding_ s' = false
    else line_ s' = [] /\ discarding_ s' = true.
Proof.
  intros Hn. revert s. induction n as [|v n IH]; intros s Hd Hm Hl; cbn [foldl].
  { exists s. rewrite Nat.add_0_r, app_nil_r. by rewrite (proj2 (Nat.leb_le _ _) Hl). }
  inversion Hn as [|? ? Hv Hn']; subst. rewrite rx_byte_eq. unfold next_byte.
  rewrite (proj2 (Z.eqb_neq _ _) Hv), Hd. cbn [negb].
  destruct (Nat.eqb_spec (length (line_ s)) (max_line_ s)) as [He|Hne].
  - assert (forall s1, discarding_ s1 = true -> foldl rx_byte (s1, d, out) n = (s1, d, out)) as Hskip.
    { clear -Hn'. induction Hn' as [|w n Hw Hn IHn]; intros s1 Hd1; cbn [foldl]; [done|].
      rewrite rx_byte_eq. unfold next_byte. rewrite (proj2 (Z.eqb_neq _ _) Hw), Hd1. by apply IHn. }
    rewrite Hskip by done. eexists. split; [done|]. split; [done|].
    destruct (Nat.leb_spec (length (line_ s) + length (v :: n)) (max_line_ s)); [simpl in *; lia|done].
  - destruct (IH Hn' (mkSplitter (line_ s ++ [v]) (ready_line s) (max_line_ s) (dropped_ s) false))
      as (s' & Hs & Hmx & Hc); [done|done|cbn; rewrite length_app; simpl; lia|].
    exists s'. split; [done|]. split; [done|]. cbn in Hc. rewrite length_app in Hc. simpl in Hc.
    replace (length (line_ s) + length (v :: n))%nat with (length (line_ s) + 1 + length n)%nat
      by (simpl; lia).
    destruct (_ <=? _)%nat; [|done]. by rewrite <- app_assoc in Hc.
Qed.

(** A whole line: handed out, or dropped when it is too long for a frame. *)
Lemma rx_line m n s d out :
  Forall (fun v => v <> newline) n -> between_lines m s ->
  exists s', between_lines m s' /\
    foldl rx_byte (s, d, out) (n ++ [newline]) =
      if (length n <=? m)%nat then let '(d, out) := deliver (strip n) d out in (s', d, out)
      else (s', d, out).
Proof.
  intros Hn [Hl Hd Hm]. rewrite foldl_app.
  destruct (scan_line m n s d out Hn Hd Hm ltac:(rewrite Hl; simpl; lia)) as (s' & -> & Hm' & Hc).
  rewrite Hl in Hc. cbn [length Nat.add] in Hc. cbn [foldl]. rewrite rx_byte_eq. unfold next_byte.
  rewrite Z.eqb_refl. cbn [negb]. destruct (_ <=? _)%nat; destruct Hc as [Hl' Hd']; rewrite Hd', Hl'.
  - eexists. split; [|cbn [app]; unfold strip; by destruct (deliver _ _ _)]. done.
  - eexists. split; [|reflexivity]. done.
Qed.

(** What the console carries: frames, and lines that are none. *)
Inductive item := FrameItem (frame : bytes) | NoiseItem (line : bytes).

Definition item_bytes (i : item) : bytes :=
  match i with FrameItem frame => frame | NoiseItem line => line ++ [newline] end.

Definition item_frame (i : item) : option bytes :=
  match i with FrameItem frame => Some frame | NoiseItem _ => None end.

(** A line nobody could take for a frame: it is too long for one, or it does not
    begin with a marker. *)
Definition is_noise (m : nat) (line : bytes) : Prop :=
  Forall (fun v => v <> newline) line /\
  ((m < length line)%nat \/ (take 2 line <> kPacketMarker /\ take 2 line <> kFragmentMarker)).

Definition item_ok (m : nat) (i : item) : Prop :=
  match i with FrameItem _ => True | NoiseItem line => is_noise m line end.

(** What is still to come: frames, the packets they carry, and the deframer that
    waits for them. *)
Inductive awaiting (mx : nat) : list bytes -> list bytes -> SerialDeframer -> Prop :=
| awaiting_none d : max_packet_ d = mx -> awaiting mx [] [] d
| awaiting_some p f fuel ps d :
    Forall (sendable mx) (p :: ps) -> framing p f -> framer_done f = false ->
    (length p <= offset_ f + fuel)%nat ->
    (first_ f = true /\ max_packet_ d = mx \/ first_ f = false /\ holding mx p (offset_ f) d) ->
    awaiting mx (frames_loop fuel f ++ concat (frames <$> ps)) (p :: ps) d.

Lemma awaiting_packets mx ps d :
  Forall (sendable mx) ps -> max_packet_ d = mx -> awaiting mx (concat (frames <$> ps)) ps d.
Proof.
  intros Hs Hm. destruct ps as [|p ps]; [by constructor|]. inversion Hs as [|? ? Hp _]; subst.
  cbn [fmap list_fmap concat]. unfold frames at 1.
  assert (new_framer p = mkFramer p (crc16_xmodem 0 p) 0 true) as Hnew.
  { unfold new_framer. pose proof (se_size _ _ Hp).
    destruct (Nat.ltb_spec kMaxSerialPacket (length p)); [lia|done]. }
  apply (awaiting_some _ p (new_framer p)); [done|..]; rewrite Hnew.
  - by split.
  - unfold framer_done; cbn. apply Nat.leb_gt. apply (se_nonempty _ _ Hp).
  - cbn. lia.
  - by left.
Qed.

(** A frame is a line with no newline or carriage return in it, short enough for
    the splitter. *)
Lemma frame_line f :
  framer_done f = false -> (first_ f = true -> offset_ f = 0%nat) ->
  let l := frame_marker f ++ encode_loop (frame_raw f) in
  Forall (fun v => v <> newline) l /\ strip l = l /\ (length l < kMaxFrame)%nat.
Proof.
  intros Hd Hf l. pose proof (frame_chars_length f Hd Hf) as Hc.
  pose proof (encode_loop_chars (frame_raw f)) as Hch.
  assert (Forall (fun v => v <> newline /\ v <> carriage_return) l) as Hl.
  { apply Forall_app_2; [unfold frame_marker; by destruct (first_ f); repeat constructor|].
    eapply Forall_impl; [exact Hch|]. by intros v (_ & ? & ?). }
  split; [eapply Forall_impl; [exact Hl|]; by intros v [? _]|]. split.
  - unfold strip. rewrite bool_decide_eq_false_2; [done|]. intros Hlast.
    apply last_Some_elem_of in Hlast. rewrite Forall_forall in Hl. by destruct (Hl _ Hlast).
  - subst l. rewrite length_app. change kMaxBase64PerFrame with 124%nat in Hc.
    change kMaxFrame with 127%nat. unfold frame_marker. destruct (first_ f); simpl; lia.
Qed.

(** The next frame arrives. *)
Lemma awaiting_frame mx frame rest ps d :
  awaiting mx (frame :: rest) ps d ->
  exists l, frame = l ++ [newline] /\ Forall (fun v => v <> newline) l /\ strip l = l /\
    (length l < kMaxFrame)%nat /\
    forall out, exists d' ps' more, deliver l d out = (d', out ++ more) /\ ps = more ++ ps' /\
      awaiting mx rest ps' d'.
Proof.
  inversion 1 as [|p f fuel ps0 d0 Hs Hf Hd Hfuel Hcase Heq]; subst.
  destruct fuel as [|fuel].
  { unfold framer_done in Hd. apply Nat.leb_gt in Hd. rewrite (fr_packet _ _ Hf) in Hd. lia. }
  cbn [frames_loop] in Heq. rewrite Hd, (next_frame_spec f Hd (fr_first _ _ Hf) kMaxFrame (le_n _)) in Heq.
  injection Heq as <- <-. exists (frame_marker f ++ encode_loop (frame_raw f)).
  split; [by rewrite <- app_assoc|].
  destruct (frame_line f Hd (fr_first _ _ Hf)) as (? & ? & ?). split_and!; [done|done|done|].
  intros out. inversion Hs as [|? ? Hp Hps]; subst.
  destruct (feed_line_frame mx p f d Hp Hf Hd Hcase) as (d' & Hm & Hfeed). unfold deliver.
  pose proof (frame_data_spec p f Hf Hd) as Hdata.
  destruct (framer_done (after_frame f)) eqn:Hdone'.
  - destruct Hfeed as [-> Hpk]. exists d', ps0, [p]. rewrite Hpk. split; [done|]. split; [done|].
    assert (frames_loop fuel (after_frame f) = []) as -> by (destruct fuel; simpl; by rewrite ?Hdone').
    by apply awaiting_packets.
  - destruct Hfeed as [-> Hh]. exists d', (p :: ps0), []. rewrite app_nil_r. split; [done|]. split; [done|].
    destruct Hf as [Hpk Hcr Hfi]. apply awaiting_some; [done|by split|done| |by right].
    destruct Hdata as (_ & _ & Hpos).
    assert (offset_ f < offset_ (after_frame f))%nat; [|lia].
    pose proof (plan_frame_spec (length (packet_ f)) (offset_ f) (first_ f)
      (frame_start_le f Hd Hfi)) as Hplan.
    unfold after_frame, frame_end, framer_done in *. cbn [offset_ packet_] in *.
    apply Nat.leb_gt in Hdone'. unfold frame_start in *.
    destruct (carries_crc _); [lia|]. destruct (first_ f); lia.
Qed.

(** A line of noise arrives. *)
Lemma awaiting_noise mx fs ps d line out :
  awaiting mx fs ps d -> take 2 line <> kPacketMarker -> take 2 line <> kFragmentMarker ->
  exists d', deliver (strip line) d out = (d', out) /\ awaiting mx fs ps d'.
Proof.
  intros Ha Hp Hf. set (d0 := if negb (ready_ d =? 0)%nat
    then mkDeframer [] (max_packet_ d) (declared_ d) 0 (peak_ d) (counters_ d) else d).
  assert (feed_line (strip line) d = ignore_line d0) as Hig.
  { unfold feed_line. fold d0. destruct (Nat.ltb_spec (length (strip line)) kMarkerSize) as [|Hl]; [done|].
    assert (take 2 (strip line) = take 2 line) as ->.
    { unfold strip, kMarkerSize in *. destruct (bool_decide _); [|done].
      rewrite length_take in Hl. rewrite take_take. f_equal. lia. }
    by rewrite !bool_decide_eq_false_2. }
  unfold deliver. rewrite Hig. cbn. eexists. split; [done|].
  inversion Ha as [? Hm|p f fuel ps0 ? Hs Hfr Hd Hfuel Hcase]; subst.
  - constructor. subst d0. by destruct (negb _).
  - apply awaiting_some; try done. destruct Hcase as [[? Hm]|[? Hh]].
    + left. split; [done|]. subst d0. by destruct (negb _).
    + right. split; [done|]. subst d0. destruct Hh as [? ? ? Hr ?]. rewrite Hr. by split.
Qed.

Lemma stream_delivered mx m items fs ps s d out :
  (kMaxFrame <= m)%nat -> Forall (item_ok m) items -> omap item_frame items = fs ->
  awaiting mx fs ps d -> between_lines m s ->
  exists s' d', foldl rx_byte (s, d, out) (concat (item_bytes <$> items)) = (s', d', out ++ ps) /\
    between_lines m s' /\ max_packet_ d' = mx.
Proof.
  intros Hm. revert fs ps s d out. induction items as [|i items IH]; intros fs ps s d out Hok Hfs Ha Hb.
  { cbn in Hfs. subst. exists s, d. inversion Ha as [? Hmx|p f fuel ps0 ? Hs Hf Hd Hfuel Hc Heq]; subst.
    - by rewrite app_nil_r.
    - exfalso. unfold framer_done in Hd. apply Nat.leb_gt in Hd. rewrite (fr_packet _ _ Hf) in Hd.
      destruct fuel; [lia|]. cbn [frames_loop] in Heq. unfold framer_done in Heq.
      rewrite (fr_packet _ _ Hf), (proj2 (Nat.leb_gt _ _) Hd) in Heq.
      by destruct (next_frame kMaxFrame f). }
  inversion Hok as [|? ? Hi Hok']; subst. cbn [fmap list_fmap concat]. rewrite foldl_app.
  destruct i as [frame|line]; cbn [item_bytes omap list_omap item_frame] in *.
  - destruct (awaiting_frame _ _ _ _ _ Ha) as (l & -> & Hn & Hst & Hlen & Hdel).
    destruct (rx_line m l s d out Hn Hb) as (s1 & Hb1 & ->).
    rewrite (proj2 (Nat.leb_le _ _)) by lia. rewrite Hst.
    destruct (Hdel out) as (d' & ps' & more & -> & -> & Ha').
    destruct (IH _ ps' s1 d' (out ++ more) Hok' eq_refl Ha' Hb1) as (s2 & d2 & -> & ? & ?).
    exists s2, d2. by rewrite <- app_assoc.
  - destruct Hi as [Hn Hnoise]. destruct (rx_line m line s d out Hn Hb) as (s1 & Hb1 & ->).
    destruct (Nat.leb_spec (length line) m) as [Hle|Hgt].
    + destruct Hnoise as [|[Hp Hf]]; [lia|].
      destruct (awaiting_noise _ _ _ _ line out Ha Hp Hf) as (d' & -> & Ha'). by eapply IH.
    + by eapply IH.
Qed.

(** The serial link carries messages. Any messages the framing can describe
    and the receiver has room for, framed one after the other, with any lines
    that are not frames in between, and read from the port in chunks of any size:
    the receiver delivers exactly those messages, in order, and is ready for the
    next. *)
Lemma serial_roundtrip (mx m : nat) (ps : list bytes) (items : list item) (chunks : list bytes) :
  (kMaxFrame <= m)%nat -> Forall (sendable mx) ps ->
  omap item_frame items = concat (frames <$> ps) -> Forall (item_ok m) items ->
  concat chunks = concat (item_bytes <$> items) ->
  let '(delivered, s, d) := receive_all chunks (new_splitter m) (new_deframer mx) [] in
  delivered = ps /\ between_lines m s.
Proof.
  intros Hm Hps Hfr Hit Hch. rewrite receive_all_bytes, Hch.
  destruct (stream_delivered mx m items (concat (frames <$> ps)) ps (new_splitter m) (new_deframer mx) []
    Hm Hit Hfr (awaiting_packets mx ps (new_deframer mx) Hps eq_refl)) as (s & d & -> & Hb & _); [done|].
  done.
Qed.

Lemma sendable_small mx p :
  byte_list p -> (0 < length p <= 1000)%nat -> (1002 <= mx)%nat -> sendable mx p.
Proof.
  intros Hb Hl Hm. pose proof kMaxSerialPacket_Z. split; [done|lia|lia|lia].
Qed.

(** ** Bounds against a hostile device *)

(** What holds of a deframer whatever lines it is fed. *)
Record bounded (mx : nat) (d : SerialDeframer) : Prop := {
  bo_max : max_packet_ d = mx;
  bo_buffer : (length (buffer_ d) <= Nat.max kMaxRawPerFrame mx)%nat;
  bo_peak : (peak_ d <= Nat.max kMaxRawPerFrame mx)%nat;
  bo_declared : (declared_ d = 0 \/ 2 < declared_ d <= mx)%nat;
  bo_within : declared_ d <> 0%nat -> (length (buffer_ d) <= declared_ d)%nat /\ ready_ d = 0%nat;
  bo_idle : declared_ d = 0%nat -> ready_ d = 0%nat -> buffer_ d = []
}.

(** What a delivered packet is: what the declared length announced, with a CRC
    that checks. *)
Definition verified (mx : nat) (r : Outcome * SerialDeframer) : Prop :=
  bounded mx r.2 /\
  (r.1 = Packet -> (0 < length (packet r.2) <= mx - 2)%nat /\
     exists c, length c = 2%nat /\ crc16_xmodem 0 (packet r.2 ++ c) = 0).

Lemma verified_fail mx d : bounded mx d -> ready_ d = 0%nat -> verified mx (deframe_fail d).
Proof. intros [] Hr. split; [|done]. split; simpl; try done; lia. Qed.

Lemma decode_into_buffer_bound body d d' :
  decode_into_buffer body d = Some d' ->
  exists raw, (length raw <= kMaxRawPerFrame)%nat /\
    d' = mkDeframer (buffer_ d ++ raw) (max_packet_ d) (declared_ d) (ready_ d)
           (Nat.max (peak_ d) (length (buffer_ d ++ raw))) (counters_ d) /\
    (declared_ d <> 0%nat -> (length (buffer_ d ++ raw) <= declared_ d)%nat).
Proof.
  unfold decode_into_buffer.
  destruct (Nat.ltb_spec kMaxBase64PerFrame (length body)) as [|Hl]; [done|].
  destruct (base64_decode body kMaxRawPerFrame) as [raw|] eqn:Hb; [|done].
  assert (length raw <= kMaxRawPerFrame)%nat as Hraw.
  { unfold base64_decode in Hb. repeat (case_match; [done|]). apply decode_loop_length in Hb.
    change kMaxBase64PerFrame with 124%nat in Hl. change kMaxRawPerFrame with 93%nat.
    assert (length body / 4 < 32)%nat by (apply Nat.Div0.div_lt_upper_bound; lia). lia. }
  destruct (_ && _) eqn:E; [done|]. intros [= <-]. exists raw. split_and!; [done|done|].
  intros Hd. rewrite length_app. destruct (Nat.eqb_spec (declared_ d) 0); [done|].
  cbn [negb andb] in E. apply Nat.ltb_ge in E. lia.
Qed.

Lemma verified_complete mx d :
  bounded mx d -> (2 < declared_ d)%nat -> verified mx (check_complete d).
Proof.
  intros Hb Hd. destruct (Hb) as [Hm Hbu Hpk Hde Hw Hi]. destruct (Hw ltac:(lia)) as [Hlen Hr].
  unfold check_complete. destruct (Nat.ltb_spec (length (buffer_ d)) (declared_ d)); [done|].
  destruct (Nat.ltb_spec (declared_ d) (length (buffer_ d))); [lia|].
  destruct (Z.eqb_spec (crc16_xmodem 0 (buffer_ d)) 0) as [Hc|]; cbn [negb].
  - split; [split; simpl; try done; lia|]. intros _. unfold packet; simpl. rewrite length_take.
    split; [lia|]. exists (drop (length (buffer_ d) - 2) (buffer_ d)).
    rewrite length_drop, take_drop. split; [lia|done].
  - split; [|done]. split; simpl; try done; lia.
Qed.

Lemma verified_feed mx line d : bounded mx d -> verified mx (feed_line line d).
Proof.
  intros Hb. unfold feed_line. set (d0 := if negb (ready_ d =? 0)%nat then _ else d).
  assert (bounded mx d0 /\ ready_ d0 = 0%nat) as [Hb0 Hr0].
  { subst d0. destruct (Nat.eqb_spec (ready_ d) 0); cbn [negb]; [done|]. split; [|done].
    destruct Hb as [? ? ? ? Hw ?]. split; simpl; try done; try lia;
      try (intros Hd; destruct (Hw Hd); lia). }
  clearbody d0. clear Hb d. destruct (Hb0) as [Hm Hbu Hpk Hde Hw Hi].
  assert (verified mx (ignore_line d0)) as Hign by (split; [by split|done]).
  destruct (_ <? _)%nat; [done|]. destruct (_ && _); [done|]. unfold feed_frame.
  set (starts := bool_decide (take 2 line = kPacketMarker)).
  set (d1 := if starts then _ else d0).
  assert (bounded mx d1 /\ ready_ d1 = 0%nat /\ (starts = true -> declared_ d1 = 0%nat /\ buffer_ d1 = []))
    as (Hb1 & Hr1 & Hst).
  { subst d1. destruct starts; [|done]. split; [|done]. split; simpl; try done; lia. }
  clearbody d1 starts. destruct (negb starts && bool_decide (buffer_ d1 = [])) eqn:E;
    [by apply verified_fail|].
  destruct (decode_into_buffer _ d1) as [d2|] eqn:Hdec; [|by apply verified_fail].
  apply decode_into_buffer_bound in Hdec as (raw & Hraw & -> & Hfit).
  destruct (Hb1) as [Hm1 Hbu1 Hpk1 Hde1 Hw1 Hi1]. destruct starts.
  - destruct (Hst eq_refl) as [Hd0 Hbuf0]. rewrite Hd0, Hbuf0. cbn [app].
    unfold take_declared_length. cbn [buffer_ max_packet_ ready_ peak_ counters_].
    assert (forall dd, ready_ dd = 0%nat -> max_packet_ dd = mx ->
      (peak_ dd <= Nat.max kMaxRawPerFrame mx)%nat -> verified mx (deframe_fail dd)) as Hf.
    { intros dd ? ? ?. split; [|done]. split; simpl; try done; lia. }
    destruct raw as [|high [|low rest]]; cbn [length] in Hraw |- *;
      [apply Hf; cbn [ready_ max_packet_ peak_]; (done || lia)..|].
    destruct (_ || _) eqn:Eo; [apply Hf; cbn [ready_ max_packet_ peak_]; (done || lia)|].
    apply orb_false_iff in Eo as [E1 E2]. apply Nat.leb_gt in E1. apply Nat.ltb_ge in E2.
    destruct (Nat.leb_spec (length rest) (Z.to_nat (Z.lor (high ≪ 8) low))) as [Hr|];
      [|apply Hf; cbn [ready_ max_packet_ peak_]; (done || lia)].
    apply verified_complete; [|simpl; lia]. split; simpl; try done; try lia.
  - assert (declared_ d1 <> 0)%nat as Hne.
    { intros Hz. cbn [negb andb] in E. apply bool_decide_eq_false in E. auto. }
    specialize (Hfit Hne). destruct (Hw1 Hne) as [Hl1 _].
    apply verified_complete; [|simpl; lia]. split; simpl; try done; lia.
Qed.

(** A hostile device cannot grow the receiver or have it deliver a packet
    that does not check. Whatever lines the deframer is fed, it never holds more
    than the largest packet it was told to take (or one frame), now or at its
    peak; and what it delivers is a non-empty packet within that limit whose two
    CRC bytes check. *)
Lemma deframer_bounded (mx : nat) (lines : list bytes) (line : bytes) :
  let d := foldl (fun d l => (feed_line l d).2) (new_deframer mx) lines in
  verified mx (feed_line line d).
Proof.
  cbv zeta. apply verified_feed. rewrite <- (rev_involutive lines).
  induction (rev lines) as [|l ls IH]; simpl.
  - split; simpl; try done; lia.
  - rewrite foldl_app. simpl. by apply verified_feed.
Qed.
