(* ===== verification/Sha256.v ===== *)
(** * SHA-256

    [src/image/sha256.hpp] and [src/image/sha256.cpp]: the incremental hasher
    the library uses for the digest of an image file. The compression function
    is the source's; what the theorems show is that the bookkeeping around it
    -- the partial block, the top-up, the block loop, the two shapes of padding
    -- computes the padded, blockwise fold that FIPS 180-4 defines, however the
    message was split into calls of [update]. *)

From S2P Require Import Prelude.

Definition kSha256DigestSize : nat := 32.
Definition kSha256BlockSize : nat := 64.

(** [kRoundConstants], spelled as the source spells them. *)
Definition kRoundConstants : list Z := [
  0x428A2F98; 0x71374491; 0xB5C0FBCF; 0xE9B5DBA5; 0x3956C25B; 0x59F111F1; 0x923F82A4; 0xAB1C5ED5;
  0xD807AA98; 0x12835B01; 0x243185BE; 0x550C7DC3; 0x72BE5D74; 0x80DEB1FE; 0x9BDC06A7; 0xC19BF174;
  0xE49B69C1; 0xEFBE4786; 0x0FC19DC6; 0x240CA1CC; 0x2DE92C6F; 0x4A7484AA; 0x5CB0A9DC; 0x76F988DA;
  0x983E5152; 0xA831C66D; 0xB00327C8; 0xBF597FC7; 0xC6E00BF3; 0xD5A79147; 0x06CA6351; 0x14292967;
  0x27B70A85; 0x2E1B2138; 0x4D2C6DFC; 0x53380D13; 0x650A7354; 0x766A0ABB; 0x81C2C92E; 0x92722C85;
  0xA2BFE8A1; 0xA81A664B; 0xC24B8B70; 0xC76C51A3; 0xD192E819; 0xD6990624; 0xF40E3585; 0x106AA070;
  0x19A4C116; 0x1E376C08; 0x2748774C; 0x34B0BCB5; 0x391C0CB3; 0x4ED8AA4A; 0x5B9CCA4F; 0x682E6FF3;
  0x748F82EE; 0x78A5636F; 0x84C87814; 0x8CC70208; 0x90BEFFFA; 0xA4506CEB; 0xBEF9A3F7; 0xC67178F2
].

(** 32-bit unsigned arithmetic. *)
Definition add32 (a b : Z) : Z := wrap 32 (a + b).
Definition not32 (a : Z) : Z := Z.lxor a 0xffffffff.

(** [rotate_right]. *)
Definition rotate_right (value bits : Z) : Z :=
  Z.lor (Z.shiftr value bits) (wrap 32 (Z.shiftl value (32 - bits))).

(** [array\[i\]] on an array the loop bounds keep the index within. *)
Definition at_ (l : list Z) (i : nat) : Z := nth i l 0.

(** [load_be32] at [from + at]. *)
Definition load_be32 (from : bytes) (i : nat) : Z :=
  Z.lor (Z.lor (Z.lor (Z.shiftl (at_ from i) 24) (Z.shiftl (at_ from (i + 1)) 16))
               (Z.shiftl (at_ from (i + 2)) 8))
        (at_ from (i + 3)).

(** [store_be32]: the four bytes it writes. *)
Definition store_be32 (value : Z) : bytes :=
  [Z.land (Z.shiftr value 24) 255; Z.land (Z.shiftr value 16) 255;
   Z.land (Z.shiftr value 8) 255; Z.land value 255].

(** ** [Sha256::compress] *)

(** The first loop of the message schedule. *)
Definition schedule_words (block : bytes) : list Z :=
  map (fun i => load_be32 block (i * 4)%nat) (seq 0 16).

(** One round of the second loop: entry [i], where [i] entries are filled. *)
Definition schedule_next (schedule : list Z) : list Z :=
  let i := length schedule in
  let w15 := at_ schedule (i - 15) in
  let w2 := at_ schedule (i - 2) in
  let s0 := Z.lxor (Z.lxor (rotate_right w15 7) (rotate_right w15 18)) (Z.shiftr w15 3) in
  let s1 := Z.lxor (Z.lxor (rotate_right w2 17) (rotate_right w2 19)) (Z.shiftr w2 10) in
  schedule ++ [add32 (add32 (add32 (at_ schedule (i - 16)) s0) (at_ schedule (i - 7))) s1].

Definition schedule (block : bytes) : list Z :=
  Nat.iter 48 schedule_next (schedule_words block).

(** The eight working variables. *)
Record working := mkWorking {
  wa : Z; wb : Z; wc : Z; wd : Z; we : Z; wf : Z; wg : Z; wh : Z
}.

(** One round of the main loop. *)
Definition compress_round (schedule : list Z) (w : working) (i : nat) : working :=
  let '(mkWorking a b c d e f g h) := w in
  let sigma1 := Z.lxor (Z.lxor (rotate_right e 6) (rotate_right e 11)) (rotate_right e 25) in
  let choose := Z.lxor (Z.land e f) (Z.land (not32 e) g) in
  let temp1 := add32 (add32 (add32 (add32 h sigma1) choose) (at_ kRoundConstants i))
                     (at_ schedule i) in
  let sigma0 := Z.lxor (Z.lxor (rotate_right a 2) (rotate_right a 13)) (rotate_right a 22) in
  let majority := Z.lxor (Z.lxor (Z.land a b) (Z.land a c)) (Z.land b c) in
  let temp2 := add32 sigma0 majority in
  mkWorking (add32 temp1 temp2) a b c (add32 d temp1) e f g.

Definition compress (state : list Z) (block : bytes) : list Z :=
  let w := foldl (compress_round (schedule block))
             (mkWorking (at_ state 0) (at_ state 1) (at_ state 2) (at_ state 3)
                        (at_ state 4) (at_ state 5) (at_ state 6) (at_ state 7))
             (seq 0 64) in
  [add32 (at_ state 0) (wa w); add32 (at_ state 1) (wb w);
   add32 (at_ state 2) (wc w); add32 (at_ state 3) (wd w);
   add32 (at_ state 4) (we w); add32 (at_ state 5) (wf w);
   add32 (at_ state 6) (wg w); add32 (at_ state 7) (wh w)].

(** ** The hasher *)

(** [image::Sha256]: the chaining state, the bytes absorbed so far, and the
    partial block with its fill count. *)
Record Sha256 := mkSha256 {
  state_ : list Z;
  length_ : Z;
  buffer_ : bytes;
  buffered_ : nat
}.

(** H0..H7. *)
Definition initial_hash : list Z :=
  [0x6A09E667; 0xBB67AE85; 0x3C6EF372; 0xA54FF53A;
   0x510E527F; 0x9B05688C; 0x1F83D9AB; 0x5BE0CD19].

Definition new_sha256 : Sha256 :=
  mkSha256 initial_hash 0 (replicate kSha256BlockSize 0) 0.

(** [std::copy_n] or [std::fill] into the block buffer at [pos]. *)
Definition write_at (buf : bytes) (pos : nat) (data : bytes) : bytes :=
  take pos buf ++ data ++ drop (pos + length data) buf.

(** The block-at-a-time loop of [update]: the state after the whole blocks of
    [data], and what is left of it. *)
Fixpoint compress_blocks (fuel : nat) (state : list Z) (data : bytes) : list Z * bytes :=
  match fuel with
  | O => (state, data)
  | S fuel' =>
      if (kSha256BlockSize <=? length data)%nat
      then compress_blocks fuel' (compress state (take kSha256BlockSize data))
             (drop kSha256BlockSize data)
      else (state, data)
  end.

(** The second half of [update], which starts on a block boundary. *)
Definition update_aligned (s : Sha256) (data : bytes) : Sha256 :=
  let '(st, rest) := compress_blocks (length data) (state_ s) data in
  mkSha256 st (length_ s) (write_at (buffer_ s) 0 rest) (length rest).

(** [Sha256::update]. *)
Definition update (s : Sha256) (data : bytes) : Sha256 :=
  let s := mkSha256 (state_ s) (wrap 64 (length_ s + zlen data)) (buffer_ s) (buffered_ s) in
  if negb (buffered_ s =? 0)%nat then
    let wanted := Nat.min (kSha256BlockSize - buffered_ s) (length data) in
    let buf := write_at (buffer_ s) (buffered_ s) (take wanted data) in
    let n := (buffered_ s + wanted)%nat in
    let data := drop wanted data in
    if (n <? kSha256BlockSize)%nat then mkSha256 (state_ s) (length_ s) buf n
    else update_aligned (mkSha256 (compress (state_ s) buf) (length_ s) buf 0) data
  else update_aligned s data.

(** [Sha256::finish]: the digest. *)
Definition finish (s : Sha256) : bytes :=
  let bit_length := wrap 64 (length_ s * 8) in
  let buf := write_at (buffer_ s) (buffered_ s) [128] in
  let n := S (buffered_ s) in
  let '(st, buf, n) :=
    if (kSha256BlockSize - 8 <? n)%nat then
      let buf := write_at buf n (replicate (kSha256BlockSize - n) 0) in
      (compress (state_ s) buf, buf, O)
    else (state_ s, buf, n) in
  let buf := write_at buf n (replicate (kSha256BlockSize - 8 - n) 0) in
  let buf := write_at buf (kSha256BlockSize - 8) (store_be32 (wrap 32 (Z.shiftr bit_length 32))) in
  let buf := write_at buf (kSha256BlockSize - 4)
               (store_be32 (wrap 32 (Z.land bit_length 0xffffffff))) in
  flat_map store_be32 (compress st buf).

(** ** FIPS 180-4 *)

(** The message length in bits, as a 64-bit big-endian field. *)
Definition be64 (n : Z) : bytes :=
  map (fun i => n / 2 ^ (8 * Z.of_nat i) mod 256) (rev (seq 0 8)).

(** Section 5.1.1: a one bit, zeros up to 56 modulo 64, the length. *)
Definition pad_message (msg : bytes) : bytes :=
  msg ++ [128] ++ replicate (Z.to_nat ((55 - zlen msg) mod 64)) 0 ++ be64 (8 * zlen msg).

(** Section 5.2.1: the 512-bit blocks of the padded message. *)
Definition blocks_of (l : bytes) : list bytes :=
  reshape (replicate (length l / kSha256BlockSize) kSha256BlockSize) l.

(** Section 6.2.2: the chaining value after the last block. *)
Definition sha256_spec (msg : bytes) : bytes :=
  flat_map store_be32 (foldl compress initial_hash (blocks_of (pad_message msg))).

(** The vectors of FIPS 180-4: one block, and two. *)
Example sha256_abc :
  finish (update new_sha256 [97; 98; 99]) =
  [0xba; 0x78; 0x16; 0xbf; 0x8f; 0x01; 0xcf; 0xea; 0x41; 0x41; 0x40; 0xde; 0x5d; 0xae; 0x22; 0x23;
   0xb0; 0x03; 0x61; 0xa3; 0x96; 0x17; 0x7a; 0x9c; 0xb4; 0x10; 0xff; 0x61; 0xf2; 0x00; 0x15; 0xad].
Proof. vm_compute. reflexivity. Qed.

Example sha256_empty :
  finish new_sha256 =
  [0xe3; 0xb0; 0xc4; 0x42; 0x98; 0xfc; 0x1c; 0x14; 0x9a; 0xfb; 0xf4; 0xc8; 0x99; 0x6f; 0xb9; 0x24;
   0x27; 0xae; 0x41; 0xe4; 0x64; 0x9b; 0x93; 0x4c; 0xa4; 0x95; 0x99; 0x1b; 0x78; 0x52; 0xb8; 0x55].
Proof. vm_compute. reflexivity. Qed.

(** ** Proofs *)

Lemma write_at_length buf pos data :
  (pos + length data <= length buf)%nat -> length (write_at buf pos data) = length buf.
Proof. intros. unfold write_at. rewrite !length_app, length_take, length_drop. lia. Qed.

Lemma write_at_take buf pos data n :
  (pos <= length buf)%nat -> n = (pos + length data)%nat ->
  take n (write_at buf pos data) = take pos buf ++ data.
Proof.
  intros Hp ->. unfold write_at. rewrite app_assoc.
  apply take_app_length'. rewrite length_app, length_take. lia.
Qed.

(** A write that reaches the end of the buffer decides the buffer. *)
Lemma write_at_end buf pos data :
  (pos + length data = length buf)%nat -> write_at buf pos data = take pos buf ++ data.
Proof. intros H. unfold write_at. rewrite (drop_ge buf), app_nil_r by lia. done. Qed.

Lemma blocks_of_concat bs :
  Forall (fun b => length b = kSha256BlockSize) bs -> blocks_of (concat bs) = bs.
Proof.
  unfold blocks_of. intros H.
  assert (length (concat bs) = length bs * kSha256BlockSize)%nat as ->.
  { induction H as [|b bs Hb _ IH]; [done|]. cbn [concat length].
    rewrite length_app, Hb, IH. lia. }
  rewrite Nat.div_mul by done. induction H as [|b bs Hb _ IH]; [done|].
  cbn [concat length replicate reshape]. by rewrite take_app_length', drop_app_length', IH by done.
Qed.

(** What a hasher that has absorbed [msg] holds: the whole blocks are folded
    into the state, the remainder is in the buffer. *)
Record absorbed (s : Sha256) (msg : bytes) : Prop := mkAbsorbed {
  ab_length : length_ s = wrap 64 (zlen msg);
  ab_buffer : length (buffer_ s) = kSha256BlockSize;
  ab_partial : (buffered_ s < kSha256BlockSize)%nat;
  ab_blocks : exists bs,
      Forall (fun b => length b = kSha256BlockSize) bs /\
      msg = concat bs ++ take (buffered_ s) (buffer_ s) /\
      state_ s = foldl compress initial_hash bs
}.

Lemma absorbed_new : absorbed new_sha256 [].
Proof.
  split; [done|done|unfold kSha256BlockSize; simpl; lia|].
  exists []. done.
Qed.

Lemma compress_blocks_spec fuel st data :
  (length data <= fuel)%nat ->
  exists bs rest, compress_blocks fuel st data = (foldl compress st bs, rest) /\
    data = concat bs ++ rest /\ Forall (fun b => length b = kSha256BlockSize) bs /\
    (length rest < kSha256BlockSize)%nat.
Proof.
  revert st data. induction fuel as [|fuel IH]; intros st data Hf; cbn [compress_blocks].
  { exists [], data. unfold kSha256BlockSize. split_and!; [done..|lia]. }
  destruct (kSha256BlockSize <=? length data)%nat eqn:E.
  - apply Nat.leb_le in E.
    destruct (IH (compress st (take kSha256BlockSize data)) (drop kSha256BlockSize data))
      as (bs & rest & -> & Hd & Hbs & Hr).
    { rewrite length_drop. unfold kSha256BlockSize in *. lia. }
    exists (take kSha256BlockSize data :: bs), rest. repeat split; [| |done].
    + cbn [concat]. rewrite <- app_assoc, <- Hd. by rewrite take_drop.
    + constructor; [rewrite length_take; lia|done].
  - apply Nat.leb_gt in E. exists [], data. done.
Qed.

(** The aligned half keeps the relation: its state has folded the blocks of
    [msg] so far, and nothing is buffered. *)
Lemma update_aligned_absorbed s bs data :
  length (buffer_ s) = kSha256BlockSize ->
  Forall (fun b => length b = kSha256BlockSize) bs ->
  state_ s = foldl compress initial_hash bs ->
  length_ s = wrap 64 (zlen (concat bs ++ data)) ->
  absorbed (update_aligned s data) (concat bs ++ data).
Proof.
  intros Hb Hbs Hst Hlen. unfold update_aligned.
  destruct (compress_blocks_spec (length data) (state_ s) data) as (bs' & rest & -> & -> & Hbs' & Hr);
    [done|].
  split; cbn [length_ buffer_ buffered_ state_]; [done|by rewrite write_at_length by lia|done|].
  exists (bs ++ bs'). rewrite Forall_app, concat_app, foldl_app, Hst. repeat split; [done|done|].
  rewrite <- app_assoc, write_at_take by lia. done.
Qed.

Lemma update_absorbed s msg data :
  absorbed s msg -> absorbed (update s data) (msg ++ data).
Proof.
  intros [Hlen Hbuf Hpart (bs & Hbs & -> & Hst)]. unfold update.
  assert (wrap 64 (length_ s + zlen data)
          = wrap 64 (zlen ((concat bs ++ take (buffered_ s) (buffer_ s)) ++ data))) as Hlen'.
  { rewrite Hlen. unfold wrap. rewrite Zplus_mod_idemp_l. f_equal.
    rewrite !length_app. lia. }
  cbn [length_ buffer_ buffered_ state_]. rewrite Hlen'.
  destruct (buffered_ s =? 0)%nat eqn:E; cbn [negb].
  { apply Nat.eqb_eq in E. rewrite E in *. rewrite take_0, app_nil_r in *.
    by apply update_aligned_absorbed. }
  apply Nat.eqb_neq in E.
  set (k := Nat.min (kSha256BlockSize - buffered_ s) (length data)).
  assert (length (take k data) = k) as Hk by (rewrite length_take; lia).
  destruct (_ <? _)%nat eqn:E2; [apply Nat.ltb_lt in E2|apply Nat.ltb_ge in E2].
  - assert (take k data = data) as Hall by (apply take_ge; lia). rewrite Hall in *.
    split; cbn [length_ buffer_ buffered_ state_]; [done|by rewrite write_at_length by lia|done|].
    exists bs. split_and!; [done| |done].
    rewrite write_at_take by lia. by rewrite app_assoc.
  - rewrite write_at_end by lia.
    set (b := take (buffered_ s) (buffer_ s) ++ take k data).
    assert (length b = kSha256BlockSize) as Hb.
    { unfold b. rewrite length_app, Hk, length_take. lia. }
    replace ((concat bs ++ take (buffered_ s) (buffer_ s)) ++ data)
      with (concat (bs ++ [b]) ++ drop k data).
    + apply update_aligned_absorbed; cbn [length_ buffer_ state_]; [done| | |done].
      * apply Forall_app. split; [done|]. by constructor.
      * by rewrite foldl_snoc, Hst.
    + unfold b. rewrite concat_app. cbn [concat]. rewrite app_nil_r, <- !app_assoc.
      by rewrite take_drop.
Qed.

Lemma foldl_update_absorbed chunks s msg :
  absorbed s msg -> absorbed (foldl update s chunks) (msg ++ concat chunks).
Proof.
  revert s msg. induction chunks as [|c chunks IH]; intros s msg H; simpl; [by rewrite app_nil_r|].
  rewrite app_assoc. by apply IH, update_absorbed.
Qed.

(** Byte [j / 8] of a word kept at width [w]. *)
Lemma byte_of_wrap w x j :
  0 <= j -> j + 8 <= w -> Z.land (Z.shiftr (wrap w x) j) 255 = x / 2 ^ j mod 256.
Proof.
  intros Hj Hw. change 255 with (Z.ones 8). change 256 with (2 ^ 8).
  rewrite <- Z.shiftr_div_pow2 by done. unfold wrap. apply Z.bits_inj'. intros i Hi.
  rewrite Z.land_spec, Z.shiftr_spec by done.
  destruct (decide (i < 8)).
  - rewrite Z.ones_spec_low, andb_true_r, !Z.mod_pow2_bits_low, Z.shiftr_spec by lia. done.
  - rewrite Z.ones_spec_high, andb_false_r, Z.mod_pow2_bits_high by lia. done.
Qed.

Lemma store_be32_wrap x :
  store_be32 (wrap 32 x) = map (fun j => x / 2 ^ j mod 256) [24; 16; 8; 0].
Proof.
  unfold store_be32. cbn [map]. rewrite <- (Z.shiftr_0_r (wrap 32 x)) at 4.
  by rewrite !byte_of_wrap by lia.
Qed.

(** The length field the two stores write. *)
Lemma length_field n :
  store_be32 (wrap 32 (Z.shiftr (wrap 64 (wrap 64 n * 8)) 32))
  ++ store_be32 (wrap 32 (Z.land (wrap 64 (wrap 64 n * 8)) 0xffffffff)) = be64 (8 * n).
Proof.
  assert (wrap 64 (wrap 64 n * 8) = wrap 64 (8 * n)) as ->.
  { unfold wrap. rewrite Zmult_mod_idemp_l. f_equal. lia. }
  change 0xffffffff with (Z.ones 32). rewrite Z.land_ones by lia. fold (wrap 32 (wrap 64 (8 * n))).
  rewrite !store_be32_wrap. unfold be64. cbn [rev seq app map Z.of_nat].
  assert (forall j, 0 <= j -> j + 8 <= 64 ->
            (wrap 64 (8 * n)) / 2 ^ j mod 256 = 8 * n / 2 ^ j mod 256) as Hb.
  { intros j Hj Hj'. rewrite <- (byte_of_wrap 64 (8 * n)) by done.
    rewrite <- (byte_of_wrap 64 (wrap 64 (8 * n))) by done.
    by rewrite (wrap_fits 64 (wrap 64 _)) by (by apply fits_wrap). }
  assert (forall j, 0 <= j -> j + 8 <= 32 ->
            wrap 32 (wrap 64 (8 * n)) / 2 ^ j mod 256 = 8 * n / 2 ^ j mod 256) as Hb'.
  { intros j Hj Hj'. rewrite <- Hb by lia. rewrite <- (byte_of_wrap 32 (wrap 64 (8 * n))) by done.
    rewrite <- (byte_of_wrap 32 (wrap 32 _)) by done.
    by rewrite (wrap_fits 32 (wrap 32 _)) by (by apply fits_wrap). }
  assert (forall j, 0 <= j -> j + 8 <= 32 ->
            Z.shiftr (wrap 64 (8 * n)) 32 / 2 ^ j mod 256 = 8 * n / 2 ^ (32 + j) mod 256) as Hs.
  { intros j Hj Hj'. rewrite Z.shiftr_div_pow2, Z.div_div, <- Z.pow_add_r by lia. apply Hb; lia. }
  rewrite !Hs, !Hb' by lia. reflexivity.
Qed.

(** The last block: what is in the buffer up to [n], zeros, the length. *)
Lemma last_block buf n hi lo :
  length buf = kSha256BlockSize -> (n <= kSha256BlockSize - 8)%nat ->
  length hi = 4%nat -> length lo = 4%nat ->
  write_at (write_at (write_at buf n (replicate (kSha256BlockSize - 8 - n) 0))
              (kSha256BlockSize - 8) hi) (kSha256BlockSize - 4) lo
  = take n buf ++ replicate (kSha256BlockSize - 8 - n) 0 ++ hi ++ lo.
Proof.
  unfold kSha256BlockSize. intros Hb Hn Hhi Hlo.
  assert (length (write_at buf n (replicate (64 - 8 - n) 0)) = 64%nat) as H1
    by (rewrite write_at_length; rewrite ?length_replicate; lia).
  rewrite write_at_end; [|rewrite write_at_length; lia].
  rewrite write_at_take by lia. rewrite write_at_take; [|lia|rewrite length_replicate; lia].
  by rewrite <- !app_assoc.
Qed.

(** Padding from a block boundary depends on the remainder only. *)
Lemma pad_zeros bs (rest : bytes) :
  Forall (fun b => length b = kSha256BlockSize) bs -> (length rest < kSha256BlockSize)%nat ->
  Z.to_nat ((55 - zlen (concat bs ++ rest)) mod 64) =
  (if (kSha256BlockSize - 8 <? S (length rest))%nat then 119 - length rest else 55 - length rest)%nat.
Proof.
  intros Hbs Hr.
  assert (exists q, length (concat bs) = (q * 64)%nat) as [q Hq].
  { exists (length bs). induction Hbs as [|b bs Hb _ IH]; [done|]. cbn [concat length].
    rewrite length_app, Hb, IH. unfold kSha256BlockSize. lia. }
  rewrite length_app, Hq. unfold kSha256BlockSize in *.
  destruct (_ <? _)%nat eqn:E; [apply Nat.ltb_lt in E|apply Nat.ltb_ge in E].
  - replace (55 - _) with (119 - zlen rest + (- Z.of_nat q - 1) * 64) by lia.
    rewrite Z_mod_plus_full, Z.mod_small by lia. lia.
  - replace (55 - _) with (55 - zlen rest + (- Z.of_nat q) * 64) by lia.
    rewrite Z_mod_plus_full, Z.mod_small by lia. lia.
Qed.

Lemma finish_absorbed s msg : absorbed s msg -> finish s = sha256_spec msg.
Proof.
  intros [Hlen Hbuf Hpart (bs & Hbs & Hmsg & Hst)]. unfold finish, sha256_spec. rewrite Hlen.
  set (rest := take (buffered_ s) (buffer_ s)) in *.
  assert (length rest = buffered_ s) as Hrest by (unfold rest; rewrite length_take; lia).
  assert (take (S (buffered_ s)) (write_at (buffer_ s) (buffered_ s) [128]) = rest ++ [128]) as Ht
    by (apply write_at_take; simpl; lia).
  assert (length (write_at (buffer_ s) (buffered_ s) [128]) = kSha256BlockSize) as Hl
    by (rewrite write_at_length; simpl; lia).
  unfold pad_message. rewrite Hmsg, pad_zeros, <- length_field, <- Hmsg by (done || lia). rewrite Hrest.
  destruct (_ <? _)%nat eqn:E; [apply Nat.ltb_lt in E|apply Nat.ltb_ge in E].
  - rewrite last_block; [|rewrite write_at_length; rewrite ?length_replicate; lia|unfold kSha256BlockSize; lia|done..].
    rewrite write_at_end by (rewrite length_replicate; lia). rewrite Ht.
    set (b1 := (rest ++ [128]) ++ replicate (kSha256BlockSize - S (buffered_ s)) 0).
    set (L1 := store_be32 _). set (L2 := store_be32 _).
    replace (msg ++ _) with (concat (bs ++ [b1; take 0 b1 ++ replicate (kSha256BlockSize - 8 - 0) 0 ++ L1 ++ L2])).
    + rewrite blocks_of_concat, foldl_app, <- Hst; [done|]. apply Forall_app. split; [done|].
      repeat constructor; unfold b1; rewrite !length_app, !length_replicate; unfold kSha256BlockSize in *; simpl; lia.
    + rewrite concat_app. cbn [concat]. rewrite Hmsg, app_nil_r. unfold b1. rewrite take_0.
      replace (119 - buffered_ s)%nat with (kSha256BlockSize - S (buffered_ s) + (kSha256BlockSize - 8 - 0))%nat
        by (unfold kSha256BlockSize in *; lia).
      by rewrite replicate_add, <- !app_assoc.
  - rewrite last_block; [|lia|lia|done..]. rewrite Ht.
    set (L1 := store_be32 _). set (L2 := store_be32 _).
    replace (msg ++ _) with (concat (bs ++ [(rest ++ [128]) ++ replicate (kSha256BlockSize - 8 - S (buffered_ s)) 0 ++ L1 ++ L2])).
    + rewrite blocks_of_concat, foldl_app, <- Hst; [done|]. apply Forall_app. split; [done|].
      repeat constructor; rewrite !length_app, !length_replicate; unfold kSha256BlockSize in *; simpl; lia.
    + rewrite concat_app. cbn [concat]. rewrite Hmsg, app_nil_r. 
      replace (55 - buffered_ s)%nat with (kSha256BlockSize - 8 - S (buffered_ s))%nat
        by (unfold kSha256BlockSize in *; lia).
      by rewrite <- !app_assoc.
Qed.

Lemma sha256_spec_shape msg :
  length (sha256_spec msg) = kSha256DigestSize /\ byte_list (sha256_spec msg).
Proof.
  unfold sha256_spec.
  assert (length (foldl compress initial_hash (blocks_of (pad_message msg))) = 8%nat) as Hlen.
  { destruct (blocks_of (pad_message msg)) as [|b bs _] using rev_ind; [done|]. by rewrite foldl_snoc. }
  revert Hlen. generalize (foldl compress initial_hash (blocks_of (pad_message msg))). intros ws Hlen.
  split.
  - do 9 (destruct ws as [|? ws]; try done).
  - apply Forall_flat_map, Forall_forall. intros w _. unfold store_be32.
    repeat constructor; unfold fits; rewrite land_255; apply Z.mod_pos_bound; lia.
Qed.

