(* ===== verification/McubootImage.v ===== *)
(** * The image file

    What the library reads out of a firmware file before it sends it:
    [src/image/source_reader.hpp], [src/image/mcuboot_header.cpp],
    [src/image/tlv.cpp] and [src/image/image_source.cpp]. The file is behind
    the application's [ImageSource]; its documented contract is the class
    [ReadsFile], which [MemoryImageSource] satisfies. *)

From S2P Require Import Prelude Errors ImageValues Sha256.

(** ** [ImageSource] *)

(** [read] is given the contents of [out] and answers the count it returns and
    the contents of [out] after the call. *)
Record ImageSource := mkSource {
  src_size : Z;
  src_read : Z -> bytes -> Result (nat * bytes)
}.

(** The contract: [size] is the length of the file, a read delivers all that
    was asked for unless it reaches the end of the file. *)
Class ReadsFile (source : ImageSource) (file : bytes) : Prop := {
  reads_size : src_size source = zlen file;
  reads_at : forall offset out, 0 <= offset ->
    let n := Nat.min (length out) (length file - Z.to_nat offset) in
    src_read source offset out =
      Success (n, take n (drop (Z.to_nat offset) file) ++ drop n out)
}.

(** [MemoryImageSource]. *)
Definition MemoryImageSource (file : bytes) : ImageSource :=
  mkSource (zlen file)
    (fun offset out =>
       if zlen file <=? offset then Success (O, out)
       else
         let available := (length file - Z.to_nat offset)%nat in
         let wanted := Nat.min available (length out) in
         Success (wanted, take wanted (drop (Z.to_nat offset) file) ++ drop wanted out)).

#[global] Instance MemoryImageSource_reads file : ReadsFile (MemoryImageSource file) file.
Proof.
  split; [done|]. intros offset out Hoff. cbn [src_read MemoryImageSource].
  destruct (zlen file <=? offset) eqn:E; bool_to_prop.
  - replace (Nat.min _ _) with O by lia. done.
  - by rewrite Nat.min_comm.
Qed.

(** [image::read_exact]: the filled buffer. *)
Definition read_exact (source : ImageSource) (offset : Z) (out : bytes) : Result bytes :=
  if (src_size source <? offset) || (src_size source - offset <? zlen out)
  then fail MalformedMessage "image: read past the end of the image"
  else
    let? (n, out') := src_read source offset out in
    if negb (n =? length out)%nat then fail InvalidArgument "image: source returned a short read"
    else Success out'.

(** [image::load_le16] and [image::load_le32]. *)
Definition load_le16 (from : bytes) (i : nat) : Z :=
  wrap 16 (Z.lor (at_ from i) (wrap 16 (Z.shiftl (at_ from (i + 1)) 8))).

Definition load_le32 (from : bytes) (i : nat) : Z :=
  Z.lor (Z.lor (Z.lor (at_ from i) (wrap 32 (Z.shiftl (at_ from (i + 1)) 8)))
               (wrap 32 (Z.shiftl (at_ from (i + 2)) 16)))
        (wrap 32 (Z.shiftl (at_ from (i + 3)) 24)).

(** ** [parse_mcuboot_header] *)

Definition kMcubootImageMagic : Z := 0x96f3b83d.
Definition kMcubootImageMagicV1 : Z := 0x96f3b83c.
Definition kMcubootHeaderSize : nat := 32.
Definition kMaxImageSize : Z := 16 * 1024 * 1024.

Definition kOffsetMagic : nat := 0.
Definition kOffsetHeaderSize : nat := 8.
Definition kOffsetProtectTlvSize : nat := 10.
Definition kOffsetImageSize : nat := 12.
Definition kOffsetFlags : nat := 16.
Definition kOffsetVersionMajor : nat := 20.
Definition kOffsetVersionMinor : nat := 21.
Definition kOffsetVersionRevision : nat := 22.
Definition kOffsetVersionBuild : nat := 24.

Definition kFlagEncrypted : Z := Z.lor 4 8.

(** [McubootImageInfo]. *)
Record McubootImageInfo := mkInfo {
  header_size : Z;
  image_size : Z;
  protected_tlv_size : Z;
  flags : Z;
  version : ImageVersion;
  encrypted : bool
}.

Definition parse_mcuboot_header (b : bytes) : Result McubootImageInfo :=
  if (length b <? kMcubootHeaderSize)%nat
  then fail InvalidArgument "image: header shorter than 32 bytes"
  else
    let magic := load_le32 b kOffsetMagic in
    if negb (magic =? kMcubootImageMagic) then
      if magic =? kMcubootImageMagicV1
      then fail InvalidArgument "image: MCUboot v1 image format, too old"
      else fail InvalidArgument "image: not an MCUboot image (wrong magic; unsigned binary?)"
    else
      let fl := load_le32 b kOffsetFlags in
      let info :=
        mkInfo (load_le16 b kOffsetHeaderSize)
          (load_le32 b kOffsetImageSize)
          (load_le16 b kOffsetProtectTlvSize)
          fl
          (mkVersion (at_ b kOffsetVersionMajor) (at_ b kOffsetVersionMinor)
             (load_le16 b kOffsetVersionRevision) (load_le32 b kOffsetVersionBuild))
          (negb (Z.land fl kFlagEncrypted =? 0)) in
      if header_size info <? Z.of_nat kMcubootHeaderSize
      then fail InvalidArgument "image: header size below 32 bytes"
      else if kMaxImageSize <? wrap 64 (header_size info + image_size info)
      then fail InvalidArgument "image: declared size implausibly large"
      else Success info.

(** ** [find_image_tlv_hash] *)

Definition kTlvInfoMagic : Z := 0x6907.
Definition kTlvProtInfoMagic : Z := 0x6908.
Definition kTlvHeaderSize : Z := 4.
Definition kMaxImageTlvs : nat := 256.

(** [kHashTlvs] and [hash_tlv_for]: the digest length a hash TLV of this type
    must carry, [None] for any other type. *)
Definition kHashTlvs : list (Z * Z) := [(0x10, 32); (0x11, 48); (0x12, 64)].

Definition hash_tlv_for (type : Z) : option Z :=
  match filter (fun candidate => candidate.1 = type) kHashTlvs with
  | (_, len) :: _ => Some len
  | [] => None
  end.

Definition malformed {A} (what : string) : Result A := fail MalformedMessage what.

(** [TlvAreaHeader]. *)
Record TlvAreaHeader := mkArea {
  a_magic : Z;
  a_total : Z
}.

(** [std::array<std::byte, kTlvHeaderSize> raw{}]. *)
Definition raw4 : bytes := replicate (Z.to_nat kTlvHeaderSize) 0.

Definition read_area_header (source : ImageSource) (offset : Z) : Result TlvAreaHeader :=
  let? raw := read_exact source offset raw4 in
  Success (mkArea (load_le16 raw 0) (load_le16 raw 2)).

(** [TlvLayout]. *)
Record TlvLayout := mkLayout {
  l_first : Z;
  l_protected_end : Z;
  l_end : Z
}.

(** The magics and sizes of the area headers: the size of the unprotected
    area. *)
Definition resolve_areas (source : ImageSource) (info : McubootImageInfo) (base : Z)
  (first : TlvAreaHeader) : Result Z :=
  if a_magic first =? kTlvProtInfoMagic then
    if negb (protected_tlv_size info =? a_total first)
    then malformed "image: protected TLV size disagrees with the header"
    else if a_total first <? kTlvHeaderSize
    then malformed "image: protected TLV area smaller than its own header"
    else
      let? second := read_area_header source (wrap 64 (base + a_total first)) in
      if negb (a_magic second =? kTlvInfoMagic)
      then malformed "image: no unprotected TLV area after the protected one"
      else Success (a_total second)
  else
    if negb (protected_tlv_size info =? 0)
    then malformed "image: protected TLV size set but no protected area"
    else if negb (a_magic first =? kTlvInfoMagic)
    then malformed "image: no TLV area after the image body"
    else Success (a_total first).

(** [resolve_layout]. *)
Definition resolve_layout (source : ImageSource) (info : McubootImageInfo) : Result TlvLayout :=
  let base := wrap 64 (header_size info + image_size info) in
  let? first := read_area_header source base in
  let? unprotected_total := resolve_areas source info base first in
  if unprotected_total <? kTlvHeaderSize
  then malformed "image: TLV area smaller than its own header"
  else
    let protected_end := wrap 64 (base + protected_tlv_size info) in
    let end_ := wrap 64 (protected_end + unprotected_total) in
    if src_size source <? end_
    then malformed "image: TLV area extends past the end of the image"
    else Success (mkLayout (wrap 64 (base + kTlvHeaderSize)) protected_end end_).

(** The hash branch of the scan: the value of [found] after an entry. *)
Definition take_hash (source : ImageSource) (offset type len : Z) (found : option ImageHash)
  : Result (option ImageHash) :=
  match hash_tlv_for type with
  | None => Success found
  | Some expected =>
      if negb (len =? expected)
      then malformed "image: hash TLV has the wrong length for its type"
      else if bool_decide (is_Some found)
      then malformed "image: more than one hash TLV"
      else
        let? digest := read_exact source (wrap 64 (offset + kTlvHeaderSize))
                         (replicate (Z.to_nat len) 0) in
        let? hash := ImageHash_from digest in
        Success (Some hash)
  end.

(** The variables of the scan. *)
Record scan_state := mkScan {
  sc_found : option ImageHash;
  sc_offset : Z;
  sc_visited : nat
}.

(** One entry: the new [found] and the entry's length. *)
Definition scan_entry (source : ImageSource) (layout : TlvLayout) (s : scan_state)
  : Result (option ImageHash * Z) :=
  let offset := sc_offset s in
  if l_end layout - offset <? kTlvHeaderSize
  then malformed "image: TLV entry header overruns the TLV area"
  else
    let? raw := read_exact source offset raw4 in
    let type := load_le16 raw 0 in
    let len := load_le16 raw 2 in
    if l_end layout - offset - kTlvHeaderSize <? len
    then malformed "image: TLV entry overruns the TLV area"
    else
      let? found := take_hash source offset type len (sc_found s) in
      Success (found, len).

(** The body of the loop. *)
Definition scan_body (source : ImageSource) (info : McubootImageInfo) (layout : TlvLayout)
  (s : scan_state) : loop scan_state (Result (option ImageHash)) :=
  if l_end layout <=? sc_offset s then Return (Success (sc_found s))
  else if (sc_visited s =? kMaxImageTlvs)%nat
  then Return (malformed "image: too many TLV entries")
  else
    let visited := S (sc_visited s) in
    if negb (protected_tlv_size info =? 0) && (sc_offset s =? l_protected_end layout)
    then Continue (mkScan (sc_found s) (wrap 64 (sc_offset s + kTlvHeaderSize)) visited)
    else
      match scan_entry source layout s with
      | Fail e => Return (Fail e)
      | Success (found, len) =>
          Continue (mkScan found (wrap 64 (sc_offset s + (kTlvHeaderSize + len))) visited)
      end.

(** The scan visits at most [kMaxImageTlvs] entries, then looks once more. *)
Definition scan_fuel : nat := kMaxImageTlvs + 2.

Definition find_image_tlv_hash (source : ImageSource) (info : McubootImageInfo)
  : option (Result (option ImageHash)) :=
  if encrypted info then Some (Success None)
  else
    match resolve_layout source info with
    | Fail e => Some (Fail e)
    | Success layout =>
        iterate (scan_body source info layout) scan_fuel (mkScan None (l_first layout) 0)
    end.

(** ** [smply::sha256] *)

Definition kStreamChunk : nat := 4096.

(** The variables of the loop: the offset, the hasher, the chunk buffer. *)
Record hash_state := mkHashState {
  hs_offset : Z;
  hs_hasher : Sha256;
  hs_buffer : bytes
}.

Definition hash_body (source : ImageSource) (total : Z) (s : hash_state)
  : loop hash_state (Result bytes) :=
  if total <=? hs_offset s then Return (Success (finish (hs_hasher s)))
  else
    let remaining := total - hs_offset s in
    let wanted := if remaining <? zlen (hs_buffer s) then Z.to_nat remaining
                  else length (hs_buffer s) in
    match src_read source (hs_offset s) (take wanted (hs_buffer s)) with
    | Fail e => Return (Fail e)
    | Success (n, out) =>
        if negb (n =? wanted)%nat
        then Return (fail InvalidArgument "image: source returned a short read")
        else Continue (mkHashState (wrap 64 (hs_offset s + Z.of_nat wanted))
                         (update (hs_hasher s) out)
                         (out ++ drop wanted (hs_buffer s)))
    end.

(** One round for every chunk, and the last look at the offset. *)
Definition hash_fuel (total : Z) : nat := Z.to_nat (total / Z.of_nat kStreamChunk) + 2.

Definition sha256 (source : ImageSource) : option (Result bytes) :=
  let total := src_size source in
  iterate (hash_body source total) (hash_fuel total)
    (mkHashState 0 new_sha256 (replicate kStreamChunk 0)).

(** ** Little-endian fields *)

Lemma wrap_shiftl w b k : u8 b -> 0 <= k -> k + 8 <= w -> wrap w (Z.shiftl b k) = Z.shiftl b k.
Proof.
  intros Hb Hk Hw. apply wrap_fits. unfold fits in *. rewrite Z.shiftl_mul_pow2 by done.
  assert (0 < 2 ^ k) by (apply Z.pow_pos_nonneg; lia).
  split; [nia|]. apply Z.lt_le_trans with (2 ^ 8 * 2 ^ k); [nia|].
  rewrite <- Z.pow_add_r by lia. apply Z.pow_le_mono_r; lia.
Qed.

Lemma load_le16_value a b :
  u8 a -> u8 b -> load_le16 [a; b] 0 = a + 256 * b /\ u16 (a + 256 * b).
Proof.
  intros Ha Hb. assert (u16 (a + 256 * b)) as Hf by (unfold fits in *; lia). split; [|done].
  unfold load_le16. cbn. rewrite wrap_shiftl, Z.lor_comm, lor_shiftl_add by (unfold fits in *; lia || done).
  rewrite <- (wrap_fits 16 (a + 256 * b)) at 1 by done. f_equal. lia.
Qed.

Lemma load_le32_value a b c d :
  u8 a -> u8 b -> u8 c -> u8 d ->
  load_le32 [a; b; c; d] 0 = a + 2 ^ 8 * b + 2 ^ 16 * c + 2 ^ 24 * d /\
  u32 (a + 2 ^ 8 * b + 2 ^ 16 * c + 2 ^ 24 * d).
Proof.
  intros Ha Hb Hc Hd.
  assert (u32 (a + 2 ^ 8 * b + 2 ^ 16 * c + 2 ^ 24 * d)) as Hf by (unfold fits in *; lia).
  split; [|done]. unfold load_le32. cbn [at_ nth Nat.add].
  rewrite !wrap_shiftl by (done || lia).
  rewrite (Z.lor_comm a), lor_shiftl_add by (unfold fits in *; lia).
  rewrite (Z.lor_comm _ (Z.shiftl c _)), lor_shiftl_add by (unfold fits in *; lia).
  rewrite (Z.lor_comm _ (Z.shiftl d _)), lor_shiftl_add by (unfold fits in *; lia). lia.
Qed.

(** The fields as MCUboot stores them. *)
Definition le16 (v : Z) : bytes := [v mod 256; v / 256].
Definition le32 (v : Z) : bytes :=
  [v mod 2 ^ 8; v / 2 ^ 8 mod 2 ^ 8; v / 2 ^ 16 mod 2 ^ 8; v / 2 ^ 24].

Lemma le16_bytes v : u16 v -> byte_list (le16 v).
Proof.
  intros Hv. unfold le16. pose proof (Z.mod_pos_bound v 256 ltac:(lia)).
  pose proof (byte_div v Hv). repeat constructor; [lia|lia|apply H0..].
Qed.

Lemma le16_div_mod v : v = v mod 256 + 256 * (v / 256).
Proof. pose proof (Z.div_mod v 256). lia. Qed.

Lemma le32_div_mod v :
  v = v mod 2 ^ 8 + 2 ^ 8 * (v / 2 ^ 8 mod 2 ^ 8) + 2 ^ 16 * (v / 2 ^ 16 mod 2 ^ 8)
      + 2 ^ 24 * (v / 2 ^ 24).
Proof.
  pose proof (Z.div_mod v (2 ^ 8) ltac:(lia)).
  pose proof (Z.div_mod (v / 2 ^ 8) (2 ^ 8) ltac:(lia)) as H1.
  pose proof (Z.div_mod (v / 2 ^ 16) (2 ^ 8) ltac:(lia)) as H2.
  rewrite Z.div_div in H1, H2 by lia. change (2 ^ 8 * 2 ^ 8) with (2 ^ 16) in H1.
  change (2 ^ 16 * 2 ^ 8) with (2 ^ 24) in H2. lia.
Qed.

Lemma le32_bytes v : u32 v -> byte_list (le32 v).
Proof.
  intros Hv. unfold le32.
  assert (u8 (v / 2 ^ 24)).
  { unfold fits in *. split; [apply Z.div_pos; lia|apply Z.div_lt_upper_bound; lia]. }
  repeat (constructor; [by apply Z.mod_pos_bound || done|]). constructor.
Qed.

(** A field read at [i] is read from the bytes there. *)
Lemma at_drop l i k : at_ l (i + k) = at_ (drop i l) k.
Proof.
  unfold at_. revert i. induction l as [|x l IH]; intros [|i]; cbn [drop Nat.add nth]; try done.
  - by destruct k.
Qed.

Lemma load_le16_at l i a b rest :
  drop i l = a :: b :: rest -> load_le16 l i = load_le16 [a; b] 0.
Proof.
  intros H. unfold load_le16. rewrite <- (Nat.add_0_r i) at 1. rewrite !at_drop, H. done.
Qed.

Lemma load_le32_at l i a b c d rest :
  drop i l = a :: b :: c :: d :: rest -> load_le32 l i = load_le32 [a; b; c; d] 0.
Proof.
  intros H. unfold load_le32. rewrite <- (Nat.add_0_r i) at 1. rewrite !at_drop, H. done.
Qed.

Lemma load_le16_le16 l i v rest :
  u16 v -> drop i l = le16 v ++ rest -> load_le16 l i = v.
Proof.
  intros Hv H. pose proof (le16_bytes v Hv) as Hb. apply Forall_cons in Hb as [Ha Hb].
  apply Forall_cons in Hb as [Hb _]. rewrite (load_le16_at _ _ _ _ _ H).
  rewrite (proj1 (load_le16_value _ _ Ha Hb)). symmetry. apply le16_div_mod.
Qed.

Lemma load_le32_le32 l i v rest :
  u32 v -> drop i l = le32 v ++ rest -> load_le32 l i = v.
Proof.
  intros Hv H. pose proof (le32_bytes v Hv) as Hb.
  apply Forall_cons in Hb as [Ha Hb]. apply Forall_cons in Hb as [Hb Hc].
  apply Forall_cons in Hc as [Hc Hd]. apply Forall_cons in Hd as [Hd _].
  rewrite (load_le32_at _ _ _ _ _ _ _ H).
  rewrite (proj1 (load_le32_value _ _ _ _ Ha Hb Hc Hd)).
  symmetry. apply le32_div_mod.
Qed.

(** And the other way round: the bytes a field was read from are its encoding. *)
Lemma le16_of_bytes a b : u8 a -> u8 b -> le16 (a + 256 * b) = [a; b].
Proof.
  intros Ha Hb. unfold fits in *. unfold le16.
  rewrite Z.mul_comm, Z_mod_plus_full, Z.mod_small, Z.div_add, Z.div_small by lia. done.
Qed.

Lemma le32_of_bytes a b c d :
  u8 a -> u8 b -> u8 c -> u8 d -> le32 (a + 2 ^ 8 * b + 2 ^ 16 * c + 2 ^ 24 * d) = [a; b; c; d].
Proof.
  intros Ha Hb Hc Hd. unfold fits in *. unfold le32.
  replace (a + 2 ^ 8 * b + 2 ^ 16 * c + 2 ^ 24 * d) with (a + (b + (c + d * 2 ^ 8) * 2 ^ 8) * 2 ^ 8) by lia.
  change (2 ^ 16) with (2 ^ 8 * 2 ^ 8). change (2 ^ 24) with (2 ^ 8 * (2 ^ 8 * 2 ^ 8)).
  rewrite <- !Z.div_div by lia.
  repeat rewrite ?Z_mod_plus_full, ?Z.div_add, ?(Z.div_small a), ?(Z.div_small b),
    ?(Z.div_small c), ?Z.add_0_l, ?(Z.mod_small a), ?(Z.mod_small b), ?(Z.mod_small c) by lia.
  done.
Qed.

(** ** The header *)

(** The 32 bytes of [struct image_header]: [load] is [ih_load_addr] and [pad]
    the trailing word, neither of which the library reads. *)
Definition header_layout (info : McubootImageInfo) (load pad : Z) : bytes :=
  le32 kMcubootImageMagic ++ le32 load ++ le16 (header_size info)
  ++ le16 (protected_tlv_size info) ++ le32 (image_size info) ++ le32 (flags info)
  ++ [v_major (version info); v_minor (version info)]
  ++ le16 (v_revision (version info)) ++ le32 (v_build (version info)) ++ le32 pad.

(** What the parser promises of its result. *)
Record info_ok (info : McubootImageInfo) : Prop := mkInfoOk {
  io_header : u16 (header_size info);
  io_header_min : 32 <= header_size info;
  io_image : u32 (image_size info);
  io_total : header_size info + image_size info <= kMaxImageSize;
  io_protected : u16 (protected_tlv_size info);
  io_flags : u32 (flags info);
  io_version : version_ok (version info);
  io_encrypted : encrypted info = negb (Z.land (flags info) kFlagEncrypted =? 0)
}.

Lemma info_no_wrap info :
  u32 (header_size info) -> u32 (image_size info) ->
  wrap 64 (header_size info + image_size info) = header_size info + image_size info.
Proof. intros Hh Hi. apply wrap_fits. unfold fits in *. lia. Qed.

Lemma u16_u32 x : u16 x -> u32 x.
Proof. unfold fits. lia. Qed.

Lemma parse_header_layout info load pad rest :
  info_ok info -> parse_mcuboot_header (header_layout info load pad ++ rest) = Success info.
Proof.
  intros [Hh Hh32 Hi Ht Hp Hf (Hv1 & Hv2 & Hv3 & Hv4) He].
  unfold parse_mcuboot_header.
  assert ((length (header_layout info load pad ++ rest) <? kMcubootHeaderSize)%nat = false) as ->.
  { apply Nat.ltb_ge. rewrite length_app. change (length (header_layout info load pad)) with 32%nat.
    unfold kMcubootHeaderSize. lia. }
  set (b := header_layout info load pad ++ rest).
  rewrite (load_le32_le32 b kOffsetMagic kMcubootImageMagic _ ltac:(done) ltac:(reflexivity)).
  rewrite (load_le32_le32 b kOffsetFlags _ _ Hf ltac:(reflexivity)).
  rewrite (load_le16_le16 b kOffsetHeaderSize _ _ Hh ltac:(reflexivity)).
  rewrite (load_le16_le16 b kOffsetProtectTlvSize _ _ Hp ltac:(reflexivity)).
  rewrite (load_le32_le32 b kOffsetImageSize _ _ Hi ltac:(reflexivity)).
  rewrite (load_le16_le16 b kOffsetVersionRevision _ _ Hv3 ltac:(reflexivity)).
  rewrite (load_le32_le32 b kOffsetVersionBuild _ _ Hv4 ltac:(reflexivity)).
  change (at_ b kOffsetVersionMajor) with (v_major (version info)).
  change (at_ b kOffsetVersionMinor) with (v_minor (version info)).
  cbn [negb header_size image_size]. rewrite Z.eqb_refl. cbn [negb].
  rewrite info_no_wrap by auto using u16_u32.
  assert ((header_size info <? Z.of_nat kMcubootHeaderSize) = false) as ->
    by (apply Z.ltb_ge; unfold kMcubootHeaderSize; lia).
  assert ((kMaxImageSize <? header_size info + image_size info) = false) as -> by (apply Z.ltb_ge; lia).
  rewrite <- He. by destruct info as [? ? ? ? [] ?].
Qed.

(** A field of a byte list is the encoding of the bytes it was read from. *)
Lemma load_le16_inv l i :
  byte_list l -> (i + 2 <= length l)%nat ->
  le16 (load_le16 l i) = take 2 (drop i l) /\ u16 (load_le16 l i).
Proof.
  intros Hl Hi. pose proof (byte_list_drop i l Hl) as Hb. pose proof (length_drop l i) as Hn.
  destruct (drop i l) as [|a [|b rest]] eqn:H; cbn [length] in Hn; [lia..|].
  rewrite (load_le16_at _ _ _ _ _ H).
  apply Forall_cons in Hb as [Ha Hb]. apply Forall_cons in Hb as [Hb _].
  destruct (load_le16_value a b Ha Hb) as [-> ?]. split; [by apply le16_of_bytes|done].
Qed.

Lemma load_le32_inv l i :
  byte_list l -> (i + 4 <= length l)%nat ->
  le32 (load_le32 l i) = take 4 (drop i l) /\ u32 (load_le32 l i).
Proof.
  intros Hl Hi. pose proof (byte_list_drop i l Hl) as Hb. pose proof (length_drop l i) as Hn.
  destruct (drop i l) as [|a [|b [|c [|d rest]]]] eqn:H; cbn [length] in Hn; [lia..|].
  rewrite (load_le32_at _ _ _ _ _ _ _ H).
  apply Forall_cons in Hb as [Ha Hb]. apply Forall_cons in Hb as [Hb Hc].
  apply Forall_cons in Hc as [Hc Hd]. apply Forall_cons in Hd as [Hd _].
  destruct (load_le32_value a b c d Ha Hb Hc Hd) as [-> ?]. split; [by apply le32_of_bytes|done].
Qed.

Lemma at_u8 l i : byte_list l -> (i < length l)%nat -> u8 (at_ l i).
Proof. intros Hl Hi. unfold at_. apply Forall_nth; [exact Hl|done]. Qed.

(** The layout of the fields read out of 32 bytes is those bytes. *)
Lemma header_layout_fields b enc :
  byte_list b -> (32 <= length b)%nat -> load_le32 b kOffsetMagic = kMcubootImageMagic ->
  b = header_layout
        (mkInfo (load_le16 b kOffsetHeaderSize) (load_le32 b kOffsetImageSize)
           (load_le16 b kOffsetProtectTlvSize) (load_le32 b kOffsetFlags)
           (mkVersion (at_ b kOffsetVersionMajor) (at_ b kOffsetVersionMinor)
              (load_le16 b kOffsetVersionRevision) (load_le32 b kOffsetVersionBuild)) enc)
        (load_le32 b 4) (load_le32 b 28) ++ drop 32 b.
Proof.
  intros Hb El Em. unfold header_layout.
  cbn [header_size image_size protected_tlv_size flags version v_major v_minor v_revision v_build].
  rewrite <- Em. unfold kOffsetMagic, kOffsetHeaderSize, kOffsetProtectTlvSize, kOffsetImageSize,
    kOffsetFlags, kOffsetVersionRevision, kOffsetVersionBuild.
  pose proof (fun i Hi => proj1 (load_le16_inv b i Hb Hi)) as W16.
  pose proof (fun i Hi => proj1 (load_le32_inv b i Hb Hi)) as W32.
  rewrite !W16, !W32 by lia. clear Hb Em enc W16 W32.
  do 32 (destruct b as [|? b]; [cbn [length] in El; lia|]). reflexivity.
Qed.

Lemma parse_header_inv b info :
  byte_list b -> parse_mcuboot_header b = Success info ->
  info_ok info /\ exists load pad rest,
    u32 load /\ u32 pad /\ b = header_layout info load pad ++ rest.
Proof.
  intros Hb. unfold parse_mcuboot_header.
  destruct (length b <? kMcubootHeaderSize)%nat eqn:El; [done|].
  apply Nat.ltb_ge in El.
  destruct (load_le32 b kOffsetMagic =? kMcubootImageMagic) eqn:Em; cbn [negb];
    [|by destruct (load_le32 b kOffsetMagic =? kMcubootImageMagicV1)].
  apply Z.eqb_eq in Em. cbn [header_size image_size].
  destruct (load_le16 b kOffsetHeaderSize <? _) eqn:E1; [done|].
  destruct (kMaxImageSize <? _) eqn:E2; [done|]. apply Z.ltb_ge in E1, E2.
  intros [= <-]. unfold kMcubootHeaderSize in El.
  pose proof (fun i Hi => proj2 (load_le16_inv b i Hb Hi)) as W16.
  pose proof (fun i Hi => proj2 (load_le32_inv b i Hb Hi)) as W32.
  split.
  - split; cbn [header_size image_size protected_tlv_size flags version encrypted];
      unfold kOffsetHeaderSize, kOffsetImageSize, kOffsetProtectTlvSize, kOffsetFlags in *;
      try (apply W16 || apply W32; lia); [done| |split_and!|done].
    + rewrite wrap_fits in E2; [done|].
      pose proof (W16 8%nat ltac:(lia)). pose proof (W32 12%nat ltac:(lia)). unfold fits in *. lia.
    + apply at_u8; [done|]. unfold kOffsetVersionMajor. lia.
    + apply at_u8; [done|]. unfold kOffsetVersionMinor. lia.
    + apply W16. unfold kOffsetVersionRevision. lia.
    + apply W32. unfold kOffsetVersionBuild. lia.
  - exists (load_le32 b 4), (load_le32 b 28), (drop 32 b).
    split_and!; [apply W32; lia..|]. by apply header_layout_fields.
Qed.

(** ** Reading a file that is there *)

Section reads.
Context (source : ImageSource) (file : bytes) `{!ReadsFile source file}.

Lemma read_exact_file offset k :
  0 <= offset -> offset + Z.of_nat k <= zlen file ->
  read_exact source offset (replicate k 0) = Success (take k (drop (Z.to_nat offset) file)).
Proof.
  intros Ho Hk. unfold read_exact. rewrite reads_size, length_replicate.
  destruct (_ || _) eqn:E.
  { apply orb_true_iff in E. destruct E as [E|E]; apply Z.ltb_lt in E; lia. }
  rewrite (reads_at offset) by done. cbn zeta. rewrite length_replicate.
  replace (Nat.min k _) with k by lia. cbn [result_bind]. rewrite Nat.eqb_refl. cbn [negb].
  f_equal. rewrite (drop_ge (replicate k 0)) by (rewrite length_replicate; lia).
  by rewrite app_nil_r.
Qed.

(** Bytes that sit at a known place of the file. *)
Lemma read_exact_here pre x post k :
  file = pre ++ x ++ post -> length x = k ->
  read_exact source (zlen pre) (replicate k 0) = Success x.
Proof.
  intros Hf Hk. rewrite read_exact_file; [|lia|rewrite Hf, !length_app; lia].
  rewrite Nat2Z.id, Hf, drop_app_length. by rewrite take_app_length'.
Qed.

End reads.

(** ** The TLV scan *)

(** A TLV entry, an area, and the region the two areas make, as bytes. *)
Definition tlv_bytes (e : Z * bytes) : bytes := le16 e.1 ++ le16 (zlen e.2) ++ e.2.

Definition area_bytes (magic : Z) (es : list (Z * bytes)) : bytes :=
  le16 magic ++ le16 (4 + zlen (flat_map tlv_bytes es)) ++ flat_map tlv_bytes es.

Definition region_bytes (prot : option (list (Z * bytes))) (es : list (Z * bytes)) : bytes :=
  match prot with
  | None => area_bytes kTlvInfoMagic es
  | Some ps => area_bytes kTlvProtInfoMagic ps ++ area_bytes kTlvInfoMagic es
  end.

(** The size MCUboot's header records for the protected area. *)
Definition protected_size (prot : option (list (Z * bytes))) : Z :=
  match prot with None => 0 | Some ps => 4 + zlen (flat_map tlv_bytes ps) end.

Definition entries (prot : option (list (Z * bytes))) (es : list (Z * bytes)) :=
  match prot with Some ps => ps ++ es | None => es end.

(** Rounds the scan makes: one per entry, and one to step over the header
    between the areas. *)
Definition rounds (prot : option (list (Z * bytes))) (es : list (Z * bytes)) : nat :=
  length (entries prot es) + (match prot with Some _ => 1 | None => 0 end).

(** [file] is an image the header [info] describes: header and body, the TLV
    region, and whatever follows. *)
Record tlv_image (info : McubootImageInfo) (prot : option (list (Z * bytes)))
  (es : list (Z * bytes)) (file : bytes) : Prop := mkTlvImage {
  ti_header : u32 (header_size info);
  ti_image : u32 (image_size info);
  ti_protected : protected_tlv_size info = protected_size prot;
  ti_prot_fits : u16 (protected_size prot);
  ti_fits : u16 (4 + zlen (flat_map tlv_bytes es));
  ti_types : Forall (fun e => u16 e.1) (entries prot es);
  ti_file : exists body tail, file = body ++ region_bytes prot es ++ tail /\
      zlen body = header_size info + image_size info
}.

(** What the entries say: the only hash TLV, or that there is none; [None]
    when the scan has to refuse. *)
Fixpoint select_hash (es : list (Z * bytes)) (found : option ImageHash)
  : option (option ImageHash) :=
  match es with
  | [] => Some found
  | (t, v) :: es =>
      match hash_tlv_for t with
      | None => select_hash es found
      | Some n =>
          if (zlen v =? n) && bool_decide (found = None) then select_hash es (Some v) else None
      end
  end.

Lemma hash_tlv_for_cases t n :
  hash_tlv_for t = Some n -> (t = 16 /\ n = 32) \/ (t = 17 /\ n = 48) \/ (t = 18 /\ n = 64).
Proof.
  unfold hash_tlv_for, kHashTlvs. rewrite !filter_cons. cbn [fst].
  repeat (case_decide; [intros; simplify_eq; lia|]). done.
Qed.

Lemma tlv_bytes_length e : zlen (tlv_bytes e) = 4 + zlen e.2.
Proof. unfold tlv_bytes, le16. rewrite !length_app. cbn [length]. lia. Qed.

Section scan.
Context (source : ImageSource) (file : bytes) `{!ReadsFile source file}.
Context (info : McubootImageInfo) (layout : TlvLayout).

Let body := scan_body source info layout.

(** The result of one entry. *)
Lemma take_hash_file pre t v post found :
  file = pre ++ tlv_bytes (t, v) ++ post -> zlen pre + 4 + zlen v < 2 ^ 64 ->
  match select_hash [(t, v)] found with
  | Some found' => take_hash source (zlen pre) t (zlen v) found = Success found'
  | None => exists e, take_hash source (zlen pre) t (zlen v) found = Fail e /\
                      code e = MalformedMessage
  end.
Proof.
  intros Hf Hw. unfold take_hash. cbn [select_hash].
  destruct (hash_tlv_for t) as [n|] eqn:Eh; [|done].
  destruct (zlen v =? n) eqn:En; cbn [negb andb]; [|eexists; split; reflexivity].
  apply Z.eqb_eq in En. destruct found as [h|]; [eexists; split; reflexivity|].
  rewrite (bool_decide_eq_false_2 (is_Some None)) by (by intros [? ?]).
  rewrite (bool_decide_eq_true_2 (None = None)) by done.
  rewrite Nat2Z.id, wrap_fits by (unfold fits, kTlvHeaderSize; lia).
  replace (zlen pre + kTlvHeaderSize) with (zlen (pre ++ le16 t ++ le16 (zlen v)))
    by (rewrite !length_app; unfold kTlvHeaderSize; cbn [length le16]; lia).
  rewrite (read_exact_here source file _ v post); [|by rewrite Hf; unfold tlv_bytes; simpl; rewrite <- !app_assoc|done].
  cbn [result_bind]. unfold ImageHash_from, kMaxImageHashLength.
  apply hash_tlv_for_cases in Eh.
  rewrite bool_decide_eq_false_2 by (intros ->; simpl in En; lia).
  assert ((64 <? length v)%nat = false) as -> by (apply Nat.ltb_ge; lia). done.
Qed.

Lemma scan_entry_file pre t v post found visited :
  file = pre ++ tlv_bytes (t, v) ++ post -> u16 t -> u16 (zlen v) ->
  zlen pre + 4 + zlen v <= l_end layout -> l_end layout < 2 ^ 64 ->
  match select_hash [(t, v)] found with
  | Some found' => scan_entry source layout (mkScan found (zlen pre) visited)
                   = Success (found', zlen v)
  | None => exists e, scan_entry source layout (mkScan found (zlen pre) visited) = Fail e /\
                      code e = MalformedMessage
  end.
Proof.
  intros Hf Ht Hv He Hw. unfold scan_entry. cbn [sc_offset sc_found].
  assert ((l_end layout - zlen pre <? kTlvHeaderSize) = false) as ->
    by (apply Z.ltb_ge; unfold kTlvHeaderSize; lia).
  unfold raw4. rewrite (read_exact_here source file pre (le16 t ++ le16 (zlen v)) (v ++ post));
    [|rewrite Hf; reflexivity|done].
  cbn [result_bind].
  rewrite (load_le16_le16 (le16 t ++ le16 (zlen v)) 0 t (le16 (zlen v)) Ht ltac:(reflexivity)).
  rewrite (load_le16_le16 (le16 t ++ le16 (zlen v)) 2 (zlen v) [] Hv ltac:(reflexivity)).
  assert ((l_end layout - zlen pre - kTlvHeaderSize <? zlen v) = false) as ->
    by (apply Z.ltb_ge; unfold kTlvHeaderSize; lia).
  pose proof (take_hash_file pre t v post found Hf ltac:(lia)) as H.
  destruct (select_hash _ found) as [f|]; [by rewrite H|].
  destruct H as (e & -> & Hc). by exists e.
Qed.

(** A run of entries that does not cross the header between the areas. *)
Lemma scan_run es : forall pre post found visited fuel,
  file = pre ++ flat_map tlv_bytes es ++ post ->
  Forall (fun e => u16 e.1 /\ u16 (zlen e.2)) es ->
  zlen pre + zlen (flat_map tlv_bytes es) <= l_end layout -> l_end layout < 2 ^ 64 ->
  (protected_tlv_size info = 0 \/ l_protected_end layout < zlen pre \/
   zlen pre + zlen (flat_map tlv_bytes es) <= l_protected_end layout) ->
  (visited + length es <= kMaxImageTlvs)%nat ->
  match select_hash es found with
  | Some found' =>
      iterate body (length es + fuel) (mkScan found (zlen pre) visited)
      = iterate body fuel (mkScan found' (zlen (pre ++ flat_map tlv_bytes es)) (visited + length es))
  | None => exists e, iterate body (length es + fuel) (mkScan found (zlen pre) visited) = Some (Fail e)
                      /\ code e = MalformedMessage
  end.
Proof.
  induction es as [|[t v] es IH]; intros pre post found visited fuel Hf Hes Hend Hw Hp Hv.
  { cbn [select_hash length Nat.add flat_map]. by rewrite app_nil_r, Nat.add_0_r. }
  apply Forall_cons in Hes as [[Ht Hlv] Hes]. cbn [flat_map length fst snd] in *.
  rewrite length_app, Nat2Z.inj_add in Hend, Hp. pose proof (tlv_bytes_length (t, v)) as Hl.
  cbn [snd] in Hl. rewrite <- app_assoc in Hf.
  assert (body (mkScan found (zlen pre) visited) =
          match scan_entry source layout (mkScan found (zlen pre) visited) with
          | Fail e => Return (Fail e)
          | Success (f, len) => Continue (mkScan f (wrap 64 (zlen pre + (4 + len))) (S visited))
          end) as Hbody.
  { unfold body, scan_body. cbn [sc_offset sc_visited sc_found].
    assert ((l_end layout <=? zlen pre) = false) as -> by (apply Z.leb_gt; lia).
    assert ((visited =? kMaxImageTlvs)%nat = false) as -> by (apply Nat.eqb_neq; lia).
    destruct (_ && _) eqn:E; [|done]. bool_to_prop. lia. }
  cbn [Nat.add iterate]. rewrite Hbody.
  pose proof (scan_entry_file pre t v _ found visited Hf Ht Hlv ltac:(lia) Hw) as Hse.
  cbn [select_hash] in *. destruct (match hash_tlv_for t with Some _ => _ | None => Some found end)
    as [f|] eqn:Ef.
  - rewrite Hse. replace (wrap 64 _) with (zlen (pre ++ tlv_bytes (t, v))).
    + specialize (IH (pre ++ tlv_bytes (t, v)) post f (S visited) fuel).
      rewrite <- !app_assoc in IH. rewrite length_app, Nat2Z.inj_add in IH.
      specialize (IH Hf Hes ltac:(lia) Hw ltac:(lia) ltac:(lia)).
      replace (match hash_tlv_for t with Some _ => _ | None => _ end) with (select_hash es f).
      * rewrite Nat.add_succ_r, length_app, Nat2Z.inj_add. exact IH.
      * destruct (hash_tlv_for t) as [n|]; [|by simplify_eq].
        destruct (_ && _); by simplify_eq.
    + rewrite wrap_fits; [rewrite length_app; lia|]. unfold fits. lia.
  - destruct Hse as (e & -> & Hc).
    destruct (hash_tlv_for t) as [n|]; [|done]. destruct (_ && _); [done|]. by exists e.
Qed.

End scan.

Lemma select_hash_app es1 es2 found :
  select_hash (es1 ++ es2) found =
  match select_hash es1 found with Some f => select_hash es2 f | None => None end.
Proof.
  revert found. induction es1 as [|[t v] es1 IH]; intros found; [done|]. cbn [app select_hash].
  destruct (hash_tlv_for t); [|apply IH]. destruct (_ && _); [apply IH|done].
Qed.

(** The declarative reading: the hash entries alone matter. *)
Lemma select_hash_filter es found :
  select_hash es found =
  match filter (fun e => is_Some (hash_tlv_for e.1)) es, found with
  | [], _ => Some found
  | [(t, v)], None => if bool_decide (hash_tlv_for t = Some (zlen v)) then Some (Some v) else None
  | _, _ => None
  end.
Proof.
  revert found. induction es as [|[t v] es IH]; intros found; [by destruct found|].
  cbn [select_hash]. rewrite filter_cons. cbn [fst].
  destruct (hash_tlv_for t) as [n|] eqn:Eh.
  - rewrite decide_True by eauto. destruct found as [h|].
    { rewrite (bool_decide_eq_false_2 (Some h = None)), andb_false_r by done.
      by destruct (filter _ es). }
    rewrite (bool_decide_eq_true_2 (None = None)), andb_true_r by done.
    destruct (zlen v =? n) eqn:En; [apply Z.eqb_eq in En|apply Z.eqb_neq in En].
    + rewrite IH. destruct (filter _ es) as [|[? ?] l]; [|by destruct l].
      rewrite bool_decide_eq_true_2; [done|]. by subst.
    + destruct (filter _ es) as [|[? ?] l]; [|done].
      rewrite bool_decide_eq_false_2; [done|]. rewrite Eh. congruence.
  - rewrite decide_False by (intros [? ?]; congruence). apply IH.
Qed.

Lemma entries_fit es :
  Forall (fun e => u16 e.1) es -> u16 (4 + zlen (flat_map tlv_bytes es)) ->
  Forall (fun e => u16 e.1 /\ u16 (zlen e.2)) es.
Proof.
  induction 1 as [|e es He _ IH]; intros Hf; constructor; cbn [flat_map] in Hf;
    rewrite length_app, Nat2Z.inj_add, tlv_bytes_length in Hf; unfold fits in *;
    [split; [done|lia]|apply IH; lia].
Qed.

Section find.
Context (source : ImageSource) (file : bytes) `{!ReadsFile source file}.

Lemma read_area_header_file pre magic es post :
  file = pre ++ area_bytes magic es ++ post -> u16 magic ->
  u16 (4 + zlen (flat_map tlv_bytes es)) ->
  read_area_header source (zlen pre) = Success (mkArea magic (4 + zlen (flat_map tlv_bytes es))).
Proof.
  intros Hf Hm Ht. unfold read_area_header, raw4.
  set (n := 4 + zlen (flat_map tlv_bytes es)) in *.
  rewrite (read_exact_here source file pre (le16 magic ++ le16 n) (flat_map tlv_bytes es ++ post));
    [|rewrite Hf; reflexivity|done].
  cbn [result_bind].
  rewrite (load_le16_le16 (le16 magic ++ le16 n) 0 magic (le16 n) Hm ltac:(reflexivity)).
  by rewrite (load_le16_le16 (le16 magic ++ le16 n) 2 n [] Ht ltac:(reflexivity)).
Qed.

Context (info : McubootImageInfo) (prot : option (list (Z * bytes))) (es : list (Z * bytes)).

(** Where the region of a well-formed image starts, and where it ends. *)
Definition image_base : Z := header_size info + image_size info.

Definition image_layout : TlvLayout :=
  mkLayout (image_base + 4) (image_base + protected_size prot)
    (image_base + protected_size prot + (4 + zlen (flat_map tlv_bytes es))).

(** The area headers of a well-formed image. *)
Lemma resolve_areas_file bd tail :
  tlv_image info prot es file -> file = bd ++ region_bytes prot es ++ tail -> zlen bd < 2 ^ 34 ->
  exists first, read_area_header source (zlen bd) = Success first /\
    resolve_areas source info (zlen bd) first = Success (4 + zlen (flat_map tlv_bytes es)).
Proof.
  intros [Hh Hi Hp Hpf Hf Hty _] Hfile Hbase.
  destruct prot as [ps|]; cbn [protected_size region_bytes] in *.
  - rewrite <- app_assoc in Hfile. eexists. split; [by eapply read_area_header_file|].
    unfold resolve_areas. cbn [a_magic a_total]. rewrite Z.eqb_refl, Hp, Z.eqb_refl. cbn [negb].
    assert ((4 + zlen (flat_map tlv_bytes ps) <? kTlvHeaderSize) = false) as ->
      by (apply Z.ltb_ge; unfold kTlvHeaderSize; lia).
    rewrite wrap_fits by (unfold fits in *; lia).
    replace (zlen bd + (4 + zlen (flat_map tlv_bytes ps)))
      with (zlen (bd ++ area_bytes kTlvProtInfoMagic ps))
      by (unfold area_bytes, le16; rewrite !length_app; cbn [length]; lia).
    erewrite read_area_header_file; [|rewrite <- app_assoc; exact Hfile|done|done]. done.
  - eexists. split; [by eapply read_area_header_file|].
    unfold resolve_areas. cbn [a_magic a_total]. by rewrite Hp.
Qed.

Lemma resolve_layout_file :
  tlv_image info prot es file -> resolve_layout source info = Success image_layout.
Proof.
  intros Hti. pose proof Hti as [Hh Hi Hp Hpf Hf Hty (bd & tail & Hfile & Hbase)].
  unfold resolve_layout, image_layout, image_base. rewrite info_no_wrap, <- Hbase by done.
  assert (zlen bd + protected_size prot + (4 + zlen (flat_map tlv_bytes es)) <= zlen file) as Hsz.
  { rewrite Hfile, !length_app. unfold protected_size, region_bytes, area_bytes, le16.
    destruct prot; rewrite !length_app; cbn [length]; lia. }
  destruct (resolve_areas_file bd tail Hti Hfile) as (first & -> & Hra); [unfold fits in *; lia|].
  cbn [result_bind]. rewrite Hra. cbn [result_bind].
  rewrite Hp. unfold kTlvHeaderSize, fits in *.
  rewrite (wrap_fits 64 (zlen bd + protected_size prot)), !wrap_fits by (unfold fits; lia).
  rewrite reads_size.
  destruct (_ <? 4) eqn:E; bool_to_prop; [lia|].
  destruct (zlen file <? _) eqn:E2; bool_to_prop; [lia|]. done.
Qed.

(** Past the end of the region the scan answers what it found. *)
Lemma scan_end fuel layout found offset visited :
  l_end layout <= offset ->
  iterate (scan_body source info layout) (S fuel) (mkScan found offset visited)
  = Some (Success found).
Proof.
  intros H. cbn [iterate]. unfold scan_body at 1. cbn [sc_offset sc_found].
  by apply Z.leb_le in H as ->.
Qed.

(** The round that steps over the header between the areas. *)
Lemma scan_separator fuel layout found visited :
  protected_tlv_size info <> 0 -> l_protected_end layout < l_end layout ->
  (visited < kMaxImageTlvs)%nat ->
  iterate (scan_body source info layout) (S fuel) (mkScan found (l_protected_end layout) visited)
  = iterate (scan_body source info layout) fuel
      (mkScan found (wrap 64 (l_protected_end layout + kTlvHeaderSize)) (S visited)).
Proof.
  intros Hp He Hv. cbn [iterate]. unfold scan_body at 1. cbn [sc_offset sc_found sc_visited].
  apply Z.leb_gt in He as ->. rewrite (proj2 (Nat.eqb_neq _ _)) by lia.
  apply Z.eqb_neq in Hp as ->. rewrite Z.eqb_refl. done.
Qed.

(** [r] refuses the file as malformed. *)
Definition refused (r : Result (option ImageHash)) : Prop :=
  exists e, r = Fail e /\ code e = MalformedMessage.

(** The last run of entries, to the end of the region. *)
Lemma scan_last_run pre post layout found visited fuel :
  file = pre ++ flat_map tlv_bytes es ++ post ->
  Forall (fun e => u16 e.1 /\ u16 (zlen e.2)) es ->
  l_end layout = zlen pre + zlen (flat_map tlv_bytes es) -> l_end layout < 2 ^ 64 ->
  (protected_tlv_size info = 0 \/ l_protected_end layout < zlen pre) ->
  (visited + length es <= kMaxImageTlvs)%nat ->
  exists r, iterate (scan_body source info layout) (length es + S fuel)
              (mkScan found (zlen pre) visited) = Some r /\
    match select_hash es found with Some f => r = Success f | None => refused r end.
Proof.
  intros Hf Hes He Hw Hp Hv.
  pose proof (scan_run source file info layout es pre post found visited (S fuel) Hf Hes
    ltac:(lia) Hw ltac:(tauto) Hv) as H.
  destruct (select_hash es found) as [f|].
  - rewrite H, scan_end; [by eexists|]. rewrite length_app. lia.
  - destruct H as (e & -> & Hc). eexists. split; [done|]. by exists e.
Qed.

(** Both areas, from the first protected entry on. *)
Lemma scan_two_runs ps pre sep post layout fuel :
  file = pre ++ flat_map tlv_bytes ps ++ sep ++ flat_map tlv_bytes es ++ post ->
  zlen sep = kTlvHeaderSize ->
  Forall (fun e => u16 e.1 /\ u16 (zlen e.2)) ps -> Forall (fun e => u16 e.1 /\ u16 (zlen e.2)) es ->
  l_protected_end layout = zlen pre + zlen (flat_map tlv_bytes ps) ->
  l_end layout = l_protected_end layout + kTlvHeaderSize + zlen (flat_map tlv_bytes es) ->
  l_end layout < 2 ^ 64 -> protected_tlv_size info <> 0 ->
  (length ps + length es + 1 <= kMaxImageTlvs)%nat ->
  exists r, iterate (scan_body source info layout) (length ps + S (length es + S fuel))
              (mkScan None (zlen pre) 0) = Some r /\
    match select_hash (ps ++ es) None with Some f => r = Success f | None => refused r end.
Proof.
  intros Hf Hsep Hps Hes Hpe He Hw Hp Hv. rewrite select_hash_app. unfold kTlvHeaderSize in *.
  pose proof (scan_run source file info layout ps pre _ None 0 (S (length es + S fuel)) Hf Hps
    ltac:(lia) Hw ltac:(lia) ltac:(lia)) as H.
  destruct (select_hash ps None) as [f|];
    [|destruct H as (e & -> & Hc); eexists; split; [done|by exists e]].
  rewrite H. replace (zlen (pre ++ flat_map tlv_bytes ps)) with (l_protected_end layout)
    by (rewrite length_app; lia).
  rewrite scan_separator by lia. unfold kTlvHeaderSize. rewrite wrap_fits by (unfold fits; lia).
  replace (l_protected_end layout + 4) with (zlen (pre ++ flat_map tlv_bytes ps ++ sep))
    by (rewrite !length_app; lia).
  eapply scan_last_run; [by rewrite Hf, <- !app_assoc|done|rewrite !length_app; lia|done| |lia].
  right. rewrite !length_app. lia.
Qed.

Lemma find_file :
  tlv_image info prot es file -> encrypted info = false -> (rounds prot es <= kMaxImageTlvs)%nat ->
  exists r, find_image_tlv_hash source info = Some r /\
    match select_hash (entries prot es) None with
    | Some found => r = Success found
    | None => refused r
    end.
Proof.
  intros Hti He Hr. unfold find_image_tlv_hash. rewrite He, (resolve_layout_file Hti).
  destruct Hti as [Hh Hi Hp Hpf Hf Hty (bd & tail & Hfile & Hbase)].
  unfold rounds, entries, image_layout, image_base in *. rewrite <- Hbase.
  unfold fits in Hh, Hi, Hpf, Hf. cbn [l_first].
  destruct prot as [ps|]; cbn [protected_size region_bytes] in *; unfold area_bytes in Hfile;
    set (ne := 4 + zlen (flat_map tlv_bytes es)) in *; rewrite ?length_app in Hr.
  - apply Forall_app in Hty as [Hty1 Hty2]. set (np := 4 + zlen (flat_map tlv_bytes ps)) in *.
    replace (zlen bd + 4) with (zlen (bd ++ le16 kTlvProtInfoMagic ++ le16 np))
      by (unfold le16; rewrite !length_app; cbn [length]; lia).
    replace scan_fuel with (length ps + S (length es + S (256 - length ps - length es)))%nat
      by (unfold scan_fuel, kMaxImageTlvs in *; lia).
    eapply (scan_two_runs ps _ (le16 kTlvInfoMagic ++ le16 ne) tail);
      [rewrite Hfile; by rewrite <- !app_assoc|done|by apply entries_fit|by apply entries_fit|..];
      cbn [l_protected_end l_end]; unfold kTlvHeaderSize, le16; rewrite ?length_app; cbn [length]; lia.
  - replace (zlen bd + 4) with (zlen (bd ++ le16 kTlvInfoMagic ++ le16 ne))
      by (unfold le16; rewrite !length_app; cbn [length]; lia).
    replace scan_fuel with (length es + S (257 - length es))%nat
      by (unfold scan_fuel, kMaxImageTlvs in *; lia).
    eapply (scan_last_run _ tail);
      [rewrite Hfile; by rewrite <- !app_assoc|by apply entries_fit|..];
      cbn [l_protected_end l_end]; unfold le16; rewrite ?length_app; cbn [length]; lia.
Qed.

End find.

(** ** A file that is not well formed *)

(** Two sources that answer alike inside the file. *)
Definition agree_inside (s1 s2 : ImageSource) : Prop :=
  src_size s1 = src_size s2 /\
  forall offset out, 0 <= offset -> offset + zlen out <= src_size s1 ->
    src_read s1 offset out = src_read s2 offset out.

Section safe.
Context (s1 s2 : ImageSource) (Hagree : agree_inside s1 s2) (info : McubootImageInfo).

Lemma wrap64_nonneg x : 0 <= wrap 64 x.
Proof. apply (fits_wrap 64 x). lia. Qed.

Lemma read_exact_agree offset out :
  0 <= offset -> read_exact s1 offset out = read_exact s2 offset out.
Proof.
  intros Ho. destruct Hagree as [Hs Hr]. unfold read_exact. rewrite <- Hs.
  destruct (_ || _) eqn:E; [done|]. bool_to_prop. rewrite Hr by lia. done.
Qed.

Lemma read_area_header_agree offset :
  0 <= offset -> read_area_header s1 offset = read_area_header s2 offset.
Proof. intros Ho. unfold read_area_header. by rewrite read_exact_agree. Qed.

Lemma resolve_layout_agree : resolve_layout s1 info = resolve_layout s2 info.
Proof.
  unfold resolve_layout, resolve_areas. rewrite <- (proj1 Hagree).
  rewrite read_area_header_agree by apply wrap64_nonneg.
  destruct (read_area_header s2 _) as [first|]; [|done]. cbn [result_bind].
  by rewrite read_area_header_agree by apply wrap64_nonneg.
Qed.

Lemma take_hash_agree offset type len found :
  take_hash s1 offset type len found = take_hash s2 offset type len found.
Proof.
  unfold take_hash. destruct (hash_tlv_for type); [|done].
  by rewrite read_exact_agree by apply wrap64_nonneg.
Qed.

Lemma scan_body_agree layout s :
  0 <= sc_offset s -> scan_body s1 info layout s = scan_body s2 info layout s.
Proof.
  intros Ho. unfold scan_body, scan_entry. rewrite read_exact_agree by done.
  destruct (read_exact s2 (sc_offset s) raw4) as [raw|]; [|done]. cbn [result_bind].
  by rewrite take_hash_agree.
Qed.

Lemma scan_body_offset layout s s' :
  scan_body s1 info layout s = Continue s' ->
  0 <= sc_offset s' /\ sc_visited s' = S (sc_visited s) /\ (sc_visited s <> kMaxImageTlvs).
Proof.
  unfold scan_body. destruct (l_end layout <=? _); [done|].
  destruct (sc_visited s =? kMaxImageTlvs)%nat eqn:E; [done|]. apply Nat.eqb_neq in E.
  destruct (_ && _); [|destruct (scan_entry _ _ _) as [[f n]|]; [|done]];
    intros [= <-]; cbn [sc_offset sc_visited]; auto using wrap64_nonneg.
Qed.

Lemma find_agree : find_image_tlv_hash s1 info = find_image_tlv_hash s2 info.
Proof.
  unfold find_image_tlv_hash. destruct (encrypted info); [done|].
  rewrite resolve_layout_agree. destruct (resolve_layout s2 info) as [l|e] eqn:El; [|done].
  apply (iterate_ext _ _ (fun s => 0 <= sc_offset s)).
  - intros s Hs. by apply scan_body_agree.
  - intros s s' _ H. by apply scan_body_offset in H as [? _].
  - cbn [sc_offset]. unfold resolve_layout, result_bind in El.
    repeat case_match; simplify_eq. cbn [l_first]. apply wrap64_nonneg.
Qed.

Lemma find_total : exists r, find_image_tlv_hash s1 info = Some r.
Proof.
  unfold find_image_tlv_hash. destruct (encrypted info); [eauto|].
  destruct (resolve_layout s1 info) as [l|e]; [|eauto].
  apply (iterate_total _ (fun s => (sc_visited s <= kMaxImageTlvs)%nat)
           (fun s => kMaxImageTlvs - sc_visited s)%nat); [|cbn; lia|cbn; unfold scan_fuel; lia].
  intros s s' HI H. apply scan_body_offset in H as (_ & -> & Hne). lia.
Qed.

End safe.

(** Where a hash the scan answers comes from. *)
Definition hash_entry_in (file : bytes) (base : Z) (h : ImageHash) : Prop :=
  exists pre t post, file = pre ++ tlv_bytes (t, h) ++ post /\
    hash_tlv_for t = Some (zlen h) /\ base + 4 <= zlen pre.

Section sound.
Context (source : ImageSource) (file : bytes) `{!ReadsFile source file}.
Context (Hbytes : byte_list file) (Hsize : zlen file < 2 ^ 64).
Context (info : McubootImageInfo) (Hh : u32 (header_size info)) (Hi : u32 (image_size info)).

Let base := header_size info + image_size info.

Lemma read_exact_inv offset k x :
  0 <= offset -> read_exact source offset (replicate k 0) = Success x ->
  offset + Z.of_nat k <= zlen file /\ x = take k (drop (Z.to_nat offset) file) /\ length x = k.
Proof.
  intros Ho H. assert (offset + Z.of_nat k <= zlen file) as Hk.
  { unfold read_exact in H. rewrite reads_size, length_replicate in H.
    destruct (_ || _) eqn:E; [done|]. bool_to_prop. lia. }
  rewrite (read_exact_file source file) in H by done. simplify_eq. split_and!; [done..|].
  rewrite length_take, length_drop. lia.
Qed.

(** The bytes at a hash entry the scan accepts. *)
Lemma take_hash_inv offset raw found h :
  0 <= offset -> read_exact source offset raw4 = Success raw ->
  base + 4 <= offset ->
  take_hash source offset (load_le16 raw 0) (load_le16 raw 2) found = Success (Some h) ->
  found = Some h \/ hash_entry_in file base h.
Proof.
  intros Ho Hraw Hoff. unfold take_hash. apply read_exact_inv in Hraw as (Hr1 & Hr2 & Hr3); [|done].
  change (Z.to_nat kTlvHeaderSize) with 4%nat in *.
  destruct (hash_tlv_for (load_le16 raw 0)) as [n|] eqn:Et; [|intros [= ->]; by left].
  destruct (load_le16 raw 2 =? n) eqn:En; cbn [negb]; [|done]. apply Z.eqb_eq in En.
  destruct (bool_decide _); [done|]. rewrite wrap_fits by (unfold fits, kTlvHeaderSize; lia).
  destruct (read_exact source _ _) as [d|] eqn:Ed; [|done]. cbn [result_bind].
  unfold ImageHash_from. destruct (bool_decide (d = [])); [done|].
  destruct (_ <? _)%nat; [done|]. cbn [result_bind]. intros [= <-]. right.
  apply read_exact_inv in Ed as (Hd1 & Hd2 & Hd3); [|unfold kTlvHeaderSize; lia].
  assert (byte_list raw) as Hb by (rewrite Hr2; auto with smply).
  destruct (load_le16_inv raw 0 Hb ltac:(lia)) as [W0 _].
  destruct (load_le16_inv raw 2 Hb ltac:(lia)) as [W2 V2].
  assert (zlen d = load_le16 raw 2) as Hlen by (rewrite Hd3; unfold fits in V2; lia).
  exists (take (Z.to_nat offset) file), (load_le16 raw 0),
    (drop (Z.to_nat (offset + kTlvHeaderSize) + length d) file).
  split_and!; [|by rewrite Hlen, En|rewrite length_take; lia].
  assert (tlv_bytes (load_le16 raw 0, d) = raw ++ d) as ->.
  { unfold tlv_bytes. cbn [fst snd]. rewrite Hlen, W0, W2, app_assoc. f_equal.
    do 5 (destruct raw as [|? raw]; try done). }
  rewrite <- app_assoc, <- drop_drop, Hd2 at 1. rewrite Hd3, take_drop.
  replace (Z.to_nat (offset + kTlvHeaderSize)) with (Z.to_nat offset + 4)%nat
    by (unfold kTlvHeaderSize; lia).
  rewrite <- drop_drop, Hr2, take_drop. by rewrite take_drop.
Qed.

Context (Hpt : u32 (protected_tlv_size info)).

Lemma resolve_areas_bound first total :
  resolve_areas source info (wrap 64 base) first = Success total -> u16 (a_total first) -> u16 total.
Proof.
  unfold resolve_areas, read_area_header, result_bind. intros H Hf.
  repeat case_match; simplify_eq; auto. all: apply fits_wrap; lia.
Qed.

Lemma resolve_layout_inv l :
  resolve_layout source info = Success l ->
  l_first l = base + 4 /\ l_protected_end l = base + protected_tlv_size info /\
  l_protected_end l + 4 <= l_end l <= zlen file.
Proof.
  unfold resolve_layout. fold base.
  destruct (read_area_header source (wrap 64 base)) as [first|] eqn:E1; [|done]. cbn [result_bind].
  destruct (resolve_areas source info (wrap 64 base) first) as [total|] eqn:E2; [|done].
  cbn [result_bind]. rewrite reads_size.
  assert (u16 total) as Ht.
  { eapply resolve_areas_bound; [exact E2|]. unfold read_area_header, result_bind in E1.
    case_match; [|done]. simplify_eq. apply fits_wrap. lia. }
  assert (wrap 64 base = base) as -> by (by apply info_no_wrap).
  destruct (total <? kTlvHeaderSize) eqn:E3; [done|].
  assert (0 <= base < 2 ^ 33) by (unfold base, fits in *; lia).
  unfold kTlvHeaderSize, fits in *.
  rewrite (wrap_fits 64 (base + protected_tlv_size info)), !wrap_fits by (unfold fits; lia).
  destruct (zlen file <? _) eqn:E4; [done|]. bool_to_prop. intros [= <-]. cbn. lia.
Qed.

Lemma scan_entry_inv layout s found len :
  0 <= sc_offset s -> base + 4 <= sc_offset s -> l_end layout <= zlen file ->
  scan_entry source layout s = Success (found, len) ->
  0 <= len /\ sc_offset s + 4 + len <= l_end layout /\
  (forall h, found = Some h -> sc_found s = Some h \/ hash_entry_in file base h).
Proof.
  intros Ho Hb Hl. unfold scan_entry. destruct (_ <? kTlvHeaderSize); [done|].
  destruct (read_exact source (sc_offset s) raw4) as [raw|] eqn:Er; [|done]. cbn [result_bind].
  destruct (_ <? load_le16 raw 2) eqn:E; [done|]. bool_to_prop.
  destruct (take_hash _ _ _ _ _) as [f|] eqn:Et; [|done]. cbn [result_bind]. intros [= <- <-].
  split_and!; [apply (fits_wrap 16); lia|unfold kTlvHeaderSize in *; lia|].
  intros h ->. by eapply take_hash_inv.
Qed.

Lemma find_sound h :
  find_image_tlv_hash source info = Some (Success (Some h)) ->
  encrypted info = false /\ hash_entry_in file base h.
Proof.
  unfold find_image_tlv_hash. destruct (encrypted info); [done|].
  destruct (resolve_layout source info) as [l|] eqn:El; [|done].
  apply resolve_layout_inv in El as (Hf & Hpe & Hle & Hls). intros H. split; [done|].
  assert (0 <= base) by (unfold base, fits in *; lia).
  refine (iterate_inv _
    (fun s => base + 4 <= sc_offset s /\ forall h, sc_found s = Some h -> hash_entry_in file base h)
    (fun r => forall h, r = Success (Some h) -> hash_entry_in file base h) _ _ _ _ _ _ H h eq_refl).
  - intros s s' [Ho Hfd]. unfold scan_body. destruct (l_end l <=? _) eqn:Eo; [done|].
    destruct (_ =? kMaxImageTlvs)%nat; [done|]. bool_to_prop.
    destruct (_ && _) eqn:Ep.
    + bool_to_prop. intros [= <-]. cbn [sc_offset sc_found].
      rewrite wrap_fits by (unfold fits, kTlvHeaderSize; lia). unfold kTlvHeaderSize. split; [lia|done].
    + destruct (scan_entry source l s) as [[f n]|] eqn:Es; [|done]. intros [= <-].
      apply scan_entry_inv in Es as (Hn & Hend & Hfd'); [|lia..]. cbn [sc_offset sc_found].
      rewrite wrap_fits by (unfold fits, kTlvHeaderSize; lia). unfold kTlvHeaderSize. split; [lia|].
      intros h' Hh'. destruct (Hfd' h' Hh'); auto.
  - intros s r [Ho Hfd]. unfold scan_body. destruct (l_end l <=? _).
    { intros [= <-] h' [= Hh']. by apply Hfd. }
    destruct (_ =? kMaxImageTlvs)%nat; [by intros [= <-]|].
    destruct (_ && _); [done|]. destruct (scan_entry source l s) as [[f n]|]; [done|].
    by intros [= <-].
  - cbn. split; [lia|done].
Qed.

End sound.

(** ** [sha256] of a source *)

(** A span keeps its length across a read. *)
Class KeepsSpan (source : ImageSource) : Prop :=
  keeps_span : forall offset out n out', 0 <= offset ->
    src_read source offset out = Success (n, out') -> length out' = length out.

#[global] Instance ReadsFile_keeps source file : ReadsFile source file -> KeepsSpan source.
Proof.
  intros H offset out n out' Ho Hr. rewrite (reads_at offset) in Hr by done. simplify_eq.
  rewrite length_app, length_take, !length_drop. lia.
Qed.

Section hash.
Context (source : ImageSource) (Hsize : 0 <= src_size source < 2 ^ 64).

Let total := src_size source.

(** The loop's invariant, whatever the source answers. *)
Definition hash_inv (s : hash_state) : Prop :=
  0 <= hs_offset s <= total /\ length (hs_buffer s) = kStreamChunk.

(** Chunks still to read. *)
Definition hash_measure (s : hash_state) : nat :=
  Z.to_nat ((total - hs_offset s + 4095) / 4096).

(** What a round asks for. *)
Definition hash_wanted (s : hash_state) : nat :=
  Nat.min kStreamChunk (Z.to_nat (total - hs_offset s)).

Lemma hash_body_round s :
  hash_inv s -> hs_offset s < total ->
  hash_body source total s =
  match src_read source (hs_offset s) (take (hash_wanted s) (hs_buffer s)) with
  | Fail e => Return (Fail e)
  | Success (n, out) =>
      if negb (n =? hash_wanted s)%nat
      then Return (fail InvalidArgument "image: source returned a short read")
      else Continue (mkHashState (hs_offset s + Z.of_nat (hash_wanted s))
                       (update (hs_hasher s) out) (out ++ drop (hash_wanted s) (hs_buffer s)))
  end.
Proof.
  intros [Ho Hb] Hlt. unfold hash_body.
  assert ((total <=? hs_offset s) = false) as -> by (apply Z.leb_gt; lia).
  replace (if _ <? _ then _ else _) with (hash_wanted s).
  - rewrite wrap_fits; [done|]. unfold fits, hash_wanted. fold total in Hsize. lia.
  - unfold hash_wanted. rewrite Hb. destruct (_ <? _) eqn:E; bool_to_prop; lia.
Qed.

Lemma hash_body_done s :
  total <= hs_offset s -> hash_body source total s = Return (Success (finish (hs_hasher s))).
Proof. intros H. unfold hash_body. by apply Z.leb_le in H as ->. Qed.

(** A round that goes on keeps the invariant and brings the end nearer. *)
Lemma hash_body_continue `{!KeepsSpan source} s s' :
  hash_inv s -> hash_body source total s = Continue s' ->
  hash_inv s' /\ (hash_measure s' < hash_measure s)%nat.
Proof.
  intros HI H. pose proof HI as [Ho Hb]. destruct (Z.lt_ge_cases (hs_offset s) total) as [Hlt|Hge].
  2: { by rewrite hash_body_done in H. }
  rewrite hash_body_round in H by done.
  destruct (src_read source _ _) as [[n out]|] eqn:Er; [|done].
  destruct (n =? hash_wanted s)%nat eqn:En; [|done]. injection H as <-.
  pose proof (keeps_span _ _ _ _ (proj1 Ho) Er) as Hk. rewrite length_take in Hk.
  unfold hash_inv, hash_measure. cbn [hs_offset hs_buffer].
  assert (0 < Z.of_nat (hash_wanted s) <= total - hs_offset s) as Hw
    by (unfold hash_wanted, kStreamChunk; lia).
  assert (Z.of_nat (hash_wanted s) = total - hs_offset s \/ hash_wanted s = 4096%nat) as Hc
    by (unfold hash_wanted, kStreamChunk; lia).
  split_and!; [lia|lia| |].
  - rewrite length_app, length_drop. unfold hash_wanted in *. lia.
  - apply Z2Nat.inj_lt; [apply Z.div_pos; lia..|]. apply Z.div_lt_upper_bound; [lia|].
    pose proof (Z.mul_succ_div_gt (total - hs_offset s + 4095) 4096). lia.
Qed.

Lemma sha256_total `{!KeepsSpan source} : exists r, sha256 source = Some r.
Proof.
  unfold sha256. fold total.
  apply (iterate_total _ hash_inv hash_measure).
  - intros s s' HI H. by apply hash_body_continue.
  - split; [cbn [hs_offset]; unfold total; lia|apply length_replicate].
  - unfold hash_measure, hash_fuel, kStreamChunk. cbn [hs_offset]. rewrite Z.sub_0_r.
    assert ((total + 4095) / 4096 < total / 4096 + 2).
    { apply Z.div_lt_upper_bound; [lia|]. pose proof (Z.mul_succ_div_gt total 4096). lia. }
    assert (0 <= total / 4096) by (apply Z.div_pos; unfold total; lia).
    change (Z.of_nat 4096) with 4096. lia.
Qed.

Lemma sha256_file file :
  ReadsFile source file -> sha256 source = Some (Success (sha256_spec file)).
Proof.
  intros Hf. destruct sha256_total as [r Hr]. rewrite Hr. f_equal. revert Hr.
  unfold sha256. fold total. pose proof reads_size as Ht. fold total in Ht.
  assert (forall s, hash_inv s -> hs_offset s < total ->
    hash_body source total s =
    Continue (mkHashState (hs_offset s + Z.of_nat (hash_wanted s))
                (update (hs_hasher s) (take (hash_wanted s) (drop (Z.to_nat (hs_offset s)) file)))
                (take (hash_wanted s) (drop (Z.to_nat (hs_offset s)) file)
                 ++ drop (hash_wanted s) (hs_buffer s)))) as Hround.
  { intros s [Ho Hb] Hlt. rewrite hash_body_round by done. rewrite (reads_at (hs_offset s)) by lia.
    cbn zeta. rewrite length_take, Hb.
    replace (Nat.min _ (length file - _)) with (hash_wanted s) by (unfold hash_wanted; lia).
    rewrite Nat.eqb_refl, (drop_ge (take _ _)), app_nil_r by (rewrite length_take; lia). done. }
  apply (iterate_inv _
    (fun s => hash_inv s /\ absorbed (hs_hasher s) (take (Z.to_nat (hs_offset s)) file))
    (fun r => r = Success (sha256_spec file))).
  - intros s s' [HI Ha] H. pose proof HI as [Ho _].
    split; [by apply hash_body_continue in H as [? _]|].
    destruct (Z.lt_ge_cases (hs_offset s) total) as [Hlt|Hge].
    2: { by rewrite hash_body_done in H. }
    rewrite Hround in H by done. injection H as <-. cbn [hs_hasher hs_offset].
    rewrite Z2Nat.inj_add, Nat2Z.id, <- take_take_drop by lia. by apply update_absorbed.
  - intros s r' [HI Ha] H. destruct (Z.lt_ge_cases (hs_offset s) total) as [Hlt|Hge].
    { by rewrite Hround in H. }
    rewrite hash_body_done in H by done. injection H as <-.
    rewrite (finish_absorbed _ _ Ha), take_ge by lia. done.
  - split; [split; [cbn [hs_offset]; unfold total; lia|apply length_replicate]|].
    cbn [hs_hasher hs_offset]. apply absorbed_new.
Qed.

End hash.

(** ** Properties *)

(** A small signed image: a 32-byte header, four bytes of body, a protected
    area with one entry, and the image hash. *)
Definition sample_info : McubootImageInfo :=
  mkInfo 32 4 10 0 (mkVersion 1 2 3 4) false.

Definition sample_hash : ImageHash := replicate 32 171.

Definition sample_prot : option (list (Z * bytes)) := Some [(80, [1; 2])].
Definition sample_tlvs : list (Z * bytes) := [(16, sample_hash); (1, [7])].

Definition sample_file : bytes :=
  header_layout sample_info 0 0 ++ [9; 9; 9; 9] ++ region_bytes sample_prot sample_tlvs.

Lemma sample_info_ok : info_ok sample_info.
Proof. split; try done. Qed.

Lemma sample_tlv_image : tlv_image sample_info sample_prot sample_tlvs sample_file.
Proof.
  split; try done.
  - repeat constructor; done.
  - exists (header_layout sample_info 0 0 ++ [9; 9; 9; 9]), []. split; [|done].
    unfold sample_file. by rewrite <- app_assoc, app_nil_r.
Qed.

Lemma sample_file_bytes : byte_list sample_file.
Proof. apply (bool_decide_unpack _). vm_compute. exact I. Qed.

Lemma sample_find :
  find_image_tlv_hash (MemoryImageSource sample_file) sample_info = Some (Success (Some sample_hash)).
Proof. vm_compute. reflexivity. Qed.

(** The header parser accepts exactly the 32-byte layouts of
    [struct image_header] with MCUboot's magic, a header size of at least 32
    and a header and body within [kMaxImageSize]; it reads every field back as
    it was stored; and whatever it refuses, it refuses as [InvalidArgument]. *)
Lemma parse_header_exact (b : bytes) (info : McubootImageInfo) (Hb : byte_list b) :
  (parse_mcuboot_header b = Success info <->
   info_ok info /\ exists load pad rest,
     u32 load /\ u32 pad /\ b = header_layout info load pad ++ rest) /\
  (forall e, parse_mcuboot_header b = Fail e -> code e = InvalidArgument).
Proof.
  split; [split|].
  - by apply parse_header_inv.
  - intros (Hok & load & pad & rest & _ & _ & ->). by apply parse_header_layout.
  - intros e. unfold parse_mcuboot_header, fail. repeat case_match; intros; by simplify_eq.
Qed.

(** On an image laid out as MCUboot lays it out -- header and body, an
    optional protected TLV area, the unprotected one -- with no more entries
    than the scan visits, the scan answers the value of the only hash TLV,
    answers that there is none when there is none, and refuses the file as
    malformed when the hash has the wrong length for its type or there are
    two. *)
Lemma tlv_hash_found (source : ImageSource) (file : bytes) (info : McubootImageInfo)
  (prot : option (list (Z * bytes))) (es : list (Z * bytes))
  (Hsrc : ReadsFile source file) (Himg : tlv_image info prot es file)
  (Henc : encrypted info = false) (Hn : (rounds prot es <= kMaxImageTlvs)%nat) :
  exists r, find_image_tlv_hash source info = Some r /\
    match filter (fun e => is_Some (hash_tlv_for e.1)) (entries prot es) with
    | [] => r = Success None
    | [(t, v)] => if bool_decide (hash_tlv_for t = Some (zlen v))
                  then r = Success (Some v) else refused r
    | _ => refused r
    end.
Proof.
  destruct (find_file source file info prot es Himg Henc Hn) as (r & Hr & Hs).
  exists r. split; [done|]. rewrite select_hash_filter in Hs.
  destruct (filter _ _) as [|[t v] [|? ?]]; [done| |done]. by destruct (bool_decide _).
Qed.

(** A hash the scan answers, on any file however it is built, is the value
    of a hash TLV that is in the file after the image body: its bytes stand
    there behind their type and length, the length is the one the type
    requires, and the image is not an encrypted one. *)
Lemma tlv_hash_sound (source : ImageSource) (file : bytes) (info : McubootImageInfo) (h : ImageHash)
  (Hsrc : ReadsFile source file) (Hbytes : byte_list file) (Hsize : zlen file < 2 ^ 64)
  (Hh : u32 (header_size info)) (Hi : u32 (image_size info)) (Hp : u32 (protected_tlv_size info))
  (Hfind : find_image_tlv_hash source info = Some (Success (Some h))) :
  encrypted info = false /\
  exists pre t post, file = pre ++ tlv_bytes (t, h) ++ post /\
    hash_tlv_for t = Some (zlen h) /\ header_size info + image_size info + 4 <= zlen pre.
Proof. by eapply find_sound. Qed.

(** The scan is safe on any source and any header: it returns, it never
    asks the source for a byte outside the file (two sources that agree inside
    it cannot be told apart), and it does not look at an encrypted image. *)
Lemma tlv_scan_safe (s1 s2 : ImageSource) (info : McubootImageInfo) (H : agree_inside s1 s2) :
  find_image_tlv_hash s1 info = find_image_tlv_hash s2 info /\
  (exists r, find_image_tlv_hash s1 info = Some r) /\
  (encrypted info = true -> find_image_tlv_hash s1 info = Some (Success None)).
Proof.
  split_and!; [by apply find_agree|apply find_total|].
  intros He. unfold find_image_tlv_hash. by rewrite He.
Qed.

(** The digest of a source is the SHA-256 of the whole file behind it: the
    loop over its chunks terminates, for a file of any size, and leaves no byte
    out. *)
Lemma sha256_of_source (source : ImageSource) (file : bytes)
  (Hsrc : ReadsFile source file) (Hsize : zlen file < 2 ^ 64) :
  sha256 source = Some (Success (sha256_spec file)).
Proof. apply sha256_file; [|done]. rewrite reads_size. lia. Qed.
