(* ===== verification/Client.v ===== *)
(** * The SMP client

    [include/smply/smp_client.hpp] and [src/smp/client.cpp]: requests in flight,
    their sequence numbers and deadlines, the answers matched to them, and the
    callbacks owed to the application. A callback may issue and cancel requests
    and defer work; what the application does in one is a parameter, a function
    of everything it has been told so far. *)

From stdpp Require Import sets.
From S2P Require Import Prelude Errors Header Assembler.
Open Scope Z_scope.

(** [smply::is_user_defined]. *)
Definition is_user_defined (group : Group) : bool := 64 <=? group.

(** [SmpClientConfig]. *)
Record SmpClientConfig := mkClientConfig {
  smp_version : Version;
  default_timeout : Z;
  max_smp_payload : Z;
  max_assembly_bytes : nat;
  max_in_flight : nat;
  max_retired_seqs : nat
}.

(** [RequestHandle]: generation zero never referred to a request. *)
Record RequestHandle := mkHandle {
  rh_slot : nat;
  rh_generation : Z
}.

Definition no_handle : RequestHandle := mkHandle 0 0.

Definition valid (h : RequestHandle) : bool := negb (rh_generation h =? 0).

(** [RawResponse]. *)
Abbreviation RawResponse := (Header * bytes)%type.

(** [RequestSpec]. *)
Record RequestSpec := mkSpec {
  rs_op : Operation;
  rs_group : Group;
  rs_command : Z;
  rs_payload : bytes;
  rs_timeout : option Z
}.

(** [SmpClientStats], with an increment for each counter. *)
Record SmpClientStats := mkStats {
  st_sent : Z;
  st_received : Z;
  st_unmatched : Z;
  st_late : Z;
  st_mismatched : Z;
  st_timeouts : Z;
  st_cancelled : Z;
  st_malformed : Z
}.

Definition count_sent (r : SmpClientStats) : SmpClientStats :=
  mkStats (wrap 64 (st_sent r + 1)) (st_received r) (st_unmatched r) (st_late r) (st_mismatched r) (st_timeouts r) (st_cancelled r) (st_malformed r).

Definition count_received (r : SmpClientStats) : SmpClientStats :=
  mkStats (st_sent r) (wrap 64 (st_received r + 1)) (st_unmatched r) (st_late r) (st_mismatched r) (st_timeouts r) (st_cancelled r) (st_malformed r).

Definition count_unmatched (r : SmpClientStats) : SmpClientStats :=
  mkStats (st_sent r) (st_received r) (wrap 64 (st_unmatched r + 1)) (st_late r) (st_mismatched r) (st_timeouts r) (st_cancelled r) (st_malformed r).

Definition count_late (r : SmpClientStats) : SmpClientStats :=
  mkStats (st_sent r) (st_received r) (st_unmatched r) (wrap 64 (st_late r + 1)) (st_mismatched r) (st_timeouts r) (st_cancelled r) (st_malformed r).

Definition count_mismatched (r : SmpClientStats) : SmpClientStats :=
  mkStats (st_sent r) (st_received r) (st_unmatched r) (st_late r) (wrap 64 (st_mismatched r + 1)) (st_timeouts r) (st_cancelled r) (st_malformed r).

Definition count_timeouts (r : SmpClientStats) : SmpClientStats :=
  mkStats (st_sent r) (st_received r) (st_unmatched r) (st_late r) (st_mismatched r) (wrap 64 (st_timeouts r + 1)) (st_cancelled r) (st_malformed r).

Definition count_cancelled (r : SmpClientStats) : SmpClientStats :=
  mkStats (st_sent r) (st_received r) (st_unmatched r) (st_late r) (st_mismatched r) (st_timeouts r) (wrap 64 (st_cancelled r + 1)) (st_malformed r).

Definition count_malformed (r : SmpClientStats) : SmpClientStats :=
  mkStats (st_sent r) (st_received r) (st_unmatched r) (st_late r) (st_mismatched r) (st_timeouts r) (st_cancelled r) (wrap 64 (st_malformed r + 1)).

(** [Pending]. A callback is known by its number; an empty [std::function] is
    [None]. *)
Record Pending := mkPending {
  p_active : bool;
  p_generation : Z;
  p_seq : Z;
  p_group : Group;
  p_command : Z;
  p_expected_op : Operation;
  p_deadline : Z;
  p_callback : option nat
}.

Definition empty_pending : Pending := mkPending false 0 0 0 0 Read 0 None.

(** An item of the deferred queue: a failure to deliver, or work a layer above
    queued. *)
Inductive Work :=
| W_Fail (cb : nat) (e : Error)
| W_User (w : nat).

(** What the application has seen, in order: the handle each request returned,
    its callbacks, and its own deferred work. *)
Inductive Log :=
| L_Request (h : RequestHandle) (cb : option nat)
| L_Done (cb : nat) (r : Result RawResponse)
| L_Work (w : nat).

(** What it may do inside a callback. *)
Inductive Command :=
| Cmd_request (spec : RequestSpec) (cb : option nat)
| Cmd_cancel (h : RequestHandle)
| Cmd_defer (w : option nat).

(** [cbor::MgmtOutcome]. *)
Record MgmtOutcome := mkOutcome {
  mo_error : option MgmtError;
  mo_reason : string
}.

(** [SmpClient::Impl]. The transports are numbered; [wire_] is every message
    handed to one, [listening_] the one whose bytes reach the client, [clock_]
    what the clock reads. *)
Record SmpClient := mkClient {
  config_ : SmpClientConfig;
  transport_ : nat;
  listening_ : option nat;
  assembler_ : MessageAssembler;
  pending_ : list Pending;
  deferred_ : list Work;
  retired_flags_ : list bool;
  retired_ring_ : list Z;
  retired_head_ : nat;
  next_seq_ : Z;
  next_generation_ : Z;
  connected_ : bool;
  last_transport_error_ : option Error;
  stats_ : SmpClientStats;
  clock_ : Z;
  wire_ : list (nat * bytes);
  history_ : list Log
}.

Definition set_config_ (x : SmpClientConfig) (r : SmpClient) : SmpClient :=
  mkClient x (transport_ r) (listening_ r) (assembler_ r) (pending_ r) (deferred_ r) (retired_flags_ r) (retired_ring_ r) (retired_head_ r) (next_seq_ r) (next_generation_ r) (connected_ r) (last_transport_error_ r) (stats_ r) (clock_ r) (wire_ r) (history_ r).

Definition set_transport_ (x : nat) (r : SmpClient) : SmpClient :=
  mkClient (config_ r) x (listening_ r) (assembler_ r) (pending_ r) (deferred_ r) (retired_flags_ r) (retired_ring_ r) (retired_head_ r) (next_seq_ r) (next_generation_ r) (connected_ r) (last_transport_error_ r) (stats_ r) (clock_ r) (wire_ r) (history_ r).

Definition set_listening_ (x : option nat) (r : SmpClient) : SmpClient :=
  mkClient (config_ r) (transport_ r) x (assembler_ r) (pending_ r) (deferred_ r) (retired_flags_ r) (retired_ring_ r) (retired_head_ r) (next_seq_ r) (next_generation_ r) (connected_ r) (last_transport_error_ r) (stats_ r) (clock_ r) (wire_ r) (history_ r).

Definition set_assembler_ (x : MessageAssembler) (r : SmpClient) : SmpClient :=
  mkClient (config_ r) (transport_ r) (listening_ r) x (pending_ r) (deferred_ r) (retired_flags_ r) (retired_ring_ r) (retired_head_ r) (next_seq_ r) (next_generation_ r) (connected_ r) (last_transport_error_ r) (stats_ r) (clock_ r) (wire_ r) (history_ r).

Definition set_pending_ (x : list Pending) (r : SmpClient) : SmpClient :=
  mkClient (config_ r) (transport_ r) (listening_ r) (assembler_ r) x (deferred_ r) (retired_flags_ r) (retired_ring_ r) (retired_head_ r) (next_seq_ r) (next_generation_ r) (connected_ r) (last_transport_error_ r) (stats_ r) (clock_ r) (wire_ r) (history_ r).

Definition set_deferred_ (x : list Work) (r : SmpClient) : SmpClient :=
  mkClient (config_ r) (transport_ r) (listening_ r) (assembler_ r) (pending_ r) x (retired_flags_ r) (retired_ring_ r) (retired_head_ r) (next_seq_ r) (next_generation_ r) (connected_ r) (last_transport_error_ r) (stats_ r) (clock_ r) (wire_ r) (history_ r).

Definition set_retired_flags_ (x : list bool) (r : SmpClient) : SmpClient :=
  mkClient (config_ r) (transport_ r) (listening_ r) (assembler_ r) (pending_ r) (deferred_ r) x (retired_ring_ r) (retired_head_ r) (next_seq_ r) (next_generation_ r) (connected_ r) (last_transport_error_ r) (stats_ r) (clock_ r) (wire_ r) (history_ r).

Definition set_retired_ring_ (x : list Z) (r : SmpClient) : SmpClient :=
  mkClient (config_ r) (transport_ r) (listening_ r) (assembler_ r) (pending_ r) (deferred_ r) (retired_flags_ r) x (retired_head_ r) (next_seq_ r) (next_generation_ r) (connected_ r) (last_transport_error_ r) (stats_ r) (clock_ r) (wire_ r) (history_ r).

Definition set_retired_head_ (x : nat) (r : SmpClient) : SmpClient :=
  mkClient (config_ r) (transport_ r) (listening_ r) (assembler_ r) (pending_ r) (deferred_ r) (retired_flags_ r) (retired_ring_ r) x (next_seq_ r) (next_generation_ r) (connected_ r) (last_transport_error_ r) (stats_ r) (clock_ r) (wire_ r) (history_ r).

Definition set_next_seq_ (x : Z) (r : SmpClient) : SmpClient :=
  mkClient (config_ r) (transport_ r) (listening_ r) (assembler_ r) (pending_ r) (deferred_ r) (retired_flags_ r) (retired_ring_ r) (retired_head_ r) x (next_generation_ r) (connected_ r) (last_transport_error_ r) (stats_ r) (clock_ r) (wire_ r) (history_ r).

Definition set_next_generation_ (x : Z) (r : SmpClient) : SmpClient :=
  mkClient (config_ r) (transport_ r) (listening_ r) (assembler_ r) (pending_ r) (deferred_ r) (retired_flags_ r) (retired_ring_ r) (retired_head_ r) (next_seq_ r) x (connected_ r) (last_transport_error_ r) (stats_ r) (clock_ r) (wire_ r) (history_ r).

Definition set_connected_ (x : bool) (r : SmpClient) : SmpClient :=
  mkClient (config_ r) (transport_ r) (listening_ r) (assembler_ r) (pending_ r) (deferred_ r) (retired_flags_ r) (retired_ring_ r) (retired_head_ r) (next_seq_ r) (next_generation_ r) x (last_transport_error_ r) (stats_ r) (clock_ r) (wire_ r) (history_ r).

Definition set_last_transport_error_ (x : option Error) (r : SmpClient) : SmpClient :=
  mkClient (config_ r) (transport_ r) (listening_ r) (assembler_ r) (pending_ r) (deferred_ r) (retired_flags_ r) (retired_ring_ r) (retired_head_ r) (next_seq_ r) (next_generation_ r) (connected_ r) x (stats_ r) (clock_ r) (wire_ r) (history_ r).

Definition set_stats_ (x : SmpClientStats) (r : SmpClient) : SmpClient :=
  mkClient (config_ r) (transport_ r) (listening_ r) (assembler_ r) (pending_ r) (deferred_ r) (retired_flags_ r) (retired_ring_ r) (retired_head_ r) (next_seq_ r) (next_generation_ r) (connected_ r) (last_transport_error_ r) x (clock_ r) (wire_ r) (history_ r).

Definition set_clock_ (x : Z) (r : SmpClient) : SmpClient :=
  mkClient (config_ r) (transport_ r) (listening_ r) (assembler_ r) (pending_ r) (deferred_ r) (retired_flags_ r) (retired_ring_ r) (retired_head_ r) (next_seq_ r) (next_generation_ r) (connected_ r) (last_transport_error_ r) (stats_ r) x (wire_ r) (history_ r).

Definition set_wire_ (x : list (nat * bytes)) (r : SmpClient) : SmpClient :=
  mkClient (config_ r) (transport_ r) (listening_ r) (assembler_ r) (pending_ r) (deferred_ r) (retired_flags_ r) (retired_ring_ r) (retired_head_ r) (next_seq_ r) (next_generation_ r) (connected_ r) (last_transport_error_ r) (stats_ r) (clock_ r) x (history_ r).

Definition set_history_ (x : list Log) (r : SmpClient) : SmpClient :=
  mkClient (config_ r) (transport_ r) (listening_ r) (assembler_ r) (pending_ r) (deferred_ r) (retired_flags_ r) (retired_ring_ r) (retired_head_ r) (next_seq_ r) (next_generation_ r) (connected_ r) (last_transport_error_ r) (stats_ r) (clock_ r) (wire_ r) x.

Definition log (l : Log) (c : SmpClient) : SmpClient := set_history_ (history_ c ++ [l]) c.

Definition bump (f : SmpClientStats -> SmpClientStats) (c : SmpClient) : SmpClient :=
  set_stats_ (f (stats_ c)) c.

(** The constructor, with the transport's listener set. *)
Definition new_client (config : SmpClientConfig) (now : Z) : SmpClient :=
  mkClient config 0 (Some O)
    (new_assembler (mkAssemblerLimits (max_smp_payload config) (max_assembly_bytes config)))
    (replicate (1 `max` max_in_flight config) empty_pending)
    [] (replicate 256 false) [] 0 0 1 true None (mkStats 0 0 0 0 0 0 0 0) now [] [].

(** ** The table and the retired set *)

(** [find_by_seq], [free_slot] and [resolve], as the index of the entry. *)
Definition find_by_seq (seq : Z) (c : SmpClient) : option nat :=
  fst <$> list_find (fun p => p_active p = true /\ p_seq p = seq) (pending_ c).

Definition free_slot (c : SmpClient) : option nat :=
  fst <$> list_find (fun p => p_active p = false) (pending_ c).

Definition resolve (h : RequestHandle) (c : SmpClient) : option nat :=
  if negb (valid h) || (length (pending_ c) <=? rh_slot h)%nat then None
  else
    match pending_ c !! rh_slot h with
    | Some p => if negb (p_active p) || negb (p_generation p =? rh_generation h) then None
                else Some (rh_slot h)
    | None => None
    end.

(** [is_retired] and [retire]. *)
Definition is_retired (seq : Z) (c : SmpClient) : bool :=
  default false (retired_flags_ c !! Z.to_nat seq).

Definition flag (seq : Z) (b : bool) (c : SmpClient) : SmpClient :=
  set_retired_flags_ (<[Z.to_nat seq := b]> (retired_flags_ c)) c.

Definition retire (seq : Z) (c : SmpClient) : SmpClient :=
  if (max_retired_seqs (config_ c) =? 0)%nat then c
  else if is_retired seq c then c
  else
    let c :=
      if (length (retired_ring_ c) =? max_retired_seqs (config_ c))%nat then
        let head := retired_head_ c in
        let c := flag (default 0 (retired_ring_ c !! head)) false c in
        let c := set_retired_ring_ (<[head := seq]> (retired_ring_ c)) c in
        set_retired_head_ ((head + 1) mod length (retired_ring_ c))%nat c
      else set_retired_ring_ (retired_ring_ c ++ [seq]) c in
    flag seq true c.

(** [allocate_seq]: the loop over the attempts, and the number taken. *)
Fixpoint allocate_from (attempt fuel : nat) (c : SmpClient) : option Z :=
  match fuel with
  | O => None
  | S fuel =>
      let candidate := (next_seq_ c + Z.of_nat attempt) mod 256 in
      if bool_decide (find_by_seq candidate c = None) && negb (is_retired candidate c)
      then Some candidate
      else allocate_from (S attempt) fuel c
  end.

Definition allocate_seq (c : SmpClient) : option (Z * SmpClient) :=
  match allocate_from 0 256 c with
  | Some seq => Some (seq, set_next_seq_ ((seq + 1) mod 256) c)
  | None => None
  end.

(** [detach]: the callback, and the table without the entry. *)
Definition vacate (p : Pending) : Pending :=
  mkPending false (p_generation p) (p_seq p) (p_group p) (p_command p) (p_expected_op p)
    (p_deadline p) None.

Definition detach (slot : nat) (c : SmpClient) : option nat * SmpClient :=
  match pending_ c !! slot with
  | Some p => (p_callback p, retire (p_seq p) (set_pending_ (<[slot := vacate p]> (pending_ c)) c))
  | None => (None, c)
  end.

(** ** Issuing *)

(** [defer_work] and [defer]. *)
Definition defer_work (w : option Work) (c : SmpClient) : SmpClient :=
  match w with
  | Some w => set_deferred_ (deferred_ c ++ [w]) c
  | None => c
  end.

Definition defer (cb : option nat) (e : Error) (c : SmpClient) : RequestHandle * SmpClient :=
  match cb with
  | Some cb => (no_handle, defer_work (Some (W_Fail cb e)) c)
  | None => (no_handle, c)
  end.

Section client.

(** A transport's answer to [send], given what was sent before; the decoder of
    a device's error report, over the CBOR library; and the application. *)
Context (send : nat -> list (nat * bytes) -> bytes -> Result unit).
Context (extract_mgmt_error : bytes -> Result MgmtOutcome).
Context (react : list Log -> list Command).

(** [request]. *)
Definition request (spec : RequestSpec) (cb : option nat) (c : SmpClient)
  : RequestHandle * SmpClient :=
  if negb (connected_ c) then defer cb (Error_at Disconnected "smp client: link is down") c
  else if max_smp_payload (config_ c) <? zlen (rs_payload spec)
  then defer cb (Error_at MessageTooLarge "smp client: payload exceeds limit") c
  else
    match free_slot c with
    | None => defer cb (Error_at InvalidState "smp client: too many requests in flight") c
    | Some slot =>
        match allocate_seq c with
        | None => defer cb (Error_at InvalidState "smp client: no free sequence number") c
        | Some (seq, c) =>
            let header := mkHeader (rs_op spec) (smp_version (config_ c)) 0
                            (wrap 16 (zlen (rs_payload spec))) (rs_group spec) seq
                            (rs_command spec) in
            let message := take (total_size header) (encode header ++ rs_payload spec) in
            let sent := send (transport_ c) (wire_ c) message in
            let c := set_wire_ (wire_ c ++ [(transport_ c, message)]) c in
            match sent with
            | Fail e => defer cb e (retire seq c)
            | Success _ =>
                let generation := next_generation_ c in
                let c := set_next_generation_ (wrap 64 (generation + 1)) c in
                let deadline :=
                  clock_ c + default (default_timeout (config_ c)) (rs_timeout spec) in
                let entry := mkPending true generation seq (rs_group spec) (rs_command spec)
                               (response_to (rs_op spec)) deadline cb in
                let c := set_pending_ (<[slot := entry]> (pending_ c)) c in
                (mkHandle slot generation, bump count_sent c)
            end
        end
    end.

(** [cancel]. *)
Definition cancel (h : RequestHandle) (c : SmpClient) : SmpClient :=
  match resolve h c with
  | None => c
  | Some slot =>
      let '(cb, c) := detach slot (bump count_cancelled c) in
      (defer cb (Error_at Cancelled "smp client: cancelled") c).2
  end.

(** A call the application makes, in a callback or outside one. *)
Definition exec (c : SmpClient) (cmd : Command) : SmpClient :=
  match cmd with
  | Cmd_request spec cb => let '(h, c) := request spec cb c in log (L_Request h cb) c
  | Cmd_cancel h => cancel h c
  | Cmd_defer w => defer_work (W_User <$> w) c
  end.

(** ** Callbacks *)

(** The application is told something, and does what it does. *)
Definition notify (l : Log) (c : SmpClient) : SmpClient :=
  let c := log l c in foldl exec c (react (history_ c)).

(** A callback that may be empty. *)
Definition invoke (cb : option nat) (r : Result RawResponse) (c : SmpClient) : SmpClient :=
  match cb with Some cb => notify (L_Done cb r) c | None => c end.

(** [complete]. *)
Definition complete (slot : nat) (r : Result RawResponse) (c : SmpClient) : SmpClient :=
  let '(cb, c) := detach slot c in invoke cb r c.

(** [fail_all]: the loop over the slots. *)
Definition fail_slot (e : Error) (c : SmpClient) (slot : nat) : SmpClient :=
  match pending_ c !! slot with
  | Some p => if negb (p_active p) then c else complete slot (Fail e) c
  | None => c
  end.

Definition fail_all (e : Error) (c : SmpClient) : SmpClient :=
  foldl (fail_slot e) c (seq 0 (length (pending_ c))).

(** [deliver_deferred]: a batch at a time, until nothing is queued. *)
Definition run_work (c : SmpClient) (w : Work) : SmpClient :=
  match w with
  | W_Fail cb e => notify (L_Done cb (Fail e)) c
  | W_User w => notify (L_Work w) c
  end.

Definition deliver_body (c : SmpClient) : loop SmpClient SmpClient :=
  match deferred_ c with
  | [] => Return c
  | batch => Continue (foldl run_work (set_deferred_ [] c) batch)
  end.

Definition deliver_deferred (fuel : nat) (c : SmpClient) : option SmpClient :=
  iterate deliver_body fuel c.

(** ** Driving *)

(** [poll]: the snapshot of the expired requests, and the sweep over it. *)
Definition expired (now : Z) (c : SmpClient) : list RequestHandle :=
  omap (fun slot =>
    match pending_ c !! slot with
    | Some p => if p_active p && (p_deadline p <=? now) then Some (mkHandle slot (p_generation p))
                else None
    | None => None
    end) (seq 0 (length (pending_ c))).

Definition expire (c : SmpClient) (h : RequestHandle) : SmpClient :=
  match resolve h c with
  | None => c
  | Some slot =>
      complete slot (fail Timeout "smp client: no response") (bump count_timeouts c)
  end.

Definition poll (fuel : nat) (now : Z) (c : SmpClient) : option SmpClient :=
  match deliver_deferred fuel c with
  | None => None
  | Some c => deliver_deferred fuel (foldl expire c (expired now c))
  end.

(** [next_deadline]: [inl tt] is [TimePoint::min()], work ready now. *)
Definition earliest (deadline : option Z) (p : Pending) : option Z :=
  if p_active p && match deadline with None => true | Some d => p_deadline p <? d end
  then Some (p_deadline p) else deadline.

Definition next_deadline (c : SmpClient) : option (unit + Z) :=
  match deferred_ c with
  | [] => inr <$> foldl earliest None (pending_ c)
  | _ => Some (inl tt)
  end.

(** [rebind_transport]. *)
Definition rebind_transport (transport : nat) (c : SmpClient) : SmpClient :=
  let c := fail_all (Error_at Disconnected "smp client: transport rebound") c in
  let c := set_listening_ None c in
  let c := set_transport_ transport c in
  let c := set_assembler_ (reset (assembler_ c)) c in
  set_listening_ (Some transport) (set_connected_ true c).

(** [shutdown], the destructor. *)
Definition shutdown (fuel : nat) (c : SmpClient) : option SmpClient :=
  match deliver_deferred fuel c with
  | None => None
  | Some c =>
      set_listening_ None
        <$> deliver_deferred fuel (fail_all (Error_at Cancelled "smp client: destroyed") c)
  end.

(** ** Transport callbacks *)

(** [interpret]. *)
Definition interpret (header : Header) (payload : bytes) : Result RawResponse :=
  if is_user_defined (h_group header) then Success (header, payload)
  else
    let? outcome := extract_mgmt_error payload in
    match mo_error outcome with
    | None => Success (header, payload)
    | Some m =>
        let e := Error_mgmt ProtocolError m "smp client" in
        Fail (if bool_decide (mo_reason outcome = EmptyString) then e
              else with_reason (mo_reason outcome) e)
    end.

(** [on_message]. *)
Definition matches (header : Header) (p : Pending) : bool :=
  (h_group header =? p_group p) && (h_command header =? p_command p)
  && bool_decide (h_op header = p_expected_op p).

Definition on_message (c : SmpClient) (m : Message) : SmpClient :=
  let '(header, payload) := m in
  let c := bump count_received c in
  match find_by_seq (h_seq header) c with
  | None =>
      if is_retired (h_seq header) c then bump count_late c else bump count_unmatched c
  | Some slot =>
      match pending_ c !! slot with
      | Some p =>
          if negb (matches header p) then bump count_mismatched c
          else complete slot (interpret header payload) c
      | None => c
      end
  end.

(** [on_bytes]. The callbacks a message leads to do not reach the assembler, so
    the messages of one call are handled in order after it has found them. *)
Definition on_bytes (input : bytes) (c : SmpClient) : option SmpClient :=
  match feed input (assembler_ c) with
  | None => None
  | Some (res, a, out) =>
      let c := foldl on_message (set_assembler_ a c) out in
      match res with
      | Success _ => Some c
      | Fail e => Some (fail_all e (bump count_malformed c))
      end
  end.

(** [on_transport_error] and [on_disconnected]. *)
Definition on_transport_error (e : Error) (c : SmpClient) : SmpClient :=
  set_last_transport_error_ (Some e) c.

Definition on_disconnected (e : Error) (c : SmpClient) : SmpClient :=
  let c := set_connected_ false c in
  let c := set_assembler_ (reset (assembler_ c)) c in
  fail_all e c.

(** [in_flight]. *)
Definition in_flight (c : SmpClient) : nat :=
  length (filter (fun p => p_active p = true) (pending_ c)).

(** ** Runs *)

(** A call from the application or from a transport, or the clock moving. *)
Inductive Call :=
| C_Command (cmd : Command)
| C_Poll (now : Z)
| C_Rebind (transport : nat)
| C_Bytes (input : bytes)
| C_TransportError (e : Error)
| C_Disconnected (e : Error)
| C_Clock (now : Z).

Definition call (fuel : nat) (k : Call) (c : SmpClient) : option SmpClient :=
  match k with
  | C_Command cmd => Some (exec c cmd)
  | C_Poll now => poll fuel now c
  | C_Rebind transport => Some (rebind_transport transport c)
  | C_Bytes input => on_bytes input c
  | C_TransportError e => Some (on_transport_error e c)
  | C_Disconnected e => Some (on_disconnected e c)
  | C_Clock now => Some (set_clock_ now c)
  end.

Fixpoint calls (fuel : nat) (ks : list Call) (c : SmpClient) : option SmpClient :=
  match ks with
  | [] => Some c
  | k :: ks => match call fuel k c with Some c => calls fuel ks c | None => None end
  end.

(** ** Every callback is owed once *)

(** The callbacks requests were made with, and the ones that have run. *)
Definition requested (h : list Log) : list nat :=
  omap (fun l => match l with L_Request _ cb => cb | _ => None end) h.

Definition done_ (h : list Log) : list nat :=
  omap (fun l => match l with L_Done cb _ => Some cb | _ => None end) h.

(** The ones still to run: of the requests in flight, and in the queue. *)
Definition entry_callback (p : Pending) : option nat := if p_active p then p_callback p else None.

Definition work_callback (w : Work) : option nat :=
  match w with W_Fail cb _ => Some cb | W_User _ => None end.

Definition owed (c : SmpClient) : list nat :=
  omap entry_callback (pending_ c) ++ omap work_callback (deferred_ c).

(** The books: [held] are callbacks taken out of the table or the queue and
    about to run. *)
Definition accounted (held : list nat) (c : SmpClient) : Prop :=
  requested (history_ c) ≡ₚ done_ (history_ c) ++ held ++ owed c.

(** The parts of the state [retire] does not touch. *)
Definition same_table (c c' : SmpClient) : Prop :=
  pending_ c' = pending_ c /\ deferred_ c' = deferred_ c /\ history_ c' = history_ c /\
  config_ c' = config_ c /\ connected_ c' = connected_ c /\ assembler_ c' = assembler_ c /\
  next_seq_ c' = next_seq_ c.

Lemma retire_same n c : same_table c (retire n c).
Proof. unfold same_table, retire. repeat case_match; done. Qed.

Lemma omap_insert_perm {A B} (f : A -> option B) (l : list A) i x y :
  l !! i = Some x ->
  option_list (f y) ++ omap f l ≡ₚ option_list (f x) ++ omap f (<[i := y]> l).
Proof.
  intros Hi. pose proof (lookup_lt_Some _ _ _ Hi) as Hlt.
  rewrite <- (take_drop_middle l i x Hi) at 1. rewrite (insert_take_drop l i y Hlt).
  rewrite !omap_app. cbn [omap list_omap].
  destruct (f x) as [a|], (f y) as [b|]; cbn; solve_Permutation.
Qed.

Lemma detach_owed slot c p :
  pending_ c !! slot = Some p -> p_active p = true ->
  owed c ≡ₚ option_list (detach slot c).1 ++ owed (detach slot c).2 /\
  history_ (detach slot c).2 = history_ c.
Proof.
  intros Hp Ha. unfold detach. rewrite Hp. cbn [fst snd].
  destruct (retire_same (p_seq p) (set_pending_ (<[slot:=vacate p]> (pending_ c)) c))
    as (H1 & H2 & H3 & _).
  split; [|by rewrite H3]. unfold owed. rewrite H1, H2. cbn [pending_ deferred_ set_pending_].
  pose proof (omap_insert_perm entry_callback (pending_ c) slot p (vacate p) Hp) as H.
  unfold entry_callback in H at 1 3. rewrite Ha in H. cbn [vacate p_active option_list app] in H.
  by rewrite H, app_assoc.
Qed.

Lemma defer_owed cb e c :
  owed (defer cb e c).2 ≡ₚ option_list cb ++ owed c /\ history_ (defer cb e c).2 = history_ c.
Proof.
  unfold defer. destruct cb as [cb|]; cbn; [|done]. split; [|done].
  unfold owed. cbn. rewrite omap_app. cbn. solve_Permutation.
Qed.

Lemma owed_same c c' :
  pending_ c' = pending_ c -> deferred_ c' = deferred_ c -> owed c' = owed c.
Proof. unfold owed. by intros -> ->. Qed.

Lemma free_slot_spec c slot :
  free_slot c = Some slot -> exists p, pending_ c !! slot = Some p /\ p_active p = false.
Proof.
  unfold free_slot. intros H. apply fmap_Some in H as ([i p] & H & ->).
  apply list_find_Some in H as (H & Ha & _). eauto.
Qed.

Lemma find_by_seq_spec n c slot :
  find_by_seq n c = Some slot ->
  exists p, pending_ c !! slot = Some p /\ p_active p = true /\ p_seq p = n.
Proof.
  unfold find_by_seq. intros H. apply fmap_Some in H as ([i p] & H & ->).
  apply list_find_Some in H as (H & [Ha Hn] & _). eauto.
Qed.

Lemma resolve_spec h c slot :
  resolve h c = Some slot ->
  slot = rh_slot h /\ exists p, pending_ c !! slot = Some p /\ p_active p = true /\
    p_generation p = rh_generation h.
Proof.
  unfold resolve. destruct (_ || _); [done|]. destruct (pending_ c !! rh_slot h) as [p|] eqn:Ep; [|done].
  destruct (_ || _) eqn:E; [done|]. bool_to_prop. intros [= <-]. eauto.
Qed.

Lemma request_owed spec cb c :
  owed (request spec cb c).2 ≡ₚ option_list cb ++ owed c /\
  history_ (request spec cb c).2 = history_ c.
Proof.
  unfold request. destruct (negb _); [apply defer_owed|]. destruct (_ <? _); [apply defer_owed|].
  destruct (free_slot c) as [slot|] eqn:Ef; [|apply defer_owed].
  unfold allocate_seq. destruct (allocate_from 0 256 c) as [n|]; [|apply defer_owed].
  apply free_slot_spec in Ef as (p & Hp & Ha).
  destruct (send _ _ _) as [?|e].
  - cbn. split; [|done]. unfold owed. cbn.
    set (q := mkPending true _ _ _ _ _ _ cb).
    pose proof (omap_insert_perm entry_callback (pending_ c) slot p q Hp) as H.
    unfold entry_callback in H at 1 3. rewrite Ha in H. cbn [q p_active p_callback option_list app] in H.
    by rewrite <- H, app_assoc.
  - match goal with |- context [defer cb e (retire n ?c1)] =>
      destruct (defer_owed cb e (retire n c1)) as [Ho Hh]; rewrite Ho, Hh;
      destruct (retire_same n c1) as (H1 & H2 & H3 & _)
    end.
    split; [|by rewrite H3]. by rewrite (owed_same _ _ H1 H2).
Qed.

Lemma cancel_owed h c : owed (cancel h c) ≡ₚ owed c /\ history_ (cancel h c) = history_ c.
Proof.
  unfold cancel. destruct (resolve h c) as [slot|] eqn:Er; [|done].
  apply resolve_spec in Er as (_ & p & Hp & Ha & _).
  pose proof (detach_owed slot (bump count_cancelled c) p Hp Ha) as [Ho Hh].
  destruct (detach slot (bump count_cancelled c)) as [cb c'] eqn:Ed. cbn [fst snd] in *.
  destruct (defer_owed cb (Error_at Cancelled "smp client: cancelled") c') as [Hd Hh'].
  rewrite Hd, Hh', Hh. split; [|done]. rewrite <- Ho. by unfold owed.
Qed.

Lemma owed_log l c : owed (log l c) = owed c.
Proof. done. Qed.

Lemma history_log l c : history_ (log l c) = history_ c ++ [l].
Proof. done. Qed.

Lemma exec_accounted held cmd c : accounted held c -> accounted held (exec c cmd).
Proof.
  unfold accounted. intros H. destruct cmd as [spec cb|h|w]; cbn [exec].
  - destruct (request_owed spec cb c) as [Ho Hh].
    destruct (request spec cb c) as [hd c']. cbn [snd] in *.
    rewrite owed_log, history_log. unfold requested, done_ in *. rewrite !omap_app, Hh, H, Ho.
    destruct cb; cbn; solve_Permutation.
  - destruct (cancel_owed h c) as [Ho Hh]. by rewrite Hh, Ho.
  - destruct w as [w|]; cbn; [|done]. rewrite H. unfold owed. cbn. rewrite omap_app. cbn.
    by rewrite app_nil_r.
Qed.

(** ** What every operation keeps

    A property of the client, with the callbacks in hand, that the elementary
    moves keep -- a call of the application, telling it something, taking an
    entry out of the table or a batch out of the queue -- is kept by every
    operation, however its callbacks re-enter the client. *)
Definition same_books (c c' : SmpClient) : Prop :=
  pending_ c' = pending_ c /\ deferred_ c' = deferred_ c /\ history_ c' = history_ c /\
  config_ c' = config_ c /\ retired_flags_ c' = retired_flags_ c /\
  retired_ring_ c' = retired_ring_ c /\ retired_head_ c' = retired_head_ c /\
  next_seq_ c' = next_seq_ c.

Record closed (P : list nat -> SmpClient -> Prop) : Prop := mkClosed {
  cl_exec : forall held c cmd, P held c -> P held (exec c cmd);
  cl_done : forall held c cb r, P (cb :: held) c -> P held (log (L_Done cb r) c);
  cl_work : forall held c w, P held c -> P held (log (L_Work w) c);
  cl_frame : forall held c c', same_books c c' -> P held c -> P held c';
  cl_detach : forall held c slot p, pending_ c !! slot = Some p -> p_active p = true ->
    P held c -> P (option_list (detach slot c).1 ++ held) (detach slot c).2;
  cl_take : forall held c, P held c ->
    P (omap work_callback (deferred_ c) ++ held) (set_deferred_ [] c)
}.

Section closed.
Context (P : list nat -> SmpClient -> Prop) (HP : closed P).

Lemma bump_closed held f c : P held c -> P held (bump f c).
Proof. by apply (cl_frame P HP). Qed.

Lemma execs_closed held cmds c : P held c -> P held (foldl exec c cmds).
Proof. pose proof (cl_exec P HP). revert c. induction cmds; cbn; auto. Qed.

Lemma invoke_closed held cb r c : P (option_list cb ++ held) c -> P held (invoke cb r c).
Proof.
  destruct cb as [cb|]; [|done]. intros H. by apply execs_closed, (cl_done P HP).
Qed.

Lemma complete_closed held slot r c p :
  pending_ c !! slot = Some p -> p_active p = true -> P held c -> P held (complete slot r c).
Proof.
  intros Hp Ha H. apply (cl_detach P HP held c slot p Hp Ha) in H. unfold complete.
  destruct (detach slot c) as [cb c']. by apply invoke_closed.
Qed.

Lemma fail_slots_closed held e l c : P held c -> P held (foldl (fail_slot e) c l).
Proof.
  revert c. induction l as [|slot l IH]; intros c H; [done|]. cbn [foldl]. apply IH.
  unfold fail_slot. destruct (pending_ c !! slot) as [p|] eqn:Ep; [|done].
  destruct (p_active p) eqn:Ea; [|done]. by eapply complete_closed.
Qed.

Lemma fail_all_closed held e c : P held c -> P held (fail_all e c).
Proof. apply fail_slots_closed. Qed.

Lemma run_works_closed held ws c :
  P (omap work_callback ws ++ held) c -> P held (foldl run_work c ws).
Proof.
  revert c. induction ws as [|[cb e|w] ws IH]; intros c H; cbn in *; [done|..]; apply IH.
  - by apply execs_closed, (cl_done P HP).
  - by apply execs_closed, (cl_work P HP).
Qed.

Lemma deliver_body_closed held c c' :
  P held c -> deliver_body c = Continue c' -> P held c'.
Proof.
  intros H. unfold deliver_body. destruct (deferred_ c) as [|w ws] eqn:Ed; [done|].
  intros [= <-]. apply (run_works_closed held (w :: ws)). rewrite <- Ed. by apply (cl_take P HP).
Qed.

Lemma deliver_closed held fuel c c' :
  P held c -> deliver_deferred fuel c = Some c' -> P held c' /\ deferred_ c' = [].
Proof.
  unfold deliver_deferred. apply (iterate_inv _ (P held) (fun c => P held c /\ deferred_ c = [])).
  - intros. by eapply deliver_body_closed.
  - intros s r H. unfold deliver_body. destruct (deferred_ s) eqn:E; [|done]. by intros [= <-].
Qed.

Lemma expires_closed held hs c : P held c -> P held (foldl expire c hs).
Proof.
  revert c. induction hs as [|h hs IH]; intros c H; [done|]. cbn [foldl]. apply IH.
  unfold expire. destruct (resolve h c) as [slot|] eqn:Er; [|done].
  apply resolve_spec in Er as (_ & p & Hp & Ha & _).
  apply (complete_closed held slot _ (bump count_timeouts c) p); [done|done|by apply bump_closed].
Qed.

Lemma poll_closed held fuel now c c' :
  P held c -> poll fuel now c = Some c' -> P held c' /\ deferred_ c' = [].
Proof.
  unfold poll. intros H. destruct (deliver_deferred fuel c) as [c1|] eqn:E1; [|done].
  apply (deliver_closed held) in E1 as [H1 _]; [|done]. intros E2.
  apply (deliver_closed held) in E2; [done|]. by apply expires_closed.
Qed.

Lemma on_message_closed held m c : P held c -> P held (on_message c m).
Proof.
  intros H. destruct m as [hd pl]. unfold on_message. apply (bump_closed _ count_received) in H.
  destruct (find_by_seq _ _) as [slot|] eqn:Ef; [|by destruct (is_retired _ _); apply bump_closed].
  apply find_by_seq_spec in Ef as (p & Hp & Ha & _). rewrite Hp.
  destruct (matches hd p); [|by apply bump_closed]. by eapply complete_closed.
Qed.

Lemma on_messages_closed held ms c : P held c -> P held (foldl on_message c ms).
Proof. revert c. induction ms; cbn; auto using on_message_closed. Qed.

Lemma call_closed held fuel k c c' : P held c -> call fuel k c = Some c' -> P held c'.
Proof.
  intros H. destruct k as [cmd|now|t|input|e|e|now]; cbn [call].
  - intros [= <-]. by apply (cl_exec P HP).
  - intros E. by eapply poll_closed in E as [? _].
  - intros [= <-]. eapply (cl_frame P HP); [|by eapply fail_all_closed]. done.
  - unfold on_bytes. destruct (feed input _) as [[[res a] out]|]; [|done].
    assert (P held (foldl on_message (set_assembler_ a c) out)) as H'
      by (apply on_messages_closed; by apply (cl_frame P HP held c)).
    destruct res as [?|e]; intros [= <-]; [done|]. by apply fail_all_closed, bump_closed.
  - intros [= <-]. by apply (cl_frame P HP held c).
  - intros [= <-]. apply fail_all_closed. by apply (cl_frame P HP held c).
  - intros [= <-]. by apply (cl_frame P HP held c).
Qed.

Lemma calls_closed held fuel ks c c' : P held c -> calls fuel ks c = Some c' -> P held c'.
Proof.
  revert c. induction ks as [|k ks IH]; intros c H; cbn [calls]; [by intros [= <-]|].
  destruct (call fuel k c) as [c1|] eqn:E; [|done]. apply IH. by eapply call_closed.
Qed.

End closed.

Lemma closed_True : closed (fun _ _ => True).
Proof. by split. Qed.

Lemma accounted_closed : closed accounted.
Proof.
  split.
  - intros. by apply exec_accounted.
  - intros held c cb r H. unfold accounted in *. rewrite owed_log, history_log.
    unfold requested, done_ in *. rewrite !omap_app. cbn. rewrite app_nil_r, H. solve_Permutation.
  - intros held c w H. unfold accounted in *. rewrite owed_log, history_log.
    unfold requested, done_ in *. rewrite !omap_app. cbn. by rewrite !app_nil_r.
  - intros held c c' (Hp & Hd & Hh & _) H. unfold accounted. by rewrite Hh, (owed_same _ _ Hp Hd).
  - intros held c slot p Hp Ha H. destruct (detach_owed slot c p Hp Ha) as [Ho Hh].
    unfold accounted in *. rewrite Hh, H, Ho. solve_Permutation.
  - intros held c H. unfold accounted, owed in *.
    change (history_ (set_deferred_ [] c)) with (history_ c).
    change (pending_ (set_deferred_ [] c)) with (pending_ c).
    change (deferred_ (set_deferred_ [] c)) with (@nil Work).
    rewrite H. change (omap work_callback []) with (@nil nat). rewrite app_nil_r. solve_Permutation.
Qed.

(** ** Sequence numbers *)

Definition entry_seq (p : Pending) : option Z := if p_active p then Some (p_seq p) else None.

Definition active_seqs (c : SmpClient) : list Z := omap entry_seq (pending_ c).

(** The requests in flight have sequence numbers of their own, none of them
    retired; the retired set is what the ring remembers, and is bounded. *)
Record client_ok (c : SmpClient) : Prop := mkClientOk {
  ok_slots : length (pending_ c) = (1 `max` max_in_flight (config_ c))%nat;
  ok_flags : length (retired_flags_ c) = 256%nat;
  ok_ring : forall n, u8 n -> is_retired n c = true <-> n ∈ retired_ring_ c;
  ok_ring_bytes : Forall (fits 8) (retired_ring_ c);
  ok_ring_once : NoDup (retired_ring_ c);
  ok_ring_bound : (length (retired_ring_ c) <= max_retired_seqs (config_ c))%nat;
  ok_head : retired_head_ c = O \/ (retired_head_ c < length (retired_ring_ c))%nat;
  ok_next : u8 (next_seq_ c);
  ok_seqs : NoDup (active_seqs c);
  ok_seq_bytes : Forall (fits 8) (active_seqs c);
  ok_apart : forall n, n ∈ active_seqs c -> is_retired n c = false
}.

Lemma is_retired_flag n m b c :
  u8 n -> u8 m -> length (retired_flags_ c) = 256%nat ->
  is_retired n (flag m b c) = if decide (n = m) then b else is_retired n c.
Proof.
  intros Hn Hm Hl. unfold is_retired, flag. cbn [retired_flags_ set_retired_flags_].
  unfold fits in *. case_decide as E.
  - subst. rewrite list_lookup_insert_eq by lia. done.
  - rewrite list_lookup_insert_ne by lia. done.
Qed.

Lemma insert_perm {A} (l : list A) i x y :
  l !! i = Some x -> exists rest, l ≡ₚ x :: rest /\ <[i := y]> l ≡ₚ y :: rest.
Proof.
  intros Hi. exists (take i l ++ drop (S i) l).
  rewrite (insert_take_drop l i y) by (by eapply lookup_lt_Some).
  rewrite <- (take_drop_middle l i x Hi) at 1. split; solve_Permutation.
Qed.

(** The two ways of remembering a number: the ring is full and the oldest is
    forgotten, or there is room. *)
Definition retire_evict (n : Z) (c : SmpClient) : SmpClient :=
  let head := retired_head_ c in
  let c := flag (default 0 (retired_ring_ c !! head)) false c in
  let c := set_retired_ring_ (<[head := n]> (retired_ring_ c)) c in
  flag n true (set_retired_head_ ((head + 1) mod length (retired_ring_ c))%nat c).

Definition retire_push (n : Z) (c : SmpClient) : SmpClient :=
  flag n true (set_retired_ring_ (retired_ring_ c ++ [n]) c).

Lemma retire_cases n c :
  retire n c = c \/
  (is_retired n c = false /\
   ((length (retired_ring_ c) = max_retired_seqs (config_ c) /\ max_retired_seqs (config_ c) <> O /\
     retire n c = retire_evict n c) \/
    (length (retired_ring_ c) <> max_retired_seqs (config_ c) /\ retire n c = retire_push n c))).
Proof.
  unfold retire. destruct (_ =? 0)%nat eqn:Em; [by left|]. apply Nat.eqb_neq in Em.
  destruct (is_retired n c); [by left|]. right. split; [done|].
  destruct (_ =? _)%nat eqn:Ef; [apply Nat.eqb_eq in Ef; left|apply Nat.eqb_neq in Ef; right]; done.
Qed.

Lemma active_u8 n c : client_ok c -> n ∈ active_seqs c -> u8 n.
Proof. intros Hok. apply Forall_forall, ok_seq_bytes, Hok. Qed.

Lemma retire_evict_ok n c :
  u8 n -> n ∉ active_seqs c -> n ∉ retired_ring_ c ->
  length (retired_ring_ c) = max_retired_seqs (config_ c) -> max_retired_seqs (config_ c) <> O ->
  client_ok c -> client_ok (retire_evict n c).
Proof using Type.
  clear send extract_mgmt_error react.
  intros Hn Hna Hnr Hf Hm0 Hok. pose proof (fun m => active_u8 m c Hok) as Hu.
  destruct Hok as [H1 H2 H3 H4 H5 H6 H7 H8 H9 H10 H11]. unfold retire_evict.
  destruct (lookup_lt_is_Some_2 (retired_ring_ c) (retired_head_ c)) as [old Hold]; [lia|].
  rewrite Hold. cbn [default]. set (c' := flag n true _).
  destruct (insert_perm _ _ _ n Hold) as (rest & Hr & Hr').
  assert (u8 old) as Ho8 by (eapply Forall_lookup_1 in H4; eauto).
  rewrite Hr in H5. apply NoDup_cons in H5 as [Hor Hnd].
  assert (n ∉ rest) as Hnrest by (intros ?; apply Hnr; rewrite Hr; by right).
  assert (forall m, u8 m -> is_retired m c' =
           if decide (m = n) then true else if decide (m = old) then false else is_retired m c) as Hir.
  { intros m Hm. unfold c'. rewrite is_retired_flag; [|done|done|cbn; by rewrite length_insert].
    case_decide; [done|]. exact (is_retired_flag m old false c Hm Ho8 H2). }
  split; cbn -[Nat.modulo is_retired]; try done.
  - by rewrite !length_insert.
  - intros m Hm. rewrite Hir, Hr', elem_of_cons by done. specialize (H3 m Hm).
    rewrite Hr, elem_of_cons in H3. repeat case_decide; subst; naive_solver.
  - rewrite Hr in H4. rewrite Hr'. apply Forall_cons in H4 as [_ ?]. by constructor.
  - rewrite Hr'. by constructor.
  - rewrite length_insert. lia.
  - rewrite length_insert. right. apply Nat.mod_upper_bound. lia.
  - intros m Hm. rewrite Hir by auto. case_decide; [by subst|]. case_decide; [done|]. by apply H11.
Qed.

Lemma retire_push_ok n c :
  u8 n -> n ∉ active_seqs c -> n ∉ retired_ring_ c ->
  length (retired_ring_ c) <> max_retired_seqs (config_ c) ->
  client_ok c -> client_ok (retire_push n c).
Proof using Type.
  clear send extract_mgmt_error react.
  intros Hn Hna Hnr Hf Hok. pose proof (fun m => active_u8 m c Hok) as Hu.
  destruct Hok as [H1 H2 H3 H4 H5 H6 H7 H8 H9 H10 H11].
  assert (forall m, u8 m -> is_retired m (retire_push n c)
           = if decide (m = n) then true else is_retired m c) as Hir.
  { intros m Hm. unfold retire_push. by rewrite is_retired_flag. }
  split; cbn -[is_retired]; try done.
  - by rewrite length_insert.
  - intros m Hm. rewrite Hir by done. specialize (H3 m Hm).
    rewrite elem_of_app, list_elem_of_singleton. case_decide; naive_solver.
  - apply Forall_app. split; [done|by constructor].
  - apply NoDup_app. split_and!; [done| |apply NoDup_singleton].
    by intros m Hm ->%list_elem_of_singleton.
  - rewrite length_app. cbn. lia.
  - rewrite length_app. lia.
  - intros m Hm. rewrite Hir by auto. case_decide; [by subst|]. by apply H11.
Qed.

Lemma retire_ok n c : u8 n -> n ∉ active_seqs c -> client_ok c -> client_ok (retire n c).
Proof.
  intros Hn Hna Hok. destruct (retire_cases n c) as [->|(Hr & Hc)]; [done|].
  assert (n ∉ retired_ring_ c) as Hnr by (intros H%(ok_ring c Hok n Hn); congruence).
  destruct Hc as [(? & ? & ->)|(? & ->)]; [by apply retire_evict_ok|by apply retire_push_ok].
Qed.

(** A client that differs in its table alone. *)
Lemma client_ok_table c ps :
  client_ok c -> length ps = length (pending_ c) -> NoDup (omap entry_seq ps) ->
  (forall n, n ∈ omap entry_seq ps -> u8 n /\ is_retired n c = false) ->
  client_ok (set_pending_ ps c).
Proof.
  intros [H1 H2 H3 H4 H5 H6 H7 H8 H9 H10 H11] Hl Hn Ha.
  split; cbn -[is_retired]; try done; [by rewrite Hl| |].
  - apply Forall_forall. intros n Hn'. by apply Ha.
  - intros n Hn'. by apply Ha.
Qed.

Lemma client_ok_frame c c' : same_books c c' -> client_ok c -> client_ok c'.
Proof.
  intros (Hp & Hd & Hh & Hc & Hf & Hr & Hhd & Hn) [H1 H2 H3 H4 H5 H6 H7 H8 H9 H10 H11].
  split; unfold active_seqs, is_retired in *; rewrite ?Hp, ?Hc, ?Hf, ?Hr, ?Hhd, ?Hn; done.
Qed.

Lemma detach_ok slot c p :
  pending_ c !! slot = Some p -> p_active p = true -> client_ok c -> client_ok (detach slot c).2.
Proof.
  intros Hp Ha Hok. unfold detach. rewrite Hp. cbn [snd].
  pose proof (omap_insert_perm entry_seq (pending_ c) slot p (vacate p) Hp) as Hperm.
  unfold entry_seq in Hperm at 1 3. rewrite Ha in Hperm. cbn [vacate p_active option_list app] in Hperm.
  fold (active_seqs c) in Hperm. set (ps := <[slot:=vacate p]> (pending_ c)) in *.
  pose proof (ok_seqs c Hok) as Hnd. rewrite Hperm in Hnd. apply NoDup_cons in Hnd as [Hni Hnd].
  assert (forall n, n ∈ omap entry_seq ps -> n ∈ active_seqs c) as Hsub
    by (intros n Hn; rewrite Hperm; by right).
  apply retire_ok; [apply (active_u8 _ c Hok); rewrite Hperm; by left|done|].
  apply client_ok_table; [done|apply length_insert|done|].
  intros n Hn. split; [by eapply active_u8; eauto|by apply (ok_apart c Hok), Hsub].
Qed.

Lemma find_by_seq_None n c : find_by_seq n c = None -> n ∉ active_seqs c.
Proof.
  unfold find_by_seq, active_seqs. intros H%fmap_None%list_find_None Hin.
  apply list_elem_of_omap in Hin as (p & Hp & He). rewrite Forall_forall in H.
  apply (H p Hp). unfold entry_seq in He. destruct (p_active p); [|done]. by simplify_eq.
Qed.

Lemma allocate_from_spec attempt fuel c n :
  allocate_from attempt fuel c = Some n ->
  u8 n /\ (n ∉ active_seqs c) /\ is_retired n c = false.
Proof.
  revert attempt. induction fuel as [|fuel IH]; intros attempt; cbn [allocate_from]; [done|].
  destruct (_ && _) eqn:E; [|apply IH]. intros [= <-]. bool_to_prop.
  split_and!; [by apply Z.mod_pos_bound|by apply find_by_seq_None|done].
Qed.

Lemma defer_ok cb e c : client_ok c -> client_ok (defer cb e c).2.
Proof.
  intros Hok. unfold defer. destruct cb; [|done]. cbn. destruct Hok. by split.
Qed.

Lemma request_ok spec cb c : client_ok c -> client_ok (request spec cb c).2.
Proof.
  intros Hok. unfold request. destruct (negb _); [by apply defer_ok|].
  destruct (_ <? _); [by apply defer_ok|].
  destruct (free_slot c) as [slot|] eqn:Ef; [|by apply defer_ok].
  unfold allocate_seq. destruct (allocate_from 0 256 c) as [n|] eqn:Ea; [|by apply defer_ok].
  apply allocate_from_spec in Ea as (Hn & Hna & Hnr).
  apply free_slot_spec in Ef as (p & Hp & Hi).
  assert (forall w, client_ok (set_wire_ w (set_next_seq_ ((n + 1) mod 256) c))) as Hok'.
  { intros w. destruct Hok. split; try done. cbn [next_seq_ set_wire_ set_next_seq_].
    by apply Z.mod_pos_bound. }
  destruct (send _ _ _) as [?|e]; [|by apply defer_ok, retire_ok].
  cbn [snd]. set (c1 := set_wire_ _ _) in *. set (q := mkPending true _ _ _ _ _ _ _).
  eapply (client_ok_frame (set_pending_ (<[slot:=q]> (pending_ c1)) c1)); [done|].
  pose proof (omap_insert_perm entry_seq (pending_ c) slot p q Hp) as Hperm.
  unfold entry_seq in Hperm at 1 3. rewrite Hi in Hperm. cbn [q p_active p_seq option_list app] in Hperm.
  apply client_ok_table; [apply Hok'|apply length_insert|..]; change (pending_ c1) with (pending_ c).
  - rewrite <- Hperm. apply NoDup_cons. split; [done|apply (ok_seqs c Hok)].
  - intros m Hm. rewrite <- Hperm in Hm. apply elem_of_cons in Hm as [->|Hm]; [done|].
    split; [by eapply active_u8; eauto|by apply (ok_apart c Hok)].
Qed.

Lemma client_ok_closed : closed (fun _ => client_ok).
Proof.
  split.
  - intros _ c cmd Hok. destruct cmd as [spec cb|h|w]; cbn [exec].
    + pose proof (request_ok spec cb c Hok) as H. destruct (request spec cb c) as [h c'].
      cbn [snd] in H. destruct H. by split.
    + unfold cancel. destruct (resolve h c) as [slot|] eqn:Er; [|done].
      apply resolve_spec in Er as (_ & p & Hp & Ha & _).
      pose proof (detach_ok slot (bump count_cancelled c) p Hp Ha) as Hd.
      destruct (detach _ _) as [cb c']. apply defer_ok, Hd. by apply (client_ok_frame c).
    + destruct w; [|done]. destruct Hok. by split.
  - intros _ c cb r Hok. destruct Hok. by split.
  - intros _ c w Hok. destruct Hok. by split.
  - intros _. apply client_ok_frame.
  - intros _ c slot p Hp Ha. by eapply detach_ok.
  - intros _ c Hok. destruct Hok. by split.
Qed.

Lemma new_client_ok config now : client_ok (new_client config now).
Proof.
  assert (active_seqs (new_client config now) = []) as Hs.
  { unfold active_seqs, new_client. cbn [pending_]. by induction (1 `max` _)%nat. }
  split; rewrite ?Hs; try done; try (by constructor).
  - apply length_replicate.
  - intros n Hn. split; [|intros H; by inversion H]. unfold is_retired, new_client. cbn [retired_flags_].
    destruct (replicate 256 false !! Z.to_nat n) as [b|] eqn:E; [|done].
    apply lookup_replicate in E as [-> _]. done.
  - cbn. lia.
  - intros n Hn. by inversion Hn.
Qed.

(** Two entries in flight with the same number are the same entry. *)
Lemma omap_once {A B} (f : A -> option B) (l : list A) i j x y b :
  NoDup (omap f l) -> l !! i = Some x -> l !! j = Some y -> f x = Some b -> f y = Some b -> i = j.
Proof.
  revert i j. induction l as [|a l IH]; intros i j Hnd Hi Hj Hx Hy; [done|].
  assert (NoDup (omap f l)) as Hnd'.
  { cbn in Hnd. destruct (f a); [by apply NoDup_cons in Hnd as [_ ?]|done]. }
  assert (forall k z, l !! k = Some z -> f z = Some b -> f a = Some b -> False) as Hno.
  { intros k z Hk Hz Ha. cbn in Hnd. rewrite Ha in Hnd. apply NoDup_cons in Hnd as [Hn _].
    apply Hn, list_elem_of_omap. exists z. split; [by eapply list_elem_of_lookup_2|done]. }
  destruct i as [|i], j as [|j]; cbn in Hi, Hj; simplify_eq; [done|..].
  - destruct (Hno j y); done.
  - destruct (Hno i x); done.
  - f_equal. by eapply IH.
Qed.

(** ** A request is tracked until its callback runs *)

(** A call of the application queues work and records history, and takes
    nothing away from either. *)
Definition extends (c c' : SmpClient) : Prop :=
  exists ws ls, deferred_ c' = deferred_ c ++ ws /\ history_ c' = history_ c ++ ls.

Lemma extends_refl c c' :
  deferred_ c' = deferred_ c -> history_ c' = history_ c -> extends c c'.
Proof. intros Hd Hh. exists [], []. by rewrite !app_nil_r. Qed.

Lemma extends_trans c1 c2 c3 : extends c1 c2 -> extends c2 c3 -> extends c1 c3.
Proof.
  intros (ws & ls & Hd & Hh) (ws' & ls' & Hd' & Hh'). exists (ws ++ ws'), (ls ++ ls').
  by rewrite Hd', Hh', Hd, Hh, !app_assoc.
Qed.

Lemma defer_extends cb e c : extends c (defer cb e c).2.
Proof.
  unfold defer. destruct cb as [cb|]; [|by apply extends_refl]. exists [W_Fail cb e], [].
  cbn. by rewrite app_nil_r.
Qed.

Lemma detach_extends slot c : extends c (detach slot c).2.
Proof.
  unfold detach. destruct (pending_ c !! slot) as [q|]; [|by apply extends_refl].
  destruct (retire_same (p_seq q) (set_pending_ (<[slot:=vacate q]> (pending_ c)) c))
    as (_ & Hd & Hh & _). by apply extends_refl.
Qed.

Lemma request_extends spec cb c : extends c (request spec cb c).2.
Proof.
  unfold request. destruct (negb _); [apply defer_extends|]. destruct (_ <? _); [apply defer_extends|].
  destruct (free_slot c) as [slot|]; [|apply defer_extends].
  unfold allocate_seq. destruct (allocate_from 0 256 c) as [n|]; [|apply defer_extends].
  destruct (send _ _ _); [by apply extends_refl|].
  eapply extends_trans; [|apply defer_extends].
  match goal with |- extends _ (retire n ?c1) => destruct (retire_same n c1) as (_ & Hd & Hh & _) end.
  by apply extends_refl.
Qed.

Lemma exec_extends c cmd : extends c (exec c cmd).
Proof.
  destruct cmd as [spec cb|h|w]; cbn [exec].
  - pose proof (request_extends spec cb c) as H. destruct (request spec cb c) as [h c'].
    eapply extends_trans; [exact H|]. exists [], [L_Request h cb]. cbn. by rewrite app_nil_r.
  - unfold cancel. destruct (resolve h c) as [slot|]; [|by apply extends_refl].
    pose proof (detach_extends slot (bump count_cancelled c)) as H.
    destruct (detach _ _) as [cb c']. eapply extends_trans; [exact H|apply defer_extends].
  - destruct w as [w|]; [|by apply extends_refl]. exists [W_User w], []. cbn. by rewrite app_nil_r.
Qed.

(** The callback has run, is queued, or is in hand. *)
Definition gone (k : nat) (held : list nat) (c : SmpClient) : Prop :=
  k ∈ done_ (history_ c) ++ held ++ omap work_callback (deferred_ c).

Lemma gone_extends k held c c' : extends c c' -> gone k held c -> gone k held c'.
Proof.
  intros (ws & ls & Hd & Hh). unfold gone, done_. rewrite Hd, Hh, !omap_app. set_solver.
Qed.

Lemma gone_closed k : closed (gone k).
Proof.
  split.
  - intros held c cmd. apply gone_extends, exec_extends.
  - intros held c cb r. unfold gone, done_. rewrite history_log, omap_app. cbn. set_solver.
  - intros held c w. unfold gone, done_. rewrite history_log, omap_app. cbn. set_solver.
  - intros held c c' (_ & Hd & Hh & _). unfold gone. by rewrite Hd, Hh.
  - intros held c slot q _ _ H. apply (gone_extends k held _ _ (detach_extends slot c)) in H.
    unfold gone in *. set_solver.
  - intros held c. unfold gone. cbn. set_solver.
Qed.

(** The entry of slot [i] is still in the table, or its callback has gone. *)
Definition tracked (i : nat) (p : Pending) (k : nat) (held : list nat) (c : SmpClient) : Prop :=
  pending_ c !! i = Some p \/ gone k held c.

Lemma detach_lookup slot c j :
  pending_ (detach slot c).2 !! j =
  if decide (j = slot) then vacate <$> (pending_ c !! j) else pending_ c !! j.
Proof.
  unfold detach. destruct (pending_ c !! slot) as [q|] eqn:Eq; cbn [snd].
  - rewrite (proj1 (retire_same _ _)). cbn [pending_ set_pending_]. case_decide as E.
    + subst. rewrite Eq. apply list_lookup_insert_eq. by eapply lookup_lt_Some.
    + by rewrite list_lookup_insert_ne.
  - case_decide; [by subst; rewrite Eq|done].
Qed.

Lemma defer_table cb e c : pending_ (defer cb e c).2 = pending_ c.
Proof. by destruct cb. Qed.

(** A request goes into a free slot. *)
Lemma request_lookup spec cb c j p :
  pending_ c !! j = Some p -> p_active p = true -> pending_ (request spec cb c).2 !! j = Some p.
Proof.
  intros Hp Ha. unfold request. destruct (negb _); [by rewrite defer_table|].
  destruct (_ <? _); [by rewrite defer_table|].
  destruct (free_slot c) as [slot|] eqn:Ef; [|by rewrite defer_table].
  unfold allocate_seq. destruct (allocate_from 0 256 c) as [n|]; [|by rewrite defer_table].
  apply free_slot_spec in Ef as (q & Hq & Hi).
  destruct (send _ _ _).
  - cbn. rewrite list_lookup_insert_ne; [done|]. intros ->. congruence.
  - rewrite defer_table, (proj1 (retire_same _ _)). done.
Qed.

Section tracked.
Context (i : nat) (p : Pending) (k : nat) (Ha : p_active p = true) (Hk : p_callback p = Some k).

Lemma detach_tracked held c slot :
  tracked i p k held c -> tracked i p k (option_list (detach slot c).1 ++ held) (detach slot c).2.
Proof.
  intros [Hp|H].
  - unfold tracked. rewrite detach_lookup. case_decide as E; [|by left]. subst slot. right.
    unfold detach, gone. rewrite Hp. cbn [fst]. rewrite Hk. set_solver.
  - right. apply (gone_extends k held _ _ (detach_extends slot c)) in H. unfold gone in *. set_solver.
Qed.

Lemma tracked_closed : closed (tracked i p k).
Proof.
  split.
  - intros held c cmd [Hp|H]; [|right; by apply gone_closed].
    destruct cmd as [spec cb|h|w]; cbn [exec]; [..|by destruct w; left].
    + pose proof (request_lookup spec cb c i p Hp Ha) as H'.
      destruct (request spec cb c) as [h c']. by left.
    + unfold cancel. destruct (resolve h c) as [slot|]; [|by left].
      pose proof (detach_tracked held (bump count_cancelled c) slot (or_introl Hp)) as Hd.
      destruct (detach _ _) as [cb c']. cbn [fst snd] in Hd. destruct Hd as [Hd|Hd].
      * left. by rewrite defer_table.
      * right. unfold gone, defer in *. destruct cb; cbn in *; [|done]. rewrite omap_app. cbn. set_solver.
  - intros held c cb r [H|H]; [by left|right; by apply gone_closed].
  - intros held c w [H|H]; [by left|right; by apply gone_closed].
  - intros held c c' Hs [H|H]; [left; by rewrite (proj1 Hs)|right; by eapply (cl_frame _ (gone_closed k))].
  - intros held c slot q _ _. apply detach_tracked.
  - intros held c [H|H]; [by left|right; by apply gone_closed].
Qed.

(** ** Deadlines *)

Lemma expired_in now c :
  pending_ c !! i = Some p -> p_deadline p <= now ->
  mkHandle i (p_generation p) ∈ expired now c.
Proof.
  intros Hp Hd. unfold expired. apply list_elem_of_omap. exists i. split.
  - apply elem_of_seq. pose proof (lookup_lt_Some _ _ _ Hp). lia.
  - rewrite Hp, Ha, (proj2 (Z.leb_le _ _) Hd). done.
Qed.

(** The sweep completes an expired entry that is still in the table. *)
Lemma expire_gone c :
  p_generation p <> 0 -> pending_ c !! i = Some p ->
  gone k [] (expire c (mkHandle i (p_generation p))).
Proof.
  intros Hg Hp.
  assert (resolve (mkHandle i (p_generation p)) c = Some i) as Hr.
  { unfold resolve, valid. cbn [rh_slot rh_generation].
    apply Z.eqb_neq in Hg as ->. pose proof (lookup_lt_Some _ _ _ Hp) as Hlt.
    rewrite (proj2 (Nat.leb_gt _ _) Hlt). cbn [negb orb]. by rewrite Hp, Ha, Z.eqb_refl. }
  unfold expire. rewrite Hr. unfold complete.
  assert ((detach i (bump count_timeouts c)).1 = Some k) as Hd.
  { unfold detach. change (pending_ (bump count_timeouts c)) with (pending_ c). by rewrite Hp. }
  destruct (detach i (bump count_timeouts c)) as [cb c']. cbn [fst] in Hd. subst cb.
  apply (invoke_closed _ (gone_closed k) [] (Some k)). unfold gone. set_solver.
Qed.

Lemma expires_gone hs c :
  p_generation p <> 0 -> mkHandle i (p_generation p) ∈ hs -> tracked i p k [] c ->
  gone k [] (foldl expire c hs).
Proof.
  intros Hg. revert c. induction hs as [|h hs IH]; intros c Hin Ht; [by inversion Hin|].
  cbn [foldl]. apply elem_of_cons in Hin as [<-|Hin].
  - apply (expires_closed _ (gone_closed k)). destruct Ht as [Hp|H]; [by apply expire_gone|].
    by apply (expires_closed _ (gone_closed k) [] [_]).
  - apply IH; [done|]. by apply (expires_closed _ tracked_closed [] [h]).
Qed.

Lemma poll_times_out fuel now c c' :
  pending_ c !! i = Some p -> p_generation p <> 0 -> p_deadline p <= now ->
  poll fuel now c = Some c' -> k ∈ done_ (history_ c').
Proof.
  intros Hp Hg Hd. unfold poll. destruct (deliver_deferred fuel c) as [c1|] eqn:E1; [|done].
  apply (deliver_closed _ tracked_closed []) in E1 as [Ht _]; [|by left].
  assert (gone k [] (foldl expire c1 (expired now c1))) as Hgone.
  { destruct Ht as [Hp1|H]; [|by apply (expires_closed _ (gone_closed k))].
    apply expires_gone; [done|by apply expired_in|by left]. }
  intros E2. apply (deliver_closed _ (gone_closed k) []) in E2 as [H Hq]; [|done].
  unfold gone in H. rewrite Hq in H. cbn in H. set_solver.
Qed.

End tracked.

(** ** Returning *)

(** An application that does not go on for ever. *)
Definition stops (n : nat) : Prop := forall h, (n <= length h)%nat -> react h = [].

Lemma execs_extends cmds c : extends c (foldl exec c cmds).
Proof.
  revert c. induction cmds as [|cmd cmds IH]; intros c; [by apply extends_refl|]. cbn [foldl].
  eapply extends_trans; [apply exec_extends|apply IH].
Qed.

Lemma run_work_spec c w :
  (length (history_ c) < length (history_ (run_work c w)))%nat /\
  (forall n, stops n -> (n <= length (history_ c))%nat -> deferred_ (run_work c w) = deferred_ c).
Proof.
  assert (forall l, (length (history_ c) < length (history_ (notify l c)))%nat /\
    (forall n, stops n -> (n <= length (history_ c))%nat -> deferred_ (notify l c) = deferred_ c)) as H.
  { intros l. unfold notify. split.
    - destruct (execs_extends (react (history_ (log l c))) (log l c)) as (ws & ls & _ & Hh).
      rewrite Hh, history_log, !length_app. cbn. lia.
    - intros n Hs Hn. rewrite (Hs (history_ (log l c))); [done|].
      rewrite history_log, length_app. lia. }
  destruct w; apply H.
Qed.

Lemma run_works_spec ws c :
  (length (history_ c) + length ws <= length (history_ (foldl run_work c ws)))%nat /\
  (forall n, stops n -> (n <= length (history_ c))%nat ->
     deferred_ (foldl run_work c ws) = deferred_ c).
Proof.
  revert c. induction ws as [|w ws IH]; intros c; [split; [cbn; lia|done]|]. cbn [foldl length].
  destruct (run_work_spec c w) as [H1 H2]. destruct (IH (run_work c w)) as [H3 H4].
  split; [lia|]. intros n Hs Hn. rewrite (H4 n Hs) by lia. by apply (H2 n).
Qed.

(** Batches left: one for every entry the history may still grow by, while the
    application goes on. *)
Definition batches (n : nat) (c : SmpClient) : nat :=
  match deferred_ c with [] => 0 | _ => S (n - length (history_ c)) end.

Lemma deliver_returns n fuel c :
  stops n -> (n + 2 <= fuel)%nat -> exists c', deliver_deferred fuel c = Some c'.
Proof.
  intros Hs Hf. apply (iterate_total _ (fun _ => True) (batches n)); [|done|].
  - intros c1 c2 _. unfold deliver_body. destruct (deferred_ c1) as [|w ws] eqn:Ed; [done|].
    intros H. split; [done|].
    assert (c2 = foldl run_work (set_deferred_ [] c1) (w :: ws)) as -> by (by injection H).
    destruct (run_works_spec (w :: ws) (set_deferred_ [] c1)) as [H1 H2].
    change (history_ (set_deferred_ [] c1)) with (history_ c1) in H1, H2.
    change (deferred_ (set_deferred_ [] c1)) with (@nil Work) in H2. cbn [length] in H1.
    set (c2 := foldl run_work (set_deferred_ [] c1) (w :: ws)) in *. clearbody c2. clear H.
    assert (batches n c1 = S (n - length (history_ c1))) as -> by (unfold batches; by rewrite Ed).
    destruct (decide (n <= length (history_ c1))%nat) as [Hle|Hgt].
    + unfold batches. rewrite (H2 n Hs Hle). lia.
    + unfold batches. destruct (deferred_ c2); lia.
  - unfold batches. destruct (deferred_ c); lia.
Qed.

Lemma poll_returns n fuel now c :
  stops n -> (n + 2 <= fuel)%nat -> exists c', poll fuel now c = Some c'.
Proof.
  intros Hs Hf. unfold poll. destruct (deliver_returns n fuel c Hs Hf) as [c1 ->].
  by apply (deliver_returns n).
Qed.

(** ** A link that is down *)

(** With the link down, a slot that is free stays free. *)
Definition idle (j : nat) (c : SmpClient) : Prop :=
  connected_ c = false /\ forall q, pending_ c !! j = Some q -> p_active q = false.

Lemma defer_connected cb e c : connected_ (defer cb e c).2 = connected_ c.
Proof. by destruct cb. Qed.

Lemma detach_connected slot c : connected_ (detach slot c).2 = connected_ c.
Proof.
  unfold detach. destruct (pending_ c !! slot) as [q|]; [|done]. cbn [snd].
  by destruct (retire_same (p_seq q) (set_pending_ (<[slot:=vacate q]> (pending_ c)) c))
    as (_ & _ & _ & _ & -> & _).
Qed.

Lemma detach_idle j slot c :
  connected_ c = false -> j = slot \/ idle j c -> idle j (detach slot c).2.
Proof.
  intros Hc Hj. split; [by rewrite detach_connected|]. intros q. rewrite detach_lookup.
  case_decide as E.
  - intros H. apply fmap_Some in H as (q' & _ & ->). done.
  - destruct Hj as [|[_ Hi]]; [done|]. apply Hi.
Qed.

Lemma exec_idle j c cmd : idle j c -> idle j (exec c cmd).
Proof.
  intros Hi. pose proof Hi as [Hc _]. destruct cmd as [spec cb|h|w]; cbn [exec].
  - unfold request. rewrite Hc. cbn [negb]. by destruct cb.
  - unfold cancel. destruct (resolve h c) as [slot|]; [|done].
    pose proof (detach_idle j slot (bump count_cancelled c) Hc (or_intror Hi)) as Hd.
    destruct (detach _ _) as [cb c']. destruct Hd as [Hd1 Hd2].
    split; [by rewrite defer_connected|by rewrite defer_table].
  - by destruct w.
Qed.

Lemma execs_idle j cmds c : idle j c -> idle j (foldl exec c cmds).
Proof. revert c. induction cmds; cbn; auto using exec_idle. Qed.

Lemma complete_idle j slot r c :
  connected_ c = false -> j = slot \/ idle j c -> idle j (complete slot r c).
Proof.
  intros Hc Hj. pose proof (detach_idle j slot c Hc Hj) as Hd. unfold complete.
  destruct (detach slot c) as [[cb|] c']; [|done]. cbn [snd invoke] in *. unfold notify.
  by apply execs_idle.
Qed.

Lemma fail_slot_idle j e c slot :
  connected_ c = false -> j = slot \/ idle j c -> idle j (fail_slot e c slot).
Proof.
  intros Hc Hj. unfold fail_slot. destruct (pending_ c !! slot) as [p|] eqn:Ep.
  - destruct (p_active p) eqn:Ea; cbn [negb]; [by apply complete_idle|].
    destruct Hj as [->|]; [|done]. split; [done|]. intros q Hq. by simplify_eq.
  - destruct Hj as [->|]; [|done]. split; [done|]. intros q Hq. congruence.
Qed.

Lemma fail_slots_idle j e l c :
  connected_ c = false -> idle j c \/ j ∈ l -> idle j (foldl (fail_slot e) c l).
Proof.
  revert c. induction l as [|slot l IH]; intros c Hc Hj; cbn [foldl].
  - destruct Hj as [|Hj]; [done|]. by inversion Hj.
  - assert (connected_ (fail_slot e c slot) = false) as Hc'
      by (by destruct (fail_slot_idle slot e c slot Hc (or_introl eq_refl))).
    apply IH; [done|]. destruct Hj as [Hj|[->|Hj]%elem_of_cons].
    + left. apply fail_slot_idle; auto.
    + left. apply fail_slot_idle; auto.
    + by right.
Qed.

Lemma fail_all_down e c :
  connected_ c = false -> connected_ (fail_all e c) = false /\ in_flight (fail_all e c) = O.
Proof.
  intros Hc.
  assert (forall j, idle j (fail_all e c)) as Hi.
  { intros j. apply fail_slots_idle; [done|].
    destruct (pending_ c !! j) as [q|] eqn:Ej.
    - right. apply elem_of_seq. pose proof (lookup_lt_Some _ _ _ Ej). lia.
    - left. split; [done|]. intros q Hq. congruence. }
  split; [apply (Hi O)|]. unfold in_flight.
  assert (filter (fun p => p_active p = true) (pending_ (fail_all e c)) = []) as ->; [|done].
  apply elem_of_nil_inv. intros q [Ha Hq]%list_elem_of_filter.
  apply list_elem_of_lookup_1 in Hq as [j Hj]. rewrite (proj2 (Hi j) q Hj) in Ha. done.
Qed.

End client.

(** ** Properties *)

(** A transport that takes everything, a decoder that finds no error, an
    application that does nothing in a callback, and one that asks again
    whenever a request fails; for the witnesses. *)
Definition takes_all (t : nat) (sent : list (nat * bytes)) (message : bytes) : Result unit :=
  Success tt.

Definition no_error (payload : bytes) : Result MgmtOutcome := Success (mkOutcome None "").

Definition passive (h : list Log) : list Command := [].

Definition echo : RequestSpec := mkSpec Write 0 0 [160] None.

Definition retries (h : list Log) : list Command :=
  match last h with
  | Some (L_Done k (Fail _)) => [Cmd_request echo (Some (S k))]
  | _ => []
  end.

Definition sample_client : SmpClient := new_client (mkClientConfig V1 5 8192 1024 1 64) 0.

(** One request in flight, due at 5. *)
Definition sample_calls : list Call := [C_Command (Cmd_request echo (Some O))].

Definition sample_busy : SmpClient :=
  default sample_client (calls takes_all no_error passive 2 sample_calls sample_client).

Lemma sample_busy_eq :
  calls takes_all no_error passive 2 sample_calls sample_client = Some sample_busy.
Proof. vm_compute. reflexivity. Qed.

Lemma sample_busy_history : requested (history_ sample_busy) = [O] /\ owed sample_busy = [O].
Proof. vm_compute. done. Qed.

Lemma new_client_accounted config now : accounted [] (new_client config now).
Proof.
  unfold accounted, owed, new_client. cbn [history_ pending_ deferred_ requested done_ omap list_omap].
  rewrite app_nil_r. cbn. by induction (1 `max` _)%nat.
Qed.

(** C16. Every request's callback is owed until it has run, and then no more:
    across any sequence of calls, with any transport and whatever the callbacks
    themselves do, the callbacks requests were made with are, counted, the ones
    that ran and the ones of the requests in flight and of the queue. If they
    are distinct, none runs twice, and one that ran is not owed again. *)
Theorem callbacks_exactly_once (send : nat -> list (nat * bytes) -> bytes -> Result unit)
  (extract : bytes -> Result MgmtOutcome) (react : list Log -> list Command)
  (config : SmpClientConfig) (now : Z) (fuel : nat) (ks : list Call) (c : SmpClient) :
  calls send extract react fuel ks (new_client config now) = Some c ->
  requested (history_ c) ≡ₚ done_ (history_ c) ++ owed c /\
  (NoDup (requested (history_ c)) ->
   NoDup (done_ (history_ c)) /\ forall k, k ∈ done_ (history_ c) -> k ∉ owed c).
Proof.
  intros Hc. assert (accounted [] c) as H
    by (eapply calls_closed; [apply accounted_closed|apply new_client_accounted|exact Hc]).
  unfold accounted in H. cbn [app] in H. split; [done|]. rewrite H. intros Hn.
  apply NoDup_app in Hn as (Hn & Hd & _). done.
Qed.

Lemma callbacks_exactly_once_witness : requested (history_ sample_busy) ≡ₚ done_ (history_ sample_busy) ++ [O].
Proof.
  exact (proj1 (callbacks_exactly_once takes_all no_error passive _ 0 2 sample_calls sample_busy
                  sample_busy_eq)).
Defined.

(** C17. Answers are correlated. In every state a client can reach the requests
    in flight have distinct sequence numbers, none of them retired, and the
    retired set is within its bound; and an answer completes the one request
    whose sequence number, group, command and operation are its own, with what
    the payload says, or else changes a counter and nothing more. *)
Theorem answers_correlated (send : nat -> list (nat * bytes) -> bytes -> Result unit)
  (extract : bytes -> Result MgmtOutcome) (react : list Log -> list Command)
  (config : SmpClientConfig) (now : Z) (fuel : nat) (ks : list Call) (c : SmpClient) :
  calls send extract react fuel ks (new_client config now) = Some c ->
  client_ok c /\
  forall hd payload,
    (exists slot p, pending_ c !! slot = Some p /\ p_active p = true /\ p_seq p = h_seq hd /\
       matches hd p = true /\
       (forall slot' p', pending_ c !! slot' = Some p' -> p_active p' = true ->
          p_seq p' = h_seq hd -> slot' = slot) /\
       on_message send extract react c (hd, payload)
       = complete send react slot (interpret extract hd payload) (bump count_received c)) \/
    ((forall slot p, pending_ c !! slot = Some p -> p_active p = true -> p_seq p = h_seq hd ->
        matches hd p = false) /\
     exists st, on_message send extract react c (hd, payload) = set_stats_ st c).
Proof.
  intros Hc. assert (client_ok c) as Hok.
  { eapply (calls_closed _ _ _ _ (client_ok_closed send) []); [apply new_client_ok|exact Hc]. }
  split; [done|]. intros hd payload. unfold on_message.
  assert (forall s1 p1 s2 p2, pending_ c !! s1 = Some p1 -> p_active p1 = true ->
    pending_ c !! s2 = Some p2 -> p_active p2 = true -> p_seq p1 = p_seq p2 -> s1 = s2) as Huniq.
  { intros s1 p1 s2 p2 H1 A1 H2 A2 He.
    apply (omap_once entry_seq (pending_ c) s1 s2 p1 p2 (p_seq p1)); [apply (ok_seqs c Hok)|done..| |].
    - unfold entry_seq. by rewrite A1.
    - unfold entry_seq. by rewrite A2, He. }
  destruct (find_by_seq (h_seq hd) (bump count_received c)) as [slot|] eqn:Ef.
  - apply find_by_seq_spec in Ef as (p & Hp & Ha & Hn). rewrite Hp.
    destruct (matches hd p) eqn:Em; cbn [negb].
    + left. exists slot, p. split_and!; [done..| |done]. intros s' p' H' A' N'.
      by apply (Huniq s' p' slot p); [..|congruence].
    + right. split; [|by eexists]. intros s' p' H' A' N'.
      assert (s' = slot) as -> by (by apply (Huniq s' p' slot p); [..|congruence]).
      change (pending_ (bump count_received c)) with (pending_ c) in Hp. congruence.
  - right. split; [|by destruct (is_retired _ _); eexists].
    intros s p Hp Ha Hn. exfalso. apply (find_by_seq_None _ _ Ef).
    apply list_elem_of_omap. exists p. split; [by eapply list_elem_of_lookup_2|].
    unfold entry_seq. by rewrite Ha, Hn.
Qed.

Lemma answers_correlated_witness : client_ok sample_busy.
Proof.
  exact (proj1 (answers_correlated takes_all no_error passive _ 0 2 sample_calls sample_busy
                  sample_busy_eq)).
Defined.

(** A lost link settles everything at once. When the transport reports the
    disconnect, whatever the callbacks it leads to ask for, no request is left
    in flight, the client is unbound, no byte of a message is kept, and the
    only callbacks still to run are in the queue. *)
Lemma disconnect_settles (send : nat -> list (nat * bytes) -> bytes -> Result unit)
  (extract : bytes -> Result MgmtOutcome) (react : list Log -> list Command)
  (config : SmpClientConfig) (now : Z) (fuel : nat) (ks : list Call) (e : Error) (c : SmpClient) :
  calls send extract react fuel ks (new_client config now) = Some c ->
  let c' := on_disconnected send react e c in
  connected_ c' = false /\ in_flight c' = O /\
  requested (history_ c') ≡ₚ done_ (history_ c') ++ omap work_callback (deferred_ c').
Proof.
  intros Hc c'. assert (accounted [] c) as H
    by (eapply calls_closed; [apply accounted_closed|apply new_client_accounted|exact Hc]).
  destruct (fail_all_down send react e (set_assembler_ (reset (assembler_ c)) (set_connected_ false c))
              eq_refl) as [H1 H2].
  split; [exact H1|]. split; [exact H2|].
  assert (accounted [] c') as H'.
  { apply (fail_all_closed send react _ (accounted_closed send)). exact H. }
  unfold accounted, owed in H'. cbn [app] in H'. rewrite H'.
  assert (omap entry_callback (pending_ c') = []) as ->; [|done].
  apply elem_of_nil_inv. intros k (p & Hp & Hk)%list_elem_of_omap. unfold entry_callback in Hk.
  destruct (p_active p) eqn:Ea; [|done].
  assert (filter (fun p => p_active p = true) (pending_ c') = []) as Hnil
    by (apply nil_length_inv; exact H2).
  by destruct (filter_nil_not_elem_of _ _ p Hnil Ea).
Qed.

(** C18. No request outlives its deadline. With an application that does not go
    on asking for ever, [poll] returns, leaves nothing queued, and has run the
    callback of every request whose deadline had come. *)
Theorem poll_settles_expired (send : nat -> list (nat * bytes) -> bytes -> Result unit)
  (react : list Log -> list Command) (n : nat) (now : Z) (c : SmpClient) :
  stops react n ->
  exists c', poll send react (n + 2) now c = Some c' /\ deferred_ c' = [] /\
    forall slot p k, pending_ c !! slot = Some p -> p_active p = true -> p_callback p = Some k ->
      p_generation p <> 0 -> p_deadline p <= now -> k ∈ done_ (history_ c').
Proof.
  intros Hs. destruct (poll_returns send react n (n + 2) now c Hs ltac:(lia)) as [c' Hc'].
  exists c'. split; [done|]. split.
  - by eapply (poll_closed send react _ (closed_True send) []); [|exact Hc'].
  - intros slot p k Hp Ha Hk Hg Hd.
    exact (poll_times_out send react slot p k Ha Hk (n + 2) now c c' Hp Hg Hd Hc').
Qed.

Lemma poll_settles_expired_witness :
  exists c', poll takes_all passive 2 5 sample_busy = Some c' /\ O ∈ done_ (history_ c').
Proof.
  destruct (poll_settles_expired takes_all passive 0 5 sample_busy (fun _ _ => eq_refl))
    as (c' & Hc & _ & H).
  exists c'. split; [exact Hc|].
  apply (H O (mkPending true 1 0 0 0 WriteResponse 5 (Some O)));
    vm_compute; reflexivity || discriminate.
Defined.

(** The same client with an application that asks again: one request in flight,
    and, for the second, the link lost and a request refused. *)
Definition retry_busy : SmpClient :=
  default sample_client (calls takes_all no_error retries 2 sample_calls sample_client).

Definition down_calls : list Call :=
  [C_Disconnected (Error_at Disconnected "gone"); C_Command (Cmd_request echo (Some O))].

Definition retry_down : SmpClient :=
  default sample_client (calls takes_all no_error retries 2 down_calls sample_client).

(** The destructor does not complete every request. With room for one
    request in flight and an application whose callback asks again when a
    request fails, the destructor returns with the second request in flight:
    its callback was asked for, has not run, and is not queued. *)
Lemma shutdown_drops_request :
  calls takes_all no_error retries 2 sample_calls sample_client = Some retry_busy /\
  exists c, shutdown takes_all retries 2 retry_busy = Some c /\ listening_ c = None /\
    deferred_ c = [] /\ in_flight c = 1%nat /\
    1%nat ∈ requested (history_ c) /\ ~ 1%nat ∈ done_ (history_ c).
Proof.
  split; [vm_compute; reflexivity|].
  exists (default retry_busy (shutdown takes_all retries 2 retry_busy)).
  split; [vm_compute; reflexivity|]. split; [vm_compute; reflexivity|].
  split; [vm_compute; reflexivity|]. split; [vm_compute; reflexivity|].
  split; apply (bool_decide_unpack _); vm_compute; exact I.
Qed.

(** A failed request in the queue of a client whose link is down. *)
Definition refused_once (c : SmpClient) : Prop :=
  connected_ c = false /\ exists k e, deferred_ c = [W_Fail k e].

Lemma retry_round c :
  refused_once c ->
  exists c', deliver_body takes_all retries c = Continue c' /\ refused_once c'.
Proof.
  intros (Hc & k & e & Hd). unfold deliver_body. rewrite Hd. eexists. split; [done|].
  cbn [foldl run_work]. unfold notify. rewrite history_log.
  unfold retries at 1. rewrite last_snoc. cbn [foldl exec]. unfold request.
  change (connected_ (log (L_Done k (Fail e)) (set_deferred_ [] c))) with (connected_ c).
  rewrite Hc. split; [done|]. by repeat eexists.
Qed.

(** [poll] delivers the failure of a request made inside it in the same
    call, not in the next. With the link down and an application whose callback
    asks again when a request fails, it never returns, whatever number of
    batches it is given. *)
Lemma retry_never_returns (fuel : nat) (now : Z) :
  calls takes_all no_error retries 2 down_calls sample_client = Some retry_down /\
  poll takes_all retries fuel now retry_down = None.
Proof.
  split; [vm_compute; reflexivity|]. unfold poll, deliver_deferred.
  assert (forall c, refused_once c -> iterate (deliver_body takes_all retries) fuel c = None) as H.
  { induction fuel as [|fuel IH]; intros c Hc; [done|]. cbn [iterate].
    destruct (retry_round c Hc) as (c' & -> & Hc'). by apply IH. }
  rewrite H; [done|]. split; [vm_compute; reflexivity|]. vm_compute. by repeat eexists.
Qed.
