(* ===== verification/Transport.v ===== *)
(** * What every transport adapter is built from

    [transports/common/]: the admission queue of an adapter with one background
    writer ([SendQueue], send_queue.hpp), the shutdown bookkeeping behind
    [Transport::close] ([LinkState], link_state.hpp) and the splitting of a
    message into GATT-sized pieces ([BleFraming], ble_framing.hpp). The
    operating-system halves of the adapters are not modelled; what they do with
    these types is the events of [SendQueue.event], of [LinkState.event] and
    the write loop [BleFraming.fragments]. *)

From stdpp Require Import sets.
From S2P Require Import Prelude Errors Header Assembler.

(** ** Send admission *)

Module SendQueue.

(** [transport::Admission]. *)
Inductive Admission := StartWriter | Queued | Busy.

#[global] Instance Admission_eq_dec : EqDecision Admission.
Proof. solve_decision. Defined.

(** [transport::SendCounters]. *)
Record SendCounters := mkCounters { deferred : Z; refused : Z }.

(** [transport::SendQueue]. *)
Record SendQueue := mkSendQueue {
  waiting_ : option bytes;
  writing_ : bool;
  counters_ : SendCounters
}.

Definition new_queue : SendQueue := mkSendQueue None false (mkCounters 0 0).

(** [SendQueue::offer]. *)
Definition offer (message : bytes) (q : SendQueue) : Admission * SendQueue :=
  if negb (writing_ q) then
    (StartWriter, mkSendQueue (Some message) true (counters_ q))
  else if negb (bool_decide (is_Some (waiting_ q))) then
    (Queued, mkSendQueue (Some message) (writing_ q)
               (mkCounters (wrap 64 (deferred (counters_ q) + 1)) (refused (counters_ q))))
  else
    (Busy, mkSendQueue (waiting_ q) (writing_ q)
             (mkCounters (deferred (counters_ q)) (wrap 64 (refused (counters_ q) + 1)))).

(** [SendQueue::next_for_writer]. *)
Definition next_for_writer (q : SendQueue) : option bytes * SendQueue :=
  if negb (bool_decide (is_Some (waiting_ q))) then
    (None, mkSendQueue (waiting_ q) false (counters_ q))
  else (waiting_ q, mkSendQueue None (writing_ q) (counters_ q)).

(** [SendQueue::discard_queued]. *)
Definition discard_queued (q : SendQueue) : SendQueue :=
  mkSendQueue None (writing_ q) (counters_ q).

(** [SendQueue::queued]. *)
Definition queued (q : SendQueue) : bool := bool_decide (is_Some (waiting_ q)).

(** What an adapter does with the queue, one event per time it takes its mutex:
    a message offered on the client context, a live writer asking for its next
    message, a link going down. *)
Inductive event :=
| Offer (m : bytes)
| Next
| Discard.

(** The adapter around the queue. A writer is started exactly on [StartWriter]
    and leaves exactly on [nullopt]; the rest is history: the messages
    accepted, those put on the medium, those discarded. *)
Record adapter := mkAdapter {
  queue : SendQueue;
  writers : nat;
  accepted : list bytes;
  on_medium : list bytes;
  dropped : list bytes;
  busy : nat
}.

Definition new_adapter : adapter := mkAdapter new_queue 0 [] [] [] 0.

Definition adapter_step (e : event) (a : adapter) : adapter :=
  match e with
  | Offer m =>
      match offer m (queue a) with
      | (StartWriter, q) =>
          mkAdapter q (S (writers a)) (accepted a ++ [m]) (on_medium a) (dropped a) (busy a)
      | (Queued, q) =>
          mkAdapter q (writers a) (accepted a ++ [m]) (on_medium a) (dropped a) (busy a)
      | (Busy, q) =>
          mkAdapter q (writers a) (accepted a) (on_medium a) (dropped a) (S (busy a))
      end
  | Next =>
      match writers a with
      | O => a
      | S n =>
          match next_for_writer (queue a) with
          | (Some m, q) =>
              mkAdapter q (writers a) (accepted a) (on_medium a ++ [m]) (dropped a) (busy a)
          | (None, q) => mkAdapter q n (accepted a) (on_medium a) (dropped a) (busy a)
          end
      end
  | Discard =>
      mkAdapter (discard_queued (queue a)) (writers a) (accepted a) (on_medium a)
        (dropped a ++ option_list (waiting_ (queue a))) (busy a)
  end.

Definition run (es : list event) (a : adapter) : adapter :=
  fold_left (fun a e => adapter_step e a) es a.

(** The invariant: one writer exactly while the claim is held, a message
    waiting only under a claim, and every accepted message in one place, in
    the order it was accepted. *)
Record adapter_ok (a : adapter) : Prop := {
  ok_claim : writers a = if writing_ (queue a) then 1%nat else 0%nat;
  ok_waiting : is_Some (waiting_ (queue a)) -> writing_ (queue a) = true;
  ok_order : exists gone, sublist (on_medium a) gone /\
               accepted a = gone ++ option_list (waiting_ (queue a));
  ok_split : accepted a ≡ₚ on_medium a ++ dropped a ++ option_list (waiting_ (queue a))
}.

Lemma new_adapter_ok : adapter_ok new_adapter.
Proof. constructor; simpl; try done. by exists []. Qed.

Lemma offer_ok m a : adapter_ok a -> adapter_ok (adapter_step (Offer m) a).
Proof.
  intros [Hc Hw (gone & Hs & Ho) Hp].
  destruct a as [[w wr [d r]] n acc med drp b]; simpl in *. unfold offer; simpl.
  destruct wr, w as [m'|]; simpl in *; try (by specialize (Hw ltac:(eauto)));
    constructor; simpl; try done; try (by exists gone); try (rewrite app_nil_r in Ho; subst gone);
    try (by exists acc; split); try lia; rewrite Hp, ?app_nil_r, <-?app_assoc; reflexivity.
Qed.

Lemma next_ok a : adapter_ok a -> adapter_ok (adapter_step Next a).
Proof.
  intros [Hc Hw (gone & Hs & Ho) Hp].
  destruct a as [[w wr [d r]] n acc med drp b]; simpl in *.
  destruct n as [|n]; [constructor; try done; by exists gone|].
  unfold next_for_writer; simpl. destruct w as [m'|]; simpl in *; constructor; simpl; try done.
  - exists (gone ++ [m']). split; [by apply sublist_app|by rewrite app_nil_r].
  - rewrite Hp, app_nil_r, <-!app_assoc. apply Permutation_app_head, Permutation_app_comm.
  - destruct wr; lia.
  - by exists gone.
Qed.

Lemma discard_ok a : adapter_ok a -> adapter_ok (adapter_step Discard a).
Proof.
  intros [Hc Hw (gone & Hs & Ho) Hp].
  destruct a as [[w wr [d r]] n acc med drp b]; simpl in *. constructor; simpl; try done.
  - exists (gone ++ option_list w). split; [by apply sublist_inserts_r|by rewrite app_nil_r].
  - by rewrite app_nil_r.
Qed.

Lemma adapter_step_ok e a : adapter_ok a -> adapter_ok (adapter_step e a).
Proof. destruct e; [apply offer_ok|apply next_ok|apply discard_ok]. Qed.

Lemma run_ok es a : adapter_ok a -> adapter_ok (run es a).
Proof.
  revert a. induction es as [|e es IH]; intros a H; [done|]. simpl. apply IH.
  by apply adapter_step_ok.
Qed.

(** Without a discard nothing accepted is lost or reordered. *)
Lemma run_dropped es a : Discard ∉ es -> dropped (run es a) = dropped a.
Proof.
  revert a. induction es as [|e es IH]; intros a He; [done|].
  apply not_elem_of_cons in He as [Hd He]. simpl. rewrite IH by done.
  destruct e; simpl; [|destruct (writers a); [done|]|done];
    by repeat case_match.
Qed.

Lemma step_order_exact e a :
  e <> Discard -> adapter_ok a ->
  accepted a = on_medium a ++ option_list (waiting_ (queue a)) ->
  accepted (adapter_step e a) =
    on_medium (adapter_step e a) ++ option_list (waiting_ (queue (adapter_step e a))).
Proof.
  intros He [_ Hw _ _] Ho. destruct a as [[w wr [d r]] n acc med drp b]; simpl in *.
  destruct e; simpl; [|destruct n; [done|]|done].
  - unfold offer; simpl. destruct wr, w as [m'|]; simpl in *; subst; rewrite ?app_nil_r; try done.
    by specialize (Hw ltac:(eauto)).
  - unfold next_for_writer; simpl. destruct w; simpl in *; subst; by rewrite ?app_nil_r.
Qed.

Lemma run_order_exact es a :
  Discard ∉ es -> adapter_ok a ->
  accepted a = on_medium a ++ option_list (waiting_ (queue a)) ->
  accepted (run es a) = on_medium (run es a) ++ option_list (waiting_ (queue (run es a))).
Proof.
  revert a. induction es as [|e es IH]; intros a He Ha Ho; [done|].
  apply not_elem_of_cons in He as [Hd He]. simpl.
  apply IH; [done|by apply adapter_step_ok|by apply step_order_exact].
Qed.

(** A refusal says more than "a writer is running": a message is waiting. *)
Lemma offer_busy m q : (offer m q).1 = Busy <-> writing_ q = true /\ is_Some (waiting_ q).
Proof.
  unfold offer. destruct (writing_ q), (waiting_ q); simpl; split; try done;
    (by intros [_ [? ?]]) || (by intros [? _]) || (intros; split; eauto).
Qed.

(** The promise "one message is being written and another is already waiting"
    does not hold of the window between [StartWriter] and the writer's first
    [next_for_writer]: a second message is refused there although nothing has
    been taken for the medium. *)
Lemma busy_before_the_writer_runs (m1 m2 : bytes) :
  busy (run [Offer m1; Offer m2] new_adapter) = 1%nat /\
  on_medium (run [Offer m1; Offer m2] new_adapter) = [].
Proof. done. Qed.

(** One writer, and nothing lost or reordered: over any interleaving of
    offers, of a live writer's calls and of discards, at most one writer is
    live, a message waits only while one is, the messages on the medium are a
    subsequence of those accepted, and each accepted message is on the medium,
    waiting, or was discarded. Without a discard the medium carries exactly
    what was accepted, in order, less the one waiting. *)
Lemma send_queue_ordered (es : list event) :
  let a := run es new_adapter in
  (writers a <= 1)%nat /\
  (queued (queue a) = true -> writers a = 1%nat) /\
  sublist (on_medium a) (accepted a) /\
  accepted a ≡ₚ on_medium a ++ dropped a ++ option_list (waiting_ (queue a)) /\
  (Discard ∉ es -> accepted a = on_medium a ++ option_list (waiting_ (queue a))).
Proof.
  destruct (run_ok es _ new_adapter_ok) as [Hc Hw (gone & Hs & Ho) Hp].
  intros a. fold a in Hc, Hw, Hs, Ho, Hp. repeat split.
  - rewrite Hc. destruct (writing_ _); lia.
  - unfold queued. intros Hq%bool_decide_eq_true. by rewrite Hc, Hw.
  - rewrite Ho. by apply sublist_inserts_r.
  - done.
  - intros He. by apply run_order_exact; [|apply new_adapter_ok|].
Qed.

(** A writer that keeps asking empties the queue and leaves: two calls are
    enough, and then every accepted message has been written or discarded and
    the next message starts a writer. *)
Lemma writer_drains (es : list event) (m : bytes) :
  let a := run (es ++ [Next; Next]) new_adapter in
  writers a = 0%nat /\ accepted a ≡ₚ on_medium a ++ dropped a /\
  (offer m (queue a)).1 = StartWriter.
Proof.
  unfold run. rewrite fold_left_app. fold (run es new_adapter).
  pose proof (run_ok es _ new_adapter_ok) as [Hc Hw _ Hp].
  destruct (run es new_adapter) as [[w wr [d r]] n acc med drp b]; simpl in *.
  destruct wr, w as [m'|]; simpl in *; subst; simpl; rewrite ?app_nil_r in *;
    try (by specialize (Hw ltac:(eauto))); split_and!; try done.
  rewrite Hp, <-app_assoc. apply Permutation_app_head, Permutation_app_comm.
Qed.

End SendQueue.

(** ** Closing a link *)

Module LinkState.

(** [transport::LinkPhase]. *)
Inductive LinkPhase := Open | Closing | Closed.

#[global] Instance LinkPhase_eq_dec : EqDecision LinkPhase.
Proof. solve_decision. Defined.

(** [transport::LinkState] holds its phase and nothing else. *)
Record LinkState := mkLinkState { phase_ : LinkPhase }.

Definition new_link : LinkState := mkLinkState Open.

(** [LinkState::is_open]. *)
Definition is_open (l : LinkState) : bool := bool_decide (phase_ l = Open).

(** [LinkState::is_closing_or_closed]. *)
Definition is_closing_or_closed (l : LinkState) : bool := negb (bool_decide (phase_ l = Open)).

(** [LinkState::may_send]. *)
Definition may_send (l : LinkState) : bool := is_open l.

(** [LinkState::may_deliver]. *)
Definition may_deliver (l : LinkState) : bool := is_open l.

(** [LinkState::begin_close]. *)
Definition begin_close (l : LinkState) : bool * LinkState :=
  if negb (bool_decide (phase_ l = Open)) then (false, l) else (true, mkLinkState Closing).

(** [LinkState::finish_close]. *)
Definition finish_close (l : LinkState) : LinkState := mkLinkState Closed.

(** What an adapter asks of its link: the two halves of [close], a send, and a
    callback arriving from the driver. *)
Inductive event := BeginClose | FinishClose | Send | Arrive.

(** What became of it. *)
Inductive effect := Teardown | Sent | Delivered | Nothing.

#[global] Instance effect_eq_dec : EqDecision effect.
Proof. solve_decision. Defined.

Definition link_step (e : event) (l : LinkState) : LinkState * effect :=
  match e with
  | BeginClose =>
      match begin_close l with
      | (true, l') => (l', Teardown)
      | (false, l') => (l', Nothing)
      end
  | FinishClose => (finish_close l, Nothing)
  | Send => (l, if may_send l then Sent else Nothing)
  | Arrive => (l, if may_deliver l then Delivered else Nothing)
  end.

Fixpoint link_run (es : list event) (l : LinkState) : LinkState * list effect :=
  match es with
  | [] => (l, [])
  | e :: es =>
      let '(l', o) := link_step e l in
      let '(l'', os) := link_run es l' in
      (l'', o :: os)
  end.

(** The phases only go one way, and a link that has left [Open] does nothing. *)
Lemma link_step_closed e l :
  is_open l = false -> (link_step e l).2 = Nothing /\ is_open (link_step e l).1 = false.
Proof. destruct e, l as [[]]; done. Qed.

Lemma link_run_closed es l :
  is_open l = false ->
  Forall (eq Nothing) (link_run es l).2 /\ is_open (link_run es l).1 = false.
Proof.
  revert l. induction es as [|e es IH]; intros l Hl; [done|]. simpl.
  destruct (link_step_closed e l Hl) as [Ho Hl']. destruct (link_step e l) as [l' o].
  simpl in *. destruct (IH l' Hl') as [Hos Hl'']. destruct (link_run es l') as [l'' os].
  by split; [constructor|].
Qed.

Lemma link_run_app es1 es2 l :
  link_run (es1 ++ es2) l =
  let '(l', os1) := link_run es1 l in
  let '(l'', os2) := link_run es2 l' in (l'', os1 ++ os2).
Proof.
  revert l. induction es1 as [|e es1 IH]; intros l; simpl; [by destruct (link_run es2 l)|].
  destruct (link_step e l) as [l' o]. rewrite IH.
  destruct (link_run es1 l') as [l1 os1]. by destruct (link_run es2 l1).
Qed.

(** How often an adapter ran its revoke-and-drain work. *)
Definition teardowns (os : list effect) : nat := length (filter (eq Teardown) os).

Lemma teardowns_app os1 os2 : teardowns (os1 ++ os2) = (teardowns os1 + teardowns os2)%nat.
Proof. unfold teardowns. by rewrite filter_app, length_app. Qed.

Lemma teardowns_silent os : Forall (eq Nothing) os -> teardowns os = 0%nat.
Proof. unfold teardowns. induction 1 as [|? ? <- _ IH]; [done|by rewrite filter_cons_False]. Qed.

(** Until something closes it a link tears nothing down; begun once, it has torn
    down once. *)
Lemma link_run_open es :
  FinishClose ∉ es ->
  let '(l, os) := link_run es new_link in
  length os = length es /\
  ((phase_ l = Open /\ teardowns os = 0%nat) \/ (phase_ l = Closing /\ teardowns os = 1%nat)).
Proof.
  induction es as [|e es IH] using rev_ind; intros He; [by split; [|left]|].
  rewrite not_elem_of_app, not_elem_of_cons in He. destruct He as (Hes & He & _).
  specialize (IH Hes). rewrite link_run_app. destruct (link_run es new_link) as [l os].
  destruct IH as [Hlen IH]. simpl. destruct (link_step e l) as [l' o] eqn:E.
  rewrite !length_app, Hlen, teardowns_app. split; [done|].
  destruct l as [[]], e, IH as [[Hp ->]|[Hp ->]]; simplify_eq/=; by (left + right).
Qed.

(** After [close] begins the link is silent for good: whatever the adapter
    does before and after it, nothing is sent and no callback is delivered from
    the moment [close] begins, including one already in flight, and the
    teardown runs exactly once however often the link is closed. *)
Lemma close_is_final (before after : list event) :
  FinishClose ∉ before ->
  let '(_, os) := link_run (before ++ BeginClose :: after) new_link in
  Forall (eq Nothing) (drop (S (length before)) os) /\ teardowns os = 1%nat.
Proof.
  intros Hb. pose proof (link_run_open before Hb) as Hpre. rewrite link_run_app.
  destruct (link_run before new_link) as [l1 os1]. destruct Hpre as [Hlen Hpre].
  cbn [link_run]. destruct (link_step BeginClose l1) as [l2 o] eqn:E.
  assert (is_open l2 = false /\ teardowns [o] = if is_open l1 then 1%nat else 0%nat) as [Hl2 Ho]
    by (destruct l1 as [[]]; simplify_eq/=; done).
  destruct (link_run_closed after l2 Hl2) as [Hos _].
  destruct (link_run after l2) as [l3 os2]. simpl in Hos.
  rewrite teardowns_app, (teardowns_app [o] os2 : teardowns (o :: os2) = _).
  rewrite (teardowns_silent os2 Hos), Ho. split.
  - rewrite drop_app_ge by lia. by replace (S (length before) - length os1)%nat with 1%nat by lia.
  - destruct l1 as [ph]; simpl in *. destruct Hpre as [[-> ->]|[-> ->]]; done.
Qed.

End LinkState.

(** ** Splitting a message into GATT packets *)

Module BleFraming.

Definition kAttHeaderSize : Z := 3.
Definition kMinFragment : Z := 20.
Definition kMaxFragment : Z := 512.

(** [transport::fragment_size]. *)
Definition fragment_size (max_pdu : Z) : Z :=
  if max_pdu <=? kAttHeaderSize then kMinFragment
  else
    let usable := max_pdu - kAttHeaderSize in
    if usable <? kMinFragment then kMinFragment
    else if kMaxFragment <? usable then kMaxFragment
    else usable.

(** [transport::Fragmenter]. *)
Record Fragmenter := mkFragmenter {
  message_ : bytes;
  fragment_ : Z;
  offset_ : Z
}.

(** The constructor. *)
Definition new_fragmenter (message : bytes) (fragment : Z) : Fragmenter :=
  mkFragmenter message (if fragment =? 0 then 1 else fragment) 0.

(** [Fragmenter::done]. *)
Definition done (f : Fragmenter) : bool := zlen (message_ f) <=? offset_ f.

(** [Fragmenter::remaining]. *)
Definition remaining (f : Fragmenter) : Z :=
  if done f then 0 else zlen (message_ f) - offset_ f.

(** [Fragmenter::next]. *)
Definition next (f : Fragmenter) : bytes * Fragmenter :=
  if done f then ([], f)
  else
    let n := if remaining f <? fragment_ f then remaining f else fragment_ f in
    (take (Z.to_nat n) (drop (Z.to_nat (offset_ f)) (message_ f)),
     mkFragmenter (message_ f) (fragment_ f) (offset_ f + n)).

(** [Fragmenter::count]: the sum is a [std::size_t]. *)
Definition count (f : Fragmenter) : Z :=
  wrap 64 (wrap 64 (zlen (message_ f) + fragment_ f) - 1) / fragment_ f.

(** The write loop of an adapter, [while (!out.done()) write(out.next())]: the
    packets it puts on the air. One round per byte is enough. *)
Definition write_body (s : Fragmenter * list bytes) : loop (Fragmenter * list bytes) (list bytes) :=
  let '(f, sent) := s in
  if done f then Return sent
  else let '(piece, f') := next f in Continue (f', sent ++ [piece]).

Definition fragments (message : bytes) (fragment : Z) : option (list bytes) :=
  iterate write_body (S (length message)) (new_fragmenter message fragment, []).

Definition fragmenter_ok (f : Fragmenter) : Prop :=
  0 < fragment_ f /\ 0 <= offset_ f <= zlen (message_ f).

Lemma fragment_size_spec max_pdu :
  kMinFragment <= fragment_size max_pdu <= kMaxFragment /\
  (kAttHeaderSize + kMinFragment <= max_pdu -> fragment_size max_pdu + kAttHeaderSize <= max_pdu).
Proof.
  unfold fragment_size, kAttHeaderSize, kMinFragment, kMaxFragment.
  repeat split_if; bool_to_prop; lia.
Qed.

(** One packet: never empty, never longer than a fragment, the bytes that come
    next, and shorter than a fragment only when it is the last. *)
Lemma next_spec f piece f' :
  fragmenter_ok f -> done f = false -> next f = (piece, f') ->
  fragmenter_ok f' /\ message_ f' = message_ f /\ fragment_ f' = fragment_ f /\
  offset_ f' = offset_ f + zlen piece /\
  0 < zlen piece <= fragment_ f /\
  (zlen piece = fragment_ f \/ offset_ f' = zlen (message_ f)) /\
  piece ++ drop (Z.to_nat (offset_ f')) (message_ f) = drop (Z.to_nat (offset_ f)) (message_ f).
Proof.
  intros [Hf Ho] Hd. unfold next. rewrite Hd. intros [= <- <-].
  unfold fragmenter_ok, remaining in *. rewrite Hd. unfold done in *.
  apply Z.leb_gt in Hd. simpl.
  set (n := if _ <? _ then _ else _).
  assert (0 < n <= fragment_ f /\ n <= zlen (message_ f) - offset_ f /\
          (n = fragment_ f \/ n = zlen (message_ f) - offset_ f)) as Hn.
  { subst n. split_if; bool_to_prop; lia. }
  clearbody n. rewrite length_take, length_drop.
  replace (Z.to_nat n `min` (length (message_ f) - Z.to_nat (offset_ f)))%nat with (Z.to_nat n) by lia.
  rewrite Z2Nat.id by lia. split_and!; try done; try lia.
  rewrite Z2Nat.inj_add, <-drop_drop by lia. apply take_drop.
Qed.

(** What the write loop has put on the air so far. *)
Record written (m : bytes) (n : Z) (s : Fragmenter * list bytes) : Prop := {
  w_ok : fragmenter_ok s.1;
  w_message : message_ s.1 = m /\ fragment_ s.1 = n;
  w_bytes : concat s.2 ++ drop (Z.to_nat (offset_ s.1)) m = m;
  w_pieces : Forall (fun p => 0 < zlen p <= n) s.2;
  w_count : zlen s.2 * n = offset_ s.1 \/
            (offset_ s.1 = zlen m /\ (zlen s.2 - 1) * n < offset_ s.1 <= zlen s.2 * n)
}.

Lemma written_step m n s s' :
  written m n s -> write_body s = Continue s' ->
  written m n s' /\ (length m - Z.to_nat (offset_ s'.1) < length m - Z.to_nat (offset_ s.1))%nat.
Proof.
  destruct s as [f sent]. intros [Hok [Hm Hn] Hb Hp Hc]; simpl in *.
  destruct (done f) eqn:Hd; [done|]. destruct (next f) as [piece f'] eqn:E. intros [= <-]. simpl.
  destruct (next_spec f piece f' Hok Hd E) as (Hok' & Hm' & Hn' & Ho & Hl & Hlast & Hcat).
  unfold done in Hd. apply Z.leb_gt in Hd. rewrite Hm in *. rewrite Hn in *.
  destruct Hok as [? ?], Hok' as [? ?].
  split; [|lia]. constructor; simpl.
  - by split.
  - by rewrite Hm', Hn'.
  - by rewrite concat_app, <-app_assoc; simpl; rewrite app_nil_r, Hcat.
  - apply Forall_app. by split; [|constructor].
  - rewrite length_app. simpl. nia.
Qed.

Lemma new_fragmenter_written m n :
  0 <= n -> written m (if n =? 0 then 1 else n) (new_fragmenter m n, []).
Proof.
  intros Hn. constructor; simpl; try done; [|by left].
  unfold fragmenter_ok, new_fragmenter. simpl. split_if; bool_to_prop; lia.
Qed.

Lemma fragments_written m n :
  0 <= n -> exists f ps, fragments m n = Some ps /\ written m (if n =? 0 then 1 else n) (f, ps) /\
                    offset_ f = zlen m.
Proof.
  intros Hn. set (k := if n =? 0 then 1 else n).
  destruct (iterate_total write_body (written m k)
              (fun s => length m - Z.to_nat (offset_ s.1))%nat
              (written_step m k) (S (length m)) (new_fragmenter m n, []))
    as [ps Hps]; [by apply new_fragmenter_written|simpl; lia|].
  destruct (iterate_inv write_body (written m k)
              (fun ps => exists f, written m k (f, ps) /\ offset_ f = zlen m)
              (fun s s' Hs E => proj1 (written_step m k s s' Hs E))) with (3 := Hps)
    as (f & Hf & Ho); [|by apply new_fragmenter_written|by exists f, ps].
  intros [f sent] r Hs E. simpl in E. destruct (done f) eqn:Hd; [|by destruct (next f)].
  injection E as <-. exists f. split; [done|]. destruct Hs as [[_ Ho] [Hm _] _ _ _]. simpl in *.
  unfold done in Hd. apply Z.leb_le in Hd. rewrite Hm in *. lia.
Qed.

Lemma fragments_concat m n : 0 <= n -> exists ps, fragments m n = Some ps /\ concat ps = m.
Proof.
  intros Hn. destruct (fragments_written m n Hn) as (f & ps & E & [_ _ Hb _ _] & Ho).
  exists ps. split; [done|]. simpl in *. by rewrite Ho, Nat2Z.id, drop_all, app_nil_r in Hb.
Qed.

(** The write loop ends, and its packets are the message: joined they give
    it back, none is empty, none exceeds the fragment size (which always fits
    the link's PDU when that is a legal one), and there are as many as [count]
    announces. *)
Lemma fragments_exact (message : bytes) (max_pdu : Z) :
  zlen message < 2 ^ 63 ->
  exists ps,
    fragments message (fragment_size max_pdu) = Some ps /\
    concat ps = message /\
    Forall (fun p => 0 < zlen p <= fragment_size max_pdu) ps /\
    (kAttHeaderSize + kMinFragment <= max_pdu ->
     Forall (fun p => zlen p + kAttHeaderSize <= max_pdu) ps) /\
    zlen ps = count (new_fragmenter message (fragment_size max_pdu)).
Proof.
  intros Hm. destruct (fragment_size_spec max_pdu) as [Hr Hp].
  set (n := fragment_size max_pdu) in *. unfold kMinFragment, kMaxFragment in Hr.
  destruct (fragments_written message n ltac:(lia)) as (f & ps & E & [_ _ Hb Hs Hc] & Ho).
  destruct (Z.eqb_spec n 0) as [|_]; [lia|]. simpl in *. exists ps. rewrite Ho in *.
  split_and!; try done.
  - rewrite Nat2Z.id, drop_all, app_nil_r in Hb. done.
  - intros Hpdu. eapply Forall_impl; [exact Hs|]. simpl. intros p. specialize (Hp Hpdu). lia.
  - unfold count, new_fragmenter, wrap. simpl. destruct (Z.eqb_spec n 0) as [|_]; [lia|].
    rewrite (Z.mod_small (_ + n)), Z.mod_small by lia.
    apply Z.div_unique with (r := zlen message + n - 1 - n * zlen ps); [|lia]. nia.
Qed.

(** The packets of a sequence of messages, one after the other. *)
Definition on_air (n : Z) (ms : list Message) : option (list bytes) :=
  (fun pss => concat pss) <$> mapM (fun m => fragments (message_bytes m) n) ms.

(** A sequence of messages within the receiver's limits, each split for the
    link and its packets delivered in order, arrives at the other side's
    assembler complete, in order and unchanged: no framing is needed beyond the
    SMP header. *)
Lemma ble_delivers (lim : AssemblerLimits) (ms : list Message) (max_pdu : Z) :
  Forall (message_ok lim) ms ->
  exists packets a,
    on_air (fragment_size max_pdu) ms = Some packets /\
    feed_all packets (new_assembler lim) = Some (Success tt, a, ms) /\ buffer_ a = [].
Proof.
  intros Hms. destruct (fragment_size_spec max_pdu) as [Hr _].
  set (n := fragment_size max_pdu) in *. unfold kMinFragment in Hr.
  assert (exists packets, on_air n ms = Some packets /\
            concat packets = concat (message_bytes <$> ms)) as (packets & E & Hc).
  { clear Hms. unfold on_air. induction ms as [|m ms (ps & E & Hc)]; [by exists []|].
    destruct (fragments_concat (message_bytes m) n ltac:(lia)) as (qs & Eq & Hb).
    cbn [mapM]. rewrite Eq. simpl. destruct (mapM _ ms) as [pss|]; [|done]. injection E as <-.
    exists (qs ++ concat pss). split; [done|]. rewrite concat_app, Hb, Hc. done. }
  destruct (feed_all_messages lim ms packets Hms Hc) as (a & Ha & Hb). by exists packets, a.
Qed.

End BleFraming.
