(* ===== verification/Dispatcher.v ===== *)
(** * The dispatcher

    [include/smply/util/dispatcher.hpp] and [src/util/dispatcher.cpp]: the queue
    of closures an adapter posts from its own threads and the client context
    drains. A closure is application code, so it is a name [C] here, and what
    it does while it runs is arbitrary: any event may come between the start of
    one closure and the start of the next, a post from another thread or from
    the closure itself, a re-entrant [drain], a [clear], the closure throwing.
    The mutex makes [post], [take] and [pending] atomic, so one event is one
    critical section. *)

From stdpp Require Import sets.
From S2P Require Import Prelude.

Section dispatcher.
Context {C : Type}.

(** [smply::Dispatcher], and the history of the calls it made. [frame_] is the
    activation of [drain]: the items the loop has not started, and
    [work.size()]. *)
Record Dispatcher := mkDispatcher {
  queue_ : list C;
  has_wake_ : bool;
  draining_ : bool;
  frame_ : option (list C * nat);
  ran_ : list C;
  wakes_ : nat
}.

Definition new_dispatcher (has_wake : bool) : Dispatcher :=
  mkDispatcher [] has_wake false None [] 0.

(** [Dispatcher::post]: an empty [std::function] is ignored, and the wake
    callback runs after the closure is queued. *)
Definition post (work : option C) (d : Dispatcher) : Dispatcher :=
  match work with
  | None => d
  | Some c =>
      mkDispatcher (queue_ d ++ [c]) (has_wake_ d) (draining_ d) (frame_ d) (ran_ d)
        (if has_wake_ d then S (wakes_ d) else wakes_ d)
  end.

(** [Dispatcher::take]. *)
Definition take_queue (d : Dispatcher) : list C * Dispatcher :=
  (queue_ d, mkDispatcher [] (has_wake_ d) (draining_ d) (frame_ d) (ran_ d) (wakes_ d)).

(** [Dispatcher::clear]. *)
Definition clear (d : Dispatcher) : Dispatcher := (take_queue d).2.

(** [Dispatcher::pending]. *)
Definition pending (d : Dispatcher) : nat := length (queue_ d).

(** [Dispatcher::drain] up to the start of its first item; [Some n] is the call
    returning [n]. *)
Definition drain_begin (d : Dispatcher) : Dispatcher * option nat :=
  if draining_ d then (d, Some 0%nat)
  else
    let '(work, d) := take_queue d in
    match work with
    | [] => (d, Some 0%nat)
    | c :: rest =>
        (mkDispatcher (queue_ d) (has_wake_ d) true (Some (rest, length work))
           (ran_ d ++ [c]) (wakes_ d), None)
    end.

(** The running item returns: the loop starts the next one, or [drain] returns
    and its guard clears the flag. *)
Definition drain_next (d : Dispatcher) : Dispatcher * option nat :=
  match frame_ d with
  | None => (d, None)
  | Some ([], n) =>
      (mkDispatcher (queue_ d) (has_wake_ d) false None (ran_ d) (wakes_ d), Some n)
  | Some (c :: rest, n) =>
      (mkDispatcher (queue_ d) (has_wake_ d) (draining_ d) (Some (rest, n)) (ran_ d ++ [c])
         (wakes_ d), None)
  end.

(** The running item throws: [drain] is left through the guard and the rest of
    the taken work is destroyed unrun. *)
Definition drain_throw (d : Dispatcher) : Dispatcher :=
  match frame_ d with
  | None => d
  | Some _ => mkDispatcher (queue_ d) (has_wake_ d) false None (ran_ d) (wakes_ d)
  end.

Inductive event :=
| Post (work : option C)
| Drain
| Next
| Throw
| Clear.

Definition step (e : event) (d : Dispatcher) : Dispatcher * option nat :=
  match e with
  | Post w => (post w d, None)
  | Drain => drain_begin d
  | Next => drain_next d
  | Throw => (drain_throw d, None)
  | Clear => (clear d, None)
  end.

Fixpoint run (es : list event) (d : Dispatcher) : Dispatcher * list (option nat) :=
  match es with
  | [] => (d, [])
  | e :: es =>
      let '(d', o) := step e d in
      let '(d'', os) := run es d' in (d'', o :: os)
  end.

(** What a trace posts, and what of it is still queued when nothing is taken
    but by [Clear]. *)
Definition posted (es : list event) : list C :=
  omap (fun e => match e with Post w => w | _ => None end) es.

Fixpoint left_queued (es : list event) (q : list C) : list C :=
  match es with
  | [] => q
  | Post (Some c) :: es => left_queued es (q ++ [c])
  | Clear :: es => left_queued es []
  | _ :: es => left_queued es q
  end.

(** The items of the frame not yet started. *)
Definition in_hand (d : Dispatcher) : list C :=
  match frame_ d with Some (rest, _) => rest | None => [] end.

Lemma run_app es1 es2 d :
  run (es1 ++ es2) d =
  let '(d1, os1) := run es1 d in
  let '(d2, os2) := run es2 d1 in (d2, os1 ++ os2).
Proof.
  revert d. induction es1 as [|e es1 IH]; intros d; simpl; [by destruct (run es2 d)|].
  destruct (step e d) as [d' o]. rewrite IH.
  destruct (run es1 d') as [d1 os1]. by destruct (run es2 d1).
Qed.

(** The flag says that a drain is running, and every closure ran or is to run
    in the order of the posts. *)
Record dispatcher_ok (ps : list C) (d : Dispatcher) : Prop := {
  ok_flag : draining_ d = bool_decide (is_Some (frame_ d));
  ok_order : exists kept, sublist kept ps /\ kept = ran_ d ++ in_hand d ++ queue_ d
}.

Lemma step_ok ps e d :
  dispatcher_ok ps d -> dispatcher_ok (ps ++ posted [e]) (step e d).1.
Proof.
  intros [Hf (kept & Hs & ->)]. unfold posted. destruct d as [q hw dr fr ran wk]; simpl in *.
  assert (sublist (ran ++ in_hand (mkDispatcher q hw dr fr ran wk) ++ q) (ps ++ [])) as Hs'
    by (by rewrite app_nil_r).
  destruct e as [[c|]| | | |]; simpl.
  - constructor; [done|]. simpl. eexists. split; [|reflexivity].
    rewrite !app_assoc. rewrite app_assoc in Hs. by apply sublist_app.
  - constructor; [done|]. by eexists.
  - unfold drain_begin. simpl. destruct dr; [constructor; [done|by eexists]|].
    destruct fr; [done|]. destruct q as [|c rest]; simpl;
      (constructor; [done|]); eexists; (split; [|reflexivity]); simpl in *;
      by rewrite ?app_nil_r, <-?app_assoc in *.
  - unfold drain_next. simpl. destruct fr as [[[|c rest] n]|]; simpl in *;
      (constructor; [done|]); eexists; (split; [|reflexivity]); simpl in *;
      by rewrite <-?app_assoc in *.
  - unfold drain_throw. simpl. destruct fr as [[rest n]|]; simpl in *;
      (constructor; [done|]); eexists; (split; [|reflexivity]); simpl in *; [|done].
    etrans; [|exact Hs']. apply sublist_app; [done|]. by apply sublist_inserts_l.
  - constructor; [done|]. eexists. split; [|reflexivity]. simpl.
    etrans; [|exact Hs']. apply sublist_app; [done|]. apply sublist_app; [done|].
    apply sublist_nil_l.
Qed.

Lemma posted_app es1 es2 : posted (es1 ++ es2) = posted es1 ++ posted es2.
Proof. apply omap_app. Qed.

Lemma dispatch_run_ok es hw : dispatcher_ok (posted es) (run es (new_dispatcher hw)).1.
Proof.
  induction es as [|e es IH] using rev_ind; [constructor; [done|by exists []]|].
  rewrite run_app, posted_app. destruct (run es (new_dispatcher hw)) as [d os]. simpl.
  pose proof (step_ok _ e d IH) as H. by destruct (step e d).
Qed.

Lemma step_exact e d :
  e <> Clear -> e <> Throw -> draining_ d = bool_decide (is_Some (frame_ d)) ->
  ran_ (step e d).1 ++ in_hand (step e d).1 ++ queue_ (step e d).1 =
  ran_ d ++ in_hand d ++ queue_ d ++ posted [e].
Proof.
  intros Hc Ht Hf. destruct d as [q hw dr fr ran wk]; unfold posted; simpl in *.
  destruct e as [[c|]| | | |]; simpl; rewrite ?app_nil_r; try done.
  - unfold drain_begin. simpl. destruct dr; [done|]. destruct fr; [done|].
    destruct q as [|c rest]; [done|]. simpl. by rewrite app_nil_r, <-app_assoc.
  - unfold drain_next. simpl. destruct fr as [[[|c rest] n]|]; try done. simpl.
    by rewrite <-app_assoc.
Qed.

Lemma run_exact es hw :
  Clear ∉ es -> Throw ∉ es ->
  let d := (run es (new_dispatcher hw)).1 in
  posted es = ran_ d ++ in_hand d ++ queue_ d.
Proof.
  induction es as [|e es IH] using rev_ind; [done|].
  rewrite !not_elem_of_app, !not_elem_of_cons. intros (Hc & Hec & _) (Ht & Het & _).
  specialize (IH Hc Ht). pose proof (dispatch_run_ok es hw) as [Hf _].
  rewrite run_app, posted_app. destruct (run es (new_dispatcher hw)) as [d os]. simpl in *.
  pose proof (step_exact e d ltac:(congruence) ltac:(congruence) Hf) as H.
  destruct (step e d) as [d' o]. simpl in *. rewrite H, IH. by rewrite <-!app_assoc.
Qed.

(** How many items the loop goes past. *)
Fixpoint rounds (es : list event) : nat :=
  match es with
  | [] => 0
  | Next :: es => S (rounds es)
  | _ :: es => rounds es
  end.

(** What a call made while a drain runs is answered. *)
Definition inner_answer (e : event) : option nat :=
  match e with Drain => Some 0%nat | _ => None end.

(** While a drain has an item left to finish, only its own loop moves it: posts
    go to the queue, a re-entrant [drain] answers zero. *)
Lemma run_in_drain es q hw work n ran wk :
  Throw ∉ es -> (rounds es <= length work)%nat ->
  exists wk',
    run es (mkDispatcher q hw true (Some (work, n)) ran wk) =
      (mkDispatcher (left_queued es q) hw true (Some (drop (rounds es) work, n))
         (ran ++ take (rounds es) work) wk', inner_answer <$> es).
Proof.
  revert q work ran wk. induction es as [|e es IH]; intros q work ran wk Ht Hr.
  { exists wk. simpl. by rewrite drop_0, take_0, app_nil_r. }
  apply not_elem_of_cons in Ht as [He Ht].
  destruct e as [[c|]| | | |]; simpl in Hr; cbn [run step].
  1, 2, 3, 6: simpl; unfold clear; simpl;
    match goal with
    | |- context [run _ (mkDispatcher ?q' _ _ _ ?ran' ?wk')] =>
        destruct (IH q' work ran' wk' Ht Hr) as (wk'' & E); exists wk''; by rewrite E
    end.
  - destruct work as [|c work]; simpl in Hr; [lia|]. unfold drain_next. simpl.
    destruct (IH q work (ran ++ [c]) wk) as (wk' & E); [done|lia|].
    exists wk'. rewrite E. by rewrite <-app_assoc.
  - done.
Qed.

(** Over any interleaving of posts from any thread, drains, re-entrant
    drains, closures that throw and clears: a closure runs at most once and in
    the order of the posts, the dispatcher refuses a drain exactly while one is
    running, and when nothing is cleared and nothing throws every closure
    posted has run, is about to be run by the drain in progress, or is
    queued. *)
Lemma dispatcher_ordered (has_wake : bool) (es : list event) :
  let d := (run es (new_dispatcher has_wake)).1 in
  sublist (ran_ d) (posted es) /\
  draining_ d = bool_decide (is_Some (frame_ d)) /\
  (Clear ∉ es -> Throw ∉ es -> posted es = ran_ d ++ in_hand d ++ queue_ d).
Proof.
  destruct (dispatch_run_ok es has_wake) as [Hf (kept & Hs & ->)]. split_and!.
  - etrans; [|exact Hs]. by apply sublist_inserts_r.
  - done.
  - intros Hc Ht. by apply run_exact.
Qed.

(** A drain runs exactly what was queued when it was called, in order, and
    says how many: whatever is posted, cleared or drained again while its items
    run, as long as none of them throws. Work posted meanwhile is still queued
    when the drain returns, so a closure that reposts itself cannot hold the
    drain, and a re-entrant [drain] runs nothing and answers zero. *)
Lemma drain_runs_snapshot (c : C) (work : list C) (has_wake : bool) (ran : list C)
    (wakes : nat) (inside : list event) :
  Throw ∉ inside -> rounds inside = length work ->
  exists wakes',
    run (Drain :: inside ++ [Next]) (mkDispatcher (c :: work) has_wake false None ran wakes) =
      (mkDispatcher (left_queued inside []) has_wake false None (ran ++ c :: work) wakes',
       None :: (inner_answer <$> inside) ++ [Some (S (length work))]).
Proof.
  intros Ht Hr. cbn [run step]. unfold drain_begin. simpl. rewrite run_app.
  destruct (run_in_drain inside [] has_wake work (S (length work)) (ran ++ [c]) wakes Ht)
    as (wk & E); [lia|].
  rewrite E, Hr, drop_all, take_ge by lia. simpl. exists wk. by rewrite <-app_assoc.
Qed.

End dispatcher.
Arguments Dispatcher : clear implicits.
Arguments event : clear implicits.

(** An inner drain and a repost while the first of two closures runs. *)
