(* ===== verification/ReconnectPolicy.v ===== *)
(** * The reconnect policy

    [support/dfu_app/reconnect_policy.hpp]: how long an application waits before
    it tries the link again, and when it stops trying. Durations are
    [std::int64_t] ticks, the attempt counters [unsigned]. *)

From S2P Require Import Prelude.

(** [dfu_app::ReconnectSettings], in ticks. *)
Record ReconnectSettings := mkSettings {
  first_delay : Z;
  max_delay : Z;
  max_attempts : Z
}.

(** [dfu_app::ReconnectPolicy]. *)
Record ReconnectPolicy := mkPolicy {
  settings_ : ReconnectSettings;
  attempts_ : Z
}.

Definition new_policy (settings : ReconnectSettings) : ReconnectPolicy := mkPolicy settings 0.

(** [ReconnectPolicy::kMaxTicks]. *)
Definition kMaxTicks : Z := 2 ^ 63 - 1.

(** [ReconnectPolicy::begin]. *)
Definition begin (p : ReconnectPolicy) : ReconnectPolicy := mkPolicy (settings_ p) 0.

(** [ReconnectPolicy::succeeded]. *)
Definition succeeded (p : ReconnectPolicy) : ReconnectPolicy := mkPolicy (settings_ p) 0.

(** [ReconnectPolicy::exhausted]. *)
Definition exhausted (p : ReconnectPolicy) : bool := max_attempts (settings_ p) <=? attempts_ p.

(** The loop of [delay_for], its rounds counted down, and what follows it. A
    product that leaves [std::int64_t] is undefined behaviour: [None]. *)
Fixpoint double (s : ReconnectSettings) (rounds : nat) (delay : Z) : option Z :=
  match rounds with
  | O => Some (if max_delay s <=? delay then max_delay s else delay)
  | S n =>
      if (max_delay s <=? delay) || (kMaxTicks / 2 <? delay) then Some (max_delay s)
      else if delay * 2 <=? kMaxTicks then double s n (delay * 2) else None
  end.

(** [ReconnectPolicy::delay_for]. *)
Definition delay_for (attempt : Z) (p : ReconnectPolicy) : option Z :=
  let first := first_delay (settings_ p) in
  if first <=? 0 then Some 0 else double (settings_ p) (Z.to_nat attempt) first.

(** [ReconnectPolicy::next_delay]. *)
Definition next_delay (p : ReconnectPolicy) : option (Z * ReconnectPolicy) :=
  if exhausted p then Some (max_delay (settings_ p), p)
  else
    match delay_for (attempts_ p) p with
    | Some delay => Some (delay, mkPolicy (settings_ p) (wrap 32 (attempts_ p + 1)))
    | None => None
    end.

(** The application's loop, [while (!exhausted()) sleep(next_delay())] with
    every attempt to connect failing: the waits it makes. *)
Definition episode_body (s : ReconnectPolicy * list Z)
  : loop (ReconnectPolicy * list Z) (option (list Z)) :=
  let '(p, waits) := s in
  if exhausted p then Return (Some waits)
  else match next_delay p with
       | Some (d, p') => Continue (p', waits ++ [d])
       | None => Return None
       end.

Definition episode (p : ReconnectPolicy) : option (option (list Z)) :=
  iterate episode_body (S (Z.to_nat (max_attempts (settings_ p)))) (begin p, []).

Definition settings_ok (s : ReconnectSettings) : Prop :=
  first_delay s <= kMaxTicks /\ max_delay s <= kMaxTicks /\ u32 (max_attempts s).

(** The schedule of the header comment: doubling from the first delay, never
    above the ceiling. *)
Definition schedule (s : ReconnectSettings) (attempt : Z) : Z :=
  if first_delay s <=? 0 then 0 else Z.min (first_delay s * 2 ^ attempt) (max_delay s).

Lemma double_spec s rounds delay :
  0 < delay <= kMaxTicks -> max_delay s <= kMaxTicks ->
  double s rounds delay = Some (Z.min (delay * 2 ^ Z.of_nat rounds) (max_delay s)).
Proof.
  intros Hd Hm. revert delay Hd. induction rounds as [|n IH]; intros delay Hd; simpl double.
  - f_equal. change (2 ^ Z.of_nat 0) with 1. split_if; bool_to_prop; lia.
  - assert (2 ^ Z.of_nat (S n) = 2 * 2 ^ Z.of_nat n) as ->
      by (rewrite Nat2Z.inj_succ, Z.pow_succ_r; lia).
    assert (1 <= 2 ^ Z.of_nat n) by (pose proof (Z.pow_pos_nonneg 2 (Z.of_nat n)); lia).
    destruct (_ || _) eqn:E.
    + f_equal. apply orb_true_iff in E. rewrite Z.leb_le, Z.ltb_lt in E.
      assert (delay <= delay * 2 ^ Z.of_nat n) by nia.
      symmetry. apply Z.min_r. unfold kMaxTicks in *.
      change ((2 ^ 63 - 1) / 2) with (2 ^ 62 - 1) in E. lia.
    + bool_to_prop. assert (delay * 2 <= kMaxTicks) as Hk by (unfold kMaxTicks in *; change ((2 ^ 63 - 1) / 2) with (2 ^ 62 - 1) in *; lia).
      rewrite (proj2 (Z.leb_le _ _) Hk), IH by lia. by rewrite Z.mul_assoc.
Qed.

(** The shift never overflows, and it is the schedule. *)
Lemma delay_for_spec p attempt :
  settings_ok (settings_ p) -> 0 <= attempt ->
  delay_for attempt p = Some (schedule (settings_ p) attempt).
Proof.
  intros (Hf & Hm & _) Ha. unfold delay_for, schedule. split_if; [done|]. bool_to_prop.
  rewrite double_spec by lia. by rewrite Z2Nat.id.
Qed.

Lemma next_delay_spec p :
  settings_ok (settings_ p) -> 0 <= attempts_ p -> exhausted p = false ->
  next_delay p = Some (schedule (settings_ p) (attempts_ p),
                       mkPolicy (settings_ p) (attempts_ p + 1)).
Proof.
  intros Hs Ha He. unfold next_delay. rewrite He, delay_for_spec by done.
  destruct Hs as (_ & _ & Hu). unfold exhausted in He. bool_to_prop.
  rewrite wrap_fits; [done|]. unfold fits in *. lia.
Qed.

Lemma episode_loop p n fuel waits :
  settings_ok (settings_ p) -> 0 <= attempts_ p ->
  Z.of_nat n = max_attempts (settings_ p) - attempts_ p -> (n < fuel)%nat ->
  iterate episode_body fuel (p, waits) =
  Some (Some (waits ++ (schedule (settings_ p) <$> seqZ (attempts_ p) (Z.of_nat n)))).
Proof.
  revert p fuel waits. induction n as [|n IH]; intros p fuel waits Hs Ha Hn Hf;
    (destruct fuel as [|fuel]; [lia|]); cbn [iterate episode_body].
  - assert (exhausted p = true) as -> by (unfold exhausted; apply Z.leb_le; lia).
    by rewrite seqZ_nil, app_nil_r by lia.
  - assert (exhausted p = false) as He by (unfold exhausted; apply Z.leb_gt; lia).
    rewrite He, next_delay_spec by done. rewrite IH; simpl; [|done|lia|lia|lia].
    rewrite <-app_assoc, (seqZ_cons (attempts_ p)) by lia. simpl.
    replace (Z.pred (Z.of_nat (S n))) with (Z.of_nat n) by lia. by rewrite Z.add_1_r.
Qed.

Lemma sum_le_bound (l : list Z) m : Forall (fun d => d <= m) l -> foldr Z.add 0 l <= zlen l * m.
Proof. induction 1 as [|d l Hd _ IH]; cbn [foldr length]; [done|]. rewrite Nat2Z.inj_succ. lia. Qed.

(** The give-up bound: an episode in which no attempt succeeds always ends,
    after exactly [max_attempts] waits (none when that is zero); the waits are
    the doubling schedule clamped at [max_delay], computed without overflow for
    any settings, so together they never exceed
    [max_attempts * max_delay]. *)
Lemma reconnect_gives_up (p : ReconnectPolicy) :
  settings_ok (settings_ p) -> 0 <= max_delay (settings_ p) ->
  exists waits,
    episode p = Some (Some waits) /\
    zlen waits = max_attempts (settings_ p) /\
    waits = schedule (settings_ p) <$> seqZ 0 (max_attempts (settings_ p)) /\
    Forall (fun d => d <= max_delay (settings_ p)) waits /\
    foldr Z.add 0 waits <= max_attempts (settings_ p) * max_delay (settings_ p).
Proof.
  intros Hs Hm. destruct (Hs) as (_ & _ & Hu). unfold fits in Hu.
  set (s := settings_ p) in *. set (k := max_attempts s) in *.
  exists (schedule s <$> seqZ 0 k). unfold episode.
  assert (Forall (fun d => d <= max_delay s) (schedule s <$> seqZ 0 k)) as Hle.
  { apply Forall_fmap, Forall_true. intros i. change (schedule s i <= max_delay s). unfold schedule.
    split_if; lia. }
  split_and!; try done.
  - rewrite (episode_loop (begin p) (Z.to_nat k)); simpl; fold s k; try done; try lia.
    by rewrite Z2Nat.id by lia.
  - rewrite length_fmap, length_seqZ. lia.
  - apply sum_le_bound in Hle. rewrite length_fmap, length_seqZ, Z2Nat.id in Hle by lia. done.
Qed.

(** The waits of the default settings, in milliseconds. *)
Example default_schedule :
  episode (new_policy (mkSettings 500 8000 6)) = Some (Some [500; 1000; 2000; 4000; 8000; 8000]).
Proof. reflexivity. Qed.
