(* ===== verification/StoredZip.v ===== *)
(** * Stored zip archives

    [support/dfu_package/stored_zip.cpp]: the files of a zip archive whose
    entries are stored. The archive is a file somebody handed over, so the code
    must not read outside it whatever it claims; an index or a view outside a
    buffer is undefined behaviour and is [None] here, and [read_stored_zip_safe]
    says that it never happens. *)

From S2P Require Import Prelude Errors.

(** ** Checked access *)

(** [None] is undefined behaviour; an error is a value. *)
Definition checked (A : Type) : Type := option (Result A).

Definition checked_bind {A B} (m : checked A) (k : A -> checked B) : checked B :=
  match m with
  | None => None
  | Some (Fail e) => Some (Fail e)
  | Some (Success a) => k a
  end.

Definition checked_fail {A} (c : ErrorCode) (where_ : string) : checked A := Some (fail c where_).

Declare Scope checked_scope.
Delimit Scope checked_scope with checked.

Notation "'let!' x ':=' o 'in' k" :=
  (option_bind _ _ (fun x => k) o) (at level 10, x pattern, o at level 100, k at level 200)
  : checked_scope.
Notation "'let!?' x ':=' m 'in' k" :=
  (checked_bind m (fun x => k)) (at level 10, x pattern, m at level 100, k at level 200)
  : checked_scope.
Open Scope checked_scope.

(** [bytes[at]]. *)
Definition byte_at (b : bytes) (at_ : Z) : option Z :=
  if at_ <? 0 then None else b !! Z.to_nat at_.

(** [bytes.subspan(at, count)]. *)
Definition subspan (b : bytes) (at_ count : Z) : option bytes :=
  if (0 <=? at_) && (0 <=? count) && (at_ + count <=? zlen b)
  then Some (take (Z.to_nat count) (drop (Z.to_nat at_) b)) else None.

(** [le16] and [le32]. *)
Definition le16_at (b : bytes) (at_ : Z) : option Z :=
  let! lo := byte_at b at_ in
  let! hi := byte_at b (at_ + 1) in
  Some (wrap 16 (Z.lor lo (wrap 32 (Z.shiftl hi 8)))).

Definition le32_at (b : bytes) (at_ : Z) : option Z :=
  let! lo := le16_at b at_ in
  let! hi := le16_at b (at_ + 2) in
  Some (Z.lor lo (wrap 32 (Z.shiftl hi 16))).

(** A string literal as the chars of a [std::string]. *)
Fixpoint chars (s : string) : bytes :=
  match s with
  | EmptyString => []
  | String c s => Z.of_N (Ascii.N_of_ascii c) :: chars s
  end.

(** ** CRC-32 *)

(** One bit of the inner loop of [make_crc_table]. *)
Definition table_bit (value : Z) : Z :=
  if negb (Z.land value 1 =? 0) then Z.lxor (Z.shiftr value 1) 0xEDB88320 else Z.shiftr value 1.

(** [make_crc_table] and [kCrcTable]. *)
Definition make_crc_table : list Z :=
  (fun index => Nat.iter 8 table_bit (Z.of_nat index)) <$> seq 0 256.

Definition kCrcTable : list Z := Eval vm_compute in make_crc_table.

(** One byte of the loop of [crc32]; the index is below 256, so the default is
    never used. *)
Definition crc32_byte (crc byte : Z) : Z :=
  Z.lxor (default 0 (kCrcTable !! Z.to_nat (Z.land (Z.lxor crc byte) 255))) (Z.shiftr crc 8).

(** [crc32]. *)
Definition crc32 (data : bytes) : Z := Z.lxor (foldl crc32_byte 0xFFFFFFFF data) 0xFFFFFFFF.

Example crc32_check : crc32 (chars "123456789") = 0xCBF43926.
Proof. reflexivity. Qed.

(** ** The directory *)

Definition kLocalHeaderSignature : Z := 0x04034B50.
Definition kCentralHeaderSignature : Z := 0x02014B50.
Definition kEndOfCentralDirectorySignature : Z := 0x06054B50.
Definition kLocalHeaderSize : Z := 30.
Definition kCentralHeaderSize : Z := 46.
Definition kEndOfCentralDirectorySize : Z := 22.
Definition kMaxCommentLength : Z := 0xFFFF.
Definition kFlagEncryptedEntry : Z := 1.
Definition kFlagStrongEncryption : Z := 0x40.
Definition kMethodStored : Z := 0.
Definition kMethodDeflated : Z := 8.
Definition kMaxZipEntries : Z := 32.
Definition kMaxZipNameLength : Z := 255.

Definition malformed_zip {A} (what : string) : checked A := checked_fail MalformedMessage what.
Definition unsupported_zip {A} (what : string) : checked A := checked_fail InvalidArgument what.

(** [Directory]. *)
Record Directory := mkDirectory { dr_offset : Z; dr_size : Z; dr_entries : Z }.

(** The record at [at_], once it is taken for the end record: the rest of the
    body of the loop of [find_directory]. *)
Definition read_end_record (archive : bytes) (at_ : Z) : checked Directory :=
  let! disk := le16_at archive (at_ + 4) in
  let! directory_disk := le16_at archive (at_ + 6) in
  let! on_disk := le16_at archive (at_ + 8) in
  let! total := le16_at archive (at_ + 10) in
  let! size := le32_at archive (at_ + 12) in
  let! offset := le32_at archive (at_ + 16) in
  if (total =? 0xFFFF) || (size =? 0xFFFFFFFF) || (offset =? 0xFFFFFFFF)
  then unsupported_zip "zip: zip64 archives are not supported"
  else if negb (disk =? 0) || negb (directory_disk =? 0) || negb (on_disk =? total)
  then unsupported_zip "zip: archives spanning several disks are not supported"
  else if kMaxZipEntries <? total then checked_fail MessageTooLarge "zip: too many entries"
  else if (at_ <? offset) || (wrap 64 (at_ - offset) <? size)
  then malformed_zip "zip: central directory outside the archive"
  else Some (Success (mkDirectory offset size total)).

(** The loop of [find_directory]: [n] candidates are left, the highest first. *)
Fixpoint find_end_record (archive : bytes) (last first : Z) (n : nat) : checked Directory :=
  match n with
  | O => malformed_zip "zip: no end of central directory record"
  | S n =>
      let at_ := first + Z.of_nat n in
      let! signature := le32_at archive at_ in
      if negb (signature =? kEndOfCentralDirectorySignature) then find_end_record archive last first n
      else
        let! comment := le16_at archive (at_ + 20) in
        if negb (comment =? wrap 64 (last - at_)) then find_end_record archive last first n
        else read_end_record archive at_
  end.

(** [find_directory]. *)
Definition find_directory (archive : bytes) : checked Directory :=
  if zlen archive <? kEndOfCentralDirectorySize
  then malformed_zip "zip: shorter than an end of central directory record"
  else
    let last := zlen archive - kEndOfCentralDirectorySize in
    let first := if kMaxCommentLength <? last then last - kMaxCommentLength else 0 in
    find_end_record archive last first (Z.to_nat (last + 1 - first)).

(** ** The entries *)

(** [ZipEntry]. *)
Record ZipEntry := mkZipEntry { z_name : bytes; z_data : bytes }.

(** The second half of [read_entry]: the local header and the data behind it,
    which must lie before the directory. *)
Definition read_local (archive : bytes) (directory : Directory) (name : bytes)
    (local compressed crc : Z) : checked ZipEntry :=
  let bad := malformed_zip "zip: bad local header" in
  if (dr_offset directory <? local) || (wrap 64 (dr_offset directory - local) <? kLocalHeaderSize)
  then bad
  else
    let! signature := le32_at archive local in
    if negb (signature =? kLocalHeaderSignature) then bad
    else
      let! local_name := le16_at archive (local + 26) in
      let! local_extra := le16_at archive (local + 28) in
      let room := wrap 64 (dr_offset directory - local - kLocalHeaderSize) in
      if negb (local_name =? zlen name) || (room <? local_name + local_extra)
         || (wrap 64 (room - local_name - local_extra) <? compressed)
      then malformed_zip "zip: entry overruns the archive"
      else
        let! local_name_bytes := subspan archive (local + kLocalHeaderSize) local_name in
        if bool_decide (local_name_bytes <> name)
        then malformed_zip "zip: local and central names disagree"
        else
          let! data :=
            subspan archive (local + kLocalHeaderSize + local_name + local_extra) compressed in
          if negb (crc32 data =? crc) then malformed_zip "zip: CRC-32 mismatch"
          else Some (Success (mkZipEntry name data)).

(** [read_entry], with the cursor after it. *)
Definition read_entry (archive : bytes) (directory : Directory) (cursor : Z)
  : checked (ZipEntry * Z) :=
  let end_ := dr_offset directory + dr_size directory in
  let bad := malformed_zip "zip: bad central directory header" in
  if wrap 64 (end_ - cursor) <? kCentralHeaderSize then bad
  else
    let! signature := le32_at archive cursor in
    if negb (signature =? kCentralHeaderSignature) then bad
    else
      let! header := subspan archive cursor kCentralHeaderSize in
      let! flags := le16_at header 8 in
      let! method := le16_at header 10 in
      let! crc := le32_at header 16 in
      let! compressed := le32_at header 20 in
      let! uncompressed := le32_at header 24 in
      let! name_length := le16_at header 28 in
      let! extra_length := le16_at header 30 in
      let! comment_length := le16_at header 32 in
      let variable := name_length + extra_length + comment_length in
      let! local := le32_at header 42 in
      if wrap 64 (end_ - cursor - kCentralHeaderSize) <? variable
      then malformed_zip "zip: central directory header overruns the directory"
      else if (name_length =? 0) || (kMaxZipNameLength <? name_length)
      then malformed_zip "zip: entry name empty or too long"
      else
        let! name := subspan archive (cursor + kCentralHeaderSize) name_length in
        let cursor := cursor + kCentralHeaderSize + variable in
        if negb (Z.land flags (Z.lor kFlagEncryptedEntry kFlagStrongEncryption) =? 0)
        then unsupported_zip "zip: encrypted entries are not supported"
        else if method =? kMethodDeflated
        then unsupported_zip "zip: deflated entries are not supported; the package must be stored"
        else if negb (method =? kMethodStored)
        then unsupported_zip "zip: compressed entries are not supported"
        else if negb (compressed =? uncompressed)
        then malformed_zip "zip: stored entry with two different sizes"
        else
          let!? entry := read_local archive directory name local compressed crc in
          Some (Success (entry, cursor)).

(** The loop of [read_stored_zip], [n] entries to go. *)
Fixpoint read_entries (archive : bytes) (directory : Directory) (n : nat) (cursor : Z)
    (entries : list ZipEntry) : checked (list ZipEntry) :=
  match n with
  | O => Some (Success entries)
  | S n =>
      let!? (entry, cursor) := read_entry archive directory cursor in
      if bool_decide (last (z_name entry) = Some 47)
      then read_entries archive directory n cursor entries
      else if existsb (fun other => bool_decide (z_name other = z_name entry)) entries
      then malformed_zip "zip: a name appears twice"
      else read_entries archive directory n cursor (entries ++ [entry])
  end.

(** [read_stored_zip]. *)
Definition read_stored_zip (archive : bytes) : checked (list ZipEntry) :=
  let!? directory := find_directory archive in
  read_entries archive directory (Z.to_nat (dr_entries directory)) (dr_offset directory) [].

(** ** The CRC is the one of the standard

    Bit by bit, least significant first, without the table. *)

Definition crc32_spec (data : bytes) : Z :=
  Z.lxor (foldl (fun crc byte => Nat.iter 8 table_bit (Z.lxor crc byte)) 0xFFFFFFFF data) 0xFFFFFFFF.

Lemma table_bit_odd v :
  table_bit v = Z.lxor (Z.shiftr v 1) (if Z.odd v then 0xEDB88320 else 0).
Proof.
  unfold table_bit. change 1 with (Z.ones 1) at 1. rewrite Z.land_ones by lia.
  change (2 ^ 1) with 2. rewrite Zmod_odd. destruct (Z.odd v); [done|]. by rewrite Z.lxor_0_r.
Qed.

Lemma table_bit_lxor a b : table_bit (Z.lxor a b) = Z.lxor (table_bit a) (table_bit b).
Proof.
  rewrite !table_bit_odd, Z.shiftr_lxor. rewrite <- !Z.bit0_odd, Z.lxor_spec.
  apply Z.bits_inj'. intros n Hn. rewrite !Z.lxor_spec.
  destruct (Z.testbit a 0), (Z.testbit b 0); cbn [xorb]; rewrite ?Z.testbit_0_l;
    destruct (Z.testbit (Z.shiftr a 1) n), (Z.testbit (Z.shiftr b 1) n), (Z.testbit 0xEDB88320 n); done.
Qed.

Lemma table_bits_lxor k a b :
  Nat.iter k table_bit (Z.lxor a b) = Z.lxor (Nat.iter k table_bit a) (Nat.iter k table_bit b).
Proof. induction k as [|k IH]; [done|]. rewrite !Nat.iter_succ. by rewrite IH, table_bit_lxor. Qed.

Lemma table_bits_shift k y : Nat.iter k table_bit (Z.shiftl y (Z.of_nat k)) = y.
Proof.
  revert y. induction k as [|k IH]; intros y; [by rewrite Z.shiftl_0_r|].
  replace (Z.shiftl y (Z.of_nat (S k))) with (Z.shiftl (Z.shiftl y 1) (Z.of_nat k))
    by (rewrite Z.shiftl_shiftl by lia; f_equal; lia).
  rewrite Nat.iter_succ, IH, table_bit_odd. rewrite Z.shiftr_shiftl_l by lia. rewrite Z.shiftl_0_r.
  rewrite Z.shiftl_mul_pow2, Z.odd_mul by lia. change (Z.odd (2 ^ 1)) with false.
  by rewrite andb_false_r, Z.lxor_0_r.
Qed.

Lemma crc_table_at i : 0 <= i < 256 -> kCrcTable !! Z.to_nat i = Some (Nat.iter 8 table_bit i).
Proof.
  intros Hi. change kCrcTable with make_crc_table. unfold make_crc_table.
  rewrite list_lookup_fmap, lookup_seq_lt by lia. cbn [fmap option_fmap option_map]. by rewrite Nat.add_0_l, Z2Nat.id by lia.
Qed.

Lemma low_byte_split x : x = Z.lxor (Z.land x 255) (Z.shiftl (Z.shiftr x 8) 8).
Proof.
  apply Z.bits_inj'. intros n Hn. rewrite Z.lxor_spec. change 255 with (Z.ones 8).
  destruct (Z.lt_ge_cases n 8).
  - rewrite Z.shiftl_spec_low, xorb_false_r by lia. rewrite Z.land_spec, Z.ones_spec_low by lia.
    by rewrite andb_true_r.
  - rewrite Z.shiftl_spec_high, Z.shiftr_spec, Z.land_spec, Z.ones_spec_high by lia.
    rewrite andb_false_r, xorb_false_l. f_equal. lia.
Qed.

Lemma crc32_byte_spec crc byte : u8 byte -> crc32_byte crc byte = Nat.iter 8 table_bit (Z.lxor crc byte).
Proof.
  intros Hb. unfold crc32_byte. rewrite crc_table_at by (rewrite land_255; apply Z.mod_pos_bound; lia).
  cbn [default]. rewrite (low_byte_split (Z.lxor crc byte)) at 2.
  rewrite table_bits_lxor. f_equal. change 8 with (Z.of_nat 8) at 3.
  rewrite table_bits_shift. rewrite Z.shiftr_lxor.
  replace (Z.shiftr byte 8) with 0 by (rewrite shiftr_8; unfold fits in Hb; symmetry; apply Z.div_small; lia).
  by rewrite Z.lxor_0_r.
Qed.

Lemma crc32_correct data : byte_list data -> crc32 data = crc32_spec data.
Proof.
  intros Hd. unfold crc32, crc32_spec. f_equal. generalize 0xFFFFFFFF.
  induction Hd as [|b data Hb Hd IH]; intros crc; [done|]. cbn [foldl]. by rewrite crc32_byte_spec, IH.
Qed.

(** ** Never outside the archive *)

(** No undefined behaviour, and [P] of what is returned. *)
Definition safe {A} (P : A -> Prop) (m : checked A) : Prop :=
  match m with None => False | Some (Fail _) => True | Some (Success a) => P a end.

Lemma safe_bind {A B} (P : A -> Prop) (Q : B -> Prop) (m : checked A) (k : A -> checked B) :
  safe P m -> (forall a, P a -> safe Q (k a)) -> safe Q (checked_bind m k).
Proof. destruct m as [[a|e]|]; cbn; auto. Qed.

Lemma safe_weaken {A} (P Q : A -> Prop) (m : checked A) :
  (forall a, P a -> Q a) -> safe P m -> safe Q m.
Proof. destruct m as [[a|e]|]; cbn; auto. Qed.

Lemma byte_at_in b i : 0 <= i < zlen b -> exists v, byte_at b i = Some v.
Proof.
  intros Hi. unfold byte_at. rewrite (proj2 (Z.ltb_ge i 0)) by lia. apply lookup_lt_is_Some. lia.
Qed.

Lemma le16_at_in b i : 0 <= i -> i + 2 <= zlen b -> exists v, le16_at b i = Some v /\ u16 v.
Proof.
  intros Hi Hb. destruct (byte_at_in b i) as [lo Hlo]; [lia|].
  destruct (byte_at_in b (i + 1)) as [hi Hhi]; [lia|].
  unfold le16_at. rewrite Hlo, Hhi. cbn. eexists. split; [done|]. by apply fits_wrap.
Qed.

Lemma le32_at_in b i : 0 <= i -> i + 4 <= zlen b -> exists v, le32_at b i = Some v /\ 0 <= v.
Proof.
  intros Hi Hb. destruct (le16_at_in b i) as (lo & Hlo & Hl); [lia..|].
  destruct (le16_at_in b (i + 2)) as (hi & Hhi & Hh); [lia..|].
  unfold le32_at. rewrite Hlo, Hhi. cbn. eexists. split; [done|].
  apply Z.lor_nonneg. split; [apply Hl|]. apply fits_wrap. lia.
Qed.

Lemma subspan_in b i n :
  0 <= i -> 0 <= n -> i + n <= zlen b -> exists s, subspan b i n = Some s /\ zlen s = n.
Proof.
  intros Hi Hn Hb. unfold subspan. rewrite !(proj2 (Z.leb_le _ _)) by lia. cbn.
  eexists. split; [done|]. rewrite length_take, length_drop. lia.
Qed.

(** Reads a field that is there. *)
Ltac in_bounds :=
  match goal with
  | |- safe _ (option_bind _ _ _ (le16_at ?b ?i)) => destruct (le16_at_in b i) as (? & -> & ?); [lia..|]
  | |- safe _ (option_bind _ _ _ (le32_at ?b ?i)) => destruct (le32_at_in b i) as (? & -> & ?); [lia..|]
  | |- safe _ (option_bind _ _ _ (subspan ?b ?i ?n)) => destruct (subspan_in b i n) as (? & -> & ?); [lia..|]
  end;
  cbn [option_bind].

(** An unsigned subtraction that does not go below zero. *)
Lemma wrap64_sub x : 0 <= x < 2 ^ 64 -> wrap 64 x = x.
Proof. apply wrap_fits. Qed.

(** What [find_directory] promises of a directory it found. *)
Definition directory_ok (archive : bytes) (d : Directory) : Prop :=
  0 <= dr_offset d /\ 0 <= dr_size d /\ 0 <= dr_entries d <= kMaxZipEntries /\
  dr_offset d + dr_size d + kEndOfCentralDirectorySize <= zlen archive.

Section outside.
Context (archive : bytes) (archive_fits : zlen archive < 2 ^ 64).

Lemma read_end_record_safe at_ :
  0 <= at_ -> at_ + kEndOfCentralDirectorySize <= zlen archive ->
  safe (directory_ok archive) (read_end_record archive at_).
Proof.
  unfold kEndOfCentralDirectorySize. intros H0 Hat. unfold read_end_record.
  do 6 in_bounds. repeat match goal with |- context [if ?c then _ else _] => destruct c eqn:? end; try done.
  bool_to_prop. rewrite wrap64_sub in * by lia. unfold fits in *.
  unfold directory_ok, kEndOfCentralDirectorySize, kMaxZipEntries in *. cbn. lia.
Qed.

Lemma find_end_record_safe last first n :
  0 <= first -> first + Z.of_nat n <= last + 1 -> last + kEndOfCentralDirectorySize <= zlen archive ->
  safe (directory_ok archive) (find_end_record archive last first n).
Proof.
  intros Hf Hn Hl. induction n as [|n IH]; cbn [find_end_record]; [done|].
  unfold kEndOfCentralDirectorySize in *. in_bounds. destruct (negb _); [apply IH; lia|].
  in_bounds. destruct (negb _); [apply IH; lia|]. apply read_end_record_safe; unfold kEndOfCentralDirectorySize; lia.
Qed.

Lemma find_directory_safe : safe (directory_ok archive) (find_directory archive).
Proof.
  unfold find_directory. destruct (zlen archive <? _) eqn:E; [done|]. bool_to_prop.
  unfold kEndOfCentralDirectorySize, kMaxCommentLength in *. cbn zeta.
  destruct (65535 <? _) eqn:E'; bool_to_prop; apply find_end_record_safe; unfold kEndOfCentralDirectorySize; lia.
Qed.

(** An entry's name and data stand in the archive, one behind the other. *)
Definition stands_in (e : ZipEntry) : Prop :=
  exists pre extra post, archive = pre ++ z_name e ++ extra ++ z_data e ++ post.

Lemma subspan_two i n x c s d :
  0 <= x -> subspan archive i n = Some s -> subspan archive (i + n + x) c = Some d ->
  exists pre extra post, archive = pre ++ s ++ extra ++ d ++ post.
Proof.
  unfold subspan. intros Hx. destruct (_ && _) eqn:E; [|done]. destruct (_ && _) eqn:E' in |- *; [|done].
  bool_to_prop. intros [= <-] [= <-].
  exists (take (Z.to_nat i) archive), (take (Z.to_nat x) (drop (Z.to_nat (i + n)) archive)),
    (drop (Z.to_nat (i + n + x + c)) archive).
  rewrite <- (take_drop (Z.to_nat i) archive) at 1. f_equal.
  rewrite <- (take_drop (Z.to_nat n) (drop (Z.to_nat i) archive)) at 1. f_equal.
  rewrite drop_drop. replace (Z.to_nat i + Z.to_nat n)%nat with (Z.to_nat (i + n)) by lia.
  rewrite <- (take_drop (Z.to_nat x) (drop _ archive)) at 1. f_equal.
  rewrite drop_drop. replace (Z.to_nat (i + n) + Z.to_nat x)%nat with (Z.to_nat (i + n + x)) by lia.
  rewrite <- (take_drop (Z.to_nat c) (drop _ archive)) at 1. f_equal.
  rewrite drop_drop. f_equal. lia.
Qed.

Lemma read_local_safe d name local compressed crc :
  directory_ok archive d -> 0 <= local -> 0 <= compressed ->
  safe (fun e => z_name e = name /\ stands_in e /\ crc32 (z_data e) = crc)
    (read_local archive d name local compressed crc).
Proof.
  intros (Ho & Hs & _ & He) Hl Hc. unfold read_local, kLocalHeaderSize, kEndOfCentralDirectorySize in *. cbn zeta.
  destruct (_ || _) eqn:E; [done|]. bool_to_prop. rewrite wrap64_sub in * by lia.
  in_bounds. destruct (negb _); [done|]. do 2 in_bounds. unfold fits in *.
  rewrite (wrap64_sub (dr_offset d - local - 30)) by lia.
  destruct (_ || _ || _) eqn:E'; [done|]. bool_to_prop. rewrite wrap64_sub in * by lia.
  destruct (subspan archive (local + 30) _) as [s|] eqn:Hname; cycle 1.
  { destruct (subspan_in archive (local + 30) (zlen name)) as (? & Hn & _); [lia..|]. congruence. }
  cbn [option_bind]. case_bool_decide as Hsn; [done|].
  match goal with |- safe _ (option_bind _ _ _ (subspan ?b ?i ?n)) => destruct (subspan_in b i n) as (dt & Hdata & ?); [lia..|] end.
  rewrite Hdata. cbn [option_bind]. destruct (negb _) eqn:Hcrc; [done|]. bool_to_prop. cbn. split_and!; [done| |lia].
  unfold stands_in. cbn. subst s. eapply (subspan_two _ _ _ _ name); [|exact Hname|exact Hdata]. lia.
Qed.

Lemma read_entry_safe d cursor :
  directory_ok archive d -> dr_offset d <= cursor <= dr_offset d + dr_size d ->
  safe (fun '(e, cursor') => dr_offset d <= cursor' <= dr_offset d + dr_size d /\
          1 <= zlen (z_name e) <= kMaxZipNameLength /\ stands_in e)
    (read_entry archive d cursor).
Proof.
  intros Hd Hc. pose proof Hd as (Ho & Hs & _ & He). unfold kEndOfCentralDirectorySize in He.
  unfold read_entry, kCentralHeaderSize. cbn zeta.
  destruct (_ <? 46) eqn:E; [done|]. bool_to_prop. rewrite wrap64_sub in * by lia.
  in_bounds. destruct (negb _); [done|]. do 3 in_bounds. do 6 in_bounds. in_bounds.
  rewrite wrap64_sub by lia. unfold fits in *.
  destruct (_ <? _) eqn:E'; [done|]. bool_to_prop. destruct (_ || _) eqn:E''; [done|]. bool_to_prop.
  in_bounds. repeat (destruct (negb _); [done|]). destruct (_ =? kMethodDeflated); [done|].
  repeat (destruct (negb _); [done|]).
  eapply safe_bind; [by apply read_local_safe|]. intros e (Hn & Hst & _). cbn. rewrite Hn. split_and!; [lia..|done].
Qed.

(** A file [read_stored_zip] lists. *)
Definition listed (e : ZipEntry) : Prop :=
  1 <= zlen (z_name e) <= kMaxZipNameLength /\ last (z_name e) <> Some 47 /\ stands_in e.

Lemma read_entries_safe d n cursor entries :
  directory_ok archive d -> dr_offset d <= cursor <= dr_offset d + dr_size d ->
  Forall listed entries -> NoDup (z_name <$> entries) ->
  safe (fun es => Forall listed es /\ NoDup (z_name <$> es) /\ (length es <= length entries + n)%nat)
    (read_entries archive d n cursor entries).
Proof.
  intros Hd. revert cursor entries. induction n as [|n IH]; intros cursor entries Hc Hl Hn;
    cbn [read_entries]; [by rewrite Nat.add_0_r|].
  eapply safe_bind; [by apply read_entry_safe|]. intros [e cursor'] (Hc' & Hlen & Hst).
  case_bool_decide as Hdir.
  { eapply safe_weaken; [|by apply IH]. cbn. intros es (? & ? & ?). split_and!; [done..|lia]. }
  destruct (existsb _ entries) eqn:Hex; [done|].
  eapply safe_weaken; [|apply IH; [done| |]].
  - cbn. intros es (? & ? & Hle). rewrite length_app in Hle. cbn in Hle. split_and!; [done..|lia].
  - apply Forall_app. split; [done|]. apply Forall_singleton. by unfold listed.
  - rewrite fmap_app. apply NoDup_app. split; [done|]. cbn. split; [|apply NoDup_singleton].
    intros x Hx Hx'. apply list_elem_of_singleton in Hx' as ->. apply list_elem_of_fmap in Hx as (e' & He & Hin).
    assert (existsb (fun other => bool_decide (z_name other = z_name e)) entries = true); [|congruence].
    apply existsb_exists. exists e'. split; [by apply list_elem_of_In|]. by apply bool_decide_eq_true_2.
Qed.
End outside.

(** Whatever bytes are handed over as an archive, the reader never touches a
    byte outside them, and what it lists are at most [kMaxZipEntries] files with
    distinct names of sensible length, each of whose name and contents stand in
    the archive as they are. *)
Lemma read_stored_zip_safe (archive : bytes) :
  zlen archive < 2 ^ 64 ->
  safe (fun es => Forall (listed archive) es /\ NoDup (z_name <$> es) /\ zlen es <= kMaxZipEntries)
    (read_stored_zip archive).
Proof.
  intros Hf. unfold read_stored_zip. eapply safe_bind; [by apply find_directory_safe|].
  intros d Hd. pose proof Hd as (Ho & Hs & He & _).
  eapply safe_weaken; [|apply (read_entries_safe archive Hf d); [done|lia|constructor|constructor]].
  cbn. intros es (? & ? & ?). split_and!; [done..|lia].
Qed.

(** ** Round trip

    An archive as the build tools write it: the files one behind the other, the
    directory, the end record without a comment. What the reader does not look
    at (versions, times, attributes, extra fields, comments) is arbitrary. *)

Definition le16_bytes (v : Z) : bytes := [v mod 256; v / 256].
Definition le32_bytes (v : Z) : bytes := le16_bytes (v mod 65536) ++ le16_bytes (v / 65536).

Record zip_file := mkZipFile {
  zf_name : bytes;
  zf_data : bytes;
  zf_flags : Z;
  zf_versions : Z * Z;
  zf_time : Z * Z;
  zf_attributes : Z * Z * Z;
  zf_local_extra : bytes;
  zf_central_extra : bytes;
  zf_comment : bytes
}.

Definition local_bytes (f : zip_file) : bytes :=
  le32_bytes kLocalHeaderSignature ++ le16_bytes (zf_versions f).2 ++ le16_bytes (zf_flags f) ++
  le16_bytes kMethodStored ++ le16_bytes (zf_time f).1 ++ le16_bytes (zf_time f).2 ++
  le32_bytes (crc32 (zf_data f)) ++ le32_bytes (zlen (zf_data f)) ++ le32_bytes (zlen (zf_data f)) ++
  le16_bytes (zlen (zf_name f)) ++ le16_bytes (zlen (zf_local_extra f)) ++
  zf_name f ++ zf_local_extra f ++ zf_data f.

Definition central_header (f : zip_file) (local : Z) : bytes :=
  le32_bytes kCentralHeaderSignature ++ le16_bytes (zf_versions f).1 ++ le16_bytes (zf_versions f).2 ++
  le16_bytes (zf_flags f) ++ le16_bytes kMethodStored ++ le16_bytes (zf_time f).1 ++
  le16_bytes (zf_time f).2 ++ le32_bytes (crc32 (zf_data f)) ++ le32_bytes (zlen (zf_data f)) ++
  le32_bytes (zlen (zf_data f)) ++ le16_bytes (zlen (zf_name f)) ++
  le16_bytes (zlen (zf_central_extra f)) ++ le16_bytes (zlen (zf_comment f)) ++
  le16_bytes (zf_attributes f).1.1 ++ le16_bytes (zf_attributes f).1.2 ++
  le32_bytes (zf_attributes f).2 ++ le32_bytes local.

Definition central_bytes (f : zip_file) (local : Z) : bytes :=
  central_header f local ++ zf_name f ++ zf_central_extra f ++ zf_comment f.

Definition end_record (entries size offset : Z) : bytes :=
  le32_bytes kEndOfCentralDirectorySignature ++ le16_bytes 0 ++ le16_bytes 0 ++ le16_bytes entries ++
  le16_bytes entries ++ le32_bytes size ++ le32_bytes offset ++ le16_bytes 0.

Definition locals (fs : list zip_file) : bytes := concat (local_bytes <$> fs).

Fixpoint centrals (at_ : Z) (fs : list zip_file) : bytes :=
  match fs with
  | [] => []
  | f :: fs => central_bytes f at_ ++ centrals (at_ + zlen (local_bytes f)) fs
  end.

Definition write_zip (fs : list zip_file) : bytes :=
  locals fs ++ centrals 0 fs ++ end_record (zlen fs) (zlen (centrals 0 fs)) (zlen (locals fs)).

(** What the format can hold, and the reader accepts. *)
Definition zip_file_ok (f : zip_file) : Prop :=
  byte_list (zf_data f) /\ 1 <= zlen (zf_name f) <= kMaxZipNameLength /\ u16 (zf_flags f) /\
  Z.land (zf_flags f) (Z.lor kFlagEncryptedEntry kFlagStrongEncryption) = 0 /\
  zlen (zf_local_extra f) < 65536 /\ zlen (zf_central_extra f) < 65536 /\ zlen (zf_comment f) < 65536.

Definition zip_ok (fs : list zip_file) : Prop :=
  Forall zip_file_ok fs /\ NoDup (zf_name <$> fs) /\ zlen fs <= kMaxZipEntries /\
  zlen (locals fs) < 2 ^ 32 - 1 /\ zlen (centrals 0 fs) < 2 ^ 32 - 1.

Definition entry_of (f : zip_file) : ZipEntry := mkZipEntry (zf_name f) (zf_data f).

(** The fields of explicit bytes. *)
Lemma le16_join v : u16 v -> wrap 16 (Z.lor (v mod 256) (wrap 32 (Z.shiftl (v / 256) 8))) = v.
Proof.
  intros Hv. pose proof (byte_div v Hv) as Hd. unfold fits in *. pose proof (Z.mod_pos_bound v 256 ltac:(lia)).
  rewrite (wrap_fits 32) by (rewrite Z.shiftl_mul_pow2 by lia; unfold fits; lia).
  rewrite Z.lor_comm, lor_shiftl_add by lia. pose proof (Z.div_mod v 256 ltac:(lia)).
  rewrite wrap_fits; unfold fits; lia.
Qed.

Lemma le32_join v :
  u32 v -> Z.lor (v mod 65536) (wrap 32 (Z.shiftl (v / 65536) 16)) = v.
Proof.
  intros Hv. unfold fits in Hv. pose proof (Z.mod_pos_bound v 65536 ltac:(lia)). pose proof (Z.div_mod v 65536 ltac:(lia)).
  rewrite (wrap_fits 32) by (rewrite Z.shiftl_mul_pow2 by lia; unfold fits; lia).
  rewrite Z.lor_comm, lor_shiftl_add by lia. lia.
Qed.

Lemma byte_at_app pre l i : 0 <= i -> byte_at (pre ++ l) (zlen pre + i) = byte_at l i.
Proof.
  intros Hi. unfold byte_at. rewrite !(proj2 (Z.ltb_ge _ _)) by lia.
  rewrite lookup_app_r by lia. f_equal. lia.
Qed.

Lemma le16_at_app pre l i : 0 <= i -> le16_at (pre ++ l) (zlen pre + i) = le16_at l i.
Proof. intros Hi. unfold le16_at. rewrite <- Z.add_assoc. by rewrite !byte_at_app by lia. Qed.

Lemma le32_at_app pre l i : 0 <= i -> le32_at (pre ++ l) (zlen pre + i) = le32_at l i.
Proof. intros Hi. unfold le32_at. rewrite <- Z.add_assoc. by rewrite !le16_at_app by lia. Qed.

Lemma subspan_app pre l i n : 0 <= i -> subspan (pre ++ l) (zlen pre + i) n = subspan l i n.
Proof.
  intros Hi. unfold subspan. rewrite length_app.
  replace ((0 <=? zlen pre + i)) with (0 <=? i) by (rewrite !(proj2 (Z.leb_le _ _)) by lia; done).
  replace (zlen pre + i + n <=? Z.of_nat (length pre + length l)) with (i + n <=? zlen l).
  2: { apply Bool.eq_true_iff_eq. rewrite !Z.leb_le. lia. }
  destruct (_ && _); [|done]. rewrite drop_app_ge by lia. do 3 f_equal. lia.
Qed.

Lemma subspan_front s post : subspan (s ++ post) 0 (zlen s) = Some s.
Proof.
  unfold subspan. rewrite length_app, !(proj2 (Z.leb_le _ _)) by lia. cbn [andb].
  change (Z.to_nat 0) with 0%nat. by rewrite Nat2Z.id, drop_0, take_app_length.
Qed.

Lemma read_le16 pre v post i :
  u16 v -> zlen pre = i -> le16_at (pre ++ le16_bytes v ++ post) i = Some v.
Proof.
  intros Hv <-. rewrite <- (Z.add_0_r (zlen pre)), le16_at_app by lia.
  change (Some (wrap 16 (Z.lor (v mod 256) (wrap 32 (Z.shiftl (v / 256) 8)))) = Some v).
  by rewrite le16_join.
Qed.

Lemma read_le32 pre v post i :
  u32 v -> zlen pre = i -> le32_at (pre ++ le32_bytes v ++ post) i = Some v.
Proof.
  intros Hv <-. rewrite <- (Z.add_0_r (zlen pre)), le32_at_app by lia.
  pose proof Hv as Hv'. unfold fits in Hv'. pose proof (Z.mod_pos_bound v 65536 ltac:(lia)).
  pose proof (read_le16 [] (v mod 65536) (le16_bytes (v / 65536) ++ post) 0 ltac:(unfold fits; lia) eq_refl) as Hlo.
  assert (u16 (v / 65536)) as Hd by (split; [apply Z.div_pos; lia|apply Z.div_lt_upper_bound; lia]).
  pose proof (read_le16 (le16_bytes (v mod 65536)) (v / 65536) post (0 + 2) Hd eq_refl) as Hhi.
  unfold le32_at.
  change (le32_bytes v ++ post) with ([] ++ le16_bytes (v mod 65536) ++ le16_bytes (v / 65536) ++ post).
  rewrite Hlo. cbn [option_bind]. cbn [app] in Hhi |- *. rewrite Hhi. cbn [option_bind].
  by rewrite le32_join.
Qed.

Lemma crc32_fits data : u32 (crc32 data).
Proof.
  unfold crc32. apply lxor_fits; [|done].
  assert (u32 0xFFFFFFFF) as Hs by done. revert Hs. generalize 0xFFFFFFFF.
  induction data as [|b data IH]; intros crc Hc; [done|]. cbn [foldl]. apply IH.
  unfold crc32_byte. apply lxor_fits.
  - assert (Forall (fits 32) kCrcTable) as Ht.
    { apply Forall_forall. intros x Hx. apply fitsb_spec.
      assert (forallb (fitsb 32) kCrcTable = true) as Hall by (vm_compute; reflexivity).
      rewrite forallb_forall in Hall. by apply Hall, list_elem_of_In. }
    destruct (kCrcTable !! _) as [v|] eqn:E; [|done]. by eapply Forall_lookup_1 in Ht.
  - rewrite shiftr_8. unfold fits in *. split; [apply Z.div_pos; lia|]. apply Z.div_lt_upper_bound; lia.
Qed.

(** A field among explicit bytes: the read computes to the joined bytes. *)
Lemma field16 l i v :
  u16 v -> le16_at l i = Some (wrap 16 (Z.lor (v mod 256) (wrap 32 (Z.shiftl (v / 256) 8)))) ->
  le16_at l i = Some v.
Proof. intros Hv ->. by rewrite le16_join. Qed.

Lemma field32 l i v :
  u32 v -> le16_at l i = Some (wrap 16 (Z.lor (v mod 65536 mod 256) (wrap 32 (Z.shiftl (v mod 65536 / 256) 8)))) ->
  le16_at l (i + 2) = Some (wrap 16 (Z.lor (v / 65536 mod 256) (wrap 32 (Z.shiftl (v / 65536 / 256) 8)))) ->
  le32_at l i = Some v.
Proof.
  intros Hv Hlo Hhi. unfold fits in Hv. pose proof (Z.mod_pos_bound v 65536 ltac:(lia)).
  apply field16 in Hlo; [|unfold fits; lia].
  apply field16 in Hhi; [|split; [apply Z.div_pos; lia|apply Z.div_lt_upper_bound; lia]].
  unfold le32_at. rewrite Hlo. cbn [option_bind]. rewrite Hhi. cbn [option_bind]. by rewrite le32_join.
Qed.

Ltac field16 := apply field16; [unfold fits in *; lia|reflexivity].
Ltac field32 := apply field32; [unfold fits in *; lia|reflexivity|reflexivity].

(** Reading back a file's local header. *)
Lemma read_local_written pre f post d :
  zip_file_ok f -> zlen pre + zlen (local_bytes f) <= dr_offset d -> dr_offset d < 2 ^ 32 ->
  read_local (pre ++ local_bytes f ++ post) d (zf_name f) (zlen pre) (zlen (zf_data f)) (crc32 (zf_data f))
    = Some (Success (entry_of f)).
Proof.
  intros (Hb & Hn & Hf & Hfl & Hx & _) Hd Hd32. unfold kMaxZipNameLength in Hn.
  assert (zlen (local_bytes f) = 30 + zlen (zf_name f) + zlen (zf_local_extra f) + zlen (zf_data f)) as Hlen
    by (unfold local_bytes; rewrite !length_app; cbn; lia).
  unfold read_local, kLocalHeaderSize. cbn zeta.
  rewrite wrap64_sub by lia. destruct (_ || _) eqn:E; [bool_to_prop; lia|].
  rewrite <- (Z.add_0_r (zlen pre)) at 1. rewrite le32_at_app by lia.
  rewrite (field32 _ 0 kLocalHeaderSignature) by (done || reflexivity). cbn [option_bind].
  rewrite Z.eqb_refl. cbn [negb]. rewrite !le16_at_app by lia.
  rewrite (field16 _ 26 (zlen (zf_name f))) by ((unfold fits; lia) || reflexivity). cbn [option_bind].
  rewrite (field16 _ 28 (zlen (zf_local_extra f))) by ((unfold fits; lia) || reflexivity). cbn [option_bind].
  rewrite !wrap64_sub by lia. destruct (_ || _ || _) eqn:E'; [bool_to_prop; lia|].
  rewrite subspan_app by lia.
  set (head := le32_bytes kLocalHeaderSignature ++ le16_bytes (zf_versions f).2 ++ le16_bytes (zf_flags f) ++
    le16_bytes kMethodStored ++ le16_bytes (zf_time f).1 ++ le16_bytes (zf_time f).2 ++
    le32_bytes (crc32 (zf_data f)) ++ le32_bytes (zlen (zf_data f)) ++ le32_bytes (zlen (zf_data f)) ++
    le16_bytes (zlen (zf_name f)) ++ le16_bytes (zlen (zf_local_extra f))).
  assert (local_bytes f ++ post = head ++ zf_name f ++ zf_local_extra f ++ zf_data f ++ post) as ->
    by (unfold local_bytes, head; by rewrite <- !app_assoc).
  assert (zlen head = 30) as Hh by done.
  rewrite <- Hh at 1. rewrite <- (Z.add_0_r (zlen head)), subspan_app, subspan_front by lia. cbn [option_bind].
  rewrite bool_decide_eq_false_2 by (by intros []).
  replace (zlen pre + 30 + zlen (zf_name f) + zlen (zf_local_extra f))
    with (zlen (pre ++ head ++ zf_name f ++ zf_local_extra f) + 0) by (rewrite !length_app; lia).
  replace (pre ++ head ++ zf_name f ++ zf_local_extra f ++ zf_data f ++ post)
    with ((pre ++ head ++ zf_name f ++ zf_local_extra f) ++ zf_data f ++ post) by (by rewrite <- !app_assoc).
  rewrite subspan_app, subspan_front by lia. cbn [option_bind]. by rewrite Z.eqb_refl.
Qed.

Lemma central_header_length f local : zlen (central_header f local) = 46.
Proof. done. Qed.

(** The fields of a written directory header. *)
Lemma central_fields f local :
  zip_file_ok f -> zlen (zf_data f) < 2 ^ 32 -> u32 local ->
  let h := central_header f local in
  le16_at h 8 = Some (zf_flags f) /\ le16_at h 10 = Some kMethodStored /\
  le32_at h 16 = Some (crc32 (zf_data f)) /\ le32_at h 20 = Some (zlen (zf_data f)) /\
  le32_at h 24 = Some (zlen (zf_data f)) /\ le16_at h 28 = Some (zlen (zf_name f)) /\
  le16_at h 30 = Some (zlen (zf_central_extra f)) /\ le16_at h 32 = Some (zlen (zf_comment f)) /\
  le32_at h 42 = Some local.
Proof.
  intros (Hb & Hn & Hf & Hfl & Hx & Hcx & Hc) Hd Hl h. unfold kMaxZipNameLength in Hn. subst h.
  pose proof (crc32_fits (zf_data f)).
  split_and!; first [apply field16; [unfold fits in *; lia || done|reflexivity] | apply field32; [unfold fits in *; lia|reflexivity|reflexivity]].
Qed.

(** Reading back a directory entry, wherever it stands. *)
Lemma read_entry_written pre f mid post d :
  zip_file_ok f -> zlen pre + zlen (local_bytes f) <= dr_offset d -> dr_offset d < 2 ^ 32 ->
  dr_offset d <= zlen (pre ++ local_bytes f ++ mid) ->
  zlen (pre ++ local_bytes f ++ mid) + zlen (central_bytes f (zlen pre)) <= dr_offset d + dr_size d ->
  dr_size d < 2 ^ 32 ->
  read_entry (pre ++ local_bytes f ++ mid ++ central_bytes f (zlen pre) ++ post) d
      (zlen (pre ++ local_bytes f ++ mid))
    = Some (Success (entry_of f, zlen (pre ++ local_bytes f ++ mid) + zlen (central_bytes f (zlen pre)))).
Proof.
  intros Hok Hd Hd32 Hc He Hs32. pose proof Hok as (Hb & Hn & Hf & Hfl & Hx & Hcx & Hcc). unfold kMaxZipNameLength in Hn.
  assert (zlen (local_bytes f) = 30 + zlen (zf_name f) + zlen (zf_local_extra f) + zlen (zf_data f)) as Hlen
    by (unfold local_bytes; rewrite !length_app; cbn; lia).
  assert (zlen (central_bytes f (zlen pre)) =
    46 + zlen (zf_name f) + zlen (zf_central_extra f) + zlen (zf_comment f)) as Hclen
    by (unfold central_bytes; rewrite !length_app, !Nat2Z.inj_add, central_header_length; lia).
  destruct (central_fields f (zlen pre)) as (F1 & F2 & F3 & F4 & F5 & F6 & F7 & F8 & F9);
    [done|lia|unfold fits; lia|].
  set (front := pre ++ local_bytes f ++ mid) in *.
  replace (pre ++ local_bytes f ++ mid ++ central_bytes f (zlen pre) ++ post)
    with (front ++ central_bytes f (zlen pre) ++ post) by (unfold front; by rewrite <- !app_assoc).
  unfold read_entry, kCentralHeaderSize. cbn zeta. rewrite !wrap64_sub by lia.
  rewrite (proj2 (Z.ltb_ge _ 46)) by lia.
  rewrite <- (Z.add_0_r (zlen front)) at 1. rewrite le32_at_app by lia.
  rewrite (field32 _ 0 kCentralHeaderSignature) by (done || reflexivity). cbn [option_bind].
  rewrite Z.eqb_refl. cbn [negb].
  assert (subspan (front ++ central_bytes f (zlen pre) ++ post) (zlen front) 46 = Some (central_header f (zlen pre))) as ->.
  { rewrite <- (Z.add_0_r (zlen front)), subspan_app by lia. unfold central_bytes. rewrite <- !app_assoc.
    exact (subspan_front (central_header f (zlen pre)) _). }
  cbn [option_bind].
  rewrite F1, F2, F3, F4, F5, F6, F7, F8, F9. cbn [option_bind].
  rewrite (proj2 (Z.ltb_ge _ (zlen (zf_name f) + _ + _))) by lia.
  destruct (_ || _) eqn:E; [bool_to_prop; unfold kMaxZipNameLength in *; lia|]. clear E.
  assert (subspan (front ++ central_bytes f (zlen pre) ++ post) (zlen front + 46) (zlen (zf_name f)) = Some (zf_name f)) as ->.
  { rewrite subspan_app by lia. unfold central_bytes. rewrite <- !app_assoc.
    change 46 with (zlen (central_header f (zlen pre)) + 0).
    rewrite (subspan_app (central_header f (zlen pre))) by lia. apply subspan_front. }
  cbn [option_bind]. rewrite Hfl. cbn [Z.eqb negb]. cbn [kMethodStored kMethodDeflated Z.eqb negb]. rewrite Z.eqb_refl. cbn [negb].
  unfold front. rewrite <- !app_assoc. rewrite read_local_written by done. cbn [checked_bind]. rewrite Hclen. fold front. do 3 f_equal. lia.
Qed.

Lemma read_entries_written d todo : forall done_ mid post acc,
  let fs := done_ ++ todo in
  let archive := locals fs ++ mid ++ centrals (zlen (locals done_)) todo ++ post in
  Forall zip_file_ok todo -> zlen (locals fs) = dr_offset d -> dr_offset d < 2 ^ 32 -> dr_size d < 2 ^ 32 ->
  zlen mid + zlen (centrals (zlen (locals done_)) todo) <= dr_size d ->
  NoDup (zf_name <$> todo) -> (forall e f, e ∈ acc -> f ∈ todo -> z_name e <> zf_name f) ->
  read_entries archive d (length todo) (zlen (locals fs) + zlen mid) acc
    = Some (Success (acc ++ (entry_of <$> filter (fun f => last (zf_name f) <> Some 47) todo))).
Proof.
  induction todo as [|f todo IH]; intros done_ mid post acc fs archive Hok Ho Ho32 Hs32 Hs Hnd Hacc.
  { cbn. by rewrite app_nil_r. }
  inversion Hok as [|? ? Hf Hok']; subst. cbn [length read_entries].
  assert (locals fs = locals done_ ++ local_bytes f ++ locals todo) as Hl
    by (unfold fs, locals; rewrite fmap_app, concat_app; done).
  cbn [centrals] in Hs. rewrite length_app in Hs.
  assert (archive = locals done_ ++ local_bytes f ++ (locals todo ++ mid) ++
            central_bytes f (zlen (locals done_)) ++
            (centrals (zlen (locals done_) + zlen (local_bytes f)) todo ++ post)) as Ha
    by (unfold archive; rewrite Hl; cbn [centrals]; by rewrite <- !app_assoc).
  assert (zlen (locals fs) + zlen mid = zlen (locals done_ ++ local_bytes f ++ (locals todo ++ mid))) as Hcur
    by (rewrite Hl, !length_app; lia).
  rewrite Ha, Hcur, read_entry_written; [|done|rewrite Hl, !length_app in Ho; lia|done|lia|lia|done].
  cbn [checked_bind]. cbn [entry_of z_name].
  assert (zlen (locals (done_ ++ [f])) = zlen (locals done_) + zlen (local_bytes f)) as Hdone
    by (unfold locals; rewrite fmap_app, concat_app, length_app; cbn [fmap list_fmap concat]; rewrite app_nil_r; lia).
  assert (forall acc', (forall e g, e ∈ acc' -> g ∈ todo -> z_name e <> zf_name g) ->
    read_entries archive d (length todo) (zlen (locals fs) + zlen mid + zlen (central_bytes f (zlen (locals done_)))) acc'
    = Some (Success (acc' ++ (entry_of <$> filter (fun f => last (zf_name f) <> Some 47) todo)))) as Hrest.
  { intros acc' Hacc'.
    specialize (IH (done_ ++ [f]) (mid ++ central_bytes f (zlen (locals done_))) post acc').
    cbn zeta in IH. rewrite <- app_assoc in IH. cbn [app] in IH. fold fs in IH. rewrite Hdone in IH.
    rewrite length_app, Nat2Z.inj_add, Z.add_assoc in IH.
    replace (locals fs ++ (mid ++ central_bytes f (zlen (locals done_))) ++
      centrals (zlen (locals done_) + zlen (local_bytes f)) todo ++ post) with archive in IH
      by (unfold archive; cbn [centrals]; by rewrite <- !app_assoc).
    apply IH; try done; [lia|by inversion Hnd]. }
  rewrite <- Ha, <- Hcur. rewrite filter_cons. case_bool_decide as Hdir.
  - destruct (decide _); [done|]. apply Hrest. intros e g He Hg. apply Hacc; [done|]. by right.
  - destruct (decide _); [|done]. destruct (existsb _ acc) eqn:Hex.
    { apply existsb_exists in Hex as (e & He & Hb). apply bool_decide_eq_true in Hb.
      exfalso. eapply (Hacc e f); [by apply list_elem_of_In|by left|done]. }
    rewrite Hrest; [cbn; by rewrite <- app_assoc|].
    intros e g [He|He%list_elem_of_singleton]%elem_of_app Hg; [apply Hacc; [done|by right]|].
    subst e. cbn. intros Heq. cbn in Hnd. apply NoDup_cons in Hnd as [Hnin _]. apply Hnin. rewrite Heq. by apply list_elem_of_fmap_2.
Qed.

Lemma find_directory_written body entries size offset :
  0 <= entries <= kMaxZipEntries -> 0 <= size < 2 ^ 32 - 1 -> 0 <= offset < 2 ^ 32 - 1 ->
  offset + size = zlen body ->
  find_directory (body ++ end_record entries size offset) = Some (Success (mkDirectory offset size entries)).
Proof.
  unfold kMaxZipEntries. intros He Hs Ho Hb. unfold find_directory, kEndOfCentralDirectorySize, kMaxCommentLength.
  assert (zlen (body ++ end_record entries size offset) = zlen body + 22) as -> by (rewrite length_app; cbn; lia).
  rewrite (proj2 (Z.ltb_ge _ _)) by lia. cbn zeta.
  replace (zlen body + 22 - 22) with (zlen body) by lia. set (first := if _ <? _ then _ else _).
  assert (0 <= first <= zlen body) as Hf by (unfold first; destruct (_ <? _) eqn:E; bool_to_prop; lia).
  clearbody first. destruct (Z.to_nat (zlen body + 1 - first)) as [|n] eqn:Hn; [lia|]. cbn [find_end_record].
  replace (first + Z.of_nat n) with (zlen body + 0) by lia. rewrite le32_at_app by lia.
  rewrite (field32 _ 0 kEndOfCentralDirectorySignature) by (done || reflexivity). cbn [option_bind].
  rewrite Z.eqb_refl. cbn [negb]. rewrite <- Z.add_assoc. cbn [Z.add]. rewrite le16_at_app by lia.
  rewrite (field16 _ 20 0) by (done || reflexivity). cbn [option_bind].
  rewrite Z.add_0_r, Z.sub_diag. change (wrap 64 0) with 0. rewrite Z.eqb_refl. cbn [negb].
  unfold read_end_record. rewrite !le16_at_app, !le32_at_app by lia.
  rewrite (field16 _ 4 0), (field16 _ 6 0) by (done || reflexivity). cbn [option_bind].
  rewrite (field16 _ 8 entries), (field16 _ 10 entries) by ((unfold fits; lia) || reflexivity). cbn [option_bind].
  rewrite (field32 _ 12 size), (field32 _ 16 offset) by ((unfold fits; lia) || reflexivity). cbn [option_bind].
  rewrite wrap64_sub by (pose proof (Nat2Z.is_nonneg (length body)); lia). unfold kMaxZipEntries.
  repeat match goal with |- context [if ?c then _ else _] => destruct c eqn:?E end; bool_to_prop; try lia; done.
Qed.

(** An archive of stored files as the build tools write it, whatever the
    versions, times, attributes, extra fields and comments, is read back as
    exactly the files put in, in order, without the directory entries. *)
Lemma read_written_zip (fs : list zip_file) :
  zip_ok fs ->
  read_stored_zip (write_zip fs) =
    Some (Success (entry_of <$> filter (fun f => last (zf_name f) <> Some 47) fs)).
Proof.
  intros (Hok & Hnd & Hn & Hl & Hc). unfold read_stored_zip, write_zip. rewrite app_assoc.
  rewrite find_directory_written by (rewrite ?length_app; lia). cbn [checked_bind dr_entries dr_offset].
  rewrite <- app_assoc, Nat2Z.id.
  pose proof (read_entries_written (mkDirectory (zlen (locals fs)) (zlen (centrals 0 fs)) (zlen fs)) fs [] []
    (end_record (zlen fs) (zlen (centrals 0 fs)) (zlen (locals fs))) []) as H.
  cbn [app dr_offset dr_size] in H. change (zlen (locals [])) with 0 in H. change (zlen (@nil Z)) with 0 in H.
  rewrite Z.add_0_r in H. apply H; try done; try lia. by intros e f ?%not_elem_of_nil.
Qed.
