(* ===== verification/SerialPort.v ===== *)
(** * The serial-port transport

    [transports/serial_port/]: the adapter that carries SMP messages over a
    serial port, in its POSIX form. [serial_link.hpp] is the two byte-level
    halves, [serial_port_config.cpp] the checks of a configuration,
    [posix/posix_detail.cpp] and [posix/serial_port_posix.cpp] the adapter: its
    opening, and then two threads, the client context that sends, closes and
    runs what was posted to it, and the I/O thread.

    One event is one action another thread can see the result of: an atomic
    load or store, a critical section, a system call, a post to the dispatcher.
    What the system answers to a call comes with the event. The threads
    interleave in any order ([run_adapter]). *)

From S2P Require Import Prelude Errors StoredZip Transport SerialFraming.

(** ** The byte-level halves *)

(** The loop of [frame_message]: frames written into the tail of one buffer of
    [size] bytes. [None] is fuel run out. *)
Fixpoint frame_message_loop (fuel : nat) (size : nat) (out : bytes) (f : SerialFramer) : option bytes :=
  if framer_done f then Some out
  else
    match fuel with
    | O => None
    | S fuel =>
        let '(frame, f) := next_frame (size - length out) f in
        frame_message_loop fuel size (out ++ frame) f
    end.

(** [frame_message]. Every frame takes a byte of the message at least, so the
    length is fuel enough ([frame_message_spec]). *)
Definition frame_message (message : bytes) : bytes :=
  let framer := new_framer message in
  default [] (frame_message_loop (length message) (count framer * kMaxFrame) [] framer).

(** [SerialInbound]. *)
Record SerialInbound := mkInbound {
  splitter_ : LineSplitter;
  deframer_ : SerialDeframer
}.

(** [limits::kMaxAssemblyBuffer]. *)
Definition kMaxAssemblyBuffer : nat := 16 * 1024.

Definition new_inbound (max_packet : nat) : SerialInbound :=
  mkInbound (new_splitter kMaxFrame) (new_deframer max_packet).

(** [SerialInbound::feed], with the packets it hands to [on_packet]. *)
Definition feed (chunk : bytes) (r : SerialInbound) : list bytes * SerialInbound :=
  let '(packets, s, d) := receive chunk (splitter_ r) (deframer_ r) [] in (packets, mkInbound s d).

(** [SerialInbound::reset], [deframe_counters] and [dropped_lines]. *)
Definition reset_inbound (r : SerialInbound) : SerialInbound :=
  mkInbound (reset_splitter (splitter_ r)) (reset_deframer (deframer_ r)).

Definition deframe_counters (r : SerialInbound) : SerialCounters := SerialFraming.counters_ (deframer_ r).
Definition dropped_lines (r : SerialInbound) : Z := dropped_ (splitter_ r).

(** ** Configuration *)

Inductive FlowControl := FlowNone | RtsCts.

#[global] Instance FlowControl_eq_dec : EqDecision FlowControl.
Proof. solve_decision. Defined.

Definition kMinSerialMessageSize : nat := 128.

(** [SerialPortConfig]. *)
Record SerialPortConfig := mkPortConfig {
  path : string;
  baud : Z;
  flow : FlowControl;
  max_message_size : nat
}.

Definition kSupportedBauds : list Z :=
  [1200; 2400; 4800; 9600; 19200; 38400; 57600; 115200; 230400; 460800; 921600; 1000000].

Definition is_supported_baud (b : Z) : bool := bool_decide (b ∈ kSupportedBauds).

(** [validate]. *)
Definition validate_port (config : SerialPortConfig) : Result unit :=
  if bool_decide (path config = ""%string) then fail InvalidArgument "serial_port: no port path"
  else if negb (is_supported_baud (baud config)) then fail InvalidArgument "serial_port: unsupported baud rate"
  else if (max_message_size config <? kMinSerialMessageSize)%nat
  then fail InvalidArgument "serial_port: max_message_size below the floor"
  else if (kMaxSerialPacket <? max_message_size config)%nat
  then fail InvalidArgument "serial_port: max_message_size above what a frame can describe"
  else Success tt.

(** [SerialLinkCounters], less [send], which [counters] takes from the queue. *)
Record LinkCounters := mkLinkCounters {
  lc_deframe : SerialCounters;
  lc_dropped_lines : Z;
  lc_bytes_read : Z;
  lc_bytes_written : Z
}.

(** ** Errors of the system

    Linux's values of the [errno] constants the code tells apart. *)

Definition ENOENT : Z := 2.
Definition EINTR : Z := 4.
Definition EIO : Z := 5.
Definition ENXIO : Z := 6.
Definition EAGAIN : Z := 11.
Definition ENODEV : Z := 19.
Definition ENOTTY : Z := 25.

(** [Error::with_os_error]. *)
Definition with_os_error (os : string * Z) (e : Error) : Error :=
  mkError (code e) (mgmt e) (reason e) os (where_ e).

(** [posix::error_from_errno]. *)
Definition error_from_errno (error_number : Z) (where_ : string) : Error :=
  let os := ("generic"%string, error_number) in
  if (error_number =? ENOENT) || (error_number =? ENODEV) || (error_number =? ENXIO) || (error_number =? EIO)
  then with_os_error os (Error_at Disconnected where_)
  else if error_number =? ENOTTY then with_os_error os (Error_at InvalidArgument where_)
  else with_os_error os (Error_at TransportError where_).

(** [would_block]: on Linux [EWOULDBLOCK] is [EAGAIN]. *)
Definition would_block (error_number : Z) : bool := error_number =? EAGAIN.

(** ** The adapter's state *)

(** What is posted to the dispatcher: the closures of [post_packet] and
    [post_lost]. *)
Inductive Closure :=
| PacketArrived (packet : bytes)
| LinkLost (error : Error).

(** [SerialPortTransport::State]. [inbound] is the part of the application's
    dispatcher that is this adapter's: its closures, oldest first. [port_open]
    stands for the three descriptors, which are opened together before the
    thread starts; [wake_pipe] is the number of bytes in the self-pipe. *)
Record State := mkState {
  listener : option nat;
  link : LinkState.LinkState;
  max_message : nat;
  inbound : list Closure;
  port_open : bool;
  wake_pipe : nat;
  accepting : bool;
  stop : bool;
  outbound : SendQueue.SendQueue;
  stats : LinkCounters;
  rx : SerialInbound;
  writing : bytes;
  written : nat
}.

Definition set_listener (x : option nat) (s : State) : State :=
  mkState x (link s) (max_message s) (inbound s) (port_open s) (wake_pipe s) (accepting s) (stop s) (outbound s) (stats s) (rx s) (writing s) (written s).

Definition set_link (x : LinkState.LinkState) (s : State) : State :=
  mkState (listener s) x (max_message s) (inbound s) (port_open s) (wake_pipe s) (accepting s) (stop s) (outbound s) (stats s) (rx s) (writing s) (written s).

Definition set_max_message (x : nat) (s : State) : State :=
  mkState (listener s) (link s) x (inbound s) (port_open s) (wake_pipe s) (accepting s) (stop s) (outbound s) (stats s) (rx s) (writing s) (written s).

Definition set_inbound (x : list Closure) (s : State) : State :=
  mkState (listener s) (link s) (max_message s) x (port_open s) (wake_pipe s) (accepting s) (stop s) (outbound s) (stats s) (rx s) (writing s) (written s).

Definition set_port_open (x : bool) (s : State) : State :=
  mkState (listener s) (link s) (max_message s) (inbound s) x (wake_pipe s) (accepting s) (stop s) (outbound s) (stats s) (rx s) (writing s) (written s).

Definition set_wake_pipe (x : nat) (s : State) : State :=
  mkState (listener s) (link s) (max_message s) (inbound s) (port_open s) x (accepting s) (stop s) (outbound s) (stats s) (rx s) (writing s) (written s).

Definition set_accepting (x : bool) (s : State) : State :=
  mkState (listener s) (link s) (max_message s) (inbound s) (port_open s) (wake_pipe s) x (stop s) (outbound s) (stats s) (rx s) (writing s) (written s).

Definition set_stop (x : bool) (s : State) : State :=
  mkState (listener s) (link s) (max_message s) (inbound s) (port_open s) (wake_pipe s) (accepting s) x (outbound s) (stats s) (rx s) (writing s) (written s).

Definition set_outbound (x : SendQueue.SendQueue) (s : State) : State :=
  mkState (listener s) (link s) (max_message s) (inbound s) (port_open s) (wake_pipe s) (accepting s) (stop s) x (stats s) (rx s) (writing s) (written s).

Definition set_stats (x : LinkCounters) (s : State) : State :=
  mkState (listener s) (link s) (max_message s) (inbound s) (port_open s) (wake_pipe s) (accepting s) (stop s) (outbound s) x (rx s) (writing s) (written s).

Definition set_rx (x : SerialInbound) (s : State) : State :=
  mkState (listener s) (link s) (max_message s) (inbound s) (port_open s) (wake_pipe s) (accepting s) (stop s) (outbound s) (stats s) x (writing s) (written s).

Definition set_writing (x : bytes) (s : State) : State :=
  mkState (listener s) (link s) (max_message s) (inbound s) (port_open s) (wake_pipe s) (accepting s) (stop s) (outbound s) (stats s) (rx s) x (written s).

Definition set_written (x : nat) (s : State) : State :=
  mkState (listener s) (link s) (max_message s) (inbound s) (port_open s) (wake_pipe s) (accepting s) (stop s) (outbound s) (stats s) (rx s) (writing s) x.

(** The state the I/O thread starts from. *)
Definition opened_state (max_message : nat) : State :=
  mkState None LinkState.new_link max_message [] true 0 true false SendQueue.new_queue
    (mkLinkCounters (SerialFraming.mkCounters 0 0 0 0) 0 0 0) (new_inbound kMaxAssemblyBuffer) [] 0.

(** [SerialPortTransport::counters]. *)
Definition counters (s : State) : LinkCounters * SendQueue.SendCounters :=
  (stats s, SendQueue.counters_ (outbound s)).

(** ** The I/O thread *)

(** [revents] of the port: [POLLIN], [POLLOUT], and any of [POLLHUP], [POLLERR]
    and [POLLNVAL]. *)
Record Revents := mkRevents { pollin : bool; pollout : bool; pollhup : bool }.

Definition quiet (r : Revents) : bool := negb (pollin r || pollout r || pollhup r).

(** Where the I/O thread is: at the top of [run], before [take_next], before
    [poll], in [drain_wake], and after it; in [read_port] before a read, before
    its counts, among its posts; before the test for [POLLOUT], in [write_port]
    before a write, before its counts; before the test for a hang-up; before
    [post_lost], before the last store of [accepting], and gone. *)
Inductive IoPoint :=
| AtTop
| AtTake
| AtPoll
| AtDrain (port : Revents)
| AtPort (port : Revents)
| AtRead (port : Revents)
| AtReadCount (count : nat) (packets : list bytes) (port : Revents)
| AtPost (packets : list bytes) (port : Revents)
| AtOut (port : Revents)
| AtWrite (port : Revents)
| AtWriteCount (count : nat) (port : Revents)
| AtHup (port : Revents)
| AtLost (error : Error)
| AtLeave
| Gone.

(** [post_packet] and [post_lost], the posts. *)
Definition post_closure (c : Closure) (s : State) : State := set_inbound (inbound s ++ [c]) s.

(** [take_next]. *)
Definition take_next (s : State) : State :=
  let '(next, q) := SendQueue.next_for_writer (outbound s) in
  let s := set_outbound q s in
  match next with
  | Some message => set_written 0 (set_writing message s)
  | None => s
  end.

(** What [read] answers: a positive count with its bytes, zero, an error. *)
Inductive ReadResult :=
| Got (chunk : bytes)
| EndOfFile
| ReadFailed (error_number : Z).

(** The bytes a [read] of the port asks for, and one of the wake-up pipe. *)
Definition kReadSize : nat := 512.
Definition kSinkSize : nat := 64.

Definition hung_up : Error := Error_at Disconnected "serial_port: the port hung up".

(** [read_port]: one read, and where it leads. *)
Definition read_port (r : ReadResult) (port : Revents) (s : State) : State * IoPoint :=
  match r with
  | Got chunk =>
      let '(packets, rx) := feed chunk (rx s) in
      (set_rx rx s, AtReadCount (length chunk) packets port)
  | EndOfFile => (s, AtLost hung_up)
  | ReadFailed error_number =>
      if would_block error_number then (s, AtOut port)
      else if error_number =? EINTR then (s, AtRead port)
      else (s, AtLost (error_from_errno error_number "serial_port: a read failed"))
  end.

(** Its counts, under the mutex. *)
Definition count_read (count : nat) (s : State) : State :=
  set_stats (mkLinkCounters (deframe_counters (rx s)) (dropped_lines (rx s))
               (wrap 64 (lc_bytes_read (stats s) + Z.of_nat count)) (lc_bytes_written (stats s))) s.

(** What [write] answers; [error_number] is [errno] after it. *)
Inductive WriteResult :=
| Put (count : nat)
| WriteFailed (error_number : Z).

(** [write_port]: one write, and where it leads. A write of no bytes is a
    failure with whatever [errno] holds, here 0. *)
Definition write_port (r : WriteResult) (port : Revents) (s : State) : State * IoPoint :=
  match r with
  | Put (S n as count) => (set_written (written s + count) s, AtWriteCount count port)
  | Put O => (s, AtLost (error_from_errno 0 "serial_port: a write failed"))
  | WriteFailed error_number =>
      if would_block error_number then (s, AtHup port)
      else if error_number =? EINTR then (s, AtWrite port)
      else (s, AtLost (error_from_errno error_number "serial_port: a write failed"))
  end.

(** Its counts, under the mutex. *)
Definition count_written (count : nat) (s : State) : State :=
  set_stats (mkLinkCounters (lc_deframe (stats s)) (lc_dropped_lines (stats s))
               (lc_bytes_read (stats s)) (wrap 64 (lc_bytes_written (stats s) + Z.of_nat count))) s.

Definition write_left (s : State) : nat := length (writing s) - written s.

(** One action of [run] and of what it calls that needs no answer from the
    port. [None] is a point whose action does, or a thread that is gone. *)
Definition io_step (s : State) (at_ : IoPoint) : option (State * IoPoint) :=
  match at_ with
  | AtTop => Some (s, if stop s then Gone else AtTake)
  | AtTake => Some (if bool_decide (writing s = []) then take_next s else s, AtPoll)
  | AtPoll => None
  | AtDrain port =>
      match wake_pipe s with
      | O => Some (s, AtPort port)
      | n => Some (set_wake_pipe (n - kSinkSize) s, AtDrain port)
      end
  | AtPort port => Some (s, if pollin port then AtRead port else AtOut port)
  | AtRead _ => None
  | AtReadCount count packets port => Some (count_read count s, AtPost packets port)
  | AtPost packets port =>
      match packets with
      | [] => Some (s, AtRead port)
      | packet :: packets => Some (post_closure (PacketArrived packet) s, AtPost packets port)
      end
  | AtOut port => Some (s, if pollout port then AtWrite port else AtHup port)
  | AtWrite port =>
      if (written s <? length (writing s))%nat then None
      else Some (set_written 0 (set_writing [] s), AtHup port)
  | AtWriteCount count port => Some (count_written count s, AtWrite port)
  | AtHup port =>
      Some (s, if negb (pollin port) && pollhup port then AtLost hung_up else AtTop)
  | AtLost error => Some (post_closure (LinkLost error) s, AtLeave)
  | AtLeave => Some (set_accepting false s, Gone)
  | Gone => None
  end.

(** What [poll] answers: the port's events, or an error. *)
Inductive PollResult :=
| Ready (port : Revents)
| PollFailed (error_number : Z).

(** [poll] over the port and the wake-up pipe, without a timeout: it returns
    when one of them has an event, and reports [POLLOUT] only where it was asked
    to, that is with a message to write. *)
Definition io_poll (r : PollResult) (s : State) : option IoPoint :=
  match r with
  | Ready port =>
      if (quiet port && (wake_pipe s =? 0)%nat) || (pollout port && bool_decide (writing s = [])) then None
      else Some (if (0 <? wake_pipe s)%nat then AtDrain port else AtPort port)
  | PollFailed error_number =>
      if error_number =? EINTR then Some AtTop
      else Some (AtLost (with_os_error ("generic"%string, error_number)
                           (Error_at TransportError "serial_port: poll failed")))
  end.

(** ** The client context *)

(** Where the client context is: outside the adapter; in [send], about to offer
    a framed message to the queue, or about to wake the thread; in [shutdown],
    with what is left of it and the listener the closure of [post_lost] tells
    afterwards. *)
Inductive CloseStep := StoreAccepting | StoreStop | WakeThread | Join | DiscardQueued | Release.

#[global] Instance CloseStep_eq_dec : EqDecision CloseStep.
Proof. solve_decision. Defined.

Inductive ClientPoint :=
| Outside
| Offering (message : bytes)
| Waking
| ClosingAt (k : CloseStep) (then_tell : option (nat * Error)).

(** What the listener hears. *)
Inductive Heard :=
| OnBytes (listener : nat) (packet : bytes)
| OnDisconnected (listener : nat) (error : Error).

(** The checks of [send], up to the offer. *)
Definition send_checks (message : bytes) (s : State) : Result unit :=
  if negb (LinkState.may_send (link s)) || negb (accepting s)
  then fail Disconnected "serial_port: the link is closed"
  else if bool_decide (message = []) then fail InvalidArgument "serial_port: an empty SMP message"
  else if (max_message s <? length message)%nat
  then fail MessageTooLarge "serial_port: beyond the configured cap"
  else Success tt.

Definition send_busy : Result unit := fail TransportBusy "serial_port: two messages are already outbound".

Section adapter.
(** The bytes the self-pipe holds before a write to it would block. *)
Context (pipe_room : nat).

(** [wake]. *)
Definition wake (s : State) : State := set_wake_pipe (Nat.min pipe_room (S (wake_pipe s))) s.

(** One step of [shutdown] after [begin_close]. [None] is the join of a thread
    that is still there. *)
Definition shutdown_step (k : CloseStep) (io : IoPoint) (s : State) : option (State * option CloseStep) :=
  match k with
  | StoreAccepting => Some (set_accepting false s, Some StoreStop)
  | StoreStop => Some (set_stop true s, Some WakeThread)
  | WakeThread => Some (if port_open s then wake s else s, Some Join)
  | Join => match io with Gone => Some (s, Some DiscardQueued) | _ => None end
  | DiscardQueued => Some (set_outbound (SendQueue.discard_queued (outbound s)) s, Some Release)
  | Release =>
      Some (set_link (LinkState.finish_close (link s))
              (set_listener None (set_wake_pipe 0 (set_port_open false s))), None)
  end.

(** ** The two threads together *)

(** The threads, and the history: the messages accepted, the bytes that went to
    the port and came from it, what [send] returned, what listeners heard. *)
Record Adapter := mkAdapter {
  state : State;
  client : ClientPoint;
  io : IoPoint;
  accepted : list bytes;
  to_port : bytes;
  from_port : bytes;
  returned : list (Result unit);
  heard : list Heard
}.

Definition set_state (x : State) (a : Adapter) : Adapter :=
  mkAdapter x (client a) (io a) (accepted a) (to_port a) (from_port a) (returned a) (heard a).

Definition set_client (x : ClientPoint) (a : Adapter) : Adapter :=
  mkAdapter (state a) x (io a) (accepted a) (to_port a) (from_port a) (returned a) (heard a).

Definition set_io (x : IoPoint) (a : Adapter) : Adapter :=
  mkAdapter (state a) (client a) x (accepted a) (to_port a) (from_port a) (returned a) (heard a).

Definition set_accepted (x : list bytes) (a : Adapter) : Adapter :=
  mkAdapter (state a) (client a) (io a) x (to_port a) (from_port a) (returned a) (heard a).

Definition set_to_port (x : bytes) (a : Adapter) : Adapter :=
  mkAdapter (state a) (client a) (io a) (accepted a) x (from_port a) (returned a) (heard a).

Definition set_from_port (x : bytes) (a : Adapter) : Adapter :=
  mkAdapter (state a) (client a) (io a) (accepted a) (to_port a) x (returned a) (heard a).

Definition set_returned (x : list (Result unit)) (a : Adapter) : Adapter :=
  mkAdapter (state a) (client a) (io a) (accepted a) (to_port a) (from_port a) x (heard a).

Definition set_heard (x : list Heard) (a : Adapter) : Adapter :=
  mkAdapter (state a) (client a) (io a) (accepted a) (to_port a) (from_port a) (returned a) x.

(** What may happen next. *)
Inductive Event :=
| Send (message : bytes)
| Close
| SetListener (l : option nat)
| RunPosted
| ClientStep
| IoStep
| IoPoll (r : PollResult)
| IoRead (r : ReadResult)
| IoWrite (r : WriteResult).

(** [shutdown] entered: by [close], or by the closure of a lost link. *)
Definition enter_shutdown (then_tell : option (nat * Error)) (a : Adapter) : Adapter :=
  match LinkState.begin_close (link (state a)) with
  | (true, l) => set_client (ClosingAt StoreAccepting then_tell) (set_state (set_link l (state a)) a)
  | (false, _) => a
  end.

(** The closures of [post_packet] and [post_lost]. *)
Definition run_closure (c : Closure) (a : Adapter) : Adapter :=
  match c with
  | PacketArrived packet =>
      if negb (LinkState.may_deliver (link (state a))) then a
      else
        match listener (state a) with
        | None => a
        | Some l => set_heard (heard a ++ [OnBytes l packet]) a
        end
  | LinkLost error =>
      if negb (LinkState.may_deliver (link (state a))) then a
      else enter_shutdown ((fun l => (l, error)) <$> listener (state a)) a
  end.

Definition return_from_send (r : Result unit) (a : Adapter) : Adapter :=
  set_client Outside (set_returned (returned a ++ [r]) a).

(** One step of the client context inside a call. *)
Definition client_step (a : Adapter) : option Adapter :=
  match client a with
  | Outside => None
  | Offering message =>
      let '(admission, q) := SendQueue.offer (frame_message message) (outbound (state a)) in
      let a := set_state (set_outbound q (state a)) a in
      Some (match admission with
            | SendQueue.Busy => return_from_send send_busy a
            | SendQueue.StartWriter => set_client Waking (set_accepted (accepted a ++ [message]) a)
            | SendQueue.Queued => return_from_send (Success tt) (set_accepted (accepted a ++ [message]) a)
            end)
  | Waking => Some (return_from_send (Success tt) (set_state (wake (state a)) a))
  | ClosingAt k then_tell =>
      let! (s, next) := shutdown_step k (io a) (state a) in
      let a := set_state s a in
      Some (match next with
            | Some k => set_client (ClosingAt k then_tell) a
            | None =>
                let a := set_client Outside a in
                match then_tell with
                | Some (l, error) => set_heard (heard a ++ [OnDisconnected l error]) a
                | None => a
                end
            end)
  end.

(** One event; [None] is one that cannot happen now. The client context enters
    the adapter only from outside it: a listener that calls back in does so
    from the last statement of a closure. *)
Definition adapter_step (e : Event) (a : Adapter) : option Adapter :=
  match e with
  | Send message =>
      match client a with
      | Outside =>
          Some (match send_checks message (state a) with
                | Success _ => set_client (Offering message) a
                | Fail e => return_from_send (Fail e) a
                end)
      | _ => None
      end
  | Close => match client a with Outside => Some (enter_shutdown None a) | _ => None end
  | SetListener l => match client a with Outside => Some (set_state (set_listener l (state a)) a) | _ => None end
  | RunPosted =>
      match client a, inbound (state a) with
      | Outside, c :: cs => Some (run_closure c (set_state (set_inbound cs (state a)) a))
      | _, _ => None
      end
  | ClientStep => client_step a
  | IoStep => let! (s, p) := io_step (state a) (io a) in Some (set_io p (set_state s a))
  | IoPoll r => match io a with AtPoll => let! p := io_poll r (state a) in Some (set_io p a) | _ => None end
  | IoRead r =>
      match io a with
      | AtRead port =>
          let chunk := match r with Got chunk => chunk | _ => [] end in
          if match r with Got chunk => (length chunk =? 0)%nat || (kReadSize <? length chunk)%nat | _ => false end
          then None
          else
            let '(s, p) := read_port r port (state a) in
            Some (set_from_port (from_port a ++ chunk) (set_io p (set_state s a)))
      | _ => None
      end
  | IoWrite r =>
      match io a with
      | AtWrite port =>
          if (write_left (state a) =? 0)%nat then None
          else if match r with Put n => (write_left (state a) <? n)%nat | _ => false end then None
          else
            let count := match r with Put n => n | _ => 0%nat end in
            let '(s, p) := write_port r port (state a) in
            Some (set_to_port (to_port a ++ take count (drop (written (state a)) (writing (state a))))
                    (set_io p (set_state s a)))
      | _ => None
      end
  end.

(** An adapter just opened, and any history of it. *)
Definition opened (max_message : nat) : Adapter := mkAdapter (opened_state max_message) Outside AtTop [] [] [] [] [].

Fixpoint run_adapter (es : list Event) (a : Adapter) : option Adapter :=
  match es with
  | [] => Some a
  | e :: es => let! a := adapter_step e a in run_adapter es a
  end.

End adapter.
