(* ===== verification/SerialPortProperties.v ===== *)
(** * What the serial-port transport keeps to

    The adapter of SerialPort.v, over every interleaving of its two threads and
    everything the port may do: what reaches the port, what the listener hears,
    that no wake-up is lost and that closing ends. *)

From stdpp Require Import sets.
From S2P Require Import Prelude Errors StoredZip Transport Base64 SerialFraming SerialPort.

(** ** Framing a message *)

Lemma frame_progress f :
  framer_done f = false -> (first_ f = true -> offset_ f = 0%nat) -> (offset_ f < frame_end f)%nat.
Proof.
  intros Hd Hf. pose proof (frame_start_le f Hd Hf) as Hs.
  pose proof (plan_frame_spec (length (packet_ f)) (offset_ f) (first_ f) Hs) as Hp.
  unfold framer_done in Hd. apply Nat.leb_gt in Hd. unfold frame_end, frame_start in *.
  destruct (carries_crc _); [lia|]. destruct (first_ f); lia.
Qed.

Lemma count_frame fuel f :
  framer_done f = false ->
  count_loop (S fuel) (length (packet_ f)) (offset_ f) (first_ f) =
    S (count_loop fuel (length (packet_ f)) (frame_end f) false).
Proof.
  intros Hd. cbn [count_loop]. unfold framer_done in Hd. apply Nat.leb_gt in Hd.
  rewrite (proj2 (Nat.ltb_lt _ _) Hd). f_equal. f_equal. unfold frame_end, frame_start.
  destruct (carries_crc _); [done|]. destruct (first_ f); lia.
Qed.

(** A frame has room in the tail of the buffer as long as one is left. *)
Lemma frame_message_loop_spec fuel size out f :
  (first_ f = true -> offset_ f = 0%nat) -> (length (packet_ f) - offset_ f <= fuel)%nat ->
  (length out + kMaxFrame * count_loop fuel (length (packet_ f)) (offset_ f) (first_ f) <= size)%nat ->
  frame_message_loop fuel size out f = Some (out ++ concat (frames_loop fuel f)).
Proof.
  revert out f. induction fuel as [|fuel IH]; intros out f Hf Hfuel Hsize; cbn [frame_message_loop frames_loop].
  { destruct (framer_done f) eqn:Hd; [by rewrite app_nil_r|]. unfold framer_done in Hd. apply Nat.leb_gt in Hd. lia. }
  destruct (framer_done f) eqn:Hd; [by rewrite app_nil_r|].
  rewrite count_frame in Hsize by done. pose proof (frame_progress f Hd Hf) as Hprog.
  pose proof (frame_chars_length f Hd Hf) as Hchars. change kMaxBase64PerFrame with 124%nat in Hchars.
  change kMaxFrame with 127%nat in *.
  rewrite !(next_frame_spec f Hd Hf) by (change kMaxFrame with 127%nat; lia).
  assert (length (frame_marker f) = 2%nat) as Hm by (unfold frame_marker; by destruct (first_ f)).
  rewrite IH; [by cbn [concat]; rewrite <- app_assoc|done|cbn [packet_ offset_ after_frame]; lia|].
  cbn [packet_ offset_ first_ after_frame]. rewrite !length_app, Hm. cbn [length]. lia.
Qed.

(** [frame_message] is the frames of the message, one after the other. *)
Lemma frame_message_spec message : frame_message message = concat (frames message).
Proof.
  unfold frame_message, frames. set (f := new_framer message).
  assert (packet_ f = if (kMaxSerialPacket <? length message)%nat then [] else message) as Hp by done.
  assert (length (packet_ f) <= length message)%nat as Hle by (rewrite Hp; destruct (_ <? _)%nat; simpl; lia).
  assert (forall fuel, (length (packet_ f) <= fuel)%nat ->
    count_loop fuel (length (packet_ f)) 0 true = count_loop (length (packet_ f)) (length (packet_ f)) 0 true) as Hc.
  { intros fuel Hfuel. destruct (kMaxSerialPacket <? length message)%nat; rewrite Hp in *.
    - cbn [length] in *. by destruct fuel.
    - revert fuel Hfuel Hle. clear. intros fuel Hfuel _.
      assert (forall fuel1 fuel2 off first, (length message - off <= fuel1)%nat -> (length message - off <= fuel2)%nat ->
        (first = true -> off = 0%nat) ->
        count_loop fuel1 (length message) off first = count_loop fuel2 (length message) off first) as H; [|by apply H; lia].
      induction fuel1 as [|fuel1 IH]; intros fuel2 off first H1 H2 Hfirst.
      { destruct fuel2; cbn [count_loop]; [done|]. by rewrite (proj2 (Nat.ltb_ge _ _)) by lia. }
      set (f := mkFramer message 0 off first).
      destruct (decide (off < length message)%nat) as [Hlt|Hge].
      2: { cbn [count_loop]. rewrite (proj2 (Nat.ltb_ge _ _)) by lia. destruct fuel2; cbn [count_loop]; [done|].
           by rewrite (proj2 (Nat.ltb_ge _ _)) by lia. }
      assert (framer_done f = false) as Hd by (apply Nat.leb_gt; done).
      pose proof (frame_progress f Hd Hfirst) as Hp. destruct fuel2 as [|fuel2]; [lia|].
      pose proof (count_frame fuel1 f Hd) as E1. pose proof (count_frame fuel2 f Hd) as E2.
      cbn [packet_ offset_ first_ f] in E1, E2, Hp. rewrite E1, E2. f_equal. apply IH; [lia|lia|done]. }
  rewrite frame_message_loop_spec; [done|done|cbn [offset_ f new_framer]; lia|].
  cbn [length]. unfold count. change (offset_ f) with 0%nat. change (first_ f) with true. rewrite (Hc (length message)) by done. lia.
Qed.

(** A message [send] accepts is framed into something. *)
Lemma frame_message_nonempty message :
  message <> [] -> (length message <= kMaxSerialPacket)%nat -> frame_message message <> [].
Proof.
  intros Hne Hlen. rewrite frame_message_spec. unfold frames, new_framer.
  destruct (Nat.ltb_spec kMaxSerialPacket (length message)); [lia|].
  set (f := mkFramer message _ 0 true). destruct message as [|b m]; [done|]. cbn [length frames_loop].
  assert (framer_done f = false) as Hd by done. rewrite Hd, (next_frame_spec f Hd) by done.
  cbn [concat]. by destruct (frame_marker f) as [|] eqn:E; [unfold frame_marker in E|].
Qed.

(** ** What each thread leaves alone *)

(** Case analysis of a step: every conditional and match on the way to its
    result, and the result. *)
Ltac innermost x :=
  lazymatch x with
  | match ?y with _ => _ end => innermost y
  | _ => destruct x eqn:?
  end.

Ltac step_cases H :=
  unfold mbind, option_bind in H;
  repeat match type of H with
  | (match ?x with _ => _ end) = _ => innermost x; cbn beta iota in H
  | Some (match ?x with _ => _ end) = _ => innermost x; cbn beta iota in H
  end;
  try discriminate H; simplify_eq.

Definition io_event (e : Event) : bool :=
  match e with IoStep | IoPoll _ | IoRead _ | IoWrite _ => true | _ => false end.

(** The I/O thread does not touch what belongs to the client context. *)
Record io_turn (a a' : Adapter) : Prop := {
  it_client : client a' = client a;
  it_returned : returned a' = returned a;
  it_accepted : accepted a' = accepted a;
  it_heard : heard a' = heard a;
  it_link : link (state a') = link (state a);
  it_listener : listener (state a') = listener (state a);
  it_max : max_message (state a') = max_message (state a);
  it_open : port_open (state a') = port_open (state a);
  it_stop : stop (state a') = stop (state a);
  it_accepting : accepting (state a) = false -> accepting (state a') = false;
  it_there : io a <> Gone
}.

(** Nor the client context what belongs to the I/O thread. *)
Record client_turn (a a' : Adapter) : Prop := {
  ct_io : io a' = io a;
  ct_to : to_port a' = to_port a;
  ct_from : from_port a' = from_port a;
  ct_rx : rx (state a') = rx (state a);
  ct_writing : writing (state a') = writing (state a);
  ct_written : written (state a') = written (state a);
  ct_stats : stats (state a') = stats (state a)
}.

Lemma take_next_frame s :
  let s' := take_next s in
  link s' = link s /\ listener s' = listener s /\ max_message s' = max_message s /\ port_open s' = port_open s /\
  stop s' = stop s /\ accepting s' = accepting s /\ rx s' = rx s /\ inbound s' = inbound s /\ wake_pipe s' = wake_pipe s /\
  stats s' = stats s.
Proof. unfold take_next. by destruct (SendQueue.next_for_writer (outbound s)) as [[m|] q]. Qed.

Section adapter.
Context (pipe_room : nat).

Lemma io_frame e a a' : io_event e = true -> adapter_step pipe_room e a = Some a' -> io_turn a a'.
Proof.
  intros He H. destruct e; try done; cbn [adapter_step] in H.
  - unfold io_step in H. destruct (io a) eqn:Hio; step_cases H; cbn;
      try (destruct (take_next_frame (state a)) as (? & ? & ? & ? & ? & ? & ?)); split; cbn; try case_bool_decide; congruence.
  - step_cases H; split; cbn; congruence.
  - unfold read_port in H. step_cases H; split; cbn; congruence.
  - unfold write_port in H. step_cases H; split; cbn; congruence.
Qed.

Lemma client_frame e a a' : io_event e = false -> adapter_step pipe_room e a = Some a' -> client_turn a a'.
Proof.
  intros He H. destruct e; try done; cbn [adapter_step] in H; unfold client_step, shutdown_step, run_closure, enter_shutdown in H.
  all: step_cases H; split; cbn; repeat case_match; done.
Qed.

(** The steps of the client context, one by one. *)
Inductive client_move (e : Event) (a : Adapter) : Adapter -> Prop :=
| CM_refused r : client a = Outside -> client_move e a (return_from_send r a)
| CM_send m :
    e = Send m -> client a = Outside -> LinkState.phase_ (link (state a)) = LinkState.Open -> accepting (state a) = true ->
    m <> [] -> (length m <= max_message (state a))%nat -> client_move e a (set_client (Offering m) a)
| CM_listener l : e = SetListener l -> client a = Outside -> client_move e a (set_state (set_listener l (state a)) a)
| CM_close then_tell s :
    client a = Outside -> LinkState.phase_ (link (state a)) = LinkState.Open ->
    (then_tell = None /\ s = state a \/
     exists er cs, inbound (state a) = LinkLost er :: cs /\ s = set_inbound cs (state a) /\
       then_tell = (fun l => (l, er)) <$> listener (state a)) ->
    client_move e a (set_client (ClosingAt StoreAccepting then_tell)
      (set_state (set_link (LinkState.mkLinkState LinkState.Closing) s) a))
| CM_close_again : client a = Outside -> LinkState.phase_ (link (state a)) <> LinkState.Open -> client_move e a a
| CM_ignored c cs :
    client a = Outside -> inbound (state a) = c :: cs ->
    (LinkState.phase_ (link (state a)) <> LinkState.Open \/ listener (state a) = None /\ exists p, c = PacketArrived p) ->
    client_move e a (set_state (set_inbound cs (state a)) a)
| CM_heard p cs l :
    client a = Outside -> inbound (state a) = PacketArrived p :: cs ->
    LinkState.phase_ (link (state a)) = LinkState.Open -> listener (state a) = Some l ->
    client_move e a (set_heard (heard a ++ [OnBytes l p]) (set_state (set_inbound cs (state a)) a))
| CM_busy m q :
    client a = Offering m -> SendQueue.offer (frame_message m) (outbound (state a)) = (SendQueue.Busy, q) ->
    client_move e a (return_from_send send_busy (set_state (set_outbound q (state a)) a))
| CM_start m q :
    client a = Offering m -> SendQueue.offer (frame_message m) (outbound (state a)) = (SendQueue.StartWriter, q) ->
    client_move e a (set_client Waking (set_accepted (accepted a ++ [m]) (set_state (set_outbound q (state a)) a)))
| CM_queued m q :
    client a = Offering m -> SendQueue.offer (frame_message m) (outbound (state a)) = (SendQueue.Queued, q) ->
    client_move e a (return_from_send (Success tt) (set_accepted (accepted a ++ [m]) (set_state (set_outbound q (state a)) a)))
| CM_wake : client a = Waking -> client_move e a (return_from_send (Success tt) (set_state (wake pipe_room (state a)) a))
| CM_shutdown k k' then_tell s :
    client a = ClosingAt k then_tell -> shutdown_step pipe_room k (io a) (state a) = Some (s, Some k') ->
    client_move e a (set_client (ClosingAt k' then_tell) (set_state s a))
| CM_closed then_tell s :
    client a = ClosingAt Release then_tell -> shutdown_step pipe_room Release (io a) (state a) = Some (s, None) ->
    client_move e a (set_heard (heard a ++ match then_tell with Some (l, er) => [OnDisconnected l er] | None => [] end)
      (set_client Outside (set_state s a))).

Lemma begin_close_spec l :
  LinkState.begin_close l =
    if decide (LinkState.phase_ l = LinkState.Open) then (true, LinkState.mkLinkState LinkState.Closing) else (false, l).
Proof. unfold LinkState.begin_close. by destruct (decide _); [rewrite bool_decide_eq_true_2|rewrite bool_decide_eq_false_2]. Qed.

Lemma set_heard_nil l a : heard a = l -> set_heard (l ++ []) a = a.
Proof. intros <-. destruct a. unfold set_heard. cbn. by rewrite app_nil_r. Qed.

Lemma client_moves e a a' : io_event e = false -> adapter_step pipe_room e a = Some a' -> client_move e a a'.
Proof.
  intros He H. destruct e as [m| |l| | | | | |]; try done; cbn [adapter_step] in H.
  - destruct (client a) eqn:Hc; try done. destruct (send_checks m (state a)) eqn:Hs; simplify_eq; [|by apply CM_refused].
    unfold send_checks, LinkState.may_send, LinkState.is_open in Hs. repeat split_if; try done. bool_to_prop.
    apply CM_send; try done. by apply Nat.ltb_ge.
  - destruct (client a) eqn:Hc; try done. simplify_eq. unfold enter_shutdown. rewrite begin_close_spec.
    destruct (decide _); [apply CM_close; auto|by apply CM_close_again].
  - destruct (client a) eqn:Hc; try done. simplify_eq. by apply CM_listener.
  - destruct (client a) eqn:Hc; try done. destruct (inbound (state a)) as [|c cs] eqn:Hi; [done|]. simplify_eq.
    unfold run_closure, LinkState.may_deliver, LinkState.is_open. cbn.
    destruct c as [p|e]; case_bool_decide as Hp; cbn [negb]; try (by eapply CM_ignored; eauto).
    + destruct (listener (state a)) as [l|] eqn:Hl; [by apply CM_heard|eapply CM_ignored; eauto].
    + unfold enter_shutdown. rewrite begin_close_spec. cbn. rewrite decide_True by done.
      apply (CM_close _ a _ (set_inbound cs (state a))); eauto 10.
  - unfold client_step in H. destruct (client a) as [|m| |k t] eqn:Hc; try done.
    + destruct (SendQueue.offer _ _) as [[] q] eqn:Ho; simplify_eq; [exact (CM_start _ a m q Hc Ho)|exact (CM_queued _ a m q Hc Ho)|exact (CM_busy _ a m q Hc Ho)].
    + simplify_eq. by apply CM_wake.
    + destruct (shutdown_step pipe_room k (io a) (state a)) as [[s [k'|]]|] eqn:Hs; simplify_eq/=; [by eapply CM_shutdown|].
      assert (k = Release) as -> by (by destruct k; cbn in Hs; try destruct (io a)).
      pose proof (CM_closed ClientStep a t s Hc Hs) as Hm. destruct t as [[l e]|]; [done|]. by rewrite set_heard_nil in Hm by done.
Qed.

(** An invariant of every step is one of every run. *)
Lemma run_invariant (P : Event -> Prop) (I : Adapter -> Prop) :
  (forall e a a', P e -> I a -> adapter_step pipe_room e a = Some a' -> I a') ->
  forall es a a', Forall P es -> I a -> run_adapter pipe_room es a = Some a' -> I a'.
Proof.
  intros Hs es. induction es as [|e es IH]; intros a a' Hes Ha H; [by simplify_eq/=|].
  cbn [run_adapter mbind option_bind] in H. destruct (adapter_step pipe_room e a) as [a1|] eqn:E; [|done].
  inversion Hes; subst. eauto.
Qed.

(** ** Closing *)

(** The phase of the link says where the client context is, what the I/O thread
    has been told, and what is still open: the descriptors go only after the
    thread has. *)
Definition before_stop (k : CloseStep) : bool := bool_decide (k = StoreAccepting \/ k = StoreStop).
Definition after_join (k : CloseStep) : bool := bool_decide (k = DiscardQueued \/ k = Release).

Definition in_phase (a : Adapter) : Prop :=
  match LinkState.phase_ (link (state a)) with
  | LinkState.Open =>
      match client a with ClosingAt _ _ => False | _ => True end /\ stop (state a) = false /\ port_open (state a) = true
  | LinkState.Closing =>
      match client a with
      | ClosingAt k _ =>
          stop (state a) = negb (before_stop k) /\ port_open (state a) = true /\
          (after_join k = true -> io a = Gone) /\ (k <> StoreAccepting -> accepting (state a) = false)
      | _ => False
      end
  | LinkState.Closed =>
      client a = Outside /\ stop (state a) = true /\ port_open (state a) = false /\ io a = Gone /\
      accepting (state a) = false
  end.

Lemma in_phase_step e a a' : in_phase a -> adapter_step pipe_room e a = Some a' -> in_phase a'.
Proof.
  intros Hp H. destruct (io_event e) eqn:He.
  - destruct (io_frame e a a' He H) as [Hc _ _ _ Hl _ _ Ho Hs Ha Hg]. unfold in_phase in *. rewrite Hc, Hl, Ho, Hs.
    destruct (LinkState.phase_ _); [done| |by destruct Hp as (_ & _ & _ & ? & _)].
    destruct (client a); try done. destruct Hp as (? & ? & Hj & ?). split_and!; auto. intros ?. by destruct Hg, Hj.
  - apply client_moves in H; [|done]. unfold in_phase in *.
    destruct H as [r Hc|m Em Hc Ho|l El Hc|t s Hc Ho Hs|Hc Ho|c cs Hc Hi Ho|p cs l Hc Hi Ho Hl|m q Hc Hq|m q Hc Hq|m q Hc Hq|Hc
      |k k' t s Hc Hs|t s Hc Hs]; rewrite Hc in Hp; cbn in *; try rewrite Hc; try rewrite Ho in *; try done.
    + destruct Hp as (_ & ? & ?). destruct Hs as [[-> ->]|(? & ? & _ & -> & _)]; by split_and!.
    + destruct (LinkState.phase_ _); naive_solver.
    + destruct (LinkState.phase_ _); naive_solver.
    + destruct (LinkState.phase_ _); naive_solver.
    + destruct (LinkState.phase_ _); naive_solver.
    + destruct k; cbn in Hs; try destruct (port_open (state a)) eqn:Hpo; try destruct (io a) eqn:Hio; simplify_eq; cbn;
        destruct (LinkState.phase_ _); naive_solver.
    + cbn in Hs. simplify_eq. cbn. destruct (LinkState.phase_ _); naive_solver.
Qed.

(** ** What goes out *)

(** The bytes accepted and not yet written: the rest of the message in hand and
    the one that waits. *)
Definition in_hand (s : State) : bytes :=
  drop (written s) (writing s) ++ default [] (SendQueue.waiting_ (outbound s)).

(** Nothing has been discarded while the link is open, nor until [shutdown] has
    joined the thread. *)
Definition undiscarded (a : Adapter) : Prop :=
  LinkState.phase_ (link (state a)) = LinkState.Open \/ exists k t, client a = ClosingAt k t /\ k <> Release.

(** Between a [poll] that reported [POLLOUT] and the write, there is a message
    in hand. *)
Definition owes_write (p : IoPoint) : bool :=
  match p with
  | AtDrain port | AtPort port | AtRead port | AtReadCount _ _ port | AtPost _ port | AtOut port => pollout port
  | AtWrite _ | AtWriteCount _ _ => true
  | _ => false
  end.

(** The claim covers every message in hand or waiting; everything accepted is
    on the port, in hand or discarded, in order; and a thread that goes to sleep
    in [poll] while a message waits is about to be woken. *)
Record flow (max : nat) (a : Adapter) : Prop := {
  fl_max : max_message (state a) = max;
  fl_offered : forall m, client a = Offering m -> m <> [] /\ (length m <= max)%nat;
  fl_waiting : forall m, SendQueue.waiting_ (outbound (state a)) = Some m -> m <> [] /\ SendQueue.writing_ (outbound (state a)) = true;
  fl_writing : writing (state a) <> [] -> SendQueue.writing_ (outbound (state a)) = true;
  fl_written : (written (state a) <= length (writing (state a)))%nat;
  fl_order : exists rest, concat (frame_message <$> accepted a) = to_port a ++ in_hand (state a) ++ rest /\
    (undiscarded a -> rest = []);
  fl_owed : owes_write (io a) = true -> writing (state a) <> [];
  fl_sleep : io a = AtPoll -> writing (state a) = [] -> SendQueue.writing_ (outbound (state a)) = true ->
    is_Some (SendQueue.waiting_ (outbound (state a))) /\ ((0 < wake_pipe (state a))%nat \/ client a = Waking)
}.

Lemma undiscarded_io a a' : io_turn a a' -> undiscarded a' -> undiscarded a.
Proof. intros [Hc _ _ _ Hl _ _ _ _ _ _]. unfold undiscarded. by rewrite Hc, Hl. Qed.

Context (max : nat) (Hroom : (0 < pipe_room)%nat) (Hmax : (max <= kMaxSerialPacket)%nat).

Lemma in_hand_same s s' :
  writing s' = writing s -> written s' = written s -> outbound s' = outbound s -> in_hand s' = in_hand s.
Proof. intros Hw Hn Ho. unfold in_hand. by rewrite Hw, Hn, Ho. Qed.

(** A step of the I/O thread that leaves the messages where they are. *)
Lemma flow_io_same a s p :
  flow max a -> io_turn a (set_io p (set_state s a)) ->
  writing s = writing (state a) -> written s = written (state a) -> outbound s = outbound (state a) ->
  (owes_write p = true -> writing (state a) <> []) -> p <> AtPoll ->
  flow max (set_io p (set_state s a)).
Proof.
  intros [Hm Hof Hwa Hwr Hn (rest & Ho & Hrest) Hp Hs] Ht Ew En Eo Hpo Hne.
  pose proof (it_max _ _ Ht) as Hmx. cbn in Hmx.
  split; cbn; rewrite ?Ew, ?En, ?Eo; try done; [congruence|].
  exists rest. rewrite (in_hand_same _ s) by done. split; [done|]. intros Hu. apply Hrest. by eapply undiscarded_io.
Qed.

Lemma flow_take a :
  flow max a -> io a = AtTake ->
  flow max (set_io AtPoll (set_state (if bool_decide (writing (state a) = []) then take_next (state a) else state a) a)).
Proof.
  intros Hfl Hio. destruct Hfl as [Hm Hof Hwa Hwr Hn (rest & Ho & Hrest) Hp Hs].
  case_bool_decide as Hw.
  2: { split; cbn; try done. by exists rest. }
  destruct (take_next_frame (state a)) as (El & _ & Emx & _).
  unfold take_next, SendQueue.next_for_writer in *.
  destruct (SendQueue.waiting_ (outbound (state a))) as [m|] eqn:Eq; cbn in *.
  - destruct (Hwa m eq_refl) as [Hne Hcl]. split; cbn; try done; [lia|].
    exists rest. split; [|done]. rewrite Ho. unfold in_hand. rewrite Eq, Hw, drop_nil. cbn. by rewrite drop_0, app_nil_r.
  - split; cbn; try done. exists rest. split; [|done]. rewrite Ho. unfold in_hand. by rewrite Eq.
Qed.

Lemma flow_io e a a' : flow max a -> io_event e = true -> adapter_step pipe_room e a = Some a' -> flow max a'.
Proof.
  intros Hfl He H. pose proof (io_frame e a a' He H) as Ht. pose proof (fl_owed _ _ Hfl) as Hp.
  destruct e as [| | | | | |r|r|r]; try done; cbn [adapter_step] in H.
  - unfold io_step in H. destruct (io a) as [ | | |port|port|port|n ps port|ps port|port|port|n port|port|e| | ] eqn:Hio; try done;
      step_cases H; try (by apply flow_io_same; try done; cbn in *; try rewrite Hio in Ht; try case_match; try done).
    + by apply flow_take.
    + apply Nat.ltb_ge in Heqb. destruct Hfl as [Hm Hof Hwa Hwr Hn (rest & Ho & Hrest) _ Hs]. split; cbn; try done.
      * exists rest. split; [|intros Hu; apply Hrest; by eapply undiscarded_io]. rewrite Ho. unfold in_hand. cbn.
        by rewrite (drop_ge (writing _)).
  - destruct (io a) eqn:Hio; try done. unfold io_poll in H.
    assert (forall p, (owes_write p = true -> writing (state a) <> []) -> p <> AtPoll -> io_turn a (set_io p a) -> flow max (set_io p a)) as Hgo.
    { intros p Hpo Hne Ht'. pose proof (flow_io_same a (state a) p Hfl) as Hx.
      assert (set_state (state a) a = a) as E by (by destruct a). rewrite E in Hx. by apply Hx. }
    step_cases H; apply Hgo; try done; try (by destruct (_ <? _)%nat). intros Hpo. apply orb_false_iff in Heqb as [_ Hb].
    assert (pollout port = true) as Hpo' by (by destruct (_ <? _)%nat). rewrite Hpo' in Hb. by apply bool_decide_eq_false in Hb.
  - destruct (io a) as [ | | |port|port|port|n ps port|ps port|port|port|n port|port|e| | ] eqn:Hio; try done.
    unfold read_port in H.
    assert (forall s p c, io_turn a (set_from_port c (set_io p (set_state s a))) ->
      writing s = writing (state a) -> written s = written (state a) -> outbound s = outbound (state a) ->
      (owes_write p = true -> writing (state a) <> []) -> p <> AtPoll -> flow max (set_from_port c (set_io p (set_state s a)))) as Hgo.
    { intros s p c Ht' ? ? ? ? ?. destruct (flow_io_same a s p Hfl) as [? ? ? ? ? ? ? ?]; try done.
      by destruct Ht' as []. }
    step_cases H; by apply Hgo.
  - destruct (io a) as [ | | |port|port|port|n ps port|ps port|port|port|n port|port|e| | ] eqn:Hio; try done.
    unfold write_port in H. destruct (_ =? 0)%nat eqn:El; [done|]. apply Nat.eqb_neq in El. unfold write_left in *.
    destruct Hfl as [Hm Hof Hwa Hwr Hn (rest & Ho & Hrest) _ Hs].
    assert (concat (frame_message <$> accepted a) = (to_port a ++ []) ++ in_hand (state a) ++ rest) as Ho0 by (by rewrite app_nil_r).
    step_cases H; split; cbn; rewrite ?drop_0, ?take_0; try done; try (by intros ?; apply Hp).
    all: try (exists rest; split; [done|intros Hu; apply Hrest; by eapply undiscarded_io]).
    + apply Nat.ltb_ge in Heqb. lia.
    + exists rest. split; [|intros Hu; apply Hrest; by eapply undiscarded_io]. rewrite Ho. unfold in_hand. cbn.
      rewrite <- !app_assoc. f_equal. rewrite (app_assoc (take _ _)). f_equal. by rewrite <- drop_drop, take_drop.
Qed.

(** A step of the client context that neither offers nor discards. *)
Lemma flow_client_same a a' :
  flow max a -> client_turn a a' -> accepted a' = accepted a -> outbound (state a') = outbound (state a) ->
  max_message (state a') = max_message (state a) -> (io a = AtPoll -> 0 < wake_pipe (state a) -> 0 < wake_pipe (state a'))%nat ->
  (forall m, client a' = Offering m -> m <> [] /\ (length m <= max)%nat) ->
  (undiscarded a' -> undiscarded a) -> (client a = Waking -> (0 < wake_pipe (state a'))%nat) -> flow max a'.
Proof.
  intros [Hm Hof Hwa Hwr Hn (rest & Ho & Hrest) Hp Hs] [Hio Hto Hfr Hrx Hw Hwn Hst] Ha Hq Hmx Hpipe Hof' Hu Hwk.
  split; rewrite ?Hq, ?Hw, ?Hwn, ?Hio, ?Ha; try done.
  - congruence.
  - exists rest. rewrite Hto, (in_hand_same (state a) (state a')) by done. split; [done|]. auto.
  - intros E1 E2 E3. destruct (Hs E1 E2 E3) as [? [?|Hc]]; (split; [done|left]); [by apply Hpipe|by apply Hwk].
Qed.

Lemma frame_offered a m : flow max a -> client a = Offering m -> frame_message m <> [].
Proof. intros Hfl Hc. destruct (fl_offered _ _ Hfl m Hc). apply frame_message_nonempty; [done|lia]. Qed.

Lemma offer_spec m q ad q' :
  SendQueue.offer m q = (ad, q') ->
  match ad with
  | SendQueue.StartWriter => SendQueue.writing_ q = false
  | SendQueue.Queued => SendQueue.writing_ q = true /\ SendQueue.waiting_ q = None
  | SendQueue.Busy => SendQueue.writing_ q = true /\ is_Some (SendQueue.waiting_ q)
  end /\
  SendQueue.waiting_ q' = match ad with SendQueue.Busy => SendQueue.waiting_ q | _ => Some m end /\
  SendQueue.writing_ q' = true.
Proof.
  unfold SendQueue.offer. intros H. destruct (SendQueue.writing_ q) eqn:Ew, (SendQueue.waiting_ q) eqn:Eq; cbn in H; injection H as <- <-; by split_and!.
Qed.

Lemma shutdown_frame k p s s' n :
  shutdown_step pipe_room k p s = Some (s', n) ->
  max_message s' = max_message s /\ (k <> DiscardQueued -> outbound s' = outbound s) /\
  (k = DiscardQueued -> outbound s' = SendQueue.discard_queued (outbound s)) /\
  (k <> Release -> (0 < wake_pipe s)%nat -> (0 < wake_pipe s')%nat) /\
  (n = Some Release <-> k = DiscardQueued) /\
  inbound s' = inbound s /\
  (LinkState.phase_ (link s') = LinkState.Open ->
   LinkState.phase_ (link s) = LinkState.Open /\ listener s' = listener s).
Proof.
  destruct k; cbn; [| | |destruct p| |]; intros [= <- <-]; cbn; try case_match; cbn; split_and!; try done; lia.
Qed.

Lemma flow_client e a a' : flow max a -> in_phase a -> client_turn a a' -> client_move e a a' -> flow max a'.
Proof.
  intros Hfl Hph Ht Hmv. pose proof Hfl as [Hm Hof Hwa Hwr Hn (rest & Ho & Hrest) Hp Hs].
  destruct Hmv as [r Hc|m Em Hc Hopen Hacc Hne Hlen|l El Hc|t s Hc Hopen Hst|Hc Hopen|c cs Hc Hi Hopen|p cs l Hc Hi Hopen Hl
    |m q Hc Hq|m q Hc Hq|m q Hc Hq|Hc|k k' t s Hc Hk|t s Hc Hk].
  1-7: apply (flow_client_same a); cbn; try done; try congruence; try (by unfold undiscarded; cbn; rewrite ?Hc; naive_solver).
  1-3: destruct (offer_spec _ _ _ _ Hq) as (Hqs & Hqw & Hqc); cbn in Hqw; pose proof (frame_offered a m Hfl Hc) as Hne.
  - split; cbn; rewrite ?Hqw, ?Hqc; try done; [intros m' Hm'; split; [by apply Hwa|done]| |].
    + exists rest. unfold in_hand in *. cbn. rewrite ?Hqw. split; [done|]. intros Hu. apply Hrest.
      unfold undiscarded in *. cbn in Hu. naive_solver.
    + intros E1 E2 _. destruct (Hs E1 E2) as [? [?|Hw]]; [by apply Hqs|by auto|congruence].
  - assert (writing (state a) = []) as Ew by (destruct (writing (state a)) eqn:E; [done|]; by rewrite Hwr in Hqs).
    assert (SendQueue.waiting_ (outbound (state a)) = None) as En
      by (destruct (SendQueue.waiting_ _) eqn:E; [by destruct (Hwa _ eq_refl); congruence|done]).
    split; cbn; rewrite ?Hqw, ?Hqc; try done; [by intros ? [= <-]| |by eauto].
    exists []. split; [|done]. rewrite fmap_app, concat_app, Ho, Hrest.
    + unfold in_hand. cbn. by rewrite ?Hqw, En, !app_nil_r, <- app_assoc.
    + left. unfold in_phase in Hph. rewrite Hc in Hph. destruct (LinkState.phase_ _); naive_solver.
  - destruct Hqs as [Hw En]. split; cbn; rewrite ?Hqw, ?Hqc; try done; [by intros ? [= <-]| |].
    + exists []. split; [|done]. rewrite fmap_app, concat_app, Ho, Hrest.
      * unfold in_hand. cbn. by rewrite ?Hqw, En, !app_nil_r, <- app_assoc.
      * left. unfold in_phase in Hph. rewrite Hc in Hph. destruct (LinkState.phase_ _); naive_solver.
    + intros E1 E2 _. destruct (Hs E1 E2 Hw) as [[? E] _]. congruence.
  - apply (flow_client_same a); cbn; try done; try (intros; lia). intros Hu. unfold undiscarded in *. cbn in Hu. naive_solver.
  - destruct (shutdown_frame _ _ _ _ _ Hk) as (Emx & Eo & Ed & Ew & Er & _).
    destruct (decide (k = DiscardQueued)) as [->|Hkd].
    + unfold in_phase in Hph. rewrite Hc in Hph. assert (io a = Gone) as Hg by (destruct (LinkState.phase_ _); naive_solver).
      clear Eo. specialize (Ed eq_refl). destruct Ht as [Hio _ _ _ Ew' En' _]. cbn in *.
      split; cbn; rewrite ?Ed, ?Hg, ?Ew', ?En'; cbn; try done; [congruence|].
      exists (default [] (SendQueue.waiting_ (outbound (state a))) ++ rest). split.
      * rewrite Ho. unfold in_hand. rewrite Ed, Ew', En'. cbn. by rewrite app_nil_r, <- app_assoc.
      * intros [Hu|(k0 & t0 & E & Hne')]; cbn in *; [injection Hk as <- _; cbn in Hu; rewrite Hu in Hph; by destruct Hph|].
        injection E as <- _. by destruct Er as [_ Er]; injection (Er eq_refl) as ->.
    + apply (flow_client_same a); cbn; auto; try congruence;
        (assert (k <> Release) by (by intros ->)); [intros _; by apply Ew|intros _; right; by exists k, t].
  - destruct (shutdown_frame _ _ _ _ _ Hk) as (Emx & Eo & _).
    apply (flow_client_same a); cbn; auto; try done; try congruence.
    + intros Hg. exfalso. unfold in_phase in Hph. rewrite Hc in Hph.
      destruct (LinkState.phase_ _); [by destruct Hph|destruct Hph as (_ & _ & Hj & _); by rewrite Hj in Hg|by destruct Hph].
    + cbn in Hk. injection Hk as <-. intros [Hu|(k0 & t0 & E & _)]; cbn in *; done.
Qed.

(** ** What comes in *)

(** What the receiver makes of all the bytes that came from the port. *)
Definition received (l : bytes) : receiver :=
  foldl rx_byte (new_splitter kMaxFrame, new_deframer kMaxAssemblyBuffer, []) l.

#[local] Arguments received : simpl never.

Definition packet_of (c : Closure) : option bytes := match c with PacketArrived p => Some p | LinkLost _ => None end.
Definition packet_heard (h : Heard) : option bytes := match h with OnBytes _ p => Some p | OnDisconnected _ _ => None end.

Definition posting (p : IoPoint) : list bytes :=
  match p with AtReadCount _ ps _ | AtPost ps _ => ps | _ => [] end.

(** Packets the receiver made are handled, posted or about to be posted, in
    order; those heard are some of those handled, and all of them as long as
    the link is open and somebody listens. *)
Definition inflow (attentive : Prop) (a : Adapter) : Prop :=
  exists handled,
    received (from_port a) =
      (splitter_ (rx (state a)), deframer_ (rx (state a)),
       handled ++ omap packet_of (inbound (state a)) ++ posting (io a)) /\
    sublist (omap packet_heard (heard a)) handled /\
    (attentive -> omap packet_heard (heard a) `prefix_of` handled) /\
    (attentive -> LinkState.phase_ (link (state a)) = LinkState.Open ->
     is_Some (listener (state a)) /\ omap packet_heard (heard a) = handled).

(** The receiver only adds to what it has delivered. *)
Lemma rx_bytes_out l s d out :
  foldl rx_byte (s, d, out) l = let '(s', d', more) := foldl rx_byte (s, d, []) l in (s', d', out ++ more).
Proof.
  revert s d out. induction l as [|v l IH]; intros s d out; cbn [foldl]; [by rewrite app_nil_r|].
  assert (exists s1 d1 one, forall out, rx_byte (s, d, out) v = (s1, d1, out ++ one)) as (s1 & d1 & one & Hv).
  { unfold rx_byte, deliver. destruct (next_byte v s) as [[line|] s1]; [|exists s1, d, []; intros; by rewrite app_nil_r].
    destruct (feed_line line d) as [[] d1]; eexists s1, d1, _; intros o; try (by rewrite app_nil_r); done. }
  rewrite !Hv. rewrite IH, (IH s1 d1 ([] ++ one)). destruct (foldl rx_byte (s1, d1, []) l) as [[s2 d2] more].
  by rewrite app_assoc.
Qed.

Lemma feed_received l chunk r packets r' out :
  received l = (splitter_ r, deframer_ r, out) -> feed chunk r = (packets, r') ->
  received (l ++ chunk) = (splitter_ r', deframer_ r', out ++ packets).
Proof.
  unfold received, feed, receive. intros Hl. rewrite receive_loop_bytes by lia. rewrite foldl_app, Hl, (rx_bytes_out chunk _ _ out).
  destruct (foldl rx_byte (splitter_ r, deframer_ r, []) chunk) as [[s d] o]. by intros [= <- <-].
Qed.

Lemma inflow_io_same P a a' :
  inflow P a -> io_turn a a' -> from_port a' = from_port a -> rx (state a') = rx (state a) ->
  omap packet_of (inbound (state a')) ++ posting (io a') = omap packet_of (inbound (state a)) ++ posting (io a) ->
  inflow P a'.
Proof.
  intros (h & Hr & Hsub & Hpre & Hex) [_ _ _ Hh Hl Hls _ _ _ _ _] Hf Hx Hq. exists h.
  by rewrite Hf, Hx, Hq, Hh, Hl, Hls.
Qed.

Lemma inflow_io P e a a' : inflow P a -> io_event e = true -> adapter_step pipe_room e a = Some a' -> inflow P a'.
Proof.
  intros Hin He H. pose proof (io_frame e a a' He H) as Ht.
  destruct e as [| | | | | |r|r|r]; try done; cbn [adapter_step] in H.
  - apply (inflow_io_same P a); try done; unfold io_step in H;
      destruct (io a) as [ | | |port|port|port|n ps port|ps port|port|port|n port|port|er| | ] eqn:Hio; try done;
      step_cases H; cbn; try done; try case_bool_decide; try done; try apply (take_next_frame (state a)).
    1, 3, 5, 6: by case_match.
    + by destruct (take_next_frame (state a)) as (_ & _ & _ & _ & _ & _ & _ & -> & _).
    + by rewrite omap_app, <- app_assoc.
    + by rewrite omap_app, app_nil_r.
  - apply (inflow_io_same P a); try done; destruct (io a) eqn:Hio; try done; unfold io_poll in H; step_cases H; try done.
    cbn. repeat case_match; done.
  - destruct (io a) as [ | | |port|port|port|n ps port|ps port|port|port|n port|port|er| | ] eqn:Hio; try done.
    destruct r as [chunk| |n]; unfold read_port in H.
    + destruct (feed chunk (rx (state a))) as [packets rx'] eqn:Hf. step_cases H. destruct Hin as (h & Hr & Hsub & Hpre & Hex).
      rewrite Hio in Hr. exists h. split; [|done]. etransitivity; [exact (feed_received _ _ _ _ _ _ Hr Hf)|]. cbn.
      by rewrite app_nil_r, <- !app_assoc.
    + step_cases H. apply (inflow_io_same P a); try done; cbn; [by rewrite app_nil_r|by rewrite Hio].
    + apply (inflow_io_same P a); try done; step_cases H; cbn; rewrite ?app_nil_r, ?Hio; cbn; by rewrite ?app_nil_r.
  - apply (inflow_io_same P a); try done;
      destruct (io a) as [ | | |port|port|port|n ps port|ps port|port|port|n port|port|er| | ] eqn:Hio; try done;
      destruct r as [[|n]|n]; unfold write_port in H; step_cases H; done.
Qed.

Lemma inflow_client (P : Prop) e a a' :
  (P -> forall l, e <> SetListener l) -> inflow P a -> io_event e = false -> adapter_step pipe_room e a = Some a' -> inflow P a'.
Proof.
  intros Hatt (h & Hr & Hsub & Hpre & Hex) He H. pose proof (client_frame e a a' He H) as [Hio _ Hf Hrx _ _ _].
  assert (inbound (state a') = inbound (state a) -> heard a' = heard a \/ (exists l er, heard a' = heard a ++ [OnDisconnected l er]) ->
    (P -> LinkState.phase_ (link (state a')) = LinkState.Open ->
       LinkState.phase_ (link (state a)) = LinkState.Open /\ listener (state a') = listener (state a)) ->
    inflow P a') as Hsame.
  { intros Hi Hh Hl. exists h. rewrite Hf, Hrx, Hi, Hio.
    assert (omap packet_heard (heard a') = omap packet_heard (heard a)) as ->
      by (destruct Hh as [->|(? & ? & ->)]; [done|by rewrite omap_app, app_nil_r]).
    split_and!; try done. intros HP Ho. destruct (Hl HP Ho) as [Ho' ->]. by apply Hex. }
  destruct (client_moves e a a' He H) as [r Hc|m Em Hc Hopen Hacc Hne Hlen|l El Hc|t s Hc Hopen Hst|Hc Hopen|c cs Hc Hi Hopen|p cs l Hc Hi Hopen Hl
    |m q Hc Hq|m q Hc Hq|m q Hc Hq|Hc|k k' t s Hc Hk|t s Hc Hk]; cbn in *.
  1, 2, 5, 8-11: apply Hsame; auto.
  - exists h. split_and!; try done. intros HP. by destruct (Hatt HP l).
  - assert (omap packet_of (inbound s) = omap packet_of (inbound (state a))) as Hi
      by (destruct Hst as [[_ ->]|(er & cs & -> & -> & _)]; done).
    exists h. cbn. rewrite Hrx, Hi. split_and!; try done.
  - destruct c as [p|er].
    + exists (h ++ [p]). cbn. rewrite Hr, Hi. cbn. split_and!; [by rewrite <- app_assoc|by apply sublist_inserts_r|by intros HP; apply prefix_app_r, Hpre|].
      intros HP Ho. destruct (Hex HP Ho) as [[l' El] _]. destruct Hopen as [|[En _]]; [done|congruence].
    + exists h. cbn. rewrite Hr, Hi. split_and!; try done.
  - exists (h ++ [p]). cbn. rewrite Hr, Hi, omap_app. cbn. split_and!; [by rewrite <- app_assoc|by apply sublist_app|by intros HP; destruct (Hex HP Hopen) as [_ ->]|].
    intros HP Ho. destruct (Hex HP Ho) as [? ->]. done.
  - destruct (shutdown_frame _ _ _ _ _ Hk) as (_ & _ & _ & _ & _ & Ei & El). apply Hsame; auto.
  - destruct (shutdown_frame Release (io a) _ _ _ Hk) as (_ & _ & _ & _ & _ & Ei & El). apply Hsame; auto.
    destruct t as [[l er]|]; [right; by exists l, er|left; by rewrite app_nil_r].
Qed.

(** ** What the listener is told *)

Definition is_bytes (h : Heard) : Prop := match h with OnBytes _ _ => True | OnDisconnected _ _ => False end.

(** Packets, and after them, once the link is closed, the one report of its
    loss, if there was one. *)
Definition told (a : Adapter) : Prop :=
  match LinkState.phase_ (link (state a)) with
  | LinkState.Closed =>
      exists packets last, heard a = packets ++ last /\ Forall is_bytes packets /\
        (last = [] \/ exists l e, last = [OnDisconnected l e])
  | _ => Forall is_bytes (heard a)
  end.

Lemma told_step e a a' : in_phase a -> told a -> adapter_step pipe_room e a = Some a' -> told a'.
Proof.
  intros Hph Ht H. destruct (io_event e) eqn:He.
  { destruct (io_frame e a a' He H) as [_ _ _ Hh Hl _ _ _ _ _ _]. unfold told. by rewrite Hh, Hl. }
  destruct (client_moves e a a' He H) as [r Hc|m Em Hc Hopen Hacc Hne Hlen|l El Hc|t s Hc Hopen Hst|Hc Hopen|c cs Hc Hi Hopen|p cs l Hc Hi Hopen Hl
    |m q Hc Hq|m q Hc Hq|m q Hc Hq|Hc|k k' t s Hc Hk|t s Hc Hk]; unfold told in *; cbn in *; try done.
  - by rewrite Hopen in Ht.
  - rewrite Hopen in *. apply Forall_app_2; [done|by constructor].
  - destruct k; cbn in Hk; try destruct (io a); simplify_eq; try done. all: by destruct (port_open _).
  - cbn in Hk. simplify_eq. cbn. unfold in_phase in Hph. rewrite Hc in Hph.
    destruct (LinkState.phase_ _); [by destruct Hph| |by destruct Hph].
    eexists (heard a), _. split_and!; [done..|]. destruct t as [[l e']|]; eauto.
Qed.

(** ** Runs *)

(** What every accepted message is. *)
Definition accepts (Q : bytes -> Prop) (a : Adapter) : Prop :=
  Forall Q (accepted a) /\ forall m, client a = Offering m -> Q m.

Lemma accepts_step Q e a a' :
  (forall m, e = Send m -> m <> [] -> (length m <= max)%nat -> Q m) -> flow max a ->
  accepts Q a -> adapter_step pipe_room e a = Some a' -> accepts Q a'.
Proof.
  intros HQ Hfl [Ha Ho] H. destruct (io_event e) eqn:He.
  { destruct (io_frame e a a' He H) as [Hc _ Hac _ _ _ _ _ _ _ _]. unfold accepts. by rewrite Hc, Hac. }
  pose proof (fl_max _ _ Hfl) as Hmx. pose proof (fl_offered _ _ Hfl) as Hof.
  destruct (client_moves e a a' He H) as [r Hc|m Em Hc Hopen Hacc Hne Hlen|l El Hc|t s Hc Hopen Hst|Hc Hopen|c cs Hc Hi Hopen|p cs l Hc Hi Hopen Hl
    |m q Hc Hq|m q Hc Hq|m q Hc Hq|Hc|k k' t s Hc Hk|t s Hc Hk]; split; cbn; try done; try (apply Forall_app_2; [done|by constructor; [apply Ho|]]); try congruence.
  intros m' [= <-]. apply (HQ m); [done..|lia].
Qed.

Record sound (P : Prop) (Q : bytes -> Prop) (a : Adapter) : Prop := {
  so_phase : in_phase a;
  so_flow : flow max a;
  so_inflow : inflow P a;
  so_told : told a;
  so_accepts : accepts Q a
}.

(** What a run does: nobody who listens stops listening, and the messages sent
    are messages. *)
Definition tame (P : Prop) (Q : bytes -> Prop) (e : Event) : Prop :=
  (P -> forall l, e <> SetListener l) /\ (forall m, e = Send m -> m <> [] -> (length m <= max)%nat -> Q m).

Lemma sound_step P Q e a a' : tame P Q e -> sound P Q a -> adapter_step pipe_room e a = Some a' -> sound P Q a'.
Proof.
  intros [HP HQ] [Hph Hfl Hin Hto Hac] H. split.
  - by eapply in_phase_step.
  - destruct (io_event e) eqn:He; [by eapply flow_io|]. eapply flow_client; [done|done|by eapply client_frame|by eapply client_moves].
  - destruct (io_event e) eqn:He; [by eapply inflow_io|by eapply inflow_client].
  - by eapply told_step.
  - by eapply accepts_step.
Qed.

Lemma sound_run P Q es a a' : Forall (tame P Q) es -> sound P Q a -> run_adapter pipe_room es a = Some a' -> sound P Q a'.
Proof. apply run_invariant. apply sound_step. Qed.

(** The adapter the application has just opened, and set a listener on. *)
Definition listening (l : nat) : Adapter := set_state (set_listener (Some l) (state (opened max))) (opened max).

Lemma opened_sound Q : sound False Q (opened max).
Proof.
  split; [done| | |by constructor|by split].
  - split; try done. exists []. by split.
  - by exists [].
Qed.

Lemma listening_sound P Q l : sound P Q (listening l).
Proof.
  split; [done| | |by constructor|by split].
  - split; try done. exists []. by split.
  - by exists [].
Qed.

Lemma tame_any es : Forall (tame False (fun _ => True)) es.
Proof. apply Forall_true. by split. Qed.

(** Once closing, always closing or closed; once closed, nothing moves. *)
Definition lead (a b : Adapter) : Prop :=
  LinkState.phase_ (link (state b)) <> LinkState.Open /\
  (LinkState.phase_ (link (state a)) = LinkState.Closed -> LinkState.phase_ (link (state b)) = LinkState.Closed) /\
  (LinkState.phase_ (link (state a)) = LinkState.Closed -> to_port b = to_port a /\ from_port b = from_port a) /\
  (LinkState.phase_ (link (state b)) <> LinkState.Closed -> heard b = heard a) /\
  (LinkState.phase_ (link (state a)) = LinkState.Closed -> heard b = heard a) /\
  (heard b = heard a \/ exists l e, heard b = heard a ++ [OnDisconnected l e]).

Lemma lead_step e a a' :
  in_phase a -> LinkState.phase_ (link (state a)) <> LinkState.Open -> adapter_step pipe_room e a = Some a' -> lead a a'.
Proof.
  intros Hph Hn H. unfold lead. destruct (io_event e) eqn:He.
  { destruct (io_frame e a a' He H) as [_ _ _ Hh Hl _ _ _ _ _ Hg]. rewrite Hh, Hl. unfold in_phase in Hph.
    split_and!; auto. intros Hc. rewrite Hc in Hph. by destruct Hph as (_ & _ & _ & ? & _). }
  pose proof (client_frame e a a' He H) as [_ Hto Hfr _ _ _ _].
  destruct (client_moves e a a' He H) as [r Hc|m Em Hc Hopen Hacc Hne Hlen|l El Hc|t s Hc Hopen Hst|Hc Hopen|c cs Hc Hi Hopen|p cs l Hc Hi Hopen Hl
    |m q Hc Hq|m q Hc Hq|m q Hc Hq|Hc|k k' t s Hc Hk|t s Hc Hk]; cbn in *; try (by split_and!; auto).
  - assert (link s = link (state a)) as ->
      by (destruct k; cbn in Hk; try destruct (io a); simplify_eq; try done; by destruct (port_open _)).
    by split_and!; auto.
  - cbn in Hk. simplify_eq. cbn. unfold in_phase in Hph. rewrite Hc in Hph.
    destruct (LinkState.phase_ (link (state a))) eqn:Ep; [done| |by destruct Hph]. split_and!; try done.
    destruct t as [[l e']|]; [right; eauto|left; by rewrite app_nil_r].
Qed.

Lemma lead_trans a b c : lead a b -> lead b c -> lead a c.
Proof.
  intros (A1 & A2 & A3 & A4 & A5 & A6) (B1 & B2 & B3 & B4 & B5 & B6). split_and!; auto.
  - intros Ha. destruct (A3 Ha), (B3 (A2 Ha)). split; congruence.
  - intros Hc. rewrite B4 by done. apply A4. intros Hb. by apply Hc, B2.
  - intros Ha. by rewrite B5, A5 by auto.
  - destruct (decide (LinkState.phase_ (link (state b)) = LinkState.Closed)) as [Hb|Hb]; [by rewrite B5|].
    by rewrite <- (A4 Hb).
Qed.

(** ** Nothing sleeps on a message *)

(** A thread in [shutdown]'s join has been woken. *)
Definition roused (a : Adapter) : Prop :=
  forall t, client a = ClosingAt Join t -> io a = AtTake \/ io a = AtPoll -> (0 < wake_pipe (state a))%nat.

Lemma roused_step e a a' : in_phase a -> roused a -> adapter_step pipe_room e a = Some a' -> roused a'.
Proof.
  intros Hph Hr H. destruct (io_event e) eqn:He.
  - pose proof (io_frame e a a' He H) as [Hc _ _ _ _ _ _ _ _ _ _]. intros t Ht Hio. rewrite Hc in Ht. specialize (Hr t Ht).
    assert (stop (state a) = true) as Hs.
    { unfold in_phase in Hph. rewrite Ht in Hph. destruct (LinkState.phase_ _); [by destruct Hph|by destruct Hph as [-> _]|by destruct Hph]. }
    destruct e as [| | | | | |r|r|r]; try done; cbn [adapter_step] in H.
    + unfold io_step in H. destruct (io a) as [ | | |port|port|port|n ps port|ps port|port|port|n port|port|er| | ] eqn:Eio; try done;
        step_cases H; cbn in *; try (by destruct Hio); try (by repeat case_match; destruct Hio).
      case_bool_decide; [|by apply Hr; auto]. destruct (take_next_frame (state a)) as (_ & _ & _ & _ & _ & _ & _ & _ & -> & _).
      apply Hr; auto.
    + destruct (io a); try done. unfold io_poll in H. step_cases H; cbn in *; repeat case_match; by destruct Hio.
    + destruct (io a); try done. unfold read_port in H. step_cases H; cbn in *; by destruct Hio.
    + destruct (io a); try done. unfold write_port in H. step_cases H; cbn in *; by destruct Hio.
  - destruct (client_moves e a a' He H) as [r Hc|m Em Hc Hopen Hacc Hne Hlen|l El Hc|t s Hc Hopen Hst|Hc Hopen|c cs Hc Hi Hopen|p cs l Hc Hi Hopen Hl
      |m q Hc Hq|m q Hc Hq|m q Hc Hq|Hc|k k' t s Hc Hk|t s Hc Hk]; intros t0 Ht0; cbn in *; try done; try congruence.
    injection Ht0 as -> <-. assert (k = WakeThread) as -> by (destruct k; cbn in Hk; try destruct (io a); congruence).
    cbn in Hk. simplify_eq.
    unfold in_phase in Hph. rewrite Hc in Hph. assert (port_open (state a) = true) as ->.
    { destruct (LinkState.phase_ _); [by destruct Hph|by destruct Hph as (_ & -> & _)|by destruct Hph]. }
    intros _. cbn. lia.
Qed.

(** A port that takes something of every write, has nothing to say and does not
    fail, and the I/O thread alone with it. *)
Section alone.
Context (pick : nat -> nat) (Hpick : forall n, (0 < n)%nat -> (0 < pick n <= n)%nat).

Definition has_message (s : State) : bool := negb (bool_decide (writing s = [])).

Definition obliging (a : Adapter) : option Event :=
  match io a with
  | AtPoll =>
      if has_message (state a) || (0 <? wake_pipe (state a))%nat
      then Some (IoPoll (Ready (mkRevents false (has_message (state a)) false))) else None
  | AtRead _ => Some (IoRead (ReadFailed EAGAIN))
  | AtWrite _ =>
      Some (if (write_left (state a) =? 0)%nat then IoStep else IoWrite (Put (pick (write_left (state a)))))
  | Gone => None
  | _ => Some IoStep
  end.

Fixpoint io_alone (n : nat) (a : Adapter) : Adapter :=
  match n with
  | O => a
  | S n =>
      match obliging a with
      | Some e => match adapter_step pipe_room e a with Some a => io_alone n a | None => a end
      | None => a
      end
  end.

(** What is left to do, and how far the thread is from doing some of it. *)
Definition debt (s : State) : nat :=
  write_left s + (if has_message s then 1 else 0) + length (default [] (SendQueue.waiting_ (outbound s))) +
  (if SendQueue.queued (outbound s) then 2 else 0) + wake_pipe s.

Definition distance (s : State) (p : IoPoint) : nat :=
  match p with
  | AtReadCount _ ps _ => 51 + length ps
  | AtPost ps _ => 50 + length ps
  | AtDrain port =>
      if (0 <? wake_pipe s)%nat then 10 else if pollout port && negb (pollin port) then 21 else 50
  | AtPort port => if pollout port && negb (pollin port) then 20 else 49
  | AtRead _ => 39
  | AtOut port => if pollout port then 18 else 30
  | AtHup _ => 29
  | AtTop => 28
  | AtTake => 27
  | AtPoll => 26
  | AtWriteCount _ _ => 22
  | AtWrite _ => 17
  | AtLost _ => 12
  | AtLeave => 11
  | Gone => 0
  end.

Definition nearer (s' : State) (p' : IoPoint) (s : State) (p : IoPoint) : Prop :=
  (debt s' < debt s)%nat \/ debt s' = debt s /\ (distance s' p' < distance s p)%nat.

Lemma debt_same s s' :
  writing s' = writing s -> written s' = written s -> outbound s' = outbound s -> wake_pipe s' = wake_pipe s -> debt s' = debt s.
Proof. intros E1 E2 E3 E4. unfold debt, write_left, has_message. by rewrite E1, E2, E3, E4. Qed.


(** A step that needs no answer from the port. *)
Lemma io_step_nearer s p s' p' :
  io_step s p = Some (s', p') -> (owes_write p = true -> writing s <> []) -> (written s <= length (writing s))%nat -> nearer s' p' s p.
Proof.
  intros H Hp Hw.
  destruct p as [ | | |port|port|port|n ps port|ps port|port|port|n port|port|er| | ]; cbn [io_step] in H; try done.
  1, 4-7, 9-12: step_cases H; right; (split; [by apply debt_same|]); cbn;
    try (destruct (pollout port) eqn:?, (pollin port) eqn:?); try destruct (stop _); try destruct (pollhup _); cbn; rewrite ?Heqb; lia.
  - step_cases H. case_bool_decide as Hm; [|right; split; [done|cbn; lia]]. unfold nearer, take_next, SendQueue.next_for_writer.
    destruct (SendQueue.waiting_ (outbound s)) as [m|] eqn:Eq; cbn.
    + left. unfold debt, write_left, has_message, SendQueue.queued. cbn. rewrite Eq, Hm. cbn. case_bool_decide; cbn; lia.
    + right. split; [|lia]. unfold debt, write_left, has_message, SendQueue.queued. cbn. by rewrite Eq.
  - destruct (wake_pipe s) as [|n] eqn:En; step_cases H.
    + right. split; [done|]. cbn. rewrite En. cbn. destruct (pollout port), (pollin port); cbn; lia.
    + left. unfold debt. cbn. rewrite En. unfold write_left, has_message. cbn. lia.
  - destruct (_ <? _)%nat eqn:El; [done|]. apply Nat.ltb_ge in El. step_cases H. left.
    unfold debt, write_left, has_message. cbn. rewrite bool_decide_eq_false_2 by auto. cbn. lia.
Qed.

Lemma alone_step P Q a e :
  sound P Q a -> obliging a = Some e ->
  io_event e = true /\ exists a', adapter_step pipe_room e a = Some a' /\ nearer (state a') (io a') (state a) (io a).
Proof.
  intros [_ Hfl _ _ _] Ho. unfold obliging in Ho. pose proof (fl_owed _ _ Hfl) as Hp. pose proof (fl_written _ _ Hfl) as Hw.
  assert (forall s p, io_step (state a) (io a) = Some (s, p) ->
    io_event IoStep = true /\ exists a', adapter_step pipe_room IoStep a = Some a' /\ nearer (state a') (io a') (state a) (io a)) as Hstep.
  { intros s p Hs. split; [done|]. exists (set_io p (set_state s a)). cbn [adapter_step]. rewrite Hs. split; [done|]. by eapply io_step_nearer. }
  destruct (io a) as [ | | |port|port|port|n ps port|ps port|port|port|n port|port|er| | ] eqn:Hio; simplify_eq;
    try (by eapply Hstep); try (by destruct (io_step (state a) _) as [[s p]|] eqn:Es; [eapply Hstep|cbn in Es; case_match]).
  - destruct (has_message (state a)) eqn:Em, (wake_pipe (state a)) as [|n] eqn:En; cbn [orb Nat.ltb Nat.leb] in Ho; simplify_eq;
      (split; [done|]); cbn [adapter_step]; rewrite Hio; unfold io_poll; rewrite En; cbn;
      try (assert (bool_decide (writing (state a) = []) = false) as -> by (by unfold has_message in Em; destruct (bool_decide _)));
      cbn; (eexists; split; [done|]); right; (split; [done|]); cbn; rewrite ?En; cbn; lia.
  - split; [done|]. cbn [adapter_step]. rewrite Hio. cbn. eexists. split; [done|]. right. split; [done|]. cbn. case_match; lia.
  - unfold write_left in *. destruct (Nat.eqb_spec (length (writing (state a)) - written (state a)) 0) as [El|El].
    + apply (Hstep (set_written 0 (set_writing [] (state a))) (AtHup port)). cbn [io_step]. rewrite (proj2 (Nat.ltb_ge _ _)) by lia. done.
    + split; [done|]. cbn [adapter_step]. rewrite Hio. unfold write_left. rewrite (proj2 (Nat.eqb_neq _ _) El).
      pose proof (Hpick (length (writing (state a)) - written (state a)) ltac:(lia)) as Hpk. cbv iota.
      rewrite (proj2 (Nat.ltb_ge _ _)) by apply Hpk. cbn.
      destruct (pick _) as [|n]; [lia|]. eexists. split; [done|]. left. unfold debt, write_left, has_message. cbn. lia.
Qed.

(** Left alone with such a port, the thread goes on until it sleeps or is
    gone. *)
Lemma alone_ends P Q a :
  sound P Q a -> exists n, let b := io_alone n a in
    obliging b = None /\ sound P Q b /\ (a = b \/ io_turn a b).
Proof.
  intros Ha. remember (debt (state a)) as d eqn:Ed. remember (distance (state a) (io a)) as k eqn:Ek.
  revert k a Ha Ed Ek. induction d as [d IHd] using lt_wf_ind. intros k. induction k as [k IHk] using lt_wf_ind.
  intros a Ha -> ->. destruct (obliging a) as [e|] eqn:Ho; [|exists 0%nat; auto].
  destruct (alone_step P Q a e Ha Ho) as (He & a' & Hs & Hn).
  assert (sound P Q a') as Ha' by (eapply sound_step; [|done|done]; split; [intros _ l ->|intros m ->]; done).
  pose proof (io_frame e a a' He Hs) as Ht.
  assert (exists n, let b := io_alone n a' in obliging b = None /\ sound P Q b /\ (a' = b \/ io_turn a' b)) as (n & Hn' & Hb & Hab).
  { destruct Hn as [Hn|[Hn1 Hn2]]; [by eapply IHd|by eapply IHk]. }
  exists (S n). cbn. rewrite Ho, Hs. split_and!; [done..|]. right. destruct Hab as [<-|Hab]; [done|].
  destruct Ht, Hab. split; try congruence. auto.
Qed.

(** The thread asleep owes nothing. *)
Lemma asleep_idle a :
  flow max a -> io a = AtPoll -> obliging a = None -> client a <> Waking -> in_hand (state a) = [].
Proof.
  intros Hfl Hio Ho Hc. unfold obliging in Ho. rewrite Hio in Ho. destruct (_ || _) eqn:E; [done|].
  apply orb_false_iff in E as [Em Ew]. apply Nat.ltb_ge in Ew. unfold has_message in Em.
  apply negb_false_iff, bool_decide_eq_true in Em.
  assert (SendQueue.writing_ (outbound (state a)) = false) as Hw.
  { destruct (SendQueue.writing_ _) eqn:Ewr; [|done]. destruct (fl_sleep _ _ Hfl Hio Em Ewr) as [_ [?|?]]; [lia|done]. }
  unfold in_hand. rewrite Em, drop_nil. destruct (SendQueue.waiting_ _) as [m|] eqn:Eq; [|done].
  destruct (fl_waiting _ _ Hfl m Eq). congruence.
Qed.

(** The port has not hung up on what the thread last heard of it. *)
Definition healthy (p : IoPoint) : bool :=
  match p with
  | AtLost _ | AtLeave | Gone => false
  | AtDrain port | AtPort port | AtRead port | AtReadCount _ _ port | AtPost _ port | AtOut port | AtWrite port
  | AtWriteCount _ port | AtHup port => negb (pollhup port)
  | AtTop | AtTake | AtPoll => true
  end.

Lemma healthy_step a e a' :
  stop (state a) = false -> healthy (io a) = true -> obliging a = Some e -> adapter_step pipe_room e a = Some a' ->
  io_event e = true /\ healthy (io a') = true.
Proof.
  intros Hs Hh Ho H. unfold obliging in Ho.
  destruct (io a) as [ | | |port|port|port|n ps port|ps port|port|port|n port|port|er| | ] eqn:Hio; simplify_eq;
    try (destruct (_ || _) in Ho; [|done]); try (destruct (_ =? 0)%nat in H |- * ); simplify_eq; (split; [done|]); cbn [adapter_step] in H;
    rewrite Hio in H; cbn in H; step_cases H; cbn; rewrite ?Hs; try done; repeat case_match; cbn in *; try done; rewrite ?andb_false_r in *; try done.
  - apply Nat.eqb_neq in Heqb. destruct (Hpick (write_left (state a)) ltac:(lia)). lia.
  - bool_to_prop. congruence.
Qed.

Lemma healthy_alone n a :
  stop (state a) = false -> healthy (io a) = true -> healthy (io (io_alone n a)) = true.
Proof.
  revert a. induction n as [|n IH]; intros a Hs Hh; [done|]. cbn.
  destruct (obliging a) as [e|] eqn:Ho; [|done]. destruct (adapter_step pipe_room e a) as [a'|] eqn:H; [|done].
  destruct (healthy_step a e a' Hs Hh Ho H) as [He Hh']. apply IH; [|done]. by rewrite (it_stop _ _ (io_frame _ _ _ He H)).
Qed.
End alone.
End adapter.
