(* ===== verification/SerialPortRuns.v ===== *)
(** * Runs of the serial-port transport

    What SerialPortProperties.v gives of every history of an adapter: the peer
    at the other end of the line receives what was sent, the listener hears what
    the peer sent, closing is final and returns, and nothing accepted is left
    unwritten. *)

From S2P Require Import Prelude Errors StoredZip Transport Base64 SerialFraming SerialPort SerialPortProperties.

(** ** The other end of the line *)

Lemma frames_stream ms : concat (frame_message <$> ms) = concat (item_bytes <$> (FrameItem <$> concat (frames <$> ms))).
Proof.
  induction ms as [|m ms IH]; [done|]. cbn [fmap list_fmap concat]. rewrite !fmap_app, concat_app, <- IH, frame_message_spec.
  f_equal. induction (frames m) as [|f fs IHf]; [done|]. cbn. by rewrite <- IHf.
Qed.

Lemma frames_items ms : omap item_frame (FrameItem <$> concat (frames <$> ms)) = concat (frames <$> ms).
Proof. induction (concat (frames <$> ms)) as [|f fs IH]; [done|]. cbn. by rewrite IH. Qed.

(** A receiver given the first bytes of a stream of messages delivers the first
    of the messages. *)
Lemma stream_prefix mx m ms l :
  (kMaxFrame <= m)%nat -> Forall (sendable mx) ms -> l `prefix_of` concat (frame_message <$> ms) ->
  let '(_, _, out) := foldl rx_byte (new_splitter m, new_deframer mx, []) l in
  out `prefix_of` ms /\ (l = concat (frame_message <$> ms) -> out = ms).
Proof.
  intros Hm Hms [rest Hl].
  destruct (stream_delivered mx m (FrameItem <$> concat (frames <$> ms)) (concat (frames <$> ms)) ms (new_splitter m) (new_deframer mx) [])
    as (s & d & Hall & _); [done| |apply frames_items|by apply awaiting_packets|done|].
  { apply Forall_forall. by intros i (f & -> & _)%list_elem_of_fmap. }
  rewrite <- frames_stream in Hall. destruct (foldl rx_byte (new_splitter m, new_deframer mx, []) l) as [[s1 d1] out] eqn:E. split.
  - rewrite Hl, foldl_app, E, rx_bytes_out in Hall. destruct (foldl rx_byte (s1, d1, []) rest) as [[s2 d2] more].
    injection Hall as _ _ <-. by exists more.
  - intros ->. rewrite E in Hall. by injection Hall as _ _ ->.
Qed.

(** What a run sends is bytes. *)
Definition sends_bytes (e : Event) : Prop := match e with Send m => byte_list m | _ => True end.

(** C27. The serial link delivers what [send] accepted. Whatever the
    application, the two threads and the port do, and in whatever order, the
    bytes that went to the port are the first bytes of the messages accepted,
    framed one after the other: no message is torn, interleaved, reordered or
    repeated. A receiver at the other end that reads them in pieces of any size
    delivers the first of those messages, and all of them when nothing is in
    hand and nothing was discarded by a close. *)
Theorem peer_receives_accepted (pipe_room max mx m : nat) (es : list Event) (a : Adapter) (chunks : list bytes) :
  (0 < pipe_room)%nat -> (max <= kMaxSerialPacket)%nat -> (max + 2 <= mx)%nat -> (kMaxFrame <= m)%nat ->
  Forall sends_bytes es -> run_adapter pipe_room es (opened max) = Some a -> concat chunks = to_port a ->
  to_port a `prefix_of` concat (frame_message <$> accepted a) /\
  let '(delivered, _, _) := receive_all chunks (new_splitter m) (new_deframer mx) [] in
  delivered `prefix_of` accepted a /\
  (undiscarded a -> in_hand (state a) = [] -> delivered = accepted a).
Proof.
  intros Hroom Hmax Hmx Hm Hes Hrun Hch. set (Q := sendable mx).
  assert (sound max False Q a) as Ha.
  { eapply (sound_run pipe_room max Hroom Hmax False Q es); [|apply opened_sound|done].
    eapply Forall_impl; [exact Hes|]. intros e He. split; [done|]. intros msg -> Hne Hlen. cbn in He.
    split; [done|by destruct msg; [|simpl; lia]|lia|lia]. }
  destruct (so_flow _ _ _ _ Ha) as [_ _ _ _ _ (rest & Ho & Hrest) _ _].
  assert (to_port a `prefix_of` concat (frame_message <$> accepted a)) as Hpre by (by exists (in_hand (state a) ++ rest)).
  split; [done|]. rewrite receive_all_bytes, Hch.
  pose proof (stream_prefix mx m (accepted a) (to_port a) Hm (proj1 (so_accepts _ _ _ _ Ha)) Hpre) as Hs.
  destruct (foldl rx_byte _ (to_port a)) as [[s d] out]. destruct Hs as [Hs1 Hs2]. split; [done|].
  intros Hu Hi. apply Hs2. by rewrite Ho, Hi, (Hrest Hu), !app_nil_r.
Qed.

Definition no_relisten (e : Event) : Prop := match e with SetListener _ => False | _ => True end.

(** C28. The listener hears what the peer sent. Let a listener stay set, and let
    the port have given any stretch of console traffic that carries the frames
    of some messages: what the listener was given is the first of those messages,
    in order, each once, and it is all of them when the link is open and nothing
    is left to post or to run. *)
Theorem listener_hears_peer (pipe_room max l : nat) (es : list Event) (a : Adapter) (ps : list bytes) (items : list item) :
  (0 < pipe_room)%nat -> (max <= kMaxSerialPacket)%nat -> Forall no_relisten es ->
  run_adapter pipe_room es (listening max l) = Some a -> from_port a = concat (item_bytes <$> items) ->
  Forall (sendable kMaxAssemblyBuffer) ps -> omap item_frame items = concat (frames <$> ps) -> Forall (item_ok kMaxFrame) items ->
  omap packet_heard (heard a) `prefix_of` ps /\
  (LinkState.phase_ (link (state a)) = LinkState.Open -> inbound (state a) = [] -> posting (io a) = [] ->
   omap packet_heard (heard a) = ps).
Proof.
  intros Hroom Hmax Hes Hrun Hfrom Hps Hfr Hit.
  assert (sound max True (fun _ => True) a) as Ha.
  { eapply (sound_run pipe_room max Hroom Hmax True (fun _ => True) es); [|apply listening_sound|done].
    eapply Forall_impl; [exact Hes|]. intros e He. split; [|done]. by intros _ l' ->. }
  destruct (so_inflow _ _ _ _ Ha) as (h & Hr & _ & Hpre & Hex).
  destruct (stream_delivered kMaxAssemblyBuffer kMaxFrame items (concat (frames <$> ps)) ps (new_splitter kMaxFrame)
    (new_deframer kMaxAssemblyBuffer) [] (le_n _) Hit Hfr (awaiting_packets _ ps (new_deframer kMaxAssemblyBuffer) Hps eq_refl)) as (s & d & Hall & _); [done|].
  unfold received in Hr. rewrite Hfrom, Hall in Hr. cbn [app] in Hr. injection Hr as _ _ ->. split.
  - apply prefix_app_r. by apply Hpre.
  - intros Ho Hi Hp. rewrite Hi, Hp. cbn. rewrite app_nil_r. by apply Hex.
Qed.

(** C29. Closing is final. From the moment [close] (or the loss of the link)
    begins, the listener is given no packet; it is told of the disconnection at
    most once, and nothing after that. Once closed, nothing more is heard, read
    or written, whatever was queued and whatever is called; and the descriptors
    are closed only with the I/O thread gone. *)
Theorem port_close_is_final (pipe_room max : nat) (es1 es2 : list Event) (a b : Adapter) :
  (0 < pipe_room)%nat -> (max <= kMaxSerialPacket)%nat ->
  run_adapter pipe_room es1 (opened max) = Some a -> LinkState.phase_ (link (state a)) <> LinkState.Open ->
  run_adapter pipe_room es2 a = Some b ->
  LinkState.phase_ (link (state b)) <> LinkState.Open /\
  (heard b = heard a \/ exists l e, heard b = heard a ++ [OnDisconnected l e]) /\
  (LinkState.phase_ (link (state a)) = LinkState.Closed ->
   heard b = heard a /\ to_port b = to_port a /\ from_port b = from_port a) /\
  (port_open (state b) = false -> io b = Gone) /\
  exists packets last, heard b = packets ++ last /\ Forall is_bytes packets /\
    (last = [] \/ exists l e, last = [OnDisconnected l e]).
Proof.
  intros Hroom Hmax H1 Hn H2.
  assert (forall es a0 b, sound max False (fun _ => True) a0 -> run_adapter pipe_room es a0 = Some b -> sound max False (fun _ => True) b) as Hs
    by (intros; eapply sound_run; eauto using tame_any).
  pose proof (Hs es1 _ a (opened_sound max _) H1) as Ha.
  assert (lead a b \/ a = b) as Hlead.
  { clear H1. revert a Hn Ha H2. induction es2 as [|e es2 IH]; intros a Hn Ha H; [injection H as <-; by right|].
    cbn [run_adapter mbind option_bind] in H. destruct (adapter_step pipe_room e a) as [a1|] eqn:E; [|done].
    pose proof (lead_step pipe_room e a a1 (so_phase _ _ _ _ Ha) Hn E) as Hl. left.
    destruct (IH a1) as [Hl'|<-]; [apply Hl|by apply (Hs [e] a); [|cbn; rewrite E]|done|by eapply lead_trans|done]. }
  pose proof (Hs es2 a b Ha H2) as [Hph _ _ Hto _]. unfold lead in Hlead.
  assert (LinkState.phase_ (link (state b)) <> LinkState.Open) as Hnb by (by destruct Hlead as [[? _]|<-]).
  split_and!; [done| | | |].
  - destruct Hlead as [(_ & _ & _ & _ & _ & ?)|<-]; auto.
  - destruct Hlead as [(_ & _ & H3 & _ & H5 & _)|<-]; auto.
  - unfold in_phase in Hph. destruct (LinkState.phase_ (link (state b))); [done| |by destruct Hph as (_ & _ & _ & ? & _)].
    destruct (client b); try done. destruct Hph as (_ & -> & _). done.
  - unfold told in Hto. destruct (LinkState.phase_ (link (state b))); [done| |done]. exists (heard b), []. rewrite app_nil_r. auto.
Qed.

Lemma alone_keeps pipe_room pick (I : Adapter -> Prop) n a :
  (forall e a a', I a -> adapter_step pipe_room e a = Some a' -> I a') -> I a -> I (io_alone pipe_room pick n a).
Proof.
  intros Hs. revert a. induction n as [|n IH]; intros a Ha; [done|]. cbn.
  destruct (obliging pick a) as [e|]; [|done]. destruct (adapter_step pipe_room e a) eqn:E; [|done]. eauto.
Qed.

(** C30. What was accepted is written. At any moment of any history at which the
    link is open, the port has not hung up and the application is not inside a
    call, the I/O thread needs nothing but the port to finish: over any port that
    takes something of each write, it goes on until every accepted message is on
    the port, whole and in order, and only then sleeps. No wake-up is lost,
    whichever way [send] and the thread raced before. *)
Theorem accepted_is_written (pipe_room max : nat) (pick : nat -> nat) (es : list Event) (a : Adapter) :
  (0 < pipe_room)%nat -> (max <= kMaxSerialPacket)%nat -> (forall n, (0 < n)%nat -> (0 < pick n <= n)%nat) ->
  run_adapter pipe_room es (opened max) = Some a ->
  LinkState.phase_ (link (state a)) = LinkState.Open -> client a = Outside -> healthy (io a) = true ->
  exists n, let b := io_alone pipe_room pick n a in
    obliging pick b = None /\ io b = AtPoll /\ to_port b = concat (frame_message <$> accepted a).
Proof.
  intros Hroom Hmax Hpick Hrun Hopen Hc Hh.
  assert (sound max False (fun _ => True) a) as Ha by (eapply sound_run; eauto using tame_any, opened_sound).
  assert (stop (state a) = false) as Hstop.
  { pose proof (so_phase _ _ _ _ Ha) as Hph. unfold in_phase in Hph. rewrite Hopen in Hph. tauto. }
  destruct (alone_ends pipe_room max Hroom Hmax pick Hpick False (fun _ => True) a Ha) as (n & Hn & Hb & Hab).
  exists n. set (b := io_alone pipe_room pick n a) in *. cbv zeta.
  assert (healthy (io b) = true) as Hhb by (by eapply healthy_alone).
  assert (client b = client a /\ accepted b = accepted a /\ link (state b) = link (state a)) as (Ecl & Eacc & El)
    by (destruct Hab as [<-|[]]; done).
  assert (io b = AtPoll) as Hio by (unfold obliging in Hn; destruct (io b); try done; by destruct (_ =? 0)%nat).
  split; [done|]. split; [done|].
  pose proof (asleep_idle pipe_room max Hroom Hmax pick b (so_flow _ _ _ _ Hb) Hio Hn ltac:(congruence)) as Hi.
  destruct (fl_order _ _ (so_flow _ _ _ _ Hb)) as (rest & Ho & Hrest). rewrite <- Eacc, Ho, Hi, Hrest, !app_nil_r; [done|].
  left. by rewrite El.
Qed.


(** ** Sample histories *)

(** A message sent, its wake-up drained, and most of it written. *)
Definition send_it (m : bytes) : list Event := [Send m; ClientStep; ClientStep].
Definition writable : Revents := mkRevents false true false.
Definition readable : Revents := mkRevents true false false.

Definition sample_sending : list Event :=
  send_it [1; 2; 3] ++ [IoStep; IoStep; IoPoll (Ready writable); IoStep; IoStep; IoStep; IoStep; IoWrite (Put 5); IoStep].

(** A second message waits, and the first is finished. *)
Definition sample_sent : list Event :=
  sample_sending ++ [Send [4; 5]; ClientStep; IoWrite (WriteFailed EINTR); IoWrite (Put 10); IoStep; IoStep; IoStep].

(** A packet read in the middle of a line of log, posted and heard. *)
Definition sample_reading : list Event :=
  [IoStep; IoStep; IoPoll (Ready readable); IoStep; IoRead (Got ([104; 105; 10] ++ concat (frames [1; 2; 3])));
   IoStep; IoStep; IoStep; RunPosted; IoRead (ReadFailed EAGAIN)].

(** A close that waits for a thread in [poll]. *)
Definition sample_closing : list Event :=
  [IoStep; IoStep; Close; ClientStep; ClientStep; ClientStep].

Definition take_half (n : nat) : nat := n - n / 2.

Lemma take_half_ok n : (0 < n)%nat -> (0 < take_half n <= n)%nat.
Proof. intros Hn. unfold take_half. pose proof (Nat.div_mod n 2 ltac:(lia)). pose proof (Nat.mod_upper_bound n 2 ltac:(lia)). lia. Qed.

Lemma small_max : (256 <= kMaxSerialPacket)%nat.
Proof. apply Nat.leb_le. by vm_compute. Qed.

(** Close a hypothesis about the state a sample history ends in. *)
Ltac at_end E := vm_compute in E; injection E as <-; vm_compute; done.

Lemma peer_receives_accepted_witness :
  match run_adapter 4 sample_sending (opened 256) with
  | Some a =>
      to_port a `prefix_of` concat (frame_message <$> accepted a) /\
      let '(delivered, _, _) := receive_all [to_port a] (new_splitter kMaxFrame) (new_deframer 1000) [] in
      delivered `prefix_of` accepted a /\ (undiscarded a -> in_hand (state a) = [] -> delivered = accepted a)
  | None => False
  end.
Proof.
  destruct (run_adapter _ _ _) as [a|] eqn:E; [|by vm_compute in E].
  apply (peer_receives_accepted 4 256 1000 kMaxFrame sample_sending); [lia|exact small_max|lia|lia| |exact E|apply app_nil_r].
  repeat constructor; done.
Defined.

(** In that history the port has part of a frame, and later all of it. *)
Example sample_torn :
  match run_adapter 4 sample_sending (opened 256), run_adapter 4 sample_sent (opened 256) with
  | Some a, Some b => length (to_port a) = 5%nat /\ to_port b = frame_message [1; 2; 3] /\ accepted b = [[1; 2; 3]; [4; 5]]
  | _, _ => False
  end.
Proof. vm_compute. done. Qed.

Lemma listener_hears_peer_witness :
  match run_adapter 4 sample_reading (listening 256 7) with
  | Some a =>
      omap packet_heard (heard a) `prefix_of` [[1; 2; 3]] /\
      (LinkState.phase_ (link (state a)) = LinkState.Open -> inbound (state a) = [] -> posting (io a) = [] ->
       omap packet_heard (heard a) = [[1; 2; 3]])
  | None => False
  end.
Proof.
  destruct (run_adapter _ _ _) as [a|] eqn:E; [|by vm_compute in E].
  apply (listener_hears_peer 4 256 7 sample_reading a [[1; 2; 3]] (NoiseItem [104; 105] :: (FrameItem <$> frames [1; 2; 3])));
    [lia|exact small_max|by repeat constructor|exact E|by at_end E| |by vm_compute|].
  - constructor; [|constructor]. apply sendable_small; [repeat constructor; unfold fits; lia|simpl; lia|].
    apply Nat.leb_le. by vm_compute.
  - constructor; [split; [repeat constructor; discriminate|right; split; discriminate]|]. apply Forall_forall.
    by intros i (f & -> & _)%list_elem_of_fmap.
Defined.

Example sample_heard :
  heard <$> run_adapter 4 sample_reading (listening 256 7) = Some [OnBytes 7 [1; 2; 3]].
Proof. by vm_compute. Qed.

Lemma port_close_is_final_witness :
  match run_adapter 4 sample_closing (opened 256) with
  | Some a =>
      match run_adapter 4 [IoPoll (Ready (mkRevents false false false)); IoStep; IoStep; IoStep] a with
      | Some b =>
          LinkState.phase_ (link (state b)) <> LinkState.Open /\
          (heard b = heard a \/ exists l e, heard b = heard a ++ [OnDisconnected l e])
      | None => False
      end
  | None => False
  end.
Proof.
  destruct (run_adapter 4 sample_closing _) as [a|] eqn:E; [|by vm_compute in E].
  destruct (run_adapter _ _ a) as [b|] eqn:E2; [|by vm_compute in E; injection E as <-; vm_compute in E2].
  destruct (port_close_is_final 4 256 sample_closing [IoPoll (Ready (mkRevents false false false)); IoStep; IoStep; IoStep] a b)
    as (H1 & H2 & _); [lia|exact small_max|exact E|at_end E|exact E2|done].
Defined.

Lemma accepted_is_written_witness :
  match run_adapter 4 sample_sent (opened 256) with
  | Some a =>
      exists n, let b := io_alone 4 take_half n a in
        obliging take_half b = None /\ io b = AtPoll /\ to_port b = concat (frame_message <$> accepted a)
  | None => False
  end.
Proof.
  destruct (run_adapter _ _ _) as [a|] eqn:E; [|by vm_compute in E].
  apply (accepted_is_written 4 256 take_half sample_sent); [lia|exact small_max|exact take_half_ok|exact E|at_end E..].
Defined.

