(* ===== verification/SerialPortOpen.v ===== *)
(** * Opening a serial port

    The opening half of [transports/serial_port/posix/serial_port_posix.cpp]:
    the wake-up pipe, the port and its line settings, and the release of what
    was opened when a step fails. The system is a parameter: what it answers to
    a call, given every call so far. *)

From S2P Require Import Prelude Errors StoredZip SerialPort.

(** ** The system *)

(** The line settings the code touches: the control modes, [VMIN] and [VTIME],
    and the rate. *)
Record Termios := mkTermios {
  c_cflag : Z;
  vmin : Z;
  vtime : Z;
  speed : option Z
}.

(** Linux's control mode bits and rates. *)
Definition CSIZE : Z := 48.
Definition CS8 : Z := 48.
Definition CSTOPB : Z := 64.
Definition CREAD : Z := 128.
Definition PARENB : Z := 256.
Definition CLOCAL : Z := 2048.
Definition CRTSCTS : Z := 2147483648.

(** [posix::speed_for_baud]. *)
Definition speed_for_baud (b : Z) : option Z :=
  if b =? 1200 then Some 9
  else if b =? 2400 then Some 11
  else if b =? 4800 then Some 12
  else if b =? 9600 then Some 13
  else if b =? 19200 then Some 14
  else if b =? 38400 then Some 15
  else if b =? 57600 then Some 4097
  else if b =? 115200 then Some 4098
  else if b =? 230400 then Some 4099
  else if b =? 460800 then Some 4100
  else if b =? 921600 then Some 4103
  else if b =? 1000000 then Some 4104
  else None.

(** The calls the code makes. [K_nonblock] and [K_cloexec] are the two [fcntl]s,
    [K_exclusive] and [K_shared] the two [ioctl]s. *)
Inductive Call :=
| K_pipe
| K_nonblock (fd : Z)
| K_cloexec (fd : Z)
| K_open (path : string)
| K_tcgetattr (fd : Z)
| K_cfsetispeed (s : Z)
| K_cfsetospeed (s : Z)
| K_tcsetattr (fd : Z) (settings : Termios)
| K_exclusive (fd : Z)
| K_shared (fd : Z)
| K_tcflush (fd : Z)
| K_wake (fd : Z)
| K_close (fd : Z).

(** What a call gives back: its value, [errno] after it, and what it wrote
    through its pointer. *)
Record Reply := mkReply {
  value : Z;
  errno : Z;
  ends : Z * Z;
  settings_read : Termios
}.

(** The descriptors of [State], with the calls made so far. *)
Record Opening := mkOpening {
  fd : Z;
  wake_read : Z;
  wake_write : Z;
  calls : list Call
}.

Definition nothing_open : Opening := mkOpening (-1) (-1) (-1) [].

Section open.
Context (os : list Call -> Reply) (cfmakeraw : Termios -> Termios).

Definition call (c : Call) (o : Opening) : Reply * Opening :=
  let made := calls o ++ [c] in (os made, mkOpening (fd o) (wake_read o) (wake_write o) made).

(** [open_wake_pipe]: the loop over the two ends, for one. *)
Definition configure_end (e : Z) (o : Opening) : bool * Opening :=
  let '(r, o) := call (K_nonblock e) o in
  if negb (value r =? 0) then (false, o)
  else let '(r, o) := call (K_cloexec e) o in (value r =? 0, o).

Definition open_wake_pipe (o : Opening) : Result unit * Opening :=
  let '(r, o) := call K_pipe o in
  if negb (value r =? 0) then (fail TransportError "serial_port: cannot create the wake-up pipe", o)
  else
    let o := mkOpening (fd o) (ends r).1 (ends r).2 (calls o) in
    let cannot := fail TransportError "serial_port: cannot configure the pipe" in
    let '(ok, o) := configure_end (wake_read o) o in
    if negb ok then (cannot, o)
    else let '(ok, o) := configure_end (wake_write o) o in (if ok then Success tt else cannot, o).

(** The settings [open_port] asks for: 8N1, with hardware flow control where it
    was asked for, and reads that wait for a byte. *)
Definition line_settings (flow : FlowControl) (t : Termios) : Termios :=
  let t := cfmakeraw t in
  let c := Z.land (c_cflag t) (Z.lnot (Z.lor (Z.lor CSIZE PARENB) CSTOPB)) in
  let c := Z.lor c (Z.lor (Z.lor CS8 CLOCAL) CREAD) in
  let c := Z.land c (Z.lnot CRTSCTS) in
  let c := if bool_decide (flow = RtsCts) then Z.lor c CRTSCTS else c in
  mkTermios c 1 0 (speed t).

(** [open_port]. *)
Definition open_port (config : SerialPortConfig) (o : Opening) : Result unit * Opening :=
  let cannot_set := fail InvalidArgument "serial_port: this platform cannot set that rate" in
  match speed_for_baud (baud config) with
  | None => (cannot_set, o)
  | Some rate =>
      let '(r, o) := call (K_open (path config)) o in
      let o := mkOpening (value r) (wake_read o) (wake_write o) (calls o) in
      if fd o <? 0 then (Fail (error_from_errno (errno r) "serial_port: cannot open the port"), o)
      else
        let '(r, o) := call (K_tcgetattr (fd o)) o in
        if negb (value r =? 0) then (Fail (error_from_errno (errno r) "serial_port: not a serial port"), o)
        else
          let settings := line_settings (flow config) (settings_read r) in
          let '(r, o) := call (K_cfsetispeed rate) o in
          if negb (value r =? 0) then (cannot_set, o)
          else
            let '(r, o) := call (K_cfsetospeed rate) o in
            if negb (value r =? 0) then (cannot_set, o)
            else
              let settings := mkTermios (c_cflag settings) (vmin settings) (vtime settings) (Some rate) in
              let '(r, o) := call (K_tcsetattr (fd o) settings) o in
              if negb (value r =? 0) then (Fail (error_from_errno (errno r) "serial_port: cannot configure the port"), o)
              else
                let '(_, o) := call (K_exclusive (fd o)) o in
                let '(_, o) := call (K_tcflush (fd o)) o in
                (Success tt, o)
  end.

(** [close_fd]. *)
Definition close_fd (d : Z) (o : Opening) : Opening := if 0 <=? d then (call (K_close d) o).2 else o.

(** [shutdown] of a link without a thread: the calls it makes. *)
Definition release (o : Opening) : Opening :=
  let o := if 0 <=? wake_write o then (call (K_wake (wake_write o)) o).2 else o in
  let o := if 0 <=? fd o then (call (K_shared (fd o)) o).2 else o in
  let o := close_fd (fd o) o in
  let o := close_fd (wake_read o) o in
  let o := close_fd (wake_write o) o in
  mkOpening (-1) (-1) (-1) (calls o).

(** [SerialPortTransport::open], up to the thread. *)
Definition open_transport (config : SerialPortConfig) : Result unit * Opening :=
  match validate_port config with
  | Fail e => (Fail e, nothing_open)
  | Success _ =>
      let '(opened, o) := open_wake_pipe nothing_open in
      let '(opened, o) :=
        match opened with Success _ => open_port config o | Fail e => (Fail e, o) end in
      match opened with
      | Fail e => (Fail e, release o)
      | Success _ => (Success tt, o)
      end
  end.

(** ** What was opened, and what was closed *)

Definition grants (c : Call) (r : Reply) : list Z :=
  match c with
  | K_pipe => if value r =? 0 then [(ends r).1; (ends r).2] else []
  | K_open _ => if 0 <=? value r then [value r] else []
  | _ => []
  end.

(** The descriptors the system gave out, in order. *)
Fixpoint granted (before made : list Call) : list Z :=
  match made with
  | [] => []
  | c :: made => let before := before ++ [c] in grants c (os before) ++ granted before made
  end.

Definition closes (c : Call) : option Z := match c with K_close d => Some d | _ => None end.

(** The settings the port was given last. *)
Definition configured (made : list Call) : option (Z * Termios) :=
  last (omap (fun c => match c with K_tcsetattr d t => Some (d, t) | _ => None end) made).

(** The system keeps its word: a pipe has two descriptors. *)
Definition pipes_are_open : Prop :=
  forall l, value (os (l ++ [K_pipe])) = 0 -> 0 <= (ends (os (l ++ [K_pipe]))).1 /\ 0 <= (ends (os (l ++ [K_pipe]))).2.
End open.

(** ** Properties *)

(** 8 data bits, no parity, one stop bit, receiving, flow control as asked for,
    and a read that returns with one byte at least. *)
Record raw_8n1 (flow : FlowControl) (t : Termios) : Prop := {
  rw_bits : Z.land (c_cflag t) CSIZE = CS8;
  rw_parity : Z.land (c_cflag t) PARENB = 0;
  rw_stop : Z.land (c_cflag t) CSTOPB = 0;
  rw_local : Z.land (c_cflag t) CLOCAL = CLOCAL;
  rw_read : Z.land (c_cflag t) CREAD = CREAD;
  rw_flow : Z.land (c_cflag t) CRTSCTS = if bool_decide (flow = RtsCts) then CRTSCTS else 0;
  rw_waits : vmin t = 1 /\ vtime t = 0
}.

(** A mask of a word whose bits were set and cleared, by the masks alone. *)
Lemma masked x clear set clear' mask :
  Z.land (Z.land (Z.lor (Z.land x clear) set) clear') mask =
    Z.lor (Z.land x (Z.land clear (Z.land clear' mask))) (Z.land set (Z.land clear' mask)).
Proof. by rewrite <- Z.land_assoc, Z.land_lor_distr_l, <- !Z.land_assoc. Qed.

Lemma lor_land_absorbed x m : Z.lor (Z.land x m) m = m.
Proof. apply Z.bits_inj'. intros i _. rewrite Z.lor_spec, Z.land_spec. by destruct (Z.testbit x i), (Z.testbit m i). Qed.

Lemma line_settings_8n1 cfmakeraw flow t rate :
  let s := line_settings cfmakeraw flow t in
  raw_8n1 flow (mkTermios (c_cflag s) (vmin s) (vtime s) rate).
Proof.
  set (x := c_cflag (cfmakeraw t)).
  assert (forall mask, Z.land (c_cflag (line_settings cfmakeraw flow t)) mask =
    Z.lor (Z.lor (Z.land x (Z.land (Z.lnot (Z.lor (Z.lor CSIZE PARENB) CSTOPB)) (Z.land (Z.lnot CRTSCTS) mask)))
             (Z.land (Z.lor (Z.lor CS8 CLOCAL) CREAD) (Z.land (Z.lnot CRTSCTS) mask)))
      (if bool_decide (flow = RtsCts) then Z.land CRTSCTS mask else 0)) as Hm.
  { intros mask. unfold line_settings. cbn. case_bool_decide; [rewrite Z.land_lor_distr_l|rewrite Z.lor_0_r]; by rewrite masked. }
  clearbody x. cbv zeta. split; cbn [c_cflag vmin vtime]; try rewrite Hm; try done.
  all: case_bool_decide;
    repeat match goal with |- context [Z.land ?a ?b] =>
      tryif is_var a then fail else (let v := eval vm_compute in (Z.land a b) in change (Z.land a b) with v) end.
  all: rewrite ?Z.land_0_r, ?Z.lor_0_r, ?lor_land_absorbed; done.
Qed.

Section leaks.
Context (os : list Call -> Reply) (cfmakeraw : Termios -> Termios).

Lemma granted_snoc before made c :
  granted os before (made ++ [c]) = granted os before made ++ grants c (os (before ++ made ++ [c])).
Proof.
  revert before. induction made as [|c' made IH]; intros before; cbn; [by rewrite app_nil_r|].
  by rewrite IH, <- !app_assoc.
Qed.

(** The descriptors the adapter holds. *)
Definition held (o : Opening) : list Z := List.filter (fun d => 0 <=? d) [wake_read o; wake_write o; fd o].

(** Nothing closed so far, and everything granted held. *)
Definition tidy (o : Opening) : Prop := granted os [] (calls o) = held o /\ omap closes (calls o) = [].

(** A call that opens and closes nothing. *)
Definition harmless (c : Call) : Prop := match c with K_pipe | K_open _ | K_close _ => False | _ => True end.

Lemma call_spec c o r o' :
  harmless c -> call os c o = (r, o') ->
  calls o' = calls o ++ [c] /\ fd o' = fd o /\ wake_read o' = wake_read o /\ wake_write o' = wake_write o /\
  (tidy o -> tidy o').
Proof.
  intros Hc. unfold call. intros [= <- <-]. cbn. split_and!; try done. intros [Hg Hcl]. unfold tidy. cbn.
  rewrite granted_snoc, omap_app, Hg, Hcl. by destruct c; rewrite ?app_nil_r.
Qed.

Lemma configure_end_spec e o ok o' :
  configure_end os e o = (ok, o') ->
  fd o' = fd o /\ wake_read o' = wake_read o /\ wake_write o' = wake_write o /\ (tidy o -> tidy o').
Proof.
  unfold configure_end. destruct (call os (K_nonblock e) o) as [r o1] eqn:E1. apply call_spec in E1 as (_ & ? & ? & ? & ?); [|done].
  destruct (negb _); [intros [= <- <-]; done|]. destruct (call os (K_cloexec e) o1) as [r2 o2] eqn:E2.
  apply call_spec in E2 as (_ & ? & ? & ? & ?); [|done]. intros [= <- <-]. split_and!; try congruence. auto.
Qed.

#[local] Arguments configure_end : simpl never.

Lemma nonneg_leb z : 0 <= z -> (0 <=? z) = true.
Proof. apply Z.leb_le. Qed.

Lemma open_wake_pipe_spec r o :
  pipes_are_open os -> open_wake_pipe os nothing_open = (r, o) ->
  tidy o /\ fd o = -1 /\ (r = Success tt -> 0 <= wake_read o /\ 0 <= wake_write o).
Proof.
  intros Hos. unfold open_wake_pipe. destruct (call os K_pipe nothing_open) as [a o1] eqn:E1. injection E1 as <- <-.
  pose proof (Hos []) as Hp. cbn [app] in Hp. cbn. destruct (Z.eqb_spec (value (os [K_pipe])) 0) as [E|E]; cbn.
  2: { intros [= <- <-]. split; [|done]. split; [|done]. cbn. by rewrite (proj2 (Z.eqb_neq _ _) E). }
  destruct (Hp E) as [H1 H2]. set (o1 := mkOpening (-1) (ends (os [K_pipe])).1 (ends (os [K_pipe])).2 [K_pipe]).
  assert (tidy o1) as Ht by (split; [cbn; by rewrite E, !nonneg_leb|done]).
  destruct (configure_end os _ o1) as [ok o2] eqn:E2. apply configure_end_spec in E2 as (Hf & Hr & Hw & Ht2).
  destruct ok; cbn; [|intros [= <- <-]; split; [by apply Ht2|]; by split].
  destruct (configure_end os _ o2) as [ok o3] eqn:E3. apply configure_end_spec in E3 as (Hf3 & Hr3 & Hw3 & Ht3).
  intros [= <- <-]. split; [by apply Ht3, Ht2|]. split; [by rewrite Hf3, Hf|]. intros _. by rewrite Hr3, Hw3, Hr, Hw.
Qed.

(** [open_port] on top of the pipe. *)
Lemma open_port_spec config o r o' :
  tidy o -> fd o = -1 -> 0 <= wake_read o -> 0 <= wake_write o -> open_port os cfmakeraw config o = (r, o') ->
  tidy o' /\
  (r = Success tt -> held o' = [wake_read o'; wake_write o'; fd o'] /\
   exists t, configured (calls o') = Some (fd o', t) /\ raw_8n1 (flow config) t /\ speed t = speed_for_baud (baud config)).
Proof.
  intros Ht Hfd Hr Hw. unfold open_port. destruct (speed_for_baud (baud config)) as [rate|] eqn:Erate; [|by intros [= <- <-]].
  destruct (call os (K_open (path config)) o) as [a o1] eqn:E1. injection E1 as <- <-. cbn [fd wake_read wake_write calls].
  set (a := os (calls o ++ [K_open (path config)])).
  set (o1 := mkOpening (value a) (wake_read o) (wake_write o) (calls o ++ [K_open (path config)])).
  assert (tidy o1 /\ (0 <= value a -> held o1 = [wake_read o; wake_write o; value a])) as [Ht1 Hh1].
  { destruct Ht as [Hg Hcl]. unfold tidy, held in *. cbn in *. rewrite Hfd in Hg. rewrite granted_snoc, omap_app, Hg, Hcl. cbn. fold a.
    rewrite !nonneg_leb by done. cbn. destruct (Z.leb_spec 0 (value a)); (split; [done|]); intros; [done|lia]. }
  destruct (Z.ltb_spec (value a) 0); [by intros [= <- <-]|]. specialize (Hh1 ltac:(done)).
  destruct (call os (K_tcgetattr _) o1) as [r2 o2] eqn:E2. apply call_spec in E2 as (_ & Hf2 & Hr2 & Hw2 & Ht2); [|done].
  destruct (negb _); [intros [= <- <-]; split; [by auto 10|done]|].
  destruct (call os (K_cfsetispeed rate) o2) as [r3 o3] eqn:E3. apply call_spec in E3 as (_ & Hf3 & Hr3 & Hw3 & Ht3); [|done].
  destruct (negb _); [intros [= <- <-]; split; [by auto 10|done]|].
  destruct (call os (K_cfsetospeed rate) o3) as [r4 o4] eqn:E4. apply call_spec in E4 as (_ & Hf4 & Hr4 & Hw4 & Ht4); [|done].
  destruct (negb _); [intros [= <- <-]; split; [by auto 10|done]|].
  set (t := mkTermios _ _ _ (Some rate)).
  destruct (call os (K_tcsetattr (fd o4) t) o4) as [r5 o5] eqn:E5. apply call_spec in E5 as (Hc5 & Hf5 & Hr5 & Hw5 & Ht5); [|done].
  destruct (negb _); [intros [= <- <-]; split; [by auto 10|done]|].
  destruct (call os (K_exclusive (fd o5)) o5) as [r6 o6] eqn:E6. apply call_spec in E6 as (Hc6 & Hf6 & Hr6 & Hw6 & Ht6); [|done].
  destruct (call os (K_tcflush (fd o6)) o6) as [r7 o7] eqn:E7. apply call_spec in E7 as (Hc7 & Hf7 & Hr7 & Hw7 & Ht7); [|done].
  intros [= <- <-]. split; [auto 10|]. intros _. split.
  - assert (forall x y, fd x = fd y -> wake_read x = wake_read y -> wake_write x = wake_write y -> held x = held y) as Hsame
      by (intros x y Ea Eb Ec; unfold held; by rewrite Ea, Eb, Ec).
    change (held o1 = [wake_read o1; wake_write o1; fd o1]) in Hh1. clearbody o1. rewrite (Hsame o7 o1), Hh1 by congruence.
    by rewrite Hr7, Hr6, Hr5, Hr4, Hr3, Hr2, Hw7, Hw6, Hw5, Hw4, Hw3, Hw2, Hf7, Hf6, Hf5, Hf4, Hf3, Hf2.
  - exists t. split_and!; [|apply line_settings_8n1|done]. rewrite Hc7, Hc6, Hc5. unfold configured.
    rewrite !omap_app. cbn. rewrite !app_nil_r, last_snoc. do 2 f_equal. congruence.
Qed.

(** [shutdown] closes what is held. *)
Lemma release_spec o : tidy o -> granted os [] (calls (release os o)) ≡ₚ omap closes (calls (release os o)).
Proof.
  intros [Hg Hcl]. unfold release.
  assert (forall c o, harmless c -> let o' := (call os c o).2 in
    fd o' = fd o /\ wake_read o' = wake_read o /\ wake_write o' = wake_write o /\ granted os [] (calls o') = granted os [] (calls o) /\
    omap closes (calls o') = omap closes (calls o)) as Hq.
  { intros c o0 Hc. cbn. split_and!; try done; [rewrite granted_snoc|rewrite omap_app]; destruct c; cbn; by rewrite ?app_nil_r. }
  assert (forall d o, let o' := close_fd os d o in
    fd o' = fd o /\ wake_read o' = wake_read o /\ wake_write o' = wake_write o /\ granted os [] (calls o') = granted os [] (calls o) /\
    omap closes (calls o') = omap closes (calls o) ++ List.filter (fun d => 0 <=? d) [d]) as Hc.
  { intros d o0. unfold close_fd. cbn. destruct (0 <=? d); cbn; [|by rewrite app_nil_r].
    rewrite granted_snoc, omap_app. cbn. by rewrite app_nil_r. }
  set (o1 := if 0 <=? wake_write o then _ else o).
  assert (fd o1 = fd o /\ wake_read o1 = wake_read o /\ wake_write o1 = wake_write o /\ granted os [] (calls o1) = held o /\
    omap closes (calls o1) = []) as (F1 & R1 & W1 & G1 & C1).
  { subst o1. destruct (0 <=? wake_write o); [|by split_and!]. destruct (Hq (K_wake (wake_write o)) o I) as (? & ? & ? & -> & ->). by split_and!. }
  clearbody o1. set (o2 := if 0 <=? fd o1 then _ else o1).
  assert (fd o2 = fd o /\ wake_read o2 = wake_read o /\ wake_write o2 = wake_write o /\ granted os [] (calls o2) = held o /\
    omap closes (calls o2) = []) as (F2 & R2 & W2 & G2 & C2).
  { subst o2. destruct (0 <=? fd o1); [|by split_and!]. destruct (Hq (K_shared (fd o1)) o1 I) as (-> & -> & -> & -> & ->). by split_and!. }
  clearbody o2. cbn [calls].
  destruct (Hc (fd o2) o2) as (F3 & R3 & W3 & G3 & C3). set (o3 := close_fd os (fd o2) o2) in *.
  destruct (Hc (wake_read o3) o3) as (F4 & R4 & W4 & G4 & C4). set (o4 := close_fd os (wake_read o3) o3) in *.
  destruct (Hc (wake_write o4) o4) as (F5 & R5 & W5 & G5 & C5).
  rewrite G5, G4, G3, G2, C5, C4, C3, C2, W4, W3, W2, R3, R2, F2. unfold held. cbn [app].
  change [wake_read o; wake_write o; fd o] with ([wake_read o; wake_write o] ++ [fd o]).
  rewrite List.filter_app, <- app_assoc. rewrite Permutation_app_comm. f_equiv.
  change [wake_read o; wake_write o] with ([wake_read o] ++ [wake_write o]). by rewrite List.filter_app.
Qed.
End leaks.

(** C32. Opening a port leaks nothing. Whatever the system answers: when the open
    fails, at any step, every descriptor it was given has been closed, each once;
    when it succeeds, none has, the adapter holds exactly the pipe's two ends and
    the port, and the port was last set to 8N1 at the configured rate, with the
    flow control asked for. *)
Theorem open_leaks_nothing os cfmakeraw config :
  pipes_are_open os ->
  let '(r, o) := open_transport os cfmakeraw config in
  match r with
  | Fail _ => granted os [] (calls o) ≡ₚ omap closes (calls o)
  | Success _ =>
      granted os [] (calls o) = [wake_read o; wake_write o; fd o] /\ omap closes (calls o) = [] /\
      exists t, configured (calls o) = Some (fd o, t) /\ raw_8n1 (flow config) t /\
        speed t = speed_for_baud (baud config)
  end.
Proof.
  intros Hos. unfold open_transport. destruct (validate_port config); [|done].
  destruct (open_wake_pipe os nothing_open) as [[[]|e] o1] eqn:E1; apply open_wake_pipe_spec in E1 as (Ht1 & Hf1 & Hend); try done;
    [|by apply release_spec].
  destruct (Hend eq_refl) as [Hr Hw].
  destruct (open_port os cfmakeraw config o1) as [[[]|e] o2] eqn:E2;
    apply open_port_spec in E2 as (Ht2 & Hok); try done; [|by apply release_spec].
  destruct (Hok eq_refl) as [Hh Hs]. destruct Ht2 as [Hg Hcl]. by rewrite Hg, Hh.
Qed.

(** A system that opens descriptor 6 on a pipe of 4 and 5, and refuses the
    settings, as one does for a path that is no serial port, or accepts all. *)
Definition sample_system (is_tty : bool) (made : list Call) : Reply :=
  let blank := mkTermios 0 0 0 None in
  match last made with
  | Some (K_open _) => mkReply 6 0 (0, 0) blank
  | Some (K_tcgetattr _) => if is_tty then mkReply 0 0 (0, 0) (mkTermios 1280 0 0 (Some 13)) else mkReply (-1) ENOTTY (0, 0) blank
  | _ => mkReply 0 0 (4, 5) blank
  end.

Definition sample_config : SerialPortConfig := mkPortConfig "/dev/ttyACM0" 115200 RtsCts 1024.

Lemma sample_system_pipes is_tty : pipes_are_open (sample_system is_tty).
Proof. intros l _. unfold sample_system. rewrite last_snoc. cbn. lia. Qed.

Example sample_open_refused :
  let '(r, o) := open_transport (sample_system false) id sample_config in
  r = Fail (with_os_error ("generic"%string, ENOTTY) (Error_at InvalidArgument "serial_port: not a serial port")) /\
  omap closes (calls o) = [6; 4; 5].
Proof. by vm_compute. Qed.

Example sample_open_granted :
  let '(r, o) := open_transport (sample_system true) id sample_config in
  r = Success tt /\ configured (calls o) = Some (6, mkTermios 2147486896 1 0 (Some 4098)).
Proof. by vm_compute. Qed.

Lemma open_leaks_nothing_witness :
  pipes_are_open (sample_system false) /\
  let '(r, o) := open_transport (sample_system false) id sample_config in
  match r with
  | Fail _ => granted (sample_system false) [] (calls o) ≡ₚ omap closes (calls o)
  | Success _ =>
      granted (sample_system false) [] (calls o) = [wake_read o; wake_write o; fd o] /\ omap closes (calls o) = [] /\
      exists t, configured (calls o) = Some (fd o, t) /\ raw_8n1 (flow sample_config) t /\
        speed t = speed_for_baud (baud sample_config)
  end.
Proof. split; [apply sample_system_pipes|]. exact (open_leaks_nothing (sample_system false) id sample_config (sample_system_pipes false)). Defined.
