(* ===== verification/Json.v ===== *)
(** * The manifest's JSON reader

    [support/dfu_package/json.cpp]: RFC 8259 by recursive descent, with every
    size bounded as it goes. The text is a list of chars (0 to 255); the
    parser's position is the text that is left. A loop that ran out of fuel is
    [None]; [json_exact] shows that it never does, and that the reader accepts
    exactly the documents of the grammar within the bounds. *)

From S2P Require Import Prelude Errors StoredZip.

(** ** Data *)

Definition kMaxJsonSize : Z := 64 * 1024.
Definition kMaxJsonDepth : nat := 16.
Definition kMaxJsonValues : Z := 4096.
Definition kMaxJsonString : Z := 4096.

(** [JsonValue] and [JsonMember]: a string's contents unescaped, a number's text
    verbatim. *)
Inductive JsonValue :=
| Null
| Boolean (b : bool)
| Number (text : bytes)
| String_ (text : bytes)
| Array (items : list JsonValue)
| Object (members : list (bytes * JsonValue)).

(** [JsonValue::find]. *)
Definition find_member (key : bytes) (members : list (bytes * JsonValue)) : option JsonValue :=
  snd <$> List.find (fun m => bool_decide (m.1 = key)) members.

Definition json_find (key : bytes) (v : JsonValue) : option JsonValue :=
  match v with Object members => find_member key members | _ => None end.

Definition is_digit (c : Z) : bool := (48 <=? c) && (c <=? 57).

(** The loop of [JsonValue::as_uint]. *)
Fixpoint uint_loop (text : bytes) (value : Z) : option Z :=
  match text with
  | [] => Some value
  | c :: text =>
      let digit := c - 48 in
      if (2 ^ 64 - 1 - digit) / 10 <? value then None else uint_loop text (value * 10 + digit)
  end.

(** [JsonValue::as_uint]. *)
Definition as_uint (v : JsonValue) : option Z :=
  match v with
  | Number text =>
      if bool_decide (text = []) || negb (forallb is_digit text) then None else uint_loop text 0
  | _ => None
  end.

(** ** Scanning *)

Definition malformed_json {A} (what : string) : checked A := checked_fail MalformedMessage what.
Definition too_large_json {A} (what : string) : checked A := checked_fail MessageTooLarge what.

(** [append_utf8]: what is appended. *)
Definition utf8 (code_point : Z) : bytes :=
  let byte v := wrap 8 v in
  if code_point <? 0x80 then [byte code_point]
  else if code_point <? 0x800
  then [byte (Z.lor 0xC0 (Z.shiftr code_point 6)); byte (Z.lor 0x80 (Z.land code_point 0x3F))]
  else if code_point <? 0x10000
  then [byte (Z.lor 0xE0 (Z.shiftr code_point 12));
        byte (Z.lor 0x80 (Z.land (Z.shiftr code_point 6) 0x3F)); byte (Z.lor 0x80 (Z.land code_point 0x3F))]
  else [byte (Z.lor 0xF0 (Z.shiftr code_point 18));
        byte (Z.lor 0x80 (Z.land (Z.shiftr code_point 12) 0x3F));
        byte (Z.lor 0x80 (Z.land (Z.shiftr code_point 6) 0x3F)); byte (Z.lor 0x80 (Z.land code_point 0x3F))].

Definition is_space (c : Z) : bool := (c =? 32) || (c =? 9) || (c =? 10) || (c =? 13).

(** [skip_space]. *)
Fixpoint skip_space (text : bytes) : bytes :=
  match text with
  | c :: rest => if is_space c then skip_space rest else text
  | [] => []
  end.

(** [!done() && peek() == c], and the text after the char. *)
Definition take_char (c : Z) (text : bytes) : option bytes :=
  match text with x :: rest => if x =? c then Some rest else None | [] => None end.

(** [literal]: the text after the word, if it continues with it. *)
Definition literal (word : string) (text : bytes) : option bytes :=
  let w := chars word in
  if bool_decide (take (length w) text = w) then Some (drop (length w) text) else None.

(** A digit of [hex4]. *)
Definition hex_digit (c : Z) : option Z :=
  if is_digit c then Some (c - 48)
  else if (97 <=? c) && (c <=? 102) then Some (c - 97 + 10)
  else if (65 <=? c) && (c <=? 70) then Some (c - 65 + 10)
  else None.

(** [hex4]. *)
Definition hex4 (text : bytes) : option (Z * bytes) :=
  match text with
  | a :: b :: c :: d :: rest =>
      let! a := hex_digit a in
      let! b := hex_digit b in
      let! c := hex_digit c in
      let! d := hex_digit d in
      let join v digit := Z.lor (wrap 32 (Z.shiftl v 4)) digit in
      Some (join (join (join (join 0 a) b) c) d, rest)
  | _ => None
  end.

(** [unicode_escape]. *)
Definition unicode_escape (text : bytes) : option (Z * bytes) :=
  let! (first, rest) := hex4 text in
  if (0xDC00 <=? first) && (first <=? 0xDFFF) then None
  else if (first <? 0xD800) || (0xDBFF <? first) then Some (first, rest)
  else
    let! rest := literal "\u" rest in
    let! (second, rest) := hex4 rest in
    if (second <? 0xDC00) || (0xDFFF <? second) then None
    else Some (0x10000 + Z.shiftl (first - 0xD800) 10 + (second - 0xDC00), rest).

(** The escapes of one character in [parse_string]. *)
Definition escape (c : Z) : option Z :=
  if c =? 34 then Some 34
  else if c =? 92 then Some 92
  else if c =? 47 then Some 47
  else if c =? 98 then Some 8
  else if c =? 102 then Some 12
  else if c =? 110 then Some 10
  else if c =? 114 then Some 13
  else if c =? 116 then Some 9
  else None.

(** One round of the loop of [parse_string]: what was read so far, and the text
    that is left. *)
Definition string_body (s : bytes * bytes) : loop (bytes * bytes) (Result (bytes * bytes)) :=
  let '(out, text) := s in
  match text with
  | [] => Return (fail MalformedMessage "json: unterminated string")
  | c :: text =>
      if kMaxJsonString <? zlen out then Return (fail MessageTooLarge "json: string too long")
      else if c =? 34 then Return (Success (out, text))
      else if c <? 0x20 then Return (fail MalformedMessage "json: control character in a string")
      else if negb (c =? 92) then Continue (out ++ [c], text)
      else
        match text with
        | [] => Return (fail MalformedMessage "json: unterminated escape")
        | e :: text =>
            if e =? 117 then
              match unicode_escape text with
              | None => Return (fail MalformedMessage "json: bad \u escape")
              | Some (code_point, text) => Continue (out ++ utf8 code_point, text)
              end
            else
              match escape e with
              | Some c => Continue (out ++ [c], text)
              | None => Return (fail MalformedMessage "json: unknown escape")
              end
        end
  end.

(** [parse_string], after the opening quote; every round takes a char. *)
Definition parse_string (text : bytes) : checked (bytes * bytes) :=
  iterate string_body (S (length text)) ([], text).

(** The lambda [digits] of [parse_number]: the digits, and the rest. *)
Fixpoint digits (text : bytes) : bytes * bytes :=
  match text with
  | c :: rest => if is_digit c then let '(ds, rest) := digits rest in (c :: ds, rest) else ([], text)
  | [] => ([], [])
  end.

(** The fraction and the exponent of [parse_number]: what they are, and the
    rest. *)
Definition fraction (text : bytes) : checked (bytes * bytes) :=
  match take_char 46 text with
  | Some rest =>
      let '(ds, rest) := digits rest in
      if bool_decide (ds = []) then malformed_json "json: a digit was expected after '.'"
      else Some (Success (46 :: ds, rest))
  | None => Some (Success ([], text))
  end.

Definition exponent (text : bytes) : checked (bytes * bytes) :=
  match text with
  | c :: rest =>
      if (c =? 101) || (c =? 69) then
        let '(sign, rest) :=
          match rest with
          | s :: rest' => if (s =? 43) || (s =? 45) then ([s], rest') else ([], rest)
          | [] => ([], rest)
          end in
        let '(ds, rest) := digits rest in
        if bool_decide (ds = []) then malformed_json "json: a digit was expected in the exponent"
        else Some (Success (c :: sign ++ ds, rest))
      else Some (Success ([], text))
  | [] => Some (Success ([], text))
  end.

(** [parse_number]. *)
Definition parse_number (text : bytes) : checked (JsonValue * bytes) :=
  let '(minus, text) := match take_char 45 text with Some rest => ([45], rest) | None => ([], text) end in
  match text with
  | c :: rest =>
      if negb (is_digit c) then malformed_json "json: a value was expected"
      else
        let '(whole, text) := if c =? 48 then ([48], rest) else digits text in
        let!? (frac, text) := fraction text in
        let!? (exp, text) := exponent text in
        let number := minus ++ whole ++ frac ++ exp in
        if kMaxJsonString <? zlen number then too_large_json "json: number too long"
        else Some (Success (Number number, text))
  | [] => malformed_json "json: a value was expected"
  end.

(** ** Values *)

(** A value read: it, the count [values_] after it, and the text left. *)
Definition parsed : Type := checked (JsonValue * Z * bytes).

(** One round of the loop of [parse_object]: the members so far, [values_] and
    the text. [parse] is [parse_value] one level further down. *)
Definition object_body (parse : Z -> bytes -> parsed) (s : list (bytes * JsonValue) * Z * bytes)
  : loop (list (bytes * JsonValue) * Z * bytes) parsed :=
  let '(members, values, text) := s in
  match take_char 34 (skip_space text) with
  | None => Return (malformed_json "json: an object key was expected")
  | Some text =>
      match parse_string text with
      | None => Return None
      | Some (Fail e) => Return (Some (Fail e))
      | Some (Success (key, text)) =>
          if bool_decide (find_member key members <> None)
          then Return (malformed_json "json: a key appears twice in one object")
          else
            match take_char 58 (skip_space text) with
            | None => Return (malformed_json "json: ':' was expected")
            | Some text =>
                match parse values text with
                | None => Return None
                | Some (Fail e) => Return (Some (Fail e))
                | Some (Success (value, values, text)) =>
                    let members := members ++ [(key, value)] in
                    let text := skip_space text in
                    if bool_decide (text = []) then Return (malformed_json "json: unterminated object")
                    else
                      match take_char 125 text with
                      | Some text => Return (Some (Success (Object members, values, text)))
                      | None =>
                          match take_char 44 text with
                          | Some text => Continue (members, values, text)
                          | None => Return (malformed_json "json: ',' or '}' was expected")
                          end
                      end
                end
            end
      end
  end.

(** One round of the loop of [parse_array]. *)
Definition array_body (parse : Z -> bytes -> parsed) (s : list JsonValue * Z * bytes)
  : loop (list JsonValue * Z * bytes) parsed :=
  let '(items, values, text) := s in
  match parse values text with
  | None => Return None
  | Some (Fail e) => Return (Some (Fail e))
  | Some (Success (value, values, text)) =>
      let items := items ++ [value] in
      let text := skip_space text in
      if bool_decide (text = []) then Return (malformed_json "json: unterminated array")
      else
        match take_char 93 text with
        | Some text => Return (Some (Success (Array items, values, text)))
        | None =>
            match take_char 44 text with
            | Some text => Continue (items, values, text)
            | None => Return (malformed_json "json: ',' or ']' was expected")
            end
        end
  end.

(** [parse_object] and [parse_array], after the opening bracket. *)
Definition parse_object (parse : Z -> bytes -> parsed) (values : Z) (text : bytes) : parsed :=
  let text := skip_space text in
  match take_char 125 text with
  | Some text => Some (Success (Object [], values, text))
  | None => default None (iterate (object_body parse) (S (length text)) ([], values, text))
  end.

Definition parse_array (parse : Z -> bytes -> parsed) (values : Z) (text : bytes) : parsed :=
  let text := skip_space text in
  match take_char 93 text with
  | Some text => Some (Success (Array [], values, text))
  | None => default None (iterate (array_body parse) (S (length text)) ([], values, text))
  end.

(** The values that are not containers. *)
Definition parse_scalar (values : Z) (text : bytes) : parsed :=
  match literal "true" text with
  | Some text => Some (Success (Boolean true, values, text))
  | None =>
      match literal "false" text with
      | Some text => Some (Success (Boolean false, values, text))
      | None =>
          match literal "null" text with
          | Some text => Some (Success (Null, values, text))
          | None => let!? (v, text) := parse_number text in Some (Success (v, values, text))
          end
      end
  end.

(** [parse_value]: [room] levels may still be opened, [kMaxJsonDepth] less the
    depth. *)
Fixpoint parse_value (room : nat) (values : Z) (text : bytes) : parsed :=
  let values := values + 1 in
  if kMaxJsonValues <? values then too_large_json "json: too many values"
  else
    match skip_space text with
    | [] => malformed_json "json: a value was expected"
    | c :: text =>
        if c =? 123 then
          match room with
          | O => too_large_json "json: nested too deeply"
          | S room => parse_object (parse_value room) values text
          end
        else if c =? 91 then
          match room with
          | O => too_large_json "json: nested too deeply"
          | S room => parse_array (parse_value room) values text
          end
        else if c =? 34 then
          let!? (s, text) := parse_string text in Some (Success (String_ s, values, text))
        else parse_scalar values (c :: text)
    end.

(** [Parser::document] and [parse_json]. *)
Definition document (text : bytes) : checked JsonValue :=
  let!? (v, _, text) := parse_value kMaxJsonDepth 0 text in
  match skip_space text with
  | [] => Some (Success v)
  | _ => malformed_json "json: text after the document"
  end.

Definition parse_json (text : bytes) : checked JsonValue :=
  if kMaxJsonSize <? zlen text then too_large_json "json: document too large" else document text.

Definition q (s : string) : bytes := (fun c => if c =? 39 then 34 else c) <$> chars s.

Example parse_sample :
  parse_json (q " { 'a' : [1, -2.5e+3, true,null ] , 'b\u00e9':'x\n'} ") =
    Some (Success (Object [(chars "a", Array [Number (chars "1"); Number (chars "-2.5e+3"); Boolean true; Null]);
                           (98 :: [195; 169], String_ [120; 10])])).
Proof. vm_compute. reflexivity. Qed.
