(* ===== verification/JsonExact.v ===== *)
(** * The JSON reader accepts the grammar, within its bounds

    RFC 8259 as a relation between values and texts, and that [parse_json]
    answers a value exactly for the texts of it that keep within the bounds,
    for every text at all. *)

From S2P Require Import Prelude Errors StoredZip Json.

(** ** The grammar *)

Definition spaces (w : bytes) : Prop := Forall (fun c => is_space c = true) w.

Definition digit_run (ds : bytes) : Prop := Forall (fun c => is_digit c = true) ds.

(** RFC 8259 section 6. *)
Definition whole_text (t : bytes) : Prop :=
  t = [48] \/ exists c ds, t = c :: ds /\ is_digit c = true /\ c <> 48 /\ digit_run ds.

Definition fraction_text (t : bytes) : Prop :=
  t = [] \/ exists ds, t = 46 :: ds /\ ds <> [] /\ digit_run ds.

Definition exponent_text (t : bytes) : Prop :=
  t = [] \/ exists e sign ds, t = e :: sign ++ ds /\ (e = 101 \/ e = 69) /\
    (sign = [] \/ sign = [43] \/ sign = [45]) /\ ds <> [] /\ digit_run ds.

Definition number_text (t : bytes) : Prop :=
  exists minus whole frac exp, t = minus ++ whole ++ frac ++ exp /\
    (minus = [] \/ minus = [45]) /\ whole_text whole /\ fraction_text frac /\ exponent_text exp.

Definition surrogate (v : Z) : Prop := 0xD800 <= v <= 0xDFFF.

(** Section 7: the contents of a string, and how they are written. *)
Inductive string_text : bytes -> bytes -> Prop :=
| string_end : string_text [] []
| string_char c s t :
    0x20 <= c -> c <> 34 -> c <> 92 -> string_text s t -> string_text (c :: s) (c :: t)
| string_escape e c s t :
    escape e = Some c -> string_text s t -> string_text (c :: s) (92 :: e :: t)
| string_unicode h v s t :
    hex4 h = Some (v, []) -> ~ surrogate v -> string_text s t ->
    string_text (utf8 v ++ s) (92 :: 117 :: h ++ t)
| string_pair h v h' v' s t :
    hex4 h = Some (v, []) -> hex4 h' = Some (v', []) ->
    0xD800 <= v <= 0xDBFF -> 0xDC00 <= v' <= 0xDFFF -> string_text s t ->
    string_text (utf8 (0x10000 + (v - 0xD800) * 1024 + (v' - 0xDC00)) ++ s)
      (92 :: 117 :: h ++ 92 :: 117 :: h' ++ t).

(** Sections 3 to 5: a value and its text, without spaces around it. *)
Inductive reads : JsonValue -> bytes -> Prop :=
| reads_null : reads Null (chars "null")
| reads_true : reads (Boolean true) (chars "true")
| reads_false : reads (Boolean false) (chars "false")
| reads_number t : number_text t -> reads (Number t) t
| reads_string s t : string_text s t -> reads (String_ s) (34 :: t ++ [34])
| reads_no_items w : spaces w -> reads (Array []) (91 :: w ++ [93])
| reads_items vs t : items_text vs t -> reads (Array vs) (91 :: t ++ [93])
| reads_no_members w : spaces w -> reads (Object []) (123 :: w ++ [125])
| reads_members ms t : members_text ms t -> reads (Object ms) (123 :: t ++ [125])
with items_text : list JsonValue -> bytes -> Prop :=
| items_last w v t w' : spaces w -> spaces w' -> reads v t -> items_text [v] (w ++ t ++ w')
| items_more w v t w' vs ts :
    spaces w -> spaces w' -> reads v t -> items_text vs ts ->
    items_text (v :: vs) (w ++ t ++ w' ++ 44 :: ts)
with members_text : list (bytes * JsonValue) -> bytes -> Prop :=
| members_last k kt w1 w2 w3 w4 v t :
    spaces w1 -> spaces w2 -> spaces w3 -> spaces w4 -> string_text k kt -> reads v t ->
    members_text [(k, v)] (w1 ++ 34 :: kt ++ 34 :: w2 ++ 58 :: w3 ++ t ++ w4)
| members_more k kt w1 w2 w3 w4 v t ms ts :
    spaces w1 -> spaces w2 -> spaces w3 -> spaces w4 -> string_text k kt -> reads v t ->
    members_text ms ts ->
    members_text ((k, v) :: ms) (w1 ++ 34 :: kt ++ 34 :: w2 ++ 58 :: w3 ++ t ++ w4 ++ 44 :: ts).

(** ** The bounds *)

Fixpoint count (v : JsonValue) : Z :=
  1 + match v with
      | Array vs => foldr (fun v n => count v + n) 0 vs
      | Object ms => foldr (fun m n => count m.2 + n) 0 ms
      | _ => 0
      end.

Fixpoint height (v : JsonValue) : nat :=
  match v with
  | Array vs => S (foldr (fun v n => Nat.max (height v) n) 0%nat vs)
  | Object ms => S (foldr (fun m n => Nat.max (height m.2) n) 0%nat ms)
  | _ => 0%nat
  end.

Definition short (s : bytes) : Prop := zlen s <= kMaxJsonString.

(** Strings and numbers within their bound, no key twice. *)
Fixpoint bounded (v : JsonValue) : Prop :=
  match v with
  | Null | Boolean _ => True
  | Number t => short t
  | String_ s => short s
  | Array vs => foldr (fun v P => bounded v /\ P) True vs
  | Object ms => NoDup (ms.*1) /\ foldr (fun m P => (short m.1 /\ bounded m.2) /\ P) True ms
  end.

Definition within (room : nat) (v : JsonValue) : Prop := bounded v /\ (height v <= room)%nat.

Definition total (vs : list JsonValue) : Z := foldr (fun v n => count v + n) 0 vs.

Lemma within_array room vs :
  within (S room) (Array vs) <-> Forall (within room) vs.
Proof.
  unfold within. cbn [bounded height]. induction vs as [|v vs IH]; cbn; [split; [done|intros _; split; [done|lia]]|].
  rewrite Forall_cons, <- IH. unfold within. cbn. split; intros H; destruct_and! H; split_and!; try done; lia.
Qed.

Lemma within_object room ms :
  within (S room) (Object ms) <->
  NoDup (ms.*1) /\ Forall (fun m => short m.1 /\ within room m.2) ms.
Proof.
  unfold within. cbn [bounded height].
  assert ((foldr (fun m P => (short m.1 /\ bounded m.2) /\ P) True ms /\
     (S (foldr (fun m n => Nat.max (height m.2) n) 0 ms) <= S room)%nat) <->
    Forall (fun m => short m.1 /\ within room m.2) ms) as <-; [|tauto].
  induction ms as [|m ms IH]; cbn; [split; [done|intros _; split; [done|lia]]|].
  rewrite Forall_cons, <- IH. unfold within. cbn. split; intros H; destruct_and! H; split_and!; try done; lia.
Qed.

Lemma count_array vs : count (Array vs) = 1 + total vs.
Proof. done. Qed.

Lemma count_object ms : count (Object ms) = 1 + total (ms.*2).
Proof. cbn [count]. f_equal. induction ms as [|m ms IH]; [done|]. cbn. by rewrite IH. Qed.

Lemma total_snoc vs v : total (vs ++ [v]) = total vs + count v.
Proof. induction vs as [|v' vs IH]; cbn; [lia|]. unfold total in IH. rewrite IH. lia. Qed.

Lemma count_pos : forall v, 0 < count v.
Proof.
  fix IH 1. intros []; cbn; try lia; clear -IH.
  - induction items as [|v vs IHv]; cbn; [lia|]. pose proof (IH v). lia.
  - induction members as [|m ms IHm]; cbn; [lia|]. pose proof (IH m.2). lia.
Qed.

Lemma total_nonneg vs : 0 <= total vs.
Proof. induction vs as [|v vs IH]; cbn; [lia|]. pose proof (count_pos v). unfold total in IH. lia. Qed.

(** ** Scanning *)

Lemma skip_spaces w t : spaces w -> skip_space (w ++ t) = skip_space t.
Proof. induction 1 as [|c w Hc Hw IH]; [done|]. cbn. by rewrite Hc. Qed.

Lemma skip_space_split t : exists w, spaces w /\ t = w ++ skip_space t.
Proof.
  induction t as [|c t (w & Hw & Ht)]; [by exists []; split; [constructor|]|]. cbn. destruct (is_space c) eqn:E.
  - exists (c :: w). split; [by constructor|]. cbn. by f_equal.
  - by exists []; split; [constructor|].
Qed.

Lemma skip_space_head t c rest : skip_space t = c :: rest -> is_space c = false.
Proof. induction t as [|c' t IH]; cbn; [done|]. destruct (is_space c') eqn:E; [done|]. by intros [= <- <-]. Qed.

Lemma skip_none c t : is_space c = false -> skip_space (c :: t) = c :: t.
Proof. intros Hc. cbn. by rewrite Hc. Qed.

Lemma skip_space_length t : (length (skip_space t) <= length t)%nat.
Proof. induction t as [|c t IH]; cbn; [done|]. destruct (is_space c); cbn; lia. Qed.

Lemma literal_spec word t rest : literal word t = Some rest <-> t = chars word ++ rest.
Proof.
  unfold literal. case_bool_decide as E.
  - split; [intros [= <-]; rewrite <- E at 1; by rewrite take_drop|]. intros ->. by rewrite drop_app_length.
  - split; [done|]. intros ->. exfalso. apply E. by rewrite take_app_length.
Qed.

Lemma hex4_split t v rest : hex4 t = Some (v, rest) <-> exists h, t = h ++ rest /\ hex4 h = Some (v, []).
Proof.
  unfold hex4. split.
  - destruct t as [|a [|b [|c [|d t]]]]; try done. intros H. exists [a; b; c; d].
    destruct (hex_digit a); [|done]. destruct (hex_digit b); [|done].
    destruct (hex_digit c); [|done]. destruct (hex_digit d); [|done]. cbn in *. by simplify_eq.
  - intros (h & -> & H). destruct h as [|a [|b [|c [|d h]]]]; try done. cbn [app].
    destruct (hex_digit a); [|done]. destruct (hex_digit b); [|done].
    destruct (hex_digit c); [|done]. destruct (hex_digit d); [|done]. cbn in *. by simplify_eq.
Qed.

(** The code point of an escape: one unit, or a pair of surrogates. *)
Definition escaped (cp : Z) (u : bytes) : Prop :=
  (hex4 u = Some (cp, []) /\ ~ surrogate cp) \/
  exists h v h' v', u = h ++ 92 :: 117 :: h' /\ hex4 h = Some (v, []) /\ hex4 h' = Some (v', []) /\
    0xD800 <= v <= 0xDBFF /\ 0xDC00 <= v' <= 0xDFFF /\ cp = 0x10000 + (v - 0xD800) * 1024 + (v' - 0xDC00).

Lemma unicode_escape_spec t cp rest :
  unicode_escape t = Some (cp, rest) <-> exists u, t = u ++ rest /\ escaped cp u.
Proof.
  unfold unicode_escape, escaped, surrogate. split.
  - destruct (hex4 t) as [[v t1]|] eqn:E1; cbn [option_bind]; [|done]. apply hex4_split in E1 as (h & -> & Hh).
    destruct (_ && _) eqn:F1; [done|]. destruct (_ || _) eqn:F2.
    { intros [= <- <-]. exists h. split; [done|]. left. split; [done|]. bool_to_prop; lia. }
    destruct (literal _ t1) as [t2|] eqn:E2; cbn [option_bind]; [|done]. apply literal_spec in E2 as ->.
    destruct (hex4 t2) as [[v' t3]|] eqn:E3; cbn [option_bind]; [|done]. apply hex4_split in E3 as (h' & -> & Hh').
    destruct ((v' <? 0xDC00) || (0xDFFF <? v')) eqn:F3; [done|]. intros Heq. apply (inj Some), pair_eq in Heq as [<- <-]. exists (h ++ 92 :: 117 :: h').
    split; [by rewrite <- app_assoc|]. right. exists h, v, h', v'. split_and!; try done.
    all: bool_to_prop; rewrite ?Z.shiftl_mul_pow2 by lia; lia.
  - intros (u & -> & [[Hu Hs]|(h & v & h' & v' & -> & Hh & Hh' & Hv & Hv' & ->)]).
    + rewrite (proj2 (hex4_split _ _ _) (ex_intro _ u (conj eq_refl Hu))). cbn.
      destruct (_ && _) eqn:F1; [bool_to_prop; lia|]. destruct (_ || _) eqn:F2; [done|]. bool_to_prop; lia.
    + rewrite <- app_assoc. rewrite (proj2 (hex4_split _ _ _) (ex_intro _ h (conj eq_refl Hh))). cbn [option_bind].
      destruct (_ && _) eqn:F1; [bool_to_prop; lia|]. destruct (_ || _) eqn:F2; [bool_to_prop; lia|].
      rewrite (proj2 (literal_spec "\u" ((92 :: 117 :: h') ++ rest) (h' ++ rest)) eq_refl). cbn [option_bind].
      rewrite (proj2 (hex4_split _ _ _) (ex_intro _ h' (conj eq_refl Hh'))). cbn [option_bind].
      destruct ((v' <? 0xDC00) || (0xDFFF <? v')) eqn:F3; [bool_to_prop; lia|]. rewrite Z.shiftl_mul_pow2 by lia. done.
Qed.

Lemma string_escaped cp u s t :
  escaped cp u -> string_text s t -> string_text (utf8 cp ++ s) (92 :: 117 :: u ++ t).
Proof.
  intros [[Hu Hs]|(h & v & h' & v' & -> & Hh & Hh' & Hv & Hv' & ->)] Ht; [by constructor|].
  rewrite <- app_assoc. by constructor.
Qed.

Lemma utf8_length cp : (1 <= length (utf8 cp))%nat.
Proof. unfold utf8. repeat split_if; cbn; lia. Qed.

(** ** Strings *)

Lemma string_body_sound fuel out text s rest :
  iterate string_body fuel (out, text) = Some (Success (s, rest)) ->
  exists d t, s = out ++ d /\ text = t ++ 34 :: rest /\ string_text d t /\ short s.
Proof.
  revert out text. induction fuel as [|fuel IH]; intros out text; [done|]. cbn [iterate string_body].
  destruct text as [|c text]; [done|]. destruct (kMaxJsonString <? _) eqn:Hl; [done|].
  destruct (c =? 34) eqn:E1.
  { intros [= <- <-]. bool_to_prop. exists [], []. rewrite app_nil_r. split_and!; [done|by subst|constructor|]. unfold short. lia. }
  destruct (c <? 32) eqn:E2; [done|]. destruct (c =? 92) eqn:E3; cbn [negb]; cycle 1.
  { intros (d & t & -> & -> & Hd & Hs)%IH. exists (c :: d), (c :: t). rewrite <- app_assoc in Hs |- *.
    bool_to_prop. split_and!; try done. by constructor. }
  destruct text as [|e text]; [done|]. bool_to_prop. subst c. destruct (e =? 117) eqn:E4.
  - destruct (unicode_escape text) as [[cp text']|] eqn:Eu; [|done].
    apply unicode_escape_spec in Eu as (u & -> & Hu). intros (d & t & -> & -> & Hd & Hs)%IH.
    exists (utf8 cp ++ d), (92 :: 117 :: u ++ t). bool_to_prop. subst e. rewrite <- app_assoc in Hs |- *.
    split_and!; [done|cbn; by rewrite <- app_assoc|by apply string_escaped|done].
  - destruct (escape e) as [c|] eqn:Ee; [|done]. intros (d & t & -> & -> & Hd & Hs)%IH.
    exists (c :: d), (92 :: e :: t). rewrite <- app_assoc in Hs |- *. split_and!; try done. by constructor.
Qed.

Lemma string_body_complete d t :
  string_text d t -> forall fuel out rest, short (out ++ d) -> (length t < fuel)%nat ->
  iterate string_body fuel (out, t ++ 34 :: rest) = Some (Success (out ++ d, rest)).
Proof.
  unfold short. assert (forall (out d : bytes), zlen (out ++ d) <= kMaxJsonString -> (kMaxJsonString <? zlen out) = false) as Hshort.
  { intros out d' H. rewrite length_app in H. apply Z.ltb_ge. lia. }
  assert (forall (out d : bytes) u, zlen (out ++ u ++ d) <= kMaxJsonString -> zlen ((out ++ u) ++ d) <= kMaxJsonString) as Hassoc
    by (intros out d' u H; by rewrite <- app_assoc).
  induction 1 as [|c s t H1 H2 H3 Ht IH|e c s t He Ht IH|h v s t Hh Hs Ht IH|h v h' v' s t Hh Hh' Hv Hv' Ht IH];
    intros fuel out rest Hsh Hf; (destruct fuel as [|fuel]; [lia|]); cbn [iterate app string_body length] in *;
    rewrite (Hshort _ _ Hsh).
  - by rewrite app_nil_r.
  - rewrite (proj2 (Z.eqb_neq _ _) H2), (proj2 (Z.ltb_ge _ _)), (proj2 (Z.eqb_neq _ _) H3) by lia. cbn [negb].
    rewrite IH, <- app_assoc; [done|by apply (Hassoc _ _ [c])|lia].
  - cbn [Z.eqb Z.ltb Z.compare Pos.eqb negb Pos.compare Pos.compare_cont]. destruct (e =? 117) eqn:E; [bool_to_prop; by subst e|].
    rewrite He. rewrite IH, <- app_assoc; [done|by apply (Hassoc _ _ [c])|lia].
  - change (117 =? 117) with true. cbn [Z.eqb Z.ltb Z.compare Pos.eqb negb Pos.compare Pos.compare_cont]. rewrite <- app_assoc.
    rewrite (proj2 (unicode_escape_spec _ v (t ++ 34 :: rest))) by (exists h; split; [done|by left]).
    rewrite length_app in Hf. rewrite IH, <- app_assoc; [done|by apply Hassoc|lia].
  - change (117 =? 117) with true. cbn [Z.eqb Z.ltb Z.compare Pos.eqb negb Pos.compare Pos.compare_cont].
    rewrite <- app_assoc. cbn [app]. rewrite <- app_assoc.
    rewrite (proj2 (unicode_escape_spec _ (0x10000 + (v - 0xD800) * 1024 + (v' - 0xDC00)) (t ++ 34 :: rest))).
    2: { exists (h ++ 92 :: 117 :: h'). rewrite <- app_assoc. split; [done|]. right. by exists h, v, h', v'. }
    rewrite !length_app in Hf. cbn in Hf. rewrite length_app in Hf.
    rewrite IH, <- app_assoc; [done|by apply Hassoc|lia].
Qed.

Lemma parse_string_total text : exists r, parse_string text = Some r.
Proof.
  unfold parse_string. apply (iterate_total string_body (fun _ => True) (fun s => length s.2)); [|done|cbn; lia].
  intros [out t] s' _. cbn. destruct t as [|c t]; [done|]. destruct (_ <? _); [done|].
  destruct (c =? 34); [done|]. destruct (c <? 32); [done|]. destruct (negb _); [intros [= <-]; cbn; split; [done|lia]|].
  destruct t as [|e t]; [done|]. destruct (e =? 117).
  - destruct (unicode_escape t) as [[cp t']|] eqn:E; [|done]. apply unicode_escape_spec in E as (u & -> & _).
    intros [= <-]. cbn. rewrite length_app. split; [done|lia].
  - destruct (escape e); [|done]. intros [= <-]. cbn. split; [done|lia].
Qed.

Lemma parse_string_sound text s rest :
  parse_string text = Some (Success (s, rest)) ->
  exists t, text = t ++ 34 :: rest /\ string_text s t /\ short s.
Proof. intros (d & t & -> & -> & Hd & Hs)%string_body_sound. by exists t. Qed.

Lemma parse_string_complete s t rest :
  string_text s t -> short s -> parse_string (t ++ 34 :: rest) = Some (Success (s, rest)).
Proof.
  intros Hs Hsh. unfold parse_string. apply (string_body_complete s t Hs _ []); [done|]. rewrite length_app. lia.
Qed.

(** ** Numbers *)

(** What may follow a number. *)
Definition ends (rest : bytes) : Prop :=
  match rest with [] => True | c :: _ => is_space c = true \/ c = 44 \/ c = 93 \/ c = 125 end.

Definition stops (rest : bytes) : Prop := match rest with [] => True | c :: _ => is_digit c = false end.

Lemma digits_sound t ds rest : digits t = (ds, rest) -> t = ds ++ rest /\ digit_run ds /\ stops rest.
Proof.
  revert ds rest. induction t as [|c t IH]; intros ds rest; cbn [digits].
  { intros [= <- <-]. split_and!; [done|constructor|done]. }
  destruct (is_digit c) eqn:E; cycle 1.
  { intros [= <- <-]. split_and!; [done|constructor|done]. }
  destruct (digits t) as [ds' rest'] eqn:Ed. intros [= <- <-]. destruct (IH _ _ eq_refl) as (-> & Hd & Hs).
  split_and!; [done|by constructor|done].
Qed.

Lemma digits_complete ds rest : digit_run ds -> stops rest -> digits (ds ++ rest) = (ds, rest).
Proof.
  induction 1 as [|c ds Hc Hds IH]; intros Hs; cbn [app digits].
  - destruct rest as [|c rest]; [done|]. cbn in *. by rewrite Hs.
  - rewrite Hc. by rewrite IH.
Qed.

Lemma ends_stops rest : ends rest -> stops rest.
Proof.
  destruct rest as [|c rest]; [done|]. cbn. unfold is_space, is_digit. intros H.
  destruct (_ && _) eqn:E; [|done]. bool_to_prop. destruct H as [H|H]; [|lia].
  repeat (apply orb_true_iff in H as [H|H]; [|bool_to_prop; lia]). bool_to_prop; lia.
Qed.

Lemma take_char_spec c t rest : take_char c t = Some rest <-> t = c :: rest.
Proof.
  destruct t as [|x t]; cbn; [done|]. destruct (x =? c) eqn:E; bool_to_prop.
  - subst. split; [by intros [= <-]|by intros [= <-]].
  - split; [done|]. by intros [= <- _].
Qed.

Lemma take_char_none c t : take_char c t = None <-> forall rest, t <> c :: rest.
Proof.
  split.
  - intros H rest ->. cbn in H. by rewrite Z.eqb_refl in H.
  - intros H. destruct (take_char c t) as [rest|] eqn:E; [|done]. apply take_char_spec in E. by destruct (H rest).
Qed.

Lemma fraction_sound t f rest :
  fraction t = Some (Success (f, rest)) -> t = f ++ rest /\ fraction_text f.
Proof.
  unfold fraction. destruct (take_char 46 t) as [t'|] eqn:Et.
  - apply take_char_spec in Et as ->. destruct (digits t') as [ds rest'] eqn:E.
    destruct (digits_sound _ _ _ E) as (-> & Hd & Hs).
    case_bool_decide; [done|]. intros [= <- <-]. split; [done|right; eauto].
  - intros [= <- <-]. split; [done|by left].
Qed.

Lemma exponent_sound t f rest :
  exponent t = Some (Success (f, rest)) -> t = f ++ rest /\ exponent_text f.
Proof.
  unfold exponent. destruct t as [|c t]; [intros [= <- <-]; split; [done|by left]|].
  destruct (_ || _) eqn:Hc; [|intros [= <- <-]; split; [done|by left]].
  destruct (match t with [] => _ | _ => _ end) as [sign t'] eqn:Es.
  assert (t = sign ++ t' /\ (sign = [] \/ sign = [43] \/ sign = [45])) as [-> Hsign].
  { destruct t as [|s t]; [injection Es as <- <-; auto|].
    destruct (_ || _) eqn:E in Es; injection Es as <- <-; [|auto].
    assert (s = 43 \/ s = 45) as [->| ->] by lia; auto. }
  destruct (digits t') as [ds rest'] eqn:E. destruct (digits_sound _ _ _ E) as (-> & Hd & Hs).
  case_bool_decide; [done|]. intros [= <- <-]. split; [cbn; by rewrite <- app_assoc|].
  right. exists c, sign, ds. split_and!; try done. lia.
Qed.

Lemma parse_number_sound t v rest :
  parse_number t = Some (Success (v, rest)) ->
  exists n, v = Number n /\ t = n ++ rest /\ number_text n /\ short n.
Proof.
  unfold parse_number. destruct (match take_char 45 t with Some _ => _ | None => _ end) as [minus t'] eqn:Em.
  assert (t = minus ++ t' /\ (minus = [] \/ minus = [45])) as [-> Hm].
  { destruct (take_char 45 t) as [t0|] eqn:E; injection Em as <- <-; [apply take_char_spec in E as ->|]; auto. }
  destruct t' as [|c t']; [done|]. destruct (is_digit c) eqn:Hc; cbn [negb]; [|done].
  destruct (if c =? 48 then _ else _) as [whole t1] eqn:Ew.
  assert (c :: t' = whole ++ t1 /\ whole_text whole) as [Hw Hwt].
  { destruct (c =? 48) eqn:E0; bool_to_prop.
    - injection Ew as <- <-. subst c. split; [done|by left].
    - cbn [digits] in Ew. rewrite Hc in Ew. destruct (digits t') as [ds r] eqn:Ed. injection Ew as <- <-.
      apply digits_sound in Ed as (-> & Hd & _). split; [done|]. right. by exists c, ds. }
  destruct (fraction t1) as [[[fr t2]|]|] eqn:Ef; cbn [checked_bind]; try done.
  apply fraction_sound in Ef as [-> Hf].
  destruct (exponent t2) as [[[ex t3]|]|] eqn:Ee; cbn [checked_bind]; try done.
  apply exponent_sound in Ee as [-> He].
  destruct (_ <? _) eqn:Hl; [done|]. intros [= <- <-]. eexists. split; [done|].
  split; [rewrite Hw; by rewrite <- !app_assoc|]. bool_to_prop. split; [by exists minus, whole, fr, ex|done].
Qed.

Lemma number_head n : number_text n -> exists c t, n = c :: t /\ (c = 45 \/ is_digit c = true).
Proof.
  intros (m & w & f & e & -> & [->| ->] & Hw & _); cbn; [|eauto].
  destruct Hw as [->|(c & ds & -> & Hc & _)]; cbn; eauto.
Qed.

Lemma parse_number_complete n rest :
  number_text n -> short n -> ends rest -> parse_number (n ++ rest) = Some (Success (Number n, rest)).
Proof.
  intros (m & w & f & e & -> & Hm & Hw & Hf & He) Hs Hr.
  assert (forall t, ends t -> exponent t = Some (Success ([], t)) /\ fraction t = Some (Success ([], t))) as Hends.
  { intros [|c t] Ht; [done|]. cbn in Ht. unfold is_space in Ht. unfold exponent, fraction, take_char.
    destruct ((c =? 101) || (c =? 69)) eqn:E1; [lia|]. destruct (c =? 46) eqn:E2; [lia|]. done. }
  assert (exponent (e ++ rest) = Some (Success (e, rest))) as Hexp.
  { destruct He as [->|(x & sg & ds & -> & Hx & Hsg & Hne & Hds)]; [by apply Hends|].
    unfold exponent. cbn [app]. replace ((x =? 101) || (x =? 69)) with true by lia.
    assert (match (sg ++ ds) ++ rest with
            | [] => ([], (sg ++ ds) ++ rest)
            | s :: rest' => if (s =? 43) || (s =? 45) then ([s], rest') else ([], (sg ++ ds) ++ rest)
            end = (sg, ds ++ rest)) as ->.
    { destruct Hsg as [->|[->| ->]]; [|done..]. destruct Hds as [|d ds Hd Hds]; [done|]. cbn. unfold is_digit in Hd.
      destruct (_ || _) eqn:E; [lia|done]. }
    rewrite digits_complete by (done || by apply ends_stops). by rewrite bool_decide_eq_false_2. }
  assert (stops (e ++ rest)) as Hse.
  { destruct He as [->|(x & sg & ds & -> & Hx & _)]; [by apply ends_stops|]. cbn. unfold is_digit. lia. }
  assert (fraction (f ++ e ++ rest) = Some (Success (f, e ++ rest))) as Hfrac.
  { destruct Hf as [->|(ds & -> & Hne & Hds)].
    - cbn [app]. destruct He as [->|(x & sg & ds & -> & Hx & _)]; [by apply Hends|].
      unfold fraction, take_char. cbn [app]. destruct (x =? 46) eqn:E; [lia|done].
    - unfold fraction. cbn [app take_char]. change (46 =? 46) with true. cbn iota.
      rewrite digits_complete by done. by rewrite bool_decide_eq_false_2. }
  assert (stops (f ++ e ++ rest)) as Hsf by (destruct Hf as [->|(ds & -> & _)]; done).
  unfold parse_number.
  assert (match take_char 45 ((m ++ w ++ f ++ e) ++ rest) with
          | Some r => ([45], r) | None => ([], (m ++ w ++ f ++ e) ++ rest) end = (m, w ++ f ++ e ++ rest)) as ->.
  { destruct Hm as [->| ->]; [|cbn; by rewrite <- !app_assoc]. cbn [app]. rewrite <- !app_assoc.
    destruct Hw as [->|(c & ds & -> & Hc & _)]; cbn; [done|]. unfold is_digit in Hc.
    destruct (c =? 45) eqn:E; [lia|done]. }
  assert (exists c r, w ++ f ++ e ++ rest = c :: r /\ is_digit c = true /\
    (if c =? 48 then ([48], r) else digits (c :: r)) = (w, f ++ e ++ rest)) as (c & r & -> & Hc & ->).
  { destruct Hw as [->|(c & ds & -> & Hc & Hc0 & Hds)]; [by exists 48, (f ++ e ++ rest)|].
    exists c, (ds ++ f ++ e ++ rest). split_and!; [done..|]. rewrite (proj2 (Z.eqb_neq _ _) Hc0).
    change (c :: ds ++ f ++ e ++ rest) with ((c :: ds) ++ f ++ e ++ rest). apply digits_complete; [by constructor|done]. }
  rewrite Hc. cbn [negb]. rewrite Hfrac. cbn [checked_bind]. rewrite Hexp. cbn [checked_bind].
  unfold short in Hs. by rewrite (proj2 (Z.ltb_ge _ _)) by lia.
Qed.

(** ** Values *)

Lemma reads_head v t :
  reads v t -> exists c t', t = c :: t' /\ is_space c = false /\ c <> 44 /\ c <> 93 /\ c <> 125.
Proof.
  intros H. inversion H; subst; try (eexists _, _; split; [reflexivity|]; done).
  destruct (number_head t) as (c & t' & -> & Hc); [done|]. exists c, t'. split; [done|].
  unfold is_space, is_digit in *. lia.
Qed.

(** What [parse_value] promises a caller one level up, in both directions. *)
Definition parses_only (room : nat) (parse : Z -> bytes -> parsed) : Prop :=
  forall values text v values' rest, parse values text = Some (Success (v, values', rest)) ->
  exists w t, text = w ++ t ++ rest /\ spaces w /\ reads v t /\ within room v /\
    values' = values + count v /\ values' <= kMaxJsonValues.

Definition parses_all (room : nat) (parse : Z -> bytes -> parsed) : Prop :=
  forall v t w rest values, reads v t -> within room v -> spaces w -> ends rest ->
  values + count v <= kMaxJsonValues ->
  parse values (w ++ t ++ rest) = Some (Success (v, values + count v, rest)).

Definition never_stuck (parse : Z -> bytes -> parsed) : Prop :=
  forall values text, parse values text <> None.

Lemma parses_shorter room parse values text v values' rest :
  parses_only room parse -> parse values text = Some (Success (v, values', rest)) ->
  (length rest < length text)%nat.
Proof.
  intros Hp H. destruct (Hp _ _ _ _ _ H) as (w & t & -> & _ & Hr & _).
  destruct (reads_head _ _ Hr) as (c & t' & -> & _). rewrite !length_app. cbn. lia.
Qed.

Section level.
Context (room : nat) (parse : Z -> bytes -> parsed).
Context (only : parses_only room parse) (all : parses_all room parse) (stuck : never_stuck parse).

Lemma array_loop_sound fuel items values text v values' rest :
  iterate (array_body parse) fuel (items, values, text) = Some (Some (Success (v, values', rest))) ->
  exists vs t, v = Array (items ++ vs) /\ text = t ++ 93 :: rest /\ items_text vs t /\
    Forall (within room) vs /\ values' = values + total vs /\ values' <= kMaxJsonValues.
Proof.
  revert items values text. induction fuel as [|fuel IH]; intros items values text; [done|].
  cbn [iterate array_body]. destruct (parse values text) as [[[[v1 values1] text1]|]|] eqn:Hp; try done.
  destruct (only _ _ _ _ _ Hp) as (w & t & -> & Hw & Hr & Hin & Hc & Hmax).
  destruct (skip_space_split text1) as (w' & Hw' & Ht1). cbn zeta.
  case_bool_decide; [done|]. destruct (take_char 93 _) as [t2|] eqn:E93.
  { apply take_char_spec in E93. intros [= <- <- <-]. exists [v1], (w ++ t ++ w').
    rewrite Ht1, E93. rewrite <- !app_assoc. split_and!; try done; [by constructor|by apply Forall_singleton|cbn; lia]. }
  destruct (take_char 44 _) as [t2|] eqn:E44; [|done]. apply take_char_spec in E44.
  intros (vs & ts & -> & -> & Hts & Hall & Hv & Hle)%IH. exists (v1 :: vs), (w ++ t ++ w' ++ 44 :: ts).
  rewrite Ht1, E44. rewrite <- !app_assoc. cbn [app]. split_and!; try done.
  - by constructor.
  - by constructor.
  - cbn. unfold total in Hv. lia.
Qed.

Lemma object_loop_sound fuel members values text v values' rest :
  iterate (object_body parse) fuel (members, values, text) = Some (Some (Success (v, values', rest))) ->
  exists ms t, v = Object (members ++ ms) /\ text = t ++ 125 :: rest /\ members_text ms t /\
    Forall (fun m => short m.1 /\ within room m.2) ms /\ NoDup (ms.*1) /\
    (forall k, k ∈ ms.*1 -> k ∉ members.*1) /\
    values' = values + total (ms.*2) /\ values' <= kMaxJsonValues.
Proof.
  revert members values text. induction fuel as [|fuel IH]; intros members values text; [done|].
  cbn [iterate object_body]. destruct (skip_space_split text) as (w1 & Hw1 & Htext).
  destruct (take_char 34 _) as [t1|] eqn:E34; [|done]. apply take_char_spec in E34. rewrite E34 in Htext. subst text.
  destruct (parse_string t1) as [[[k t2]|]|] eqn:Hs; try done.
  apply parse_string_sound in Hs as (kt & -> & Hkt & Hk).
  case_bool_decide as Hdup; [done|]. assert (k ∉ members.*1) as Hnew.
  { intros Hin. unfold find_member in Hdup. apply list_elem_of_fmap in Hin as (m & -> & Hin).
    destruct (List.find _ members) eqn:Ef; [done|]. eapply find_none in Ef; [|by apply list_elem_of_In].
    cbn in Ef. by rewrite bool_decide_eq_true_2 in Ef. }
  destruct (skip_space_split t2) as (w2 & Hw2 & Ht2).
  destruct (take_char 58 _) as [t3|] eqn:E58; [|done]. apply take_char_spec in E58. rewrite E58 in Ht2. subst t2.
  destruct (parse values t3) as [[[[v1 values1] t4]|]|] eqn:Hp; try done.
  destruct (only _ _ _ _ _ Hp) as (w3 & t & -> & Hw3 & Hr & Hin & Hc & Hmax).
  destruct (skip_space_split t4) as (w4 & Hw4 & Ht4). cbn zeta.
  case_bool_decide; [done|]. destruct (take_char 125 _) as [t5|] eqn:E125.
  { apply take_char_spec in E125. rewrite E125 in Ht4. subst t4. intros [= <- <- <-].
    exists [(k, v1)], (w1 ++ 34 :: kt ++ 34 :: w2 ++ 58 :: w3 ++ t ++ w4).
    split_and!; try done.
    - repeat (rewrite <- ?app_assoc; cbn [app]). done.
    - by constructor.
    - by apply Forall_singleton.
    - apply NoDup_singleton.
    - by intros k' ->%list_elem_of_singleton.
    - cbn. lia. }
  destruct (take_char 44 _) as [t5|] eqn:E44; [|done]. apply take_char_spec in E44. rewrite E44 in Ht4. subst t4.
  intros (ms & ts & -> & -> & Hts & Hall & Hnd & Hdis & Hv & Hle)%IH.
  exists ((k, v1) :: ms), (w1 ++ 34 :: kt ++ 34 :: w2 ++ 58 :: w3 ++ t ++ w4 ++ 44 :: ts).
  split_and!; try done.
  - by rewrite <- app_assoc.
  - repeat (rewrite <- ?app_assoc; cbn [app]). done.
  - by constructor.
  - by constructor.
  - cbn. apply NoDup_cons. split; [|done]. intros Hk'. apply (Hdis k Hk'). rewrite fmap_app. apply elem_of_app. right. by left.
  - intros k' [->|Hk']%elem_of_cons; [done|]. intros Hk2. apply (Hdis k' Hk'). rewrite fmap_app. apply elem_of_app. by left.
  - cbn. unfold total in Hv. lia.
Qed.
(** Every round takes text. *)
Lemma array_loop_total items values text :
  iterate (array_body parse) (S (length text)) (items, values, text) <> Some None /\
  is_Some (iterate (array_body parse) (S (length text)) (items, values, text)).
Proof.
  split.
  - intros H. eapply (iterate_inv (array_body parse) (fun _ => True) (fun r => r <> None)); [done| |done|exact H|done].
    intros [[its vals] t] r _. cbn. pose proof (stuck vals t). destruct (parse vals t) as [[[[v1 values1] t1]|]|]; try congruence.
    intros Hr. repeat case_match; (discriminate Hr || (injection Hr as <-; done)).
  - enough (exists r, iterate (array_body parse) (S (length text)) (items, values, text) = Some r) as [r ->] by done.
    apply (iterate_total (array_body parse) (fun _ => True) (fun s => length s.2)); [|done|cbn; lia].
    intros [[its vals] t] s' _. cbn. destruct (parse vals t) as [[[[v1 values1] t1]|]|] eqn:Hp; try done.
    apply (parses_shorter room) in Hp; [|done]. pose proof (skip_space_length t1).
    case_bool_decide; [done|]. destruct (take_char 93 _); [done|].
    destruct (take_char 44 _) as [t2|] eqn:E; [|done]. apply take_char_spec in E. rewrite E in *.
    intros [= <-]. cbn in *. split; [done|lia].
Qed.

Lemma object_loop_total members values text :
  iterate (object_body parse) (S (length text)) (members, values, text) <> Some None /\
  is_Some (iterate (object_body parse) (S (length text)) (members, values, text)).
Proof.
  split.
  - intros H. eapply (iterate_inv (object_body parse) (fun _ => True) (fun r => r <> None)); [done| |done|exact H|done].
    intros [[ms vals] t] r _. cbn [object_body]. destruct (take_char 34 _) as [t1|]; [|intros [= <-]; done].
    destruct (parse_string_total t1) as [rs ->]. destruct rs as [[k t2]|]; [|intros [= <-]; done].
    case_bool_decide; [intros [= <-]; done|]. destruct (take_char 58 _) as [t3|]; [|intros [= <-]; done].
    pose proof (stuck vals t3). destruct (parse vals t3) as [[[[v1 values1] t4]|]|]; try congruence.
    intros Hr. repeat case_match; (discriminate Hr || (injection Hr as <-; done)).
  - enough (exists r, iterate (object_body parse) (S (length text)) (members, values, text) = Some r) as [r ->] by done.
    apply (iterate_total (object_body parse) (fun _ => True) (fun s => length s.2)); [|done|cbn; lia].
    intros [[ms vals] t] s' _. cbn [object_body]. pose proof (skip_space_length t). destruct (take_char 34 _) as [t1|] eqn:E1; [|done].
    apply take_char_spec in E1. rewrite E1 in *. destruct (parse_string t1) as [[[k t2]|]|] eqn:Es; try done.
    apply parse_string_sound in Es as (kt & -> & _). case_bool_decide; [done|].
    pose proof (skip_space_length t2). destruct (take_char 58 _) as [t3|] eqn:E2; [|done]. apply take_char_spec in E2. rewrite E2 in *.
    destruct (parse vals t3) as [[[[v1 values1] t4]|]|] eqn:Hp; try done.
    apply (parses_shorter room) in Hp; [|done]. pose proof (skip_space_length t4).
    case_bool_decide; [done|]. destruct (take_char 125 _); [done|].
    destruct (take_char 44 _) as [t5|] eqn:E3; [|done]. apply take_char_spec in E3. rewrite E3 in *.
    intros [= <-]. cbn in *. rewrite length_app in *. cbn in *. split; [done|lia].
Qed.

Lemma ends_spaces w c rest : spaces w -> c = 44 \/ c = 93 \/ c = 125 -> ends (w ++ c :: rest).
Proof. intros Hw Hc. destruct Hw; cbn; auto. Qed.

Lemma array_loop_complete vs t :
  items_text vs t -> Forall (within room) vs ->
  forall fuel items values rest, (length t < fuel)%nat -> values + total vs <= kMaxJsonValues ->
  iterate (array_body parse) fuel (items, values, t ++ 93 :: rest)
    = Some (Some (Success (Array (items ++ vs), values + total vs, rest))).
Proof.
  revert t. induction vs as [|v vs IH]; intros t Ht Hin fuel items values rest Hf Hmax; [by inversion Ht|].
  inversion Hin as [|? ? Hv Hvs]; subst. cbn [total foldr] in *. pose proof (total_nonneg vs) as Hnvs. unfold total in Hnvs.
  destruct fuel as [|fuel]; [lia|]. cbn [iterate array_body].
  inversion Ht as [w v' t1 w' Hw Hw' Hr|w v' t1 w' vs' ts Hw Hw' Hr Hts]; subst.
  - rewrite <- !app_assoc. rewrite (all v t1 w (w' ++ 93 :: rest) values); [|done|done|done|by apply ends_spaces; auto|cbn in *; lia].
    rewrite skip_spaces by done. rewrite skip_none by done. rewrite bool_decide_eq_false_2 by done. cbn. by rewrite Z.add_0_r.
  - repeat (rewrite <- ?app_assoc; cbn [app]).
    rewrite (all v t1 w (w' ++ 44 :: ts ++ 93 :: rest) values); [|done|done|done|by apply ends_spaces; auto|lia].
    rewrite skip_spaces by done. rewrite skip_none by done. rewrite bool_decide_eq_false_2 by done. cbn [take_char Z.eqb Pos.eqb].
    rewrite IH; [unfold total; by rewrite <- app_assoc, Z.add_assoc|done|done| |unfold total; lia].
    rewrite !length_app in Hf. cbn in Hf. lia.
Qed.
Lemma find_member_none k (ms : list (bytes * JsonValue)) : k ∉ ms.*1 -> find_member k ms = None.
Proof.
  intros Hk. unfold find_member. destruct (List.find _ ms) as [m|] eqn:E; [|done].
  apply find_some in E as [Hin Hm]. apply bool_decide_eq_true in Hm. exfalso. apply Hk. subst k.
  apply list_elem_of_fmap_2. by apply list_elem_of_In.
Qed.

Lemma object_loop_complete ms t :
  members_text ms t -> Forall (fun m => short m.1 /\ within room m.2) ms ->
  forall fuel members values rest, NoDup (members.*1 ++ ms.*1) -> (length t < fuel)%nat ->
  values + total (ms.*2) <= kMaxJsonValues ->
  iterate (object_body parse) fuel (members, values, t ++ 125 :: rest)
    = Some (Some (Success (Object (members ++ ms), values + total (ms.*2), rest))).
Proof.
  revert t. induction ms as [|[k v] ms IH]; intros t Ht Hin fuel members values rest Hnd Hf Hmax; [by inversion Ht|].
  inversion Hin as [|? ? [Hk Hv] Hms]; subst. cbn [fmap list_fmap fst snd total foldr] in *.
  pose proof (total_nonneg (ms.*2)) as Hnvs. unfold total in Hnvs.
  destruct fuel as [|fuel]; [lia|]. cbn [iterate object_body].
  assert (k ∉ members.*1) as Hnew.
  { intros Hk'. apply NoDup_app in Hnd as (_ & Hdis & _). apply (Hdis k Hk'). by left. }
  inversion Ht as [k' kt w1 w2 w3 w4 v' t1 H1 H2 H3 H4 Hkt Hr|k' kt w1 w2 w3 w4 v' t1 ms' ts H1 H2 H3 H4 Hkt Hr Hts]; subst;
    repeat (rewrite <- ?app_assoc; cbn [app]);
    rewrite skip_spaces, skip_none by done; cbn [take_char Z.eqb Pos.eqb];
    rewrite (parse_string_complete k kt) by done; rewrite find_member_none by done;
    rewrite bool_decide_eq_false_2 by (by intros []);
    rewrite skip_spaces, skip_none by done; cbn [take_char Z.eqb Pos.eqb].
  - rewrite (all v t1 w3 (w4 ++ 125 :: rest) values); [|done|done|done|by apply ends_spaces; auto|cbn in *; lia].
    rewrite skip_spaces, skip_none by done. rewrite bool_decide_eq_false_2 by done. cbn. by rewrite Z.add_0_r.
  - rewrite (all v t1 w3 (w4 ++ 44 :: ts ++ 125 :: rest) values); [|done|done|done|by apply ends_spaces; auto|lia].
    rewrite skip_spaces, skip_none by done. rewrite bool_decide_eq_false_2 by done. cbn [take_char Z.eqb Pos.eqb].
    rewrite IH; [unfold total; by rewrite <- app_assoc, Z.add_assoc|done|done| | |unfold total; lia].
    + by rewrite fmap_app, <- app_assoc.
    + clear -Hf. repeat (rewrite length_app in Hf || cbn [length] in Hf). lia.
Qed.

(** The containers, opened. *)
Lemma parse_array_exact :
  (forall values text, parse_array parse values text <> None) /\
  (forall values text v values' rest, values <= kMaxJsonValues ->
     parse_array parse values text = Some (Success (v, values', rest)) ->
     exists t, text = t ++ rest /\ reads v (91 :: t) /\ within (S room) v /\
       values' = values + (count v - 1) /\ values' <= kMaxJsonValues) /\
  (forall vs t rest values, reads (Array vs) (91 :: t) -> Forall (within room) vs ->
     values + total vs <= kMaxJsonValues ->
     parse_array parse values (t ++ rest) = Some (Success (Array vs, values + total vs, rest))).
Proof.
  split_and!.
  - intros values text. unfold parse_array. cbn zeta. destruct (take_char 93 _); [done|].
    destruct (array_loop_total [] values (skip_space text)) as [Hn [r Hr]]. rewrite Hr in Hn |- *. intros H. apply Hn. by rewrite <- H.
  - intros values text v values' rest Hmax. unfold parse_array. cbn zeta.
    destruct (skip_space_split text) as (w & Hw & Ht). destruct (take_char 93 _) as [t|] eqn:E.
    { apply take_char_spec in E. rewrite E in Ht. intros [= <- <- <-]. exists (w ++ [93]). rewrite Ht, <- app_assoc.
      split_and!; [done|by constructor|by apply within_array|cbn; lia|done]. }
    destruct (array_loop_total [] values (skip_space text)) as [Hn [r Hr]]. rewrite Hr in *. cbn. intros ->.
    apply array_loop_sound in Hr as (vs & t & -> & Hs & Hts & Hin & Hv & Hle). cbn [app].
    exists ((w ++ t) ++ [93]). rewrite Ht, Hs, <- !app_assoc. split_and!; [done| |by apply within_array|rewrite count_array; lia|done].
    rewrite app_assoc. apply reads_items. destruct Hts.
    + rewrite app_assoc. constructor; try done. by apply Forall_app.
    + rewrite app_assoc. constructor; try done. by apply Forall_app.
  - intros vs t rest values Hr Hin Hmax. unfold parse_array. cbn zeta. inversion Hr as [| | | | |w Hw|vs' t' Hts| |]; subst.
    { rewrite <- app_assoc. cbn [app]. rewrite skip_spaces, skip_none by done. cbn. by rewrite Z.add_0_r. }
    assert (exists w t1, t' = w ++ t1 /\ spaces w /\ items_text vs t1 /\ exists c t2, t1 = c :: t2 /\ is_space c = false /\ c <> 93)
      as (w & t1 & -> & Hw & Hts1 & c & t2 & Et1 & Hc & Hc93).
    { inversion Hts as [w v' t1 w' Hw Hw' Hr'|w v' t1 w' vs' ts Hw Hw' Hr' Hts']; subst;
        destruct (reads_head _ _ Hr') as (c & t2 & -> & Hc & _ & Hc93 & _).
      - exists w, ([] ++ (c :: t2) ++ w'). split_and!; [done|done|by apply items_last; [constructor|..]|by eexists _, _].
      - exists w, ([] ++ (c :: t2) ++ w' ++ 44 :: ts). split_and!; [done|done|by apply items_more; [constructor|..]|by eexists _, _]. }
    rewrite <- !app_assoc. cbn [app]. rewrite skip_spaces by done.
    assert (skip_space (t1 ++ 93 :: rest) = t1 ++ 93 :: rest) as -> by (rewrite Et1; cbn [app]; by rewrite skip_none).
    assert (take_char 93 (t1 ++ 93 :: rest) = None) as -> by (rewrite Et1; apply take_char_none; by intros r [= -> _]).
    rewrite (array_loop_complete vs t1) by (try done; rewrite ?length_app; cbn; lia). done.
Qed.

Lemma members_front ms t :
  members_text ms t -> exists w t1, t = w ++ 34 :: t1 /\ spaces w /\ members_text ms (34 :: t1) /\
    forall w', spaces w' -> members_text ms (w' ++ t).
Proof.
  destruct 1 as [k kt w1 w2 w3 w4 v t H1 H2 H3 H4 Hk Hr|k kt w1 w2 w3 w4 v t ms ts H1 H2 H3 H4 Hk Hr Hts].
  - eexists w1, _. split_and!; [done|done| |].
    + apply (members_last k kt [] w2 w3 w4); try done. constructor.
    + intros w' Hw'. rewrite app_assoc. apply members_last; try done. by apply Forall_app.
  - eexists w1, _. split_and!; [done|done| |].
    + apply (members_more k kt [] w2 w3 w4); try done. constructor.
    + intros w' Hw'. rewrite app_assoc. apply members_more; try done. by apply Forall_app.
Qed.

Lemma parse_object_exact :
  (forall values text, parse_object parse values text <> None) /\
  (forall values text v values' rest, values <= kMaxJsonValues ->
     parse_object parse values text = Some (Success (v, values', rest)) ->
     exists t, text = t ++ rest /\ reads v (123 :: t) /\ within (S room) v /\
       values' = values + (count v - 1) /\ values' <= kMaxJsonValues) /\
  (forall ms t rest values, reads (Object ms) (123 :: t) ->
     NoDup (ms.*1) -> Forall (fun m => short m.1 /\ within room m.2) ms ->
     values + total (ms.*2) <= kMaxJsonValues ->
     parse_object parse values (t ++ rest) = Some (Success (Object ms, values + total (ms.*2), rest))).
Proof.
  split_and!.
  - intros values text. unfold parse_object. cbn zeta. destruct (take_char 125 _); [done|].
    destruct (object_loop_total [] values (skip_space text)) as [Hn [r Hr]].
    rewrite Hr in Hn |- *. intros H. apply Hn. by rewrite <- H.
  - intros values text v values' rest Hmax. unfold parse_object. cbn zeta.
    destruct (skip_space_split text) as (w & Hw & Ht). destruct (take_char 125 _) as [t|] eqn:E.
    { apply take_char_spec in E. rewrite E in Ht. intros [= <- <- <-]. exists (w ++ [125]). rewrite Ht, <- app_assoc.
      split_and!; [done|by constructor| |cbn; lia|done]. apply within_object. by split; constructor. }
    destruct (object_loop_total [] values (skip_space text)) as [Hn [r Hr]]. rewrite Hr in *. cbn. intros ->.
    apply object_loop_sound in Hr as (ms & t & -> & Hs & Hts & Hin & Hnd & _ & Hv & Hle). cbn [app].
    exists ((w ++ t) ++ [125]). rewrite Ht, Hs, <- !app_assoc. split_and!; [done| |by apply within_object|rewrite count_object; lia|done].
    rewrite app_assoc. apply reads_members. destruct (members_front _ _ Hts) as (? & ? & _ & _ & _ & Hfront). by apply Hfront.
  - intros ms t rest values Hr Hnd Hin Hmax. unfold parse_object. cbn zeta. inversion Hr as [| | | | | | |w Hw|ms' t' Hts]; subst.
    { rewrite <- app_assoc. cbn [app]. rewrite skip_spaces, skip_none by done. cbn. by rewrite Z.add_0_r. }
    destruct (members_front _ _ Hts) as (w & t1 & -> & Hw & Hts1 & _).
    rewrite <- !app_assoc. cbn [app]. rewrite skip_spaces, skip_none by done. cbn [take_char Z.eqb Pos.eqb].
    change (34 :: t1 ++ 125 :: rest) with ((34 :: t1) ++ 125 :: rest).
    rewrite (object_loop_complete ms (34 :: t1)); [done|done|done|done|rewrite length_app; cbn; lia|done].
Qed.
End level.

(** ** The scalars *)

Lemma parse_number_total t : parse_number t <> None.
Proof.
  unfold parse_number. destruct (match take_char 45 t with Some _ => _ | None => _ end) as [minus [|c t']]; [done|].
  destruct (negb _); [done|]. destruct (if c =? 48 then _ else _) as [whole t1].
  assert (exists r, fraction t1 = Some r) as [[[f t2]|] ->]; [|cbn [checked_bind]|done].
  { unfold fraction. destruct (take_char 46 t1); [destruct (digits _)|]; repeat case_match; eauto. }
  assert (exists r, exponent t2 = Some r) as [[[e t3]|] ->]; [|cbn [checked_bind]; by case_match|done].
  unfold exponent. destruct t2 as [|x t2]; [eauto|]. destruct (_ || _); [|eauto].
  destruct (match t2 with [] => _ | _ => _ end) as [sg t3]. destruct (digits t3). case_bool_decide; eauto.
Qed.

Lemma parse_scalar_total values t : parse_scalar values t <> None.
Proof.
  unfold parse_scalar. destruct (literal "true" t); [done|]. destruct (literal "false" t); [done|].
  destruct (literal "null" t); [done|]. pose proof (parse_number_total t).
  by destruct (parse_number t) as [[[v r]|]|].
Qed.

Lemma parse_scalar_sound values t v values' rest :
  parse_scalar values t = Some (Success (v, values', rest)) ->
  exists u, t = u ++ rest /\ reads v u /\ bounded v /\ height v = 0%nat /\ count v = 1 /\ values' = values.
Proof.
  unfold parse_scalar. destruct (literal "true" t) as [r|] eqn:E1.
  { apply literal_spec in E1 as ->. intros [= <- <- <-]. eexists. split; [done|]. by split; [constructor|]. }
  destruct (literal "false" t) as [r|] eqn:E2.
  { apply literal_spec in E2 as ->. intros [= <- <- <-]. eexists. split; [done|]. by split; [constructor|]. }
  destruct (literal "null" t) as [r|] eqn:E3.
  { apply literal_spec in E3 as ->. intros [= <- <- <-]. eexists. split; [done|]. by split; [constructor|]. }
  destruct (parse_number t) as [[[v' r]|]|] eqn:E; try done. cbn. intros [= <- <- <-].
  apply parse_number_sound in E as (n & -> & -> & Hn & Hs). exists n. by split_and!; [|constructor|..].
Qed.

Lemma literal_none word c t x w : chars word = x :: w -> x <> c -> literal word (c :: t) = None.
Proof.
  intros Hw Hx. destruct (literal word (c :: t)) as [r|] eqn:E; [|done].
  apply literal_spec in E. rewrite Hw in E. by injection E.
Qed.

Lemma parse_scalar_number values n rest :
  number_text n -> short n -> ends rest ->
  parse_scalar values (n ++ rest) = Some (Success (Number n, values, rest)).
Proof.
  intros Hn Hs He. unfold parse_scalar. rewrite parse_number_complete by done.
  destruct (number_head n Hn) as (c & t & -> & Hc). cbn [app].
  assert (c <> 116 /\ c <> 102 /\ c <> 110) as (H1 & H2 & H3) by (unfold is_digit in Hc; lia).
  rewrite (literal_none "true" c _ 116 _ eq_refl), (literal_none "false" c _ 102 _ eq_refl),
    (literal_none "null" c _ 110 _ eq_refl) by done. done.
Qed.

(** Every level keeps the promise of the next. *)
Definition level_exact (room : nat) (parse : Z -> bytes -> parsed) : Prop :=
  parses_only room parse /\ parses_all room parse /\ never_stuck parse.

Definition below (P : nat -> Prop) (room : nat) : Prop :=
  match room with O => True | S room => P room end.

Lemma value_sound room :
  below (fun r => level_exact r (parse_value r)) room -> parses_only room (parse_value room).
Proof.
  intros Hnext values text v values' rest. destruct room as [|room]; [|destruct Hnext as (Ho & Ha & Hn)];
    cbn [parse_value]; destruct (_ <? _) eqn:Hmax; try done; bool_to_prop;
    destruct (skip_space_split text) as (w & Hw & Ht); destruct (skip_space text) as [|c text1]; try done; subst text;
    (destruct (c =? 34) eqn:E3; bool_to_prop;
      [subst c; cbn [Z.eqb Pos.eqb]; destruct (parse_string text1) as [[[s r]|]|] eqn:Es; try done; cbn [checked_bind];
       intros [= <- <- <-]; apply parse_string_sound in Es as (t & -> & Hst & Hs); exists w, (34 :: t ++ [34]);
       split_and!; [cbn [app]; by rewrite <- app_assoc|done|by constructor|split; [done|cbn; lia]|cbn; lia|lia]|]).
  all: destruct (c =? 123) eqn:E1; bool_to_prop; [subst c|destruct (c =? 91) eqn:E2; bool_to_prop; [subst c|]]; try done.
  all: try (intros (u & -> & Hr & Hb & Hh & Hc & ->)%parse_scalar_sound; exists w, u;
    split_and!; [done|done|done|split; [done|lia]|lia|lia]).
  - intros H. apply (parse_object_exact room _ Ho Ha Hn) in H as (t & -> & Hr & Hin & Hv & Hle); [|lia].
    exists w, (123 :: t). split_and!; try done; lia.
  - intros H. apply (parse_array_exact room _ Ho Ha Hn) in H as (t & -> & Hr & Hin & Hv & Hle); [|lia].
    exists w, (91 :: t). split_and!; try done; lia.
Qed.

Lemma value_total room :
  below (fun r => level_exact r (parse_value r)) room -> never_stuck (parse_value room).
Proof.
  intros Hnext values text. destruct room as [|room]; [|destruct Hnext as (Ho & Ha & Hn)];
    cbn [parse_value]; (destruct (_ <? _); [done|]); (destruct (skip_space text) as [|c t]; [done|]);
    (destruct (c =? 34) eqn:E; bool_to_prop;
      [subst c; cbn [Z.eqb Pos.eqb]; by destruct (parse_string_total t) as [[[s r]|] ->]|]).
  all: destruct (c =? 123); [|destruct (c =? 91); [|apply parse_scalar_total]]; try done.
  - by apply (parse_object_exact room _ Ho Ha Hn).
  - by apply (parse_array_exact room _ Ho Ha Hn).
Qed.

(** A value that is neither an array nor an object opens no level. *)
Lemma scalar_complete room v t rest values :
  reads v t -> bounded v -> height v = 0%nat -> ends rest -> values + 1 <= kMaxJsonValues ->
  parse_value room values (t ++ rest) = Some (Success (v, values + 1, rest)).
Proof.
  intros Hr Hb Hh He Hmax.
  assert (forall c u, c <> 123 -> c <> 91 -> c <> 34 -> is_space c = false ->
    parse_value room values (c :: u) = parse_scalar (values + 1) (c :: u)) as Hscalar.
  { intros c u H1 H2 H3 Hs. destruct room; cbn [parse_value]; rewrite skip_none by done;
      rewrite (proj2 (Z.ltb_ge _ _)) by lia; by rewrite !(proj2 (Z.eqb_neq _ _)) by done. }
  inversion Hr as [| | |n Hn|s u Hs| | | |]; subst; try done.
  - by etrans; [apply (Hscalar 110 (chars "ull" ++ rest))|].
  - by etrans; [apply (Hscalar 116 (chars "rue" ++ rest))|].
  - by etrans; [apply (Hscalar 102 (chars "alse" ++ rest))|].
  - destruct (number_head t Hn) as (c & u & Et & Hc).
    rewrite Et. cbn [app]. rewrite Hscalar by (unfold is_digit, is_space in *; lia).
    change (c :: u ++ rest) with ((c :: u) ++ rest). rewrite <- Et. by apply parse_scalar_number.
  - cbn [app]. rewrite <- app_assoc. destruct room; cbn [parse_value]; rewrite skip_none by done;
      rewrite (proj2 (Z.ltb_ge _ _)) by lia; cbn [Z.eqb Pos.eqb app]; by rewrite (parse_string_complete s u).
Qed.

Lemma parse_value_skip room w t values : spaces w -> parse_value room values (w ++ t) = parse_value room values t.
Proof. intros Hw. destruct room; cbn [parse_value]; by rewrite skip_spaces. Qed.

Lemma value_complete room :
  below (fun r => level_exact r (parse_value r)) room -> parses_all room (parse_value room).
Proof.
  intros Hnext v t w rest values Hr Hin Hw He Hmax. rewrite parse_value_skip by done.
  destruct (decide (height v = 0%nat)) as [Hh|Hh].
  { destruct Hin. replace (count v) with 1 in * by by destruct v. by apply scalar_complete. }
  destruct room as [|room]; [by destruct Hin as [_ Hin]; lia|].
  destruct Hnext as (Ho & Ha & Hn); destruct (reads_head _ _ Hr) as (c & u & -> & Hc & _).
  destruct v as [| | | |vs|ms]; try done.
  - assert (c = 91) as -> by (by inversion Hr). rewrite count_array in *. apply within_array in Hin.
    cbn [app parse_value]; rewrite skip_none by done; cbn [Z.eqb Pos.eqb]. pose proof (total_nonneg vs).
    rewrite (proj2 (Z.ltb_ge _ _)) by lia. rewrite Z.add_assoc. apply (parse_array_exact room _ Ho Ha Hn); done || lia.
  - assert (c = 123) as -> by (by inversion Hr). rewrite count_object in *. apply within_object in Hin as [Hnd Hin].
    cbn [app parse_value]; rewrite skip_none by done; cbn [Z.eqb Pos.eqb]. pose proof (total_nonneg (ms.*2)).
    rewrite (proj2 (Z.ltb_ge _ _)) by lia. rewrite Z.add_assoc. apply (parse_object_exact room _ Ho Ha Hn); done || lia.
Qed.

Lemma parse_value_exact room : level_exact room (parse_value room).
Proof.
  induction room as [|room IH]; (split_and!; [apply value_sound|apply value_complete|apply value_total]); done.
Qed.

(** ** The document *)

(** The text of a whole document. *)
Definition document_text (v : JsonValue) (text : bytes) : Prop :=
  exists w t w', text = w ++ t ++ w' /\ spaces w /\ spaces w' /\ reads v t.

Lemma skip_all_spaces t : skip_space t = [] <-> spaces t.
Proof.
  split.
  - destruct (skip_space_split t) as (w & Hw & Ht). intros E. rewrite Ht, E, app_nil_r. done.
  - intros Ht. rewrite <- (app_nil_r t). by rewrite skip_spaces.
Qed.

Lemma parse_json_exact text :
  parse_json text <> None /\
  forall v, parse_json text = Some (Success v) <->
    zlen text <= kMaxJsonSize /\ document_text v text /\ within kMaxJsonDepth v /\ count v <= kMaxJsonValues.
Proof.
  destruct (parse_value_exact kMaxJsonDepth) as (Ho & Ha & Hn). unfold parse_json, document. split.
  - destruct (_ <? _); [done|]. pose proof (Hn 0 text).
    destruct (parse_value kMaxJsonDepth 0 text) as [[[[v n] r]|]|]; try done. cbn [checked_bind]. by case_match.
  - intros v. split.
    + destruct (_ <? _) eqn:Hz; [done|]. bool_to_prop.
      destruct (parse_value kMaxJsonDepth 0 text) as [[[[v' n] r]|]|] eqn:Hp; try done. cbn [checked_bind].
      destruct (skip_space r) eqn:Er; [|done]. intros [= <-]. apply skip_all_spaces in Er.
      apply Ho in Hp as (w & t & -> & Hw & Hr & Hin & -> & Hle). split_and!; [lia|by exists w, t, r|done|lia].
    + intros (Hz & (w & t & w' & -> & Hw & Hw' & Hr) & Hin & Hle). rewrite (proj2 (Z.ltb_ge _ _)) by lia.
      rewrite (Ha v t w w' 0) by (try done; destruct Hw'; cbn; auto). cbn [checked_bind].
      by rewrite (proj2 (skip_all_spaces w')).
Qed.

