(* ===== verification/Minicbor.v ===== *)
(** * An independent CBOR reader and writer

    [support/minicbor/]: the CBOR of the simulated device and of the test
    doubles, written from RFC 8949's table and not from the library's own
    façade. The encoder writes heads in the shortest form; the decoder reads
    any definite-length encoding of the subset MCUmgr uses. They are shown to
    invert each other, and the value trees they carry are the specification the
    façade's theorems (Cbor.v, GroupCodecs.v) are stated against. *)

From Stdlib Require Import Ascii.
From S2P Require Import Prelude.

(** ** Text

    A [std::string] holds the bytes of a text string unchanged. *)

Definition char_of_byte (b : Z) : ascii := ascii_of_N (Z.to_N b).
Definition byte_of_char (c : ascii) : Z := Z.of_N (N_of_ascii c).

Fixpoint text_of_bytes (l : bytes) : string :=
  match l with [] => EmptyString | b :: l => String (char_of_byte b) (text_of_bytes l) end.

Fixpoint bytes_of_text (s : string) : bytes :=
  match s with EmptyString => [] | String c s => byte_of_char c :: bytes_of_text s end.

Lemma byte_of_char_u8 c : u8 (byte_of_char c).
Proof.
  unfold byte_of_char, fits. pose proof (N_ascii_bounded c). change (2 ^ 8) with 256. lia.
Qed.

Lemma char_byte c : char_of_byte (byte_of_char c) = c.
Proof. unfold char_of_byte, byte_of_char. by rewrite N2Z.id, ascii_N_embedding. Qed.

Lemma byte_char b : u8 b -> byte_of_char (char_of_byte b) = b.
Proof.
  unfold char_of_byte, byte_of_char, fits. change (2 ^ 8) with 256. intros Hb.
  rewrite N_ascii_embedding by lia. lia.
Qed.

Lemma text_bytes s : text_of_bytes (bytes_of_text s) = s.
Proof. induction s as [|c s IH]; simpl; [done|]. by rewrite char_byte, IH. Qed.

Lemma bytes_text l : byte_list l -> bytes_of_text (text_of_bytes l) = l.
Proof. induction 1 as [|b l Hb _ IH]; simpl; [done|]. by rewrite byte_char, IH. Qed.

Lemma bytes_of_text_ok s : byte_list (bytes_of_text s).
Proof. induction s as [|c s IH]; constructor; [apply byte_of_char_u8|done]. Qed.

Lemma length_bytes_of_text s : length (bytes_of_text s) = String.length s.
Proof. induction s as [|c s IH]; simpl; [done|]. by rewrite IH. Qed.

Lemma length_text_of_bytes l : String.length (text_of_bytes l) = length l.
Proof. induction l as [|b l IH]; simpl; [done|]. by rewrite IH. Qed.

#[export] Hint Resolve bytes_of_text_ok byte_of_char_u8 : smply.

(** ** Values *)

(** [minicbor::Value]: a kind with the field it selects. A map holds its entries
    flattened, key, value, key, value. *)
Inductive Value :=
| Uint (n : Z)
| Nint (z : Z)
| Bytes (b : bytes)
| Text (t : string)
| Bool (b : bool)
| Array (items : list Value)
| Map (items : list Value).

(** [Value::size]. *)
Definition value_size (v : Value) : nat :=
  match v with
  | Map items => length items / 2
  | Array items => length items
  | _ => 0
  end.

(** The loop of [Value::find]: [items[i].text] is empty for a value that is not
    a text. *)
Fixpoint find_loop (key : string) (items : list Value) : option Value :=
  match items with
  | k :: v :: rest =>
      if bool_decide (match k with Text t => t | _ => EmptyString end = key) then Some v
      else find_loop key rest
  | _ => None
  end.

(** [Value::find]. *)
Definition find (key : string) (v : Value) : option Value :=
  match v with Map items => find_loop key items | _ => None end.

(** [Value::get_uint]. *)
Definition get_uint (key : string) (v : Value) : option Z :=
  match find key v with Some (Uint n) => Some n | _ => None end.

(** [Value::get_bool]. *)
Definition get_bool (key : string) (v : Value) : option bool :=
  match find key v with Some (Bool b) => Some b | _ => None end.

(** ** Writing *)

(** [Writer::push_be]. *)
Fixpoint push_be (value : Z) (width : nat) : bytes :=
  match width with
  | O => []
  | S i => Z.land (Z.shiftr value (Z.of_nat i * 8)) 255 :: push_be value i
  end.

(** [Writer::head]. *)
Definition head (major value : Z) : bytes :=
  let initial extra := wrap 8 (Z.lor (Z.shiftl major 5) extra) in
  if value <? 24 then [initial value]
  else if value <=? 255 then [initial 24; value]
  else if value <=? 65535 then initial 25 :: push_be value 2
  else if value <=? 4294967295 then initial 26 :: push_be value 4
  else initial 27 :: push_be value 8.

(** [Writer::uint], [nint], [blob], [text], [boolean], [array] and [map]: each
    appends one item, the containers only their head. *)
Definition w_uint (n : Z) : bytes := head 0 n.
Definition w_nint (z : Z) : bytes := head 1 (- (z + 1)).
Definition w_blob (b : bytes) : bytes := head 2 (zlen b) ++ b.
Definition w_text (t : string) : bytes := head 3 (zlen (bytes_of_text t)) ++ bytes_of_text t.
Definition w_boolean (b : bool) : bytes := [if b then 0xF5 else 0xF4].
Definition w_array (items : Z) : bytes := head 4 items.
Definition w_map (pairs : Z) : bytes := head 5 pairs.

(** A whole tree, with the counts a well-formed encoder states. *)
Fixpoint encode (v : Value) : bytes :=
  match v with
  | Uint n => w_uint n
  | Nint z => w_nint z
  | Bytes b => w_blob b
  | Text t => w_text t
  | Bool b => w_boolean b
  | Array items => w_array (zlen items) ++ flat_map encode items
  | Map items => w_map (zlen items / 2) ++ flat_map encode items
  end.

(** ** Reading

    A [Cursor] is the bytes it has not consumed: [bytes_.subspan(position_)]. *)

(** [Cursor::take_byte]. *)
Definition take_byte (cursor : bytes) : option (Z * bytes) :=
  match cursor with [] => None | b :: rest => Some (b, rest) end.

(** [Cursor::take]. *)
Definition take_bytes (count : Z) (cursor : bytes) : option (bytes * bytes) :=
  if zlen cursor <? count then None
  else Some (take (Z.to_nat count) cursor, drop (Z.to_nat count) cursor).

(** The loop of [read_argument]. *)
Fixpoint read_be (width : nat) (value : Z) (cursor : bytes) : option (Z * bytes) :=
  match width with
  | O => Some (value, cursor)
  | S w =>
      match take_byte cursor with
      | None => None
      | Some (next, rest) => read_be w (Z.lor (wrap 64 (Z.shiftl value 8)) next) rest
      end
  end.

(** [read_argument]. *)
Definition read_argument (extra : Z) (cursor : bytes) : option (Z * bytes) :=
  if extra <? 24 then Some (extra, cursor)
  else if extra =? 24 then read_be 1 0 cursor
  else if extra =? 25 then read_be 2 0 cursor
  else if extra =? 26 then read_be 4 0 cursor
  else if extra =? 27 then read_be 8 0 cursor
  else None.

Definition kMaxDepth : nat := 8.

(** The loop of [parse_items], [item] being [parse_item(cursor, depth)]. The
    count is whatever the device claims, up to 2^64; an item that parses
    consumes a byte, so the cursor's length bounds the rounds
    ([items_loop_fuel]). *)
Fixpoint items_loop (fuel : nat) (item : bytes -> option (Value * bytes)) (count : Z)
    (cursor : bytes) : option (list Value * bytes) :=
  if count <=? 0 then Some ([], cursor)
  else
    match fuel with
    | O => None
    | S fuel =>
        match item cursor with
        | None => None
        | Some (v, rest) =>
            match items_loop fuel item (count - 1) rest with
            | None => None
            | Some (vs, rest) => Some (v :: vs, rest)
            end
        end
    end.

(** The loop of the map case of [parse_item]. *)
Fixpoint entries_loop (fuel : nat) (item : bytes -> option (Value * bytes)) (count : Z)
    (cursor : bytes) : option (list Value * bytes) :=
  if count <=? 0 then Some ([], cursor)
  else
    match fuel with
    | O => None
    | S fuel =>
        match item cursor with
        | Some (Text k, rest) =>
            match item rest with
            | None => None
            | Some (v, rest) =>
                match entries_loop fuel item (count - 1) rest with
                | None => None
                | Some (vs, rest) => Some (Text k :: v :: vs, rest)
                end
            end
        | _ => None
        end
    end.

(** [parse_item] from its [take_byte] on, [item] being the call one level
    down. *)
Definition parse_body (item : bytes -> option (Value * bytes)) (cursor : bytes)
  : option (Value * bytes) :=
  match take_byte cursor with
  | None => None
  | Some (initial, rest) =>
      let major := Z.shiftr initial 5 in
      let extra := Z.land initial 31 in
      if major =? 7 then
        if (extra =? 20) || (extra =? 21) then Some (Bool (extra =? 21), rest) else None
      else
        match read_argument extra rest with
        | None => None
        | Some (argument, rest) =>
            if major =? 0 then Some (Uint argument, rest)
            else if major =? 1 then
              if 0x7FFFFFFFFFFFFFFF <? argument then None
              else Some (Nint (-1 - argument), rest)
            else if major =? 2 then
              match take_bytes argument rest with
              | None => None
              | Some (content, rest) => Some (Bytes content, rest)
              end
            else if major =? 3 then
              match take_bytes argument rest with
              | None => None
              | Some (content, rest) => Some (Text (text_of_bytes content), rest)
              end
            else if major =? 4 then
              match items_loop (length rest) item argument rest with
              | None => None
              | Some (vs, rest) => Some (Array vs, rest)
              end
            else if major =? 5 then
              match entries_loop (length rest) item argument rest with
              | None => None
              | Some (vs, rest) => Some (Map vs, rest)
              end
            else None
        end
  end.

(** [parse_item] at a depth: [levels] is [kMaxDepth + 1 - depth], so the guard
    [depth > kMaxDepth] is the recursion running out. *)
Fixpoint parse_level (levels : nat) (cursor : bytes) : option (Value * bytes) :=
  match levels with
  | O => None
  | S n => parse_body (parse_level n) cursor
  end.

Definition parse_item (depth : nat) : bytes -> option (Value * bytes) :=
  parse_level (kMaxDepth + 1 - depth).

(** [minicbor::parse]. *)
Definition parse (input : bytes) : option Value :=
  match parse_item 0 input with
  | Some (v, []) => Some v
  | _ => None
  end.

(** ** Heads *)

Lemma push_be_u8 value width : byte_list (push_be value width).
Proof.
  induction width as [|w IH]; constructor; [|done].
  rewrite land_255. apply Z.mod_pos_bound. lia.
Qed.

Lemma length_push_be value width : length (push_be value width) = width.
Proof. induction width; simpl; congruence. Qed.

(** Reading back a big-endian field, on top of what was read before it. *)
Lemma read_push_be value width acc rest :
  0 <= acc -> 0 <= value -> (acc + 1) * 2 ^ (8 * Z.of_nat width) <= 2 ^ 64 ->
  read_be width acc (push_be value width ++ rest)
  = Some (acc * 2 ^ (8 * Z.of_nat width) + value mod 2 ^ (8 * Z.of_nat width), rest).
Proof.
  revert acc. induction width as [|w IH]; intros acc Ha Hv Hfit; cbn [read_be push_be app].
  { rewrite Z.mul_0_r, Z.pow_0_r, Z.mod_1_r. by rewrite Z.mul_1_r, Z.add_0_r. }
  assert (2 ^ (8 * Z.of_nat (S w)) = 256 * 2 ^ (8 * Z.of_nat w)) as Hp.
  { rewrite Nat2Z.inj_succ, Z.mul_succ_r, Z.pow_add_r by lia. lia. }
  rewrite Hp in *. set (p := 2 ^ (8 * Z.of_nat w)) in *.
  assert (0 < p) by (apply Z.pow_pos_nonneg; lia).
  cbn [take_byte]. set (d := Z.land _ 255).
  assert (d = (value / p) mod 256) as Hd.
  { subst d. by rewrite land_255, Z.shiftr_div_pow2, Z.mul_comm by lia. }
  assert (0 <= d < 2 ^ 8) by (rewrite Hd; apply Z.mod_pos_bound; lia).
  rewrite Z.shiftl_mul_pow2, wrap_fits by (try unfold fits; nia).
  rewrite <-Z.shiftl_mul_pow2, lor_shiftl_add by lia.
  rewrite IH by nia. f_equal. f_equal. fold p.
  rewrite (Z.mul_comm 256 p), Z.rem_mul_r, <-Hd by lia. lia.
Qed.

Lemma land_31 x : Z.land x 31 = x mod 32.
Proof. change 31 with (Z.ones 5). by rewrite Z.land_ones by lia. Qed.

Lemma initial_byte major extra :
  0 <= major < 8 -> 0 <= extra < 32 ->
  wrap 8 (Z.lor (Z.shiftl major 5) extra) = major * 32 + extra /\
  Z.shiftr (major * 32 + extra) 5 = major /\ Z.land (major * 32 + extra) 31 = extra.
Proof.
  intros Hm He. rewrite lor_shiftl_add by lia. change (2 ^ 5) with 32. split_and!.
  - rewrite wrap_fits; [done|]. unfold fits. lia.
  - rewrite Z.shiftr_div_pow2 by lia. change (2 ^ 5) with 32.
    symmetry. apply Z.div_unique with extra; lia.
  - rewrite land_31. symmetry. apply Z.mod_unique with major; lia.
Qed.

(** The head of an item reads back as its major type and argument, whatever
    follows it. *)
Lemma head_spec major value rest :
  0 <= major < 8 -> u64 value ->
  exists initial tail,
    head major value ++ rest = initial :: tail /\ Z.shiftr initial 5 = major /\
    read_argument (Z.land initial 31) tail = Some (value, rest).
Proof.
  intros Hm Hv. unfold fits in Hv. unfold head.
  assert (forall w acc, (acc + 1) * 2 ^ (8 * Z.of_nat w) <= 2 ^ 64 -> acc = 0 ->
            value < 2 ^ (8 * Z.of_nat w) ->
            read_be w acc (push_be value w ++ rest) = Some (value, rest)) as Hr.
  { intros w acc Hf -> Hlt. rewrite read_push_be by lia.
    by rewrite Z.mod_small by lia. }
  repeat split_if; bool_to_prop; cbn [app].
  1: destruct (initial_byte major value) as (-> & Hs & He); [lia..|];
     eexists _, _; split_and!; [done..|]; rewrite He; unfold read_argument;
     by rewrite (proj2 (Z.ltb_lt value 24)) by lia.
  1: destruct (initial_byte major 24) as (-> & Hs & He); [lia..|];
     eexists _, _; split_and!; [done..|]; rewrite He; cbn.
  2: destruct (initial_byte major 25) as (-> & Hs & He); [lia..|].
  3: destruct (initial_byte major 26) as (-> & Hs & He); [lia..|].
  4: destruct (initial_byte major 27) as (-> & Hs & He); [lia..|].
  2,3,4: eexists _, _; split_and!; [done..|]; rewrite He; cbn -[push_be read_be app]; apply Hr; lia.
  unfold wrap. cbn. done.
Qed.

(** ** Termination and bounds: every item that parses consumes input. *)

Definition consumes (item : bytes -> option (Value * bytes)) : Prop :=
  forall c v r, item c = Some (v, r) -> exists used, used <> [] /\ c = used ++ r.

Lemma read_be_suffix w acc c v r : read_be w acc c = Some (v, r) -> exists used, c = used ++ r.
Proof.
  revert acc c. induction w as [|w IH]; intros acc c; cbn [read_be].
  { intros [= <- <-]. by exists []. }
  destruct c as [|b c]; simpl; [done|]. intros H. apply IH in H as [used ->]. by exists (b :: used).
Qed.

Lemma read_argument_suffix extra c v r :
  read_argument extra c = Some (v, r) -> exists used, c = used ++ r.
Proof.
  unfold read_argument. repeat split_if; try apply read_be_suffix; [|done].
  intros [= <- <-]. by exists [].
Qed.

Lemma take_bytes_suffix n c v r : take_bytes n c = Some (v, r) -> c = v ++ r.
Proof. unfold take_bytes. split_if; [done|]. intros [= <- <-]. by rewrite take_drop. Qed.

Section loops.
Context (item : bytes -> option (Value * bytes)) (Hitem : consumes item).

Lemma items_loop_suffix fuel count c vs r :
  items_loop fuel item count c = Some (vs, r) -> exists used, c = used ++ r.
Proof using Hitem.
  revert count c vs. induction fuel as [|fuel IH]; intros count c vs; cbn [items_loop];
    (split_if; [intros [= <- <-]; by exists []|]); [done|].
  destruct (item c) as [[v rest]|] eqn:E; [|done]. apply Hitem in E as (u1 & _ & ->).
  destruct (items_loop _ _ _ _) as [[vs' r']|] eqn:El; [|done]. intros [= <- <-].
  apply IH in El as (u2 & ->). exists (u1 ++ u2). by rewrite app_assoc.
Qed.

Lemma entries_loop_suffix fuel count c vs r :
  entries_loop fuel item count c = Some (vs, r) -> exists used, c = used ++ r.
Proof using Hitem.
  revert count c vs. induction fuel as [|fuel IH]; intros count c vs; cbn [entries_loop];
    (split_if; [intros [= <- <-]; by exists []|]); [done|].
  destruct (item c) as [[[] r1]|] eqn:E1; try done. apply Hitem in E1 as (u1 & _ & ->).
  destruct (item r1) as [[v r2]|] eqn:E2; [|done]. apply Hitem in E2 as (u2 & _ & ->).
  destruct (entries_loop _ _ _ _) as [[vs' r']|] eqn:El; [|done]. intros [= <- <-].
  apply IH in El as (u3 & ->). exists (u1 ++ u2 ++ u3). by rewrite <-!app_assoc.
Qed.

(** More rounds than bytes change nothing: the loops end on their own. *)
Lemma items_loop_fuel fuel fuel' count c :
  (length c <= fuel)%nat -> (length c <= fuel')%nat ->
  items_loop fuel item count c = items_loop fuel' item count c.
Proof using Hitem.
  assert (item [] = None) as Hnil.
  { destruct (item []) as [[v r]|] eqn:E; [|done]. by apply Hitem in E as ([|] & ? & [=]). }
  revert fuel' count c. induction fuel as [|fuel IH]; intros [|fuel'] count c Hf Hf'; cbn [items_loop];
    split_if; try done; try (destruct c; [by rewrite ?Hnil|simpl in *; lia]).
  destruct (item c) as [[v rest]|] eqn:E; [|done].
  apply Hitem in E as (u & Hu & ->). rewrite length_app in *.
  assert (0 < length u)%nat by (destruct u; simpl; [done|lia]).
  by rewrite (IH fuel') by lia.
Qed.

Lemma entries_loop_fuel fuel fuel' count c :
  (length c <= fuel)%nat -> (length c <= fuel')%nat ->
  entries_loop fuel item count c = entries_loop fuel' item count c.
Proof using Hitem.
  assert (item [] = None) as Hnil.
  { destruct (item []) as [[v r]|] eqn:E; [|done]. by apply Hitem in E as ([|] & ? & [=]). }
  revert fuel' count c. induction fuel as [|fuel IH]; intros [|fuel'] count c Hf Hf'; cbn [entries_loop];
    split_if; try done; try (destruct c; [by rewrite ?Hnil|simpl in *; lia]).
  destruct (item c) as [[[] r1]|] eqn:E1; try done. apply Hitem in E1 as (u1 & Hu & ->).
  destruct (item r1) as [[v r2]|] eqn:E2; [|done]. apply Hitem in E2 as (u2 & _ & ->).
  rewrite !length_app in *. assert (0 < length u1)%nat by (destruct u1; simpl; [done|lia]).
  by rewrite (IH fuel') by lia.
Qed.

Lemma parse_body_consumes : consumes (parse_body item).
Proof using Hitem.
  intros [|b c] v r; unfold parse_body; [done|]. cbn [take_byte].
  split_if. { split_if; [|done]. intros [= <- <-]. by exists [b]. }
  destruct (read_argument _ c) as [[arg rest]|] eqn:Ea; [|done].
  apply read_argument_suffix in Ea as [u1 ->].
  assert (forall u r', rest = u ++ r' -> exists used, used <> [] /\ b :: u1 ++ rest = used ++ r') as Hd.
  { intros u r' ->. exists (b :: u1 ++ u). split; [done|]. simpl. by rewrite <-app_assoc. }
  repeat split_if; try done.
  1: intros [= <- <-]; by apply (Hd []).
  1: intros [= <- <-]; by apply (Hd []).
  1,2: destruct (take_bytes arg rest) as [[x y]|] eqn:E; [|done]; intros [= <- <-];
    apply take_bytes_suffix in E; by apply (Hd x).
  1: destruct (items_loop _ _ _ _) as [[x y]|] eqn:E; [|done]; intros [= <- <-];
    apply items_loop_suffix in E as [u ->]; by apply (Hd u).
  destruct (entries_loop _ _ _ _) as [[x y]|] eqn:E; [|done]; intros [= <- <-].
  apply entries_loop_suffix in E as [u ->]; by apply (Hd u).
Qed.

End loops.

Lemma parse_level_consumes n : consumes (parse_level n).
Proof. induction n as [|n IH]; [done|]. by apply parse_body_consumes. Qed.

(** ** The values a parse can give *)

Fixpoint entries_ok (P : Value -> Prop) (items : list Value) : Prop :=
  match items with
  | [] => True
  | Text k :: v :: rest => P (Text k) /\ P v /\ entries_ok P rest
  | _ => False
  end.

(** A value of the subset, nested at most [levels] deep: numbers at their width,
    lengths that fit an argument, text keys. *)
Fixpoint value_ok (levels : nat) (v : Value) : Prop :=
  match levels with
  | O => False
  | S n =>
      match v with
      | Uint k => u64 k
      | Nint z => - 2 ^ 63 <= z < 0
      | Bytes b => byte_list b /\ u64 (zlen b)
      | Text t => u64 (zlen (bytes_of_text t))
      | Bool _ => True
      | Array items => u64 (zlen items) /\ Forall (value_ok n) items
      | Map items => u64 (zlen items / 2) /\ entries_ok (value_ok n) items
      end
  end.

Lemma text_ok n t : Z.of_nat (String.length t) < 2 ^ 63 -> value_ok (S n) (Text t).
Proof. intros Ht. simpl. rewrite length_bytes_of_text. unfold fits. lia. Qed.

Lemma entries_ok_even P items : entries_ok P items -> exists n, length items = (2 * n)%nat.
Proof.
  revert items. fix IH 1. intros [|k [|v rest]]; simpl.
  - by exists 0%nat.
  - by destruct k.
  - destruct k; try done. intros (_ & _ & H). destruct (IH rest H) as [n Hn]. exists (S n). lia.
Qed.

Lemma entries_ok_Forall P items : entries_ok P items -> Forall P items.
Proof.
  revert items. fix IH 1. intros [|k [|v rest]]; simpl; [constructor|by destruct k|].
  destruct k; try done. intros (? & ? & H). do 2 (constructor; [done|]). by apply IH.
Qed.

Section round_trip.
Context (n : nat) (item : bytes -> option (Value * bytes)).
Context (Hc : consumes item).
Context (IH : forall v rest, value_ok n v -> item (encode v ++ rest) = Some (v, rest)).

Lemma items_loop_encode items rest :
  Forall (value_ok n) items ->
  items_loop (length (flat_map encode items ++ rest)) item (zlen items) (flat_map encode items ++ rest)
  = Some (items, rest).
Proof using Hc IH.
  intros Hi. rewrite (items_loop_fuel item Hc _ (S (length (flat_map encode items ++ rest)))) by lia.
  generalize (le_n (length (flat_map encode items ++ rest))).
  generalize (length (flat_map encode items ++ rest)) at 2 3.
  induction Hi as [|v items Hv _ IHi]; intros fuel Hf; [by destruct fuel|].
  cbn [flat_map] in *. rewrite <-app_assoc in *.
  pose proof (IH v (flat_map encode items ++ rest) Hv) as E.
  pose proof E as E'. apply Hc in E' as (u & Hu & Hcat).
  cbn [items_loop length]. rewrite (proj2 (Z.leb_gt _ 0)) by lia. rewrite E.
  destruct fuel as [|fuel].
  { rewrite Hcat, length_app in Hf. destruct u; [done|]. simpl in Hf. lia. }
  replace (Z.of_nat (S (length items)) - 1) with (zlen items) by lia.
  rewrite IHi; [done|]. rewrite Hcat, length_app in Hf. destruct u; [done|]. simpl in Hf. lia.
Qed.

Lemma entries_loop_encode items rest :
  entries_ok (value_ok n) items ->
  entries_loop (length (flat_map encode items ++ rest)) item (zlen items / 2)
    (flat_map encode items ++ rest) = Some (items, rest).
Proof using Hc IH.
  intros Hi. rewrite (entries_loop_fuel item Hc _ (S (length (flat_map encode items ++ rest)))) by lia.
  generalize (le_n (length (flat_map encode items ++ rest))).
  generalize (length (flat_map encode items ++ rest)) at 2 3.
  revert items Hi. fix IHi 1. intros [|k [|v items]] Hi fuel Hf; [by destruct fuel|by destruct k|].
  destruct k as [| | |t| | |]; try done. destruct Hi as (Hk & Hv & Hi).
  cbn [flat_map] in *. rewrite <-!app_assoc in *.
  pose proof (IH (Text t) (encode v ++ flat_map encode items ++ rest) Hk) as E1.
  pose proof (IH v (flat_map encode items ++ rest) Hv) as E2.
  pose proof E1 as E'. apply Hc in E' as (u & Hu & Hcat).
  cbn [entries_loop length].
  assert (Z.of_nat (S (S (length items))) / 2 = zlen items / 2 + 1) as ->.
  { replace (Z.of_nat (S (S (length items)))) with (zlen items + 1 * 2) by lia.
    by rewrite Z.div_add by lia. }
  rewrite (proj2 (Z.leb_gt _ 0)) by (pose proof (Z.div_pos (zlen items) 2); lia).
  rewrite E1, E2. assert (0 < length u)%nat by (destruct u; simpl; [done|lia]).
  rewrite Hcat, length_app, length_app in Hf. destruct fuel as [|fuel]; [lia|].
  rewrite Z.add_simpl_r, IHi; [done..|lia].
Qed.

Lemma parse_body_encode v rest :
  value_ok (S n) v -> parse_body item (encode v ++ rest) = Some (v, rest).
Proof using Hc IH.
  intros Hv. destruct v as [k|z|b|t|b|items|items]; cbn [value_ok encode] in *.
  - unfold w_uint. destruct (head_spec 0 k rest) as (i & tl & -> & Hm & Ha); [lia|done|].
    unfold parse_body. cbn [take_byte]. by rewrite Hm, Ha.
  - unfold w_nint. destruct (head_spec 1 (- (z + 1)) rest) as (i & tl & -> & Hm & Ha);
      [lia|unfold fits; lia|].
    unfold parse_body. cbn [take_byte]. rewrite Hm, Ha. cbn.
    rewrite (proj2 (Z.ltb_ge _ _)) by lia. do 3 f_equal. lia.
  - destruct Hv as [Hb Hl]. unfold w_blob. rewrite <-app_assoc.
    destruct (head_spec 2 (zlen b) (b ++ rest)) as (i & tl & -> & Hm & Ha); [lia|done|].
    unfold parse_body. cbn [take_byte]. rewrite Hm, Ha. cbn -[take_bytes]. unfold take_bytes.
    rewrite length_app, (proj2 (Z.ltb_ge _ _)), Nat2Z.id, take_app_length, drop_app_length by lia. done.
  - unfold w_text. rewrite <-app_assoc.
    destruct (head_spec 3 (zlen (bytes_of_text t)) (bytes_of_text t ++ rest)) as (i & tl & -> & Hm & Ha);
      [lia|done|].
    unfold parse_body. cbn [take_byte]. rewrite Hm, Ha. cbn -[take_bytes]. unfold take_bytes.
    rewrite length_app, (proj2 (Z.ltb_ge _ _)), Nat2Z.id, take_app_length, drop_app_length by lia.
    by rewrite text_bytes.
  - by destruct b.
  - destruct Hv as [Hl Hi]. unfold w_array. rewrite <-app_assoc.
    destruct (head_spec 4 (zlen items) (flat_map encode items ++ rest)) as (i & tl & -> & Hm & Ha);
      [lia|done|].
    unfold parse_body. cbn [take_byte]. rewrite Hm, Ha. cbn -[items_loop].
    by rewrite items_loop_encode.
  - destruct Hv as [Hl Hi]. unfold w_map. rewrite <-app_assoc.
    destruct (head_spec 5 (zlen items / 2) (flat_map encode items ++ rest)) as (i & tl & -> & Hm & Ha);
      [lia|done|].
    unfold parse_body. cbn [take_byte]. rewrite Hm, Ha. cbn -[entries_loop].
    by rewrite entries_loop_encode.
Qed.

End round_trip.

Lemma parse_level_encode n v rest :
  value_ok n v -> parse_level n (encode v ++ rest) = Some (v, rest).
Proof.
  revert v rest. induction n as [|n IH]; intros v rest Hv; [done|]. cbn [parse_level].
  apply (parse_body_encode n); [apply parse_level_consumes|exact IH|exact Hv].
Qed.

Lemma parse_encode v : value_ok (kMaxDepth + 1) v -> parse (encode v) = Some v.
Proof.
  intros Hv. unfold parse, parse_item. rewrite <-(app_nil_r (encode v)).
  change (kMaxDepth + 1 - 0)%nat with (kMaxDepth + 1)%nat. by rewrite parse_level_encode.
Qed.

(** ** Every parse gives a value of the subset *)

Lemma lor_fits w a b : 0 <= w -> fits w a -> fits w b -> fits w (Z.lor a b).
Proof.
  unfold fits. intros Hw Ha Hb. split; [apply Z.lor_nonneg; lia|].
  destruct (decide (Z.lor a b = 0)) as [->|Hn]; [apply Z.pow_pos_nonneg; lia|].
  assert (0 <= Z.lor a b) by (apply Z.lor_nonneg; lia).
  assert (0 < 2 ^ w) by (apply Z.pow_pos_nonneg; lia).
  destruct (decide (w = 0)) as [->|Hw0].
  { change (2 ^ 0) with 1 in *. by replace a with 0 in Hn by lia; replace b with 0 in Hn by lia. }
  assert (forall x, 0 <= x < 2 ^ w -> Z.log2 x < w) as Hlog.
  { intros x Hx. destruct (decide (x = 0)) as [->|]; [simpl; lia|]. apply Z.log2_lt_pow2; lia. }
  apply Z.log2_lt_pow2; [lia|]. rewrite Z.log2_lor by lia. apply Z.max_lub_lt; auto.
Qed.

Lemma read_be_fits w acc c v r :
  byte_list c -> u64 acc -> read_be w acc c = Some (v, r) -> u64 v.
Proof.
  revert acc c. induction w as [|w IH]; intros acc c Hc Ha; cbn [read_be]; [by intros [= <- <-]|].
  destruct Hc as [|b c Hb Hc]; simpl; [done|]. apply IH; [done|].
  apply lor_fits; [lia|apply fits_wrap; lia|]. unfold fits in *. lia.
Qed.

Lemma read_argument_fits extra c v r :
  0 <= extra -> byte_list c -> read_argument extra c = Some (v, r) -> u64 v.
Proof.
  intros He Hc. unfold read_argument. split_if.
  { intros [= <- <-]. bool_to_prop. unfold fits. lia. }
  repeat split_if; try done; apply read_be_fits; try done; by unfold fits.
Qed.

Section typed.
Context (n : nat) (item : bytes -> option (Value * bytes)) (Hc : consumes item).
Context (IH : forall c v r, byte_list c -> zlen c < 2 ^ 64 -> item c = Some (v, r) -> value_ok n v).

Lemma items_loop_typed fuel count c vs r :
  byte_list c -> zlen c < 2 ^ 64 -> items_loop fuel item count c = Some (vs, r) ->
  Forall (value_ok n) vs /\ (0 <= count -> zlen vs = count).
Proof using Hc IH.
  revert count c vs. induction fuel as [|fuel IHf]; intros count c vs Hb Hl; cbn [items_loop];
    (split_if; [intros [= <- <-]; bool_to_prop; split; [done|simpl; lia]|]); [done|].
  bool_to_prop. destruct (item c) as [[v rest]|] eqn:E; [|done].
  pose proof (IH c v rest Hb Hl E) as Hv. apply Hc in E as (u & _ & ->).
  rewrite length_app in Hl. apply Forall_app in Hb as [_ Hb].
  destruct (items_loop _ _ _ _) as [[vs' r']|] eqn:El; [|done]. intros [= <- <-].
  apply IHf in El as [Hvs Hn]; [|done|lia]. split; [by constructor|]. cbn [length]. lia.
Qed.

Lemma entries_loop_typed fuel count c vs r :
  byte_list c -> zlen c < 2 ^ 64 -> entries_loop fuel item count c = Some (vs, r) ->
  entries_ok (value_ok n) vs /\ (0 <= count -> zlen vs / 2 = count).
Proof using Hc IH.
  revert count c vs. induction fuel as [|fuel IHf]; intros count c vs Hb Hl; cbn [entries_loop];
    (split_if; [intros [= <- <-]; bool_to_prop; split; [done|change (zlen (@nil Value) / 2) with 0; lia]|]); [done|].
  bool_to_prop. destruct (item c) as [[[] r1]|] eqn:E1; try done.
  pose proof (IH c _ r1 Hb Hl E1) as Hk. apply Hc in E1 as (u1 & _ & ->).
  rewrite length_app in Hl. apply Forall_app in Hb as [_ Hb].
  destruct (item r1) as [[v r2]|] eqn:E2; [|done].
  pose proof (IH r1 _ r2 Hb ltac:(lia) E2) as Hv. apply Hc in E2 as (u2 & _ & ->).
  rewrite length_app in Hl. apply Forall_app in Hb as [_ Hb].
  destruct (entries_loop _ _ _ _) as [[vs' r']|] eqn:El; [|done]. intros [= <- <-].
  apply IHf in El as [Hvs Hn]; [|done|lia]. split; [by split_and!|]. intros Hcount.
  replace (zlen (Text t :: v :: vs')) with (zlen vs' + 1 * 2) by (cbn [length]; lia).
  rewrite Z.div_add by lia. lia.
Qed.

Lemma parse_body_typed c v r :
  byte_list c -> zlen c < 2 ^ 64 -> parse_body item c = Some (v, r) -> value_ok (S n) v.
Proof using Hc IH.
  intros Hb Hl. destruct c as [|b c]; [done|]. unfold parse_body. cbn [take_byte].
  apply Forall_cons in Hb as [Hb0 Hb]. cbn [length] in Hl. rewrite land_31.
  split_if. { split_if; [|done]. by intros [= <- <-]. }
  destruct (read_argument _ c) as [[arg rest]|] eqn:Ea; [|done].
  pose proof (read_argument_fits (b mod 32) c arg rest ltac:(apply Z.mod_pos_bound; lia) Hb Ea) as Harg.
  apply read_argument_suffix in Ea as [u ->]. rewrite length_app in Hl.
  apply Forall_app in Hb as [_ Hb]. pose proof (proj1 Harg).
  repeat split_if; try done; bool_to_prop.
  - by intros [= <- <-].
  - intros [= <- <-]. simpl. lia.
  - destruct (take_bytes arg rest) as [[x y]|] eqn:E; [|done]. intros [= <- <-].
    apply take_bytes_suffix in E as ->. rewrite length_app in Hl. apply Forall_app in Hb as [Hx _].
    split; [done|]. unfold fits. lia.
  - destruct (take_bytes arg rest) as [[x y]|] eqn:E; [|done]. intros [= <- <-].
    apply take_bytes_suffix in E as ->. rewrite length_app in Hl. apply Forall_app in Hb as [Hx _].
    simpl. rewrite bytes_text by done. unfold fits. lia.
  - destruct (items_loop _ _ _ _) as [[x y]|] eqn:E; [|done]. intros [= <- <-].
    apply items_loop_typed in E as [Hx Hn]; [|done|lia]. split; [by rewrite Hn|done].
  - destruct (entries_loop _ _ _ _) as [[x y]|] eqn:E; [|done]. intros [= <- <-].
    apply entries_loop_typed in E as [Hx Hn]; [|done|lia]. split; [by rewrite Hn|done].
Qed.

End typed.

Lemma parse_level_typed n c v r :
  byte_list c -> zlen c < 2 ^ 64 -> parse_level n c = Some (v, r) -> value_ok n v.
Proof.
  revert c v r. induction n as [|n IH]; intros c v r Hb Hl H; [done|].
  eapply parse_body_typed; [apply parse_level_consumes|exact IH|exact Hb|exact Hl|exact H].
Qed.

(** ** A parse looks only at the bytes it consumes *)

(** [item] reads [v] off the front of any input that starts with [used]. *)
Definition reads (item : bytes -> option (Value * bytes)) (used : bytes) (v : Value) : Prop :=
  forall rest, item (used ++ rest) = Some (v, rest).

Definition local (item : bytes -> option (Value * bytes)) : Prop :=
  forall c v r, item c = Some (v, r) -> exists used, used <> [] /\ c = used ++ r /\ reads item used v.

Lemma local_consumes item : local item -> consumes item.
Proof. intros Hl c v r E. destruct (Hl c v r E) as (u & ? & ? & _). by exists u. Qed.

Lemma read_be_local w acc c v r :
  read_be w acc c = Some (v, r) ->
  exists used, c = used ++ r /\ forall rest, read_be w acc (used ++ rest) = Some (v, rest).
Proof.
  revert acc c. induction w as [|w IH]; intros acc c; cbn [read_be].
  { intros [= <- <-]. by exists []. }
  destruct c as [|b c]; simpl; [done|]. intros Hc. apply IH in Hc as (u & -> & Hu). by exists (b :: u).
Qed.

Lemma read_argument_local extra c v r :
  read_argument extra c = Some (v, r) ->
  exists used, c = used ++ r /\ forall rest, read_argument extra (used ++ rest) = Some (v, rest).
Proof.
  unfold read_argument. repeat split_if; try apply read_be_local; [|done].
  intros [= <- <-]. by exists [].
Qed.

Lemma take_bytes_local n c v r :
  take_bytes n c = Some (v, r) ->
  c = v ++ r /\ forall rest, take_bytes n (v ++ rest) = Some (v, rest).
Proof.
  intros E. pose proof (take_bytes_suffix _ _ _ _ E) as ->. split; [done|]. intros rest.
  unfold take_bytes in *. revert E. split_if; [done|]. intros [= Ht Hd]. bool_to_prop.
  rewrite length_app in *.
  assert (Z.to_nat n = length v) as Hl.
  { apply (f_equal length) in Ht. rewrite length_take, length_app in Ht. lia. }
  rewrite (proj2 (Z.ltb_ge _ _)) by lia. by rewrite Hl, take_app_length, drop_app_length.
Qed.

Section local_loops.
Context (item : bytes -> option (Value * bytes)) (Hitem : local item).

Lemma items_loop_local fuel count c vs r :
  items_loop fuel item count c = Some (vs, r) ->
  exists used, c = used ++ r /\
    forall rest, items_loop (length (used ++ rest)) item count (used ++ rest) = Some (vs, rest).
Proof using Hitem.
  pose proof (local_consumes item Hitem) as Hc.
  revert count c vs. induction fuel as [|fuel IH]; intros count c vs; cbn [items_loop];
    (split_if; [intros [= <- <-]; exists []; split; [done|]; intros rest; simpl;
                destruct (length rest); simpl; by rewrite Heqb|]); [done|].
  destruct (item c) as [[v r1]|] eqn:E; [|done]. apply Hitem in E as (u1 & Hu1 & -> & Hr1).
  destruct (items_loop _ _ _ _) as [[vs' r']|] eqn:El; [|done]. intros [= <- <-].
  apply IH in El as (u2 & -> & Hr2). exists (u1 ++ u2). split; [by rewrite app_assoc|].
  intros rest. rewrite (items_loop_fuel item Hc _ (S (length ((u1 ++ u2) ++ rest)))) by lia.
  cbn [items_loop]. rewrite Heqb, <-app_assoc, Hr1.
  rewrite (items_loop_fuel item Hc _ (length (u2 ++ rest))) by (rewrite ?length_app; lia).
  by rewrite Hr2.
Qed.

Lemma entries_loop_local fuel count c vs r :
  entries_loop fuel item count c = Some (vs, r) ->
  exists used, c = used ++ r /\
    forall rest, entries_loop (length (used ++ rest)) item count (used ++ rest) = Some (vs, rest).
Proof using Hitem.
  pose proof (local_consumes item Hitem) as Hc.
  revert count c vs. induction fuel as [|fuel IH]; intros count c vs; cbn [entries_loop];
    (split_if; [intros [= <- <-]; exists []; split; [done|]; intros rest; simpl;
                destruct (length rest); simpl; by rewrite Heqb|]); [done|].
  destruct (item c) as [[k r1]|] eqn:E1; [|done]. destruct k; try done.
  apply Hitem in E1 as (u1 & Hu1 & -> & Hr1).
  destruct (item r1) as [[v r2]|] eqn:E2; [|done]. apply Hitem in E2 as (u2 & Hu2 & -> & Hr2).
  destruct (entries_loop _ _ _ _) as [[vs' r']|] eqn:El; [|done]. intros [= <- <-].
  apply IH in El as (u3 & -> & Hr3). exists (u1 ++ u2 ++ u3). split; [by rewrite <-!app_assoc|].
  intros rest. rewrite (entries_loop_fuel item Hc _ (S (length ((u1 ++ u2 ++ u3) ++ rest)))) by lia.
  cbn [entries_loop]. rewrite Heqb, <-!app_assoc, Hr1, Hr2.
  rewrite (entries_loop_fuel item Hc _ (length (u3 ++ rest))) by (rewrite ?length_app; lia).
  by rewrite Hr3.
Qed.

Lemma parse_body_local : local (parse_body item).
Proof using Hitem.
  intros [|b c] v r E; [done|]. unfold parse_body in E. cbn [take_byte] in E. revert E.
  split_if.
  { split_if; [|done]. intros [= <- <-]. exists [b]. split_and!; try done. intros rest.
    unfold parse_body. cbn [take_byte app]. by rewrite Heqb0, Heqb1. }
  destruct (read_argument _ c) as [[arg rest]|] eqn:Ea; [|done].
  apply read_argument_local in Ea as (u1 & -> & Hu1).
  assert (forall u r0 v0,
    rest = u ++ r0 -> (forall rest0, parse_body item (b :: u1 ++ u ++ rest0) = Some (v0, rest0)) ->
    exists used, used <> [] /\ b :: u1 ++ rest = used ++ r0 /\ reads (parse_body item) used v0) as Hd.
  { intros u r0 v0 -> HP. exists (b :: u1 ++ u). split_and!; [done| |].
    - simpl. by rewrite <-app_assoc.
    - intros rest0. simpl. rewrite <-app_assoc. apply HP. }
  assert (forall tail, parse_body item (b :: tail) = parse_body item (b :: tail)) as Hpb by done.
  unfold parse_body at 2 in Hpb. cbn [take_byte] in Hpb. rewrite Heqb0 in Hpb.
  repeat split_if; try done;
    [intros [= <- <-]; apply (Hd []); [done|]
    |intros [= <- <-]; apply (Hd []); [done|]
    |destruct (take_bytes arg rest) as [[x y]|] eqn:E; [|done]; intros [= <- <-];
     apply take_bytes_local in E as [-> E]; apply (Hd x); [done|]
    |destruct (take_bytes arg rest) as [[x y]|] eqn:E; [|done]; intros [= <- <-];
     apply take_bytes_local in E as [-> E]; apply (Hd x); [done|]
    |destruct (items_loop _ _ _ _) as [[x y]|] eqn:E; [|done]; intros [= <- <-];
     apply items_loop_local in E as (u & -> & E); apply (Hd u); [done|]
    |destruct (entries_loop _ _ _ _) as [[x y]|] eqn:E; [|done]; intros [= <- <-];
     apply entries_loop_local in E as (u & -> & E); apply (Hd u); [done|]];
    intros rest0; rewrite Hpb, Hu1;
    repeat match goal with
    | Hq : ?t = true |- context [?t] => rewrite Hq
    | Hq : ?t = false |- context [?t] => rewrite Hq
    end; try rewrite E; done.
Qed.

End local_loops.

Lemma parse_level_local n : local (parse_level n).
Proof. induction n as [|n IH]; [done|]. by apply parse_body_local. Qed.

(** ** A deeper budget changes nothing that parses *)

Definition below (i1 i2 : bytes -> option (Value * bytes)) : Prop :=
  forall c o, i1 c = Some o -> i2 c = Some o.

Lemma items_loop_below i1 i2 fuel count c o :
  below i1 i2 -> items_loop fuel i1 count c = Some o -> items_loop fuel i2 count c = Some o.
Proof.
  intros Hb. revert count c o. induction fuel as [|fuel IH]; intros count c o; cbn [items_loop];
    (split_if; [done|]); [done|].
  destruct (i1 c) as [[v r]|] eqn:E; [|done]. rewrite (Hb _ _ E).
  destruct (items_loop _ i1 _ _) as [[vs r']|] eqn:El; [|done]. by rewrite (IH _ _ _ El).
Qed.

Lemma entries_loop_below i1 i2 fuel count c o :
  below i1 i2 -> entries_loop fuel i1 count c = Some o -> entries_loop fuel i2 count c = Some o.
Proof.
  intros Hb. revert count c o. induction fuel as [|fuel IH]; intros count c o; cbn [entries_loop];
    (split_if; [done|]); [done|].
  destruct (i1 c) as [[k r1]|] eqn:E1; [|done]. rewrite (Hb _ _ E1). destruct k; try done.
  destruct (i1 r1) as [[v r]|] eqn:E2; [|done]. rewrite (Hb _ _ E2).
  destruct (entries_loop _ i1 _ _) as [[vs r']|] eqn:El; [|done]. by rewrite (IH _ _ _ El).
Qed.

Lemma parse_body_below i1 i2 : below i1 i2 -> below (parse_body i1) (parse_body i2).
Proof.
  intros Hb [|b c] o; [done|]. unfold parse_body. cbn [take_byte].
  destruct (_ =? 7); [done|]. destruct (read_argument _ c) as [[arg rest]|]; [|done].
  repeat split_if; try done.
  - destruct (items_loop _ i1 _ _) as [o'|] eqn:E; [|done]. by rewrite (items_loop_below _ _ _ _ _ _ Hb E).
  - destruct (entries_loop _ i1 _ _) as [o'|] eqn:E; [|done]. by rewrite (entries_loop_below _ _ _ _ _ _ Hb E).
Qed.

Lemma parse_level_mono n m : (n <= m)%nat -> below (parse_level n) (parse_level m).
Proof.
  revert m. induction n as [|n IH]; intros m Hle; [done|]. destruct m as [|m]; [lia|].
  cbn [parse_level]. apply parse_body_below, IH. lia.
Qed.

(** Round trip of the independent codec: a value of the subset, nested no
    deeper than the parser allows, written with its shortest heads and read
    back, is that value; in particular its length fields are never read as
    larger or smaller than they were written. *)
Lemma minicbor_roundtrip (v : Value) :
  value_ok (kMaxDepth + 1) v -> parse (encode v) = Some v.
Proof. apply parse_encode. Qed.

(** Whatever bytes a device sends, a parse that succeeds gives a value of
    the subset: numbers within their widths, text keys only, nesting within
    [kMaxDepth]; and encoding that value again gives bytes that parse to it, so
    a non-canonical encoding carries nothing the canonical one does not. *)
Lemma parse_typed (input : bytes) (v : Value) :
  byte_list input -> zlen input < 2 ^ 64 -> parse input = Some v ->
  value_ok (kMaxDepth + 1) v /\ parse (encode v) = Some v.
Proof.
  intros Hb Hl. unfold parse at 1, parse_item.
  destruct (parse_level _ input) as [[w [|]]|] eqn:E; try done. intros [= <-].
  apply parse_level_typed in E; [|done..]. split; [exact E|]. by apply parse_encode.
Qed.
