(* ===== verification/DfuPackage.v ===== *)
(** * The DFU package

    [support/dfu_package/dfu_package.cpp]: a zip of signed images and the
    manifest that says which image each file is, read and cross-checked. The
    readers of the zip and of the JSON are those of StoredZip.v and Json.v, the
    image header's the library's own (McubootImage.v). As there, [None] is
    undefined behaviour or a loop that did not end, which
    DfuPackageProperties.v excludes. *)

From S2P Require Import Prelude Errors ImageValues McubootImage Minicbor StoredZip Json.

(** ** Data *)

Definition kMaxPackageSize : Z := 64 * 1024 * 1024.
Definition kMaxImageIndex : Z := 255.

(** [IMAGE_TLV_DEPENDENCY] and [sizeof(struct image_dependency)]. *)
Definition kTlvDependency : Z := 0x40.
Definition kDependencySize : Z := 12.

(** [ImageDependency]. *)
Record ImageDependency := mkDependency { d_image : Z; d_minimum : ImageVersion }.

(** [PackageBuild]. *)
Record PackageBuild := mkBuild {
  b_file : bytes;
  b_bytes : bytes;
  b_header : McubootImageInfo;
  b_slot : Z
}.

(** [PackageImage]. *)
Record PackageImage := mkImage {
  p_file : bytes;
  p_image : Z;
  p_bytes : bytes;
  p_header : McubootImageInfo;
  p_version : option bytes;
  p_board : option bytes;
  p_soc : option bytes;
  p_dependencies : list ImageDependency;
  p_slot : option Z;
  p_secondary : option PackageBuild
}.

(** [DfuPackage]. *)
Record DfuPackage := mkPackage {
  k_format_version : option Z;
  k_name : option bytes;
  k_images : list PackageImage
}.

Definition malformed_package {A} (what : string) : Result A := fail MalformedMessage what.

(** ** The manifest's fields *)

(** [optional_text]. *)
Definition optional_text (object : JsonValue) (key : string) : Result (option bytes) :=
  match json_find (chars key) object with
  | None => Success None
  | Some (String_ text) => Success (Some text)
  | Some _ => malformed_package "package: a manifest field is not a string"
  end.

(** [small_number]. *)
Definition small_number (entry : JsonValue) (key : string) (max : Z)
    (malformed_text range_text : string) : Result (option Z) :=
  match json_find (chars key) entry with
  | None => Success None
  | Some value =>
      let number :=
        match value with String_ text => as_uint (Number text) | _ => as_uint value end in
      match number with
      | None => malformed_package malformed_text
      | Some number =>
          if max <? number then fail InvalidArgument range_text else Success (Some (wrap 32 number))
      end
  end.

(** [image_index]. *)
Definition image_index (entry : JsonValue) : Result (option Z) :=
  small_number entry "image_index" kMaxImageIndex
    "package: image_index is not a non-negative integer" "package: image_index out of range".

(** [slot_of]. *)
Definition slot_of (entry : JsonValue) : Result (option Z) :=
  small_number entry "slot" (kMaxImageIndex * 2 + 1)
    "package: slot is not a non-negative integer" "package: slot out of range".

(** ** [read_dependencies] *)

(** The lambda [area]: the magic and the size of the area at [at_], if its
    header is inside the image. *)
Definition area (image : bytes) (at_ : Z) : option (option (Z * Z)) :=
  if (zlen image <? at_) || (wrap 64 (zlen image - at_) <? kTlvHeaderSize) then Some None
  else
    let! magic := le16_at image at_ in
    let! size := le16_at image (at_ + 2) in
    Some (Some (magic, size)).

(** The two areas: the end of the protected one, which is [base] when there is
    none, and the size of the other. *)
Definition tlv_areas (image : bytes) (header : McubootImageInfo) (base : Z) : checked (Z * Z) :=
  let! first := area image base in
  match first with
  | None => Some (malformed_package "package: an image has no TLV area")
  | Some (magic, size) =>
      if magic =? kTlvProtInfoMagic then
        if negb (size =? protected_tlv_size header) || (size <? kTlvHeaderSize)
        then Some (malformed_package "package: an image's protected TLV size disagrees with its header")
        else
          let protected_end := base + size in
          let! second := area image protected_end in
          match second with
          | Some (magic, size) =>
              if negb (magic =? kTlvInfoMagic)
              then Some (malformed_package "package: an image has no unprotected TLV area")
              else Some (Success (protected_end, size))
          | None => Some (malformed_package "package: an image has no unprotected TLV area")
          end
      else if negb (magic =? kTlvInfoMagic) || negb (protected_tlv_size header =? 0)
      then Some (malformed_package "package: an image has no TLV area")
      else Some (Success (base, size))
  end.

(** The value of a dependency TLV. *)
Definition dependency (value : bytes) : option ImageDependency :=
  let! image := byte_at value 0 in
  let! major := byte_at value 4 in
  let! minor := byte_at value 5 in
  let! revision := le16_at value 6 in
  let! build := le32_at value 8 in
  Some (mkDependency image (mkVersion major minor revision build)).

(** The TLV at [offset]: the dependency it is, if it is one, and its length. *)
Definition tlv_entry (image : bytes) (end_ offset : Z) : checked (list ImageDependency * Z) :=
  if wrap 64 (end_ - offset) <? kTlvHeaderSize
  then Some (malformed_package "package: a TLV entry overruns its area")
  else
    let! type := le16_at image offset in
    let! length := le16_at image (offset + 2) in
    if wrap 64 (end_ - offset - kTlvHeaderSize) <? length
    then Some (malformed_package "package: a TLV entry overruns its area")
    else if type =? kTlvDependency then
      if negb (length =? kDependencySize)
      then Some (malformed_package "package: a dependency TLV has the wrong length")
      else
        let! value := subspan image (offset + kTlvHeaderSize) kDependencySize in
        let! found := dependency value in
        Some (Success ([found], length))
    else Some (Success ([], length)).

(** A round of the loop of [read_dependencies]: what was found, the offset and
    the rounds before. *)
Definition walk_state : Type := list ImageDependency * Z * Z.

Definition walk_body (image : bytes) (header : McubootImageInfo) (protected_end end_ : Z)
    (s : walk_state) : loop walk_state (checked (list ImageDependency)) :=
  let '(dependencies, offset, visited) := s in
  if negb (offset <? end_) then Return (Some (Success dependencies))
  else if visited =? Z.of_nat kMaxImageTlvs
  then Return (Some (malformed_package "package: an image has too many TLV entries"))
  else if negb (protected_tlv_size header =? 0) && (offset =? protected_end)
  then Continue (dependencies, offset + kTlvHeaderSize, visited + 1)
  else
    match tlv_entry image end_ offset with
    | None => Return None
    | Some (Fail e) => Return (Some (Fail e))
    | Some (Success (found, length)) =>
        Continue (dependencies ++ found, offset + (kTlvHeaderSize + length), visited + 1)
    end.

(** [read_dependencies]. A round adds one to [visited], which stops at
    [kMaxImageTlvs]. *)
Definition read_dependencies (image : bytes) (header : McubootImageInfo)
  : checked (list ImageDependency) :=
  let base := header_size header + image_size header in
  let!? (protected_end, unprotected) := tlv_areas image header base in
  if (unprotected <? kTlvHeaderSize) || (wrap 64 (zlen image - protected_end) <? unprotected)
  then Some (malformed_package "package: an image's TLV area extends past its end")
  else
    let end_ := protected_end + unprotected in
    match
      iterate (walk_body image header protected_end end_) (kMaxImageTlvs + 2)
        ([], base + kTlvHeaderSize, 0)
    with
    | Some r => r
    | None => None
    end.

(** ** [read_image] *)

(** The zip entry of this name: the [find_if]s over the zip. *)
Definition zip_find (name : bytes) (zip : list ZipEntry) : option ZipEntry :=
  List.find (fun candidate => bool_decide (z_name candidate = name)) zip.

(** [size], when the entry states it. *)
Definition size_agrees (entry : JsonValue) (content : bytes) : bool :=
  match json_find (chars "size") entry with
  | None => true
  | Some size => bool_decide (as_uint size = Some (zlen content))
  end.

(** [version_MCUBOOT], and the key a direct-XIP build writes instead. *)
Definition stated_version (entry : JsonValue) (version : option bytes) : Result (option bytes) :=
  match version with Some _ => Success version | None => optional_text entry "version_MCUBOOT+XIP" end.

Definition version_agrees (stated : option bytes) (header : McubootImageInfo) : bool :=
  match stated with
  | None => true
  | Some text =>
      match parse_version (text_of_bytes text) with
      | Success v => bool_decide (v = version header)
      | Fail _ => false
      end
  end.

(** The image behind the manifest's fields: the last part of [read_image]. *)
Definition read_image_bytes (file content : bytes) (image : Z) (slot : option Z)
    (version board soc : option bytes) : checked PackageImage :=
  if (length content <? kMcubootHeaderSize)%nat
  then Some (malformed_package "package: a file is too short to be an MCUboot image")
  else
    match parse_mcuboot_header (take kMcubootHeaderSize content) with
    | Fail e => Some (Fail e)
    | Success header =>
        if negb (version_agrees version header)
        then Some (malformed_package "package: version_MCUBOOT disagrees with the image header")
        else
          let!? dependencies := read_dependencies content header in
          Some (Success (mkImage file image content header version board soc dependencies slot None))
    end.

Definition read_image (entry : JsonValue) (zip : list ZipEntry) (single : bool) : checked PackageImage :=
  match entry with
  | Object _ =>
      let!? name := Some (optional_text entry "file") in
      match name with
      | None => Some (malformed_package "package: a files[] entry has no file name")
      | Some name =>
          match zip_find name zip with
          | None => Some (malformed_package "package: the manifest names a file the zip does not hold")
          | Some found =>
              if negb (size_agrees entry (z_data found))
              then Some (malformed_package "package: a file's size disagrees with the manifest")
              else
                let!? index := Some (image_index entry) in
                if bool_decide (index = None) && negb single
                then Some (malformed_package "package: a files[] entry has no image_index")
                else
                  let!? slot := Some (slot_of entry) in
                  let!? version := Some (optional_text entry "version_MCUBOOT") in
                  let!? board := Some (optional_text entry "board") in
                  let!? soc := Some (optional_text entry "soc") in
                  let!? version := Some (stated_version entry version) in
                  read_image_bytes name (z_data found) (default 0 index) slot version board soc
          end
      end
  | _ => Some (malformed_package "package: a files[] entry is not an object")
  end.

(** ** The images together *)

(** [pair_builds]: [first] afterwards. *)
Definition with_secondary (first : PackageImage) (build : PackageBuild) : PackageImage :=
  mkImage (p_file first) (p_image first) (p_bytes first) (p_header first) (p_version first)
    (p_board first) (p_soc first) (p_dependencies first) (p_slot first) (Some build).

Definition pair_builds (first second : PackageImage) : Result PackageImage :=
  if bool_decide (p_secondary first <> None)
  then fail InvalidArgument "package: more than two files for one image"
  else
    let primary := wrap 32 (p_image first * 2) in
    let is_pair :=
      match p_slot first, p_slot second with
      | Some a, Some b =>
          (a =? primary) && (b =? wrap 32 (primary + 1)) || (a =? wrap 32 (primary + 1)) && (b =? primary)
      | _, _ => false
      end in
    if negb is_pair
    then fail InvalidArgument "package: two files for one image that are not a direct-XIP pair"
    else if bool_decide (version (p_header first) <> version (p_header second))
    then malformed_package "package: the two builds of a direct-XIP image differ in version"
    else if bool_decide (p_board first <> p_board second)
    then malformed_package "package: the two builds of a direct-XIP image differ in board"
    else
      let '(first, second) :=
        if bool_decide (p_slot first <> Some primary) then (second, first) else (first, second) in
      Success (with_secondary first
        (mkBuild (p_file second) (p_bytes second) (p_header second) (wrap 32 (primary + 1)))).

(** [satisfies]. *)
Definition satisfies (v minimum : ImageVersion) : bool :=
  if negb (v_major v =? v_major minimum) then v_major minimum <? v_major v
  else if negb (v_minor v =? v_minor minimum) then v_minor minimum <? v_minor v
  else v_revision minimum <=? v_revision v.

(** [check_dependencies]: the inner and the outer loop. *)
Definition image_of (images : list PackageImage) (index : Z) : option PackageImage :=
  List.find (fun other => p_image other =? index) images.

Definition dependency_met (images : list PackageImage) (d : ImageDependency) : bool :=
  match image_of images (d_image d) with
  | Some partner => satisfies (version (p_header partner)) (d_minimum d)
  | None => true
  end.

Definition check_dependencies (images : list PackageImage) : Result unit :=
  if forallb (fun image => forallb (dependency_met images) (p_dependencies image)) images
  then Success tt
  else fail InvalidArgument
    "package: an image needs a newer version of another image than the package carries".

(** What the loop of [read_package] does with an image it has read. *)
Fixpoint add_image (images : list PackageImage) (image : PackageImage) : Result (list PackageImage) :=
  match images with
  | [] => Success [image]
  | other :: images =>
      if p_image other =? p_image image
      then let? paired := pair_builds other image in Success (paired :: images)
      else let? images := add_image images image in Success (other :: images)
  end.

Fixpoint read_files (zip : list ZipEntry) (single : bool) (items : list JsonValue)
    (images : list PackageImage) : checked (list PackageImage) :=
  match items with
  | [] => Some (Success images)
  | entry :: items =>
      let!? image := read_image entry zip single in
      let!? images := Some (add_image images image) in
      read_files zip single items images
  end.

(** [std::ranges::sort] by image index. The indices are distinct, so there is
    one sorted order. *)
Fixpoint insert_image (image : PackageImage) (images : list PackageImage) : list PackageImage :=
  match images with
  | [] => [image]
  | other :: rest =>
      if p_image image <=? p_image other then image :: images else other :: insert_image image rest
  end.

Definition sort_images (images : list PackageImage) : list PackageImage := foldr insert_image [] images.

(** ** [read_package] *)

(** [format-version]. *)
Definition format_version (manifest : JsonValue) : Result (option Z) :=
  match json_find (chars "format-version") manifest with
  | None => Success None
  | Some value =>
      match as_uint value with
      | Some n => Success (Some n)
      | None => malformed_package "package: format-version is not a non-negative integer"
      end
  end.

(** From the list of files on. *)
Definition read_images (zip : list ZipEntry) (manifest : JsonValue) : checked (list PackageImage) :=
  match json_find (chars "files") manifest with
  | Some (Array ((_ :: _) as items)) =>
      if kMaxZipEntries <? zlen items
      then checked_fail MessageTooLarge "package: the manifest lists too many files"
      else
        let!? images := read_files zip (length items =? 1)%nat items [] in
        let pairs := length (List.filter (fun image => bool_decide (p_secondary image <> None)) images) in
        if (1 <? pairs)%nat
        then checked_fail InvalidArgument
          "package: a direct-XIP split image (QSPI XIP, internal and external parts) is not supported"
        else
          let images := sort_images images in
          let!? _ := Some (check_dependencies images) in
          Some (Success images)
  | _ => Some (malformed_package "package: the manifest lists no files")
  end.

Definition read_manifest (zip : list ZipEntry) (manifest : JsonValue) : checked DfuPackage :=
  match manifest with
  | Object _ =>
      let!? version := Some (format_version manifest) in
      let!? name := Some (optional_text manifest "name") in
      let!? images := read_images zip manifest in
      Some (Success (mkPackage version name images))
  | _ => Some (malformed_package "package: manifest.json is not an object")
  end.

(** [read_package]. *)
Definition read_package (archive : bytes) : checked DfuPackage :=
  if kMaxPackageSize <? zlen archive then checked_fail MessageTooLarge "package: larger than kMaxPackageSize"
  else
    let!? zip := read_stored_zip archive in
    match zip_find (chars "manifest.json") zip with
    | None => Some (malformed_package "package: no manifest.json")
    | Some entry =>
        if kMaxJsonSize <? zlen (z_data entry)
        then checked_fail MessageTooLarge "package: manifest.json too large"
        else
          let!? manifest := parse_json (z_data entry) in
          read_manifest zip manifest
    end.

(** ** Boards *)

(** [board_name]: up to the first '/' or '@'. *)
Fixpoint board_name (board : bytes) : bytes :=
  match board with
  | [] => []
  | c :: board => if (c =? 47) || (c =? 64) then [] else c :: board_name board
  end.

(** [board_refusal]. *)
Definition board_refusal {A} (where_ text : string) : Result A :=
  Fail (with_reason (String.substring 0 kMaxReasonLength text) (Error_at InvalidArgument where_)).

(** [BoardName::parse]: the name it holds. *)
Definition BoardName_parse (board : bytes) : Result bytes :=
  let name := board_name board in
  if bool_decide (name = [])
  then fail InvalidArgument "board: names no board name before its first '/' or '@'"
  else Success name.

(** The body of the loop of [check_board]. *)
Definition check_image_board (wanted : bytes) (image : PackageImage) : Result unit :=
  let index := to_string_u (p_image image) in
  match p_board image with
  | None =>
      board_refusal "package: an image names no board"
        ("image " +:+ index +:+ ": the manifest names no board")
  | Some board =>
      if bool_decide (board_name board <> wanted)
      then board_refusal "package: an image is for another board"
        ("image " +:+ index +:+ ": expected board name " +:+ String (char_of_byte 34) ""
         +:+ text_of_bytes wanted +:+ String (char_of_byte 34) "" +:+ ", the manifest says "
         +:+ String (char_of_byte 34) "" +:+ text_of_bytes board +:+ String (char_of_byte 34) "")
      else Success tt
  end.

(** [check_board]. *)
Fixpoint check_images_board (wanted : bytes) (images : list PackageImage) : Result unit :=
  match images with
  | [] => Success tt
  | image :: images => let? _ := check_image_board wanted image in check_images_board wanted images
  end.

Definition check_board (package : DfuPackage) (expected : bytes) : Result unit :=
  check_images_board expected (k_images package).
