(* ===== verification/DfuPackageProperties.v ===== *)
(** * What a package that was read is

    Whatever the archive, [read_package] answers, inside the archive; and a
    package it returns is the one its header promises: sorted, consistent with
    the images' own headers, its dependencies met by what it carries. *)

From Stdlib Require Import Sorting.Sorted.
From S2P Require Import Prelude Errors ImageValues McubootImage Minicbor StoredZip Json JsonExact DfuPackage.

(** ** The dependencies, whatever the image *)

Lemma option_bind_some {A B} (o : option A) (f : A -> option B) a :
  o = Some a -> option_bind _ _ f o = f a.
Proof. by intros ->. Qed.

Lemma area_in image at_ :
  0 <= at_ < 2 ^ 63 -> zlen image < 2 ^ 63 ->
  exists r, area image at_ = Some r /\
    match r with Some (_, size) => u16 size /\ at_ + 4 <= zlen image | None => True end.
Proof.
  intros Ha Hi. unfold area, kTlvHeaderSize. destruct (zlen image <? at_) eqn:E; cbn [orb]; [by eexists|].
  bool_to_prop. rewrite wrap64_sub by lia. destruct (_ <? 4) eqn:E'; [by eexists|]. bool_to_prop.
  destruct (le16_at_in image at_) as (m & -> & Hm); [lia..|].
  destruct (le16_at_in image (at_ + 2)) as (n & -> & Hn); [lia..|]. cbn. eexists. split; [done|]. split; [done|lia].
Qed.

Section dependencies.
Context (image : bytes) (header : McubootImageInfo).
Context (image_fits : zlen image < 2 ^ 62).
Context (header_fits : u16 (header_size header)) (size_fits : u32 (image_size header)).

Lemma tlv_areas_safe base :
  0 <= base < 2 ^ 62 ->
  safe (fun '(protected_end, unprotected) => base <= protected_end <= zlen image /\ u16 unprotected)
    (tlv_areas image header base).
Proof.
  intros Hb. unfold tlv_areas. destruct (area_in image base) as ([[magic size]|] & -> & Hr); [lia..| |done].
  cbn [option_bind]. destruct Hr as [Hu Hr]. destruct (_ =? kTlvProtInfoMagic).
  - destruct (_ || _); [done|]. cbn zeta.
    unfold fits in Hu. destruct (area_in image (base + size)) as ([[magic' size']|] & -> & Hr'); [lia..| |done].
    cbn [option_bind]. destruct (negb _); [done|]. cbn. destruct Hr'. split; [lia|done].
  - destruct (_ || _); [done|]. cbn. split; [lia|done].
Qed.

Lemma tlv_entry_safe end_ offset :
  0 <= offset < end_ -> end_ <= zlen image ->
  safe (fun '(_, length) => 0 <= length) (tlv_entry image end_ offset).
Proof.
  intros Ho He. unfold tlv_entry, kTlvHeaderSize. rewrite wrap64_sub by lia.
  destruct (_ <? 4) eqn:E; [done|]. bool_to_prop. do 2 in_bounds. rewrite wrap64_sub by lia.
  destruct (_ <? _) eqn:E'; [done|]. bool_to_prop. destruct (_ =? kTlvDependency); [|cbn; unfold fits in *; lia].
  destruct (negb _) eqn:E''; [done|]. bool_to_prop. unfold kDependencySize in *. in_bounds.
  match goal with H : zlen ?v = 12 |- context [dependency ?v] =>
    unfold dependency;
    destruct (byte_at_in v 0) as (? & ->); [lia|]; destruct (byte_at_in v 4) as (? & ->); [lia|];
    destruct (byte_at_in v 5) as (? & ->); [lia|]; destruct (le16_at_in v 6) as (? & -> & _); [lia..|];
    destruct (le32_at_in v 8) as (? & -> & _); [lia..|] end.
  cbn. lia.
Qed.

Lemma walk_safe protected_end end_ dependencies offset :
  0 <= offset -> end_ <= zlen image ->
  exists r, iterate (walk_body image header protected_end end_) (kMaxImageTlvs + 2) (dependencies, offset, 0) = Some r /\
    safe (fun _ => True) r.
Proof.
  intros Ho He. set (I := fun s : walk_state => 0 <= s.1.2 /\ 0 <= s.2 <= 256).
  assert (forall s s', I s -> walk_body image header protected_end end_ s = Continue s' ->
    I s' /\ (Z.to_nat (256 - s'.2) < Z.to_nat (256 - s.2))%nat) as Hstep.
  { intros [[ds o] v] s' [Hos Hvs]. cbn [fst snd] in *. unfold walk_body. destruct (negb _) eqn:E; [done|].
    destruct (v =? _) eqn:Ev; [done|]. bool_to_prop. change (Z.of_nat kMaxImageTlvs) with 256 in *.
    destruct (_ && _); [intros [= <-]; unfold I, kTlvHeaderSize; cbn; lia|].
    pose proof (tlv_entry_safe end_ o ltac:(lia) He) as Hs.
    destruct (tlv_entry image end_ o) as [[[found n]|]|]; [|done..]. cbn in Hs.
    intros [= <-]. unfold I, kTlvHeaderSize. cbn. lia. }
  destruct (iterate_total (walk_body image header protected_end end_) I (fun s => Z.to_nat (256 - s.2)) Hstep
    (kMaxImageTlvs + 2) (dependencies, offset, 0)) as [r Hr].
  { unfold I. cbn. lia. }
  { cbn. change (Z.to_nat 256) with 256%nat. unfold kMaxImageTlvs. lia. }
  exists r. split; [done|]. eapply (iterate_inv (walk_body image header protected_end end_) I); [| |split|exact Hr]; cbn; try lia.
  { intros s s' HI H. exact (proj1 (Hstep s s' HI H)). }
  intros [[ds o] v] r' [Hos Hvs]. cbn [fst snd] in *. unfold walk_body. destruct (negb _) eqn:E; [by intros [= <-]|].
  destruct (v =? _); [by intros [= <-]|]. destruct (_ && _); [done|]. bool_to_prop.
  pose proof (tlv_entry_safe end_ o ltac:(lia) He) as Hs.
  destruct (tlv_entry image end_ o) as [[[found n]|]|]; [done| |done]. by intros [= <-].
Qed.

Lemma read_dependencies_safe : safe (fun _ => True) (read_dependencies image header).
Proof.
  unfold read_dependencies. unfold fits in *. eapply safe_bind; [by apply tlv_areas_safe; lia|].
  intros [protected_end unprotected] [Hp Hu]. destruct (_ || _) eqn:E; [done|]. bool_to_prop.
  rewrite wrap64_sub in * by lia.
  destruct (walk_safe protected_end (protected_end + unprotected) [] (header_size header + image_size header + kTlvHeaderSize))
    as (r & -> & Hr); unfold kTlvHeaderSize; [lia..|done].
Qed.
End dependencies.

(** ** A package that was read *)

Lemma uint_loop_range text value n :
  forallb is_digit text = true -> 0 <= value < 2 ^ 64 -> uint_loop text value = Some n -> 0 <= n < 2 ^ 64.
Proof.
  revert value. induction text as [|c text IH]; intros value; [by intros _ H [= <-]|].
  cbn [forallb uint_loop]. intros [Hc Ht]%andb_true_iff Hv. unfold is_digit in Hc. bool_to_prop.
  destruct (_ <? value) eqn:E; [done|]. bool_to_prop. apply IH; [done|].
  assert (10 * ((2 ^ 64 - 1 - (c - 48)) / 10) <= 2 ^ 64 - 1 - (c - 48)) by (apply Z.mul_div_le; lia). lia.
Qed.

Lemma as_uint_range v n : as_uint v = Some n -> 0 <= n < 2 ^ 64.
Proof.
  destruct v; try done. cbn. destruct (_ || _) eqn:E; [done|]. bool_to_prop. by apply uint_loop_range.
Qed.

Lemma small_number_range entry key max m r n :
  small_number entry key max m r = Success (Some n) -> max < 2 ^ 32 -> 0 <= n <= max.
Proof.
  unfold small_number. destruct (json_find _ entry) as [v|]; [|done]. cbn zeta.
  destruct (match v with String_ text => _ | _ => _ end) as [k|] eqn:Ek; [|done].
  destruct (max <? k) eqn:E; [done|]. bool_to_prop. intros [= <-] Hmax.
  assert (0 <= k) by (destruct v; apply as_uint_range in Ek; lia). rewrite wrap_fits by (unfold fits; lia). lia.
Qed.

(** A build that stands in the archive, and whose header was read from it. *)
Definition build_ok (archive file content : bytes) (header : McubootImageInfo) : Prop :=
  stands_in archive (mkZipEntry file content) /\
  parse_mcuboot_header (take kMcubootHeaderSize content) = Success header.

(** The version the manifest states is the one of the header. *)
Definition stated_right (stated : option bytes) (header : McubootImageInfo) : Prop :=
  forall text, stated = Some text -> parse_version (text_of_bytes text) = Success (version header).

(** The second build is for the other slot, and of the same version. *)
Definition pair_ok (archive : bytes) (i : PackageImage) (b : PackageBuild) : Prop :=
  p_slot i = Some (2 * p_image i) /\ b_slot b = 2 * p_image i + 1 /\
  version (b_header b) = version (p_header i) /\ build_ok archive (b_file b) (b_bytes b) (b_header b).

Definition image_ok (archive : bytes) (i : PackageImage) : Prop :=
  0 <= p_image i <= kMaxImageIndex /\ build_ok archive (p_file i) (p_bytes i) (p_header i) /\
  stated_right (p_version i) (p_header i) /\
  read_dependencies (p_bytes i) (p_header i) = Some (Success (p_dependencies i)) /\
  forall b, p_secondary i = Some b -> pair_ok archive i b.

(** At least this major, minor and revision, in this order. *)
Definition at_least (v minimum : ImageVersion) : Prop :=
  v_major minimum < v_major v \/
  v_major minimum = v_major v /\
    (v_minor minimum < v_minor v \/ v_minor minimum = v_minor v /\ v_revision minimum <= v_revision v).

Lemma satisfies_spec v minimum : satisfies v minimum = true <-> at_least v minimum.
Proof. unfold satisfies, at_least. repeat case_match; bool_to_prop; lia. Qed.

(** Every dependency on an image of the package is met by it. *)
Definition dependencies_met (images : list PackageImage) : Prop :=
  forall i d partner, i ∈ images -> d ∈ p_dependencies i -> partner ∈ images ->
  p_image partner = d_image d -> at_least (version (p_header partner)) (d_minimum d).

Definition package_ok (archive : bytes) (p : DfuPackage) : Prop :=
  1 <= zlen (k_images p) <= kMaxZipEntries /\
  Forall (image_ok archive) (k_images p) /\
  StronglySorted Z.lt (p_image <$> k_images p) /\
  (length (List.filter (fun i => bool_decide (p_secondary i <> None)) (k_images p)) <= 1)%nat /\
  dependencies_met (k_images p).

Lemma version_agrees_spec stated header : version_agrees stated header = true <-> stated_right stated header.
Proof.
  unfold version_agrees, stated_right. destruct stated as [text|]; [|by split].
  split.
  - destruct (parse_version _) eqn:E; [|done]. intros H%bool_decide_eq_true ? [= <-]. by rewrite E, H.
  - intros H. rewrite (H text eq_refl). by apply bool_decide_eq_true_2.
Qed.

Section read.
Context (archive : bytes) (archive_bytes : byte_list archive) (archive_small : zlen archive <= kMaxPackageSize).

Lemma stands_in_bytes e : stands_in archive e -> byte_list (z_data e) /\ zlen (z_data e) <= zlen archive.
Proof.
  intros (pre & extra & post & E). rewrite E in archive_bytes. rewrite !byte_list_app in archive_bytes.
  split; [tauto|]. rewrite E, !length_app. lia.
Qed.

Lemma read_image_bytes_safe file content image slot version board soc :
  stands_in archive (mkZipEntry file content) -> 0 <= image <= kMaxImageIndex ->
  safe (fun i => image_ok archive i /\ p_secondary i = None)
    (read_image_bytes file content image slot version board soc).
Proof.
  intros Hst Hi. unfold read_image_bytes. destruct (_ <? _)%nat; [done|].
  destruct (parse_mcuboot_header _) as [header|] eqn:Eh; [|done].
  destruct (negb _) eqn:Ev; [done|]. apply negb_false_iff, version_agrees_spec in Ev.
  destruct (stands_in_bytes _ Hst) as [Hb Hl]. cbn [z_data] in *.
  pose proof (parse_header_inv _ _ ltac:(by apply byte_list_take) Eh) as [[] _].
  pose proof (read_dependencies_safe content header ltac:(unfold kMaxPackageSize in *; lia) ltac:(done) ltac:(done)) as Hs.
  destruct (read_dependencies content header) as [[ds|]|] eqn:Ed; [|done..]. cbn.
  split; [|done]. unfold image_ok, build_ok. cbn. split_and!; try done; apply Hi.
Qed.

Lemma read_image_safe entry zip single :
  Forall (listed archive) zip ->
  safe (fun i => image_ok archive i /\ p_secondary i = None) (read_image entry zip single).
Proof.
  intros Hzip. unfold read_image. destruct entry as [| | | | |members]; try done.
  destruct (optional_text _ "file") as [[name|]|]; try done. cbn [checked_bind].
  destruct (zip_find name zip) as [found|] eqn:Ef; [|done]. destruct (negb _); [done|].
  apply find_some in Ef as [Hin Hname%bool_decide_eq_true]. apply list_elem_of_In in Hin.
  rewrite Forall_forall in Hzip. destruct (Hzip _ Hin) as (_ & _ & Hst).
  destruct (image_index _) as [index|] eqn:Ei; [|done]. cbn [checked_bind].
  destruct (_ && _); [done|]. destruct (slot_of _) as [slot|]; [|done]. cbn [checked_bind].
  destruct (optional_text _ "version_MCUBOOT"); [|done]. cbn [checked_bind].
  destruct (optional_text _ "board"); [|done]. cbn [checked_bind].
  destruct (optional_text _ "soc"); [|done]. cbn [checked_bind].
  destruct (stated_version _ _); [|done]. cbn [checked_bind]. subst name.
  apply read_image_bytes_safe; [by destruct found|].
  destruct index as [n|]; [|cbn; unfold kMaxImageIndex; lia].
  apply small_number_range in Ei; [done|]. unfold kMaxImageIndex. lia.
Qed.

Lemma pair_builds_ok first second r :
  image_ok archive first -> image_ok archive second -> p_image second = p_image first ->
  p_secondary second = None -> pair_builds first second = Success r ->
  image_ok archive r /\ p_image r = p_image first.
Proof.
  intros Hf Hs He Hn. unfold pair_builds. case_bool_decide as Hnone; [done|]. cbn zeta.
  assert (0 <= p_image first <= 255) as Hr by apply Hf.
  rewrite (wrap_fits 32 (p_image first * 2)), (wrap_fits 32 (p_image first * 2 + 1)) by (unfold fits; lia).
  destruct (p_slot first) as [a|] eqn:Ea, (p_slot second) as [b|] eqn:Eb; try done.
  destruct (negb _) eqn:Ep; [done|]. apply negb_false_iff in Ep.
  case_bool_decide as Hv; [done|]. case_bool_decide; [done|].
  case_bool_decide as Hsw; intros [= <-].
  - assert (a = p_image first * 2 + 1 /\ b = p_image first * 2) as [-> ->].
    { assert (a <> p_image first * 2) by congruence. lia. }
    destruct Hs as (H1 & H2 & H3 & H4 & _). split; [|done]. unfold image_ok, with_secondary; cbn. split_and!; try done; try lia.
    intros ? [= <-]. unfold pair_ok; cbn. rewrite Eb, He. split_and!; [f_equal; lia|lia|done|apply Hf..].
  - injection Hsw as ->.
    destruct Hf as (H1 & H2 & H3 & H4 & _). split; [|done]. unfold image_ok, with_secondary; cbn. split_and!; try done; try lia.
    intros ? [= <-]. unfold pair_ok; cbn. rewrite Ea. split_and!; [f_equal; lia|lia|done|apply Hs..].
Qed.

Lemma add_image_ok images image images' :
  Forall (image_ok archive) images -> image_ok archive image -> p_secondary image = None ->
  add_image images image = Success images' ->
  Forall (image_ok archive) images' /\
  (p_image <$> images' = p_image <$> images \/
   p_image <$> images' = (p_image <$> images) ++ [p_image image] /\ p_image image ∉ p_image <$> images).
Proof.
  intros Hall Hi Hn. revert images'. induction Hall as [|other images Ho Hall IH]; intros images'; cbn [add_image].
  { intros [= <-]. split; [by apply Forall_singleton|]. right. split; [done|]. apply not_elem_of_nil. }
  destruct (p_image other =? p_image image) eqn:E; bool_to_prop.
  - destruct (pair_builds other image) as [r|] eqn:Ep; [|done]. cbn. intros [= <-].
    apply pair_builds_ok in Ep as [Hr Hri]; try done. split; [by constructor|]. left. cbn. by rewrite Hri.
  - destruct (add_image images image) as [ims|]; [|done]. cbn. intros [= <-].
    destruct (IH ims eq_refl) as [Hf Hk]. split; [by constructor|]. cbn.
    destruct Hk as [->|[-> Hk]]; [by left|right]. split; [done|]. intros [?|?]%elem_of_cons; congruence || done.
Qed.

Lemma read_files_safe zip single items images :
  Forall (listed archive) zip -> Forall (image_ok archive) images -> NoDup (p_image <$> images) ->
  safe (fun ims => Forall (image_ok archive) ims /\ NoDup (p_image <$> ims) /\
          (length images <= length ims <= length images + length items)%nat /\
          (items <> [] -> (1 <= length ims)%nat))
    (read_files zip single items images).
Proof.
  intros Hzip. revert images. induction items as [|entry items IH]; intros images Hall Hnd; cbn [read_files].
  { cbn. split_and!; try done; lia. }
  eapply safe_bind; [by apply read_image_safe|]. intros image [Hi Hn].
  destruct (add_image images image) as [images'|] eqn:Ea; [|done]. cbn [checked_bind].
  assert (images' <> []) as Hne.
  { destruct images; cbn in Ea; [by injection Ea as <-|]. destruct (_ =? _); apply result_bind_Success in Ea as (? & _ & [= <-]); done. }
  apply add_image_ok in Ea as [Hall' Hk]; try done.
  assert (NoDup (p_image <$> images') /\ (length images <= length images' <= S (length images))%nat /\
    (1 <= length images')%nat) as (Hnd' & Hlen & Hpos).
  { rewrite <- (length_fmap p_image images'), <- (length_fmap p_image images). destruct Hk as [Hk|[Hk Hk']]; rewrite Hk.
    - split_and!; try done; try lia. rewrite <- Hk, length_fmap. destruct images'; [done|cbn; lia].
    - rewrite length_app. cbn. split_and!; try lia. apply NoDup_app. split_and!; [done| |apply NoDup_singleton].
      by intros x Hx ->%list_elem_of_singleton. }
  eapply safe_weaken; [|by apply IH]. cbn. intros ims (? & ? & ? & ?). split_and!; try done; lia.
Qed.
End read.

(** ** Sorting, and the dependencies *)

Lemma insert_image_perm i is0 : insert_image i is0 ≡ₚ i :: is0.
Proof.
  induction is0 as [|j is0 IH]; [done|]. cbn. destruct (_ <=? _); [done|]. rewrite IH. constructor.
Qed.

Lemma sort_images_perm images : sort_images images ≡ₚ images.
Proof. induction images as [|i images IH]; [done|]. cbn. by rewrite insert_image_perm, IH. Qed.

Lemma insert_image_sorted i images :
  StronglySorted Z.lt (p_image <$> images) -> p_image i ∉ p_image <$> images ->
  StronglySorted Z.lt (p_image <$> insert_image i images).
Proof.
  induction images as [|j images IH]; cbn; intros Hs Hn; [by repeat constructor|].
  apply StronglySorted_inv in Hs as [Hs Hj]. destruct (_ <=? _) eqn:E; bool_to_prop; cbn.
  - assert (p_image i < p_image j) by (assert (p_image i <> p_image j) by (intros Hij; apply Hn; rewrite Hij; by left); lia).
    constructor; [by constructor|]. constructor; [done|]. eapply Forall_impl; [exact Hj|]. intros x Hx. cbn in Hx. lia.
  - constructor; [apply IH; [done|]; intros Hi; apply Hn; by right|].
    rewrite insert_image_perm. cbn. constructor; [lia|done].
Qed.

Lemma sort_images_sorted images :
  NoDup (p_image <$> images) -> StronglySorted Z.lt (p_image <$> sort_images images).
Proof.
  induction images as [|i images IH]; cbn; [by constructor|]. intros [Hi Hn]%NoDup_cons.
  apply insert_image_sorted; [by apply IH|]. by rewrite sort_images_perm.
Qed.

Lemma image_of_unique images i :
  NoDup (p_image <$> images) -> i ∈ images -> image_of images (p_image i) = Some i.
Proof.
  unfold image_of. induction images as [|j images IH]; [intros _ []%not_elem_of_nil|].
  cbn. intros [Hj Hn]%NoDup_cons [->|Hi]%elem_of_cons; [by rewrite Z.eqb_refl|].
  destruct (_ =? _) eqn:E; [|by apply IH]. bool_to_prop. exfalso. apply Hj. rewrite E.
  by apply list_elem_of_fmap_2.
Qed.

Lemma check_dependencies_met images :
  NoDup (p_image <$> images) ->
  (check_dependencies images = Success tt <-> dependencies_met images).
Proof.
  intros Hn. unfold check_dependencies, dependencies_met. destruct (forallb _ images) eqn:E.
  - split; [|done]. intros _ i d partner Hi Hd Hp Hk. rewrite forallb_forall in E.
    apply list_elem_of_In in Hi, Hd. specialize (E i Hi). rewrite forallb_forall in E. specialize (E d Hd).
    unfold dependency_met in E. rewrite <- Hk, image_of_unique in E by done. by apply satisfies_spec.
  - split; [done|]. intros H. assert (forallb (fun image => forallb (dependency_met images) (p_dependencies image)) images = true);
      [|congruence].
    apply forallb_forall. intros i Hi. apply forallb_forall. intros d Hd. unfold dependency_met.
    destruct (image_of images (d_image d)) as [partner|] eqn:Ep; [|done].
    apply find_some in Ep as [Hp Hk]. bool_to_prop. apply satisfies_spec. apply (H i); try by apply list_elem_of_In. done.
Qed.

Lemma filter_perm_length {A} (f : A -> bool) l l' :
  l ≡ₚ l' -> length (List.filter f l) = length (List.filter f l').
Proof.
  induction 1 as [|x l l' _ IH|x y l|l1 l2 l3 _ IH1 _ IH2]; cbn; [done| | |congruence].
  - destruct (f x); cbn; congruence.
  - by destruct (f x), (f y).
Qed.

Lemma read_images_safe archive zip manifest :
  byte_list archive -> zlen archive <= kMaxPackageSize -> Forall (listed archive) zip ->
  safe (fun images => package_ok archive (mkPackage None None images)) (read_images zip manifest).
Proof.
  intros Hb Hl Hzip. unfold read_images. destruct (json_find _ manifest) as [[| | | |items|]|]; try done.
  destruct items as [|x items]; [done|]. destruct (kMaxZipEntries <? _) eqn:El; [done|]. bool_to_prop.
  eapply safe_bind; [by apply read_files_safe; [..|constructor|constructor]|].
  intros images (Hall & Hnd & Hlen & Hpos). cbn zeta. destruct (1 <? _)%nat eqn:Ep; [done|].
  apply Nat.ltb_ge in Ep. pose proof (sort_images_perm images) as Hperm.
  destruct (check_dependencies _) as [[]|] eqn:Ec; [|done]. cbn [checked_bind safe].
  apply check_dependencies_met in Ec; [|by rewrite Hperm].
  unfold package_ok. cbn [k_images]. split_and!.
  - rewrite Hperm. specialize (Hpos ltac:(done)). lia.
  - rewrite Hperm. cbn in Hlen, El. lia.
  - by rewrite Hperm.
  - by apply sort_images_sorted.
  - by rewrite (filter_perm_length _ _ _ Hperm).
  - done.
Qed.

Lemma read_package_safe (archive : bytes) :
  byte_list archive -> safe (package_ok archive) (read_package archive).
Proof.
  intros Hb. unfold read_package. destruct (_ <? _) eqn:El; [done|]. bool_to_prop.
  eapply safe_bind; [apply read_stored_zip_safe; unfold kMaxPackageSize in *; lia|]. intros zip (Hzip & _ & _).
  destruct (zip_find _ zip) as [entry|]; [|done]. destruct (_ <? _); [done|].
  destruct (parse_json_exact (z_data entry)) as [Ht _].
  destruct (parse_json (z_data entry)) as [[manifest|]|]; try done. cbn [checked_bind].
  unfold read_manifest. destruct manifest as [| | | | |ms]; try done.
  destruct (format_version _); [|done]. cbn [checked_bind]. destruct (optional_text _ _); [|done]. cbn [checked_bind].
  eapply safe_bind; [by apply read_images_safe|]. intros images Hi. exact Hi.
Qed.


(** ** The dependencies of an image *)

(** What the entries of the TLV areas say; [None] when one has to be refused. *)
Definition dependency_of (e : Z * bytes) : option (list ImageDependency) :=
  if e.1 =? kTlvDependency then
    if zlen e.2 =? kDependencySize then (fun d => [d]) <$> dependency e.2 else None
  else Some [].

Fixpoint select_dependencies (es : list (Z * bytes)) : option (list ImageDependency) :=
  match es with
  | [] => Some []
  | e :: es =>
      match dependency_of e, select_dependencies es with
      | Some found, Some ds => Some (found ++ ds)
      | _, _ => None
      end
  end.

Definition refused_dependencies (r : checked (list ImageDependency)) : Prop :=
  exists e, r = Some (Fail e) /\ code e = MalformedMessage.

Lemma dependency_total v : zlen v = kDependencySize -> exists d, dependency v = Some d.
Proof.
  unfold kDependencySize. intros Hv. unfold dependency.
  destruct (byte_at_in v 0) as (? & ->); [lia|]. destruct (byte_at_in v 4) as (? & ->); [lia|].
  destruct (byte_at_in v 5) as (? & ->); [lia|]. destruct (le16_at_in v 6) as (? & -> & _); [lia..|].
  destruct (le32_at_in v 8) as (? & -> & _); [lia..|]. by eexists.
Qed.

Section image_dependencies.
Context (image : bytes) (header : McubootImageInfo) (protected_end end_ : Z).
Context (image_fits : zlen image < 2 ^ 62) (end_in : end_ <= zlen image).

Lemma tlv_entry_here pre e post :
  image = pre ++ tlv_bytes e ++ post -> zlen pre + zlen (tlv_bytes e) <= end_ -> u16 e.1 -> u16 (zlen e.2) ->
  match dependency_of e with
  | Some found => tlv_entry image end_ (zlen pre) = Some (Success (found, zlen e.2))
  | None => exists err, tlv_entry image end_ (zlen pre) = Some (Fail err) /\ code err = MalformedMessage
  end.
Proof.
  destruct e as [t v]. cbn [fst snd]. intros Hi He Ht Hv. rewrite tlv_bytes_length in He. cbn [snd] in He.
  unfold tlv_bytes in Hi. cbn [fst snd] in Hi. rewrite <- !app_assoc in Hi.
  unfold tlv_entry, kTlvHeaderSize, dependency_of. cbn [fst snd]. rewrite wrap64_sub by lia.
  rewrite (proj2 (Z.ltb_ge _ _)) by lia.
  assert (le16_at image (zlen pre) = Some t) as -> by (rewrite Hi; by apply (read_le16 pre t)).
  assert (le16_at image (zlen pre + 2) = Some (zlen v)) as ->.
  { rewrite Hi, app_assoc. apply (read_le16 (pre ++ le16 t)); [done|]. unfold le16. rewrite length_app. cbn. lia. }
  cbn [option_bind]. rewrite wrap64_sub by lia. rewrite (proj2 (Z.ltb_ge _ _)) by lia.
  destruct (t =? kTlvDependency); [|done].
  destruct (zlen v =? kDependencySize) eqn:El; cbn [negb]; [|by eexists]. apply Z.eqb_eq in El.
  destruct (dependency_total v El) as [d Hd]. rewrite Hd. cbn [fmap option_fmap option_map].
  assert (subspan image (zlen pre + 4) kDependencySize = Some v) as ->; [|cbn [option_bind]; by rewrite Hd].
  assert (image = (pre ++ le16 t ++ le16 (zlen v)) ++ v ++ post) as -> by (by rewrite Hi, <- !app_assoc).
  rewrite <- El.
  replace (zlen pre + 4) with (zlen (pre ++ le16 t ++ le16 (zlen v)) + 0) by (unfold le16; rewrite !length_app; cbn; lia).
  rewrite subspan_app by lia. apply subspan_front.
Qed.

Lemma walk_run es : forall pre post ds visited fuel,
  image = pre ++ flat_map tlv_bytes es ++ post ->
  Forall (fun e => u16 e.1 /\ u16 (zlen e.2)) es ->
  zlen pre + zlen (flat_map tlv_bytes es) <= end_ ->
  protected_tlv_size header = 0 \/ protected_end < zlen pre \/ zlen pre + zlen (flat_map tlv_bytes es) <= protected_end ->
  visited + zlen es <= 256 -> 0 <= visited ->
  match select_dependencies es with
  | Some found =>
      iterate (walk_body image header protected_end end_) (length es + fuel) (ds, zlen pre, visited)
      = iterate (walk_body image header protected_end end_) fuel
          (ds ++ found, zlen (pre ++ flat_map tlv_bytes es), visited + zlen es)
  | None =>
      exists r, iterate (walk_body image header protected_end end_) (length es + fuel) (ds, zlen pre, visited) = Some r /\
        refused_dependencies r
  end.
Proof.
  induction es as [|e es IH]; intros pre post ds visited fuel Hi Hes He Hp Hv H0.
  { cbn. by rewrite !app_nil_r, Z.add_0_r. }
  inversion_clear Hes as [|? ? [Ht Hl] Hes']. cbn [flat_map] in *. rewrite length_app in He, Hp.
  rewrite <- app_assoc in Hi. pose proof (tlv_bytes_length e) as Hel.
  pose proof (tlv_entry_here pre e _ Hi ltac:(lia) Ht Hl) as Hentry.
  cbn [select_dependencies length Nat.add iterate] in *.
  assert (walk_body image header protected_end end_ (ds, zlen pre, visited) =
    match tlv_entry image end_ (zlen pre) with
    | None => Return None
    | Some (Fail e) => Return (Some (Fail e))
    | Some (Success (found, length)) => Continue (ds ++ found, zlen pre + (kTlvHeaderSize + length), visited + 1)
    end) as ->.
  { unfold walk_body. rewrite (proj2 (Z.ltb_lt _ _)) by lia. cbn [negb].
    rewrite (proj2 (Z.eqb_neq visited _)) by (unfold kMaxImageTlvs; lia).
    destruct (_ && _) eqn:E; [|done]. bool_to_prop. lia. }
  destruct (dependency_of e) as [found|].
  2: { destruct Hentry as (err & -> & Hc). eexists. split; [done|]. by exists err. }
  rewrite Hentry. specialize (IH (pre ++ tlv_bytes e) post (ds ++ found) (visited + 1) fuel).
  rewrite <- app_assoc, length_app in IH. unfold kTlvHeaderSize.
  replace (zlen pre + (4 + zlen e.2)) with (Z.of_nat (length pre + length (tlv_bytes e))) by lia.
  specialize (IH Hi Hes' ltac:(lia) ltac:(lia) ltac:(lia) ltac:(lia)).
  destruct (select_dependencies es) as [more|]; [|done]. rewrite IH, <- !app_assoc.
  by replace (visited + 1 + zlen es) with (visited + Z.of_nat (S (length es))) by lia.
Qed.
End image_dependencies.

Lemma select_dependencies_app es1 es2 :
  select_dependencies (es1 ++ es2) =
  match select_dependencies es1, select_dependencies es2 with
  | Some a, Some b => Some (a ++ b)
  | _, _ => None
  end.
Proof.
  induction es1 as [|e es1 IH]; cbn; [by destruct (select_dependencies es2)|].
  rewrite IH. destruct (dependency_of e); [|done]. destruct (select_dependencies es1); [|done].
  destruct (select_dependencies es2); [|done]. by rewrite app_assoc.
Qed.

Lemma area_here image pre magic n post :
  image = pre ++ le16 magic ++ le16 n ++ post -> u16 magic -> u16 n -> zlen image < 2 ^ 62 ->
  area image (zlen pre) = Some (Some (magic, n)).
Proof.
  intros Hi Hm Hn Hf. assert (zlen pre + 4 <= zlen image) by (rewrite Hi; unfold le16; rewrite !length_app; cbn; lia).
  unfold area, kTlvHeaderSize. rewrite wrap64_sub by lia. rewrite !(proj2 (Z.ltb_ge _ _)) by lia. cbn [orb].
  assert (le16_at image (zlen pre) = Some magic) as -> by (rewrite Hi; by apply (read_le16 pre magic)).
  assert (le16_at image (zlen pre + 2) = Some n) as ->; [|done].
  rewrite Hi, app_assoc. apply (read_le16 (pre ++ le16 magic)); [done|]. unfold le16. rewrite length_app. cbn. lia.
Qed.

(** The last run of entries, to the end of the areas. *)
Lemma walk_last image header protected_end pre es post ds visited fuel :
  zlen image < 2 ^ 62 -> image = pre ++ flat_map tlv_bytes es ++ post ->
  Forall (fun e => u16 e.1 /\ u16 (zlen e.2)) es ->
  protected_tlv_size header = 0 \/ protected_end < zlen pre -> visited + zlen es <= 256 -> 0 <= visited ->
  exists r, iterate (walk_body image header protected_end (zlen (pre ++ flat_map tlv_bytes es)))
              (length es + S fuel) (ds, zlen pre, visited) = Some r /\
    match select_dependencies es with
    | Some found => r = Some (Success (ds ++ found))
    | None => refused_dependencies r
    end.
Proof.
  intros Hf Hi Hes Hp Hv H0.
  assert (zlen (pre ++ flat_map tlv_bytes es) <= zlen image) as He by (rewrite Hi, !length_app; lia).
  pose proof (walk_run image header protected_end _ Hf He es pre post ds visited (S fuel) Hi Hes
    ltac:(rewrite length_app; lia) ltac:(tauto) Hv H0) as H.
  destruct (select_dependencies es) as [found|]; [|by destruct H as (r & ? & ?); exists r].
  rewrite H. eexists. split; [|done]. cbn [iterate]. unfold walk_body at 1. by rewrite Z.ltb_irrefl.
Qed.

(** Both areas, with the header between them. *)
Lemma walk_both image header pre ps sep es post fuel :
  zlen image < 2 ^ 62 -> image = pre ++ flat_map tlv_bytes ps ++ sep ++ flat_map tlv_bytes es ++ post ->
  zlen sep = kTlvHeaderSize ->
  Forall (fun e => u16 e.1 /\ u16 (zlen e.2)) ps -> Forall (fun e => u16 e.1 /\ u16 (zlen e.2)) es ->
  protected_tlv_size header <> 0 -> zlen ps + zlen es + 1 <= 256 ->
  exists r, iterate (walk_body image header (zlen (pre ++ flat_map tlv_bytes ps))
                      (zlen (pre ++ flat_map tlv_bytes ps ++ sep ++ flat_map tlv_bytes es)))
              (length ps + S (length es + S fuel)) ([], zlen pre, 0) = Some r /\
    match select_dependencies (ps ++ es) with
    | Some found => r = Some (Success found)
    | None => refused_dependencies r
    end.
Proof.
  unfold kTlvHeaderSize. intros Hf Hi Hsep Hps Hes Hp Hn. rewrite select_dependencies_app.
  set (B := pre ++ flat_map tlv_bytes ps). set (C := B ++ sep).
  replace (pre ++ flat_map tlv_bytes ps ++ sep ++ flat_map tlv_bytes es) with (C ++ flat_map tlv_bytes es)
    by (unfold C, B; by rewrite <- !app_assoc).
  assert (image = C ++ flat_map tlv_bytes es ++ post) as HC by (unfold C, B; rewrite Hi, <- !app_assoc; done).
  assert (zlen C = zlen B + 4) as HlC by (unfold C; rewrite length_app; lia).
  assert (zlen (C ++ flat_map tlv_bytes es) <= zlen image) as He by (rewrite HC, !length_app; lia).
  pose proof (walk_run image header (zlen B) _ Hf He ps pre _ [] 0 (S (length es + S fuel)) Hi Hps
    ltac:(unfold C, B; rewrite !length_app; lia) ltac:(unfold B; rewrite length_app; lia) ltac:(lia) ltac:(lia)) as H.
  destruct (select_dependencies ps) as [found|]; [|done]. rewrite H.
  cbn [iterate]. unfold walk_body at 1. fold B. rewrite (proj2 (Z.ltb_lt _ _)) by (rewrite length_app; lia).
  rewrite (proj2 (Z.eqb_neq (0 + zlen ps) _)) by (unfold kMaxImageTlvs; lia).
  rewrite (proj2 (Z.eqb_neq _ 0)) by lia. rewrite Z.eqb_refl. cbn [negb andb app]. unfold kTlvHeaderSize. rewrite <- HlC.
  destruct (walk_last image header (zlen B) C es post found (0 + zlen ps + 1) fuel Hf HC Hes
    ltac:(lia) ltac:(lia) ltac:(lia)) as (r & -> & Hres).
  exists r. split; [done|]. by destruct (select_dependencies es).
Qed.

Lemma read_dependencies_of_image image header prot es :
  zlen image < 2 ^ 62 -> tlv_image header prot es image -> (rounds prot es <= kMaxImageTlvs)%nat ->
  match select_dependencies (entries prot es) with
  | Some ds => read_dependencies image header = Some (Success ds)
  | None => refused_dependencies (read_dependencies image header)
  end.
Proof.
  intros Hf [Hh Hi Hp Hpf Hef Hty (body & tail & Hfile & Hbase)] Hr. unfold read_dependencies. cbn zeta. rewrite <- Hbase.
  unfold rounds, kMaxImageTlvs in Hr. unfold tlv_areas, kTlvHeaderSize.
  destruct prot as [ps|]; cbn [entries protected_size region_bytes] in *; unfold area_bytes in Hfile;
    set (ne := 4 + zlen (flat_map tlv_bytes es)) in *.
  - apply Forall_app in Hty as [Hty1 Hty2]. set (np := 4 + zlen (flat_map tlv_bytes ps)) in *. rewrite length_app in Hr.
    set (A := body ++ le16 kTlvProtInfoMagic ++ le16 np).
    set (B := A ++ flat_map tlv_bytes ps). set (C := B ++ le16 kTlvInfoMagic ++ le16 ne).
    assert (image = A ++ flat_map tlv_bytes ps ++ (le16 kTlvInfoMagic ++ le16 ne ++ flat_map tlv_bytes es ++ tail)) as HA
      by (unfold A; rewrite Hfile, <- !app_assoc; done).
    assert (image = C ++ flat_map tlv_bytes es ++ tail) as HC by (unfold C, B; rewrite HA, <- !app_assoc; done).
    assert (zlen A = zlen body + 4) as HlA by (unfold A, le16; rewrite !length_app; cbn; lia).
    assert (zlen B = zlen body + np) as HlB by (unfold B; rewrite length_app; lia).
    assert (zlen C = zlen B + 4) as HlC by (unfold C, le16; rewrite !length_app; cbn; lia).
    assert (zlen C + zlen (flat_map tlv_bytes es) <= zlen image) as HlI by (rewrite HC, !length_app; lia).
    rewrite (area_here image body kTlvProtInfoMagic np (flat_map tlv_bytes ps ++ le16 kTlvInfoMagic ++ le16 ne ++ flat_map tlv_bytes es ++ tail))
      by (try done; rewrite Hfile, <- !app_assoc; done).
    cbn [option_bind]. rewrite !Z.eqb_refl, Hp, Z.eqb_refl, (proj2 (Z.ltb_ge np 4)) by lia. cbn [negb orb].
    rewrite <- HlB. rewrite (area_here image B kTlvInfoMagic ne (flat_map tlv_bytes es ++ tail))
      by (try done; unfold B; rewrite HA, <- !app_assoc; done).
    cbn [option_bind checked_bind]. rewrite Z.eqb_refl. cbn [negb checked_bind].
    rewrite wrap64_sub, !(proj2 (Z.ltb_ge _ _)) by (unfold ne; lia). cbn [orb]. rewrite <- HlA.
    replace (kMaxImageTlvs + 2)%nat with (length ps + S (length es + S (256 - length ps - length es)))%nat
      by (unfold kMaxImageTlvs; lia).
    replace (zlen B + ne) with (zlen (C ++ flat_map tlv_bytes es)) by (rewrite length_app; lia).
    destruct (walk_both image header A ps (le16 kTlvInfoMagic ++ le16 ne) es tail (256 - length ps - length es)) as (r & Hw & Hres);
      [done|by rewrite <- !app_assoc|done|by apply entries_fit|by apply entries_fit|lia|lia|].
    fold B in Hw. rewrite !app_assoc in Hw. fold (le16 kTlvInfoMagic ++ le16 ne) in Hw. rewrite <- (app_assoc B) in Hw. fold C in Hw.
    rewrite Hw. destruct (select_dependencies (ps ++ es)); [by subst|done].
  - set (A := body ++ le16 kTlvInfoMagic ++ le16 ne).
    assert (image = A ++ flat_map tlv_bytes es ++ tail) as HA by (unfold A; rewrite Hfile, <- !app_assoc; done).
    assert (zlen A = zlen body + 4) as HlA by (unfold A, le16; rewrite !length_app; cbn; lia).
    assert (zlen A + zlen (flat_map tlv_bytes es) <= zlen image) as HlI by (rewrite HA, !length_app; lia).
    rewrite (area_here image body kTlvInfoMagic ne (flat_map tlv_bytes es ++ tail)) by (try done; rewrite Hfile, <- !app_assoc; done).
    cbn [option_bind]. rewrite (proj2 (Z.eqb_neq kTlvInfoMagic kTlvProtInfoMagic)) by done.
    rewrite Z.eqb_refl, Hp. cbn [negb orb Z.eqb checked_bind].
    rewrite wrap64_sub, !(proj2 (Z.ltb_ge _ _)) by (unfold ne; lia). cbn [orb]. rewrite <- HlA.
    replace (kMaxImageTlvs + 2)%nat with (length es + S (257 - length es))%nat by (unfold kMaxImageTlvs; lia).
    replace (zlen body + ne) with (zlen (A ++ flat_map tlv_bytes es)) by (rewrite length_app; lia).
    destruct (walk_last image header (zlen body) A es tail [] 0 (257 - length es) Hf HA
      ltac:(by apply entries_fit) ltac:(by left) ltac:(lia) ltac:(lia)) as (r & -> & Hres).
    destruct (select_dependencies es); [by subst|done].
Qed.

(** The dependencies of an image: whatever the entries of its TLV areas,
    with or without a protected area, as long as there are no more of them than
    MCUboot's own bound, [read_dependencies] answers exactly the dependency
    TLVs in their order, and refuses the image when one has the wrong length. *)
Lemma dependencies_exact image header prot es :
  zlen image < 2 ^ 62 -> tlv_image header prot es image -> (rounds prot es <= kMaxImageTlvs)%nat ->
  match select_dependencies (entries prot es) with
  | Some ds => read_dependencies image header = Some (Success ds)
  | None => refused_dependencies (read_dependencies image header)
  end.
Proof. apply read_dependencies_of_image. Qed.

(** ** A package that is in order is read *)

(** [i] is the image this entry of the manifest describes. *)
Definition number_field (entry : JsonValue) (key : string) (n : option Z) : Prop :=
  match json_find (chars key) entry with
  | None => n = None
  | Some v => n <> None /\ match v with String_ text => as_uint (Number text) = n | _ => as_uint v = n end
  end.

Definition text_field (entry : JsonValue) (key : string) (text : option bytes) : Prop :=
  json_find (chars key) entry = String_ <$> text.

Record describes (entry : JsonValue) (i : PackageImage) : Prop := mkDescribes {
  ds_object : exists members, entry = Object members;
  ds_file : text_field entry "file" (Some (p_file i));
  ds_index : number_field entry "image_index" (Some (p_image i)) /\ p_image i <= kMaxImageIndex;
  ds_size : json_find (chars "size") entry = None \/ number_field entry "size" (Some (zlen (p_bytes i))) /\
    (forall text, json_find (chars "size") entry <> Some (String_ text));
  ds_slot : number_field entry "slot" (p_slot i) /\ from_option (fun s => s <= 511) True (p_slot i);
  ds_version : text_field entry "version_MCUBOOT" (p_version i) /\
    (p_version i = None -> text_field entry "version_MCUBOOT+XIP" None);
  ds_board : text_field entry "board" (p_board i);
  ds_soc : text_field entry "soc" (p_soc i);
  ds_length : (kMcubootHeaderSize <= length (p_bytes i))%nat;
  ds_header : parse_mcuboot_header (take kMcubootHeaderSize (p_bytes i)) = Success (p_header i);
  ds_stated : stated_right (p_version i) (p_header i);
  ds_dependencies : read_dependencies (p_bytes i) (p_header i) = Some (Success (p_dependencies i));
  ds_single : p_secondary i = None
}.

Lemma text_field_read entry key text : text_field entry key text -> optional_text entry key = Success text.
Proof. unfold text_field, optional_text. intros ->. by destruct text. Qed.

Lemma number_field_read entry key n max m r :
  number_field entry key n -> max < 2 ^ 32 -> from_option (fun s => s <= max) True n ->
  small_number entry key max m r = Success n.
Proof.
  unfold number_field, small_number. intros Hn Hmax Hle. destruct (json_find _ entry) as [v|]; [|by subst].
  destruct Hn as [Hn Hv]. destruct n as [n|]; [|done]. cbn in Hle. cbn zeta.
  assert (match v with String_ text => as_uint (Number text) | _ => as_uint v end = Some n) as -> by by destruct v.
  assert (0 <= n) by (destruct v; apply as_uint_range in Hv; lia).
  rewrite (proj2 (Z.ltb_ge _ _)) by lia. by rewrite wrap_fits by (unfold fits; lia).
Qed.

Lemma read_image_described entry zip single i :
  describes entry i -> zip_find (p_file i) zip = Some (mkZipEntry (p_file i) (p_bytes i)) ->
  read_image entry zip single = Some (Success i).
Proof.
  intros [[ms ->] Hfile [Hix Hixm] Hsize [Hsl Hslm] [Hv Hxip] Hb Hsoc Hlen Hh Hst Hd Hsec] Hz. unfold read_image.
  rewrite (text_field_read _ _ _ Hfile). cbn [checked_bind]. rewrite Hz. cbn [z_data].
  assert (size_agrees (Object ms) (p_bytes i) = true) as ->.
  { unfold size_agrees, number_field in *. destruct Hsize as [->|[Hs Hns]]; [done|].
    revert Hs Hns. destruct (json_find (chars "size") (Object ms)) as [v|]; [|done]. intros [_ Hs] Hns.
    apply bool_decide_eq_true_2. destruct v; try done. by destruct (Hns text). }
  cbn [negb]. unfold image_index, slot_of. rewrite (number_field_read _ _ _ _ _ _ Hix) by done. cbn [checked_bind].
  rewrite bool_decide_eq_false_2 by done. cbn [andb]. rewrite (number_field_read _ _ _ _ _ _ Hsl) by done. cbn [checked_bind].
  rewrite (text_field_read _ _ _ Hv), (text_field_read _ _ _ Hb), (text_field_read _ _ _ Hsoc). cbn [checked_bind].
  assert (stated_version (Object ms) (p_version i) = Success (p_version i)) as ->.
  { unfold stated_version. destruct (p_version i); [done|]. by apply text_field_read, Hxip. }
  cbn [checked_bind default]. unfold read_image_bytes. rewrite (proj2 (Nat.ltb_ge _ _)) by done. rewrite Hh.
  apply version_agrees_spec in Hst as ->. cbn [negb]. rewrite Hd. cbn [checked_bind]. rewrite <- Hsec. by destruct i.
Qed.

Lemma add_image_new images image :
  p_image image ∉ p_image <$> images -> add_image images image = Success (images ++ [image]).
Proof.
  induction images as [|other images IH]; [done|]. cbn. intros Hn.
  rewrite (proj2 (Z.eqb_neq _ _)) by (intros E; apply Hn; rewrite E; by left).
  rewrite IH by (intros H; apply Hn; by right). done.
Qed.

Lemma read_files_described zip single items images : forall before,
  Forall2 describes items images ->
  Forall (fun i => zip_find (p_file i) zip = Some (mkZipEntry (p_file i) (p_bytes i))) images ->
  NoDup (p_image <$> before ++ images) ->
  read_files zip single items before = Some (Success (before ++ images)).
Proof.
  revert images. induction items as [|x items IH]; intros images before Hd Hz Hn; inversion Hd as [|? i ? images' Hx Hd']; subst.
  { by rewrite app_nil_r. }
  inversion_clear Hz as [|? ? Hi Hz']. cbn [read_files]. rewrite (read_image_described x zip single i) by done. cbn [checked_bind].
  rewrite add_image_new.
  - cbn [checked_bind]. rewrite (IH images' (before ++ [i])); rewrite <- ?app_assoc; done.
  - rewrite fmap_app in Hn. apply NoDup_app in Hn as (_ & Hn & _). intros Hin. apply (Hn _ Hin). by left.
Qed.

Lemma zip_find_written fs f :
  NoDup (zf_name <$> fs) -> f ∈ fs -> last (zf_name f) <> Some 47 ->
  zip_find (zf_name f) (entry_of <$> filter (fun f => last (zf_name f) <> Some 47) fs) = Some (entry_of f).
Proof.
  intros Hn Hin Hl. unfold zip_find. induction fs as [|g fs IH]; [by apply not_elem_of_nil in Hin|].
  cbn in Hn. apply NoDup_cons in Hn as [Hg Hn]. apply elem_of_cons in Hin as [<-|Hin].
  - rewrite filter_cons_True by done. cbn. by rewrite bool_decide_eq_true_2.
  - assert (zf_name g <> zf_name f) by (intros E; apply Hg; rewrite E; by apply list_elem_of_fmap_2).
    destruct (decide (last (zf_name g) <> Some 47)).
    + rewrite filter_cons_True by done. cbn. rewrite bool_decide_eq_false_2 by done. by apply IH.
    + rewrite filter_cons_False by done. by apply IH.
Qed.

(** A file of the archive. *)
Definition archived (fs : list zip_file) (name content : bytes) : Prop :=
  exists f, f ∈ fs /\ zf_name f = name /\ zf_data f = content /\ last name <> Some 47.

Lemma archived_found fs name content :
  NoDup (zf_name <$> fs) -> archived fs name content ->
  zip_find name (entry_of <$> filter (fun f => last (zf_name f) <> Some 47) fs) = Some (mkZipEntry name content).
Proof. intros Hn (f & Hf & <- & <- & Hl). rewrite zip_find_written by done. by destruct f. Qed.

(** What the manifest of a package without direct-XIP pairs has to say. *)
Record manifest_of (manifest : JsonValue) (p : DfuPackage) : Prop := mkManifestOf {
  mo_object : exists members, manifest = Object members;
  mo_version : format_version manifest = Success (k_format_version p);
  mo_name : text_field manifest "name" (k_name p);
  mo_files : exists items images, json_find (chars "files") manifest = Some (Array items) /\
    1 <= zlen items <= kMaxZipEntries /\ Forall2 describes items images /\
    NoDup (p_image <$> images) /\ dependencies_met images /\ k_images p = sort_images images
}.

Lemma dependencies_met_perm images images' :
  images ≡ₚ images' -> dependencies_met images -> dependencies_met images'.
Proof.
  intros Hp H i d partner Hi Hd Hpa. apply (H i); by rewrite ?Hp.
Qed.

Lemma pairs_none items images :
  Forall2 describes items images ->
  List.filter (fun image => bool_decide (p_secondary image <> None)) images = [].
Proof.
  induction 1 as [|x i items images Hx _ IH]; [done|]. cbn. rewrite (ds_single _ _ Hx). by rewrite bool_decide_eq_false_2 by (by intros []).
Qed.


(** ** Boards *)

Lemma substring_length n s : (String.length (String.substring 0 n s) <= n)%nat.
Proof. revert s. induction n as [|n IH]; intros [|c s]; cbn; try lia. specialize (IH s). lia. Qed.

Lemma board_name_cut board :
  exists rest, board = board_name board ++ rest /\
    (rest = [] \/ exists tail, rest = 47 :: tail \/ rest = 64 :: tail) /\
    Forall (fun c => c <> 47 /\ c <> 64) (board_name board).
Proof.
  induction board as [|c board (rest & Hb & Hr & Hn)]; [by exists []; split_and!; [|left|constructor]|]. cbn.
  destruct ((c =? 47) || (c =? 64)) eqn:E.
  - exists (c :: board). split_and!; [done| |constructor]. right. exists board. destruct (Z.eq_dec c 47); [left|right]; f_equal; lia.
  - exists rest. split_and!; [by rewrite Hb at 1|done|]. constructor; [lia|done].
Qed.

Lemma board_refusal_bounded {A} where_ text : exists e, board_refusal (A := A) where_ text = Fail e /\
  code e = InvalidArgument /\ (String.length (reason e) <= kMaxReasonLength)%nat.
Proof. eexists. split_and!; [done|done|apply substring_length]. Qed.

(** [check_board] accepts a package exactly when every image names a board
    whose name, up to the first '/' or '@', is the expected one; a refusal is
    an [InvalidArgument] whose text, which quotes the package, keeps within
    [kMaxReasonLength]. *)
Lemma board_checked package expected :
  (check_board package expected = Success tt <->
   Forall (fun i => exists board, p_board i = Some board /\ board_name board = expected) (k_images package)) /\
  forall e, check_board package expected = Fail e ->
    code e = InvalidArgument /\ (String.length (reason e) <= kMaxReasonLength)%nat.
Proof.
  unfold check_board. induction (k_images package) as [|i images [IH IHe]]; [done|]. cbn [check_images_board].
  unfold check_image_board. destruct (p_board i) as [board|] eqn:Eb.
  - case_bool_decide as Hne.
    + edestruct (board_refusal_bounded (A := unit)) as (e & -> & He). cbn [result_bind].
      split; [|by intros ? [= <-]]. split; [done|].
      intros H. inversion_clear H as [|? ? (b & Hb & Hbn) _]. congruence.
    + cbn [result_bind]. split; [|done]. rewrite IH, Forall_cons.
      split; [intros H; split; [by eexists|done]|by intros [_ H]].
  - edestruct (board_refusal_bounded (A := unit)) as (e & -> & He). cbn [result_bind].
    split; [|by intros ? [= <-]]. split; [done|].
    intros H. inversion_clear H as [|? ? (b & Hb & _) _]. congruence.
Qed.

(** ** A sample package *)

Definition sample_build_info (minor : Z) : McubootImageInfo :=
  mkInfo 32 2 0 0 (mkVersion 1 minor 0 0) false.

(** Image 0 needs image 1 at 1.1.0. *)
Definition sample_needs : Z * bytes := (kTlvDependency, [1; 0; 0; 0; 1; 1; 0; 0; 0; 0; 0; 0]).

Definition sample_build (minor : Z) (es : list (Z * bytes)) : bytes :=
  header_layout (sample_build_info minor) 0 0 ++ [7; 8] ++ region_bytes None es.

Definition sample_image (name : string) (index minor : Z) (es : list (Z * bytes)) (board : option bytes)
    (ds : list ImageDependency) : PackageImage :=
  mkImage (chars name) index (sample_build minor es) (sample_build_info minor) None board None ds None None.

Definition sample_images : list PackageImage :=
  [sample_image "net.bin" 1 2 [(32, [9])] (Some (chars "dk/net")) [];
   sample_image "app.bin" 0 0 [(16, [5]); sample_needs] (Some (chars "dk"))
     [mkDependency 1 (mkVersion 1 1 0 0)]].

Definition sample_manifest_text : bytes :=
  q "{'files':[{'file':'net.bin','image_index':'1','board':'dk/net','size':43},
     {'image_index':0,'file':'app.bin','board':'dk'}],'format-version':0}".

Definition sample_archive : list zip_file :=
  let store name data := mkZipFile (chars name) data 0 (20, 20) (0, 33) (0, 0, 0) [] [] [] in
  [store "app.bin" (sample_build 0 [(16, [5]); sample_needs]);
   store "net.bin" (sample_build 2 [(32, [9])]);
   store "manifest.json" sample_manifest_text].

Definition sample_package : DfuPackage := mkPackage (Some 0) None (sort_images sample_images).

Lemma sample_archive_ok : zip_ok sample_archive.
Proof.
  split; [|split].
  - assert (forallb (fun f => forallb (fitsb 8) (zf_data f)) sample_archive = true) as Hb by (vm_compute; reflexivity).
    rewrite forallb_forall in Hb. apply Forall_forall. intros f Hf.
    assert (byte_list (zf_data f)) as Hd.
    { specialize (Hb f ltac:(by apply list_elem_of_In)). rewrite forallb_forall in Hb.
      apply Forall_forall. intros x Hx. apply fitsb_spec, Hb. by apply list_elem_of_In. }
    unfold sample_archive in Hf. cbn zeta in Hf. rewrite !elem_of_cons in Hf.
    destruct Hf as [->|[->|[->|[]%not_elem_of_nil]]]; (split; [done|]); vm_compute; done.
  - apply (bool_decide_unpack _). vm_compute. constructor.
  - vm_compute. done.
Qed.

Lemma sample_parsed :
  exists manifest, zlen sample_manifest_text <= kMaxJsonSize /\ document_text manifest sample_manifest_text /\
    within kMaxJsonDepth manifest /\ count manifest <= kMaxJsonValues /\ manifest_of manifest sample_package.
Proof.
  assert (parse_json sample_manifest_text = parse_json sample_manifest_text) as H by done.
  match type of H with ?a = _ => let v := eval vm_compute in a in change v with (id v) in H; assert (a = v) as Hp by (vm_compute; reflexivity) end.
  clear H. eexists. apply (proj2 (parse_json_exact _)) in Hp as (H1 & H2 & H3 & H4).
  split_and!; [exact H1|exact H2|exact H3|exact H4|].
  clear. split; [by eexists|done|done|].
  eexists _, sample_images. split_and!; [done|vm_compute; done|vm_compute; done| | | |done].
  - constructor; [|constructor; [|constructor]];
      (split; [by eexists|done|by split; [split|]|by (left + (right; split; [split|]))|done|done|done|done|vm_compute; lia|done|done|done|done]).
  - apply (bool_decide_unpack _). vm_compute. constructor.
  - apply check_dependencies_met; [|vm_compute; reflexivity]. apply (bool_decide_unpack _). vm_compute. constructor.
Qed.


Lemma sample_archive_bytes : byte_list (write_zip sample_archive).
Proof.
  apply Forall_forall. intros x Hx. apply fitsb_spec.
  assert (forallb (fitsb 8) (write_zip sample_archive) = true) as Hb by (vm_compute; reflexivity).
  rewrite forallb_forall in Hb. by apply Hb, list_elem_of_In.
Qed.


Lemma sample_build_image : tlv_image (sample_build_info 0) None [(16, [5]); sample_needs] (sample_build 0 [(16, [5]); sample_needs]).
Proof.
  split; try done.
  - by repeat constructor.
  - exists (header_layout (sample_build_info 0) 0 0 ++ [7; 8]), []. split; [|done].
    unfold sample_build. by rewrite app_nil_r, <- app_assoc.
Qed.

(** ** The second build's dependencies

    [pair_builds] keeps the dependencies of the primary slot's build only, so
    [check_dependencies] never sees those of the other build, which may be the
    one that is sent. *)

Definition pair_archive : list zip_file :=
  let store name data := mkZipFile (chars name) data 0 (20, 20) (0, 33) (0, 0, 0) [] [] [] in
  [store "a.bin" (sample_build 0 []); store "b.bin" (sample_build 0 [sample_needs]); store "net.bin" (sample_build 0 []);
   store "manifest.json"
     (q "{'files':[{'file':'a.bin','image_index':'0','slot':0},{'file':'b.bin','image_index':'0','slot':'1'},
         {'file':'net.bin','image_index':'1'}]}")].

Definition pair_package : DfuPackage :=
  mkPackage None None
    [mkImage (chars "a.bin") 0 (sample_build 0 []) (sample_build_info 0) None None None [] (Some 0)
       (Some (mkBuild (chars "b.bin") (sample_build 0 [sample_needs]) (sample_build_info 0) 1));
     sample_image "net.bin" 1 0 [] None []].

(** The build for slot 1 needs image 1 at 1.1.0, the package carries image 1 at
    1.0.0, and the package is accepted. *)
Lemma second_build_unchecked :
  read_package (write_zip pair_archive) = Some (Success pair_package) /\
  read_dependencies (sample_build 0 [sample_needs]) (sample_build_info 0)
    = Some (Success [mkDependency 1 (mkVersion 1 1 0 0)]) /\
  ~ at_least (version (sample_build_info 0)) (mkVersion 1 1 0 0).
Proof. split_and!; [vm_compute; reflexivity..|]. unfold at_least. cbn. lia. Qed.
