(* ===== verification/ImageReader.v ===== *)
(** * The boot model's reader of images

    [support/boot_model/image_reader.cpp]: what a device says about a slot, read
    from the flash layout by a reader that shares nothing with the library's
    parser (McubootImage.v). An index outside the content is [None] in
    [read_slot]; it is shown never to occur, so [describe] is total. *)

From S2P Require Import Prelude Errors ImageValues Sha256 McubootImage StoredZip.

Definition kImageMagic : Z := 0x96F3B83D.
Definition kImageHeaderSize : Z := 32.
Definition kTlvSha256 : Z := 0x10.
Definition kImageNonBootable : Z := 0x10.
Definition kAreaHeaderSize : Z := 4.

(** [read16] and [read32]. *)
Definition read16 (b : bytes) (offset : Z) : option Z :=
  let! lo := byte_at b offset in
  let! hi := byte_at b (offset + 1) in
  Some (wrap 16 (Z.lor lo (Z.shiftl hi 8))).

Fixpoint read32_loop (b : bytes) (offset value i : Z) (n : nat) : option Z :=
  match n with
  | O => Some value
  | S n =>
      let! byte := byte_at b (offset + i) in
      read32_loop b offset (Z.lor value (wrap 32 (Z.shiftl byte (8 * i)))) (i + 1) n
  end.

Definition read32 (b : bytes) (offset : Z) : option Z := read32_loop b offset 0 0 4.

(** [fits]. *)
Definition fits_in (base add limit : Z) : bool :=
  let end_ := wrap 64 (base + add) in
  (base <=? end_) && (end_ <=? limit).

(** [SlotImage]. *)
Record SlotImage := mkSlotImage {
  si_version : string;
  si_hash : bytes;
  si_bootable : bool
}.

(** [img_mgmt_ver_str()], as [describe] writes it. *)
Definition ver_str (major minor revision build : Z) : string :=
  let version := to_string_u major +:+ "." +:+ to_string_u minor +:+ "." +:+ to_string_u revision in
  if negb (build =? 0) then version +:+ "." +:+ to_string_u build else version.

(** A round of the inner loop of [describe]: the entry and the hash so far. *)
Definition tlv_body (content : bytes) (magic area_end : Z) (s : Z * bytes) : loop (Z * bytes) (option bytes) :=
  let '(entry, hash) := s in
  if negb (fits_in entry kAreaHeaderSize area_end) then Return (Some hash)
  else
    match read16 content entry, read16 content (entry + 2) with
    | Some type, Some length =>
        let value := wrap 64 (entry + kAreaHeaderSize) in
        if negb (fits_in value length area_end) then Return (Some hash)
        else if (type =? kTlvSha256) && (magic =? kTlvInfoMagic) then
          match subspan content value length with
          | Some found => Continue (wrap 64 (value + length), found)
          | None => Return None
          end
        else Continue (wrap 64 (value + length), hash)
    | _, _ => Return None
    end.

(** The outer loop, [n] areas to go. *)
Fixpoint areas (content : bytes) (n : nat) (offset : Z) (hash : bytes) : option bytes :=
  match n with
  | O => Some hash
  | S n =>
      if negb (fits_in offset kAreaHeaderSize (zlen content)) then Some hash
      else
        let! magic := read16 content offset in
        let! total := read16 content (offset + 2) in
        if negb (magic =? kTlvInfoMagic) && negb (magic =? kTlvProtInfoMagic) then Some hash
        else if (total <? kAreaHeaderSize) || negb (fits_in offset total (zlen content)) then Some hash
        else
          let area_end := wrap 64 (offset + total) in
          match
            iterate (tlv_body content magic area_end) (S (length content))
              (wrap 64 (offset + kAreaHeaderSize), hash)
          with
          | Some (Some hash) =>
              if magic =? kTlvInfoMagic then Some hash else areas content n area_end hash
          | _ => None
          end
  end.

(** [describe], with undefined behaviour and a loop that does not end told
    apart. *)
Definition read_slot (content : bytes) : option (option SlotImage) :=
  if zlen content <? kImageHeaderSize then Some None
  else
    let! magic := read32 content 0 in
    if negb (magic =? kImageMagic) then Some None
    else
      let! header_size := read16 content 8 in
      let! image_size := read32 content 12 in
      let! flags := read32 content 16 in
      let bootable := Z.land flags kImageNonBootable =? 0 in
      let! major := byte_at content 20 in
      let! minor := byte_at content 21 in
      let! revision := read16 content 22 in
      let! build := read32 content 24 in
      let version := ver_str major minor revision build in
      if negb (fits_in header_size image_size (2 ^ 64 - 1)) then Some (Some (mkSlotImage version [] bootable))
      else
        let! hash := areas content 2 (wrap 64 (header_size + image_size)) [] in
        Some (Some (mkSlotImage version hash bootable)).

Definition describe (content : bytes) : option SlotImage := default None (read_slot content).

(** [HeaderVersion] and its order. *)
Record HeaderVersion := mkHeaderVersion { hv_major : Z; hv_minor : Z; hv_revision : Z }.

#[global] Instance HeaderVersion_eq_dec : EqDecision HeaderVersion.
Proof. solve_decision. Defined.

Definition version_lt (a b : HeaderVersion) : bool :=
  if negb (hv_major a =? hv_major b) then hv_major a <? hv_major b
  else if negb (hv_minor a =? hv_minor b) then hv_minor a <? hv_minor b
  else hv_revision a <? hv_revision b.

(** [header_version]: inside the content, as it has a whole header. *)
Definition header_version (content : bytes) : option HeaderVersion :=
  if zlen content <? kImageHeaderSize then None
  else
    let! major := byte_at content 20 in
    let! minor := byte_at content 21 in
    let! revision := read16 content 22 in
    Some (mkHeaderVersion major minor revision).

(** ** Always inside the content *)

Lemma read16_in b i : 0 <= i -> i + 2 <= zlen b -> exists v, read16 b i = Some v /\ u16 v.
Proof.
  intros Hi Hb. unfold read16. destruct (byte_at_in b i) as [lo ->]; [lia|].
  destruct (byte_at_in b (i + 1)) as [hi ->]; [lia|]. cbn. eexists. split; [done|]. by apply fits_wrap.
Qed.

Lemma read32_in b i : 0 <= i -> i + 4 <= zlen b -> exists v, read32 b i = Some v.
Proof.
  intros Hi Hb. unfold read32. cbn [read32_loop].
  repeat match goal with |- context [byte_at b ?k] => destruct (byte_at_in b k) as [? ->]; [lia|]; cbn [option_bind] end.
  by eexists.
Qed.

Lemma fits_in_spec base add limit :
  0 <= base < 2 ^ 64 -> 0 <= add < 2 ^ 63 -> limit < 2 ^ 63 ->
  fits_in base add limit = bool_decide (base + add <= limit).
Proof.
  intros Hb Ha Hl. unfold fits_in. cbn zeta. destruct (decide (base + add < 2 ^ 64)).
  - rewrite wrap_fits by (unfold fits; lia). case_bool_decide; lia.
  - assert (wrap 64 (base + add) = base + add - 2 ^ 64) as ->.
    { unfold wrap. symmetry. apply Z.mod_unique with 1; lia. }
    rewrite bool_decide_eq_false_2 by lia. lia.
Qed.

Section total.
Context (content : bytes) (content_fits : zlen content < 2 ^ 62).

Lemma tlv_body_total magic area_end entry hash :
  0 <= entry -> 0 <= area_end <= zlen content -> entry < 2 ^ 63 ->
  exists hash', iterate (tlv_body content magic area_end) (S (length content)) (entry, hash) = Some (Some hash').
Proof.
  intros He Ha Hf. set (I := fun s : Z * bytes => 0 <= s.1 < 2 ^ 63).
  assert (forall s, I s ->
    match tlv_body content magic area_end s with
    | Continue s' => I s' /\ (Z.to_nat (zlen content - s'.1) < Z.to_nat (zlen content - s.1))%nat
    | Return r => is_Some r
    end) as Hstep.
  { intros [e h] HI. unfold I in HI. cbn [fst] in HI. unfold tlv_body, kAreaHeaderSize.
    rewrite fits_in_spec by lia. case_bool_decide as He4; cbn [negb]; [|by eexists].
    destruct (read16_in content e) as (t & -> & Ht); [lia..|].
    destruct (read16_in content (e + 2)) as (n & -> & Hn); [lia..|]. unfold fits in Hn.
    rewrite (wrap_fits 64 (e + 4)) by (unfold fits; lia). rewrite fits_in_spec by lia.
    case_bool_decide as Hv; cbn [negb]; [|by eexists]. rewrite wrap_fits by (unfold fits; lia).
    destruct (_ && _); [|cbn; unfold I; cbn; lia].
    destruct (subspan_in content (e + 4) n) as (v & -> & _); [lia..|]. unfold I; cbn. lia. }
  destruct (iterate_total (tlv_body content magic area_end) I (fun s => Z.to_nat (zlen content - s.1))) with (fuel := S (length content)) (s := (entry, hash)) as [r Hr].
  - intros s s' HI E. specialize (Hstep s HI). by rewrite E in Hstep.
  - unfold I; cbn; lia.
  - cbn. lia.
  - assert (is_Some r) as [h ->]; [|by exists h].
    eapply (iterate_inv (tlv_body content magic area_end) I (fun r => is_Some r)); [| |unfold I|exact Hr].
    + intros s s' HI E. specialize (Hstep s HI). rewrite E in Hstep. apply Hstep.
    + intros s r' HI E. specialize (Hstep s HI). by rewrite E in Hstep.
    + cbn. lia.
Qed.

Lemma areas_total n offset hash : 0 <= offset < 2 ^ 63 -> exists hash', areas content n offset hash = Some hash'.
Proof.
  revert offset hash. induction n as [|n IH]; intros offset hash Ho; cbn [areas]; [by eexists|].
  unfold kAreaHeaderSize. rewrite fits_in_spec by lia. case_bool_decide as H4; cbn [negb]; [|by eexists].
  destruct (read16_in content offset) as (magic & -> & _); [lia..|].
  destruct (read16_in content (offset + 2)) as (total & -> & Ht); [lia..|]. cbn [option_bind]. unfold fits in Ht.
  destruct (_ && _); [by eexists|]. rewrite fits_in_spec by lia. destruct (_ || _) eqn:E; [by eexists|].
  apply orb_false_iff in E as [E1 E2]. apply negb_false_iff, bool_decide_eq_true in E2.
  rewrite (wrap_fits 64 (offset + 4)), (wrap_fits 64 (offset + total)) by (unfold fits; lia).
  destruct (tlv_body_total magic (offset + total) (offset + 4) hash) as [h ->]; [lia..|].
  destruct (_ =? _); [by eexists|]. apply IH. lia.
Qed.

End total.

(** The fields are those the library's own loads read. *)
Lemma byte_at_at l k : (k < length l)%nat -> byte_at l (Z.of_nat k) = Some (at_ l k).
Proof.
  intros Hk. unfold byte_at, at_. rewrite (proj2 (Z.ltb_ge _ 0)) by lia. rewrite Nat2Z.id.
  rewrite nth_lookup. by destruct (lookup_lt_is_Some_2 l k Hk) as [x ->].
Qed.

Lemma read16_load l k : byte_list l -> (k + 2 <= length l)%nat -> read16 l (Z.of_nat k) = Some (load_le16 l k).
Proof.
  intros Hb Hk. unfold read16, load_le16. rewrite byte_at_at by lia. cbn [option_bind].
  replace (Z.of_nat k + 1) with (Z.of_nat (k + 1)) by lia. rewrite byte_at_at by lia. cbn [option_bind].
  rewrite (wrap_shiftl 16 _ 8); [done|apply at_u8; [done|lia]|lia|lia].
Qed.

Lemma read32_load l k : byte_list l -> (k + 4 <= length l)%nat -> read32 l (Z.of_nat k) = Some (load_le32 l k).
Proof.
  intros Hb Hk. unfold read32. cbn [read32_loop].
  replace (Z.of_nat k + 0) with (Z.of_nat k) by lia. replace (Z.of_nat k + (0 + 1)) with (Z.of_nat (k + 1)) by lia.
  replace (Z.of_nat k + (0 + 1 + 1)) with (Z.of_nat (k + 2)) by lia.
  replace (Z.of_nat k + (0 + 1 + 1 + 1)) with (Z.of_nat (k + 3)) by lia.
  rewrite !byte_at_at by lia. cbn [option_bind]. unfold load_le32. rewrite Z.lor_0_l.
  change (8 * 0) with 0. rewrite Z.shiftl_0_r. rewrite (wrap_fits 32 (at_ l k)); [done|].
  pose proof (at_u8 l k Hb ltac:(lia)) as H. unfold fits in *. lia.
Qed.

(** [describe] never stops short, and what it says of a slot is in the fields
    the library reads too. *)
Lemma read_slot_spec content :
  byte_list content -> zlen content < 2 ^ 62 ->
  if (length content <? 32)%nat || negb (load_le32 content kOffsetMagic =? kImageMagic) then read_slot content = Some None
  else exists hash, areas content 2 (load_le16 content kOffsetHeaderSize + load_le32 content kOffsetImageSize) [] = Some hash /\
    read_slot content = Some (Some (mkSlotImage
      (ver_str (at_ content kOffsetVersionMajor) (at_ content kOffsetVersionMinor)
         (load_le16 content kOffsetVersionRevision) (load_le32 content kOffsetVersionBuild))
      hash (Z.land (load_le32 content kOffsetFlags) kImageNonBootable =? 0))).
Proof.
  intros Hb Hf. unfold read_slot, kImageHeaderSize. destruct (length content <? 32)%nat eqn:El; cbn [orb].
  { apply Nat.ltb_lt in El. by rewrite (proj2 (Z.ltb_lt _ _)) by lia. }
  apply Nat.ltb_ge in El. rewrite (proj2 (Z.ltb_ge _ _)) by lia.
  assert (forall k, (k + 2 <= length content)%nat -> read16 content (Z.of_nat k) = Some (load_le16 content k)) as R16
    by (intros; by apply read16_load).
  assert (forall k, (k + 4 <= length content)%nat -> read32 content (Z.of_nat k) = Some (load_le32 content k)) as R32
    by (intros; by apply read32_load).
  change (read32 content 0) with (read32 content (Z.of_nat kOffsetMagic)). rewrite R32 by (unfold kOffsetMagic; lia). cbn [option_bind].
  destruct (_ =? kImageMagic); cbn [negb]; [|done].
  change (read16 content 8) with (read16 content (Z.of_nat kOffsetHeaderSize)). change (read32 content 12) with (read32 content (Z.of_nat kOffsetImageSize)).
  change (read32 content 16) with (read32 content (Z.of_nat kOffsetFlags)). change (byte_at content 20) with (byte_at content (Z.of_nat kOffsetVersionMajor)).
  change (byte_at content 21) with (byte_at content (Z.of_nat kOffsetVersionMinor)). change (read16 content 22) with (read16 content (Z.of_nat kOffsetVersionRevision)).
  change (read32 content 24) with (read32 content (Z.of_nat kOffsetVersionBuild)).
  unfold kOffsetMagic, kOffsetHeaderSize, kOffsetImageSize, kOffsetFlags, kOffsetVersionMajor, kOffsetVersionMinor,
    kOffsetVersionRevision, kOffsetVersionBuild.
  rewrite !R16, !R32, !byte_at_at by lia.
  cbn [option_bind].
  pose proof (proj2 (load_le16_inv content 8 Hb ltac:(lia))) as Hhs.
  pose proof (proj2 (load_le32_inv content 12 Hb ltac:(lia))) as His.
  unfold fits in Hhs, His.
  assert (fits_in (load_le16 content 8) (load_le32 content 12) (2 ^ 64 - 1) = true) as ->.
  { unfold fits_in. cbn zeta. rewrite wrap_fits by (unfold fits; lia). lia. }
  cbn [negb]. rewrite (wrap_fits 64) by (unfold fits; lia).
  destruct (areas_total content Hf 2 (load_le16 content 8 + load_le32 content 12) [])
    as [hash Hh]; [lia|]. rewrite Hh. exists hash. by split.
Qed.

Lemma append_assoc a b c : (a +:+ b) +:+ c = a +:+ (b +:+ c).
Proof. induction a as [|x a IH]; [done|]. exact (f_equal (String x) IH). Qed.

Lemma append_empty a : a +:+ "" = a.
Proof. induction a as [|x a IH]; [done|]. exact (f_equal (String x) IH). Qed.

Lemma ver_str_version v : ver_str (v_major v) (v_minor v) (v_revision v) (v_build v) = version_to_string v.
Proof.
  unfold ver_str, version_to_string. destruct (v_build v =? 0); cbn [negb].
  - by rewrite append_empty.
  - by rewrite !append_assoc.
Qed.

Lemma byte_at_u8 b i v : byte_list b -> byte_at b i = Some v -> u8 v.
Proof. unfold byte_at. intros Hb. destruct (_ <? _); [done|]. intros H. by eapply Forall_lookup_1 in Hb. Qed.

Lemma read16_le16 b i : byte_list b -> read16 b i = le16_at b i.
Proof.
  intros Hb. unfold read16, le16_at. destruct (byte_at b i); [|done]. cbn [option_bind].
  destruct (byte_at b (i + 1)) as [hi|] eqn:E; [|done]. cbn [option_bind].
  apply byte_at_u8 in E; [|done]. by rewrite (wrap_shiftl 32 hi 8) by (done || lia).
Qed.

(** ** What it says of a well-formed image *)

(** The last SHA-256 TLV of an area. *)
Definition last_sha (es : list (Z * bytes)) (hash : bytes) : bytes :=
  foldl (fun hash e => if e.1 =? kTlvSha256 then e.2 else hash) hash es.

Section walk.
Context (content : bytes) (content_bytes : byte_list content) (content_fits : zlen content < 2 ^ 62).

Lemma read_field pre v post i : content = pre ++ le16 v ++ post -> u16 v -> i = zlen pre -> read16 content i = Some v.
Proof. intros -> Hv ->. rewrite read16_le16 by done. by apply (read_le16 pre v). Qed.

Lemma area_run es : forall pre post hash fuel,
  content = pre ++ flat_map tlv_bytes es ++ post ->
  Forall (fun e => u16 e.1 /\ u16 (zlen e.2)) es -> (length es < fuel)%nat ->
  iterate (tlv_body content kTlvInfoMagic (zlen (pre ++ flat_map tlv_bytes es))) fuel (zlen pre, hash)
  = Some (Some (last_sha es hash)).
Proof.
  induction es as [|[t v] es IH]; intros pre post hash fuel Hc Hes Hf; (destruct fuel as [|fuel]; [cbn in Hf; lia|]).
  - assert (zlen pre <= zlen content) as Hl by (rewrite Hc, !length_app; lia). cbn. unfold kAreaHeaderSize. rewrite app_nil_r, fits_in_spec by lia. by rewrite bool_decide_eq_false_2 by lia.
  - assert (zlen pre + zlen (flat_map tlv_bytes ((t, v) :: es)) <= zlen content) as Hl by (rewrite Hc, !length_app; lia).
    inversion_clear Hes as [|? ? [Ht Hv] Hes']. cbn [fst snd] in *. cbn [flat_map] in Hc, Hl |- *.
    rewrite <- app_assoc in Hc. rewrite length_app in Hl. pose proof (tlv_bytes_length (t, v)) as Htl. cbn [snd] in Htl.
    cbn [iterate]. unfold tlv_body at 1. unfold kAreaHeaderSize.
    assert (zlen (pre ++ tlv_bytes (t, v) ++ flat_map tlv_bytes es) = zlen pre + (4 + zlen v) + zlen (flat_map tlv_bytes es)) as He
      by (rewrite !length_app; lia).
    rewrite He. rewrite fits_in_spec, bool_decide_eq_true_2 by lia. cbn [negb].
    unfold tlv_bytes in Hc. cbn [fst snd] in Hc. rewrite <- !app_assoc in Hc.
    rewrite (read_field pre t _ _ Hc Ht eq_refl).
    rewrite (read_field (pre ++ le16 t) (zlen v) (v ++ flat_map tlv_bytes es ++ post) (zlen pre + 2));
      [|by rewrite Hc, <- !app_assoc|done|unfold le16; rewrite length_app; cbn; lia].
    rewrite (wrap_fits 64 (zlen pre + 4)) by (unfold fits; lia).
    rewrite fits_in_spec, bool_decide_eq_true_2 by lia. cbn [negb].
    rewrite (wrap_fits 64) by (unfold fits; lia). rewrite (Z.eqb_refl kTlvInfoMagic), andb_true_r.
    replace (zlen pre + 4 + zlen v) with (zlen (pre ++ tlv_bytes (t, v))) by (rewrite length_app; lia).
    replace (zlen pre + (4 + zlen v) + zlen (flat_map tlv_bytes es)) with (zlen ((pre ++ tlv_bytes (t, v)) ++ flat_map tlv_bytes es))
      by (rewrite !length_app; lia).
    assert (content = (pre ++ tlv_bytes (t, v)) ++ flat_map tlv_bytes es ++ post) as Hc'
      by (rewrite Hc; unfold tlv_bytes; cbn [fst snd]; by rewrite <- !app_assoc).
    cbn [length] in Hf. destruct (t =? kTlvSha256) eqn:Et.
    + assert (subspan content (zlen pre + 4) (zlen v) = Some v) as ->.
      { assert (content = (pre ++ le16 t ++ le16 (zlen v)) ++ v ++ flat_map tlv_bytes es ++ post) as ->
          by (rewrite Hc; by rewrite <- !app_assoc).
        replace (zlen pre + 4) with (zlen (pre ++ le16 t ++ le16 (zlen v)) + 0) by (unfold le16; rewrite !length_app; cbn; lia).
        rewrite subspan_app by lia. apply subspan_front. }
      rewrite (IH _ post) by (done || lia). cbn [last_sha foldl fst snd]. by rewrite Et.
    + rewrite (IH _ post) by (done || lia). cbn [last_sha foldl fst snd]. by rewrite Et.
Qed.

(** A protected area is walked for nothing. *)
Lemma protected_run magic area_end fuel entry hash hash' :
  magic <> kTlvInfoMagic ->
  iterate (tlv_body content magic area_end) fuel (entry, hash) = Some (Some hash') -> hash' = hash.
Proof.
  intros Hm H. assert (Some hash' = Some hash) as [= ->]; [|done].
  eapply (iterate_inv (tlv_body content magic area_end) (fun s => s.2 = hash) (fun r => r = None \/ r = Some hash)) in H as [?|?];
    [done|done| | |done].
  - intros [e h] s' Hh E. cbn [snd] in Hh. subst h. unfold tlv_body in E. rewrite (proj2 (Z.eqb_neq _ _) Hm) in E.
    repeat case_match; simplify_eq; try done; by rewrite andb_false_r in *.
  - intros [e h] r Hh E. cbn [snd] in Hh. subst h. unfold tlv_body in E. rewrite (proj2 (Z.eqb_neq _ _) Hm) in E.
    repeat case_match; simplify_eq; auto; by rewrite andb_false_r in *.
Qed.

Lemma entries_count es : (length es <= length (flat_map tlv_bytes es))%nat.
Proof. induction es as [|e es IH]; cbn; [lia|]. rewrite length_app. pose proof (tlv_bytes_length e). lia. Qed.

(** From the unprotected area on. *)
Lemma areas_info n pre es post :
  content = pre ++ area_bytes kTlvInfoMagic es ++ post -> u16 (4 + zlen (flat_map tlv_bytes es)) ->
  Forall (fun e => u16 e.1) es ->
  areas content (S n) (zlen pre) [] = Some (last_sha es []).
Proof.
  unfold area_bytes. set (ne := 4 + zlen (flat_map tlv_bytes es)). rewrite <- !app_assoc. intros Hc Hef Hty.
  set (A := pre ++ le16 kTlvInfoMagic ++ le16 ne).
  assert (content = A ++ flat_map tlv_bytes es ++ post) as HA by (unfold A; rewrite Hc, <- !app_assoc; done).
  assert (zlen A = zlen pre + 4) as HlA by (unfold A, le16; rewrite !length_app; cbn; lia).
  assert (zlen A + zlen (flat_map tlv_bytes es) <= zlen content) as Hl by (rewrite HA, !length_app; lia).
  cbn [areas]. unfold kAreaHeaderSize. rewrite fits_in_spec, bool_decide_eq_true_2 by lia. cbn [negb].
  rewrite (read_field pre kTlvInfoMagic _ (zlen pre) Hc) by done.
  rewrite (read_field (pre ++ le16 kTlvInfoMagic) ne (flat_map tlv_bytes es ++ post) (zlen pre + 2));
    [|by rewrite Hc, <- !app_assoc|done|unfold le16; rewrite length_app; cbn; lia].
  cbn [option_bind]. rewrite Z.eqb_refl. cbn [negb andb]. rewrite (proj2 (Z.ltb_ge ne 4)) by lia.
  pose proof (entries_fit es Hty Hef) as Hfit.
  unfold fits in Hef. rewrite fits_in_spec, bool_decide_eq_true_2 by lia. cbn [negb orb].
  rewrite (wrap_fits 64 (zlen pre + ne)), (wrap_fits 64 (zlen pre + 4)) by (unfold fits; lia). rewrite <- HlA.
  replace (zlen pre + ne) with (zlen (A ++ flat_map tlv_bytes es)) by (rewrite length_app; lia).
  pose proof (entries_count es). by rewrite (area_run es A post) by (done || lia).
Qed.

Lemma areas_of_image info prot es :
  tlv_image info prot es content -> areas content 2 (header_size info + image_size info) [] = Some (last_sha es []).
Proof.
  intros [Hh Hi Hp Hpf Hef Hty (body & tail & Hfile & Hbase)]. rewrite <- Hbase.
  assert (Forall (fun e => u16 e.1) es) as Htye by (destruct prot; [by apply Forall_app in Hty as [_ ?]|done]).
  destruct prot as [ps|]; cbn [protected_size region_bytes] in *; [|by eapply areas_info].
  set (np := 4 + zlen (flat_map tlv_bytes ps)) in *. rewrite <- app_assoc in Hfile.
  set (B := body ++ area_bytes kTlvProtInfoMagic ps).
  assert (content = B ++ area_bytes kTlvInfoMagic es ++ tail) as HB by (unfold B; rewrite Hfile, <- !app_assoc; done).
  assert (zlen B = zlen body + np) as HlB by (unfold B, area_bytes, le16; rewrite !length_app; cbn [length]; lia).
  assert (zlen B <= zlen content) as Hl by (rewrite HB, length_app; lia).
  remember 1%nat as one. cbn [areas]. unfold kAreaHeaderSize. rewrite fits_in_spec, bool_decide_eq_true_2 by lia. cbn [negb].
  unfold area_bytes in Hfile at 1. rewrite <- !app_assoc in Hfile.
  rewrite (read_field body kTlvProtInfoMagic _ (zlen body) Hfile) by done.
  rewrite (read_field (body ++ le16 kTlvProtInfoMagic) np (flat_map tlv_bytes ps ++ area_bytes kTlvInfoMagic es ++ tail) (zlen body + 2));
    [|by rewrite Hfile, <- !app_assoc|done|unfold le16; rewrite length_app; cbn; lia].
  cbn [option_bind]. rewrite (proj2 (Z.eqb_neq kTlvProtInfoMagic kTlvInfoMagic)), Z.eqb_refl by done. cbn [negb andb].
  rewrite (proj2 (Z.ltb_ge np 4)) by lia. unfold fits in Hpf. rewrite fits_in_spec, bool_decide_eq_true_2 by lia. cbn [negb orb].
  rewrite (wrap_fits 64 (zlen body + np)), (wrap_fits 64 (zlen body + 4)) by (unfold fits; lia).
  destruct (tlv_body_total content content_fits kTlvProtInfoMagic (zlen body + np) (zlen body + 4) []) as [h Hh']; [lia..|].
  pose proof (protected_run kTlvProtInfoMagic _ _ _ _ _ ltac:(done) Hh') as ->. rewrite Hh', <- HlB, Heqone. by apply (areas_info 0 B es tail).
Qed.
End walk.

(** The [IMAGE_F_NON_BOOTABLE] flag. *)
Definition bootable (info : McubootImageInfo) : bool := Z.land (flags info) kImageNonBootable =? 0.

Lemma describe_image content info prot es :
  byte_list content -> zlen content < 2 ^ 62 -> tlv_image info prot es content ->
  parse_mcuboot_header content = Success info ->
  describe content = Some (mkSlotImage (version_to_string (version info)) (last_sha es []) (bootable info)).
Proof.
  intros Hb Hf Hti Hp. pose proof (read_slot_spec content Hb Hf) as Hs. pose proof (areas_of_image content Hb Hf _ _ _ Hti) as Ha.
  unfold parse_mcuboot_header in Hp. change kMcubootHeaderSize with 32%nat in Hp. destruct (_ <? 32)%nat; [done|]. cbn [orb] in Hs.
  change kMcubootImageMagic with kImageMagic in Hp. cbn zeta in Hp. destruct (_ =? kImageMagic); cbn [negb] in Hs, Hp; [|by case_match].
  destruct (_ <? _); [done|]. destruct (kMaxImageSize <? _); [done|]. injection Hp as <-.
  cbn [header_size image_size version flags] in *. destruct Hs as (hash & Hh & Hs). rewrite Ha in Hh. injection Hh as <-.
  unfold describe. rewrite Hs. cbn [default]. by rewrite <- ver_str_version.
Qed.

Lemma last_sha_filter es hash :
  last_sha es hash = last_sha (filter (fun e => is_Some (hash_tlv_for e.1)) es) hash.
Proof.
  revert hash. induction es as [|[t v] es IH]; intros hash; [done|]. rewrite filter_cons. cbn [fst]. case_decide as Ht.
  - cbn [last_sha foldl]. apply IH.
  - cbn [last_sha foldl fst]. destruct (t =? kTlvSha256) eqn:E; [|apply IH].
    apply Z.eqb_eq in E as ->. exfalso. apply Ht. by eexists.
Qed.


