(* ===== verification/BootModel.v ===== *)
(** * The boot model

    [support/boot_model/boot_model.cpp]: a device's slots, and what MCUboot and
    Zephyr's image group do to them. It is the part of a pretend device that
    decides. A call that throws [std::out_of_range] is [None]. *)

From S2P Require Import Prelude Errors StoredZip ImageReader.

(** ** Data *)

Inductive SwapType := None_ | Test | Perm | Revert.
Inductive ApplyOutcome := Applied | Failed.
Inductive CommitOutcome := Commits | Never.
Inductive BootBehaviour := SwapWithRevert | Overwrite | DirectXip | DirectXipWithRevert.
Inductive XipState := Unset | Once | Forever.
Inductive XipNext := Stay | OtherOnTrial | OtherForGood.

#[global] Instance SwapType_eq_dec : EqDecision SwapType.
Proof. solve_decision. Defined.
#[global] Instance ApplyOutcome_eq_dec : EqDecision ApplyOutcome.
Proof. solve_decision. Defined.
#[global] Instance CommitOutcome_eq_dec : EqDecision CommitOutcome.
Proof. solve_decision. Defined.
#[global] Instance BootBehaviour_eq_dec : EqDecision BootBehaviour.
Proof. solve_decision. Defined.
#[global] Instance XipState_eq_dec : EqDecision XipState.
Proof. solve_decision. Defined.
#[global] Instance XipNext_eq_dec : EqDecision XipNext.
Proof. solve_decision. Defined.

(** [DeviceCommit]; the counts are unsigned. *)
Record DeviceCommit := mkCommit {
  dc_outcome : ApplyOutcome;
  dc_apply_reads : nat;
  dc_commit : CommitOutcome;
  dc_commit_reads : nat
}.

(** [BootConfig]. *)
Record BootConfig := mkConfig {
  behaviour : BootBehaviour;
  config_image_count : nat;
  no_downgrade : bool;
  allow_confirm_non_active_image_secondary : bool;
  allow_confirm_non_active_image_any : bool;
  allow_confirm_non_active_slot : bool;
  device_commits : list (option DeviceCommit)
}.

(** [BootModel::ImagePair]: [slots] holds two. *)
Record ImagePair := mkPair {
  primary : bytes;
  secondary : bytes;
  swap : SwapType;
  device : option DeviceCommit;
  applying : option nat;
  committing : option nat
}.

Definition empty_pair : ImagePair := mkPair [] [] None_ None None None.

Definition set_primary (b : bytes) (p : ImagePair) : ImagePair :=
  mkPair b (secondary p) (swap p) (device p) (applying p) (committing p).
Definition set_secondary (b : bytes) (p : ImagePair) : ImagePair :=
  mkPair (primary p) b (swap p) (device p) (applying p) (committing p).
Definition set_swap (s : SwapType) (p : ImagePair) : ImagePair :=
  mkPair (primary p) (secondary p) s (device p) (applying p) (committing p).
Definition set_device (d : option DeviceCommit) (p : ImagePair) : ImagePair :=
  mkPair (primary p) (secondary p) (swap p) d (applying p) (committing p).
Definition set_applying (a : option nat) (p : ImagePair) : ImagePair :=
  mkPair (primary p) (secondary p) (swap p) (device p) a (committing p).
Definition set_committing (c : option nat) (p : ImagePair) : ImagePair :=
  mkPair (primary p) (secondary p) (swap p) (device p) (applying p) c.

(** [pair.slots[within]] and its assignment. *)
Definition slot_get (p : ImagePair) (within : nat) : bytes :=
  match within with O => primary p | _ => secondary p end.
Definition slot_set (within : nat) (b : bytes) (p : ImagePair) : ImagePair :=
  match within with O => set_primary b p | _ => set_secondary b p end.

(** [std::swap(pair.slots[0], pair.slots[1])]. *)
Definition swap_slots (p : ImagePair) : ImagePair :=
  mkPair (secondary p) (primary p) (swap p) (device p) (applying p) (committing p).

(** [BootModel]. *)
Record BootModel := mkModel {
  config : BootConfig;
  images : list ImagePair;
  xip_active : nat;
  xip_state : XipState * XipState;
  xip_trial : bool
}.

Definition set_images (ps : list ImagePair) (m : BootModel) : BootModel :=
  mkModel (config m) ps (xip_active m) (xip_state m) (xip_trial m).
Definition set_xip_active (a : nat) (m : BootModel) : BootModel :=
  mkModel (config m) (images m) a (xip_state m) (xip_trial m).
Definition set_xip_states (s : XipState * XipState) (m : BootModel) : BootModel :=
  mkModel (config m) (images m) (xip_active m) s (xip_trial m).
Definition set_xip_trial (b : bool) (m : BootModel) : BootModel :=
  mkModel (config m) (images m) (xip_active m) (xip_state m) b.

(** [xip_state_[slot]] and its assignment. *)
Definition xip_get (m : BootModel) (slot : nat) : XipState :=
  match slot with O => (xip_state m).1 | _ => (xip_state m).2 end.
Definition xip_set (slot : nat) (s : XipState) (m : BootModel) : BootModel :=
  set_xip_states (match slot with O => (s, (xip_state m).2) | _ => ((xip_state m).1, s) end) m.

(** [images_.at(i)] changed in place; [None] throws. *)
Definition with_pair (i : nat) (f : ImagePair -> ImagePair) (m : BootModel) : option BootModel :=
  let! p := images m !! i in Some (set_images (<[i := f p]> (images m)) m).

(** [SlotEntry]. *)
Record SlotEntry := mkEntry {
  e_image : nat;
  e_slot : nat;
  e_content : SlotImage;
  e_pending : bool;
  e_confirmed : bool;
  e_active : bool;
  e_permanent : bool
}.

(** The codes of [ImageError] the model answers. *)
Definition ImageError_Ok : Z := 0.
Definition ImageError_Unknown : Z := 1.
Definition ImageError_HashNotFound : Z := 8.
Definition ImageError_NoFreeSlot : Z := 9.
Definition ImageError_InvalidSlot : Z := 14.
Definition ImageError_InvalidHash : Z := 24.
Definition ImageError_ImageConfirmationDenied : Z := 32.
Definition ImageError_ImageSettingTestToActiveDenied : Z := 33.

(** ** Construction *)

(** [behaviour_for_mode]. *)
Definition behaviour_for_mode (reported : option Z) : BootBehaviour :=
  if bool_decide (reported = Some 2) then Overwrite
  else if bool_decide (reported = Some 4) then DirectXip
  else if bool_decide (reported = Some 5) then DirectXipWithRevert
  else SwapWithRevert.

(** The constructor: the loop runs over the images that have an entry in
    [device_commits]. *)
Fixpoint commit_devices (commits : list (option DeviceCommit)) (ps : list ImagePair) : list ImagePair :=
  match commits, ps with
  | d :: commits, p :: ps => set_device d p :: commit_devices commits ps
  | _, _ => ps
  end.

Definition new_model (c : BootConfig) : BootModel :=
  let count := match config_image_count c with O => 1%nat | n => n end in
  mkModel c (commit_devices (device_commits c) (replicate count empty_pair)) 0 (Forever, Unset) false.

Definition image_count (m : BootModel) : nat := length (images m).

Definition supports_set_state (m : BootModel) : bool := bool_decide (behaviour (config m) <> DirectXip).

Definition direct_xip (m : BootModel) : bool :=
  bool_decide (behaviour (config m) = DirectXip) || bool_decide (behaviour (config m) = DirectXipWithRevert).

(** ** Flash *)

(** [slot_content], that is [flash] read. *)
Definition slot_content (m : BootModel) (slot : nat) : option bytes :=
  let! p := images m !! (slot / 2)%nat in Some (slot_get p (slot mod 2)).

Definition load_slot (slot : nat) (content : bytes) (m : BootModel) : option BootModel :=
  with_pair (slot / 2) (slot_set (slot mod 2) content) m.

Definition upload_target (m : BootModel) (image : nat) : option nat :=
  if (length (images m) <=? image)%nat then None
  else if direct_xip m && (image =? 0)%nat then Some (1 - xip_active m)%nat
  else Some (image * 2 + 1)%nat.

Definition begin_upload (slot size : nat) (m : BootModel) : option BootModel :=
  let! m := with_pair (slot / 2) (slot_set (slot mod 2) (replicate size 0xFF)) m in
  Some (if direct_xip m && (slot <? 2)%nat then xip_set slot Unset m else m).

(** [write]: whether it was written, and the model. *)
Definition write (slot offset : nat) (data : bytes) (m : BootModel) : option (bool * BootModel) :=
  let! target := slot_content m slot in
  if (length target <? offset)%nat || (length target - offset <? length data)%nat then Some (false, m)
  else
    let! m := load_slot slot (take offset target ++ data ++ drop (offset + length data) target) m in
    Some (true, m).

Definition next_boot_slot (p : ImagePair) : nat := match swap p with None_ => 0 | _ => 1 end.

(** [erase]; the check keeps every index in range. *)
Definition erase (slot : nat) (m : BootModel) : option (Z * BootModel) :=
  if (length (images m) * 2 <=? slot)%nat then Some (ImageError_InvalidSlot, m)
  else
    let image := (slot / 2)%nat in
    let within := if (slot mod 2 =? 0)%nat then 0%nat else 1%nat in
    let! p := images m !! image in
    if (within =? next_boot_slot p)%nat && negb (within =? 0)%nat then Some (ImageError_NoFreeSlot, m)
    else let! m := with_pair image (slot_set within []) m in Some (ImageError_Ok, m).

(** ** Boot state *)

(** [find_by_hash]: the loop from [global] on, [n] slots to go. *)
Fixpoint find_loop (m : BootModel) (hash : bytes) (global n : nat) : option (option nat) :=
  match n with
  | O => Some None
  | S n =>
      let! content := slot_content m global in
      match describe content with
      | Some described =>
          if bool_decide (si_hash described = hash) then Some (Some global) else find_loop m hash (S global) n
      | None => find_loop m hash (S global) n
      end
  end.

Definition find_by_hash (m : BootModel) (hash : bytes) : option (option nat) :=
  find_loop m hash 0 (length (images m) * 2).

(** [start_device_commits]: one image. *)
Definition start_commit (p : ImagePair) : ImagePair :=
  match device p with
  | Some d =>
      if bool_decide (swap p = Revert) && bool_decide (applying p = None)
         && bool_decide (dc_commit d = Commits) && bool_decide (committing p = None)
      then set_committing (Some (dc_commit_reads d)) p else p
  | None => p
  end.

Definition start_device_commits (m : BootModel) : BootModel := set_images (start_commit <$> images m) m.

(** [set_next_boot_slot]: whether the request is denied or already answered, the
    first half. *)
Definition boot_slot_denied (c : BootConfig) (image slot : nat) (p : ImagePair) (confirm : bool) : option Z :=
  let active := 0%nat in
  let next := next_boot_slot p in
  if confirm && negb (image =? 0)%nat && negb (allow_confirm_non_active_image_any c)
     && (negb (allow_confirm_non_active_image_secondary c) || (slot =? active)%nat)
  then Some ImageError_ImageConfirmationDenied
  else if confirm && negb (slot =? active)%nat && negb (allow_confirm_non_active_slot c)
  then Some ImageError_ImageConfirmationDenied
  else if negb confirm && (slot =? active)%nat then Some ImageError_ImageSettingTestToActiveDenied
  else
    match swap p with
    | Test => if negb confirm && (slot =? next)%nat then Some ImageError_Ok else Some ImageError_ImageAlreadyPending
    | None_ | Perm =>
        if confirm && (slot =? next)%nat then Some ImageError_Ok
        else if ((slot =? active)%nat && negb (active =? next)%nat)
                || (negb confirm && negb (slot =? active)%nat && (slot =? next)%nat)
        then Some ImageError_ImageAlreadyPending
        else None
    | Revert => if negb confirm then Some ImageError_ImageAlreadyPending else None
    end.

(** [set_next_boot_slot]. *)
Definition set_next_boot_slot (global_slot : nat) (confirm : bool) (m : BootModel) : option (Z * BootModel) :=
  let image := (global_slot / 2)%nat in
  let slot := (global_slot mod 2)%nat in
  let! p := images m !! image in
  match boot_slot_denied (config m) image slot p confirm with
  | Some answer => Some (answer, m)
  | None =>
      if (slot =? 0)%nat then
        if bool_decide (swap p = Revert) then
          let! m := with_pair image (fun p => set_committing None (set_applying None (set_swap None_ p))) m in
          Some (ImageError_Ok, if (image =? 0)%nat then start_device_commits m else m)
        else Some (ImageError_Ok, m)
      else if bool_decide (swap p = None_) then
        let! m := with_pair image (set_swap (if confirm then Perm else Test)) m in
        Some (ImageError_Ok, m)
      else Some (ImageError_Ok, m)
  end.

(** [xip_set_next]. *)
Definition xip_set_next (global_slot : nat) (confirm : bool) (m : BootModel) : Z * BootModel :=
  if (2 <=? global_slot)%nat then (ImageError_HashNotFound, m)
  else
    let active := (global_slot =? xip_active m)%nat in
    if confirm && negb active && negb (allow_confirm_non_active_slot (config m))
    then (ImageError_ImageConfirmationDenied, m)
    else if negb confirm && active then (ImageError_ImageSettingTestToActiveDenied, m)
    else if confirm then
      let m := xip_set global_slot Forever m in
      (ImageError_Ok, if active then set_xip_trial false m else m)
    else if xip_trial m || bool_decide (xip_get m global_slot = Forever)
    then (ImageError_ImageAlreadyPending, m)
    else (ImageError_Ok, xip_set global_slot Once m).

(** [set_state]. *)
Definition set_state (hash : option bytes) (confirm : bool) (m : BootModel) : option (Z * BootModel) :=
  if negb (supports_set_state m) then Some (ImageError_Unknown, m)
  else
    let set_slot slot := if direct_xip m then Some (xip_set_next slot confirm m) else set_next_boot_slot slot confirm m in
    match hash with
    | None =>
        if negb confirm then Some (ImageError_InvalidHash, m)
        else set_slot (if direct_xip m then xip_active m else 0%nat)
    | Some hash =>
        let! found := find_by_hash m hash in
        match found with
        | None => Some (ImageError_HashNotFound, m)
        | Some slot => set_slot slot
        end
    end.

(** ** Direct-XIP *)

(** [xip_prefers_other]; image 0 always has its slots. *)
Definition xip_prefers_other (m : BootModel) : bool :=
  let other := (1 - xip_active m)%nat in
  match slot_content m other, slot_content m (xip_active m) with
  | Some theirs, Some ours =>
      match describe theirs with
      | None => false
      | Some candidate =>
          if negb (si_bootable candidate) then false
          else
            match describe ours with
            | None => true
            | Some _ =>
                let mine := default (mkHeaderVersion 0 0 0) (header_version ours) in
                let other_version := default (mkHeaderVersion 0 0 0) (header_version theirs) in
                version_lt mine other_version
                || bool_decide (mine = other_version) && (other <? xip_active m)%nat
            end
      end
  | _, _ => false
  end.

(** [xip_next]. *)
Definition xip_next (m : BootModel) : XipNext :=
  if negb (xip_prefers_other m) then Stay
  else if bool_decide (behaviour (config m) = DirectXip) then OtherForGood
  else
    match xip_get m (1 - xip_active m) with
    | Once => OtherOnTrial
    | Forever => OtherForGood
    | Unset => Stay
    end.

(** [xip_flags]. *)
Definition xip_flags (m : BootModel) (e : SlotEntry) : SlotEntry :=
  let active := (e_slot e =? xip_active m)%nat in
  let next := xip_next m in
  let other_boots := bool_decide (next <> Stay) in
  let flags pending confirmed permanent :=
    mkEntry (e_image e) (e_slot e) (e_content e) pending confirmed active permanent in
  if bool_decide (behaviour (config m) = DirectXip)
  then flags (negb active && other_boots) false (negb active && other_boots)
  else if xip_trial m then flags false (negb active) false
  else if active then flags false true false
  else flags other_boots false (bool_decide (next = OtherForGood)).

(** [xip_reboot]. *)
Definition xip_reboot (m : BootModel) : option BootModel :=
  let other := (1 - xip_active m)%nat in
  if bool_decide (behaviour (config m) = DirectXipWithRevert) && xip_trial m then
    let! cleared := with_pair 0 (slot_set (xip_active m) []) m in
    Some (set_xip_trial false (set_xip_active other (xip_set (xip_active m) Unset cleared)))
  else
    match xip_next m with
    | Stay => Some m
    | next => Some (set_xip_trial (bool_decide (next = OtherOnTrial)) (set_xip_active other m))
    end.

(** [active_slot] and [boot_from_slot]. *)
Definition active_slot (m : BootModel) : nat := xip_active m.

Definition boot_from_slot (slot : nat) (m : BootModel) : option BootModel :=
  if (2 <=? slot)%nat then None
  else Some (set_xip_trial false (xip_set slot Forever (set_xip_states (Unset, Unset) (set_xip_active slot m)))).

(** ** Reboot *)

(** [refuses_downgrade]. *)
Definition refuses_downgrade (c : BootConfig) (p : ImagePair) : bool :=
  if negb (no_downgrade c) then false
  else
    match header_version (primary p), header_version (secondary p) with
    | Some running, Some scheduled => version_lt scheduled running
    | _, _ => false
    end.

(** [end_swap_without_trial]. *)
Definition end_swap_without_trial (install : bool) (p : ImagePair) : ImagePair :=
  let p := if install then set_primary (secondary p) p else p in
  set_swap None_ (set_secondary [] p).

(** The body of the first loop of [reboot]. *)
Definition without_trial (c : BootConfig) (p : ImagePair) : ImagePair :=
  if (bool_decide (swap p <> Test) && bool_decide (swap p <> Perm)) || bool_decide (device p <> None) then p
  else if refuses_downgrade c p then end_swap_without_trial false p
  else if bool_decide (behaviour c = Overwrite) then end_swap_without_trial true p
  else p.

(** The body of the second. *)
Definition run_swap (p : ImagePair) : ImagePair :=
  match swap p with
  | None_ => p
  | Test =>
      match device p with
      | Some d => set_applying (Some (dc_apply_reads d)) p
      | None => set_swap Revert (swap_slots p)
      end
  | Perm | Revert => set_committing None (set_applying None (set_swap None_ (swap_slots p)))
  end.

Definition reboot (m : BootModel) : option BootModel :=
  if direct_xip m then xip_reboot m
  else
    let m := set_images (without_trial (config m) <$> images m) m in
    Some (set_images (run_swap <$> images m) m).

Definition set_device_commit (image : nat) (how : DeviceCommit) (m : BootModel) : option BootModel :=
  with_pair image (set_device (Some how)) m.

Definition device_committed (m : BootModel) (image : nat) : option bool :=
  let! p := images m !! image in Some (bool_decide (device p <> None)).

(** ** Reading *)

(** The body of the loop of [advance_applies]. *)
Definition advance_apply (p : ImagePair) : ImagePair :=
  match committing p with
  | Some (S n) => set_committing (Some n) p
  | Some O => set_swap None_ (set_committing None p)
  | None =>
      match applying p with
      | None => p
      | Some (S n) => set_applying (Some n) p
      | Some O =>
          let p := set_applying None p in
          match device p with
          | Some d =>
              if bool_decide (dc_outcome d = Applied) then set_swap Revert (swap_slots p) else set_swap None_ p
          | None => set_swap None_ p
          end
      end
  end.

(** [advance_applies]; there is always an image 0. *)
Definition advance_applies (m : BootModel) : BootModel :=
  let m := set_images (advance_apply <$> images m) m in
  match images m with
  | p :: _ => if bool_decide (swap p <> Revert) then start_device_commits m else m
  | [] => m
  end.

(** The entry of one slot: the body of the inner loop of [listing]. *)
Definition entry_of_slot (m : BootModel) (image slot : nat) (p : ImagePair) : option SlotEntry :=
  match describe (slot_get p slot) with
  | None => None
  | Some described =>
      let active_confirmed := bool_decide (swap p <> Revert) in
      let other_pending := bool_decide (swap p = Perm) || bool_decide (swap p = Test) in
      let other_permanent := bool_decide (swap p = Perm) in
      let other_confirmed := bool_decide (swap p = Revert) in
      let is_active := (slot =? 0)%nat in
      let entry :=
        mkEntry image slot described (negb is_active && other_pending)
          (if is_active then active_confirmed else other_confirmed) is_active
          (negb is_active && other_permanent) in
      Some (if direct_xip m && (image =? 0)%nat then xip_flags m entry else entry)
  end.

(** [listing]. *)
Definition image_entries (m : BootModel) (image : nat) (p : ImagePair) : list SlotEntry :=
  omap (fun slot => entry_of_slot m image slot p) [0%nat; 1%nat].

Definition listing (m : BootModel) : list SlotEntry :=
  concat (imap (image_entries m) (images m)).

Definition read_state (m : BootModel) : list SlotEntry * BootModel :=
  let m := advance_applies m in (listing m, m).

Definition swap_type (m : BootModel) (image : nat) : option SwapType :=
  let! p := images m !! image in Some (swap p).
