(* ===== verification/BootModelProperties.v ===== *)
(** * What the boot model promises

    The invariant of the slot table over any sequence of operations, what the
    listing tells a client, and the life of an update: a trial is undone by the
    next reboot unless it was confirmed, and a confirmed one stays. *)

From S2P Require Import Prelude Errors ImageValues McubootImage StoredZip ImageReader BootModel.

(** ** Operations *)

Inductive op :=
| Load (slot : nat) (content : bytes)
| BeginUpload (slot size : nat)
| Write (slot offset : nat) (data : bytes)
| Erase (slot : nat)
| SetState (hash : option bytes) (confirm : bool)
| Reboot
| SetDeviceCommit (image : nat) (how : DeviceCommit)
| ReadState
| BootFromSlot (slot : nat).

(** The model after a call; [None] when the call throws. *)
Definition exec (o : op) (m : BootModel) : option BootModel :=
  match o with
  | Load slot content => load_slot slot content m
  | BeginUpload slot size => begin_upload slot size m
  | Write slot offset data => snd <$> write slot offset data m
  | Erase slot => snd <$> erase slot m
  | SetState hash confirm => snd <$> set_state hash confirm m
  | Reboot => reboot m
  | SetDeviceCommit image how => set_device_commit image how m
  | ReadState => Some (read_state m).2
  | BootFromSlot slot => boot_from_slot slot m
  end.

(** The models a device can be in: calls that threw changed nothing. *)
Inductive reachable (c : BootConfig) : BootModel -> Prop :=
| reach_new : reachable c (new_model c)
| reach_op o m m' : reachable c m -> exec o m = Some m' -> reachable c m'.

(** ** The invariant *)

(** An apply is in progress only on an image the device commits and that is
    marked for test, a commit only on one that is on trial. *)
Definition pair_ok (p : ImagePair) : Prop :=
  (applying p <> None -> device p <> None /\ swap p = Test /\ committing p = None) /\
  (committing p <> None -> device p <> None /\ swap p = Revert).

Definition model_ok (c : BootConfig) (m : BootModel) : Prop :=
  config m = c /\ length (images m) = Nat.max 1 (config_image_count c) /\
  Forall pair_ok (images m) /\ (xip_active m <= 1)%nat /\
  (direct_xip m = true -> Forall (fun p => swap p = None_) (images m)) /\
  (behaviour c <> DirectXipWithRevert -> xip_trial m = false).

Lemma commit_devices_length cs ps : length (commit_devices cs ps) = length ps.
Proof. revert ps. induction cs as [|d cs IH]; intros [|p ps]; cbn; try done. by rewrite IH. Qed.

Lemma commit_devices_new cs n p :
  p ∈ commit_devices cs (replicate n empty_pair) -> exists d, p = set_device d empty_pair.
Proof.
  revert cs. induction n as [|n IH]; intros cs Hp; cbn in Hp.
  { destruct cs; cbn in Hp; by apply not_elem_of_nil in Hp. }
  destruct cs as [|d cs]; cbn in Hp; apply elem_of_cons in Hp as [->|Hp].
  - by exists None.
  - apply (IH []). by destruct n.
  - by exists d.
  - by apply (IH cs).
Qed.

Lemma new_model_ok c : model_ok c (new_model c).
Proof.
  unfold model_ok, new_model. cbn. split_and!; try done; [|apply Forall_forall..|lia|].
  - rewrite commit_devices_length, length_replicate. destruct (config_image_count c); lia.
  - intros p (d & ->)%commit_devices_new. done.
  - intros _. apply Forall_forall. by intros p (d & ->)%commit_devices_new.
Qed.

(** A change of one image, and of all. *)
Lemma with_pair_ok c m i f m' p :
  model_ok c m -> images m !! i = Some p -> pair_ok (f p) -> (direct_xip m = true -> swap (f p) = None_) ->
  with_pair i f m = Some m' -> model_ok c m'.
Proof.
  intros (Hc & Hl & Hp & Ha & Hx & Ht) Hi Hf Hs. unfold with_pair. rewrite Hi. cbn. intros [= <-].
  unfold model_ok. cbn. rewrite length_insert. split_and!; try done.
  - by apply Forall_insert.
  - intros Hd. apply Forall_insert; auto.
Qed.

Lemma map_ok c m g :
  model_ok c m -> (forall p, pair_ok p -> pair_ok (g p)) ->
  (direct_xip m = true -> forall p, pair_ok p -> swap p = None_ -> swap (g p) = None_) ->
  model_ok c (set_images (g <$> images m) m).
Proof.
  intros (Hc & Hl & Hp & Ha & Hx & Ht) Hg Hs. unfold model_ok. cbn. rewrite length_fmap. split_and!; try done.
  - apply Forall_fmap. eapply Forall_impl; [exact Hp|]. by intros p; apply Hg.
  - intros Hd. apply Forall_fmap. specialize (Hx Hd). rewrite Forall_forall in Hp, Hx |- *.
    intros p Hin. apply Hs; auto.
Qed.

Lemma with_pair_lookup i f m m' : with_pair i f m = Some m' -> exists p, images m !! i = Some p.
Proof. unfold with_pair. destruct (images m !! i); [eauto|done]. Qed.

Lemma ok_pair c m i p : model_ok c m -> images m !! i = Some p ->
  pair_ok p /\ (direct_xip m = true -> swap p = None_).
Proof.
  intros (_ & _ & Hp & _ & Hx & _) Hi. split; [by eapply Forall_lookup_1 in Hp|].
  intros Hd. specialize (Hx Hd). by eapply Forall_lookup_1 in Hx.
Qed.

Lemma slot_set_swap w b p : swap (slot_set w b p) = swap p.
Proof. by destruct w. Qed.

Lemma slot_set_ok w b p : pair_ok p -> pair_ok (slot_set w b p).
Proof. by destruct w. Qed.

Lemma load_slot_ok c slot content m m' : model_ok c m -> load_slot slot content m = Some m' -> model_ok c m'.
Proof.
  intros Hm H. destruct (with_pair_lookup _ _ _ _ H) as [p Hi]. destruct (ok_pair _ _ _ _ Hm Hi) as [Hp Hs].
  eapply with_pair_ok; [exact Hm|exact Hi|by apply slot_set_ok| |exact H]. by rewrite slot_set_swap.
Qed.

Lemma start_commit_ok p : pair_ok p -> pair_ok (start_commit p).
Proof.
  intros Hp. unfold start_commit. destruct (device p) as [d|] eqn:Ed; [|done]. destruct (_ && _) eqn:E; [|done].
  bool_to_prop. unfold pair_ok. cbn. rewrite Ed. split; [|by intros _]. intros Ha. exfalso. apply Ha.
  by repeat match goal with H : bool_decide _ = true |- _ => apply bool_decide_eq_true in H end.
Qed.

Lemma start_commit_swap p : swap (start_commit p) = swap p.
Proof. unfold start_commit. destruct (device p); [|done]. by destruct (_ && _). Qed.

Lemma start_commits_ok c m : model_ok c m -> model_ok c (start_device_commits m).
Proof.
  intros Hm. apply map_ok; [done|exact start_commit_ok|]. intros _ p _ Hs. by rewrite start_commit_swap.
Qed.

Lemma set_next_ok c slot confirm m r m' :
  model_ok c m -> direct_xip m = false -> set_next_boot_slot slot confirm m = Some (r, m') -> model_ok c m'.
Proof.
  intros Hm Hx. unfold set_next_boot_slot. destruct (images m !! (slot / 2)%nat) as [p|] eqn:Hi; [|done]. cbn [option_bind].
  destruct (ok_pair _ _ _ _ Hm Hi) as [Hp _].
  destruct (boot_slot_denied _ _ _ _ _); [by intros [= _ <-]|]. destruct (_ =? 0)%nat; case_bool_decide as Hs;
    try (by intros [= _ <-]); destruct (with_pair _ _ m) as [m1|] eqn:Hw; try done; cbn [option_bind]; intros [= _ <-].
  - assert (model_ok c m1) by (eapply with_pair_ok; [exact Hm|exact Hi| |by rewrite Hx|exact Hw]; done).
    destruct (_ =? 0)%nat; [by apply start_commits_ok|done].
  - eapply with_pair_ok; [exact Hm|exact Hi| |by rewrite Hx|exact Hw]. unfold pair_ok in *. cbn. rewrite Hs in Hp.
    destruct Hp as [Ha Hc]. split; intros H; [by destruct (Ha H) as (_ & ? & _)|by destruct (Hc H)].
Qed.

Lemma xip_ok c m m' :
  model_ok c m -> config m' = config m -> images m' = images m -> (xip_active m' <= 1)%nat ->
  (behaviour c <> DirectXipWithRevert -> xip_trial m' = false) -> model_ok c m'.
Proof.
  intros (Hc & Hl & Hp & Ha & Hx & Ht) Hcfg Hi Ha' Ht'. unfold model_ok, direct_xip in *. rewrite Hcfg, Hi. by split_and!.
Qed.

Lemma xip_set_next_ok c slot confirm m : model_ok c m -> model_ok c (xip_set_next slot confirm m).2.
Proof.
  intros Hm. pose proof Hm as (_ & _ & _ & Ha & _ & Ht). unfold xip_set_next.
  repeat case_match; cbn; try done; eapply xip_ok; try done; cbn; auto.
Qed.

Lemma set_state_ok c hash confirm m r m' :
  model_ok c m -> set_state hash confirm m = Some (r, m') -> model_ok c m'.
Proof.
  intros Hm. unfold set_state. destruct (negb _); [by intros [= _ <-]|]. cbn zeta.
  assert (forall slot, (if direct_xip m then Some (xip_set_next slot confirm m) else set_next_boot_slot slot confirm m)
    = Some (r, m') -> model_ok c m') as Hset.
  { intros slot. destruct (direct_xip m) eqn:Hx; [|by apply set_next_ok].
    intros [= H]. pose proof (xip_set_next_ok c slot confirm m Hm) as Ho. by rewrite H in Ho. }
  destruct hash as [h|].
  - destruct (find_by_hash m h) as [[slot|]|]; cbn [option_bind]; [apply Hset|by intros [= _ <-]|done].
  - destruct (negb confirm); [by intros [= _ <-]|apply Hset].
Qed.

Lemma without_trial_ok c p : pair_ok p -> pair_ok (without_trial c p).
Proof.
  intros Hp. unfold without_trial. destruct (_ || _) eqn:E; [done|]. apply orb_false_iff in E as [_ Hd%bool_decide_eq_false].
  assert (pair_ok (end_swap_without_trial false p) /\ pair_ok (end_swap_without_trial true p)) as [? ?].
  { unfold pair_ok in *. cbn. destruct Hp as [Ha Hc].
    split; (split; intros H; [destruct (Ha H) as (? & _)|destruct (Hc H) as (? & _)]); done. }
  repeat case_match; done.
Qed.

Lemma run_swap_ok p : pair_ok p -> pair_ok (run_swap p).
Proof.
  intros Hp. pose proof Hp as [Ha Hc]. unfold run_swap. destruct (swap p) eqn:Hs; [exact Hp| |done|done].
  destruct (device p) as [d|] eqn:Hd.
  - unfold pair_ok. cbn. rewrite Hs, Hd. split; [|by intros [? ?]%Hc]. intros _. split_and!; [done..|].
    destruct (committing p); [|done]. by destruct Hc.
  - unfold pair_ok. cbn. rewrite Hd. split; [by intros (? & _)%Ha|by intros (? & _)%Hc].
Qed.

Lemma advance_apply_ok p : pair_ok p -> pair_ok (advance_apply p).
Proof.
  intros [Ha Hc]. unfold advance_apply. destruct (committing p) as [[|n]|] eqn:Ec.
  - unfold pair_ok. cbn. split; [|done]. intros H. destruct (Ha H) as (_ & _ & ?). done.
  - destruct (Hc ltac:(done)) as [Hd Hs]. unfold pair_ok. cbn. split; [|by intros _].
    intros H. destruct (Ha H) as (_ & ? & _). congruence.
  - destruct (applying p) as [[|n]|] eqn:Eap; [|by unfold pair_ok; cbn; rewrite Ec; split; [intros _; by apply Ha|]|
      by unfold pair_ok; rewrite Eap, Ec].
    cbn. destruct (device p) as [d|]; [case_bool_decide|]; unfold pair_ok; cbn; by rewrite Ec.
Qed.

Lemma advance_apply_quiet p : pair_ok p -> swap p = None_ -> advance_apply p = p.
Proof.
  intros [Ha Hc] Hs. unfold advance_apply. destruct (committing p); [by destruct Hc as [_ ?]; [done|congruence]|].
  destruct (applying p); [by destruct Ha as (_ & ? & _); [done|congruence]|done].
Qed.

Lemma advance_ok c m : model_ok c m -> model_ok c (advance_applies m).
Proof.
  intros Hm. unfold advance_applies.
  assert (model_ok c (set_images (advance_apply <$> images m) m)) as H.
  { apply map_ok; [done|exact advance_apply_ok|]. intros _ p Hp Hs. by rewrite advance_apply_quiet. }
  destruct (images (set_images _ m)) as [|p ps]; [done|]. case_bool_decide; [by apply start_commits_ok|done].
Qed.

Lemma reboot_ok c m m' : model_ok c m -> reboot m = Some m' -> model_ok c m'.
Proof.
  intros Hm. pose proof Hm as (Hc & _ & _ & Ha & _ & Ht). unfold reboot. destruct (direct_xip m) eqn:Hx.
  - unfold xip_reboot. cbn zeta. destruct (_ && _) eqn:E.
    + destruct (with_pair 0 _ m) as [m1|] eqn:Hw; [|done]. cbn [option_bind]. intros [= <-].
      destruct (with_pair_lookup _ _ _ _ Hw) as [p Hi]. destruct (ok_pair _ _ _ _ Hm Hi) as [Hp Hs].
      eapply xip_ok; [eapply with_pair_ok; [exact Hm|exact Hi|by apply slot_set_ok|by rewrite slot_set_swap|exact Hw]|done|done|cbn; lia|done].
    + destruct (xip_next m) eqn:En; intros [= <-]; [done|..]; (eapply xip_ok; [exact Hm|done|done|cbn; lia|cbn; intros Hb]); [|by case_bool_decide].
      exfalso. unfold xip_next in En. unfold direct_xip in Hx. rewrite Hc in *.
      destruct (behaviour c); repeat case_match; try done; bool_to_prop; done.
  - intros H. apply (inj Some) in H as <-.
    apply (map_ok c (set_images (without_trial (config m) <$> images m) m) run_swap).
    + apply map_ok; [done|intros p; apply without_trial_ok|]. by rewrite Hx.
    + exact run_swap_ok.
    + intros Hd. change (direct_xip m = true) in Hd. congruence.
Qed.

(** Every operation preserves the invariant. *)
Lemma exec_ok c o m m' : model_ok c m -> exec o m = Some m' -> model_ok c m'.
Proof.
  intros Hm. pose proof Hm as (_ & _ & _ & Ha & _ & Ht). destruct o as [slot content|slot size|slot offset data|slot|hash confirm| |image how| |slot]; cbn [exec].
  - by apply load_slot_ok.
  - unfold begin_upload. destruct (with_pair _ _ m) as [m1|] eqn:Hw; [|done]. cbn [option_bind]. intros [= <-].
    apply (load_slot_ok c slot) in Hw; [|done]. destruct (_ && _); [|done].
    pose proof Hw as (_ & _ & _ & Ha1 & _ & Ht1). by eapply xip_ok.
  - unfold write. destruct (slot_content m slot); [|done]. cbn [option_bind]. destruct (_ || _); [by intros [= <-]|].
    destruct (load_slot _ _ m) as [m1|] eqn:Hw; [|done]. cbn. intros [= <-]. by eapply load_slot_ok.
  - unfold erase. destruct (_ <=? _)%nat; [by intros [= <-]|]. destruct (images m !! _) as [p|] eqn:Hi; [|done]. cbn [option_bind].
    destruct (_ && _); [by intros [= <-]|]. destruct (with_pair _ _ m) as [m1|] eqn:Hw; [|done]. cbn. intros [= <-].
    destruct (ok_pair _ _ _ _ Hm Hi) as [Hp Hs].
    eapply with_pair_ok; [exact Hm|exact Hi|by apply slot_set_ok|by rewrite slot_set_swap|exact Hw].
  - destruct (set_state hash confirm m) as [[r m1]|] eqn:E; [|done]. cbn. intros [= <-]. by eapply set_state_ok.
  - by apply reboot_ok.
  - intros Hw. destruct (with_pair_lookup _ _ _ _ Hw) as [p Hi]. destruct (ok_pair _ _ _ _ Hm Hi) as [[H1 H2] Hs].
    eapply (with_pair_ok c m image (set_device (Some how))); [exact Hm|exact Hi| |exact Hs|exact Hw]. unfold pair_ok. cbn.
    split; [intros (_ & ? & ?)%H1|intros (_ & ?)%H2]; by split_and!.
  - intros [= <-]. by apply advance_ok.
  - unfold boot_from_slot. destruct (2 <=? slot)%nat eqn:E; [done|]. intros [= <-]. apply Nat.leb_gt in E.
    eapply xip_ok; [exact Hm|done|done|cbn; lia|done].
Qed.

Lemma reachable_ok c m : reachable c m -> model_ok c m.
Proof. induction 1 as [|o m m' _ IH E]; [apply new_model_ok|by eapply exec_ok]. Qed.

(** ** What throws *)

(** The call names a slot or an image the device does not have. *)
Definition out_of_range (count : nat) (o : op) : Prop :=
  match o with
  | Load slot _ | BeginUpload slot _ | Write slot _ _ => (2 * count <= slot)%nat
  | SetDeviceCommit image _ => (count <= image)%nat
  | BootFromSlot slot => (2 <= slot)%nat
  | Erase _ | SetState _ _ | Reboot | ReadState => False
  end.

Lemma with_pair_total i f m : (i < length (images m))%nat -> exists m', with_pair i f m = Some m'.
Proof. intros Hi. unfold with_pair. destruct (lookup_lt_is_Some_2 _ _ Hi) as [p ->]. by eexists. Qed.

Lemma with_pair_none i f m : with_pair i f m = None <-> (length (images m) <= i)%nat.
Proof. unfold with_pair. destruct (images m !! i) eqn:E; cbn; [apply lookup_lt_Some in E|apply lookup_ge_None in E]; split; done || lia. Qed.

Lemma slot_content_none m slot : slot_content m slot = None <-> (2 * length (images m) <= slot)%nat.
Proof.
  unfold slot_content. pose proof (Nat.div_mod slot 2 ltac:(lia)). pose proof (Nat.mod_upper_bound slot 2 ltac:(lia)).
  destruct (images m !! (slot / 2)%nat) eqn:E; cbn; [apply lookup_lt_Some in E|apply lookup_ge_None in E]; split; done || lia.
Qed.

Lemma load_slot_none slot content m : load_slot slot content m = None <-> (2 * length (images m) <= slot)%nat.
Proof.
  unfold load_slot. rewrite with_pair_none. pose proof (Nat.div_mod slot 2 ltac:(lia)).
  pose proof (Nat.mod_upper_bound slot 2 ltac:(lia)). lia.
Qed.

Lemma find_loop_spec m hash global n :
  (global + n <= 2 * length (images m))%nat ->
  exists found, find_loop m hash global n = Some found /\
    forall slot, found = Some slot -> (slot < 2 * length (images m))%nat.
Proof.
  revert global. induction n as [|n IH]; intros global Hn; cbn [find_loop]; [by eexists|].
  destruct (slot_content m global) as [content|] eqn:E; [|apply slot_content_none in E; lia]. cbn [option_bind].
  destruct (describe content); [case_bool_decide|]; [|apply IH; lia..]. eexists. split; [done|]. intros ? [= <-]. lia.
Qed.

Lemma set_next_total slot confirm m : (slot < 2 * length (images m))%nat -> is_Some (set_next_boot_slot slot confirm m).
Proof.
  intros Hs. unfold set_next_boot_slot. pose proof (Nat.div_mod slot 2 ltac:(lia)).
  assert (slot / 2 < length (images m))%nat as Hi by lia. destruct (lookup_lt_is_Some_2 _ _ Hi) as [p ->]. cbn [option_bind].
  destruct (boot_slot_denied _ _ _ _ _); [done|].
  repeat case_match; try done;
    match goal with |- is_Some (option_bind _ _ _ (with_pair ?i ?f m)) => by destruct (with_pair_total i f m Hi) as [? ->] end.
Qed.

Lemma set_state_total c hash confirm m : model_ok c m -> is_Some (set_state hash confirm m).
Proof.
  intros (_ & Hl & _ & Ha & _). unfold set_state. destruct (negb _); [done|]. cbn zeta.
  assert (forall slot, (slot < 2 * length (images m))%nat ->
    is_Some (if direct_xip m then Some (xip_set_next slot confirm m) else set_next_boot_slot slot confirm m)) as Hset
    by (intros; destruct (direct_xip m); [done|by apply set_next_total]).
  destruct hash as [h|].
  - destruct (find_loop_spec m h 0 (length (images m) * 2) ltac:(lia)) as (found & Hf & Hs). unfold find_by_hash. rewrite Hf.
    cbn [option_bind]. destruct found as [slot|]; [apply Hset; by apply Hs|done].
  - destruct (negb confirm); [done|]. apply Hset. destruct (direct_xip m); lia.
Qed.

Lemma exec_none c o m : model_ok c m -> exec o m = None <-> out_of_range (Nat.max 1 (config_image_count c)) o.
Proof.
  intros Hm. pose proof Hm as (_ & Hl & _ & Ha & _). rewrite <- Hl.
  destruct o as [slot content|slot size|slot offset data|slot|hash confirm| |image how| |slot]; cbn [exec out_of_range].
  - apply load_slot_none.
  - unfold begin_upload. rewrite <- (load_slot_none slot (replicate size 255) m). unfold load_slot. by destruct (with_pair _ _ m).
  - unfold write. rewrite <- slot_content_none. destruct (slot_content m slot) eqn:E; [|done]. cbn [option_bind].
    destruct (_ || _); [done|]. destruct (load_slot slot _ m) eqn:E'; [done|].
    apply load_slot_none, slot_content_none in E'. congruence.
  - split; [|done]. unfold erase. destruct (_ <=? slot)%nat eqn:E; [done|]. apply Nat.leb_gt in E.
    pose proof (Nat.div_mod slot 2 ltac:(lia)). assert (slot / 2 < length (images m))%nat as Hi by lia.
    destruct (lookup_lt_is_Some_2 _ _ Hi) as [p ->]. cbn [option_bind]. destruct (_ && _); [done|].
    match goal with |- context [with_pair ?i ?f m] => by destruct (with_pair_total i f m Hi) as [? ->] end.
  - split; [|done]. by destruct (set_state_total c hash confirm m Hm) as [[? ?] ->].
  - split; [|done]. unfold reboot. destruct (direct_xip m); [|done]. unfold xip_reboot. destruct (_ && _); [|by destruct (xip_next m)].
    destruct (with_pair_total 0 (slot_set (xip_active m) []) m) as [? ->]; [lia|done].
  - apply with_pair_none.
  - done.
  - unfold boot_from_slot. destruct (2 <=? slot)%nat eqn:E; [apply Nat.leb_le in E|apply Nat.leb_gt in E]; split; done || lia.
Qed.

(** Over any sequence of calls, on any build of the device, the boot state
    stays well-formed: the images are those of the build, an apply is in
    progress only on an image the device commits itself and that is marked, a
    commit only on one that is on trial, direct-XIP runs one of image 0's two
    slots and schedules no swap, and there is no trial without revert. And a
    call throws exactly when it names a slot or an image the device does not
    have: set-state, erase, reboot and the listing never do. *)
Lemma boot_invariant c m :
  reachable c m -> model_ok c m /\ forall o, exec o m = None <-> out_of_range (Nat.max 1 (config_image_count c)) o.
Proof. intros Hm%reachable_ok. split; [done|]. intros o. by apply exec_none. Qed.

(** ** The life of an update *)

Fixpoint reboots (n : nat) (m : BootModel) : option BootModel :=
  match n with O => Some m | S n => option_bind _ _ (reboots n) (reboot m) end.

(** A swap device reboots each image on its own. *)
Lemma reboot_image m m' i p :
  direct_xip m = false -> reboot m = Some m' -> images m !! i = Some p ->
  direct_xip m' = false /\ config m' = config m /\ images m' !! i = Some (run_swap (without_trial (config m) p)).
Proof.
  intros Hx. unfold reboot. rewrite Hx. intros H Hi. apply (inj Some) in H as <-.
  split_and!; [done|done|]. cbn [images set_images]. by rewrite !list_lookup_fmap, Hi.
Qed.

Lemma with_pair_image i f m m' p :
  with_pair i f m = Some m' -> images m !! i = Some p ->
  images m' !! i = Some (f p) /\ config m' = config m /\ direct_xip m' = direct_xip m.
Proof.
  unfold with_pair. intros H Hi. rewrite Hi in H. injection H as <-. cbn. split; [|done].
  rewrite list_lookup_insert, decide_True; [done|]. split; [done|]. by eapply lookup_lt_Some.
Qed.

Lemma image_pair_eta p : mkPair (primary p) (secondary p) (swap p) (device p) (applying p) (committing p) = p.
Proof. by destruct p. Qed.

(** Nothing scheduled: a reboot changes nothing. *)
Lemma quiet_image c p : swap p = None_ -> run_swap (without_trial c p) = p.
Proof.
  intros Hs. unfold without_trial. rewrite Hs. cbn [bool_decide]. rewrite !bool_decide_eq_true_2 by done. cbn [andb orb].
  unfold run_swap. by rewrite Hs.
Qed.

Lemma quiet_reboots n m i p :
  direct_xip m = false -> images m !! i = Some p -> swap p = None_ ->
  exists m', reboots n m = Some m' /\ images m' !! i = Some p.
Proof.
  revert m. induction n as [|n IH]; intros m Hx Hi Hs; cbn [reboots]; [by eexists|].
  destruct (reboot m) as [m1|] eqn:E; cycle 1.
  { unfold reboot in E. rewrite Hx in E. done. }
  destruct (reboot_image _ _ _ _ Hx E Hi) as (Hx1 & _ & Hi1). rewrite quiet_image in Hi1 by done. by apply IH.
Qed.

Section update.
Context (c : BootConfig) (m : BootModel) (i : nat) (p : ImagePair).
Context (m_reached : reachable c m) (c_swaps : behaviour c = SwapWithRevert).
Context (m_image : images m !! i = Some p) (p_quiet : swap p = None_) (p_client : device p = None).

Lemma no_xip : direct_xip m = false.
Proof.
  destruct (reachable_ok _ _ m_reached) as (Hc & _). unfold direct_xip. by rewrite Hc, c_swaps.
Qed.

Lemma quiet_fields : applying p = None /\ committing p = None.
Proof.
  destruct (ok_pair _ _ _ _ (reachable_ok _ _ m_reached) m_image) as [[Ha Hc] _].
  split; [destruct (applying p)|destruct (committing p)]; try done;
    [destruct (Ha ltac:(done)) as (? & _)|destruct (Hc ltac:(done)) as (? & _)]; congruence.
Qed.

(** Marking the secondary for test schedules it. *)
Lemma mark_for_test h :
  find_by_hash m h = Some (Some (2 * i + 1)%nat) ->
  exists m1, set_state (Some h) false m = Some (ImageError_Ok, m1) /\
    direct_xip m1 = false /\ config m1 = c /\ images m1 !! i = Some (set_swap Test p).
Proof.
  intros Hf. pose proof no_xip as Hx. destruct (reachable_ok _ _ m_reached) as (Hc & _).
  unfold set_state, supports_set_state. rewrite Hc, c_swaps, bool_decide_eq_true_2 by done. cbn [negb]. cbn zeta.
  rewrite Hf. cbn [option_bind]. rewrite Hx. unfold set_next_boot_slot.
  replace ((2 * i + 1) / 2)%nat with i by (rewrite Nat.mul_comm, Nat.div_add_l by lia; cbn; lia).
  replace ((2 * i + 1) mod 2)%nat with 1%nat by (rewrite Nat.mul_comm, Nat.add_comm, Nat.Div0.mod_add; done).
  rewrite m_image. cbn [option_bind]. unfold boot_slot_denied, next_boot_slot. rewrite p_quiet. cbn [negb andb orb Nat.eqb].
  rewrite bool_decide_eq_true_2 by done.
  destruct (with_pair_total i (set_swap Test) m) as [m1 Hm1]; [by eapply lookup_lt_Some|]. rewrite Hm1. cbn [option_bind].
  destruct (with_pair_image _ _ _ _ _ Hm1 m_image) as (Hi & Hc1 & Hx1). exists m1. split_and!; [done|congruence|congruence|done].
Qed.

(** The reboot runs it on trial. *)
Lemma boot_trial m1 :
  direct_xip m1 = false -> config m1 = c -> images m1 !! i = Some (set_swap Test p) -> refuses_downgrade c p = false ->
  exists m2, reboot m1 = Some m2 /\ direct_xip m2 = false /\ config m2 = c /\
    images m2 !! i = Some (set_swap Revert (swap_slots p)).
Proof.
  intros Hx Hc Hi Hd. destruct (reboot m1) as [m2|] eqn:E; [|by unfold reboot in E; rewrite Hx in E].
  destruct (reboot_image _ _ _ _ Hx E Hi) as (Hx2 & Hc2 & Hi2). exists m2. split_and!; [done|done|congruence|].
  rewrite Hi2, Hc. f_equal. unfold without_trial. cbn [swap set_swap device]. rewrite p_client, c_swaps.
  change (refuses_downgrade c (set_swap Test p)) with (refuses_downgrade c p). rewrite Hd.
  rewrite (bool_decide_eq_false_2 (Test <> Test)) by (by intros []). rewrite (bool_decide_eq_false_2 (None <> None)) by (by intros []).
  rewrite (bool_decide_eq_false_2 (SwapWithRevert = Overwrite)) by done. cbn [andb orb].
  unfold run_swap. cbn [swap set_swap device]. by rewrite p_client.
Qed.

(** The next one undoes it. *)
Lemma boot_back m2 :
  direct_xip m2 = false -> config m2 = c -> images m2 !! i = Some (set_swap Revert (swap_slots p)) ->
  exists m3, reboot m2 = Some m3 /\ images m3 !! i = Some p.
Proof.
  intros Hx Hc Hi. destruct (reboot m2) as [m3|] eqn:E; [|by unfold reboot in E; rewrite Hx in E].
  destruct (reboot_image _ _ _ _ Hx E Hi) as (_ & _ & Hi3). exists m3. split; [done|]. rewrite Hi3. f_equal.
  unfold without_trial. cbn [swap set_swap]. rewrite !bool_decide_eq_true_2 by done. cbn [andb orb].
  destruct quiet_fields as [Ha Hcm]. unfold run_swap. cbn. destruct p. cbn in *. by subst.
Qed.
End update.

(** Confirming the running image ends its trial, for good. *)
Lemma confirm_keeps c m p :
  behaviour c = SwapWithRevert -> config m = c -> direct_xip m = false ->
  images m !! 0%nat = Some p -> swap p = Revert ->
  exists m', set_state None true m = Some (ImageError_Ok, m') /\
    forall n, exists m'', reboots n m' = Some m'' /\
      exists p', images m'' !! 0%nat = Some p' /\ primary p' = primary p /\ swap p' = None_.
Proof.
  intros Hb Hc Hx Hi Hs. unfold set_state, supports_set_state. rewrite Hc, Hb, bool_decide_eq_true_2 by done. cbn [negb]. cbn zeta.
  rewrite Hx. unfold set_next_boot_slot. cbn [Nat.div Nat.modulo Nat.divmod fst snd Nat.sub]. rewrite Hi. cbn [option_bind].
  unfold boot_slot_denied. rewrite Hs. cbn [negb andb orb Nat.eqb]. rewrite bool_decide_eq_true_2 by done.
  set (f := fun p : ImagePair => set_committing None (set_applying None (set_swap None_ p))).
  destruct (with_pair_total 0 f m) as [m1 Hm1]; [by eapply lookup_lt_Some|]. rewrite Hm1. cbn [option_bind].
  destruct (with_pair_image _ _ _ _ _ Hm1 Hi) as (Hi1 & Hc1 & Hx1). eexists. split; [done|]. intros n.
  assert (images (start_device_commits m1) !! 0%nat = Some (start_commit (f p))) as Hi2.
  { unfold start_device_commits. cbn [images set_images]. by rewrite list_lookup_fmap, Hi1. }
  assert (start_commit (f p) = f p) as Hf.
  { unfold start_commit. destruct (device (f p)); [|done]. cbn [f swap set_committing set_applying set_swap].
    by rewrite (bool_decide_eq_false_2 (None_ = Revert)). }
  rewrite Hf in Hi2.
  destruct (quiet_reboots n (start_device_commits m1) 0 (f p)) as (m'' & Hr & Hi''); [by rewrite <- Hx, <- Hx1|done|done|].
  exists m''. split; [done|]. exists (f p). done.
Qed.


(** ** The listing *)

Lemma listing_elem m e :
  e ∈ listing m <-> exists i slot p, images m !! i = Some p /\ (slot <= 1)%nat /\ entry_of_slot m i slot p = Some e.
Proof.
  unfold listing, image_entries. rewrite list_elem_of_In, in_concat. split.
  - intros (l & Hl & He). apply list_elem_of_In, elem_of_lookup_imap in Hl as (i & p & -> & Hi).
    apply list_elem_of_In, list_elem_of_omap in He as (slot & Hs & He).
    exists i, slot, p. split_and!; [done| |done]. apply elem_of_cons in Hs as [->|Hs]; [lia|].
    apply elem_of_cons in Hs as [->|[]%not_elem_of_nil]; lia.
  - intros (i & slot & p & Hi & Hs & He). eexists. split; [apply list_elem_of_In, elem_of_lookup_imap; by exists i, p|].
    apply list_elem_of_In, list_elem_of_omap. exists slot. split; [|done]. rewrite !elem_of_cons. destruct slot as [|[|]]; auto; lia.
Qed.

Lemma entry_fields m i slot p e :
  entry_of_slot m i slot p = Some e -> e_image e = i /\ e_slot e = slot /\ describe (slot_get p slot) = Some (e_content e).
Proof.
  unfold entry_of_slot. destruct (describe _); [|done]. intros [= <-]. unfold xip_flags. by repeat case_match.
Qed.

(** The slot an image runs from, and what it runs. *)
Definition active_of (m : BootModel) (i : nat) : nat :=
  if direct_xip m && (i =? 0)%nat then xip_active m else 0%nat.

Definition running (m : BootModel) (i : nat) : option bytes :=
  option_bind _ _ (fun p => Some (slot_get p (active_of m i))) (images m !! i).

Lemma entry_active m i slot p e :
  entry_of_slot m i slot p = Some e -> e_active e = (slot =? active_of m i)%nat.
Proof.
  unfold entry_of_slot, active_of. destruct (describe _); [|done]. destruct (_ && _); intros [= <-]; [|done].
  unfold xip_flags. by repeat case_match.
Qed.

(** What the flags say the next boot runs: the pending slot, or, when the
    running image is on trial, the other. Plain direct-XIP confirms nothing. *)
Definition told_to_move (c : BootConfig) (a b : SlotEntry) : bool :=
  e_pending b || negb (e_confirmed a) && bool_decide (behaviour c <> DirectXip).

Lemma swap_moves c p :
  device p = None -> refuses_downgrade c p = false ->
  primary (run_swap (without_trial c p)) = match swap p with None_ => primary p | _ => secondary p end.
Proof.
  intros Hd Hr. destruct (swap p) eqn:Hs.
  - by rewrite quiet_image.
  - unfold without_trial. rewrite Hd, Hr, Hs. rewrite (bool_decide_eq_false_2 (Test <> Test)) by (by intros []).
    rewrite (bool_decide_eq_false_2 (None <> None)) by (by intros []). cbn [andb orb].
    case_bool_decide; [done|]. unfold run_swap. by rewrite Hs, Hd.
  - unfold without_trial. rewrite Hd, Hr, Hs. rewrite (bool_decide_eq_false_2 (Perm <> Perm)), andb_false_r by (by intros []).
    rewrite (bool_decide_eq_false_2 (None <> None)) by (by intros []). cbn [andb orb].
    case_bool_decide; [done|]. unfold run_swap. by rewrite Hs.
  - unfold without_trial. rewrite Hs. rewrite !bool_decide_eq_true_2 by done. cbn [andb orb]. unfold run_swap. by rewrite Hs.
Qed.

(** Direct-XIP, image 0. *)
Lemma xip_told c m p a b :
  model_ok c m -> direct_xip m = true ->
  entry_of_slot m 0 (xip_active m) p = Some a -> entry_of_slot m 0 (1 - xip_active m) p = Some b ->
  told_to_move c a b = bool_decide (behaviour c = DirectXipWithRevert) && xip_trial m || bool_decide (xip_next m <> Stay).
Proof.
  intros (Hc & _ & _ & Ha & _ & _) Hx Hea Heb. assert (1 - xip_active m <> xip_active m)%nat as Hne by lia.
  unfold entry_of_slot in Hea, Heb. destruct (describe (slot_get p (xip_active m))); [|done].
  destruct (describe (slot_get p (1 - xip_active m))); [|done]. rewrite Hx in Hea, Heb. cbn [andb Nat.eqb] in Hea, Heb.
  apply (inj Some) in Hea, Heb. unfold xip_flags in Hea, Heb. cbn [e_slot] in Hea, Heb.
  rewrite Nat.eqb_refl in Hea. rewrite (proj2 (Nat.eqb_neq _ _) Hne) in Heb. rewrite Hc in Hea, Heb.
  unfold direct_xip in Hx. rewrite Hc in Hx.
  destruct (behaviour c) eqn:Hb; try done; unfold told_to_move; rewrite ?Hb.
  - rewrite (bool_decide_eq_true_2 (DirectXip = DirectXip)) in Hea, Heb by done. subst a b. cbn [e_pending e_confirmed negb andb].
    rewrite (bool_decide_eq_false_2 (DirectXip <> DirectXip)) by (by intros []). by rewrite orb_false_r.
  - rewrite (bool_decide_eq_false_2 (DirectXipWithRevert = DirectXip)) in Hea, Heb by done.
    rewrite (bool_decide_eq_true_2 (DirectXipWithRevert <> DirectXip)), (bool_decide_eq_true_2 (DirectXipWithRevert = DirectXipWithRevert)) by done.
    destruct (xip_trial m); subst a b; cbn [e_pending e_confirmed negb andb orb]; [done|]. by rewrite orb_false_r.
Qed.

Lemma xip_moves c m m' p :
  model_ok c m -> direct_xip m = true -> images m !! 0%nat = Some p -> reboot m = Some m' ->
  running m' 0 = Some (slot_get p
    (if bool_decide (behaviour c = DirectXipWithRevert) && xip_trial m || bool_decide (xip_next m <> Stay)
     then 1 - xip_active m else xip_active m)%nat).
Proof.
  intros (Hc & _ & _ & Ha & _ & _) Hx Hi. unfold reboot. rewrite Hx. unfold xip_reboot. cbn zeta. rewrite Hc.
  assert (forall m1 a, config m1 = c -> xip_active m1 = a ->
    running m1 0 = option_bind _ _ (fun p => Some (slot_get p a)) (images m1 !! 0%nat)) as Hrun.
  { intros m1 a H1 <-. unfold running, active_of, direct_xip in *. rewrite H1. rewrite Hc in Hx. by rewrite Hx. }
  destruct (_ && _).
  - destruct (with_pair 0 _ m) as [m1|] eqn:Hw; [|done]. cbn [option_bind]. intros [= <-].
    destruct (with_pair_image _ _ _ _ _ Hw Hi) as (Hi1 & Hc1 & _).
    rewrite (Hrun _ (1 - xip_active m)%nat); [|cbn; congruence|done]. cbn [images set_xip_trial set_xip_active xip_set set_xip_states].
    rewrite Hi1. cbn [option_bind orb]. by destruct (xip_active m) as [|[|]]; [..|lia].
  - destruct (xip_next m) eqn:En; intros [= <-]; cbn [orb];
      (erewrite (Hrun _ _); [|done|reflexivity]); cbn [images set_xip_trial set_xip_active xip_active]; by rewrite Hi.
Qed.

(** The flags a client reads tell it what the next boot runs. For an image
    the client updates, with an image in both slots and no downgrade the
    bootloader would refuse, in every boot behaviour and every state: the boot
    runs the other slot exactly when that is pending or, where there are
    confirms, when the running image is not confirmed, and the running one
    otherwise. *)
Lemma flags_predict_boot c m m' i p a b :
  reachable c m -> images m !! i = Some p -> device p = None -> refuses_downgrade c p = false ->
  a ∈ listing m -> b ∈ listing m -> e_image a = i -> e_image b = i -> e_active a = true -> e_slot b <> e_slot a ->
  reboot m = Some m' ->
  running m' i = Some (slot_get p (if told_to_move c a b then e_slot b else e_slot a)).
Proof.
  intros Hm%reachable_ok Hi Hd Hr Hina Hinb Hia Hib Haa Hne Hre.
  apply listing_elem in Hina as (ia & sa & pa & Hia' & Hsa & Hea). apply listing_elem in Hinb as (ib & sb & pb & Hib' & Hsb & Heb).
  pose proof (entry_fields _ _ _ _ _ Hea) as (Eia & Esa & _). pose proof (entry_fields _ _ _ _ _ Heb) as (Eib & Esb & _).
  assert (ia = i /\ ib = i) as [-> ->] by (split; congruence). rewrite Hi in Hia', Hib'.
  injection Hia' as <-. injection Hib' as <-. subst sa sb.
  rewrite (entry_active _ _ _ _ _ Hea) in Haa. apply Nat.eqb_eq in Haa.
  pose proof Hm as (Hc & _ & _ & Hact & _ & _).
  destruct (direct_xip m) eqn:Hx; [destruct i as [|n]|].
  - unfold active_of in Haa. rewrite Hx in Haa. cbn in Haa. assert (e_slot b = 1 - xip_active m)%nat as Hb by lia.
    rewrite Haa in Hea |- *. rewrite Hb in Heb |- *.
    rewrite (xip_told c m _ _ _ Hm Hx Hea Heb). by apply (xip_moves c).
  - (* the image group leaves the others alone *)
    unfold active_of in Haa. rewrite Hx in Haa. cbn in Haa.
    destruct (ok_pair _ _ _ _ Hm Hi) as [_ Hs]. specialize (Hs Hx).
    assert (told_to_move c a b = false) as ->.
    { unfold entry_of_slot in Hea, Heb. destruct (describe _); [|done]. destruct (describe _) in Heb; [|done].
      cbn [Nat.eqb] in Hea, Heb. rewrite andb_false_r in Hea, Heb. apply (inj Some) in Hea, Heb. unfold told_to_move.
      rewrite <- Hea, <- Heb. cbn [e_pending e_confirmed]. rewrite Hs, Haa. cbn.
      rewrite !bool_decide_eq_false_2 by done. rewrite bool_decide_eq_true_2 by done. by rewrite andb_false_r. }
    rewrite Haa. assert (images m' !! S n = Some p /\ direct_xip m' = true) as [Hi' Hx'].
    { unfold reboot in Hre. rewrite Hx in Hre. unfold xip_reboot in Hre. cbn zeta in Hre. destruct (_ && _).
      - unfold with_pair in Hre. destruct (images m !! 0%nat); [|done]. cbn [option_bind] in Hre. injection Hre as <-.
        split; [|done]. cbn. by rewrite list_lookup_insert_ne.
      - by destruct (xip_next m); injection Hre as <-. }
    unfold running, active_of. rewrite Hi', Hx'. done.
  - unfold active_of in Haa. rewrite Hx in Haa. cbn in Haa. assert (e_slot b = 1)%nat as Hb by lia.
    destruct (reboot_image _ _ _ _ Hx Hre Hi) as (Hx' & _ & Hi'). unfold running, active_of. rewrite Hi', Hx', Haa, Hb. cbn [option_bind andb slot_get].
    rewrite Hc. f_equal. rewrite swap_moves by done. rewrite Haa in Hea. rewrite Hb in Heb.
    unfold entry_of_slot in Hea, Heb. destruct (describe _); [|done]. destruct (describe _) in Heb; [|done].
    rewrite Hx in Hea, Heb. cbn [andb Nat.eqb negb] in Hea, Heb. apply (inj Some) in Hea, Heb. unfold told_to_move. rewrite <- Hea, <- Heb.
    cbn [e_pending e_confirmed]. unfold direct_xip in Hx. rewrite Hc in Hx.
    assert (bool_decide (behaviour c <> DirectXip) = true) as -> by (by destruct (behaviour c)).
    rewrite andb_true_r. by destruct (swap p).
Qed.

(** ** Samples *)

Definition sample_content (minor : Z) : bytes :=
  header_layout (mkInfo 32 2 0 0 (mkVersion 1 minor 0 0) false) 0 0 ++ [7; 8] ++
  region_bytes None [(kTlvSha256, replicate 32 minor)].

Definition sample_config (b : BootBehaviour) : BootConfig := mkConfig b 1 false false false false [].

(** Version 1.0.0 runs, 1.1.0 is in the other slot. *)
Definition sample_device (b : BootBehaviour) : BootModel :=
  set_images [mkPair (sample_content 0) (sample_content 1) None_ None None None] (new_model (sample_config b)).

Lemma sample_reachable b : reachable (sample_config b) (sample_device b).
Proof.
  apply (reach_op _ (Load 1 (sample_content 1))
    (set_images [mkPair (sample_content 0) [] None_ None None None] (new_model (sample_config b)))); [|reflexivity].
  apply (reach_op _ (Load 0 (sample_content 0)) (new_model (sample_config b))); [constructor|reflexivity].
Qed.


(** [erase] asks for a scheduled swap only, and direct-XIP schedules none: a slot
    marked for the next boot there is erased, its mark left behind. *)
Lemma marked_slot_erased :
  let m := set_state (Some (replicate 32 1)) false (sample_device DirectXipWithRevert) in
  match m with
  | Some (r, m) =>
      r = ImageError_Ok /\ xip_next m = OtherOnTrial /\
      match erase 1 m with
      | Some (answer, m') => answer = ImageError_Ok /\ slot_content m' 1 = Some [] /\ xip_get m' 1 = Once
      | None => False
      end
  | None => False
  end.
Proof. vm_compute. repeat split. Qed.
