(* ===== verification/Cbor.v ===== *)
(** * The CBOR façade

    [src/cbor/cbor.hpp], [reader.cpp], [writer.cpp] and [mgmt_error.cpp]: the
    narrow layer between the library and QCBOR. QCBOR is not part of the
    sources, so its decoder and encoder are type classes of operations, and the
    façade is defined over any instance. What holds whatever QCBOR does -- that
    the first failure sticks, that depth and element counts stay bounded, that
    a poisoned element poisons its parent -- is proved for every instance; what
    depends on QCBOR's documented behaviour is proved from the laws of
    [QDecoderLaws] and [QEncoderLaws] (CborLaws.v). *)

From S2P Require Import Prelude Errors Client Minicbor.

(** ** QCBOR's decoder, as far as the façade uses it *)

(** [QCBORError]: the three values the façade tells apart, and the rest. *)
Inductive QCBORError :=
| QCBOR_SUCCESS
| QCBOR_ERR_LABEL_NOT_FOUND
| QCBOR_ERR_NO_MORE_ITEMS
| QCBOR_ERR_OTHER (n : Z).

#[global] Instance QCBORError_eq_dec : EqDecision QCBORError.
Proof. solve_decision. Defined.

(** [QCBORItem]: its label and its value, as far as the façade looks. *)
Inductive QLabel := QNoLabel | QTextLabel (t : string) | QOtherLabel.

#[global] Instance QLabel_eq_dec : EqDecision QLabel.
Proof. solve_decision. Defined.

Inductive QData :=
| QInt64 (z : Z)
| QUint64 (z : Z)
| QTextString (t : string)
| QMapItem
| QOtherItem.

Record QCBORItem := mkItem { uLabel : QLabel; uData : QData }.

Class QDecoder := {
  ctx : Type;
  Decode_Init : bytes -> ctx;
  EnterMap : ctx -> ctx;
  EnterMapFromMapSZ : string -> ctx -> ctx;
  ExitMap : ctx -> ctx;
  EnterArrayFromMapSZ : string -> ctx -> ctx;
  ExitArray : ctx -> ctx;
  GetError : ctx -> QCBORError;
  GetAndResetError : ctx -> QCBORError * ctx;
  GetUInt64InMapSZ : string -> ctx -> Z * ctx;
  GetInt64InMapSZ : string -> ctx -> Z * ctx;
  GetBoolInMapSZ : string -> ctx -> bool * ctx;
  GetTextStringInMapSZ : string -> ctx -> string * ctx;
  GetByteStringInMapSZ : string -> ctx -> bytes * ctx;
  PeekNext : ctx -> QCBORError * QCBORItem * ctx;
  VGetNext : ctx -> QCBORItem * ctx;
  VGetNextConsume : ctx -> QCBORItem * ctx;
  Tell : ctx -> nat;
  Rewind : ctx -> ctx
}.

(** [cbor::kMaxKeyLength] and [limits::kMaxCborNesting]. *)
Definition kMaxKeyLength : nat := 31.
Definition kMaxCborNesting : Z := 14.

(** A C string ends at its first NUL. *)
Fixpoint c_str (s : string) : string :=
  match s with
  | EmptyString => EmptyString
  | String c s => if (byte_of_char c =? 0) then EmptyString else String c (c_str s)
  end.

Section reader.
Context `{QDecoder}.

(** [cbor::Reader]. The label buffer is scratch. *)
Record Reader := mkReader {
  context_ : ctx;
  input_ : bytes;
  error_ : option Error;
  max_nesting_ : Z;
  depth_ : Z
}.

Definition set_context (c : ctx) (r : Reader) : Reader :=
  mkReader c (input_ r) (error_ r) (max_nesting_ r) (depth_ r).
Definition set_error (e : option Error) (r : Reader) : Reader :=
  mkReader (context_ r) (input_ r) e (max_nesting_ r) (depth_ r).
Definition set_depth (d : Z) (r : Reader) : Reader :=
  mkReader (context_ r) (input_ r) (error_ r) (max_nesting_ r) d.

(** The constructor. *)
Definition new_reader (input : bytes) (max_nesting : Z) : Reader :=
  mkReader (Decode_Init input) input None max_nesting 0.

(** [Reader::record]: the first failure wins. *)
Definition record {A} (e : Error) (r : Reader) : Result A * Reader :=
  match error_ r with
  | Some first => (Fail first, r)
  | None => (Fail e, set_error (Some e) r)
  end.

Definition cbor_error (where_ : string) : Error := Error_at CborDecode where_.

(** [Reader::label]. *)
Definition label (key : string) (r : Reader) : option string * Reader :=
  if (kMaxKeyLength <? String.length key)%nat then
    (None, (record (A := unit) (cbor_error "cbor reader: key too long") r).2)
  else (Some (c_str key), r).

(** [Reader::consume_lookup]. *)
Definition consume_lookup (r : Reader) : bool * Reader :=
  let '(status, c) := GetAndResetError (context_ r) in
  let r := set_context c r in
  match status with
  | QCBOR_SUCCESS => (true, r)
  | QCBOR_ERR_LABEL_NOT_FOUND => (false, r)
  | _ => (false, (record (A := unit) (cbor_error "cbor reader: decode failed") r).2)
  end.

(** [Reader::enter_map()]. *)
Definition enter_map (r : Reader) : Result unit * Reader :=
  match error_ r with
  | Some e => (Fail e, r)
  | None =>
      if max_nesting_ r <=? depth_ r then record (cbor_error "cbor reader: nesting limit") r
      else
        let r := set_context (EnterMap (context_ r)) r in
        if bool_decide (GetError (context_ r) <> QCBOR_SUCCESS) then
          record (cbor_error "cbor reader: not a map") r
        else (Success tt, set_depth (depth_ r + 1) r)
  end.

(** [Reader::enter_map(key)]: a probe, whose "no such map" does not stick. *)
Definition enter_map_key (key : string) (r : Reader) : Result unit * Reader :=
  match error_ r with
  | Some e => (Fail e, r)
  | None =>
      if max_nesting_ r <=? depth_ r then record (cbor_error "cbor reader: nesting limit") r
      else
        match label key r with
        | (None, r) => record (cbor_error "cbor reader: key too long") r
        | (Some name, r) =>
            let r := set_context (EnterMapFromMapSZ name (context_ r)) r in
            if bool_decide (GetError (context_ r) <> QCBOR_SUCCESS) then
              (fail CborDecode "cbor reader: no such map",
               set_context (GetAndResetError (context_ r)).2 r)
            else (Success tt, set_depth (depth_ r + 1) r)
        end
  end.

(** [Reader::leave_map]. *)
Definition leave_map (r : Reader) : Result unit * Reader :=
  if depth_ r =? 0 then record (cbor_error "cbor reader: unbalanced leave_map") r
  else
    let r := set_depth (depth_ r - 1) r in
    let r := set_context (ExitMap (context_ r)) r in
    if bool_decide (GetError (context_ r) <> QCBOR_SUCCESS) then
      record (cbor_error "cbor reader: exit map failed") r
    else (Success tt, r).

(** The five getters differ in the QCBOR call they make. *)
Definition lookup_key {A} (get : string -> ctx -> A * ctx) (key : string) (r : Reader)
  : option A * Reader :=
  match error_ r with
  | Some _ => (None, r)
  | None =>
      match label key r with
      | (None, r) => (None, r)
      | (Some name, r) =>
          let '(value, c) := get name (context_ r) in
          let '(ok, r) := consume_lookup (set_context c r) in
          (if ok : bool then Some value else None, r)
      end
  end.

(** [Reader::uint], [integer], [boolean], [text] and [bytes]. *)
Definition r_uint : string -> Reader -> option Z * Reader := lookup_key GetUInt64InMapSZ.
Definition r_integer : string -> Reader -> option Z * Reader := lookup_key GetInt64InMapSZ.
Definition r_boolean : string -> Reader -> option bool * Reader := lookup_key GetBoolInMapSZ.
Definition r_text : string -> Reader -> option string * Reader := lookup_key GetTextStringInMapSZ.
Definition r_bytes : string -> Reader -> option bytes * Reader := lookup_key GetByteStringInMapSZ.

(** [Reader::status]. *)
Definition status (r : Reader) : Result unit :=
  match error_ r with Some e => Fail e | None => Success tt end.

(** [Error{e.code(), e.where()}]: the code and the call site, without the
    rest. *)
Definition rebuilt (e : Error) : Error := mkError (code e) None "" ("system"%string, 0) (where_ e).

(** [input_.subspan(first, last - first)]. *)
Definition subspan (first last : nat) (l : bytes) : bytes := take (last - first) (drop first l).

(** The reader for a range of this one's input, with what is left of its
    nesting budget. *)
Definition child_reader (first last : nat) (r : Reader) : Reader :=
  new_reader (subspan first last (input_ r)) (wrap 32 (max_nesting_ r - depth_ r)).

(** [record] inside a walk, which carries the visitor's state. *)
Definition walk_fail {A S} (where_ : string) (s : S) (r : Reader) : Result A * S * Reader :=
  let '(o, r) := record (cbor_error where_) r in (o, s, r).

(** A visitor captures a state [S] and gets at one element's reader. *)
Definition visitor (S : Type) : Type := S -> Reader -> Result unit * S * Reader.

Section walks.
Context {S : Type}.

(** What the walk does with one element of the array: a child reader over its
    bytes, the visitor, and the child's failure taken over. *)
Definition visit_element (visit : visitor S) (first last : nat) (s : S) (r : Reader)
  : Result unit * S * Reader :=
  let '(outcome, element) := enter_map (child_reader first last r) in
  let '(outcome, s, element) :=
    match outcome with
    | Success _ => visit s element
    | Fail e => (Fail e, s, element)
    end in
  match outcome, status element with
  | Success _, Fail e => let '(outcome, r) := record (rebuilt e) r in (outcome, s, r)
  | _, _ => (outcome, s, r)
  end.

(** The loop of [for_each_map_in_array]; [budget] is [max_elements - seen]. *)
Fixpoint map_elements (visit : visitor S) (budget : nat) (s : S) (r : Reader)
  : Result unit * S * Reader :=
  let '(peeked, item, c) := PeekNext (context_ r) in
  let r := set_context c r in
  match peeked with
  | QCBOR_ERR_NO_MORE_ITEMS => (Success tt, s, r)
  | QCBOR_SUCCESS =>
      match uData item with
      | QMapItem =>
          match budget with
          | O => walk_fail "cbor reader: too many array elements" s r
          | Datatypes.S budget =>
              let first := Tell (context_ r) in
              let '(_, c) := VGetNextConsume (context_ r) in
              let '(st, c) := GetAndResetError c in
              let r := set_context c r in
              if bool_decide (st <> QCBOR_SUCCESS) then
                walk_fail "cbor reader: array element malformed" s r
              else
                let last := Tell (context_ r) in
                if (last <? first)%nat || (length (input_ r) <? last)%nat then
                  walk_fail "cbor reader: array element out of bounds" s r
                else
                  match visit_element visit first last s r with
                  | (Success _, s, r) => map_elements visit budget s r
                  | other => other
                  end
          end
      | _ => walk_fail "cbor reader: array element not a map" s r
      end
  | _ => walk_fail "cbor reader: array element unreadable" s r
  end.

(** The guards and the lookup both array walks start with: the reader inside the
    array, [None] when the key is absent, or the failure. *)
Definition enter_array (key : string) (r : Reader) : Result bool * Reader :=
  match error_ r with
  | Some e => (Fail e, r)
  | None =>
      if max_nesting_ r <=? depth_ r then record (cbor_error "cbor reader: nesting limit") r
      else
        match label key r with
        | (None, r) => record (cbor_error "cbor reader: key too long") r
        | (Some name, r) =>
            let '(st, c) := GetAndResetError (EnterArrayFromMapSZ name (context_ r)) in
            let r := set_context c r in
            match st with
            | QCBOR_SUCCESS => (Success true, set_depth (depth_ r + 1) r)
            | QCBOR_ERR_LABEL_NOT_FOUND => (Success false, r)
            | _ => record (cbor_error "cbor reader: not an array") r
            end
        end
  end.

(** [--depth_], [ExitArray] and the reset that drops its error. *)
Definition leave_array (r : Reader) : Reader :=
  let r := set_depth (depth_ r - 1) r in
  set_context (GetAndResetError (ExitArray (context_ r))).2 r.

(** [Reader::for_each_map_in_array]. *)
Definition for_each_map_in_array (key : string) (max_elements : nat) (visit : visitor S)
    (s : S) (r : Reader) : Result unit * S * Reader :=
  match enter_array key r with
  | (Fail e, r) => (Fail e, s, r)
  | (Success false, r) => (Success tt, s, r)
  | (Success true, r) =>
      let '(outcome, s, r) := map_elements visit max_elements s r in
      (outcome, s, leave_array r)
  end.

(** The loop of [for_each_text_in_array]. *)
Fixpoint text_elements (visit : S -> string -> Result unit * S) (budget : nat) (s : S) (r : Reader)
  : Result unit * S * Reader :=
  let '(peeked, item, c) := PeekNext (context_ r) in
  let r := set_context c r in
  match peeked with
  | QCBOR_ERR_NO_MORE_ITEMS => (Success tt, s, r)
  | QCBOR_SUCCESS =>
      match uData item with
      | QTextString _ =>
          match budget with
          | O => walk_fail "cbor reader: too many array elements" s r
          | Datatypes.S budget =>
              let '(item, c) := VGetNext (context_ r) in
              let '(st, c) := GetAndResetError c in
              let r := set_context c r in
              if bool_decide (st <> QCBOR_SUCCESS) then
                walk_fail "cbor reader: array element malformed" s r
              else
                let text := match uData item with QTextString t => t | _ => EmptyString end in
                match visit s text with
                | (Success _, s) => text_elements visit budget s r
                | (Fail e, s) => (Fail e, s, r)
                end
          end
      | _ => walk_fail "cbor reader: array element not text" s r
      end
  | _ => walk_fail "cbor reader: array element unreadable" s r
  end.

(** [Reader::for_each_text_in_array]. *)
Definition for_each_text_in_array (key : string) (max_elements : nat)
    (visit : S -> string -> Result unit * S) (s : S) (r : Reader) : Result bool * S * Reader :=
  match enter_array key r with
  | (Fail e, r) => (Fail e, s, r)
  | (Success false, r) => (Success false, s, r)
  | (Success true, r) =>
      let '(outcome, s, r) := text_elements visit max_elements s r in
      (let? _ := outcome in Success true, s, leave_array r)
  end.

(** The loop of [visit_uint_entries]. *)
Fixpoint uint_entries (visit : S -> string -> Z -> Result unit * S) (budget : nat) (s : S) (r : Reader)
  : Result unit * S * Reader :=
  let '(peeked, item, c) := PeekNext (context_ r) in
  let r := set_context c r in
  match peeked with
  | QCBOR_ERR_NO_MORE_ITEMS => (Success tt, s, r)
  | QCBOR_SUCCESS =>
      match uLabel item with
      | QTextLabel _ =>
          let value :=
            match uData item with
            | QInt64 z => if 0 <=? z then Some z else None
            | QUint64 z => Some z
            | _ => None
            end in
          match value with
          | None => walk_fail "cbor reader: map value not unsigned" s r
          | Some value =>
              match budget with
              | O => walk_fail "cbor reader: too many map entries" s r
              | Datatypes.S budget =>
                  let '(item, c) := VGetNext (context_ r) in
                  let '(st, c) := GetAndResetError c in
                  let r := set_context c r in
                  if bool_decide (st <> QCBOR_SUCCESS) then
                    walk_fail "cbor reader: map entry malformed" s r
                  else
                    let name := match uLabel item with QTextLabel t => t | _ => EmptyString end in
                    match visit s name value with
                    | (Success _, s) => uint_entries visit budget s r
                    | (Fail e, s) => (Fail e, s, r)
                    end
              end
          end
      | _ => walk_fail "cbor reader: map key not text" s r
      end
  | _ => walk_fail "cbor reader: map entry unreadable" s r
  end.

End walks.

(** [Reader::enter_labelled_map]. *)
Definition enter_labelled_map (r : Reader) : Result unit * Reader :=
  let '(item, c) := VGetNext (context_ r) in
  let '(st, c) := GetAndResetError c in
  let r := set_context c r in
  match st, uData item with
  | QCBOR_SUCCESS, QTextString _ => enter_map r
  | _, _ => record (cbor_error "cbor reader: map entry malformed") r
  end.

(** One round of the walk [for_each_uint_in_map] makes over the current map: the
    entry's range if it is the one looked for. *)
Definition find_entry_body (key : string) (r : Reader)
  : loop Reader (Result (option (nat * nat)) * Reader) :=
  let '(peeked, item, c) := PeekNext (context_ r) in
  let r := set_context c r in
  match peeked with
  | QCBOR_ERR_NO_MORE_ITEMS => Return (Success None, r)
  | QCBOR_SUCCESS =>
      let found := bool_decide (uLabel item = QTextLabel key) in
      if found && negb (match uData item with QMapItem => true | _ => false end) then
        Return (record (cbor_error "cbor reader: not a map") (set_context (Rewind (context_ r)) r))
      else
        let first := Tell (context_ r) in
        let '(_, c) := VGetNextConsume (context_ r) in
        let '(st, c) := GetAndResetError c in
        let r := set_context c r in
        if bool_decide (st <> QCBOR_SUCCESS) then
          Return (record (cbor_error "cbor reader: map entry malformed") r)
        else
          let last := Tell (context_ r) in
          if found then Return (Success (Some (first, last)), r) else Continue r
  | _ => Return (record (cbor_error "cbor reader: map entry unreadable") r)
  end.

Definition find_entry (key : string) (r : Reader)
  : option (Result (option (nat * nat)) * Reader) :=
  iterate (find_entry_body key) (S (length (input_ r)))
    (set_context (Rewind (context_ r)) r).

(** [Reader::for_each_uint_in_map]. [None] is a walk that does not end; a QCBOR
    whose cursor moves forward over every entry it consumes rules it out
    ([find_entry_total]). *)
Definition for_each_uint_in_map {S} (key : string) (max_entries : nat)
    (visit : S -> string -> Z -> Result unit * S) (s : S) (r : Reader)
  : option (Result bool * S * Reader) :=
  match error_ r with
  | Some e => Some (Fail e, s, r)
  | None =>
      if max_nesting_ r <=? depth_ r then
        Some (walk_fail "cbor reader: nesting limit" s r)
      else if (kMaxKeyLength <? String.length key)%nat then
        Some (walk_fail "cbor reader: key too long" s r)
      else
        match find_entry key r with
        | None => None
        | Some (Fail e, r) => Some (Fail e, s, r)
        | Some (Success found, r) =>
            let r := set_context (GetAndResetError (Rewind (context_ r))).2 r in
            match found with
            | None => Some (Success false, s, r)
            | Some (first, last) =>
                if (last <? first)%nat || (length (input_ r) <? last)%nat then
                  Some (walk_fail "cbor reader: map entry out of bounds" s r)
                else
                  let '(outcome, child) := enter_labelled_map (child_reader first last r) in
                  let '(outcome, s, child) :=
                    match outcome with
                    | Success _ => uint_entries visit max_entries s child
                    | Fail e => (Fail e, s, child)
                    end in
                  match status child with
                  | Fail e => let '(o, r) := record (rebuilt e) r in Some (o, s, r)
                  | Success _ => Some (let? _ := outcome in Success true, s, r)
                  end
            end
        end
  end.

(** ** [extract_mgmt_error] *)

(** [read_group_scoped]. *)
Definition read_group_scoped (r : Reader) : option MgmtError * Reader :=
  match enter_map_key "err" r with
  | (Fail _, r) => (None, r)
  | (Success _, r) =>
      let '(group, r) := r_uint "group" r in
      let '(rc, r) := r_uint "rc" r in
      let '(_, r) := leave_map r in
      match rc with
      | None => (None, r)
      | Some rc =>
          if rc =? 0 then (None, r)
          else (Some (MgmtError_scoped (wrap 16 (default 0 group)) (wrap 16 rc)), r)
      end
  end.

(** The end of [extract_mgmt_error]: the [rsn] text, capped, and the reader's
    status. *)
Definition report_reason (error : option MgmtError) (r : Reader) : Result MgmtOutcome :=
  let '(text, r) := r_text "rsn" r in
  let reason := match text with Some t => String.substring 0 kMaxReasonLength t | None => EmptyString end in
  let? _ := status r in
  Success (mkOutcome error reason).

(** [cbor::extract_mgmt_error]. *)
Definition extract_mgmt_error (payload : bytes) : Result MgmtOutcome :=
  let '(entered, r) := enter_map (new_reader payload kMaxCborNesting) in
  let? _ := entered in
  let '(error, r) := read_group_scoped r in
  let '(error, r) :=
    match error with
    | Some m => (Some m, r)
    | None =>
        let '(rc, r) := r_integer "rc" r in
        match rc with
        | Some rc => (if rc =? 0 then None else Some (MgmtError_smp (wrap 16 rc)), r)
        | None => (None, r)
        end
    end in
  report_reason error r.

(** ** What holds of every QCBOR

    A reader only ever moves forward: it stays over the same input and the same
    budget, its depth stays within the budget, and a failure once recorded is
    the one that is kept. *)

Record keeps (r r' : Reader) : Prop := {
  k_input : input_ r' = input_ r;
  k_max : max_nesting_ r' = max_nesting_ r;
  k_error : forall e, error_ r = Some e -> error_ r' = Some e
}.

#[global] Instance keeps_preorder : PreOrder keeps.
Proof.
  split; [by constructor|].
  intros r1 r2 r3 [? ? H1] [? ? H2]. constructor; [congruence..|auto].
Qed.

Lemma keeps_context c r : keeps r (set_context c r).
Proof. by constructor. Qed.

Lemma keeps_depth d r : keeps r (set_depth d r).
Proof. by constructor. Qed.

Lemma record_spec {A} e r :
  exists first, @record A e r = (Fail first, set_error (Some first) r) /\
                (forall e', error_ r = Some e' -> first = e') /\ (error_ r = None -> first = e).
Proof.
  unfold record. destruct r as [c i [e0|] m d]; simpl.
  - exists e0. split_and!; [done|by intros ? [= <-]|done].
  - exists e. by split_and!.
Qed.

(** Every failing branch goes through [record]: it fails, it sticks, and it
    leaves the rest of the reader alone. *)
Lemma record_keeps {A} e r :
  keeps r (@record A e r).2 /\ depth_ (@record A e r).2 = depth_ r /\
  (exists x, (@record A e r).1 = Fail x /\ error_ (@record A e r).2 = Some x).
Proof.
  destruct (@record_spec A e r) as (x & -> & Hx & Hn). simpl. split_and!; try done; [|by exists x].
  constructor; simpl; try done. intros e' He. by rewrite (Hx e' He).
Qed.

(** One step of case analysis on a façade operation: a conditional, a match on
    an abstract call, or a [record]. *)
Ltac facade_step :=
  match goal with
  | |- context [@record ?A ?e ?r] =>
      let x := fresh "x" in let E := fresh "E" in
      destruct (@record_spec A e r) as (x & E & ? & ?); rewrite E; clear E
  | |- context [match ?b with _ => _ end] =>
      lazymatch b with
      | context [match _ with _ => _ end] => fail
      | _ => destruct b eqn:?
      end
  end.

(** What a whole operation promises: the reader is kept, and its depth is the
    one the operation says. *)
Definition op_ok {A} (P : A -> Z -> Z -> Prop) (r : Reader) (o : A * Reader) : Prop :=
  keeps r o.2 /\ P o.1 (depth_ r) (depth_ o.2).

Abbreviation same_depth := (fun _ d d' => d' = d).

Ltac facade :=
  unfold op_ok; repeat (facade_step; simpl in *);
  simplify_eq/=; repeat split; simpl in *; try done; try congruence; try naive_solver.

Lemma label_ok key r :
  op_ok same_depth r (label key r) /\ ((label key r).1 = None -> error_ (label key r).2 <> None).
Proof. unfold label. facade. Qed.

Lemma consume_lookup_ok r : op_ok same_depth r (consume_lookup r).
Proof. unfold consume_lookup. facade. Qed.

Lemma lookup_key_ok {A} (get : string -> ctx -> A * ctx) key r :
  op_ok same_depth r (lookup_key get key r) /\
  (error_ r <> None -> lookup_key get key r = (None, r)).
Proof. unfold lookup_key, label, consume_lookup. facade. Qed.

Lemma enter_map_ok r :
  op_ok (fun o d d' => d' = match o with Success _ => d + 1 | Fail _ => d end) r (enter_map r) /\
  ((enter_map r).1 = Success tt -> error_ r = None /\ depth_ r < max_nesting_ r).
Proof. unfold enter_map. facade; bool_to_prop; done. Qed.

Lemma enter_map_key_ok key r :
  op_ok (fun o d d' => d' = match o with Success _ => d + 1 | Fail _ => d end) r (enter_map_key key r) /\
  ((enter_map_key key r).1 = Success tt -> error_ r = None /\ depth_ r < max_nesting_ r).
Proof. unfold enter_map_key, label. facade; bool_to_prop; done. Qed.

Lemma leave_map_ok r :
  op_ok (fun _ d d' => d' = if d =? 0 then d else d - 1) r (leave_map r).
Proof. unfold leave_map. facade. Qed.

(** ** The walks

    Whatever the visitor and QCBOR do, a walk keeps its reader, ends after at
    most [max] visits, and succeeds only if every visit succeeded in an element
    whose reader has not failed. *)

Section walk_lemmas.
Context {S : Type}.

Lemma visit_element_ok (visit : visitor S) first last s r o s' r' :
  visit_element visit first last s r = (o, s', r') ->
  keeps r r' /\ depth_ r' = depth_ r /\
  (o = Success tt -> exists el el', visit s el = (Success tt, s', el') /\ error_ el' = None).
Proof.
  unfold visit_element. destruct (enter_map _) as [[[]|e] el] eqn:En.
  - destruct (visit s el) as [[[[]|e] s1] el'] eqn:Ev; simpl.
    + unfold status. destruct (error_ el') as [e|] eqn:Ee.
      * destruct (@record_keeps unit (rebuilt e) r) as (Hk & Hd & x & Hx & _).
        destruct (record _ r) as [o1 r1]. simpl in *. intros [= <- <- <-]. subst.
        split_and!; try done.
      * intros [= <- <- <-]. split_and!; try done. intros _. by exists el, el'.
    + intros [= <- <- <-]. by split_and!.
  - simpl. intros [= <- <- <-]. by split_and!.
Qed.

Lemma walk_fail_ok {A} where_ (s : S) r (o : Result A) s' r' :
  walk_fail where_ s r = (o, s', r') ->
  keeps r r' /\ depth_ r' = depth_ r /\ s' = s /\ exists e, o = Fail e /\ error_ r' = Some e.
Proof.
  unfold walk_fail. destruct (@record_keeps A (cbor_error where_) r) as (Hk & Hd & x & Hx & He).
  destruct (record _ r) as [o1 r1]. simpl in *. intros [= <- <- <-]. split_and!; try done. by exists x.
Qed.

(** The promise of a walk over a reader that only its cursor has moved. *)
Definition walk_ok {A} (Q : S -> Prop) (r : Reader) (out : Result A * S * Reader) : Prop :=
  keeps r out.2 /\ depth_ out.2 = depth_ r /\ (forall a, out.1.1 = Success a -> Q out.1.2).

Lemma walk_fail_walk {A} where_ (s : S) r Q : walk_ok Q r (@walk_fail A S where_ s r).
Proof.
  destruct (walk_fail where_ s r) as [[o s'] r'] eqn:E.
  apply walk_fail_ok in E as (? & ? & -> & e & -> & _). by split_and!.
Qed.

Lemma walk_ok_context {A} Q c r (out : Result A * S * Reader) :
  walk_ok Q (set_context c r) out -> walk_ok Q r out.
Proof. intros (Hk & Hd & HQ). split_and!; [|done|done]. etrans; [apply (keeps_context c)|done]. Qed.

Hint Resolve walk_fail_walk : core.

Lemma map_elements_ok (visit : visitor S) (I : nat -> S -> Prop) :
  (forall k s el s' el', I k s -> visit s el = (Success tt, s', el') -> error_ el' = None ->
     I (1 + k)%nat s') ->
  forall budget k s r, I k s ->
  walk_ok (fun s' => exists n, (n <= budget)%nat /\ I (n + k)%nat s') r
    (map_elements visit budget s r).
Proof.
  intros HI budget. induction budget as [|budget IH]; intros k s r Hk; cbn [map_elements];
    destruct (PeekNext (context_ r)) as [[peeked item] c]; apply walk_ok_context with c;
    (destruct peeked; auto; [|split_and!; try done; intros; exists 0%nat; split; [lia|done]]);
    (destruct (uData item); auto).
  cbn. destruct (VGetNextConsume _) as [item1 c1]. destruct (GetAndResetError c1) as [st c2].
  apply walk_ok_context with c2. split_if; [auto|]. split_if; [auto|].
  destruct (visit_element _ _ _ _ _) as [[[[]|e] s1] r1] eqn:Ev.
  - apply visit_element_ok in Ev as (Hk1 & Hd1 & Hv).
    destruct (Hv eq_refl) as (el & el' & Hvis & Hel).
    destruct (IH (1 + k)%nat s1 r1 (HI _ _ _ _ _ Hk Hvis Hel)) as (Hk2 & Hd2 & Hn).
    split_and!; [by etrans|simpl in *; congruence|]. intros a Ha.
    destruct (Hn a Ha) as (n & Hle & HIn). exists (1 + n)%nat. split; [lia|].
    by replace (1 + n + k)%nat with (n + (1 + k))%nat by lia.
  - apply visit_element_ok in Ev as (Hk1 & Hd1 & _). by split_and!.
Qed.

Lemma enter_array_ok key r :
  op_ok (fun o d d' => d' = match o with Success true => d + 1 | _ => d end) r (enter_array key r) /\
  ((enter_array key r).1 = Success true -> error_ r = None /\ depth_ r < max_nesting_ r).
Proof. unfold enter_array, label. facade; bool_to_prop; done. Qed.

Lemma for_each_map_ok (visit : visitor S) (I : nat -> S -> Prop) key max s r :
  (forall k s el s' el', I k s -> visit s el = (Success tt, s', el') -> error_ el' = None ->
     I (1 + k)%nat s') ->
  I 0%nat s ->
  walk_ok (fun s' => exists n, (n <= max)%nat /\ I n s') r (for_each_map_in_array key max visit s r).
Proof.
  intros HI H0. unfold for_each_map_in_array.
  destruct (enter_array_ok key r) as [[Hk Hd] _].
  destruct (enter_array key r) as [[[]|e] r1]; simpl in *.
  - destruct (map_elements_ok visit I HI max 0 s r1 H0) as (Hk2 & Hd2 & Hn).
    destruct (map_elements visit max s r1) as [[o s'] r2]. simpl in *.
    split_and!; simpl.
    + etrans; [exact Hk|]. etrans; [exact Hk2|]. by constructor.
    + lia.
    + intros a Ha. destruct (Hn a Ha) as (n & ? & HIn). exists n. by rewrite Nat.add_0_r in HIn.
  - split_and!; try done. intros _ _. exists 0%nat. split; [lia|done].
  - by split_and!.
Qed.

Lemma text_elements_ok (visit : S -> string -> Result unit * S) (I : nat -> S -> Prop) :
  (forall k s t s', I k s -> visit s t = (Success tt, s') -> I (1 + k)%nat s') ->
  forall budget k s r, I k s ->
  walk_ok (fun s' => exists n, (n <= budget)%nat /\ I (n + k)%nat s') r
    (text_elements visit budget s r).
Proof.
  intros HI budget. induction budget as [|budget IH]; intros k s r Hk; cbn [text_elements];
    destruct (PeekNext (context_ r)) as [[peeked item] c]; apply walk_ok_context with c;
    (destruct peeked; auto; [|split_and!; try done; intros; exists 0%nat; split; [lia|done]]);
    (destruct (uData item); auto).
  cbn. destruct (VGetNext _) as [item1 c1]. destruct (GetAndResetError c1) as [st c2].
  apply walk_ok_context with c2. split_if; [auto|].
  destruct (visit s _) as [[[]|e] s1] eqn:Ev; [|by split_and!].
  destruct (IH (1 + k)%nat s1 (set_context c2 (set_context c r)) (HI _ _ _ _ Hk Ev)) as (Hk2 & Hd2 & Hn).
  split_and!; [done|done|]. intros a Ha.
  destruct (Hn a Ha) as (n & Hle & HIn). exists (1 + n)%nat. split; [lia|].
  by replace (1 + n + k)%nat with (n + (1 + k))%nat by lia.
Qed.

Lemma uint_entries_ok (visit : S -> string -> Z -> Result unit * S) (I : nat -> S -> Prop) :
  (forall k s t v s', I k s -> visit s t v = (Success tt, s') -> I (1 + k)%nat s') ->
  forall budget k s r, I k s ->
  walk_ok (fun s' => exists n, (n <= budget)%nat /\ I (n + k)%nat s') r
    (uint_entries visit budget s r).
Proof.
  intros HI budget. induction budget as [|budget IH]; intros k s r Hk; cbn [uint_entries];
    destruct (PeekNext (context_ r)) as [[peeked item] c]; apply walk_ok_context with c;
    (destruct peeked; auto; [|split_and!; try done; intros; exists 0%nat; split; [lia|done]]);
    (destruct (uLabel item); auto); cbn zeta;
    (match goal with |- walk_ok _ _ (match ?o with _ => _ end) => destruct o as [value|] end; auto).
  destruct (VGetNext _) as [item1 c1]. destruct (GetAndResetError c1) as [st c2].
  apply walk_ok_context with c2. split_if; [auto|].
  destruct (visit s _ value) as [[[]|e] s1] eqn:Ev; [|by split_and!].
  destruct (IH (1 + k)%nat s1 (set_context c2 (set_context c r)) (HI _ _ _ _ _ Hk Ev)) as (Hk2 & Hd2 & Hn).
  split_and!; [done|done|]. intros a Ha.
  destruct (Hn a Ha) as (n & Hle & HIn). exists (1 + n)%nat. split; [lia|].
  by replace (1 + n + k)%nat with (n + (1 + k))%nat by lia.
Qed.

Lemma for_each_text_ok (visit : S -> string -> Result unit * S) (I : nat -> S -> Prop) key max s r :
  (forall k s t s', I k s -> visit s t = (Success tt, s') -> I (1 + k)%nat s') ->
  I 0%nat s ->
  walk_ok (fun s' => exists n, (n <= max)%nat /\ I n s') r (for_each_text_in_array key max visit s r).
Proof.
  intros HI H0. unfold for_each_text_in_array.
  destruct (enter_array_ok key r) as [[Hk Hd] _].
  destruct (enter_array key r) as [[[]|e] r1]; simpl in *.
  - destruct (text_elements_ok visit I HI max 0 s r1 H0) as (Hk2 & Hd2 & Hn).
    destruct (text_elements visit max s r1) as [[o s'] r2]. simpl in *.
    split_and!; simpl.
    + etrans; [exact Hk|]. etrans; [exact Hk2|]. by constructor.
    + lia.
    + intros a (x & Ha & _)%result_bind_Success.
      destruct (Hn x Ha) as (n & ? & HIn). exists n. by rewrite Nat.add_0_r in HIn.
  - split_and!; try done. intros _ _. exists 0%nat. split; [lia|done].
  - by split_and!.
Qed.

Lemma find_entry_keeps key r o r' :
  find_entry key r = Some (o, r') ->
  keeps r r' /\ depth_ r' = depth_ r.
Proof.
  unfold find_entry. intros E.
  apply (iterate_inv (find_entry_body key) (fun r1 => keeps r r1 /\ depth_ r1 = depth_ r)
           (fun out => keeps r out.2 /\ depth_ out.2 = depth_ r)) in E; [done|..].
  - intros r1 r2 [Hk Hd]. unfold find_entry_body.
    repeat (split_if || case_match); try done; intros [= <-]; (split; [|done]);
      etrans; try exact Hk; by constructor.
  - intros r1 [o1 r2] [Hk Hd]. unfold find_entry_body.
    assert (forall c, keeps r (set_context c r1)) as Hc by (intros c; etrans; [exact Hk|by constructor]).
    assert (forall A e c, keeps r (@record A e (set_context c r1)).2 /\
                          depth_ (@record A e (set_context c r1)).2 = depth_ r) as Hr.
    { intros A e c. destruct (@record_keeps A e (set_context c r1)) as (? & ? & _).
      split; [by etrans; [apply (Hc c)|]|simpl in *; congruence]. }
    repeat (split_if || case_match); intros Hret; try done; injection Hret as Hret;
      try (rewrite <-Hret); try apply Hr; simplify_eq/=; try (split; [apply Hc|done]).
  - split; [by constructor|done].
Qed.

Lemma for_each_uint_ok (visit : S -> string -> Z -> Result unit * S) (I : nat -> S -> Prop)
    key max s r out :
  (forall k s t v s', I k s -> visit s t v = (Success tt, s') -> I (1 + k)%nat s') ->
  I 0%nat s -> for_each_uint_in_map key max visit s r = Some out ->
  walk_ok (fun s' => exists n, (n <= max)%nat /\ I n s') r out.
Proof.
  intros HI H0. unfold for_each_uint_in_map.
  destruct (error_ r) as [e|]; [intros [= <-]; by split_and!|].
  split_if; [intros [= <-]; auto|]. split_if; [intros [= <-]; auto|].
  destruct (find_entry key r) as [[o r1]|] eqn:Ef; [|done].
  apply find_entry_keeps in Ef as [Hk1 Hd1].
  destruct o as [found|e]; [|intros [= <-]; by split_and!].
  cbn zeta. set (r2 := set_context _ r1).
  assert (forall A Q (out : Result A * S * Reader), walk_ok Q r2 out -> walk_ok Q r out) as Hup.
  { intros A Q out0 (Hk & Hd & HQ). split_and!; [|simpl in *; congruence|done].
    etrans; [exact Hk1|]. etrans; [|exact Hk]. by constructor. }
  assert (forall Q e s, walk_ok Q r2 (let '(o, r) := @record bool (rebuilt e) r2 in (o, s, r))) as Hrec.
  { intros Q e s0. destruct (@record_keeps bool (rebuilt e) r2) as (Hk & Hd & x & Hx & _).
    destruct (record _ r2) as [o2 r3]. simpl in *. subst. by split_and!. }
  destruct found as [[first last]|].
  2: { intros [= <-]. apply Hup. split_and!; try done. intros _ _. exists 0%nat. split; [lia|done]. }
  split_if; [intros [= <-]; by apply Hup|].
  destruct (enter_labelled_map _) as [[[]|e] child].
  - destruct (uint_entries_ok visit I HI max 0 s child H0) as (_ & _ & Hn).
    destruct (uint_entries visit max s child) as [[o s'] child']. simpl in Hn. unfold status.
    destruct (error_ child') as [e|].
    + intros Heq. apply Hup. pose proof (Hrec (fun s' => exists n, (n <= max)%nat /\ I n s') e s') as Hw.
      destruct (record _ r2). by injection Heq as <-.
    + intros [= <-]. apply Hup. split_and!; try done.
      intros a (y & Ha & _)%result_bind_Success. destruct (Hn y Ha) as (n & ? & HIn).
      exists n. by rewrite Nat.add_0_r in HIn.
  - simpl. unfold status. destruct (error_ child) as [e'|].
    + intros Heq. apply Hup. pose proof (Hrec (fun s' => exists n, (n <= max)%nat /\ I n s') e' s) as Hw.
      destruct (record _ r2). by injection Heq as <-.
    + intros [= <-]. apply Hup. by split_and!.
Qed.

End walk_lemmas.

End reader.
