(* ===== verification/GroupCodecs.v ===== *)
(** * The management groups' decoders

    [src/groups/image/decode.cpp] and the decoders of [os_management.cpp],
    [settings_management.cpp] and [statistics_management.cpp]: what each group
    reads out of a response, over the façade of Cbor.v and any QCBOR under it.
    Every decoder is shown to give only values within the bounds the library
    documents, whatever bytes the device sent and whatever QCBOR makes of
    them. *)

From S2P Require Import Prelude Errors ImageValues UpdateTypes Minicbor Cbor.

(** [limits.hpp]. *)
Definition kMaxImages : nat := 16.
Definition kMaxSlotsPerImage : nat := 8.
Definition kMaxVersionStringLength : nat := 32.
Definition kMaxEchoLength : nat := 128.
Definition kMaxBootloaderNameLength : nat := 32.
Definition kMaxStatisticsNameLength : nat := 64.
Definition kMaxStatisticsGroups : nat := 128.
Definition kMaxStatisticsFields : nat := 256.
Definition kMaxSettingNameLength : nat := 64.
Definition kMaxSettingValueLength : nat := 256.

(** ** What the decoders give *)

(** [smply::SlotDescriptor]. *)
Record SlotDescriptor := mkSlotDescriptor {
  sd_slot : Z;
  sd_size : option Z;
  sd_upload_image_id : option Z;
  sd_open_error : option Z
}.

(** [smply::ImageSlotsInfo]. *)
Record ImageSlotsInfo := mkImageSlotsInfo {
  si_image : Z;
  si_slots : list SlotDescriptor;
  si_max_image_size : option Z
}.

(** [smply::SlotInfo]. *)
Record SlotInfo := mkSlotInfo { si_images : list ImageSlotsInfo }.

(** [smply::McumgrParameters]. *)
Record McumgrParameters := mkParameters { buf_size : Z; buf_count : Z }.

(** [smply::SettingValue]. *)
Record SettingValue := mkSettingValue { sv_value : bytes; sv_max_size : option Z }.

(** [smply::StatisticsField] and [smply::StatisticsGroup]. *)
Record StatisticsField := mkField { sf_name : string; sf_value : Z }.
Record StatisticsGroup := mkStatisticsGroup { sg_name : string; sg_fields : list StatisticsField }.

(** [StatisticsGroup::find]. *)
Definition find_field (name : string) (fields : list StatisticsField) : option StatisticsField :=
  List.find (fun f => bool_decide (sf_name f = name)) fields.

(** ** Narrowing *)

(** [narrow<std::uint32_t>], through [detail::checked_narrow]. *)
Definition narrow_u32 (value : Z) (where_ : string) : Result Z :=
  if (0 <=? value) && (value <? 2 ^ 32) then Success value else fail CborDecode where_.

(** [narrow<std::int32_t>]. *)
Definition narrow_i32 (value : Z) (where_ : string) : Result Z :=
  if (- 2 ^ 31 <=? value) && (value <? 2 ^ 31) then Success value else fail CborDecode where_.

(** An optional field, narrowed when it is there. *)
Definition narrow_opt (narrow : Z -> string -> Result Z) (value : option Z) (where_ : string)
  : Result (option Z) :=
  match value with
  | None => Success None
  | Some v => let? n := narrow v where_ in Success (Some n)
  end.

Definition i32 (z : Z) : Prop := - 2 ^ 31 <= z < 2 ^ 31.

Lemma narrow_u32_inv v w n : narrow_u32 v w = Success n -> n = v /\ u32 n.
Proof. unfold narrow_u32. split_if; [|done]. intros [= <-]. bool_to_prop. done. Qed.

Lemma narrow_i32_inv v w n : narrow_i32 v w = Success n -> n = v /\ i32 n.
Proof. unfold narrow_i32. split_if; [|done]. intros [= <-]. bool_to_prop. done. Qed.

Lemma narrow_opt_inv (P : Z -> Prop) narrow v w n :
  (forall v n, narrow v w = Success n -> n = v /\ P n) ->
  narrow_opt narrow v w = Success n -> n = v /\ from_option P True n.
Proof.
  intros Hn. unfold narrow_opt. destruct v as [v|]; [|by intros [= <-]].
  intros (m & Hm & [= <-])%result_bind_Success. apply Hn in Hm as [-> Hm]. done.
Qed.

Lemma narrow_opt_u32 v w n :
  narrow_opt narrow_u32 v w = Success n -> n = v /\ from_option (fits 32) True n.
Proof. apply narrow_opt_inv. intros v0 n0. apply narrow_u32_inv. Qed.

Lemma narrow_opt_i32 v w n :
  narrow_opt narrow_i32 v w = Success n -> n = v /\ from_option i32 True n.
Proof. apply narrow_opt_inv. intros v0 n0. apply narrow_i32_inv. Qed.

Section decoders.
Context `{QDecoder}.

(** ** The image group *)

(** [decode_slot], from the point where every field has been read and the
    reader's status checked. *)
Definition build_slot (image slot : option Z) (version : option string) (hash : option bytes)
    (bootable pending confirmed active permanent : option bool) : Result ImageSlot :=
  match slot, version with
  | None, _ => fail CborDecode "image: state entry has no slot"
  | Some _, None => fail CborDecode "image: state entry has no version"
  | Some slot, Some version =>
      if (kMaxVersionStringLength <? String.length version)%nat then
        fail CborDecode "image: version string too long"
      else
        let? image_number := narrow_u32 (default 0 image) "image: image number out of range" in
        let? slot_number := narrow_u32 slot "image: slot number out of range" in
        let? h := match hash with
                  | None => Success None
                  | Some l => let? h := ImageHash_from l in Success (Some h)
                  end in
        Success (mkSlot image_number slot_number version h (default false bootable)
                   (default false pending) (default false confirmed) (default false active)
                   (default false permanent))
  end.

(** [decode_slot]. *)
Definition decode_slot (r : Reader) : Result ImageSlot * Reader :=
  let '(image, r) := r_uint "image" r in
  let '(slot, r) := r_uint "slot" r in
  let '(version, r) := r_text "version" r in
  let '(hash, r) := r_bytes "hash" r in
  let '(bootable, r) := r_boolean "bootable" r in
  let '(pending, r) := r_boolean "pending" r in
  let '(confirmed, r) := r_boolean "confirmed" r in
  let '(active, r) := r_boolean "active" r in
  let '(permanent, r) := r_boolean "permanent" r in
  (let? _ := status r in
   build_slot image slot version hash bootable pending confirmed active permanent, r).

(** [decode_slot_descriptor]. *)
Definition decode_slot_descriptor (r : Reader) : Result SlotDescriptor * Reader :=
  let '(slot, r) := r_uint "slot" r in
  let '(size, r) := r_uint "size" r in
  let '(upload_image_id, r) := r_uint "upload_image_id" r in
  let '(open_error, r) := r_integer "rc" r in
  (let? _ := status r in
   match slot with
   | None => fail CborDecode "image: slot-info entry has no slot"
   | Some slot =>
       let? slot := narrow_u32 slot "image: slot number out of range" in
       let? size := narrow_opt narrow_u32 size "image: slot size out of range" in
       let? id := narrow_opt narrow_u32 upload_image_id "image: upload image id out of range" in
       let? rc := narrow_opt narrow_i32 open_error "image: slot rc out of range" in
       Success (mkSlotDescriptor slot size id rc)
   end, r).

(** A visitor that decodes an element and appends it to what it collects. *)
Definition collect {A} (decode : Reader -> Result A * Reader) : visitor (list A) :=
  fun acc r =>
    match decode r with
    | (Success a, r) => (Success tt, acc ++ [a], r)
    | (Fail e, r) => (Fail e, acc, r)
    end.

(** [decode_slots_image]. *)
Definition decode_slots_image (r : Reader) : Result ImageSlotsInfo * Reader :=
  let '(image, r) := r_uint "image" r in
  let '(max_image_size, r) := r_uint "max_image_size" r in
  match (let? _ := status r in
         let? image := narrow_u32 (default 0 image) "image: image number out of range" in
         let? max := narrow_opt narrow_u32 max_image_size "image: max image size out of range" in
         Success (image, max)) with
  | Fail e => (Fail e, r)
  | Success (image, max) =>
      let '(walked, slots, r) :=
        for_each_map_in_array "slots" kMaxSlotsPerImage (collect decode_slot_descriptor) [] r in
      (let? _ := walked in Success (mkImageSlotsInfo image slots max), r)
  end.

(** [decode_state]. *)
Definition decode_state (r : Reader) : Result ImageState * Reader :=
  let '(walked, slots, r) := for_each_map_in_array "images" kMaxImages (collect decode_slot) [] r in
  match walked with
  | Fail e => (Fail e, r)
  | Success _ =>
      let '(split, r) := r_integer "splitStatus" r in
      let '(_, r) := leave_map r in
      (let? _ := status r in
       let? split := narrow_opt narrow_i32 split "image: splitStatus out of range" in
       Success (mkImageState slots split), r)
  end.

(** [decode_slot_info]. *)
Definition decode_slot_info (r : Reader) : Result SlotInfo * Reader :=
  let '(walked, images, r) :=
    for_each_map_in_array "images" kMaxImages (collect decode_slots_image) [] r in
  match walked with
  | Fail e => (Fail e, r)
  | Success _ =>
      let '(_, r) := leave_map r in
      (let? _ := status r in Success (mkSlotInfo images), r)
  end.

(** ** The OS group *)

(** [decode_parameters]. *)
Definition decode_parameters (r : Reader) : Result McumgrParameters * Reader :=
  let '(size, r) := r_uint "buf_size" r in
  let '(count, r) := r_uint "buf_count" r in
  let '(_, r) := leave_map r in
  (let? _ := status r in
   match size, count with
   | Some size, Some count =>
       let? size := narrow_u32 size "os: parameters out of range" in
       let? count := narrow_u32 count "os: parameters out of range" in
       Success (mkParameters size count)
   | _, _ => fail CborDecode "os: parameters incomplete"
   end, r).

(** [decode_echo] and [decode_bootloader_name] read one bounded text. *)
Definition decode_text (key : string) (limit : nat) (absent too_long : string) (r : Reader)
  : Result string * Reader :=
  let '(text, r) := r_text key r in
  let '(_, r) := leave_map r in
  (let? _ := status r in
   match text with
   | None => fail CborDecode absent
   | Some t => if (limit <? String.length t)%nat then fail CborDecode too_long else Success t
   end, r).

Definition decode_echo : Reader -> Result string * Reader :=
  decode_text "r" kMaxEchoLength "os: echo reply has no text" "os: echo reply too long".

Definition decode_bootloader_name : Reader -> Result string * Reader :=
  decode_text "bootloader" kMaxBootloaderNameLength "os: bootloader info has no name"
    "os: bootloader name too long".

(** [mode_from]: the enumerators are numbered from [SingleSlot] at zero. *)
Definition mode_from (raw : Z) : McubootMode :=
  if (raw <? 0) || (9 <? raw) then M_Unknown
  else
    nth (Z.to_nat raw)
      [M_SingleSlot; M_SwapUsingScratch; M_UpgradeOnly; M_SwapUsingMove; M_DirectXip;
       M_DirectXipWithRevert; M_RamLoad; M_FirmwareLoader; M_SingleSlotRamLoad;
       M_SwapUsingOffset] M_Unknown.

(** [decode_bootloader_mode]. *)
Definition decode_bootloader_mode (r : Reader) : Result BootloaderMode * Reader :=
  let '(mode, r) := r_integer "mode" r in
  let '(no_downgrade, r) := r_boolean "no-downgrade" r in
  let '(_, r) := leave_map r in
  (let? _ := status r in
   match mode with
   | None => fail CborDecode "os: bootloader info has no mode"
   | Some m => Success (mkBootloaderMode (mode_from m) m (default false no_downgrade))
   end, r).

(** ** Settings *)

(** [decode_value]. *)
Definition decode_value (limit : nat) (r : Reader) : Result SettingValue * Reader :=
  let '(value, r) := r_bytes "val" r in
  let '(max_size, r) := r_uint "max_size" r in
  let '(_, r) := leave_map r in
  (let? _ := status r in
   match value with
   | None => fail CborDecode "settings: read reply has no value"
   | Some value =>
       if (limit <? length value)%nat then fail CborDecode "settings: value too long"
       else
         let? max := narrow_opt narrow_u32 max_size "settings: max_size out of range" in
         Success (mkSettingValue value max)
   end, r).

(** ** Statistics *)

(** The visitor of [decode_list]. *)
Definition visit_name (names : list string) (name : string) : Result unit * list string :=
  if (kMaxStatisticsNameLength <? String.length name)%nat
  then (fail CborDecode "stat: group name too long", names)
  else (Success tt, names ++ [name]).

(** [decode_list]. *)
Definition decode_list (r : Reader) : Result (list string) * Reader :=
  let '(present, names, r) :=
    for_each_text_in_array "stat_list" kMaxStatisticsGroups visit_name [] r in
  let '(_, r) := leave_map r in
  (let? _ := status r in
   let? present := present in
   if present : bool then Success names else fail CborDecode "stat: list has no stat_list", r).

(** The visitor of [decode_group]. *)
Definition visit_field (fields : list StatisticsField) (field : string) (value : Z)
  : Result unit * list StatisticsField :=
  if (kMaxStatisticsNameLength <? String.length field)%nat
  then (fail CborDecode "stat: field name too long", fields)
  else
    match find_field field fields with
    | Some _ => (fail CborDecode "stat: duplicate field name", fields)
    | None => (Success tt, fields ++ [mkField field value])
    end.

(** [decode_group]. *)
Definition decode_group (r : Reader) : option (Result StatisticsGroup * Reader) :=
  let '(name, r) := r_text "name" r in
  match for_each_uint_in_map "fields" kMaxStatisticsFields visit_field [] r with
  | None => None
  | Some (present, fields, r) =>
      let '(_, r) := leave_map r in
      Some (let? _ := status r in
            let? present := present in
            match name with
            | Some name =>
                if negb present then fail CborDecode "stat: group data incomplete"
                else if (kMaxStatisticsNameLength <? String.length name)%nat
                then fail CborDecode "stat: group name too long"
                else Success (mkStatisticsGroup name fields)
            | None => fail CborDecode "stat: group data incomplete"
            end, r)
  end.

(** ** What a decoder can give *)

(** An [ImageSlot] within its types and bounds. *)
Definition slot_ok (s : ImageSlot) : Prop :=
  u32 (sl_image s) /\ u32 (sl_slot s) /\
  (String.length (sl_version s) <= kMaxVersionStringLength)%nat /\
  from_option (fun h => 0 < length h <= kMaxImageHashLength)%nat True (sl_hash s).

Definition image_state_ok (st : ImageState) : Prop :=
  (length (slots st) <= kMaxImages)%nat /\ Forall slot_ok (slots st) /\
  from_option i32 True (split_status st).

Definition slot_descriptor_ok (d : SlotDescriptor) : Prop :=
  u32 (sd_slot d) /\ from_option (fits 32) True (sd_size d) /\
  from_option (fits 32) True (sd_upload_image_id d) /\ from_option i32 True (sd_open_error d).

Definition slots_info_ok (i : ImageSlotsInfo) : Prop :=
  u32 (si_image i) /\ from_option (fits 32) True (si_max_image_size i) /\
  (length (si_slots i) <= kMaxSlotsPerImage)%nat /\ Forall slot_descriptor_ok (si_slots i).

(** A successful status means no failure was recorded. *)
Lemma status_Success r (u : unit) : status r = Success u -> error_ r = None.
Proof. unfold status. by destruct (error_ r). Qed.

(** A walk that collects decoded elements collects only what the decoder can
    give, and no more than the cap. *)
Lemma collect_ok {A} (decode : Reader -> Result A * Reader) (P : A -> Prop) key max r o l r' :
  (forall r a r', decode r = (Success a, r') -> P a) ->
  for_each_map_in_array key max (collect decode) [] r = (Success o, l, r') ->
  (length l <= max)%nat /\ Forall P l.
Proof.
  intros HP E.
  destruct (for_each_map_ok (collect decode) (fun k l => length l = k /\ Forall P l) key max [] r)
    as (_ & _ & Hn); [|done|].
  - intros k acc el acc' el' [<- Hacc]. unfold collect. destruct (decode el) as [[a|e] el1] eqn:Ed; [|done].
    intros [= <- <-] _. rewrite length_app. simpl. split; [lia|].
    apply Forall_app. split; [done|]. constructor; [|done]. by eapply HP.
  - rewrite E in Hn. destruct (Hn o eq_refl) as (n & Hle & <- & Hl). done.
Qed.

(** Inverts a decoder that reads its fields and then builds its value. *)
Ltac decoder_inv :=
  repeat match goal with
  | |- context [lookup_key ?g ?k ?r] => destruct (lookup_key g k r) as [? ?]
  | |- context [leave_map ?r] => destruct (leave_map r) as [? ?]
  end;
  cbn zeta beta iota;
  repeat match goal with
  | H : _ /\ _ |- _ => destruct H
  | |- (result_bind _ _, _) = (Success _, _) -> _ => intros [= (? & ? & ?)%result_bind_Success <-]
  | H : result_bind _ _ = Success _ |- _ => apply result_bind_Success in H as (? & ? & ?)
  | H : match ?o with _ => _ end = Success _ |- _ => destruct o eqn:?; try done
  | H : (if ?b then _ else _) = Success _ |- _ => destruct b eqn:?; try done
  | H : narrow_u32 _ _ = Success _ |- _ => apply narrow_u32_inv in H as [-> ?]
  | H : narrow_i32 _ _ = Success _ |- _ => apply narrow_i32_inv in H as [-> ?]
  | H : narrow_opt narrow_u32 _ _ = Success _ |- _ =>
      apply narrow_opt_u32 in H as [-> ?]
  | H : narrow_opt narrow_i32 _ _ = Success _ |- _ =>
      apply narrow_opt_i32 in H as [-> ?]
  | H : status _ = Success _ |- _ => apply status_Success in H
  end;
  simplify_eq; bool_to_prop; simpl.

Lemma hash_from_ok l h : ImageHash_from l = Success h -> (0 < length h <= kMaxImageHashLength)%nat.
Proof.
  unfold ImageHash_from. split_if; [done|]. split_if; [done|]. intros [= <-]. bool_to_prop.
  match goal with H : (_ <? _)%nat = false |- _ => apply Nat.ltb_ge in H end.
  destruct l; [done|]. simpl in *. lia.
Qed.

Lemma decode_slot_ok r s r' : decode_slot r = (Success s, r') -> slot_ok s.
Proof.
  unfold decode_slot, r_uint, r_text, r_bytes, r_boolean, build_slot. decoder_inv;
    match goal with H : (_ <? _)%nat = false |- _ => apply Nat.ltb_ge in H end; split_and!; try done.
  by eapply hash_from_ok.
Qed.

Lemma decode_slot_descriptor_ok r d r' :
  decode_slot_descriptor r = (Success d, r') -> slot_descriptor_ok d.
Proof. unfold decode_slot_descriptor, r_uint, r_integer. decoder_inv. by split_and!. Qed.

Lemma decode_slots_image_ok r i r' :
  decode_slots_image r = (Success i, r') -> slots_info_ok i.
Proof.
  unfold decode_slots_image, r_uint.
  destruct (lookup_key _ "image" r) as [image r1].
  destruct (lookup_key _ "max_image_size" r1) as [max r2].
  destruct (result_bind (status r2) _) as [[im mx]|e] eqn:Eb; [|done]. revert Eb. intros Eb.
  destruct (for_each_map_in_array _ _ _ _ _) as [[walked l] r3] eqn:Ew.
  destruct walked as [[]|e]; [|done]. cbn. intros [= <- <-].
  apply (collect_ok _ slot_descriptor_ok) in Ew as [Hl Hf]; [|apply decode_slot_descriptor_ok].
  revert Eb. intros (? & _ & Eb)%result_bind_Success. revert Eb.
  intros (? & [-> ?]%narrow_u32_inv & Eb)%result_bind_Success. revert Eb.
  intros (? & Hm & [= <- <-])%result_bind_Success.
  apply narrow_opt_u32 in Hm as [-> ?]. by split_and!.
Qed.

Lemma decode_state_ok r st r' :
  decode_state r = (Success st, r') -> image_state_ok st /\ error_ r' = None.
Proof.
  unfold decode_state, r_integer.
  destruct (for_each_map_in_array _ _ _ _ _) as [[walked l] r1] eqn:Ew.
  destruct walked as [u|e]; [|done].
  apply (collect_ok _ slot_ok) in Ew as [Hl Hf]; [|apply decode_slot_ok].
  decoder_inv. by split_and!.
Qed.

Lemma decode_slot_info_ok r info r' :
  decode_slot_info r = (Success info, r') ->
  (length (si_images info) <= kMaxImages)%nat /\ Forall slots_info_ok (si_images info) /\
  error_ r' = None.
Proof.
  unfold decode_slot_info.
  destruct (for_each_map_in_array _ _ _ _ _) as [[walked l] r1] eqn:Ew.
  destruct walked as [u|e]; [|done].
  apply (collect_ok _ slots_info_ok) in Ew as [Hl Hf]; [|apply decode_slots_image_ok].
  decoder_inv. by split_and!.
Qed.

Lemma decode_value_ok limit r v r' :
  decode_value limit r = (Success v, r') ->
  (length (sv_value v) <= limit)%nat /\ from_option (fits 32) True (sv_max_size v).
Proof.
  unfold decode_value, r_bytes, r_uint. decoder_inv.
  match goal with H : (_ <? _)%nat = false |- _ => apply Nat.ltb_ge in H end. by split_and!.
Qed.

Definition fields_ok (fields : list StatisticsField) : Prop :=
  Forall (fun f => String.length (sf_name f) <= kMaxStatisticsNameLength)%nat fields /\
  NoDup (sf_name <$> fields).

Lemma find_field_None name fields : find_field name fields = None -> name ∉ sf_name <$> fields.
Proof.
  unfold find_field. intros Hf (f & Hn & Hin)%list_elem_of_fmap.
  apply list_elem_of_In in Hin. pose proof (find_none _ _ Hf f Hin) as Hb. simpl in Hb.
  by apply bool_decide_eq_false in Hb.
Qed.

Lemma visit_field_ok fields name value fields' u :
  fields_ok fields -> visit_field fields name value = (Success u, fields') ->
  fields_ok fields' /\ length fields' = S (length fields).
Proof.
  intros [Hl Hd]. unfold visit_field. split_if; [done|].
  destruct (find_field name fields) eqn:Ef; [done|]. intros [= <- <-].
  apply Nat.ltb_ge in Heqb. apply find_field_None in Ef.
  split; [split|rewrite length_app; simpl; lia].
  - apply Forall_app. by split; [|constructor].
  - rewrite fmap_app. apply NoDup_app. split_and!; [done| |apply NoDup_singleton].
    intros x Hx ->%list_elem_of_singleton. done.
Qed.

Lemma decode_group_ok r g r' :
  decode_group r = Some (Success g, r') ->
  (String.length (sg_name g) <= kMaxStatisticsNameLength)%nat /\
  (length (sg_fields g) <= kMaxStatisticsFields)%nat /\ fields_ok (sg_fields g) /\ error_ r' = None.
Proof.
  unfold decode_group, r_text. destruct (lookup_key _ "name" r) as [name r1].
  destruct (for_each_uint_in_map _ _ _ _ _) as [[[present fields] r2]|] eqn:Ew; [|done].
  apply (for_each_uint_ok visit_field (fun k l => length l = k /\ fields_ok l)) in Ew as (_ & _ & Hn);
    [|intros k s t v s' [<- Hs] Hv; by destruct (visit_field_ok _ _ _ _ _ Hs Hv)
     |split; [done|]; split; constructor].
  simpl in Hn.
  destruct (leave_map r2) as [? r3]. intros [= (u & ? & Hb)%result_bind_Success <-].
  apply result_bind_Success in Hb as (p & -> & Hb). destruct name as [name|]; [|done].
  destruct p; [|done]. simpl in Hb. revert Hb. split_if; [done|]. intros [= <-]. simpl.
  apply Nat.ltb_ge in Heqb. destruct (Hn true eq_refl) as (n & Hle & <- & Hf).
  split_and!; try done; try apply Hf. by eapply status_Success.
Qed.

Lemma decode_list_ok r l r' :
  decode_list r = (Success l, r') ->
  (length l <= kMaxStatisticsGroups)%nat /\
  Forall (fun n => String.length n <= kMaxStatisticsNameLength)%nat l /\ error_ r' = None.
Proof.
  unfold decode_list. destruct (for_each_text_in_array _ _ _ _ _) as [[present names] r2] eqn:Ew.
  destruct (for_each_text_ok visit_name
     (fun k l => length l = k /\ Forall (fun n => String.length n <= kMaxStatisticsNameLength)%nat l)
     "stat_list" kMaxStatisticsGroups [] r) as (_ & _ & Hn); [|done|].
  { intros k s t s' [<- Hs]. unfold visit_name. split_if; [done|]. intros [= <-].
    apply Nat.ltb_ge in Heqb. rewrite length_app. simpl. split; [lia|].
    apply Forall_app. by split; [|constructor]. }
  rewrite Ew in Hn. simpl in Hn.
  destruct (leave_map r2) as [? r3]. intros [= (u & ? & Hb)%result_bind_Success <-].
  apply result_bind_Success in Hb as (p & -> & Hb). destruct p; [|done]. injection Hb as <-.
  destruct (Hn true eq_refl) as (n & Hle & <- & Hf). split_and!; try done. by eapply status_Success.
Qed.

End decoders.
