(* ===== verification/CborLaws.v ===== *)
(** * QCBOR's documented behaviour, and the façade on top of it

    The laws of the two type classes of Cbor.v, for documents in the subset
    Minicbor.v gives a meaning to: definite lengths, text keys, no repeated key.
    They state what QCBOR's documentation says of the calls the façade makes.
    QcborModel.v gives an instance that satisfies them. From them, the façade's
    lookups, walks and error extraction are functions of the document's
    value. *)

From S2P Require Import Prelude Errors Client Minicbor Cbor.

(** ** Lookups on a value *)

(** A field of a map, read as a type: absent, there with the type, or there with
    another one ([None]). *)
Definition field {A} (sem : Value -> option A) (key : string) (es : list Value) : option (option A) :=
  match find_loop key es with
  | None => Some None
  | Some v => match sem v with Some a => Some (Some a) | None => None end
  end.

Definition as_uint (v : Value) : option Z := match v with Uint n => Some n | _ => None end.
Definition as_int (v : Value) : option Z :=
  match v with
  | Uint n => if n <? 2 ^ 63 then Some n else None
  | Nint z => Some z
  | _ => None
  end.
Definition as_bool (v : Value) : option bool := match v with Bool b => Some b | _ => None end.
Definition as_text (v : Value) : option string := match v with Text t => Some t | _ => None end.
Definition as_bytes (v : Value) : option bytes := match v with Bytes b => Some b | _ => None end.

(** What [PeekNext] says of an item. *)
Definition data_of (v : Value) : QData :=
  match v with
  | Uint n => if n <? 2 ^ 63 then QInt64 n else QUint64 n
  | Nint z => QInt64 z
  | Text t => QTextString t
  | Map _ => QMapItem
  | _ => QOtherItem
  end.

(** The keys of a map, and the maps whose keys differ from each other. *)
Fixpoint map_keys (es : list Value) : list string :=
  match es with
  | Text k :: _ :: rest => k :: map_keys rest
  | _ => []
  end.

(** A key the façade can pass to QCBOR's C-string interface unchanged. *)
Definition plain_key (key : string) : Prop :=
  (String.length key <= kMaxKeyLength)%nat /\ c_str key = key.

(** ** The laws *)

(** A getter looks the label up, converts, and leaves the context where it was
    once its error has been taken. *)
Definition get_law `{QDecoder} (at_maps : bytes -> list (list Value) -> ctx -> Prop)
    {A} (get : string -> ctx -> A * ctx) (sem : Value -> option A) : Prop :=
  forall input es st c key,
    at_maps input (es :: st) c -> NoDup (map_keys es) ->
    let '(v, c1) := get key c in
    let '(e, c2) := GetAndResetError c1 in
    at_maps input (es :: st) c2 /\
    match field sem key es with
    | Some (Some a) => v = a /\ e = QCBOR_SUCCESS
    | Some None => e = QCBOR_ERR_LABEL_NOT_FOUND
    | None => e <> QCBOR_SUCCESS /\ e <> QCBOR_ERR_LABEL_NOT_FOUND /\ e <> QCBOR_ERR_NO_MORE_ITEMS
    end.

Class QDecoderLaws `{QDecoder} := {
  (** The context is over the document [input], inside the maps of the stack
      (innermost first), with no error pending. *)
  at_maps : bytes -> list (list Value) -> ctx -> Prop;
  (** Inside an array of the innermost map, with these elements to come. *)
  at_array : bytes -> list Value -> list (list Value) -> ctx -> Prop;

  law_enter : forall input es,
    parse input = Some (Map es) ->
    GetError (EnterMap (Decode_Init input)) = QCBOR_SUCCESS /\
    at_maps input [es] (EnterMap (Decode_Init input));

  law_uint : get_law at_maps GetUInt64InMapSZ as_uint;
  law_int : get_law at_maps GetInt64InMapSZ as_int;
  law_bool : get_law at_maps GetBoolInMapSZ as_bool;
  law_text : get_law at_maps GetTextStringInMapSZ as_text;
  law_bytes : get_law at_maps GetByteStringInMapSZ as_bytes;

  law_enter_key : forall input es st c key,
    at_maps input (es :: st) c -> NoDup (map_keys es) ->
    let c1 := EnterMapFromMapSZ key c in
    match find_loop key es with
    | Some (Map ee) => GetError c1 = QCBOR_SUCCESS /\ at_maps input (ee :: es :: st) c1
    | _ => GetError c1 <> QCBOR_SUCCESS /\ at_maps input (es :: st) (GetAndResetError c1).2
    end;
  law_exit : forall input ee st c,
    at_maps input (ee :: st) c ->
    GetError (ExitMap c) = QCBOR_SUCCESS /\ (st <> [] -> at_maps input st (ExitMap c));

  law_enter_array : forall input es st c key,
    at_maps input (es :: st) c -> NoDup (map_keys es) ->
    let '(e, c1) := GetAndResetError (EnterArrayFromMapSZ key c) in
    match find_loop key es with
    | Some (Array vs) => e = QCBOR_SUCCESS /\ at_array input vs (es :: st) c1
    | None => e = QCBOR_ERR_LABEL_NOT_FOUND /\ at_maps input (es :: st) c1
    | _ => e <> QCBOR_SUCCESS /\ e <> QCBOR_ERR_LABEL_NOT_FOUND /\ at_maps input (es :: st) c1
    end;
  law_exit_array : forall input vs st c,
    at_array input vs st c -> at_maps input st (GetAndResetError (ExitArray c)).2;
  law_peek : forall input vs st c,
    at_array input vs st c ->
    let '(e, item, c1) := PeekNext c in
    at_array input vs st c1 /\
    match vs with
    | [] => e = QCBOR_ERR_NO_MORE_ITEMS
    | v :: _ => e = QCBOR_SUCCESS /\ uData item = data_of v
    end;
  (** Consuming an element moves the cursor over exactly its encoding. *)
  law_consume : forall input v vs st c,
    at_array input (v :: vs) st c ->
    let '(_, c1) := VGetNextConsume c in
    let '(e, c2) := GetAndResetError c1 in
    e = QCBOR_SUCCESS /\ at_array input vs st c2 /\
    (Tell c <= Tell c2 <= length input)%nat /\ parse (subspan (Tell c) (Tell c2) input) = Some v
}.

Lemma no_failure (e : QCBORError) : e = QCBOR_SUCCESS -> bool_decide (e <> QCBOR_SUCCESS) = false.
Proof. intros ->. by rewrite bool_decide_eq_false_2 by (intros Hn; by apply Hn). Qed.

Section facade.
Context `{QDecoderLaws}.

Definition decode_failed : Error := cbor_error "cbor reader: decode failed".

(** A reader inside the maps of a stack, nothing failed. *)
Record reading (input : bytes) (st : list (list Value)) (r : Reader) : Prop := {
  rd_error : error_ r = None;
  rd_input : input_ r = input;
  rd_maps : at_maps input st (context_ r);
  rd_depth : depth_ r = zlen st;
  rd_max : max_nesting_ r <= kMaxCborNesting
}.

(** A reader whose first failure is [e]. *)
Definition poisoned (e : Error) (r : Reader) : Prop := error_ r = Some e.

Lemma label_plain key r : plain_key key -> label key r = (Some key, r).
Proof.
  intros [Hl Hc]. unfold label. rewrite (proj2 (Nat.ltb_ge _ _) Hl). by rewrite Hc.
Qed.

(** A lookup is the field of the value: absence is not a failure, a wrong type
    is, and it sticks. *)
Lemma lookup_spec {A} (get : string -> ctx -> A * ctx) sem input es st r key :
  get_law at_maps get sem -> reading input (es :: st) r -> NoDup (map_keys es) -> plain_key key ->
  exists r', max_nesting_ r' = max_nesting_ r /\
  match field sem key es with
  | Some o => lookup_key get key r = (o, r') /\ reading input (es :: st) r'
  | None => lookup_key get key r = (None, r') /\ poisoned decode_failed r'
  end.
Proof.
  intros Hlaw [He Hi Hm Hd Hx] Hk Hp. unfold lookup_key. rewrite He, label_plain by done.
  specialize (Hlaw input es st (context_ r) key Hm Hk).
  destruct (get key (context_ r)) as [v c1]. unfold consume_lookup. simpl.
  destruct (GetAndResetError c1) as [e c2]. destruct Hlaw as [Hat Hf].
  destruct (field sem key es) as [[a|]|].
  - destruct Hf as [-> ->]. eexists. split; [|split; [reflexivity|by constructor]]. done.
  - rewrite Hf. eexists. split; [|split; [reflexivity|by constructor]]. done.
  - destruct Hf as (H1 & H2 & H3). destruct e; try done.
    eexists. split; [|split; [reflexivity|]]; unfold poisoned, record; simpl; by rewrite He.
Qed.

Lemma lookup_poisoned {A} (get : string -> ctx -> A * ctx) key e r :
  poisoned e r -> lookup_key get key r = (None, r).
Proof. unfold poisoned, lookup_key. by intros ->. Qed.

Lemma leave_poisoned e r : poisoned e r -> poisoned e (leave_map r).2.
Proof. intros He. destruct (leave_map_ok r) as [[_ _ Hk] _]. by apply Hk. Qed.

Lemma enter_spec input es m :
  parse input = Some (Map es) -> 0 < m <= kMaxCborNesting ->
  exists r, enter_map (new_reader input m) = (Success tt, r) /\ reading input [es] r /\
            max_nesting_ r = m.
Proof.
  intros Hp Hm. destruct (law_enter input es Hp) as [He Ha]. unfold enter_map, new_reader. simpl.
  rewrite (proj2 (Z.leb_gt m 0)) by lia. rewrite no_failure by done.
  eexists. split; [reflexivity|]. split; [|done]. constructor; simpl; done || lia.
Qed.

Lemma enter_key_spec input es st r key :
  reading input (es :: st) r -> NoDup (map_keys es) -> plain_key key -> depth_ r < max_nesting_ r ->
  match find_loop key es with
  | Some (Map ee) => exists r', enter_map_key key r = (Success tt, r') /\ reading input (ee :: es :: st) r'
                       /\ max_nesting_ r' = max_nesting_ r
  | _ => exists e r', enter_map_key key r = (Fail e, r') /\ reading input (es :: st) r'
                       /\ max_nesting_ r' = max_nesting_ r
  end.
Proof.
  intros [He Hi Hm Hd Hx] Hk Hp Hlt. unfold enter_map_key.
  rewrite He, (proj2 (Z.leb_gt _ _) Hlt), label_plain by done. simpl.
  pose proof (law_enter_key input es st (context_ r) key Hm Hk) as Hlaw. simpl in Hlaw.
  destruct (find_loop key es) as [v|];
    [destruct v|]; try (destruct Hlaw as [H1 H2];
      rewrite bool_decide_eq_true_2 by done; eexists _, _; split; [reflexivity|];
      split; [by constructor|done]).
  destruct Hlaw as [H1 H2]. rewrite no_failure by done.
  eexists. split; [reflexivity|]. split; [|done].
  constructor; simpl; try done. rewrite Hd. cbn [length]. lia.
Qed.

Lemma leave_spec input ee st r :
  reading input (ee :: st) r ->
  exists r', leave_map r = (Success tt, r') /\ error_ r' = None /\
             (st <> [] -> reading input st r') /\ max_nesting_ r' = max_nesting_ r.
Proof.
  intros [He Hi Hm Hd Hx]. unfold leave_map. cbn [length] in Hd.
  rewrite (proj2 (Z.eqb_neq _ 0)) by lia. simpl.
  destruct (law_exit input ee st (context_ r) Hm) as [H1 H2].
  rewrite no_failure by done.
  eexists. split; [reflexivity|]. split_and!; try done.
  intros Hst. constructor; simpl; try done; [auto|lia].
Qed.

(** ** The error report of a response *)

Lemma plain_err : plain_key "err". Proof. by split; [vm_compute; lia|]. Qed.
Lemma plain_group : plain_key "group". Proof. by split; [vm_compute; lia|]. Qed.
Lemma plain_rc : plain_key "rc". Proof. by split; [vm_compute; lia|]. Qed.
Lemma plain_rsn : plain_key "rsn". Proof. by split; [vm_compute; lia|]. Qed.

(** What an [err] map says: [Some None] is no error. *)
Definition scoped_spec (es : list Value) : option (option MgmtError) :=
  match find_loop "err" es with
  | Some (Map ee) =>
      match field as_uint "group" ee, field as_uint "rc" ee with
      | Some group, Some rc =>
          Some (match rc with
                | Some rc => if rc =? 0 then None
                             else Some (MgmtError_scoped (wrap 16 (default 0 group)) (wrap 16 rc))
                | None => None
                end)
      | _, _ => None
      end
  | _ => Some None
  end.

Definition flat_spec (es : list Value) : option (option MgmtError) :=
  match field as_int "rc" es with
  | Some (Some rc) => Some (if rc =? 0 then None else Some (MgmtError_smp (wrap 16 rc)))
  | Some None => Some None
  | None => None
  end.

(** The report of a response whose top-level map is [es]; [None] when a field
    that is read has the wrong type. *)
Definition mgmt_spec (es : list Value) : option MgmtOutcome :=
  match scoped_spec es with
  | None => None
  | Some scoped =>
      match (match scoped with Some m => Some (Some m) | None => flat_spec es end),
            field as_text "rsn" es with
      | Some error, Some reason =>
          Some (mkOutcome error (match reason with
                                 | Some t => String.substring 0 kMaxReasonLength t
                                 | None => EmptyString
                                 end))
      | _, _ => None
      end
  end.

(** The keys of the document and of its [err] map are not repeated. *)
Definition report_keys (es : list Value) : Prop :=
  NoDup (map_keys es) /\
  match find_loop "err" es with Some (Map ee) => NoDup (map_keys ee) | _ => True end.

Lemma read_group_scoped_spec input es r :
  reading input [es] r -> report_keys es -> 1 < max_nesting_ r ->
  exists r', match scoped_spec es with
  | Some o => read_group_scoped r = (o, r') /\ reading input [es] r'
  | None => read_group_scoped r = (None, r') /\ poisoned decode_failed r'
  end.
Proof.
  intros Hr [Hk Hke] Hx. unfold read_group_scoped, scoped_spec.
  pose proof (enter_key_spec _ _ _ _ _ Hr Hk plain_err ltac:(rewrite (rd_depth _ _ _ Hr); simpl; lia)) as He.
  destruct (find_loop "err" es) as [v|]; [destruct v as [| | | | | |ee]|];
    try (destruct He as (e & r1 & -> & Hr1 & _); by exists r1).
  destruct He as (r1 & -> & Hr1 & Hm1).
  destruct (lookup_spec _ _ _ _ _ _ "group" law_uint Hr1 Hke plain_group) as (r2 & Hm2 & Hg).
  unfold r_uint. destruct (field as_uint "group" ee) as [group|].
  - destruct Hg as [-> Hr2].
    destruct (lookup_spec _ _ _ _ _ _ "rc" law_uint Hr2 Hke plain_rc) as (r3 & Hm3 & Hc).
    destruct (field as_uint "rc" ee) as [rc|].
    + destruct Hc as [-> Hr3]. destruct (leave_spec _ _ _ _ Hr3) as (r4 & -> & _ & Hr4 & _).
      exists r4. destruct rc as [rc|]; [|by auto]. by destruct (rc =? 0); auto.
    + destruct Hc as [-> Hp]. apply leave_poisoned in Hp. destruct (leave_map r3) as [? r4].
      by exists r4.
  - destruct Hg as [-> Hp]. rewrite (lookup_poisoned _ _ _ _ Hp). apply leave_poisoned in Hp.
    destruct (leave_map r2) as [? r3]. by exists r3.
Qed.

Lemma report_reason_poisoned e error r : poisoned e r -> report_reason error r = Fail e.
Proof.
  intros He. unfold report_reason, r_text. rewrite (lookup_poisoned _ _ _ _ He).
  unfold status. by rewrite He.
Qed.

Lemma report_reason_spec input es error r :
  reading input [es] r -> NoDup (map_keys es) ->
  report_reason error r =
    match field as_text "rsn" es with
    | Some t => Success (mkOutcome error (match t with
                                          | Some t => String.substring 0 kMaxReasonLength t
                                          | None => EmptyString
                                          end))
    | None => Fail decode_failed
    end.
Proof.
  intros Hr Hk. unfold report_reason, r_text.
  destruct (lookup_spec _ _ _ _ _ _ "rsn" law_text Hr Hk plain_rsn) as (r2 & _ & Ht).
  unfold status. destruct (field as_text "rsn" es) as [t|]; destruct Ht as [-> Hr2].
  - by rewrite (rd_error _ _ _ Hr2).
  - by rewrite Hr2.
Qed.

Lemma extract_spec payload es :
  parse payload = Some (Map es) -> report_keys es ->
  extract_mgmt_error payload =
    match mgmt_spec es with Some o => Success o | None => Fail decode_failed end.
Proof.
  intros Hp [Hk Hke]. unfold extract_mgmt_error, mgmt_spec, flat_spec, r_integer.
  destruct (enter_spec payload es kMaxCborNesting Hp ltac:(by split)) as (r & -> & Hr & Hm).
  cbn [result_bind].
  destruct (read_group_scoped_spec _ _ _ Hr (conj Hk Hke) ltac:(by rewrite Hm)) as (r1 & Hs).
  destruct (scoped_spec es) as [[m|]|]; destruct Hs as [-> Hr1].
  - rewrite (report_reason_spec _ _ _ _ Hr1 Hk). by destruct (field as_text "rsn" es).
  - destruct (lookup_spec _ _ _ _ _ _ "rc" law_int Hr1 Hk plain_rc) as (r2 & _ & Hc).
    destruct (field as_int "rc" es) as [[rc|]|]; destruct Hc as [-> Hr2].
    + rewrite (report_reason_spec _ _ _ _ Hr2 Hk). by destruct (field as_text "rsn" es).
    + rewrite (report_reason_spec _ _ _ _ Hr2 Hk). by destruct (field as_text "rsn" es).
    + by apply report_reason_poisoned.
  - rewrite (lookup_poisoned _ _ _ _ Hr1). by apply report_reason_poisoned.
Qed.

(** ** Walks over an array of maps *)

(** A reader inside an array, nothing failed. *)
Record walking (input : bytes) (vs : list Value) (st : list (list Value)) (r : Reader) : Prop := {
  wk_error : error_ r = None;
  wk_input : input_ r = input;
  wk_array : at_array input vs st (context_ r);
  wk_depth : depth_ r = zlen st + 1;
  wk_max : max_nesting_ r <= kMaxCborNesting
}.

(** [decode], given [need] levels of nesting, reads the map [ee] as [a]. *)
Definition decodes {A} (decode : Reader -> Result A * Reader) (need : Z) (ee : list Value) (a : A) : Prop :=
  forall input r, reading input [ee] r -> need <= max_nesting_ r ->
  exists r', decode r = (Success a, r') /\ error_ r' = None.

Section elements.
Context {A : Type} (decode : Reader -> Result A * Reader) (need : Z) (Hneed : 0 < need).

(** A visitor that decodes and appends. *)
Definition appends (visit : visitor (list A)) : Prop :=
  forall acc r, visit acc r = match decode r with
                              | (Success a, r) => (Success tt, acc ++ [a], r)
                              | (Fail e, r) => (Fail e, acc, r)
                              end.

Lemma visit_element_spec visit first last acc r ee a :
  appends visit -> parse (subspan first last (input_ r)) = Some (Map ee) -> decodes decode need ee a ->
  0 <= depth_ r -> need <= max_nesting_ r - depth_ r -> max_nesting_ r <= kMaxCborNesting ->
  visit_element visit first last acc r = (Success tt, acc ++ [a], r).
Proof using Hneed.
  intros Hv Hp Hd Hd0 Hn Hx. unfold visit_element, child_reader. unfold kMaxCborNesting in *.
  rewrite wrap_fits by (unfold fits; lia).
  destruct (enter_spec _ ee (max_nesting_ r - depth_ r) Hp) as (el & -> & Hel & Hm);
    [unfold kMaxCborNesting; lia|].
  rewrite Hv. destruct (Hd _ el Hel ltac:(lia)) as (el' & -> & He). unfold status. by rewrite He.
Qed.

Lemma map_elements_spec visit ees as_ budget acc input st r :
  appends visit -> Forall2 (decodes decode need) ees as_ -> walking input (Map <$> ees) st r ->
  (length ees <= budget)%nat -> need <= max_nesting_ r - depth_ r ->
  exists r', map_elements visit budget acc r = (Success tt, acc ++ as_, r') /\
             walking input [] st r' /\ max_nesting_ r' = max_nesting_ r.
Proof using Hneed.
  intros Hv Hes. revert budget acc r. induction Hes as [|ee a ees as_ Hd _ IH];
    intros budget acc r [He Hi Ha Hdp Hx] Hb Hn.
  all: pose proof (law_peek _ _ _ _ Ha) as Hpk; destruct budget as [|budget]; try (simpl in Hb; lia).
  1,2: cbn [map_elements]; destruct (PeekNext (context_ r)) as [[e item] c]; destruct Hpk as [Ha1 ->];
    eexists; rewrite app_nil_r; split; [reflexivity|]; by split.
  cbn [map_elements]. destruct (PeekNext (context_ r)) as [[e item] c].
  destruct Hpk as [Ha1 [-> Hdata]]. rewrite Hdata. cbn [data_of].
  pose proof (law_consume _ _ _ _ _ Ha1) as Hc. cbn [set_context context_].
  destruct (VGetNextConsume c) as [item1 c1]. destruct (GetAndResetError c1) as [e1 c2].
  destruct Hc as (-> & Ha2 & Ht & Hp). rewrite no_failure by done.
  set (r2 := set_context c2 (set_context c r)).
  change (input_ r2) with (input_ r). rewrite Hi.
  assert ((Tell c2 <? Tell c)%nat || (length input <? Tell c2)%nat = false) as ->.
  { apply orb_false_iff. split; apply Nat.ltb_ge; lia. }
  rewrite (visit_element_spec visit _ _ acc r2 ee a) by (simpl; rewrite ?Hi; done || lia).
  simpl in Hb. destruct (IH budget (acc ++ [a]) r2) as (r' & E & Hw & Hm); [|lia|done|].
  { by constructor. }
  exists r'. rewrite E. by rewrite <-app_assoc.
Qed.

Lemma for_each_map_spec visit key max input es st r ees as_ :
  appends visit -> reading input (es :: st) r -> NoDup (map_keys es) -> plain_key key ->
  (find_loop key es = Some (Array (Map <$> ees)) \/ (find_loop key es = None /\ ees = [])) ->
  Forall2 (decodes decode need) ees as_ -> (length ees <= max)%nat ->
  need + 1 <= max_nesting_ r - depth_ r ->
  exists r', for_each_map_in_array key max visit [] r = (Success tt, as_, r') /\
             reading input (es :: st) r' /\ max_nesting_ r' = max_nesting_ r.
Proof using Hneed.
  intros Hv [He Hi Hm Hd Hx] Hk Hp Hf Hes Hl Hn. unfold for_each_map_in_array, enter_array.
  rewrite He, (proj2 (Z.leb_gt (max_nesting_ r) (depth_ r))), label_plain by (done || lia).
  pose proof (law_enter_array input es st (context_ r) key Hm Hk) as Hlaw.
  destruct (GetAndResetError (EnterArrayFromMapSZ key (context_ r))) as [e c1].
  destruct Hf as [Hf|[Hf ->]]; rewrite Hf in Hlaw; destruct Hlaw as [-> Hat].
  - destruct (map_elements_spec visit ees as_ max [] input (es :: st)
                (mkReader c1 (input_ r) (error_ r) (max_nesting_ r) (depth_ r + 1)))
      as (r' & E & [He' Hi' Ha' Hd' Hx'] & Hm'); simpl; try done; [|lia|].
    + constructor; simpl; try done. rewrite Hd. done.
    + unfold set_depth, set_context. simpl. rewrite E. eexists. split; [reflexivity|].
      split; [|done]. constructor; simpl; try done; [|rewrite Hd'; cbn [length]; lia].
      by apply law_exit_array with [].
  - inversion Hes; subst. eexists. split; [reflexivity|]. by split.
Qed.

End elements.

End facade.

(** ** The cursor moves forward

    The walk of [for_each_uint_in_map] is bounded by nothing in the façade: it
    ends because QCBOR's cursor moves over every item it consumes and stays
    within the input. *)

Class QCursorLaws `{QDecoder} := {
  (** The context is over an input of this many bytes. *)
  over : nat -> ctx -> Prop;
  over_init : forall input, over (length input) (Decode_Init input);
  over_enter : forall n c, over n c -> over n (EnterMap c);
  over_text : forall n c key, over n c -> over n (GetAndResetError (GetTextStringInMapSZ key c).2).2;
  over_rewind : forall n c, over n c -> over n (Rewind c);
  over_peek : forall n c, over n c -> over n (PeekNext c).2 /\ Tell (PeekNext c).2 = Tell c;
  over_consume : forall n c,
    over n c -> (GetAndResetError (VGetNextConsume c).2).1 = QCBOR_SUCCESS ->
    let c' := (GetAndResetError (VGetNextConsume c).2).2 in
    over n c' /\ (Tell c < Tell c' <= n)%nat
}.

Section cursor.
Context `{QCursorLaws}.

Definition reader_over (r : Reader) : Prop := over (length (input_ r)) (context_ r).

Lemma find_entry_step key r r' :
  reader_over r -> find_entry_body key r = Continue r' ->
  reader_over r' /\ input_ r' = input_ r /\
  (Tell (context_ r) < Tell (context_ r') <= length (input_ r))%nat.
Proof.
  intros Ho. unfold find_entry_body. destruct (over_peek _ _ Ho) as [Ho1 Ht].
  destruct (PeekNext (context_ r)) as [[e item] c1]. simpl in *.
  destruct e; try done. split_if; [done|].
  pose proof (over_consume _ _ Ho1) as Hc.
  destruct (VGetNextConsume c1) as [item1 c2]. simpl in Hc.
  destruct (GetAndResetError c2) as [st c3]. simpl in *. split_if; [done|].
  apply bool_decide_eq_false, dec_stable in Heqb0. destruct (Hc Heqb0) as [Ho3 Hlt].
  split_if; [done|]. intros [= <-]. simpl. rewrite <-Ht. done.
Qed.

Lemma find_entry_total key r : reader_over r -> exists out, find_entry key r = Some out.
Proof.
  intros Ho. unfold find_entry.
  apply (iterate_total (find_entry_body key)
           (fun r1 => reader_over r1 /\ input_ r1 = input_ r)
           (fun r1 => length (input_ r) - Tell (context_ r1))%nat).
  - intros r1 r2 (Ho1 & Hi1) E. destruct (find_entry_step key r1 r2 Ho1 E) as (Ho2 & Hi2 & Hlt).
    rewrite Hi1 in *. split; [|lia]. split; [done|congruence].
  - split; [by apply over_rewind|done].
  - lia.
Qed.

Lemma enter_map_over r o r' : reader_over r -> enter_map r = (o, r') -> reader_over r'.
Proof.
  intros Ho. unfold enter_map. destruct (error_ r); [by intros [= <- <-]|].
  split_if.
  { destruct (record_spec (A := unit) (cbor_error "cbor reader: nesting limit") r) as (x & -> & _).
    intros [= <- <-]. done. }
  set (r1 := set_context (EnterMap (context_ r)) r). assert (reader_over r1) by (by apply over_enter).
  split_if; [|by intros [= <- <-]].
  destruct (record_spec (A := unit) (cbor_error "cbor reader: not a map") r1) as (x & -> & _).
  by intros [= <- <-].
Qed.

Lemma text_over key r : reader_over r -> reader_over (r_text key r).2.
Proof.
  intros Ho. unfold r_text, lookup_key. destruct (error_ r); [done|].
  unfold label. split_if.
  { destruct (record_spec (A := unit) (cbor_error "cbor reader: key too long") r) as (x & -> & _). done. }
  pose proof (over_text _ _ (c_str key) Ho) as Ht.
  destruct (GetTextStringInMapSZ (c_str key) (context_ r)) as [v c]. unfold consume_lookup. simpl in *.
  destruct (GetAndResetError c) as [st c']. simpl in *.
  destruct st; simpl; try done;
    (match goal with |- context [record ?e ?r0] =>
       destruct (record_spec (A := unit) e r0) as (x & -> & _) end; done).
Qed.

End cursor.
