(* ===== verification/QcborModel.v ===== *)
(** * A decoder that satisfies QCBOR's laws

    The laws of CborLaws.v hold of a concrete decoder: cursors over the
    document's bytes, read with the independent parser of Minicbor.v. It shows
    that the laws are consistent, and it is what the witnesses of the façade's
    theorems evaluate. It models the documents of the subset, not QCBOR's code. *)

From S2P Require Import Prelude Errors Client Minicbor Cbor CborLaws.

(** The argument and the content of an item of a given major type. *)
Definition open_head (major : Z) (cur : bytes) : option (Z * bytes) :=
  match take_byte cur with
  | None => None
  | Some (initial, rest) =>
      if Z.shiftr initial 5 =? major then read_argument (Z.land initial 31) rest else None
  end.

(** The cursor at the value of a key, among the entries of a map. *)
Fixpoint seek (fuel : nat) (item : bytes -> option (Value * bytes)) (key : string) (count : Z)
    (cur : bytes) : option bytes :=
  if count <=? 0 then None
  else
    match fuel with
    | O => None
    | S fuel =>
        match item cur with
        | Some (Text k, rest) =>
            if bool_decide (k = key) then Some rest
            else match item rest with
                 | Some (_, rest) => seek fuel item key (count - 1) rest
                 | None => None
                 end
        | _ => None
        end
    end.

(** An open container: how deep its items may nest, how many are to come, where
    they start; for a map also where it started. *)
Record mframe := mkFrame {
  f_levels : nat;
  f_left : Z;
  f_cur : bytes;
  f_count : Z;
  f_start : bytes
}.

Record mctx := mkCtx {
  m_input : bytes;
  m_err : QCBORError;
  m_top : bytes;
  m_maps : list mframe;
  m_array : option mframe
}.

Definition set_err (e : QCBORError) (c : mctx) : mctx :=
  mkCtx (m_input c) e (m_top c) (m_maps c) (m_array c).
Definition set_maps (fs : list mframe) (c : mctx) : mctx :=
  mkCtx (m_input c) (m_err c) (m_top c) fs (m_array c).
Definition set_array (a : option mframe) (c : mctx) : mctx :=
  mkCtx (m_input c) (m_err c) (m_top c) (m_maps c) a.
Definition set_top (t : bytes) (c : mctx) : mctx :=
  mkCtx (m_input c) (m_err c) t (m_maps c) (m_array c).

Definition open_frame (levels : nat) (count : Z) (cur : bytes) : mframe :=
  mkFrame levels count cur count cur.

Definition m_seek (key : string) (c : mctx) : option (nat * bytes) :=
  match m_maps c with
  | [] => None
  | f :: _ =>
      match seek (length (f_start f)) (parse_level (f_levels f)) key (f_count f) (f_start f) with
      | Some cur => Some (f_levels f, cur)
      | None => None
      end
  end.

(** A getter. *)
Definition m_get {A} (sem : Value -> option A) (zero : A) (key : string) (c : mctx) : A * mctx :=
  match m_seek key c with
  | None => (zero, set_err QCBOR_ERR_LABEL_NOT_FOUND c)
  | Some (levels, cur) =>
      match parse_level levels cur with
      | Some (v, _) =>
          match sem v with
          | Some a => (a, set_err QCBOR_SUCCESS c)
          | None => (zero, set_err (QCBOR_ERR_OTHER 1) c)
          end
      | None => (zero, set_err (QCBOR_ERR_OTHER 2) c)
      end
  end.

Definition m_enter_map (c : mctx) : mctx :=
  match open_head 5 (m_top c) with
  | Some (count, cur) => set_maps [open_frame kMaxDepth count cur] c
  | None => set_err (QCBOR_ERR_OTHER 3) c
  end.

Definition m_enter_key (major : Z) (key : string) (c : mctx) : option mframe * mctx :=
  match m_seek key c with
  | None => (None, set_err QCBOR_ERR_LABEL_NOT_FOUND c)
  | Some (levels, cur) =>
      match open_head major cur with
      | Some (count, cur) => (Some (open_frame (pred levels) count cur), c)
      | None => (None, set_err (QCBOR_ERR_OTHER 4) c)
      end
  end.

Definition no_item : QCBORItem := mkItem QNoLabel QOtherItem.

(** The next item where the cursor is, and the context past it. *)
Definition m_next (c : mctx) : QCBORError * QCBORItem * mctx :=
  match m_array c, m_maps c with
  | Some f, _ =>
      if f_left f <=? 0 then (QCBOR_ERR_NO_MORE_ITEMS, no_item, c)
      else match parse_level (f_levels f) (f_cur f) with
           | Some (v, rest) =>
               (QCBOR_SUCCESS, mkItem QNoLabel (data_of v),
                set_array (Some (mkFrame (f_levels f) (f_left f - 1) rest (f_count f) (f_start f))) c)
           | None => (QCBOR_ERR_OTHER 5, no_item, c)
           end
  | None, f :: fs =>
      if f_left f <=? 0 then (QCBOR_ERR_NO_MORE_ITEMS, no_item, c)
      else match parse_level (f_levels f) (f_cur f) with
           | Some (Text k, rest) =>
               match parse_level (f_levels f) rest with
               | Some (v, rest) =>
                   (QCBOR_SUCCESS, mkItem (QTextLabel k) (data_of v),
                    set_maps (mkFrame (f_levels f) (f_left f - 1) rest (f_count f) (f_start f) :: fs) c)
               | None => (QCBOR_ERR_OTHER 5, no_item, c)
               end
           | _ => (QCBOR_ERR_OTHER 5, no_item, c)
           end
  | None, [] =>
      match parse_level (kMaxDepth + 1) (m_top c) with
      | Some (v, rest) => (QCBOR_SUCCESS, mkItem QNoLabel (data_of v), set_top rest c)
      | None => (QCBOR_ERR_OTHER 5, no_item, c)
      end
  end.

Definition m_peek (c : mctx) : QCBORError * QCBORItem * mctx :=
  let '(e, item, _) := m_next c in (e, item, c).

Definition m_vnext (c : mctx) : QCBORItem * mctx :=
  let '(e, item, c') := m_next c in
  (item, match e with QCBOR_SUCCESS => c' | _ => set_err e c end).

Definition m_tell (c : mctx) : nat :=
  length (m_input c) -
  length (match m_array c, m_maps c with
          | Some f, _ => f_cur f
          | None, f :: _ => f_cur f
          | None, [] => m_top c
          end).

Definition m_rewind (c : mctx) : mctx :=
  match m_maps c with
  | f :: fs => set_maps (open_frame (f_levels f) (f_count f) (f_start f) :: fs) c
  | [] => c
  end.

#[global] Instance model_decoder : QDecoder := {|
  ctx := mctx;
  Decode_Init input := mkCtx input QCBOR_SUCCESS input [] None;
  EnterMap := m_enter_map;
  EnterMapFromMapSZ key c :=
    match m_enter_key 5 key c with
    | (Some f, c) => set_maps (f :: m_maps c) c
    | (None, c) => c
    end;
  ExitMap c := set_maps (tail (m_maps c)) c;
  EnterArrayFromMapSZ key c :=
    match m_enter_key 4 key c with
    | (Some f, c) => set_array (Some f) c
    | (None, c) => c
    end;
  ExitArray c := set_array None c;
  GetError := m_err;
  GetAndResetError c := (m_err c, set_err QCBOR_SUCCESS c);
  GetUInt64InMapSZ := m_get as_uint 0;
  GetInt64InMapSZ := m_get as_int 0;
  GetBoolInMapSZ := m_get as_bool false;
  GetTextStringInMapSZ := m_get as_text EmptyString;
  GetByteStringInMapSZ := m_get as_bytes [];
  PeekNext := m_peek;
  VGetNext := m_vnext;
  VGetNextConsume := m_vnext;
  Tell := m_tell;
  Rewind := m_rewind
|}.

(** ** The laws *)

(** Opening a container whose item parses gives its items. *)
Lemma open_map_spec n cur es rest :
  parse_level n cur = Some (Map es, rest) ->
  exists count cur', open_head 5 cur = Some (count, cur') /\
    entries_loop (length cur') (parse_level (pred n)) count cur' = Some (es, rest) /\
    exists u, cur = u ++ cur'.
Proof.
  destruct n as [|n]; [done|]. cbn [parse_level pred]. destruct cur as [|b cur]; [done|].
  unfold parse_body, open_head. cbn [take_byte].
  split_if; [by split_if|]. destruct (read_argument _ cur) as [[arg cur']|] eqn:Ea; [|done].
  repeat split_if; try done; try (by case_match; [case_match|]).
  destruct (entries_loop _ _ _ _) as [[vs r]|] eqn:E; [|done]. intros [= <- <-].
  exists arg, cur'. split_and!; [done|done|].
  apply read_argument_suffix in Ea as [u ->]. by exists (b :: u).
Qed.

Lemma open_array_spec n cur vs rest :
  parse_level n cur = Some (Array vs, rest) ->
  exists count cur', open_head 4 cur = Some (count, cur') /\
    items_loop (length cur') (parse_level (pred n)) count cur' = Some (vs, rest) /\
    exists u, cur = u ++ cur'.
Proof.
  destruct n as [|n]; [done|]. cbn [parse_level pred]. destruct cur as [|b cur]; [done|].
  unfold parse_body, open_head. cbn [take_byte].
  split_if; [by split_if|]. destruct (read_argument _ cur) as [[arg cur']|] eqn:Ea; [|done].
  repeat split_if; try done; try (by case_match; [case_match|]).
  destruct (items_loop _ _ _ _) as [[vs' r]|] eqn:E; [|done]. intros [= <- <-].
  exists arg, cur'. split_and!; [done|done|].
  apply read_argument_suffix in Ea as [u ->]. by exists (b :: u).
Qed.

(** An item of another kind does not open. *)
Lemma open_head_other n cur v rest :
  parse_level n cur = Some (v, rest) ->
  (open_head 5 cur <> None -> exists es, v = Map es) /\
  (open_head 4 cur <> None -> exists vs, v = Array vs).
Proof.
  destruct n as [|n]; [done|]. cbn [parse_level]. destruct cur as [|b cur]; [done|].
  unfold parse_body, open_head. cbn [take_byte]. intros H.
  destruct (Z.eqb_spec (Z.shiftr b 5) 5) as [E5|E5]; [rewrite E5 in *|];
    (destruct (Z.eqb_spec (Z.shiftr b 5) 4) as [E4|E4]; [rewrite E4 in *|]); try lia; split; intros Ho; try done;
    simpl in H; (destruct (read_argument _ cur) as [[arg cur']|]; [|done]); simpl in H.
  - destruct (entries_loop _ _ _ _) as [[vs r]|]; [|done]. injection H as <- <-. by eexists.
  - destruct (items_loop _ _ _ _) as [[vs r]|]; [|done]. injection H as <- <-. by eexists.
Qed.

(** Seeking finds the entry the value's lookup finds. *)
Lemma seek_spec item key fuel count cur es rest :
  consumes item -> entries_loop fuel item count cur = Some (es, rest) ->
  match find_loop key es with
  | Some v => exists cur' r u, seek fuel item key count cur = Some cur' /\ item cur' = Some (v, r) /\
                cur = u ++ cur'
  | None => seek fuel item key count cur = None
  end.
Proof.
  intros Hc. revert count cur es. induction fuel as [|fuel IH]; intros count cur es;
    cbn [entries_loop seek]; (split_if; [by intros [= <- <-]|]); [done|].
  destruct (item cur) as [[k r1]|] eqn:E1; [|done]. destruct k as [| | |k| | |]; try done.
  destruct (item r1) as [[v r2]|] eqn:E2; [|done].
  destruct (entries_loop _ _ _ _) as [[vs r']|] eqn:El; [|done]. intros [= <- <-].
  apply IH in El. cbn [find_loop]. apply Hc in E1 as (u1 & _ & ->).
  case_bool_decide.
  - exists r1, r2, u1. done.
  - destruct (find_loop key vs) as [w|]; [|done]. destruct El as (cur' & r & u & -> & Hi & ->).
    apply Hc in E2 as (u2 & _ & ->). exists cur', r, (u1 ++ u2 ++ u). by rewrite <-!app_assoc.
Qed.

Record frame_is (input : bytes) (f : mframe) (es : list Value) : Prop := {
  fr_levels : (f_levels f <= kMaxDepth)%nat;
  fr_entries : exists rest, entries_loop (length (f_start f)) (parse_level (f_levels f)) (f_count f)
                              (f_start f) = Some (es, rest);
  fr_suffix : exists u, input = u ++ f_start f
}.

Definition m_at_maps (input : bytes) (st : list (list Value)) (c : mctx) : Prop :=
  m_input c = input /\ m_err c = QCBOR_SUCCESS /\ m_array c = None /\
  Forall2 (frame_is input) (m_maps c) st.

Definition m_at_array (input : bytes) (vs : list Value) (st : list (list Value)) (c : mctx) : Prop :=
  m_input c = input /\ m_err c = QCBOR_SUCCESS /\ Forall2 (frame_is input) (m_maps c) st /\
  exists f rest u, m_array c = Some f /\ (f_levels f <= kMaxDepth)%nat /\ input = u ++ f_cur f /\
    items_loop (length (f_cur f)) (parse_level (f_levels f)) (f_left f) (f_cur f) = Some (vs, rest).

Lemma m_seek_spec input es st c key :
  m_at_maps input (es :: st) c ->
  match find_loop key es with
  | Some v => exists n cur r u, m_seek key c = Some (n, cur) /\ parse_level n cur = Some (v, r) /\
                (n <= kMaxDepth)%nat /\ input = u ++ cur
  | None => m_seek key c = None
  end.
Proof.
  intros (Hi & _ & _ & Hf). unfold m_seek.
  destruct (m_maps c) as [|f fs]; [by inversion Hf|]. apply Forall2_cons in Hf as [[Hl [rest He] [u Hu]] _].
  apply (seek_spec _ key) in He; [|apply parse_level_consumes].
  destruct (find_loop key es) as [v|].
  - destruct He as (cur & r & u' & -> & Hp & Hs). exists (f_levels f), cur, r, (u ++ u').
    split_and!; try done. rewrite <-app_assoc. by rewrite <-Hs.
  - by rewrite He.
Qed.

Lemma m_get_law {A} (sem : Value -> option A) zero : get_law m_at_maps (m_get sem zero) sem.
Proof.
  intros input es st c key Hat _. pose proof (m_seek_spec _ _ _ _ key Hat) as Hs.
  destruct Hat as (Hi & He & Ha & Hf). unfold m_get, field. simpl.
  destruct (find_loop key es) as [v|].
  - destruct Hs as (n & cur & r & u & -> & -> & _ & _).
    destruct (sem v) as [a|]; simpl; (split; [by split_and!|done]).
  - rewrite Hs. simpl. split; [by split_and!|done].
Qed.

Lemma m_enter_law input es :
  parse input = Some (Map es) ->
  let c := m_enter_map (mkCtx input QCBOR_SUCCESS input [] None) in
  m_err c = QCBOR_SUCCESS /\ m_at_maps input [es] c.
Proof.
  unfold parse, parse_item. intros Hp.
  destruct (parse_level _ input) as [[v [|]]|] eqn:E; try done. injection Hp as ->.
  apply open_map_spec in E as (count & cur & Ho & He & u & Hu). unfold m_enter_map. simpl. rewrite Ho.
  split; [done|]. split_and!; try done. constructor; [|constructor].
  constructor; simpl; [done|by eexists|by exists u].
Qed.

(** Entering the value of a key: the frame of a container of the right kind, or
    an error that leaves the context where it was. *)
Lemma m_enter_key_map input es st c key :
  m_at_maps input (es :: st) c ->
  match find_loop key es with
  | Some (Map ee) => exists f, m_enter_key 5 key c = (Some f, c) /\ frame_is input f ee
  | Some _ => exists e, m_enter_key 5 key c = (None, set_err e c) /\ e <> QCBOR_SUCCESS
  | None => m_enter_key 5 key c = (None, set_err QCBOR_ERR_LABEL_NOT_FOUND c)
  end.
Proof.
  intros Hat. pose proof (m_seek_spec _ _ _ _ key Hat) as Hs. unfold m_enter_key.
  destruct (find_loop key es) as [v|]; [|by rewrite Hs].
  destruct Hs as (n & cur & r & u & -> & Hp & Hn & Hu).
  pose proof (open_head_other _ _ _ _ Hp) as [Ho _].
  destruct (open_head 5 cur) as [[count cur']|] eqn:E.
  - destruct (Ho ltac:(done)) as [ee ->]. apply open_map_spec in Hp as (? & ? & Ho' & He & u' & Hu').
    rewrite E in Ho'. injection Ho' as <- <-. eexists. split; [done|].
    constructor; simpl; [lia|by eexists|]. exists (u ++ u'). by rewrite <-app_assoc, <-Hu'.
  - destruct v; try (eexists; split; done).
    apply open_map_spec in Hp as (? & ? & Ho' & _). by rewrite E in Ho'.
Qed.

Lemma m_enter_key_array input es st c key :
  m_at_maps input (es :: st) c ->
  match find_loop key es with
  | Some (Array vs) => exists f, m_enter_key 4 key c = (Some f, c) /\ m_at_array input vs (es :: st) (set_array (Some f) c)
  | Some _ => exists e, m_enter_key 4 key c = (None, set_err e c) /\ e <> QCBOR_SUCCESS /\
                e <> QCBOR_ERR_LABEL_NOT_FOUND
  | None => m_enter_key 4 key c = (None, set_err QCBOR_ERR_LABEL_NOT_FOUND c)
  end.
Proof.
  intros Hat. pose proof (m_seek_spec _ _ _ _ key Hat) as Hs. unfold m_enter_key.
  destruct (find_loop key es) as [v|]; [|by rewrite Hs].
  destruct Hs as (n & cur & r & u & -> & Hp & Hn & Hu).
  pose proof (open_head_other _ _ _ _ Hp) as [_ Ho].
  destruct (open_head 4 cur) as [[count cur']|] eqn:E.
  - destruct (Ho ltac:(done)) as [vs ->]. apply open_array_spec in Hp as (? & ? & Ho' & He & u' & Hu').
    rewrite E in Ho'. injection Ho' as <- <-. eexists. split; [done|].
    destruct Hat as (Hi & He' & Ha & Hf). split_and!; try done.
    exists (open_frame (pred n) count cur'), r, (u ++ u'). split_and!; simpl; [done|lia|by rewrite <-app_assoc, <-Hu'|done].
  - destruct v; try (eexists; split; done).
    apply open_array_spec in Hp as (? & ? & Ho' & _). by rewrite E in Ho'.
Qed.

(** The next element of an array, and the bytes it takes. *)
Lemma m_next_array input v vs st c :
  m_at_array input (v :: vs) st c ->
  exists c', m_next c = (QCBOR_SUCCESS, mkItem QNoLabel (data_of v), c') /\
    m_at_array input vs st c' /\ (m_tell c <= m_tell c' <= length input)%nat /\
    parse (subspan (m_tell c) (m_tell c') input) = Some v.
Proof.
  intros (Hi & He & Hf & f & rest & u & Ha & Hl & Hu & Hit). unfold m_next, m_tell. rewrite Ha.
  pose proof (parse_level_consumes (f_levels f)) as Hc.
  rewrite (items_loop_fuel _ Hc _ (S (length (f_cur f)))) in Hit by lia. cbn [items_loop] in Hit.
  destruct (f_left f <=? 0); [done|].
  destruct (parse_level (f_levels f) (f_cur f)) as [[v' r1]|] eqn:Ep; [|done].
  destruct (items_loop _ _ _ _) as [[vs' r']|] eqn:El; [|done]. injection Hit as -> -> ->.
  eexists. split; [reflexivity|]. simpl.
  apply (parse_level_local (f_levels f)) in Ep as (used & Hn & Hcur & Hr).
  assert (length input = length u + (length used + length r1))%nat as Hlen
    by (rewrite Hu, Hcur, !length_app; lia).
  rewrite Hi. split_and!; try done.
  - unfold m_at_array. split_and!; try done.
    exists (mkFrame (f_levels f) (f_left f - 1) r1 (f_count f) (f_start f)), rest, (u ++ used).
    split_and!; simpl; try done.
    + rewrite <-app_assoc, <-Hcur. done.
    + rewrite (items_loop_fuel _ Hc _ (length (f_cur f))) by (rewrite ?Hcur, ?length_app; lia). done.
  - rewrite Hcur, length_app. lia.
  - lia.
  - unfold subspan. rewrite Hcur, length_app, Hlen.
    replace (length u + (length used + length r1) - (length used + length r1))%nat with (length u) by lia.
    replace (length u + (length used + length r1) - length r1 - length u)%nat with (length used) by lia.
    rewrite Hu, Hcur, drop_app_length, take_app_length. unfold parse, parse_item.
    pose proof (Hr []) as Hp. rewrite app_nil_r in Hp.
    assert (f_levels f <= kMaxDepth + 1 - 0)%nat as Hle by lia.
    by rewrite (parse_level_mono _ _ Hle _ _ Hp).
Qed.

Lemma m_next_end input st c :
  m_at_array input [] st c -> m_next c = (QCBOR_ERR_NO_MORE_ITEMS, no_item, c).
Proof.
  intros (Hi & He & Hf & f & rest & u & Ha & Hl & Hu & Hit). unfold m_next. rewrite Ha.
  destruct (length (f_cur f)) as [|k]; cbn [items_loop] in Hit; destruct (f_left f <=? 0); try done.
  repeat case_match; done.
Qed.

#[global] Instance model_laws : QDecoderLaws.
Proof.
  refine {| at_maps := m_at_maps : bytes -> list (list Value) -> ctx -> Prop;
            at_array := m_at_array : bytes -> list Value -> list (list Value) -> ctx -> Prop |}.
  - apply m_enter_law.
  - apply m_get_law.
  - apply m_get_law.
  - apply m_get_law.
  - apply m_get_law.
  - apply m_get_law.
  - intros input es st c key Hat _. simpl. pose proof (m_enter_key_map _ _ _ _ key Hat) as Hk.
    destruct Hat as (Hi & He & Ha & Hf).
    destruct (find_loop key es) as [[]|];
      try (destruct Hk as (e & -> & He'); simpl; split; [done|by split_and!]).
    + destruct Hk as (f & -> & Hf'). simpl. split; [done|]. split_and!; try done. by constructor.
    + rewrite Hk. simpl. split; [done|by split_and!].
  - intros input ee st c (Hi & He & Ha & Hf). simpl. split; [done|]. intros _.
    destruct (m_maps c) as [|f fs] eqn:Em; [by inversion Hf|]. apply Forall2_cons in Hf as [_ Hf].
    unfold m_at_maps; simpl; rewrite ?Em; by split_and!.
  - intros input es st c key Hat _. simpl. pose proof (m_enter_key_array _ _ _ _ key Hat) as Hk.
    destruct Hat as (Hi & He & Ha & Hf).
    destruct (find_loop key es) as [[]|];
      try (destruct Hk as (e & -> & He' & He''); simpl; split_and!; by try split_and!).
    + destruct Hk as (f & -> & (? & ? & ? & ?)). simpl in *. split; [done|]. by split_and!.
    + rewrite Hk. simpl. split; [done|by split_and!].
  - intros input vs st c (Hi & He & Hf & _). by split_and!.
  - intros input vs st c Hat. simpl. unfold m_peek. destruct vs as [|v vs].
    + rewrite (m_next_end _ _ _ Hat). done.
    + destruct (m_next_array _ _ _ _ _ Hat) as (c' & -> & _). done.
  - intros input v vs st c Hat. simpl. unfold m_vnext.
    destruct (m_next_array _ _ _ _ _ Hat) as (c' & -> & (Hi & He & Hf & Ha) & Ht & Hp).
    unfold m_at_array. simpl. split_and!; try done; try apply Ht.
Qed.

(** ** The cursor *)

Definition frame_over (n : nat) (f : mframe) : Prop :=
  (length (f_cur f) <= n)%nat /\ (length (f_start f) <= n)%nat.

Record m_over (n : nat) (c : mctx) : Prop := {
  mo_input : length (m_input c) = n;
  mo_top : (length (m_top c) <= n)%nat;
  mo_maps : Forall (frame_over n) (m_maps c);
  mo_array : from_option (frame_over n) True (m_array c)
}.

Lemma parse_level_shorter n c v r : parse_level n c = Some (v, r) -> (length r < length c)%nat.
Proof.
  intros Hp. apply parse_level_consumes in Hp as (u & Hu & ->). rewrite length_app.
  destruct u; [done|]. simpl. lia.
Qed.

Lemma m_next_over n c item c' :
  m_over n c -> m_next c = (QCBOR_SUCCESS, item, c') ->
  m_over n c' /\ (m_tell c < m_tell c' <= n)%nat.
Proof.
  intros [Hi Ht Hm Ha]. unfold m_next, m_tell.
  destruct (m_array c) as [f|] eqn:Ea; [|destruct (m_maps c) as [|f fs] eqn:Em].
  - destruct (f_left f <=? 0); [done|].
    destruct (parse_level _ _) as [[v rest]|] eqn:Ep; [|done]. intros [= <- <-]. simpl in *.
    apply parse_level_shorter in Ep. destruct Ha as [H1 H2].
    split; [|rewrite Hi; lia]. constructor; simpl; try done. split; simpl; [lia|done].
  - destruct (parse_level _ _) as [[v rest]|] eqn:Ep; [|done]. intros [= <- <-].
    apply parse_level_shorter in Ep. simpl in *. rewrite Ea, Em. split; [|rewrite Hi; lia].
    constructor; simpl; try done; [lia|by rewrite Em|by rewrite Ea].
  - destruct (f_left f <=? 0); [done|].
    destruct (parse_level _ (f_cur f)) as [[k r1]|] eqn:E1; [|done]. destruct k; try done.
    destruct (parse_level _ r1) as [[v rest]|] eqn:Ep; [|done]. intros [= <- <-]. simpl in *.
    apply parse_level_shorter in E1, Ep. apply Forall_cons in Hm as [[H1 H2] Hm].
    rewrite Ea. split; [|rewrite Hi; lia].
    constructor; simpl; try done; [|by rewrite Ea]. constructor; [|done]. split; simpl; [lia|done].
Qed.

Lemma read_argument_shorter extra c v r : read_argument extra c = Some (v, r) -> (length r <= length c)%nat.
Proof. intros Hr. apply read_argument_suffix in Hr as [u ->]. rewrite length_app. lia. Qed.

#[global] Instance model_cursor : QCursorLaws.
Proof.
  refine {| over := m_over : nat -> ctx -> Prop |}.
  - intros input. by constructor.
  - intros n c [Hi Ht Hm Ha]. simpl. unfold m_enter_map.
    destruct (open_head 5 (m_top c)) as [[count cur]|] eqn:E; [|by constructor].
    constructor; simpl; try done. constructor; [|done]. unfold open_head in E.
    destruct (m_top c) as [|b top]; [done|]. simpl in *. revert E. split_if; [|done].
    intros E%read_argument_shorter. split; simpl; lia.
  - intros n c key [Hi Ht Hm Ha]. simpl. unfold m_get.
    repeat case_match; by constructor.
  - intros n c [Hi Ht Hm Ha]. simpl. unfold m_rewind. destruct (m_maps c) as [|f fs] eqn:Em; [by constructor; rewrite ?Em|].
    apply Forall_cons in Hm as [[H1 H2] Hm]. constructor; simpl; try done. constructor; [|done]. by split.
  - intros n c Ho. simpl. unfold m_peek. by destruct (m_next c) as [[e item] c'].
  - intros n c Ho. simpl. unfold m_vnext. destruct (m_next c) as [[e item] c'] eqn:E.
    destruct e; simpl; try done. intros _.
    destruct (m_next_over _ _ _ _ Ho E) as [[Hi Ht Hm Ha] Hlt]. split; [by constructor|done].
Qed.
