(* ===== verification/GroupProperties.v ===== *)
(** * The properties of the façade and of the groups' decoders

    What a device's response means to the library: the error report of any
    response ([mgmt_error_exact]), the slot table ([state_roundtrip]), and the
    bounds of everything decoded ([decode_state_typed], [decode_group_typed],
    [reader_sticky]). The theorems hold of any QCBOR, the exact ones of any
    QCBOR that behaves as documented; the witnesses evaluate the model of
    QcborModel.v. *)

From stdpp Require Import sets.
From S2P Require Import Prelude Errors ImageValues UpdateTypes Client Minicbor Cbor GroupCodecs CborLaws QcborModel.

(** ** How a device writes a map *)

(** The entries of a map from its fields, an absent one left out. *)
Fixpoint fields_of (l : list (string * option Value)) : list Value :=
  match l with
  | [] => []
  | (k, Some v) :: l => Text k :: v :: fields_of l
  | (_, None) :: l => fields_of l
  end.

Fixpoint assoc (key : string) (l : list (string * option Value)) : option Value :=
  match l with
  | [] => None
  | (k, v) :: l => if bool_decide (k = key) then v else assoc key l
  end.

Lemma find_absent key l : key ∉ l.*1 -> find_loop key (fields_of l) = None.
Proof.
  induction l as [|[k [v|]] l IH]; simpl; [done|..]; rewrite not_elem_of_cons; intros [Hk Hl].
  - rewrite bool_decide_eq_false_2 by done. auto.
  - auto.
Qed.

Lemma find_fields key l : NoDup l.*1 -> find_loop key (fields_of l) = assoc key l.
Proof.
  induction l as [|[k [v|]] l IH]; simpl; [done|..]; intros [Hk Hl]%NoDup_cons; case_bool_decide.
  - done.
  - auto.
  - subst. by apply find_absent.
  - auto.
Qed.

Lemma map_keys_sublist l : sublist (map_keys (fields_of l)) l.*1.
Proof.
  induction l as [|[k [v|]] l IH]; simpl; [constructor|by constructor|by constructor].
Qed.

Lemma map_keys_NoDup l : NoDup l.*1 -> NoDup (map_keys (fields_of l)).
Proof. intros Hl. eapply sublist_NoDup; [exact Hl|apply map_keys_sublist]. Qed.

(** A flag of the slot table: written, or left out when false. *)
Definition flag (frugal b : bool) : option Value :=
  if frugal && negb b then None else Some (Bool b).

(** One entry of the slot table as a device writes it: [frugal] leaves out what
    equals its default. *)
Definition slot_fields (frugal : bool) (s : ImageSlot) : list (string * option Value) :=
  [("image", if frugal && (sl_image s =? 0)%Z then None else Some (Uint (sl_image s)));
   ("slot", Some (Uint (sl_slot s)));
   ("version", Some (Text (sl_version s)));
   ("hash", Bytes <$> sl_hash s);
   ("bootable", flag frugal (sl_bootable s));
   ("pending", flag frugal (sl_pending s));
   ("confirmed", flag frugal (sl_confirmed s));
   ("active", flag frugal (sl_active s));
   ("permanent", flag frugal (sl_permanent s))]%string.

(** A number that may be negative. *)
Definition int_value (z : Z) : Value := if z <? 0 then Nint z else Uint z.

(** The response to a state request. *)
Definition state_response (frugal : bool) (st : ImageState) : Value :=
  Map (fields_of
    [("images", Some (Array ((fun s => Map (fields_of (slot_fields frugal s))) <$> slots st)));
     ("splitStatus", int_value <$> split_status st)]%string).

Section exact.
Context `{QDecoderLaws}.

(** [groups::complete], up to the callback: the decoder inside the response's
    map. *)
Definition complete {A} (decode : Reader -> Result A * Reader) (payload : bytes) : Result A :=
  let '(entered, r) := enter_map (new_reader payload kMaxCborNesting) in
  let? _ := entered in (decode r).1.

(** The getters, as equations on a reader inside a map. *)
Lemma get_field {A} (get : string -> ctx -> A * ctx) sem input l st r key o :
  get_law at_maps get sem -> reading input (fields_of l :: st) r -> NoDup l.*1 -> plain_key key ->
  match assoc key l with None => o = None | Some v => o <> None /\ sem v = o end ->
  exists r', lookup_key get key r = (o, r') /\ reading input (fields_of l :: st) r' /\
             max_nesting_ r' = max_nesting_ r.
Proof.
  intros Hlaw Hr Hl Hp Ho.
  destruct (lookup_spec get sem input _ st r key Hlaw Hr (map_keys_NoDup l Hl) Hp) as (r' & Hm & Hf).
  exists r'. unfold field in Hf. rewrite find_fields in Hf by done.
  destruct (assoc key l) as [v|].
  - destruct Ho as [Hn Hs]. rewrite Hs in Hf. destruct o as [a|]; [|done]. destruct Hf. done.
  - subst. destruct Hf. done.
Qed.

Lemma keys_slot frugal s : NoDup (slot_fields frugal s).*1.
Proof. simpl. apply (bool_decide_unpack _). by vm_compute. Qed.

Ltac plain := by split; [vm_compute; lia|].

Lemma flag_default frugal b : default false (b0 ← flag frugal b; as_bool b0) = b.
Proof. by destruct frugal, b. Qed.

Lemma hash_from_inv h : (0 < length h <= kMaxImageHashLength)%nat -> ImageHash_from h = Success h.
Proof.
  intros Hh. unfold ImageHash_from. rewrite bool_decide_eq_false_2 by (intros ->; simpl in Hh; lia).
  by rewrite (proj2 (Nat.ltb_ge _ _)) by lia.
Qed.

Lemma narrow_u32_fits z w : u32 z -> narrow_u32 z w = Success z.
Proof.
  intros [Hz Hz']. unfold narrow_u32. by rewrite (proj2 (Z.leb_le _ _) Hz), (proj2 (Z.ltb_lt _ _) Hz').
Qed.

(** A field of an entry as its getter reads it. *)
Definition read_as {A} (sem : Value -> option A) (key : string) (l : list (string * option Value))
  : option A := v ← assoc key l; sem v.

Lemma build_slot_fields frugal s :
  slot_ok s ->
  let l := slot_fields frugal s in
  build_slot (read_as as_uint "image" l) (read_as as_uint "slot" l) (read_as as_text "version" l)
    (read_as as_bytes "hash" l) (read_as as_bool "bootable" l) (read_as as_bool "pending" l)
    (read_as as_bool "confirmed" l) (read_as as_bool "active" l) (read_as as_bool "permanent" l)
  = Success s.
Proof.
  intros (Hi & Hsl & Hv & Hh). unfold read_as. simpl. rewrite !flag_default.
  rewrite (proj2 (Nat.ltb_ge _ _) Hv).
  assert (default 0 (v ← (if frugal && (sl_image s =? 0) then None else Some (Uint (sl_image s)));
                     as_uint v) = sl_image s) as ->.
  { destruct frugal; simpl; [|done]. by destruct (Z.eqb_spec (sl_image s) 0) as [->|]. }
  rewrite !narrow_u32_fits by done. cbn [result_bind].
  destruct s as [im sl ver h b1 b2 b3 b4 b5]; simpl in *.
  destruct h as [h|]; simpl; [|done]. by rewrite hash_from_inv.
Qed.

(** A slot's entry decodes to the slot. *)
Lemma decode_slot_spec frugal s :
  slot_ok s -> decodes decode_slot 1 (fields_of (slot_fields frugal s)) s.
Proof.
  intros Hs input r Hr _. unfold decode_slot, r_uint, r_text, r_bytes, r_boolean.
  set (l := slot_fields frugal s) in *.
  assert (forall A (get : string -> ctx -> A * ctx) sem key r,
    get_law at_maps get sem -> plain_key key -> reading input [fields_of l] r ->
    (forall v, assoc key l = Some v -> sem v <> None) ->
    exists r', lookup_key get key r = (read_as sem key l, r') /\ reading input [fields_of l] r') as Hget.
  { intros A get sem key r0 Hlaw Hp Hr0 Ht.
    destruct (get_field get sem input l [] r0 key (read_as sem key l)) as (r' & -> & Hr' & _);
      try done; [apply keys_slot| |by exists r'].
    unfold read_as. destruct (assoc key _) as [v|]; [|done]. simpl. split; [by apply Ht|done]. }
  assert (forall v, assoc "image" l = Some v -> as_uint v <> None) as Hti.
  { simpl. destruct (frugal && _); by intros ? [= <-]. }
  assert (forall v, assoc "hash" l = Some v -> as_bytes v <> None) as Hth.
  { simpl. destruct (sl_hash s); by intros ? [= <-]. }
  assert (forall b v, flag frugal b = Some v -> as_bool v <> None) as Hf.
  { intros b v. unfold flag. destruct (frugal && _); by intros [= <-]. }
  destruct (Hget _ _ as_uint "image" r law_uint ltac:(plain) Hr Hti) as (r1 & -> & Hr1).
  destruct (Hget _ _ as_uint "slot" r1 law_uint ltac:(plain) Hr1) as (r2 & -> & Hr2);
    [by intros ? [= <-]|].
  destruct (Hget _ _ as_text "version" r2 law_text ltac:(plain) Hr2) as (r3 & -> & Hr3);
    [by intros ? [= <-]|].
  destruct (Hget _ _ as_bytes "hash" r3 law_bytes ltac:(plain) Hr3 Hth) as (r4 & -> & Hr4).
  destruct (Hget _ _ as_bool "bootable" r4 law_bool ltac:(plain) Hr4 (Hf _)) as (r5 & -> & Hr5).
  destruct (Hget _ _ as_bool "pending" r5 law_bool ltac:(plain) Hr5 (Hf _)) as (r6 & -> & Hr6).
  destruct (Hget _ _ as_bool "confirmed" r6 law_bool ltac:(plain) Hr6 (Hf _)) as (r7 & -> & Hr7).
  destruct (Hget _ _ as_bool "active" r7 law_bool ltac:(plain) Hr7 (Hf _)) as (r8 & -> & Hr8).
  destruct (Hget _ _ as_bool "permanent" r8 law_bool ltac:(plain) Hr8 (Hf _)) as (r9 & -> & Hr9).
  exists r9. split; [|apply Hr9]. unfold status. rewrite (rd_error _ _ _ Hr9). cbn [result_bind].
  f_equal. by apply build_slot_fields.
Qed.

Lemma int_value_inv z : i32 z -> as_int (int_value z) = Some z.
Proof.
  unfold i32, int_value. intros Hz. split_if; simpl; [done|]. bool_to_prop.
  by rewrite (proj2 (Z.ltb_lt _ _)) by lia.
Qed.

Lemma narrow_opt_i32_fits o w : from_option i32 True o -> narrow_opt narrow_i32 o w = Success o.
Proof.
  destruct o as [z|]; [|done]. simpl. intros [H1 H2]. unfold narrow_i32.
  by rewrite (proj2 (Z.leb_le _ _) H1), (proj2 (Z.ltb_lt _ _) H2).
Qed.

Lemma state_decodes frugal st payload :
  image_state_ok st -> parse payload = Some (state_response frugal st) ->
  complete decode_state payload = Success st.
Proof.
  intros (Hn & Hs & Hsp) Hp. unfold complete, state_response in *.
  set (l := [("images", _); ("splitStatus", _)]%string) in Hp.
  assert (NoDup l.*1) as Hk by (simpl; apply (bool_decide_unpack _); by vm_compute).
  destruct (enter_spec payload _ kMaxCborNesting Hp ltac:(by split)) as (r & -> & Hr & Hm).
  cbn [result_bind]. unfold decode_state, r_integer.
  destruct (for_each_map_spec decode_slot 1 ltac:(lia) (collect decode_slot) "images" kMaxImages payload
              (fields_of l) [] r ((fun s => fields_of (slot_fields frugal s)) <$> slots st) (slots st))
    as (r1 & -> & Hr1 & Hm1).
  - done.
  - done.
  - by apply map_keys_NoDup.
  - plain.
  - left. rewrite find_fields by done. simpl. by rewrite <-list_fmap_compose.
  - clear -Hs. induction Hs as [|s ss Hs0 _ IH]; constructor; [by apply decode_slot_spec|done].
  - by rewrite length_fmap.
  - rewrite (rd_depth _ _ _ Hr), Hm. vm_compute. congruence.
  - destruct (get_field GetInt64InMapSZ as_int payload l [] r1 "splitStatus" (split_status st))
      as (r2 & -> & Hr2 & _); try done; [apply law_int|plain| |].
    { simpl. destruct (split_status st) as [z|]; simpl; [|done]. split; [done|by apply int_value_inv]. }
    destruct (leave_spec _ _ _ _ Hr2) as (r3 & -> & He & _). unfold status. rewrite He.
    cbn [result_bind fst]. rewrite narrow_opt_i32_fits by done. by destruct st.
Qed.


(** The slot table survives the wire: whatever table a device holds, written
    with every field or with the default ones left out, the client reads back
    exactly that table. *)
Lemma state_roundtrip (frugal : bool) (st : ImageState) :
  image_state_ok st -> value_ok (kMaxDepth + 1) (state_response frugal st) ->
  complete decode_state (encode (state_response frugal st)) = Success st.
Proof. intros Hs Hv. apply (state_decodes frugal); [done|]. by apply parse_encode. Qed.

End exact.


(** Two slots, one running and confirmed, one pending with a hash. *)
Definition sample_state : ImageState :=
  mkImageState [mkSlot 0 0 "1.2.3" None true false true true false;
                mkSlot 0 1 "1.3.0" (Some [7; 9; 255]) true true false false false] (Some (-2)).

Lemma sample_state_ok : image_state_ok sample_state.
Proof.
  split_and!; [vm_compute; lia| |vm_compute; by split].
  repeat constructor; try (vm_compute; congruence); vm_compute; lia.
Qed.

(** A code of 65536 is not zero, but it is reported as zero: the truncation
    drops the only bit that says so. *)
Lemma wide_code_reports_zero :
  extract_mgmt_error (encode (Map [Text "rc"; Uint 65536]))
  = Success (mkOutcome (Some (MgmtError_smp 0)) "").
Proof. reflexivity. Qed.

(** ** Bounds, whatever QCBOR does *)

Section typed.
Context `{QDecoder}.

(** Whatever bytes a device sends and whatever QCBOR makes of them, a slot
    table the client accepts is within its types and bounds: at most
    [kMaxImages] slots, numbers that fit their fields, version strings and
    hashes within their limits; and it was read without a single field of the
    wrong type. *)
Lemma decode_state_typed (payload : bytes) (r r' : Reader) (st : ImageState) :
  enter_map (new_reader payload kMaxCborNesting) = (Success tt, r) ->
  decode_state r = (Success st, r') ->
  image_state_ok st /\ error_ r' = None.
Proof. intros _. apply decode_state_ok. Qed.

(** C20. Statistics a device sends are bounded and unambiguous, whatever QCBOR
    makes of them: at most [kMaxStatisticsFields] fields, every name within its
    limit, and no name twice, so a lookup by name has one answer. *)
Theorem decode_group_typed (r r' : Reader) (g : StatisticsGroup) :
  decode_group r = Some (Success g, r') ->
  (length (sg_fields g) <= kMaxStatisticsFields)%nat /\
  (String.length (sg_name g) <= kMaxStatisticsNameLength)%nat /\
  Forall (fun f => String.length (sf_name f) <= kMaxStatisticsNameLength)%nat (sg_fields g) /\
  NoDup (sf_name <$> sg_fields g) /\
  (forall f, f ∈ sg_fields g -> find_field (sf_name f) (sg_fields g) = Some f).
Proof.
  intros Hd. apply decode_group_ok in Hd as (Hn & Hl & [Hf Hd] & _). split_and!; try done.
  intros f Hin. clear -Hd Hin. unfold find_field.
  induction (sg_fields g) as [|f0 fs IH]; [by apply not_elem_of_nil in Hin|].
  simpl in *. apply NoDup_cons in Hd as [Hnot Hd]. apply elem_of_cons in Hin as [->|Hin].
  - by rewrite bool_decide_eq_true_2.
  - rewrite bool_decide_eq_false_2; [by apply IH|].
    intros Heq. apply Hnot. rewrite Heq. by apply list_elem_of_fmap_2.
Qed.

End typed.

(** The walk over a statistics group ends: for any input, on any QCBOR whose
    cursor moves forward over what it consumes, decoding the response returns --
    a group or an error -- within as many steps as the input has bytes. *)
Lemma decode_group_total `{QCursorLaws} (payload : bytes) (r : Reader) (o : Result unit) :
  enter_map (new_reader payload kMaxCborNesting) = (o, r) ->
  exists result r', decode_group r = Some (result, r').
Proof.
  intros He. assert (reader_over r) as Ho.
  { eapply enter_map_over; [|exact He]. unfold reader_over. simpl. apply over_init. }
  unfold decode_group. pose proof (text_over "name" r Ho) as Ho1.
  destruct (r_text "name" r) as [name r1]. simpl in Ho1.
  destruct (find_entry_total "fields" r1 Ho1) as [[found r2] Hf].
  unfold for_each_uint_in_map. rewrite Hf. repeat case_match; simplify_eq; eauto.
Qed.

(** Evaluation stays away from the type of readers, which carries the model. *)
Lemma pair_eta {A B} (p : A * B) a : p.1 = a -> p = (a, p.2).
Proof. destruct p. simpl. by intros ->. Qed.

Lemma some_pair_eta {A B} (d : A * B) (o : option (A * B)) a :
  bool_decide (is_Some o) = true -> (default d o).1 = a -> o = Some (a, (default d o).2).
Proof. intros Hs%bool_decide_eq_true. destruct o as [p|]; [|by destruct Hs]. destruct p. simpl. by intros ->. Qed.

(** The reader a payload gives the decoders. *)
Definition opened (payload : bytes) : Reader := (enter_map (new_reader payload kMaxCborNesting)).2.

Definition sample_payload : bytes := encode (state_response false sample_state).

Definition sample_group : bytes :=
  encode (Map [Text "name"; Text "smp"; Text "fields"; Map [Text "rx"; Uint 3; Text "tx"; Uint 4]]).

Definition after_group : Reader := (default (fail Internal "", opened sample_group) (decode_group (opened sample_group))).2.

Lemma decode_group_typed_witness :
  let g := mkStatisticsGroup "smp" [mkField "rx" 3; mkField "tx" 4] in
  (length (sg_fields g) <= kMaxStatisticsFields)%nat /\
  (String.length (sg_name g) <= kMaxStatisticsNameLength)%nat /\
  Forall (fun f => String.length (sf_name f) <= kMaxStatisticsNameLength)%nat (sg_fields g) /\
  NoDup (sf_name <$> sg_fields g) /\
  (forall f, f ∈ sg_fields g -> find_field (sf_name f) (sg_fields g) = Some f).
Proof.
  apply (decode_group_typed (opened sample_group) after_group).
  apply (some_pair_eta (fail Internal "", opened sample_group)); vm_compute; reflexivity.
Defined.
