(* ===== verification/StubDevice.v ===== *)
(** * A pretend device

    [examples/stub_device/stub_device.cpp]: a device over the boot model
    (BootModel.v) that answers SMP requests with the small CBOR codec
    (Minicbor.v). It shares the header codec with the library and nothing else,
    so what it answers is an independent statement of the protocol. [None] is a
    call of the boot model that throws, which StubDeviceProperties.v excludes. *)

From S2P Require Import Prelude Errors Header ImageReader BootModel Minicbor StoredZip.

Definition kOsReset : Z := 5.
Definition kOsMcumgrParams : Z := 6.
Definition kOsBootloaderInfo : Z := 8.
Definition kImageState : Z := 0.
Definition kImageUpload : Z := 1.
Definition kBufSize : Z := 512.
Definition kBufCount : Z := 2.
Definition kSlotCapacity : Z := 512 * 1024.

(** ** Answers *)

(** [respond]. *)
Definition respond (request : Header) (payload : bytes) : bytes :=
  Header.encode
    (mkHeader (response_to (h_op request)) (h_version request) 0 (wrap 16 (zlen payload))
       (h_group request) (h_seq request) (h_command request)) ++ payload.

(** [empty_map] and [error_map]. *)
Definition empty_map : bytes := w_map 0.

Definition error_map (code : Z) : bytes := w_map 1 ++ w_text "rc" ++ w_uint code.

(** The rest of the codes of [ImageError] and [SmpError] that are told apart. *)
Definition ImageError_NoFreeMemory : Z := 15.
Definition ImageError_InvalidOffset : Z := 20.
Definition ImageError_InvalidLength : Z := 21.
Definition ImageError_CurrentVersionIsNewer : Z := 27.
Definition ImageError_InvalidImageTooLarge : Z := 30.
Definition ImageError_InvalidImageDataOverrun : Z := 31.
Definition SmpError_Ok : Z := 0.
Definition SmpError_Unknown : Z := 1.
Definition SmpError_InvalidArgument : Z := 3.

(** [translate]. *)
Definition translate (code : Z) : Z :=
  if code =? ImageError_Ok then SmpError_Ok
  else if (code =? ImageError_NoFreeSlot) || (code =? ImageError_CurrentVersionIsNewer)
          || (code =? ImageError_ImageAlreadyPending) then SmpError_BadState
  else if code =? ImageError_NoFreeMemory then SmpError_NoMemory
  else if (code =? ImageError_InvalidOffset) || (code =? ImageError_InvalidLength) then SmpError_InvalidArgument
  else SmpError_Unknown.

(** [image_error_map]. *)
Definition image_error_map (version : Version) (code : Z) : bytes :=
  match version with
  | V1 => w_map 1 ++ w_text "rc" ++ w_uint (translate code)
  | V2 => w_map 1 ++ w_text "err" ++ w_map 2 ++ w_text "group" ++ w_uint Group_Image ++ w_text "rc" ++ w_uint code
  end.

(** [encode_state]: one entry, and the listing. *)
Definition encode_entry (entry : SlotEntry) : bytes :=
  let hash := si_hash (e_content entry) in
  let has_hash := negb (bool_decide (hash = [])) in
  w_map (if has_hash then 9 else 8)
  ++ w_text "image" ++ w_uint (Z.of_nat (e_image entry))
  ++ w_text "slot" ++ w_uint (Z.of_nat (e_slot entry))
  ++ w_text "version" ++ w_text (si_version (e_content entry))
  ++ (if has_hash then w_text "hash" ++ w_blob hash else [])
  ++ w_text "bootable" ++ w_boolean (si_bootable (e_content entry))
  ++ w_text "pending" ++ w_boolean (e_pending entry)
  ++ w_text "confirmed" ++ w_boolean (e_confirmed entry)
  ++ w_text "active" ++ w_boolean (e_active entry)
  ++ w_text "permanent" ++ w_boolean (e_permanent entry).

Definition encode_state (slots : list SlotEntry) : bytes :=
  w_map 1 ++ w_text "images" ++ w_array (zlen slots) ++ flat_map encode_entry slots.

(** ** The device *)

(** [SecondImage]. *)
Record SecondImage := mkSecond {
  si_running : bytes;
  si_outcome : ApplyOutcome;
  si_apply_reads : nat;
  si_device_commits : bool
}.

(** [boot_config]. *)
Definition boot_config (second : option SecondImage) (mode : option Z) : BootConfig :=
  let behaviour := behaviour_for_mode mode in
  match second with
  | None => mkConfig behaviour 1 false false false false []
  | Some s =>
      mkConfig behaviour 2 false false false false
        (if si_device_commits s
         then [None; Some (mkCommit (si_outcome s) (si_apply_reads s) Commits 1)] else [])
  end.

(** [StubDevice]: the state of the device thread. *)
Record StubDevice := mkStub {
  d_model : BootModel;
  d_mode : option Z;
  d_upload_slot : option nat;
  d_received : nat;
  d_declared : nat;
  d_reboot_pending : bool
}.

Definition set_model (m : BootModel) (d : StubDevice) : StubDevice :=
  mkStub m (d_mode d) (d_upload_slot d) (d_received d) (d_declared d) (d_reboot_pending d).
Definition set_upload (slot : option nat) (received declared : nat) (d : StubDevice) : StubDevice :=
  mkStub (d_model d) (d_mode d) slot received declared (d_reboot_pending d).
Definition set_reboot_pending (b : bool) (d : StubDevice) : StubDevice :=
  mkStub (d_model d) (d_mode d) (d_upload_slot d) (d_received d) (d_declared d) b.

(** The constructor. *)
Definition new_stub (primary : bytes) (second : option SecondImage) (mode : option Z) : option StubDevice :=
  let! m := load_slot 0 primary (new_model (boot_config second mode)) in
  let! m := match second with Some s => load_slot 2 (si_running s) m | None => Some m end in
  Some (mkStub m mode None 0 0 false).

(** [StubDevice::reboot]. *)
Definition stub_reboot (d : StubDevice) : option StubDevice :=
  let! m := reboot (d_model d) in
  Some (set_upload None 0 0 (set_model m d)).

(** ** Handlers

    The payload of the answer, and the device after it. *)

(** The OS group. *)
Definition answer_os (header : Header) (request : option Value) (d : StubDevice) : bytes * StubDevice :=
  if h_command header =? kOsMcumgrParams
  then (w_map 2 ++ w_text "buf_size" ++ w_uint kBufSize ++ w_text "buf_count" ++ w_uint kBufCount, d)
  else
    match (if h_command header =? kOsBootloaderInfo then d_mode d else None) with
    | Some mode =>
        let asks_mode := match request with Some r => bool_decide (find "query" r <> None) | None => false end in
        (if negb asks_mode then w_map 1 ++ w_text "bootloader" ++ w_text "MCUboot"
         else if mode <? 0 then w_map 1 ++ w_text "mode" ++ w_nint mode
         else w_map 1 ++ w_text "mode" ++ w_uint mode, d)
    | None =>
        if h_command header =? kOsReset then (empty_map, set_reboot_pending true d)
        else (error_map 8, d)
    end.

(** Set-state. *)
Definition answer_set_state (header : Header) (request : option Value) (d : StubDevice)
  : option (bytes * StubDevice) :=
  if negb (supports_set_state (d_model d)) then Some (error_map 8, d)
  else
    match request with
    | None => Some (error_map 3, d)
    | Some request =>
        let confirm := default false (get_bool "confirm" request) in
        let set named :=
          let! (result, m) := set_state named confirm (d_model d) in
          let d := set_model m d in
          Some (if negb (result =? ImageError_Ok) then image_error_map (h_version header) result
                else encode_state (listing m), d) in
        match find "hash" request with
        | Some (Bytes hash) => set (Some hash)
        | Some _ => Some (error_map 3, d)
        | None => if negb confirm then Some (error_map 3, d) else set None
        end
    end.

(** The first packet of an upload: the refusal, or the session it opens. *)
Definition open_upload (header : Header) (request : Value) (data : bytes) (d : StubDevice)
  : option (option bytes * StubDevice) :=
  match get_uint "len" request with
  | None => Some (Some (error_map 3), d)
  | Some len =>
      if zlen data <? kImageHeaderSize then Some (Some (error_map 3), d)
      else
        let! magic := read32 data 0 in
        if negb (magic =? kImageMagic) then Some (Some (error_map 3), d)
        else
          match upload_target (d_model d) (Z.to_nat (default 0 (get_uint "image" request))) with
          | None => Some (Some (image_error_map (h_version header) ImageError_NoFreeSlot), d)
          | Some slot =>
              if kSlotCapacity <? len
              then Some (Some (image_error_map (h_version header) ImageError_InvalidImageTooLarge), d)
              else
                let! m := begin_upload slot (Z.to_nat len) (d_model d) in
                Some (None, set_upload (Some slot) 0 (Z.to_nat len) (set_model m d))
          end
  end.

(** Then the data. *)
Definition store_data (header : Header) (off : Z) (data : bytes) (d : StubDevice) : option (bytes * StubDevice) :=
  let answer_off n := w_map 1 ++ w_text "off" ++ w_uint (Z.of_nat n) in
  match d_upload_slot d with
  | None => Some (answer_off (d_received d), d)
  | Some slot =>
      if negb (off =? Z.of_nat (d_received d)) then Some (answer_off (d_received d), d)
      else
        let! (written, m) := write slot (d_received d) data (d_model d) in
        let d := set_model m d in
        if negb written
        then Some (image_error_map (h_version header) ImageError_InvalidImageDataOverrun, d)
        else
          let received := (d_received d + length data)%nat in
          let complete := (received =? d_declared d)%nat in
          let d :=
            if complete then set_upload None 0 (d_declared d) d
            else set_upload (d_upload_slot d) received (d_declared d) d in
          Some (answer_off (if complete then d_declared d else d_received d), d)
  end.

(** An upload packet. *)
Definition answer_upload (header : Header) (request : option Value) (d : StubDevice)
  : option (bytes * StubDevice) :=
  match request with
  | None => Some (error_map 3, d)
  | Some request =>
      match get_uint "off" request, find "data" request with
      | Some off, Some (Bytes data) =>
          let! (refused, d) :=
            (if off =? 0 then open_upload header request data d else Some (None, d)) in
          match refused with
          | Some payload => Some (payload, d)
          | None => store_data header off data d
          end
      | _, _ => Some (error_map 3, d)
      end
  end.

(** The payload of the answer to a request. *)
Definition answer_payload (header : Header) (request : option Value) (d : StubDevice)
  : option (bytes * StubDevice) :=
  if h_group header =? Group_Os then Some (answer_os header request d)
  else if negb (h_group header =? Group_Image) then Some (error_map 8, d)
  else if (h_command header =? kImageState) && bool_decide (h_op header = Read) then
    let '(slots, m) := read_state (d_model d) in Some (encode_state slots, set_model m d)
  else if (h_command header =? kImageState) && bool_decide (h_op header = Header.Write)
  then answer_set_state header request d
  else if (h_command header =? kImageUpload) && bool_decide (h_op header = Header.Write)
  then answer_upload header request d
  else Some (error_map 8, d).

(** [StubDevice::answer]. *)
Definition answer (raw : bytes) (d : StubDevice) : option (option bytes * StubDevice) :=
  match decode_header raw with
  | Fail _ => Some (None, d)
  | Success header =>
      if zlen raw <? Z.of_nat kHeaderSize + h_length header then Some (None, d)
      else
        let! payload := subspan raw (Z.of_nat kHeaderSize) (h_length header) in
        let! (reply, d) := answer_payload header (parse payload) d in
        Some (Some (respond header reply), d)
  end.
