(* ===== verification/StubDeviceProperties.v ===== *)
(** * The pretend device and the library

    What the device of StubDevice.v answers is what the library expects of a
    device: every addressed request is answered under its own header, the slot
    table is read back by the library's decoder as the boot model lists it, and
    an upload leaves the file in the slot whatever packets are repeated, lost or
    out of order. *)

From S2P Require Import Prelude Errors Header ImageValues UpdateTypes Minicbor Sha256 McubootImage StoredZip ImageReader Cbor GroupCodecs CborLaws QcborModel GroupProperties BootModel BootModelProperties StubDevice.

(** ** The slot table *)

(** A slot as the library sees it. *)
Definition wire_slot (e : SlotEntry) : ImageSlot :=
  mkSlot (Z.of_nat (e_image e)) (Z.of_nat (e_slot e)) (ImageReader.si_version (e_content e))
    (if bool_decide (si_hash (e_content e) = []) then None else Some (si_hash (e_content e)))
    (si_bootable (e_content e)) (e_pending e) (e_confirmed e) (e_active e) (e_permanent e).

Definition wire_state (es : list SlotEntry) : ImageState := mkImageState (wire_slot <$> es) None.

Lemma encode_entry_fields e : encode_entry e = encode (Map (fields_of (slot_fields false (wire_slot e)))).
Proof.
  unfold encode_entry, slot_fields, wire_slot. cbn [sl_image sl_slot sl_version sl_hash sl_bootable sl_pending sl_confirmed sl_active sl_permanent].
  case_bool_decide; cbn [negb fmap option_fmap option_map fields_of flag andb encode flat_map]; rewrite <- ?app_assoc, ?app_nil_r; reflexivity.
Qed.

Lemma encode_state_response es : encode_state es = encode (state_response false (wire_state es)).
Proof.
  unfold encode_state, state_response, wire_state. cbn [slots split_status fmap option_fmap option_map fields_of encode flat_map length].
  change (Z.of_nat 2 / 2) with 1. rewrite app_nil_r, !length_fmap. do 3 f_equal.
  induction es as [|e es IH]; [done|]. cbn [fmap list_fmap flat_map]. by rewrite encode_entry_fields, IH.
Qed.

(** What the flash holds is bytes, and of a size a device can have. *)
Definition flash_ok (m : BootModel) : Prop :=
  Forall (fun p => byte_list (primary p) /\ byte_list (secondary p) /\
    zlen (primary p) < 2 ^ 62 /\ zlen (secondary p) < 2 ^ 62) (images m).

Lemma tlv_body_bytes content magic area_end fuel entry hash hash' :
  byte_list content -> byte_list hash ->
  iterate (tlv_body content magic area_end) fuel (entry, hash) = Some (Some hash') -> byte_list hash'.
Proof.
  intros Hb Hh H. eapply (iterate_inv (tlv_body content magic area_end) (fun s => byte_list s.2) (fun r => from_option byte_list True r)) in H;
    [done| | |done].
  - intros [e h] s' Hs E. cbn [snd] in Hs. unfold tlv_body in E. repeat case_match; simplify_eq; cbn; try done.
    match goal with Hsub : StoredZip.subspan _ _ _ = Some _ |- _ => unfold StoredZip.subspan in Hsub end. case_match; simplify_eq.
    by apply byte_list_take, byte_list_drop.
  - intros [e h] r Hs E. cbn [snd] in Hs. unfold tlv_body in E. repeat case_match; simplify_eq; done.
Qed.

Lemma areas_bytes content n offset hash hash' :
  byte_list content -> byte_list hash -> areas content n offset hash = Some hash' -> byte_list hash'.
Proof.
  intros Hb. revert offset hash. induction n as [|n IH]; intros offset hash Hh; cbn [areas]; [by intros [= <-]|].
  destruct (negb _); [by intros [= <-]|]. destruct (read16 content offset); [|done]. cbn [option_bind].
  destruct (read16 content _); [|done]. cbn [option_bind]. destruct (_ && _); [by intros [= <-]|].
  destruct (_ || _); [by intros [= <-]|]. destruct (iterate _ _ _) as [[h|]|] eqn:E; try done.
  apply tlv_body_bytes in E; [|done..]. destruct (_ =? _); [by intros [= <-]|by apply IH].
Qed.

(** What [describe] says fits the fields of the wire. *)
Lemma describe_fits content d :
  byte_list content -> zlen content < 2 ^ 62 -> describe content = Some d ->
  (String.length (ImageReader.si_version d) <= kMaxVersionStringLength)%nat /\ byte_list (si_hash d).
Proof.
  intros Hb Hf. unfold describe. pose proof (read_slot_spec content Hb Hf) as Hs.
  destruct (_ || _) eqn:El; [by rewrite Hs|]. apply orb_false_iff in El as [El _]. apply Nat.ltb_ge in El.
  destruct Hs as (hash & Ha & ->). cbn. intros [= <-]. cbn. split.
  - set (v := mkVersion (at_ content kOffsetVersionMajor) (at_ content kOffsetVersionMinor)
                (load_le16 content kOffsetVersionRevision) (load_le32 content kOffsetVersionBuild)).
    change (String.length (ver_str (v_major v) (v_minor v) (v_revision v) (v_build v)) <= kMaxVersionStringLength)%nat.
    rewrite ver_str_version. assert (version_ok v) as Hv.
    { unfold version_ok, v. cbn. split_and!; [apply at_u8; [done|unfold kOffsetVersionMajor; lia]|apply at_u8; [done|unfold kOffsetVersionMinor; lia]|
        apply load_le16_inv; [done|unfold kOffsetVersionRevision; lia]|apply load_le32_inv; [done|unfold kOffsetVersionBuild; lia]]. }
    pose proof (version_roundtrip v Hv) as Hp. unfold parse_version in Hp. destruct (_ || _) eqn:E; [done|].
    apply orb_false_iff in E as [_ E]. by apply Nat.ltb_ge in E.
  - eapply areas_bytes; [exact Hb| |exact Ha]. constructor.
Qed.

Lemma flash_slot m i slot p : flash_ok m -> images m !! i = Some p ->
  byte_list (slot_get p slot) /\ zlen (slot_get p slot) < 2 ^ 62.
Proof.
  intros Hf Hi. unfold flash_ok in Hf. rewrite Forall_lookup in Hf. destruct (Hf _ _ Hi) as (? & ? & ? & ?).
  by destruct slot.
Qed.

Lemma listing_length m : (length (listing m) <= 2 * length (images m))%nat.
Proof.
  unfold listing. assert (forall f : nat -> ImagePair -> list SlotEntry, (forall i p, length (f i p) <= 2)%nat ->
    (length (concat (imap f (images m))) <= 2 * length (images m))%nat) as H; [|apply H].
  - induction (images m) as [|p ps IH]; intros f Hf; [cbn; lia|]. cbn. rewrite length_app. specialize (IH (f ∘ S)).
    pose proof (Hf 0%nat p). unfold compose in IH at 1. specialize (IH ltac:(intros; apply Hf)). cbn in *. lia.
  - intros i p. unfold image_entries. cbn. repeat case_match; cbn; lia.
Qed.

(** The library can hold what the device lists: a device of up to eight images,
    none of whose hashes is longer than any hash is. *)
Definition listing_fits (m : BootModel) : Prop :=
  (length (images m) <= 8)%nat /\
  Forall (fun e => length (si_hash (e_content e)) <= kMaxImageHashLength)%nat (listing m).

Lemma wire_state_ok m : flash_ok m -> listing_fits m -> image_state_ok (wire_state (listing m)).
Proof.
  intros Hf [Hn Hh]. unfold image_state_ok, wire_state. cbn [slots split_status from_option]. split_and!; [| |done].
  - rewrite length_fmap. pose proof (listing_length m). unfold kMaxImages. lia.
  - apply Forall_fmap, Forall_forall. intros e He. rewrite Forall_forall in Hh. specialize (Hh e He).
    apply listing_elem in He as (i & slot & p & Hi & Hs & He). destruct (flash_slot m i slot p Hf Hi) as [Hb Hl].
    destruct (entry_fields _ _ _ _ _ He) as (Ei & Es & Ed). destruct (describe_fits _ _ Hb Hl Ed) as [Hv _].
    apply lookup_lt_Some in Hi. unfold slot_ok, wire_slot. cbn. split_and!; try (unfold fits; lia); try done.
    case_bool_decide as Hne; [done|]. cbn. split; [|done]. destruct (si_hash (e_content e)); [done|cbn; lia].
Qed.

Lemma array_ok n items : value_ok (S n) (Array items) = (u64 (zlen items) /\ Forall (value_ok n) items).
Proof. done. Qed.

(** A list of fields whose values are of the subset is a map of the subset. *)
Lemma fields_ok n l :
  Forall (fun f => Z.of_nat (String.length f.1) < 2 ^ 32 /\ from_option (value_ok (S n)) True f.2) l ->
  zlen l < 2 ^ 32 -> value_ok (S (S n)) (Map (fields_of l)).
Proof.
  intros Hl Hn. assert (entries_ok (value_ok (S n)) (fields_of l) /\ (length (fields_of l) <= 2 * length l)%nat) as [He Hlen].
  { clear Hn. induction Hl as [|[k [v|]] l [Hk Hv] Hl [IHe IHl]]; cbn [fields_of length fst snd from_option] in *; [done| |]; (split; [|lia]).
    - cbn [entries_ok]. split_and!; [apply text_ok; lia|done..].
    - done. }
  split; [|done]. unfold fits. split; [apply Z.div_pos; lia|]. apply Z.div_lt_upper_bound; lia.
Qed.

Lemma wire_state_value m : flash_ok m -> listing_fits m -> value_ok (kMaxDepth + 1) (state_response false (wire_state (listing m))).
Proof.
  intros Hf Hl. pose proof (wire_state_ok m Hf Hl) as (Hn & Hs & _).
  unfold state_response, wire_state in *. cbn [slots split_status] in *.
  change (kMaxDepth + 1)%nat with (S (S 7)). apply fields_ok; [|done].
  constructor; [|constructor; [|constructor]]; (split; [done|]); cbn [snd from_option fmap option_fmap option_map]; [|done].
  rewrite !length_fmap in *. unfold kMaxImages in *. rewrite array_ok. split; [rewrite !length_fmap; unfold fits; lia|].
  apply Forall_fmap, Forall_fmap, Forall_forall. intros e Hin. unfold compose.
  pose proof Hin as He. apply listing_elem in He as (i & slot & p & Hi & Hsl & He). destruct (flash_slot m i slot p Hf Hi) as [Hb Hlen].
  destruct (entry_fields _ _ _ _ _ He) as (Ei & Es & Ed). destruct (describe_fits _ _ Hb Hlen Ed) as [Hv Hhb].
  apply lookup_lt_Some in Hi. destruct Hl as [Hl8 Hhl]. unfold kMaxVersionStringLength in Hv.
  apply fields_ok; [|done]. unfold slot_fields, wire_slot.
  cbn [sl_image sl_slot sl_version sl_hash sl_bootable sl_pending sl_confirmed sl_active sl_permanent andb flag].
  rewrite Forall_forall in Hhl. specialize (Hhl e Hin). unfold kMaxImageHashLength in Hhl.
  rewrite !Forall_cons, Forall_nil. cbn [fst snd from_option]. split_and!; try done.
  - cbn. unfold fits. lia.
  - cbn. unfold fits. lia.
  - apply text_ok. lia.
  - case_bool_decide; [done|]. split; [done|]. unfold fits. lia.
Qed.

(** What the device answers to a state request, read back by the library's
    decoder, is the boot model's listing: each entry under its image and slot,
    with the version and the hash of the content, the hash present exactly when
    the image carries one, and its flags, in order and with nothing added. The
    device's codec and the library's share no code; the contents of the flash
    are any bytes. *)
Lemma device_table_read `{QDecoderLaws} m :
  flash_ok m -> listing_fits m -> complete decode_state (encode_state (listing m)) = Success (wire_state (listing m)).
Proof.
  intros Hf Hl. rewrite encode_state_response. apply (state_decodes false); [by apply wire_state_ok|].
  apply parse_encode, wire_state_value; done.
Qed.

(** ** An upload into a slot *)

Lemma slot_content_load slot b m m' :
  load_slot slot b m = Some m' ->
  slot_content m' slot = Some b /\ length (images m') = length (images m) /\
  config m' = config m /\ xip_active m' = xip_active m /\
  (forall s, s <> slot -> slot_content m' s = slot_content m s).
Proof.
  unfold load_slot, with_pair, slot_content. pose proof (Nat.div_mod slot 2 ltac:(lia)) as Hslot.
  pose proof (Nat.mod_upper_bound slot 2 ltac:(lia)) as Hw. revert Hslot Hw. generalize (slot mod 2)%nat as w. intros w Hslot Hw.
  destruct (images m !! (slot / 2)%nat) as [p|] eqn:Hi; [|done].
  cbn [option_bind]. intros [= <-]. cbn [images set_images config xip_active].
  rewrite list_lookup_insert_eq by (by eapply lookup_lt_Some). rewrite length_insert. cbn [option_bind].
  split_and!; [by destruct w|done..|]. intros s Hs.
  pose proof (Nat.div_mod s 2 ltac:(lia)). pose proof (Nat.mod_upper_bound s 2 ltac:(lia)).
  destruct (decide (s / 2 = slot / 2)%nat) as [E|E]; [|by rewrite list_lookup_insert_ne by done].
  rewrite E, list_lookup_insert_eq, Hi by (by eapply lookup_lt_Some). cbn [option_bind]. f_equal.
  destruct w as [|[|]], (s mod 2)%nat as [|[|]]; done || lia.
Qed.

(** The slot an upload goes to depends on nothing the upload changes. *)
Lemma upload_target_same m m' image :
  length (images m') = length (images m) -> config m' = config m -> xip_active m' = xip_active m ->
  upload_target m' image = upload_target m image.
Proof. intros Hl Hc Ha. unfold upload_target, direct_xip. by rewrite Hl, Hc, Ha. Qed.

Lemma upload_target_content m image slot :
  (xip_active m <= 1)%nat -> upload_target m image = Some slot -> is_Some (slot_content m slot).
Proof.
  intros Ha. unfold upload_target. destruct (_ <=? image)%nat eqn:El; [done|]. apply Nat.leb_gt in El. intros Hs.
  destruct (slot_content m slot) eqn:E; [done|]. apply slot_content_none in E.
  destruct (direct_xip m && _); injection Hs as <-; lia.
Qed.

Section receiving.
Context (file : bytes) (image slot : nat) (others : nat -> option bytes).

(** What the slot holds once [n] bytes of the file have been taken in. *)
Definition partly (n : nat) : bytes := take n file ++ replicate (length file - n) 0xFF.

(** The device between two packets of the file: the other slots as they were. *)
Record receiving (d : StubDevice) : Prop := {
  up_active : (xip_active (d_model d) <= 1)%nat;
  up_target : upload_target (d_model d) image = Some slot;
  up_others : forall s, s <> slot -> slot_content (d_model d) s = others s;
  up_session : match d_upload_slot d with
    | None => d_received d = 0%nat
    | Some s => s = slot /\ d_declared d = length file /\ (d_received d < length file)%nat /\
        slot_content (d_model d) slot = Some (partly (d_received d))
    end
}.

(** A packet: a piece of the file, the first one saying the length of the file
    and the image it is for. *)
Record packet (request : Value) (o : nat) (data : bytes) : Prop := {
  pk_off : get_uint "off" request = Some (Z.of_nat o);
  pk_data : find "data" request = Some (Bytes data);
  pk_piece : exists rest, drop o file = data ++ rest;
  pk_inside : (o < length file)%nat;
  pk_first : o = 0%nat -> get_uint "len" request = Some (zlen file) /\
    default 0 (get_uint "image" request) = Z.of_nat image
}.

(** What makes the device take a first packet. *)
Definition opens (data : bytes) : Prop :=
  kImageHeaderSize <= zlen data /\ read32 data 0 = Some kImageMagic /\ zlen file <= kSlotCapacity.

Definition offset_reply (n : nat) : bytes := w_map 1 ++ w_text "off" ++ w_uint (Z.of_nat n).

Lemma partly_write (o : nat) (data rest : bytes) :
  (o < length file)%nat -> drop o file = data ++ rest ->
  take o (partly o) ++ data ++ drop (o + length data) (partly o) = partly (o + length data).
Proof.
  intros Ho Hd. unfold partly. pose proof (length_drop file o) as Hl. rewrite Hd, length_app in Hl.
  rewrite take_app_le by (rewrite length_take; lia). rewrite take_take, Nat.min_id.
  rewrite drop_app_ge by (rewrite length_take; lia). rewrite length_take, Nat.min_l by lia.
  replace (o + length data - o)%nat with (length data) by lia. rewrite drop_replicate.
  rewrite <- (take_drop o file) at 3. rewrite take_app_ge by (rewrite length_take; lia).
  rewrite length_take, Nat.min_l by lia. replace (o + length data - o)%nat with (length data) by lia.
  rewrite Hd, take_app_length, <- app_assoc. do 3 f_equal. lia.
Qed.

Lemma partly_length n : (n <= length file)%nat -> length (partly n) = length file.
Proof. intros Hn. unfold partly. rewrite length_app, length_take, length_replicate. lia. Qed.

Lemma partly_whole : partly (length file) = file.
Proof. unfold partly. by rewrite Nat.sub_diag, firstn_all, app_nil_r. Qed.

(** Before anything has arrived the slot is erased to the length of the file. *)
Lemma begin_upload_spec m :
  (xip_active m <= 1)%nat -> upload_target m image = Some slot ->
  exists m', begin_upload slot (length file) m = Some m' /\ (xip_active m' <= 1)%nat /\
    upload_target m' image = Some slot /\ slot_content m' slot = Some (partly 0) /\
    (forall s, s <> slot -> slot_content m' s = slot_content m s).
Proof.
  intros Ha Ht. destruct (upload_target_content _ _ _ Ha Ht) as [content Hc]. unfold begin_upload.
  assert (exists m1, load_slot slot (replicate (length file) 0xFF) m = Some m1) as [m1 Hl].
  { destruct (load_slot slot _ m) eqn:E; [by eexists|]. apply load_slot_none, slot_content_none in E. congruence. }
  destruct (slot_content_load _ _ _ _ Hl) as (Hs & Hn & Hcf & Hx & Hfr). unfold load_slot in Hl. rewrite Hl. cbn [option_bind].
  eexists. split; [done|]. assert (slot_content m1 slot = Some (partly 0)) as Hp.
  { rewrite Hs. unfold partly. by rewrite Nat.sub_0_r. }
  rewrite <- (upload_target_same m m1) in Ht by done.
  assert (xip_active m1 <= 1)%nat by lia. by destruct (_ && _).
Qed.

(** The data of a packet, once the session is known: it is dropped and the
    device's offset answered, or written where the file has it. *)
Lemma data_stored header d o data request :
  receiving d -> packet request o data ->
  exists n d', store_data header (Z.of_nat o) data d = Some (offset_reply n, d') /\ receiving d' /\
    (n <= length file)%nat /\ (n <> 0%nat -> slot_content (d_model d') slot = Some (partly n)) /\
    (if bool_decide (d_upload_slot d <> None /\ o = d_received d)
     then n = (o + length data)%nat /\
       d_upload_slot d' = (if (n =? length file)%nat then None else Some slot) /\
       d_received d' = (if (n =? length file)%nat then 0%nat else n)
     else n = d_received d /\ d' = d).
Proof.
  intros [Ha Ht Hot Hs] [_ _ (rest & Hr) Ho _]. unfold store_data. destruct (d_upload_slot d) as [s|] eqn:Es.
  2:{ exists 0%nat, d. rewrite Hs. split_and!; [done|split; [done..|by rewrite Es]|lia|done|by rewrite bool_decide_eq_false_2 by tauto]. }
  destruct Hs as (-> & Hd & Hlt & Hc). destruct (Z.eqb_spec (Z.of_nat o) (Z.of_nat (d_received d))) as [E|E]; cbn [negb].
  2:{ exists (d_received d), d. split_and!; [done|split; [done..|by rewrite Es]|lia|done|].
      rewrite bool_decide_eq_false_2 by (intros [_ ->]; done). done. }
  apply Nat2Z.inj in E as ->. pose proof (length_drop file (d_received d)) as Hl. rewrite Hr, length_app in Hl.
  unfold write. rewrite Hc. cbn [option_bind]. rewrite partly_length by lia.
  destruct (length file <? d_received d)%nat eqn:E1; [apply Nat.ltb_lt in E1; lia|].
  destruct (length file - d_received d <? length data)%nat eqn:E2; [apply Nat.ltb_lt in E2; lia|]. cbn [orb].
  rewrite (partly_write _ _ rest) by done.
  set (n := (d_received d + length data)%nat).
  destruct (load_slot slot (partly n) (d_model d)) as [m'|] eqn:Hw.
  2:{ apply load_slot_none, slot_content_none in Hw. congruence. }
  destruct (slot_content_load _ _ _ _ Hw) as (Hs & Hn & Hcf & Hx & Hfr). cbn [option_bind negb].
  rewrite <- (upload_target_same (d_model d) m') in Ht by done.
  exists n, (if (n =? length file)%nat then set_upload None 0 (length file) (set_model m' d)
             else set_upload (Some slot) n (length file) (set_model m' d)).
  rewrite bool_decide_eq_true_2 by done.
  change (d_received (set_model m' d)) with (d_received d). change (d_declared (set_model m' d)) with (d_declared d).
  change (d_upload_slot (set_model m' d)) with (d_upload_slot d). rewrite Es, Hd. fold n.
  destruct (Nat.eqb_spec n (length file)) as [En|Hne].
  - rewrite En in *. split_and!; try done. split; cbn; [by rewrite Hx|done| |done]. intros s Hs'. by rewrite Hfr, Hot.
  - split_and!; try done; [|lia]. split; cbn; [by rewrite Hx|done| |].
    + intros s Hs'. by rewrite Hfr, Hot.
    + split_and!; done || lia.
Qed.

(** A packet the device takes in: the first one, or the one at the offset of a
    session that is open. *)
Definition taken (d : StubDevice) (o : nat) : Prop :=
  o = 0%nat \/ (d_upload_slot d <> None /\ o = d_received d).

#[global] Instance taken_dec d o : Decision (taken d o).
Proof. unfold taken. apply _. Defined.

Lemma opened header d data request :
  receiving d -> packet request 0 data -> opens data ->
  exists d', open_upload header request data d = Some (None, d') /\ receiving d' /\
    d_upload_slot d' = Some slot /\ d_received d' = 0%nat.
Proof.
  intros [Ha Ht Hot Hs] [_ _ _ Ho Hfirst] (Hlen & Hmagic & Hcap). destruct (Hfirst eq_refl) as [Hl Hi].
  unfold open_upload. rewrite Hl, Hi, Nat2Z.id, Ht, Hmagic. cbn [option_bind].
  destruct (Z.ltb_spec (zlen data) kImageHeaderSize); [lia|]. rewrite Z.eqb_refl. cbn [negb].
  destruct (Z.ltb_spec kSlotCapacity (zlen file)); [lia|]. rewrite Nat2Z.id.
  destruct (begin_upload_spec _ Ha Ht) as (m' & -> & Ha' & Ht' & Hc' & Hfr). cbn [option_bind].
  eexists. split; [done|]. split; [|done]. split; [done..| |]; cbn; [|by split_and!].
  intros s Hs'. by rewrite Hfr, Hot.
Qed.

(** Every packet of the file is answered with an offset, and the slot holds the
    file up to there. *)
Lemma packet_answered header d o data request :
  receiving d -> packet request o data -> (o = 0%nat -> opens data) ->
  exists n d', answer_upload header (Some request) d = Some (offset_reply n, d') /\ receiving d' /\
    (n <= length file)%nat /\ (n <> 0%nat -> slot_content (d_model d') slot = Some (partly n)) /\
    (if bool_decide (taken d o)
     then n = (o + length data)%nat /\
       d_upload_slot d' = (if (n =? length file)%nat then None else Some slot) /\
       d_received d' = (if (n =? length file)%nat then 0%nat else n)
     else n = d_received d /\ d' = d).
Proof.
  intros Hu Hp Hopens. pose proof Hp as [Hoff Hdata _ _ _]. unfold answer_upload. rewrite Hoff, Hdata.
  destruct (Z.eqb_spec (Z.of_nat o) 0) as [E|E].
  - assert (o = 0%nat) as -> by lia. destruct (opened header d data request Hu Hp (Hopens eq_refl)) as (d1 & -> & Hu1 & Hs1 & Hr1).
    cbn [option_bind]. destruct (data_stored header d1 0 data request Hu1 Hp) as (n & d' & Hst & Hu' & Hn & Hc & Hif).
    exists n, d'. rewrite bool_decide_eq_true_2 in Hif by (by rewrite Hs1, Hr1).
    rewrite (bool_decide_eq_true_2 (taken d 0)) by (by left). done.
  - cbn [option_bind]. destruct (data_stored header d o data request Hu Hp) as (n & d' & Hst & Hu' & Hn & Hc & Hif).
    exists n, d'. split_and!; try done. destruct (decide (d_upload_slot d <> None /\ o = d_received d)) as [Ht|Ht].
    + rewrite bool_decide_eq_true_2 in Hif by done. by rewrite bool_decide_eq_true_2 by (by right).
    + rewrite bool_decide_eq_false_2 in Hif by done. rewrite bool_decide_eq_false_2; [done|]. intros [->|?]; [done|tauto].
Qed.
End receiving.

(** ** A sample device *)
