(* ===== verification/StubThread.v ===== *)
(** * The pretend device's thread

    The rest of [examples/stub_device/stub_device.cpp]: the queue of requests,
    the link, and the thread that answers one request at a time, drops the link
    at a reset and sleeps through the reboot. One step is one critical section,
    one call of the link, or the sleep with the reboot; what runs on other
    threads comes between any two. *)

From S2P Require Import Prelude Errors Header ImageReader BootModel BootModelProperties Minicbor StoredZip StubDevice StubDeviceProperties.

(** ** The thread *)

(** What a [DeviceLink] is called with. *)
Inductive LinkCall :=
| Deliver (link : nat) (message : bytes)
| Resetting (link : nat)
| Booted (link : nat).

(** Where [run] is: waiting for a request; with one taken, and the link it goes
    back on; about to tell that link of the reset; about to forget it; asleep;
    about to look for a link that hears the boot; about to tell it; returned; or
    ended by an exception of the boot model. *)
Inductive RunPoint :=
| AtWait
| AtRequest (request : bytes) (link : nat)
| AtReset (link : nat)
| AtForget (link : nat)
| AtSleep
| AtBooted
| AtTell (link : nat)
| Returned
| Thrown.

(** [StubDevice]: the members shared between threads, the device state of
    StubDevice.v, which is the thread's, and what the links were called with. *)
Record Board := mkBoard {
  inbox_ : list bytes;
  link_ : option nat;
  stop_ : bool;
  device_ : StubDevice;
  at_ : RunPoint;
  called : list LinkCall
}.

Definition set_inbox (x : list bytes) (b : Board) : Board := mkBoard x (link_ b) (stop_ b) (device_ b) (at_ b) (called b).
Definition set_link (x : option nat) (b : Board) : Board := mkBoard (inbox_ b) x (stop_ b) (device_ b) (at_ b) (called b).
Definition set_stop (x : bool) (b : Board) : Board := mkBoard (inbox_ b) (link_ b) x (device_ b) (at_ b) (called b).
Definition set_device (x : StubDevice) (b : Board) : Board := mkBoard (inbox_ b) (link_ b) (stop_ b) x (at_ b) (called b).
Definition go_to (x : RunPoint) (b : Board) : Board := mkBoard (inbox_ b) (link_ b) (stop_ b) (device_ b) x (called b).
Definition call (x : LinkCall) (b : Board) : Board := mkBoard (inbox_ b) (link_ b) (stop_ b) (device_ b) (at_ b) (called b ++ [x]).

(** [StubDevice::attach], [submit] and the first half of [stop]. *)
Definition attach (link : nat) (b : Board) : Board := set_link (Some link) b.
Definition submit (request : bytes) (b : Board) : Board := set_inbox (inbox_ b ++ [request]) b.
Definition ask_stop (b : Board) : Board := set_stop true b.

Section thread.
(** [DeviceLink::survives_reset]. *)
Context (survives_reset : nat -> bool).

(** The first critical section of [run]: [None] is a thread that sleeps on the
    condition variable. *)
Definition take_request (b : Board) : option Board :=
  if stop_ b then Some (go_to Returned b)
  else
    match inbox_ b with
    | [] => None
    | request :: rest =>
        let b := set_inbox rest b in
        Some (match link_ b with Some link => go_to (AtRequest request link) b | None => b end)
    end.

(** The request answered, and the answer handed to the link. *)
Definition serve_request (request : bytes) (link : nat) (b : Board) : Board :=
  match answer request (device_ b) with
  | None => go_to Thrown b
  | Some (reply, d) =>
      let b := match reply with Some message => call (Deliver link message) b | None => b end in
      if negb (d_reboot_pending d) then go_to AtWait (set_device d b)
      else go_to (AtReset link) (set_device (set_reboot_pending false d) b)
  end.

(** The second critical section: the dead link and its queue are forgotten. *)
Definition forget_link (link : nat) (b : Board) : Board :=
  let b := if negb (survives_reset link) then set_link None b else b in
  set_inbox [] b.

(** One step of [run]. *)
Definition thread_step (b : Board) : option Board :=
  match at_ b with
  | AtWait => take_request b
  | AtRequest request link => Some (serve_request request link b)
  | AtReset link => Some (go_to (AtForget link) (call (Resetting link) b))
  | AtForget link => Some (go_to AtSleep (forget_link link b))
  | AtSleep =>
      Some (match stub_reboot (device_ b) with
            | Some d => go_to AtBooted (set_device d b)
            | None => go_to Thrown b
            end)
  | AtBooted => Some (match link_ b with Some link => go_to (AtTell link) b | None => go_to AtWait b end)
  | AtTell link => Some (go_to AtWait (call (Booted link) b))
  | Returned | Thrown => None
  end.

(** The thread, and what other threads call. *)
Inductive BoardEvent := Submit (request : bytes) | Attach (link : nat) | Stop | Thread.

#[global] Instance BoardEvent_eq_dec : EqDecision BoardEvent.
Proof. solve_decision. Defined.

Definition board_step (e : BoardEvent) (b : Board) : option Board :=
  match e with
  | Submit request => Some (submit request b)
  | Attach link => Some (attach link b)
  | Stop => Some (ask_stop b)
  | Thread => thread_step b
  end.

Fixpoint run_board (es : list BoardEvent) (b : Board) : option Board :=
  match es with
  | [] => Some b
  | e :: es => let! b := board_step e b in run_board es b
  end.

End thread.

Definition thread_started (d : StubDevice) : Board := mkBoard [] None false d AtWait [].

(** ** Any bytes are answered *)

(** The device of a build [c], with an upload to a slot it has. *)
Definition stub_ok (c : BootConfig) (d : StubDevice) : Prop :=
  model_ok c (d_model d) /\ forall slot, d_upload_slot d = Some slot -> is_Some (slot_content (d_model d) slot).

Lemma slot_content_length m m' slot :
  length (images m') = length (images m) -> is_Some (slot_content m slot) -> is_Some (slot_content m' slot).
Proof.
  intros Hl [x Hx]. destruct (slot_content m' slot) eqn:E; [done|]. apply slot_content_none in E. rewrite Hl in E.
  apply slot_content_none in E. congruence.
Qed.

Lemma model_replaced c d m d' :
  stub_ok c d -> model_ok c m -> d_model d' = m -> (d_upload_slot d' = None \/ d_upload_slot d' = d_upload_slot d) -> stub_ok c d'.
Proof.
  intros [Hm Hs] Hm' <- Hu. split; [done|]. intros slot Hsl. destruct Hu as [Hu|Hu]; rewrite Hu in Hsl; [done|].
  eapply slot_content_length; [|by apply Hs]. destruct Hm as (_ & -> & _), Hm' as (_ & -> & _). done.
Qed.

Lemma op_ok c o m m' : model_ok c m -> exec o m = Some m' -> model_ok c m'.
Proof. apply exec_ok. Qed.

Lemma stored_ok c header off data d :
  stub_ok c d -> exists payload d', store_data header off data d = Some (payload, d') /\ stub_ok c d'.
Proof.
  intros Hd. pose proof Hd as [Hm Hs]. unfold store_data. destruct (d_upload_slot d) as [slot|] eqn:Eu; [|by eauto].
  destruct (negb _); [by eauto|]. destruct (Hs slot eq_refl) as [x Hx].
  destruct (write slot (d_received d) data (d_model d)) as [[w m]|] eqn:E.
  - assert (model_ok c m) as Hm' by (apply (op_ok c (Write slot (d_received d) data) (d_model d)); [done|cbn; by rewrite E]).
    destruct w; cbn; (do 2 eexists; split; [done|]).
    + case_match; (eapply (model_replaced c d m); [done|done|done|]); cbn; auto.
    + eapply (model_replaced c d m); [done|done|done|]; cbn; auto.
  - exfalso. assert (exec (Write slot (d_received d) data) (d_model d) = None) as E' by (cbn; by rewrite E).
    apply (exec_none c) in E'; [|done]. destruct Hm as (_ & Hl & _). rewrite <- Hl in E'. cbn in E'.
    apply slot_content_none in E'. congruence.
Qed.

Lemma open_ok c header request data d :
  stub_ok c d -> exists refused d', open_upload header request data d = Some (refused, d') /\ stub_ok c d'.
Proof.
  intros Hd. pose proof Hd as [Hm Hs]. unfold open_upload. destruct (get_uint "len" request) as [len|]; [|by eauto].
  destruct (Z.ltb_spec (zlen data) kImageHeaderSize) as [|Hl]; [by eauto|].
  assert (is_Some (read32 data 0)) as [magic ->].
  { unfold kImageHeaderSize in Hl. destruct data as [|b0 [|b1 [|b2 [|b3 rest]]]]; cbn in Hl; try lia. by eexists. }
  cbn [option_bind]. destruct (negb _); [by eauto|]. destruct (upload_target _ _) as [slot|] eqn:Et; [|by eauto].
  destruct (_ <? len); [by eauto|]. pose proof Hm as (_ & Hlen & _ & Ha & _).
  pose proof (upload_target_content _ _ _ Ha Et) as Hc.
  destruct (begin_upload slot (Z.to_nat len) (d_model d)) as [m|] eqn:E.
  - assert (model_ok c m) as Hm' by by apply (op_ok c (BeginUpload slot (Z.to_nat len)) (d_model d)).
    cbn. do 2 eexists. split; [done|]. split; [done|]. intros ? [= <-]. eapply slot_content_length; [|exact Hc].
    destruct Hm' as (_ & Hl' & _). cbn in *. congruence.
  - exfalso. assert (exec (BeginUpload slot (Z.to_nat len)) (d_model d) = None) as E' by done.
    apply (exec_none c) in E'; [|done]. rewrite <- Hlen in E'. apply slot_content_none in E'. destruct Hc. congruence.
Qed.

Lemma uploaded_ok c header request d :
  stub_ok c d -> exists reply d', answer_upload header request d = Some (reply, d') /\ stub_ok c d'.
Proof.
  intros Hd. unfold answer_upload. destruct request as [request|]; [|by eauto].
  destruct (get_uint "off" request) as [off|], (find "data" request) as [[]|]; try by eauto.
  match goal with |- context [open_upload header request ?x d] => rename x into data end.
  assert (exists refused d', (if off =? 0 then open_upload header request data d else Some (None, d)) = Some (refused, d') /\ stub_ok c d')
    as (refused & d1 & -> & Hd1) by (destruct (off =? 0); [by apply open_ok|by eauto]).
  cbn. destruct refused as [payload|]; [by eauto|by apply stored_ok].
Qed.

Lemma payload_ok c header request d :
  stub_ok c d -> exists reply d', answer_payload header request d = Some (reply, d') /\ stub_ok c d'.
Proof.
  intros Hd. pose proof Hd as [Hm Hs]. unfold answer_payload. destruct (_ =? Group_Os).
  { unfold answer_os. repeat case_match; eauto. }
  destruct (negb _); [by eauto|]. destruct (_ && _).
  { destruct (read_state (d_model d)) as [slots m] eqn:E. do 2 eexists. split; [done|].
    apply (model_replaced c d m); [done| |done|by right]. apply (op_ok c ReadState (d_model d)); [done|]. unfold exec. by rewrite E. }
  destruct (_ && _).
  { unfold answer_set_state. destruct (negb _); [by eauto|]. destruct request as [request|]; [|by eauto].
    assert (forall named, exists reply d', (let! (result, m) := set_state named (default false (get_bool "confirm" request)) (d_model d) in
      let d := set_model m d in
      Some (if negb (result =? ImageError_Ok) then image_error_map (h_version header) result
            else encode_state (listing m), d)) = Some (reply, d') /\ stub_ok c d') as Hset.
    { intros named. destruct (set_state_total c named (default false (get_bool "confirm" request)) (d_model d) Hm) as [[r m] E].
      rewrite E. cbn. do 2 eexists. split; [done|]. apply (model_replaced c d m); [done| |done|by right].
      apply (op_ok c (SetState named (default false (get_bool "confirm" request))) (d_model d)); [done|]. cbn. by rewrite E. }
    destruct (find "hash" request) as [[]|]; eauto. destruct (negb _); eauto. }
  destruct (_ && _); [by apply uploaded_ok|by eauto].
Qed.

(** [answer] returns for any bytes whatever, and the device stays what it is. *)
Lemma answer_ok c raw d :
  byte_list raw -> stub_ok c d -> exists reply d', answer raw d = Some (reply, d') /\ stub_ok c d'.
Proof.
  intros Hraw Hd. unfold answer. destruct (decode_header raw) as [header|] eqn:Eh; [|by eauto].
  apply decode_header_ok in Eh as (_ & Hl0 & _); [|done].
  destruct (Z.ltb_spec (zlen raw) (Z.of_nat kHeaderSize + h_length header)) as [|Hl]; [by eauto|].
  unfold fits in Hl0. unfold subspan. rewrite !(proj2 (Z.leb_le _ _)) by lia. cbn [andb option_bind].
  destruct (payload_ok c header (parse (take (Z.to_nat (h_length header)) (drop (Z.to_nat (Z.of_nat kHeaderSize)) raw))) d Hd)
    as (reply & d' & -> & Hd'). cbn. eauto.
Qed.

Lemma reboot_stub_ok c d : stub_ok c d -> exists d', stub_reboot d = Some d' /\ stub_ok c d'.
Proof.
  intros [Hm Hs]. unfold stub_reboot. destruct (reboot (d_model d)) as [m|] eqn:E.
  - cbn. eexists. split; [done|]. split; [|done]. by apply (op_ok c Reboot (d_model d)).
  - assert (exec Reboot (d_model d) = None) as E' by done. by apply (exec_none c) in E'.
Qed.

Lemma new_stub_ok primary second mode d :
  new_stub primary second mode = Some d -> stub_ok (boot_config second mode) d.
Proof.
  unfold new_stub. intros H.
  destruct (load_slot 0 primary (new_model (boot_config second mode))) as [m|] eqn:E; [|done]. cbn in H.
  apply (load_slot_ok (boot_config second mode)) in E; [|apply new_model_ok].
  destruct second as [s|]; cbn in H.
  - destruct (load_slot 2 (si_running s) m) as [m'|] eqn:E'; [|done]. cbn in H. injection H as <-.
    apply (load_slot_ok (boot_config (Some s) mode)) in E'; [by split|done].
  - injection H as <-. by split.
Qed.

(** ** The device, one request at a time *)

(** A request served by a device without a thread, reset and all. *)
Definition serve (request : bytes * nat) (d : StubDevice) : option (list LinkCall * StubDevice) :=
  let! (reply, d) := answer request.1 d in
  let calls := match reply with Some message => [Deliver request.2 message] | None => [] end in
  if d_reboot_pending d
  then let! d := stub_reboot (set_reboot_pending false d) in Some (calls ++ [Resetting request.2], d)
  else Some (calls, d).

Fixpoint serve_all (requests : list (bytes * nat)) (d : StubDevice) : option (list LinkCall * StubDevice) :=
  match requests with
  | [] => Some ([], d)
  | r :: rest =>
      let! (calls, d) := serve r d in
      let! (more, d) := serve_all rest d in Some (calls ++ more, d)
  end.

Lemma serve_all_snoc rs r d calls d1 calls' d2 :
  serve_all rs d = Some (calls, d1) -> serve r d1 = Some (calls', d2) -> serve_all (rs ++ [r]) d = Some (calls ++ calls', d2).
Proof.
  revert d calls. induction rs as [|r0 rs IH]; intros d calls; cbn [serve_all app].
  - intros [= <- <-] ->. cbn. by rewrite app_nil_r.
  - destruct (serve r0 d) as [[c0 d0]|]; [|done]. cbn. destruct (serve_all rs d0) as [[c1 d1']|] eqn:E; [|done]. cbn.
    intros [= <- <-] Hr. rewrite (IH _ _ E Hr). cbn. by rewrite app_assoc.
Qed.

(** What a thread in the middle of a request still owes. *)
Definition answers_due (p : RunPoint) : list LinkCall := match p with AtReset link => [Resetting link] | _ => [] end.
Definition in_service (p : RunPoint) : list bytes := match p with AtRequest request _ => [request] | _ => [] end.
Definition before_boot (p : RunPoint) : bool := match p with AtReset _ | AtForget _ | AtSleep => true | _ => false end.

Definition is_answer (c : LinkCall) : bool := match c with Booted _ => false | _ => true end.

Definition submitted (es : list BoardEvent) : list bytes :=
  omap (fun e => match e with Submit request => Some request | _ => None end) es.

Definition attached (es : list BoardEvent) : list nat :=
  omap (fun e => match e with Attach link => Some link | _ => None end) es.

(** The thread after [es], against the device that serves in turn. *)
Record in_turn (c : BootConfig) (d0 : StubDevice) (es : list BoardEvent) (served : list (bytes * nat)) (b : Board) : Prop := {
  it_served : exists d, serve_all served d0 = Some (List.filter is_answer (called b) ++ answers_due (at_ b), d) /\
    (if before_boot (at_ b) then stub_reboot (device_ b) else Some (device_ b)) = Some d;
  it_ok : stub_ok c (device_ b);
  it_quiet : d_reboot_pending (device_ b) = false;
  it_order : served.*1 ++ in_service (at_ b) ++ inbox_ b `sublist_of` submitted es;
  it_links : Forall (fun r => r.2 ∈ attached es) served;
  it_link : forall l, link_ b = Some l -> l ∈ attached es;
  it_on : forall request l, at_ b = AtRequest request l -> byte_list request /\ l ∈ attached es;
  it_bytes : Forall byte_list (inbox_ b);
  it_alive : at_ b <> Thrown
}.

Section runs.
Context (survives_reset : nat -> bool) (c : BootConfig) (d0 : StubDevice).

Lemma started_in_turn : stub_ok c d0 -> d_reboot_pending d0 = false -> in_turn c d0 [] [] (thread_started d0).
Proof. intros Hd Hr. split; try done; cbn; by eexists. Qed.

(** What other threads do leaves the device alone. *)
Lemma called_in_turn es served b e b' :
  e <> Thread -> (forall request, e = Submit request -> byte_list request) ->
  in_turn c d0 es served b -> board_step survives_reset e b = Some b' -> in_turn c d0 (es ++ [e]) served b'.
Proof.
  intros He Hbytes [Hs Hok Hq Ho Hl Hk Hn Hb0 Ha] Hb.
  assert (forall l, l ∈ attached es -> l ∈ attached (es ++ [e])) as Hmono by (intros l; unfold attached; rewrite omap_app, elem_of_app; auto).
  assert (submitted (es ++ [e]) = submitted es ++ submitted [e]) as Esub by apply omap_app.
  assert (Forall (fun r => r.2 ∈ attached (es ++ [e])) served) as Hl' by (eapply Forall_impl; [exact Hl|]; auto).
  assert (forall request l, at_ b = AtRequest request l -> byte_list request /\ l ∈ attached (es ++ [e])) as Hn'
    by (intros r l E; destruct (Hn r l E); auto).
  destruct e as [request|link| |]; [| | |done]; injection Hb as <-; split; try done; auto; rewrite ?Esub; cbn; rewrite ?app_nil_r; try done.
  - rewrite !app_assoc. apply sublist_app; [|done]. by rewrite <- app_assoc.
  - apply Forall_app. split; [done|]. constructor; [by apply Hbytes|done].
  - intros l [= <-]. unfold attached. rewrite omap_app, elem_of_app. right. by apply list_elem_of_singleton.
Qed.

Lemma serve_spec request link d :
  serve (request, link) d =
    let! (reply, d) := answer request d in
    let calls := match reply with Some message => [Deliver link message] | None => [] end in
    if d_reboot_pending d
    then let! d := stub_reboot (set_reboot_pending false d) in Some (calls ++ [Resetting link], d)
    else Some (calls, d).
Proof. done. Qed.

(** A step of the thread takes a request, serves the one it has, or carries on
    with the reset of the last. *)
Lemma thread_in_turn es served b b' :
  in_turn c d0 es served b -> thread_step survives_reset b = Some b' ->
  exists served', in_turn c d0 es served' b'.
Proof.
  intros [(d & Hs & Hd) Hok Hq Ho Hl Hk Hn Hb0 Ha]. unfold thread_step.
  destruct b as [inbox link stop dev p called]. cbn in *. destruct p as [|request l|l|l| | |l| |]; cbn in *; try done.
  - unfold take_request. cbn. destruct stop; [intros [= <-]; exists served; split; try done; by eexists|].
    destruct inbox as [|request rest]; [done|]. apply Forall_cons in Hb0 as [Hb0 Hb1].
    destruct link as [l|]; intros [= <-]; exists served; split; try done; cbn; try (by eexists).
    + intros ? ? [= <- <-]. auto.
    + etrans; [|exact Ho]. apply sublist_app; [done|]. by apply sublist_cons.
  - intros [= <-]. destruct (Hn _ _ eq_refl) as [Hr Hlk]. injection Hd as <-.
    destruct (answer_ok c request dev Hr Hok) as (reply & d1 & Ea & Hok1). unfold serve_request. cbn [device_]. rewrite Ea.
    exists (served ++ [(request, l)]).
    assert (Forall (fun r => r.2 ∈ attached es) (served ++ [(request, l)])) as Hl1 by (apply Forall_app; split; [done|by constructor]).
    assert ((served ++ [(request, l)]).*1 ++ inbox `sublist_of` submitted es) as Ho1.
    { rewrite fmap_app, <- app_assoc. exact Ho. }
    pose proof (serve_spec request l dev) as Hsv. rewrite Ea in Hsv. cbn [option_bind] in Hsv.
    assert (forall cs, List.filter is_answer (called ++ cs) = List.filter is_answer called ++ List.filter is_answer cs) as Hf by (intros; apply List.filter_app).
    destruct (d_reboot_pending d1) eqn:Ep; cbn [negb].
    + assert (stub_ok c (set_reboot_pending false d1)) as Hok2 by done.
      destruct (reboot_stub_ok c _ Hok2) as (d2 & Er & _). rewrite Er in Hsv. cbn [option_bind] in Hsv.
      pose proof (serve_all_snoc _ _ _ _ _ _ _ Hs Hsv) as Hall.
      destruct reply; split; try done; cbn; (eexists; split; [|exact Er]); rewrite ?Hf; cbn; rewrite app_nil_r in Hall; by rewrite <- ?app_assoc.
    + pose proof (serve_all_snoc _ _ _ _ _ _ _ Hs Hsv) as Hall.
      destruct reply; split; try done; cbn; (eexists; split; [|done]); rewrite ?Hf; cbn; rewrite !app_nil_r in *; done.
  - intros [= <-]. exists served. split; try done. cbn. eexists. split; [|done].
    rewrite List.filter_app, app_nil_r. exact Hs.
  - intros [= <-]. exists served. unfold forget_link. destruct (survives_reset l); split; try done; cbn; try (by eexists);
      (etrans; [|exact Ho]); apply sublist_app; [done|apply sublist_nil_l|done|apply sublist_nil_l].
  - intros [= <-]. exists served. destruct (reboot_stub_ok c dev Hok) as (d1 & Er & Hok1). rewrite Er.
    split; try done; cbn; [by rewrite Er in Hd; injection Hd as <-; eexists|].
    unfold stub_reboot in Er. destruct (reboot (d_model dev)); [|done]. cbn in Er. by injection Er as <-.
  - intros [= <-]. exists served. destruct link; split; try done; by eexists.
  - intros [= <-]. exists served. split; try done. cbn. eexists. split; [|done].
    rewrite List.filter_app. cbn. by rewrite app_nil_r.
Qed.

Lemma run_in_turn es b :
  stub_ok c d0 -> d_reboot_pending d0 = false -> Forall byte_list (submitted es) ->
  run_board survives_reset es (thread_started d0) = Some b -> exists served, in_turn c d0 es served b.
Proof.
  intros Hok Hq Hb. assert (exists served, in_turn c d0 [] served (thread_started d0)) as Hi by (exists []; by apply started_in_turn).
  revert Hi. change es with ([] ++ es) at 2. generalize (@nil BoardEvent) as past. generalize (thread_started d0).
  induction es as [|e es IH]; intros b0 past [served Hi]; cbn [run_board].
  - intros [= <-]. rewrite app_nil_r. by exists served.
  - destruct (board_step survives_reset e b0) as [b1|] eqn:E; [|done]. cbn [option_bind]. intros Hrun.
    replace (past ++ e :: es) with ((past ++ [e]) ++ es) by by rewrite <- app_assoc.
    assert (Forall byte_list (submitted es)) as Hb'.
    { unfold submitted in *. cbn in Hb. destruct e; [|done..]. by apply Forall_cons in Hb as [_ Hb]. }
    apply (IH Hb' b1); [|done].
    destruct (decide (e = Thread)) as [->|Hne].
    + destruct (thread_in_turn past served b0 b1 Hi E) as [served' Hi']. exists served'.
      destruct Hi'. split; try done; unfold submitted, attached; rewrite omap_app; cbn; by rewrite app_nil_r.
    + exists served. apply (called_in_turn past served b0 e b1); try done. intros request ->. cbn in Hb. by apply Forall_cons in Hb as [Hb _].
Qed.
End runs.

(** ** Properties *)

(** How far the thread is from its return, once it was asked to stop. *)
Definition steps_left (p : RunPoint) : nat :=
  match p with
  | AtRequest _ _ => 7 | AtReset _ => 6 | AtForget _ => 5 | AtSleep => 4 | AtBooted => 3 | AtTell _ => 2 | AtWait => 1
  | Returned | Thrown => 0
  end.

Lemma stopping survives_reset c d0 es served b k :
  in_turn c d0 es served b -> stop_ b = true -> steps_left (at_ b) = S k ->
  exists b', thread_step survives_reset b = Some b' /\ stop_ b' = true /\ (steps_left (at_ b') <= k)%nat.
Proof.
  intros Hi Hstop. unfold thread_step. pose proof (it_on _ _ _ _ _ Hi) as Hon. pose proof (it_ok _ _ _ _ _ Hi) as Hok.
  destruct b as [inbox link stop dev p calls]. cbn [inbox_ link_ stop_ device_ at_ steps_left] in *. subst stop.
  destruct p as [|request l|l|l| | |l| |]; cbn; intros [= <-]; try (by eexists); try (eexists; split; [done|by split; [|cbn; lia]]).
  - destruct (Hon _ _ eq_refl) as [Hr _]. destruct (answer_ok c request dev Hr Hok) as (reply & d1 & Ea & _).
    eexists. split; [done|]. unfold serve_request. cbn [device_]. rewrite Ea. destruct reply, (d_reboot_pending d1); cbn; split; done || lia.
  - eexists. split; [done|]. unfold forget_link. destruct (survives_reset l); cbn; split; done || lia.
  - eexists. split; [done|]. destruct (stub_reboot dev); cbn; split; done || lia.
  - eexists. split; [done|]. destruct link; cbn; split; done || lia.
Qed.

Lemma stops survives_reset c d0 n es served b :
  in_turn c d0 es served b -> stop_ b = true -> (steps_left (at_ b) <= n)%nat ->
  exists k b', (k <= n)%nat /\ run_board survives_reset (replicate k Thread) b = Some b' /\ at_ b' = Returned.
Proof.
  revert es served b. induction n as [|n IH]; intros es served b Hi Hstop Hn; destruct (steps_left (at_ b)) as [|k] eqn:E; [|lia| |].
  1, 2: exists 0%nat, b; split; [lia|]; split; [done|]; pose proof (it_alive _ _ _ _ _ Hi); by destruct (at_ b).
  destruct (stopping survives_reset c d0 es served b k Hi Hstop E) as (b1 & E1 & Hstop1 & Hk).
  destruct (thread_in_turn survives_reset c d0 es served b b1 Hi E1) as [served1 Hi1].
  destruct (IH es served1 b1 Hi1 Hstop1 ltac:(lia)) as (k' & b2 & Hk' & Hrun & Hat).
  exists (S k'), b2. split; [lia|]. split; [|done]. cbn. by rewrite E1.
Qed.


(** ** Witnesses and runs *)

Definition sample_primary : bytes := [0x3D; 0xB8; 0xF3; 0x96] ++ replicate 36 7.
Definition sample_stub : StubDevice := default (mkStub (new_model (boot_config None None)) None None 0 0 false) (new_stub sample_primary None None).

(** A request for the parameters, and one for a reset. *)
Definition parameters_request : bytes := Header.encode (mkHeader Header.Read V2 0 1 Group_Os 1 kOsMcumgrParams) ++ empty_map.
Definition reset_request : bytes := Header.encode (mkHeader Header.Write V2 0 1 Group_Os 2 kOsReset) ++ empty_map.

Definition sample_events : list BoardEvent :=
  [Attach 0; Submit parameters_request; Submit reset_request; Thread; Thread; Thread; Submit [1; 2; 3]; Thread; Thread; Stop].


(** [run] forgets the link it served the reset on, and its queue, in a critical
    section of its own, after the link has been told. An application that
    attaches a new link in between loses it, and the request it sent: the device
    comes back with no link and nothing to answer. *)
Lemma new_link_forgotten :
  exists b, run_board (fun _ => false)
    [Attach 0; Submit reset_request; Thread; Thread; Thread; Attach 1; Submit parameters_request; Thread; Thread; Thread]
    (thread_started sample_stub) = Some b /\
    at_ b = AtWait /\ link_ b = None /\ inbox_ b = [] /\ last (called b) = Some (Resetting 0).
Proof. eexists. split; [vm_compute; reflexivity|]. by vm_compute. Qed.
