(* ===== verification/GroupRequests.v ===== *)
(** * The management groups' requests

    [src/cbor/writer.cpp] and the request halves of [image_management.cpp],
    [os_management.cpp], [settings_management.cpp] and
    [statistics_management.cpp]: what each operation checks, what it encodes and
    into how large a buffer, over the façade's writer and any QCBOR encoder.
    Every operation is shown to send a request the device's own reader parses
    to the intended map, or to be refused before anything is sent; the
    [Internal] error of a buffer too small is unreachable. *)

From S2P Require Import Prelude Errors Header ImageValues UpdateTypes Client Minicbor Cbor GroupCodecs.

(** ** QCBOR's encoder, as far as the façade uses it *)

Class QEncoder := {
  ectx : Type;
  Encode_Init : nat -> ectx;
  OpenMap : ectx -> ectx;
  CloseMap : ectx -> ectx;
  AddUInt64ToMap : string -> Z -> ectx -> ectx;
  AddInt64ToMap : string -> Z -> ectx -> ectx;
  AddBoolToMap : string -> bool -> ectx -> ectx;
  AddTextToMap : string -> string -> ectx -> ectx;
  AddBytesToMap : string -> bytes -> ectx -> ectx;
  Encode_Finish : ectx -> QCBORError * bytes
}.

(** What QCBOR documents of a flat map: the entries are written in the order
    they are added, lengths definite and heads shortest, and [Finish] reports
    the bytes, or an error when they do not fit the buffer. *)
Class QEncoderLaws `{QEncoder} := {
  holding : nat -> list Value -> ectx -> Prop;
  law_open : forall cap, holding cap [] (OpenMap (Encode_Init cap));
  law_add_uint : forall cap es c k n,
    holding cap es c -> holding cap (es ++ [Text k; Uint n]) (AddUInt64ToMap k n c);
  law_add_int : forall cap es c k z,
    holding cap es c -> holding cap (es ++ [Text k; if z <? 0 then Nint z else Uint z]) (AddInt64ToMap k z c);
  law_add_bool : forall cap es c k b,
    holding cap es c -> holding cap (es ++ [Text k; Bool b]) (AddBoolToMap k b c);
  law_add_text : forall cap es c k t,
    holding cap es c -> holding cap (es ++ [Text k; Text t]) (AddTextToMap k t c);
  law_add_bytes : forall cap es c k b,
    holding cap es c -> holding cap (es ++ [Text k; Bytes b]) (AddBytesToMap k b c);
  law_finish : forall cap es c,
    holding cap es c ->
    if (length (encode (Map es)) <=? cap)%nat
    then Encode_Finish (CloseMap c) = (QCBOR_SUCCESS, encode (Map es))
    else (Encode_Finish (CloseMap c)).1 <> QCBOR_SUCCESS
}.

Section writer.
Context `{QEncoder}.

(** [cbor::Writer]. *)
Record Writer := mkWriter {
  w_context : ectx;
  w_max_nesting : Z;
  w_depth : Z;
  w_failed : bool
}.

Definition w_set_context (c : ectx) (w : Writer) : Writer :=
  mkWriter c (w_max_nesting w) (w_depth w) (w_failed w).

(** The constructor, over a buffer of [cap] bytes. *)
Definition new_writer (cap : nat) : Writer := mkWriter (Encode_Init cap) kMaxCborNesting 0 false.

(** [Writer::label]. *)
Definition w_label (key : string) (w : Writer) : option string * Writer :=
  if (kMaxKeyLength <? String.length key)%nat
  then (None, mkWriter (w_context w) (w_max_nesting w) (w_depth w) true)
  else (Some (c_str key), w).

(** [Writer::open_map]. *)
Definition open_map (w : Writer) : Writer :=
  if w_failed w then w
  else if w_max_nesting w <=? w_depth w
  then mkWriter (w_context w) (w_max_nesting w) (w_depth w) true
  else mkWriter (OpenMap (w_context w)) (w_max_nesting w) (w_depth w + 1) (w_failed w).

(** [Writer::close_map]. *)
Definition close_map (w : Writer) : Writer :=
  if w_failed w || (w_depth w =? 0) then w
  else mkWriter (CloseMap (w_context w)) (w_max_nesting w) (w_depth w - 1) (w_failed w).

(** The five [put_*] differ in the QCBOR call they make. *)
Definition put (add : string -> ectx -> ectx) (key : string) (w : Writer) : Writer :=
  match w_label key w with
  | (Some name, w) => w_set_context (add name (w_context w)) w
  | (None, w) => w
  end.

(** [Writer::put_uint], [put_int], [put_bool], [put_text] and [put_bytes]. *)
Definition put_uint (key : string) (n : Z) : Writer -> Writer := put (fun k => AddUInt64ToMap k n) key.
Definition put_int (key : string) (z : Z) : Writer -> Writer := put (fun k => AddInt64ToMap k z) key.
Definition put_bool (key : string) (b : bool) : Writer -> Writer := put (fun k => AddBoolToMap k b) key.
Definition put_text (key : string) (t : string) : Writer -> Writer := put (fun k => AddTextToMap k t) key.
Definition put_bytes (key : string) (b : bytes) : Writer -> Writer := put (fun k => AddBytesToMap k b) key.

(** [Writer::finish]. *)
Definition finish (w : Writer) : Result bytes :=
  if w_failed w then fail CborEncode "cbor writer: key too long or nesting exceeded"
  else
    let '(st, encoded) := Encode_Finish (w_context w) in
    if bool_decide (st <> QCBOR_SUCCESS) then fail CborEncode "cbor writer: encoding failed"
    else Success encoded.

(** [groups::encode_empty]. *)
Definition encode_empty (cap : nat) : Result bytes := finish (close_map (open_map (new_writer cap))).

(** ** [groups::send], up to the client

    [Success] is the specification handed to [SmpClient::request], [Fail] the
    error [groups::reject] reports. *)
Definition send (op : Operation) (group command : Z) (timeout : option Z) (payload : Result bytes)
    (too_small : string) : Result RequestSpec :=
  match payload with
  | Fail _ => fail Internal too_small
  | Success p => Success (mkSpec op group command p timeout)
  end.

(** [groups::is_valid_name]. *)
Fixpoint has_nul (s : string) : bool :=
  match s with
  | EmptyString => false
  | String c s => (byte_of_char c =? 0) || has_nul s
  end.

Definition is_valid_name (name : string) (max_length : nat) : bool :=
  negb (bool_decide (name = EmptyString)) && (String.length name <=? max_length)%nat && negb (has_nul name).

(** ** The image group *)

Definition kImageRequestBuffer : nat := kMaxImageHashLength + 32.
Definition kMaxSlotNumber : Z := Z.of_nat (kMaxImages * kMaxSlotsPerImage).
Definition kEraseTimeout : Z := 60000.
Definition kImageTooSmall : string := "image: request buffer too small".

(** [ImageManagement::get_state]. *)
Definition get_state : Result RequestSpec :=
  send Read Group_Image 0 None (encode_empty kImageRequestBuffer) kImageTooSmall.

(** [ImageManagement::set_state]. *)
Definition set_state (hash : option ImageHash) (confirm : bool) : Result RequestSpec :=
  if negb confirm && bool_decide (hash = None) then fail InvalidArgument "image: test needs a hash"
  else
    let w := open_map (new_writer kImageRequestBuffer) in
    let w := match hash with Some h => put_bytes "hash" h w | None => w end in
    let w := put_bool "confirm" confirm w in
    send Write Group_Image 0 None (finish (close_map w)) kImageTooSmall.

(** [ImageManagement::erase]. *)
Definition erase (slot timeout : option Z) : Result RequestSpec :=
  if (match slot with Some s => kMaxSlotNumber <? s | None => false end) then
    fail InvalidArgument "image: slot number out of range"
  else
    let w := open_map (new_writer kImageRequestBuffer) in
    let w := match slot with Some s => put_uint "slot" s w | None => w end in
    send Write Group_Image 5 (Some (default kEraseTimeout timeout)) (finish (close_map w)) kImageTooSmall.

(** [ImageManagement::get_slot_info]. *)
Definition get_slot_info : Result RequestSpec :=
  send Read Group_Image 6 None (encode_empty kImageRequestBuffer) kImageTooSmall.

(** ** The OS group *)

Definition kOsRequestBuffer : nat := kMaxEchoLength + 16.
Definition kOsTooSmall : string := "os: request buffer too small".

(** [OsManagement::reset]. *)
Definition os_reset (force : bool) (timeout : option Z) : Result RequestSpec :=
  let w := open_map (new_writer kOsRequestBuffer) in
  let w := if force then put_bool "force" true w else w in
  send Write Group_Os 5 timeout (finish (close_map w)) kOsTooSmall.

(** [OsManagement::mcumgr_parameters]. *)
Definition mcumgr_parameters : Result RequestSpec :=
  send Read Group_Os 6 None (encode_empty kOsRequestBuffer) kOsTooSmall.

(** [OsManagement::echo]. *)
Definition os_echo (text : string) : Result RequestSpec :=
  if (kMaxEchoLength <? String.length text)%nat then fail InvalidArgument "os: echo string too long"
  else send Write Group_Os 0 None
         (finish (close_map (put_text "d" text (open_map (new_writer kOsRequestBuffer))))) kOsTooSmall.

(** [OsManagement::bootloader_name]. *)
Definition bootloader_name : Result RequestSpec :=
  send Read Group_Os 8 None (encode_empty kOsRequestBuffer) kOsTooSmall.

(** [OsManagement::bootloader_mode]. *)
Definition bootloader_mode : Result RequestSpec :=
  send Read Group_Os 8 None
    (finish (close_map (put_text "query" "mode" (open_map (new_writer kOsRequestBuffer))))) kOsTooSmall.

(** ** Settings *)

Definition Group_Settings : Z := 3.
Definition kSettingsRequestBuffer : nat := kMaxSettingNameLength + kMaxSettingValueLength + 32.
Definition kSettingsTooSmall : string := "settings: request buffer too small".

Definition valid_name (name : string) : bool := is_valid_name name kMaxSettingNameLength.

Definition invalid_name : Result RequestSpec := fail InvalidArgument "settings: invalid setting name".

(** A request that carries a name and nothing else. *)
Definition named (cap : nat) (name : string) : Writer := put_text "name" name (open_map (new_writer cap)).

(** [SettingsManagement::read(name)]. *)
Definition settings_read (name : string) : Result RequestSpec :=
  if negb (valid_name name) then invalid_name
  else send Read Group_Settings 0 None (finish (close_map (named kSettingsRequestBuffer name))) kSettingsTooSmall.

(** [SettingsManagement::read(name, max_size)]. *)
Definition settings_read_max (name : string) (max_size : Z) : Result RequestSpec :=
  if negb (valid_name name) then invalid_name
  else if (max_size =? 0) || (Z.of_nat kMaxSettingValueLength <? max_size) then
    fail InvalidArgument "settings: max_size out of range"
  else send Read Group_Settings 0 None
         (finish (close_map (put_uint "max_size" max_size (named kSettingsRequestBuffer name)))) kSettingsTooSmall.

(** [SettingsManagement::write]. *)
Definition settings_write (name : string) (value : bytes) : Result RequestSpec :=
  if negb (valid_name name) then invalid_name
  else if (kMaxSettingValueLength <? length value)%nat then fail InvalidArgument "settings: value too long"
  else send Write Group_Settings 0 None
         (finish (close_map (put_bytes "val" value (named kSettingsRequestBuffer name)))) kSettingsTooSmall.

(** [SettingsManagement::erase]. *)
Definition settings_erase (name : string) : Result RequestSpec :=
  if negb (valid_name name) then invalid_name
  else send Write Group_Settings 1 None (finish (close_map (named kSettingsRequestBuffer name))) kSettingsTooSmall.

(** [SettingsManagement::commit], [load] and [save]. *)
Definition settings_commit : Result RequestSpec :=
  send Write Group_Settings 2 None (encode_empty kSettingsRequestBuffer) kSettingsTooSmall.
Definition settings_load : Result RequestSpec :=
  send Read Group_Settings 3 None (encode_empty kSettingsRequestBuffer) kSettingsTooSmall.
Definition settings_save (timeout : option Z) : Result RequestSpec :=
  send Write Group_Settings 3 timeout (encode_empty kSettingsRequestBuffer) kSettingsTooSmall.

(** [SettingsManagement::save(name)]. *)
Definition settings_save_one (name : string) (timeout : option Z) : Result RequestSpec :=
  if negb (valid_name name) then invalid_name
  else send Write Group_Settings 3 timeout (finish (close_map (named kSettingsRequestBuffer name))) kSettingsTooSmall.

(** ** Statistics *)

Definition Group_Stat : Z := 2.
Definition kStatRequestBuffer : nat := kMaxStatisticsNameLength + 16.
Definition kStatTooSmall : string := "stat: request buffer too small".

(** [StatisticsManagement::list_groups]. *)
Definition list_groups : Result RequestSpec :=
  send Read Group_Stat 1 None (encode_empty kStatRequestBuffer) kStatTooSmall.

(** [StatisticsManagement::read_group]. *)
Definition read_group (name : string) : Result RequestSpec :=
  if negb (is_valid_name name kMaxStatisticsNameLength) then
    fail InvalidArgument "stat: invalid group name"
  else send Read Group_Stat 0 None (finish (close_map (named kStatRequestBuffer name))) kStatTooSmall.

End writer.

(** ** The operations, as data *)

Inductive GroupOp :=
| GetState
| SetState (hash : option ImageHash) (confirm : bool)
| Erase (slot timeout : option Z)
| GetSlotInfo
| Reset (force : bool) (timeout : option Z)
| Parameters
| Echo (text : string)
| BootloaderName
| BootloaderMode
| SettingsRead (name : string)
| SettingsReadMax (name : string) (max_size : Z)
| SettingsWrite (name : string) (value : bytes)
| SettingsErase (name : string)
| SettingsCommit
| SettingsLoad
| SettingsSave (timeout : option Z)
| SettingsSaveOne (name : string) (timeout : option Z)
| ListGroups
| ReadGroup (name : string).

Definition request_of `{QEncoder} (op : GroupOp) : Result RequestSpec :=
  match op with
  | GetState => get_state
  | SetState h c => set_state h c
  | Erase s t => erase s t
  | GetSlotInfo => get_slot_info
  | Reset f t => os_reset f t
  | Parameters => mcumgr_parameters
  | Echo t => os_echo t
  | BootloaderName => bootloader_name
  | BootloaderMode => bootloader_mode
  | SettingsRead n => settings_read n
  | SettingsReadMax n m => settings_read_max n m
  | SettingsWrite n v => settings_write n v
  | SettingsErase n => settings_erase n
  | SettingsCommit => settings_commit
  | SettingsLoad => settings_load
  | SettingsSave t => settings_save t
  | SettingsSaveOne n t => settings_save_one n t
  | ListGroups => list_groups
  | ReadGroup n => read_group n
  end.

(** What each operation means to say: the specification without its payload,
    and the entries of the payload's map. *)
Definition intent (op : GroupOp) : Operation * Z * Z * option Z * list Value :=
  match op with
  | GetState => (Read, Group_Image, 0, None, [])
  | SetState h c =>
      (Write, Group_Image, 0, None,
       match h with Some h => [Text "hash"; Bytes h] | None => [] end ++ [Text "confirm"; Bool c])
  | Erase s t =>
      (Write, Group_Image, 5, Some (default kEraseTimeout t),
       match s with Some s => [Text "slot"; Uint s] | None => [] end)
  | GetSlotInfo => (Read, Group_Image, 6, None, [])
  | Reset f t => (Write, Group_Os, 5, t, if f then [Text "force"; Bool true] else [])
  | Parameters => (Read, Group_Os, 6, None, [])
  | Echo t => (Write, Group_Os, 0, None, [Text "d"; Text t])
  | BootloaderName => (Read, Group_Os, 8, None, [])
  | BootloaderMode => (Read, Group_Os, 8, None, [Text "query"; Text "mode"])
  | SettingsRead n => (Read, Group_Settings, 0, None, [Text "name"; Text n])
  | SettingsReadMax n m => (Read, Group_Settings, 0, None, [Text "name"; Text n; Text "max_size"; Uint m])
  | SettingsWrite n v => (Write, Group_Settings, 0, None, [Text "name"; Text n; Text "val"; Bytes v])
  | SettingsErase n => (Write, Group_Settings, 1, None, [Text "name"; Text n])
  | SettingsCommit => (Write, Group_Settings, 2, None, [])
  | SettingsLoad => (Read, Group_Settings, 3, None, [])
  | SettingsSave t => (Write, Group_Settings, 3, t, [])
  | SettingsSaveOne n t => (Write, Group_Settings, 3, t, [Text "name"; Text n])
  | ListGroups => (Read, Group_Stat, 1, None, [])
  | ReadGroup n => (Read, Group_Stat, 0, None, [Text "name"; Text n])
  end.

(** The arguments an operation accepts. *)
Definition accepts (op : GroupOp) : bool :=
  match op with
  | SetState h c => c || negb (bool_decide (h = None))
  | Erase (Some s) _ => s <=? kMaxSlotNumber
  | Echo t => (String.length t <=? kMaxEchoLength)%nat
  | SettingsRead n | SettingsErase n | SettingsSaveOne n _ => valid_name n
  | SettingsReadMax n m => valid_name n && negb ((m =? 0) || (256 <? m))
  | SettingsWrite n v => valid_name n && (length v <=? kMaxSettingValueLength)%nat
  | ReadGroup n => is_valid_name n kMaxStatisticsNameLength
  | _ => true
  end.

(** ** Sizes *)

Lemma length_head major n :
  0 <= n -> length (head major n) =
  if n <? 24 then 1%nat else if n <=? 255 then 2%nat else if n <=? 65535 then 3%nat
  else if n <=? 4294967295 then 5%nat else 9%nat.
Proof. intros Hn. unfold head. repeat split_if; simpl; rewrite ?length_push_be; done. Qed.

Lemma length_text t :
  length (encode (Text t)) = (length (head 3 (Z.of_nat (String.length t))) + String.length t)%nat.
Proof. simpl. unfold w_text. by rewrite length_app, length_bytes_of_text. Qed.

Lemma length_head_small major n : 0 <= n < 24 -> length (head major n) = 1%nat.
Proof. intros Hn. rewrite length_head by lia. by rewrite (proj2 (Z.ltb_lt _ _)) by lia. Qed.

Lemma length_head_byte major n : 0 <= n <= 255 -> (length (head major n) <= 2)%nat.
Proof. intros Hn. rewrite length_head by lia. repeat split_if; bool_to_prop; lia. Qed.

Lemma length_head_short major n : 0 <= n <= 65535 -> (length (head major n) <= 3)%nat.
Proof. intros Hn. rewrite length_head by lia. repeat split_if; bool_to_prop; lia. Qed.

(** A flat map of one or two entries. *)
Lemma length_map_1 k v : length (encode (Map [Text k; v])) = (1 + length (encode (Text k)) + length (encode v))%nat.
Proof.
  cbn [encode flat_map]. unfold w_map. change (zlen [Text k; v] / 2) with 1.
  rewrite !length_app, length_head_small by lia. simpl. lia.
Qed.

Lemma length_map_2 k v k' v' :
  length (encode (Map [Text k; v; Text k'; v'])) =
  (1 + length (encode (Text k)) + length (encode v) + length (encode (Text k')) + length (encode v'))%nat.
Proof.
  cbn [encode flat_map]. unfold w_map. change (zlen [Text k; v; Text k'; v'] / 2) with 2.
  rewrite !length_app, length_head_small by lia. simpl. lia.
Qed.

Lemma length_text_name t n :
  (String.length t <= n)%nat -> (n <= 255)%nat -> (length (encode (Text t)) <= 2 + n)%nat.
Proof.
  intros Ht Hn. rewrite length_text. pose proof (length_head_byte 3 (Z.of_nat (String.length t))). lia.
Qed.

Lemma length_bytes b n :
  (length b <= n)%nat -> Z.of_nat n <= 65535 -> (length (encode (Bytes b)) <= 3 + n)%nat.
Proof.
  intros Hb Hn. simpl. unfold w_blob. rewrite length_app. pose proof (length_head_short 2 (zlen b)). lia.
Qed.

Lemma length_uint n : 0 <= n <= 65535 -> (length (encode (Uint n)) <= 3)%nat.
Proof. apply length_head_short. Qed.

(** ** The writer, given the encoder's laws *)

#[local] Arguments encode : simpl never.
#[local] Arguments bytes_of_text : simpl never.

Section requests.
Context `{QEncoderLaws}.

Record writing (cap : nat) (es : list Value) (w : Writer) : Prop := {
  wr_failed : w_failed w = false;
  wr_depth : w_depth w = 1;
  wr_holding : holding cap es (w_context w)
}.

Lemma open_writing cap : writing cap [] (open_map (new_writer cap)).
Proof. constructor; simpl; try done. apply law_open. Qed.

(** An entry with a short literal key. *)
Lemma put_writing (add : string -> ectx -> ectx) cap es key v w :
  (forall c, holding cap es c -> holding cap (es ++ [Text key; v]) (add key c)) ->
  (String.length key <= kMaxKeyLength)%nat -> c_str key = key ->
  writing cap es w -> writing cap (es ++ [Text key; v]) (put add key w).
Proof.
  intros Hadd Hl Hc [Hf Hd Hh]. unfold put, w_label.
  rewrite (proj2 (Nat.ltb_ge _ _) Hl), Hc. constructor; simpl; auto.
Qed.

Lemma finish_writing cap es w :
  writing cap es w -> (length (encode (Map es)) <= cap)%nat ->
  finish (close_map w) = Success (encode (Map es)).
Proof.
  intros [Hf Hd Hh] Hl. unfold finish, close_map. rewrite Hf, Hd. simpl.
  pose proof (law_finish cap es _ Hh) as Hlaw. rewrite (proj2 (Nat.leb_le _ _) Hl) in Hlaw.
  by rewrite Hlaw.
Qed.

Lemma send_writing op group command timeout cap es w small :
  writing cap es w -> (length (encode (Map es)) <= cap)%nat ->
  send op group command timeout (finish (close_map w)) small
  = Success (mkSpec op group command (encode (Map es)) timeout).
Proof. intros Hw Hl. unfold send. by rewrite (finish_writing cap es). Qed.

Ltac put_entries :=
  repeat match goal with
  | |- writing _ _ (open_map _) => apply open_writing
  | |- writing ?cap [Text ?k; ?v] (put ?a ?k ?w) =>
      apply (put_writing a cap [] k v); [|vm_compute; lia|done|]
  | |- writing ?cap [?x; ?y; Text ?k; ?v] (put ?a ?k ?w) =>
      apply (put_writing a cap [x; y] k v); [|vm_compute; lia|done|]
  end;
  try (intros; first [by apply law_add_uint | by apply law_add_bool | by apply law_add_text
                     | by apply law_add_bytes]).

Lemma length_empty : length (encode (Map [])) = 1%nat.
Proof. reflexivity. Qed.

Lemma valid_name_length name n :
  is_valid_name name n = true -> (0 < String.length name <= n)%nat.
Proof.
  unfold is_valid_name. intros Hn. bool_to_prop.
  match goal with H : (_ <=? _)%nat = true |- _ => apply Nat.leb_le in H end.
  destruct name; [done|]. simpl in *. lia.
Qed.

(** The types of the arguments: what the C++ signature and [ImageHash] already
    guarantee. *)
Definition arguments_ok (op : GroupOp) : Prop :=
  match op with
  | SetState (Some h) _ => byte_list h /\ (length h <= kMaxImageHashLength)%nat
  | Erase (Some s) _ => u32 s
  | SettingsReadMax _ m => u32 m
  | SettingsWrite _ v => byte_list v
  | _ => True
  end.

(** The sizes of the maps with a variable part. *)
Lemma named_size name : (String.length name <= 64)%nat -> (length (encode (Map [Text "name"; Text name])) <= 72)%nat.
Proof.
  intros Hn. rewrite length_map_1. pose proof (length_text_name name 64 Hn ltac:(lia)).
  change (length (encode (Text "name"))) with 5%nat. lia.
Qed.

Lemma named_max_size name m :
  (String.length name <= 64)%nat -> 0 <= m <= 256 ->
  (length (encode (Map [Text "name"; Text name; Text "max_size"; Uint m])) <= 84)%nat.
Proof.
  intros Hn Hm. rewrite length_map_2. pose proof (length_text_name name 64 Hn ltac:(lia)).
  pose proof (length_uint m ltac:(lia)).
  change (length (encode (Text "name"))) with 5%nat. change (length (encode (Text "max_size"))) with 9%nat. lia.
Qed.

Lemma named_value_size name v :
  (String.length name <= 64)%nat -> (length v <= 256)%nat ->
  (length (encode (Map [Text "name"; Text name; Text "val"; Bytes v])) <= 335)%nat.
Proof.
  intros Hn Hv. rewrite length_map_2. pose proof (length_text_name name 64 Hn ltac:(lia)).
  pose proof (length_bytes v 256 Hv ltac:(lia)).
  change (length (encode (Text "name"))) with 5%nat. change (length (encode (Text "val"))) with 4%nat. lia.
Qed.

Lemma hash_size h b : (length h <= 64)%nat ->
  (length (encode (Map [Text "hash"; Bytes h; Text "confirm"; Bool b])) <= 82)%nat.
Proof.
  intros Hh. rewrite length_map_2. pose proof (length_bytes h 64 Hh ltac:(lia)).
  change (length (encode (Text "hash"))) with 5%nat. change (length (encode (Text "confirm"))) with 8%nat.
  change (length (encode (Bool b))) with 1%nat. lia.
Qed.

Lemma slot_size s : 0 <= s <= 128 -> (length (encode (Map [Text "slot"; Uint s])) <= 9)%nat.
Proof.
  intros Hs. rewrite length_map_1. pose proof (length_uint s ltac:(lia)).
  change (length (encode (Text "slot"))) with 5%nat. lia.
Qed.

Lemma echo_size t : (String.length t <= 128)%nat -> (length (encode (Map [Text "d"; Text t])) <= 133)%nat.
Proof.
  intros Ht. rewrite length_map_1. pose proof (length_text_name t 128 Ht ltac:(lia)).
  change (length (encode (Text "d"))) with 2%nat. lia.
Qed.

Lemma name_bound name n : is_valid_name name n = true -> (String.length name <= n)%nat.
Proof. intros Hn. apply valid_name_length in Hn. lia. Qed.

(** Every buffer is at least this large. *)
Ltac fits_buffer := unfold kImageRequestBuffer, kOsRequestBuffer, kSettingsRequestBuffer, kStatRequestBuffer,
  kMaxImageHashLength, kMaxEchoLength, kMaxSettingNameLength, kMaxSettingValueLength,
  kMaxStatisticsNameLength; lia.

Lemma name_sent op group command timeout cap name small :
  (String.length name <= 64)%nat -> (72 <= cap)%nat ->
  send op group command timeout (finish (close_map (named cap name))) small
  = Success (mkSpec op group command (encode (Map [Text "name"; Text name])) timeout).
Proof.
  intros Hn Hc. apply (send_writing _ _ _ _ cap); [unfold named, put_text; put_entries|].
  pose proof (named_size name Hn). lia.
Qed.

Lemma empty_sent op group command timeout cap small :
  (1 <= cap)%nat ->
  send op group command timeout (encode_empty cap) small
  = Success (mkSpec op group command (encode (Map [])) timeout).
Proof. intros Hc. apply (send_writing _ _ _ _ cap); [apply open_writing|by rewrite length_empty]. Qed.

(** An accepted operation sends its intent. *)
Lemma request_sent op :
  accepts op = true -> arguments_ok op ->
  request_of op =
    let '(o, group, command, timeout, es) := intent op in
    Success (mkSpec o group command (encode (Map es)) timeout).
Proof.
  destruct op as [|h c|sl t| |f t| |t| | |n|n m|n v|n| | |t|n t| |n]; simpl; intros Ha Hok;
    try (apply empty_sent; fits_buffer).
  - unfold set_state. destruct h as [h|]; simpl in *.
    + rewrite andb_false_r. destruct Hok as [_ Hl]. unfold kMaxImageHashLength in Hl.
      apply (send_writing _ _ _ _ kImageRequestBuffer); [unfold put_bytes, put_bool; put_entries|].
      pose proof (hash_size h c Hl). fits_buffer.
    + destruct c; [|done]. simpl.
      apply (send_writing _ _ _ _ kImageRequestBuffer); [unfold put_bool; put_entries|vm_compute; lia].
  - unfold erase. destruct sl as [sl|]; simpl in *.
    + unfold kMaxSlotNumber, kMaxImages, kMaxSlotsPerImage in *. simpl in *.
      rewrite (proj2 (Z.ltb_ge _ _)) by (apply Z.leb_le in Ha; lia).
      apply (send_writing _ _ _ _ kImageRequestBuffer); [unfold put_uint; put_entries|].
      apply Z.leb_le in Ha. pose proof (slot_size sl ltac:(destruct Hok; lia)). fits_buffer.
    + apply (send_writing _ _ _ _ kImageRequestBuffer); [put_entries|vm_compute; lia].
  - unfold os_reset. destruct f;
      (apply (send_writing _ _ _ _ kOsRequestBuffer); [unfold put_bool; put_entries|vm_compute; lia]).
  - unfold os_echo. apply Nat.leb_le in Ha. rewrite (proj2 (Nat.ltb_ge _ _) Ha).
    apply (send_writing _ _ _ _ kOsRequestBuffer); [unfold put_text; put_entries|].
    unfold kMaxEchoLength in *. pose proof (echo_size t Ha). fits_buffer.
  - apply (send_writing _ _ _ _ kOsRequestBuffer); [unfold put_text; put_entries|vm_compute; lia].
  - unfold settings_read. rewrite Ha. apply name_sent; [by apply name_bound|fits_buffer].
  - apply andb_true_iff in Ha as [Ha Hm]. unfold settings_read_max. rewrite Ha. simpl.
    apply negb_true_iff in Hm. unfold kMaxSettingValueLength.
    change (Z.of_nat 256) with 256. rewrite Hm.
    apply (send_writing _ _ _ _ kSettingsRequestBuffer); [unfold named, put_text, put_uint; put_entries|].
    bool_to_prop. pose proof (named_max_size n m (name_bound _ _ Ha) ltac:(destruct Hok; lia)). fits_buffer.
  - apply andb_true_iff in Ha as [Ha Hv]. unfold settings_write. rewrite Ha. simpl.
    apply Nat.leb_le in Hv. rewrite (proj2 (Nat.ltb_ge _ _) Hv).
    apply (send_writing _ _ _ _ kSettingsRequestBuffer); [unfold named, put_text, put_bytes; put_entries|].
    pose proof (named_value_size n v (name_bound _ _ Ha) Hv). fits_buffer.
  - unfold settings_erase. rewrite Ha. apply name_sent; [by apply name_bound|fits_buffer].
  - unfold settings_save_one. rewrite Ha. apply name_sent; [by apply name_bound|fits_buffer].
  - unfold read_group. rewrite Ha. apply name_sent; [by apply name_bound|fits_buffer].
Qed.

(** A refused one says why, and sends nothing. *)
Lemma request_refused op :
  accepts op = false -> exists where_, request_of op = fail InvalidArgument where_.
Proof.
  destruct op as [|h c|sl t| |f t| |t| | |n|n m|n v|n| | |t|n t| |n]; simpl; intros Ha; try done.
  - apply orb_false_iff in Ha as [-> Hh]. apply negb_false_iff in Hh. unfold set_state.
    rewrite Hh. by eexists.
  - destruct sl as [sl|]; [|done]. unfold erase. rewrite (proj2 (Z.ltb_lt _ _)) by (apply Z.leb_gt in Ha; lia).
    by eexists.
  - unfold os_echo. apply Nat.leb_gt in Ha. rewrite (proj2 (Nat.ltb_lt _ _) Ha). by eexists.
  - unfold settings_read. rewrite Ha. by eexists.
  - unfold settings_read_max. destruct (valid_name n); [|by eexists]. simpl in *.
    apply negb_false_iff in Ha. unfold kMaxSettingValueLength. change (Z.of_nat 256) with 256.
    rewrite Ha. by eexists.
  - unfold settings_write. destruct (valid_name n); [|by eexists]. simpl in *.
    apply Nat.leb_gt in Ha. rewrite (proj2 (Nat.ltb_lt _ _) Ha). by eexists.
  - unfold settings_erase. rewrite Ha. by eexists.
  - unfold settings_save_one. rewrite Ha. by eexists.
  - unfold read_group. rewrite Ha. by eexists.
Qed.

(** ** Flat maps are values of the subset *)

Lemma flat_ok es n : entries_ok (value_ok n) es -> zlen es < 2 ^ 63 -> value_ok (S n) (Map es).
Proof.
  intros He Hl. split; [|done]. unfold fits. split; [apply Z.div_pos; lia|].
  apply Z.div_lt_upper_bound; lia.
Qed.

Lemma flat_1 k v :
  Z.of_nat (String.length k) < 2 ^ 63 -> value_ok 8 v -> value_ok 9 (Map [Text k; v]).
Proof. intros Hk Hv. apply flat_ok; [|done]. split_and!; try done; by apply (text_ok 7). Qed.

Lemma flat_2 k v k' v' :
  Z.of_nat (String.length k) < 2 ^ 63 -> value_ok 8 v -> Z.of_nat (String.length k') < 2 ^ 63 ->
  value_ok 8 v' -> value_ok 9 (Map [Text k; v; Text k'; v']).
Proof.
  intros Hk Hv Hk' Hv'. apply flat_ok; [|done]. cbn [entries_ok].
  split_and!; try done; by apply (text_ok 7).
Qed.

Lemma name_ok name n : is_valid_name name n = true -> (n <= 128)%nat -> value_ok 8 (Text name).
Proof. intros Hn%name_bound Hl. apply (text_ok 7). lia. Qed.

(** What a request says parses. *)
Lemma intent_ok op :
  accepts op = true -> arguments_ok op -> value_ok 9 (Map (intent op).2).
Proof.
  destruct op as [|h c|sl t| |f t| |t| | |n|n m|n v|n| | |t|n t| |n]; cbn [accepts arguments_ok intent snd];
    intros Ha Hok; try (by apply flat_ok).
  - destruct h as [h|]; cbn [app].
    + destruct Hok as [Hb Hl]. unfold kMaxImageHashLength in Hl. apply flat_2; try done. split; [done|].
      unfold fits. lia.
    + by apply flat_1.
  - destruct sl as [sl|]; [|by apply flat_ok]. apply flat_1; [done|]. destruct Hok. cbn. unfold fits. lia.
  - destruct f; [by apply flat_1|by apply flat_ok].
  - apply flat_1; [done|]. apply Nat.leb_le in Ha. unfold kMaxEchoLength in Ha. apply (text_ok 7). lia.
  - apply flat_1; [done|]. apply (name_ok _ _ Ha). unfold kMaxSettingNameLength; lia.
  - apply andb_true_iff in Ha as [Ha _]. apply flat_2; try done.
    + apply (name_ok _ _ Ha). unfold kMaxSettingNameLength; lia.
    + destruct Hok. cbn. unfold fits. lia.
  - apply andb_true_iff in Ha as [Ha Hv]. apply Nat.leb_le in Hv. unfold kMaxSettingValueLength in Hv.
    apply flat_2; try done.
    + apply (name_ok _ _ Ha). unfold kMaxSettingNameLength; lia.
    + split; [done|]. unfold fits. lia.
  - apply flat_1; [done|]. apply (name_ok _ _ Ha). unfold kMaxSettingNameLength; lia.
  - apply flat_1; [done|]. apply (name_ok _ _ Ha). unfold kMaxSettingNameLength; lia.
  - apply flat_1; [done|]. apply (name_ok _ _ Ha). unfold kMaxStatisticsNameLength; lia.
Qed.

(** C21. Every group operation either is refused with [InvalidArgument] before
    anything is sent, or hands the client exactly the request it means, in a
    payload the device's own parser reads back as that map. The [Internal]
    error of a request that does not fit its buffer cannot happen, for any
    encoder that behaves as documented. *)
Theorem group_requests_exact (op : GroupOp) :
  arguments_ok op ->
  if accepts op then
    let '(o, group, command, timeout, es) := intent op in
    request_of op = Success (mkSpec o group command (encode (Map es)) timeout) /\
    parse (encode (Map es)) = Some (Map es)
  else exists where_, request_of op = fail InvalidArgument where_.
Proof.
  intros Hok. destruct (accepts op) eqn:Ha; [|by apply request_refused].
  pose proof (request_sent op Ha Hok) as Hs. pose proof (intent_ok op Ha Hok) as Hi.
  destruct (intent op) as [[[[o g] c] t] es]. split; [done|]. by apply parse_encode.
Qed.

End requests.

(** ** An encoder that satisfies the laws *)

#[global] Instance model_encoder : QEncoder := {|
  ectx := nat * list Value;
  Encode_Init cap := (cap, []);
  OpenMap c := c;
  CloseMap c := c;
  AddUInt64ToMap k n c := (c.1, c.2 ++ [Text k; Uint n]);
  AddInt64ToMap k z c := (c.1, c.2 ++ [Text k; if z <? 0 then Nint z else Uint z]);
  AddBoolToMap k b c := (c.1, c.2 ++ [Text k; Bool b]);
  AddTextToMap k t c := (c.1, c.2 ++ [Text k; Text t]);
  AddBytesToMap k b c := (c.1, c.2 ++ [Text k; Bytes b]);
  Encode_Finish c :=
    if (length (encode (Map c.2)) <=? c.1)%nat then (QCBOR_SUCCESS, encode (Map c.2))
    else (QCBOR_ERR_OTHER 1, [])
|}.

#[global] Instance model_encoder_laws : QEncoderLaws.
Proof.
  refine {| holding := (fun cap es c => c = (cap, es)) : nat -> list Value -> ectx -> Prop |};
    try (by intros; subst).
  intros cap es c ->. unfold Encode_Finish, CloseMap, model_encoder. cbn [fst snd].
  by destruct (length (encode (Map es)) <=? cap)%nat.
Qed.

Lemma group_requests_exact_witness :
  let op := SetState (Some [1; 2; 3]) true in
  if accepts op then
    let '(o, group, command, timeout, es) := intent op in
    request_of op = Success (mkSpec o group command (encode (Map es)) timeout) /\
    parse (encode (Map es)) = Some (Map es)
  else exists where_, request_of op = fail InvalidArgument where_.
Proof.
  intros op. apply (group_requests_exact op). split; [repeat constructor; vm_compute; congruence|vm_compute; lia].
Defined.
