(* ===== verification/UploadDriver.v ===== *)
(** * The upload driver and the image group's uploads

    [src/groups/image/upload_driver.hpp] and [.cpp], which carry out what
    [UploadSession] decides, and the upload half of [image_management.cpp], which
    owns at most one driver and hands out the handles. The client below is what
    the driver sees of it: a request goes out and is answered once, and deferred
    work runs from a later poll. The application is a parameter: what it calls
    from inside a callback, as a function of everything that happened so far. *)

From S2P Require Import Prelude Errors Header Client Minicbor Cbor GroupCodecs GroupRequests McubootImage UploadSession.

(** ** Data *)

(** [smply::UploadOptions]. *)
Record UploadOptions := mkUploadOptions {
  uo_image : Z;
  uo_upgrade_only : bool;
  uo_sha : option bytes;
  uo_chunk_size : Z;
  uo_server_buf_size : option Z;
  uo_max_chunk_retries : Z;
  uo_max_restarts : Z;
  uo_max_no_progress : Z;
  uo_first_chunk_timeout : Z;
  uo_final_chunk_timeout : Z;
  uo_chunk_timeout : Z
}.

(** [smply::UploadProgress], [smply::UploadResult]. *)
Record UploadProgress := mkProgress { pr_transferred : Z; pr_total : Z }.

Record UploadResult := mkUploadResult {
  ur_transferred : Z;
  ur_already_present : bool;
  ur_match : option bool
}.

(** [smply::UploadHandle]: zero never referred to an upload. *)
Record UploadHandle := mkUploadHandle { uh_generation : Z }.

Definition no_upload : UploadHandle := mkUploadHandle 0.

(** [UploadHandle::valid]. *)
Definition upload_valid (h : UploadHandle) : bool := negb (uh_generation h =? 0).

(** [kUploadBufferSize] and [kUploadCommand]. *)
Definition kUploadBufferSize : nat := Z.to_nat kUploadChunkMax + 128.
Definition kUploadCommand : Z := 1.

(** [upload::UploadDriver]. A callback is known by its number and an empty one
    is [None]; of the progress callback it only matters whether there is one.
    [d_request] is the handle [SmpClient::request] returned, by the request's
    number. *)
Record UploadDriver := mkDriver {
  d_source : ImageSource;
  d_config : UploadConfig;
  d_first_chunk_timeout : Z;
  d_final_chunk_timeout : Z;
  d_chunk_timeout : Z;
  d_on_progress : bool;
  d_on_done : option nat;
  d_state : UploadState;
  d_request : option nat;
  d_reported_off : Z;
  d_active : bool;
  d_starting : bool
}.

Definition set_d_on_done (x : option nat) (d : UploadDriver) : UploadDriver :=
  mkDriver (d_source d) (d_config d) (d_first_chunk_timeout d) (d_final_chunk_timeout d) (d_chunk_timeout d) (d_on_progress d) x (d_state d) (d_request d) (d_reported_off d) (d_active d) (d_starting d).

Definition set_d_state (x : UploadState) (d : UploadDriver) : UploadDriver :=
  mkDriver (d_source d) (d_config d) (d_first_chunk_timeout d) (d_final_chunk_timeout d) (d_chunk_timeout d) (d_on_progress d) (d_on_done d) x (d_request d) (d_reported_off d) (d_active d) (d_starting d).

Definition set_d_request (x : option nat) (d : UploadDriver) : UploadDriver :=
  mkDriver (d_source d) (d_config d) (d_first_chunk_timeout d) (d_final_chunk_timeout d) (d_chunk_timeout d) (d_on_progress d) (d_on_done d) (d_state d) x (d_reported_off d) (d_active d) (d_starting d).

Definition set_d_reported_off (x : Z) (d : UploadDriver) : UploadDriver :=
  mkDriver (d_source d) (d_config d) (d_first_chunk_timeout d) (d_final_chunk_timeout d) (d_chunk_timeout d) (d_on_progress d) (d_on_done d) (d_state d) (d_request d) x (d_active d) (d_starting d).

Definition set_d_active (x : bool) (d : UploadDriver) : UploadDriver :=
  mkDriver (d_source d) (d_config d) (d_first_chunk_timeout d) (d_final_chunk_timeout d) (d_chunk_timeout d) (d_on_progress d) (d_on_done d) (d_state d) (d_request d) (d_reported_off d) x (d_starting d).

Definition set_d_starting (x : bool) (d : UploadDriver) : UploadDriver :=
  mkDriver (d_source d) (d_config d) (d_first_chunk_timeout d) (d_final_chunk_timeout d) (d_chunk_timeout d) (d_on_progress d) (d_on_done d) (d_state d) (d_request d) (d_reported_off d) (d_active d) x.

(** [ImageManagement::Upload]. [up_life] is the identity of the driver's [life_],
    which a callback holds weakly: it is inert once another upload has taken the
    place. *)
Record Upload := mkUpload { up_driver : UploadDriver; up_generation : Z; up_life : nat }.

(** Work deferred to the client: a refusal, or a driver's completion, which
    holds a weak reference to the driver. *)
Inductive Work :=
| Refusal (cb : nat) (e : Error)
| Completion (life : nat) (cb : nat) (r : Result UploadResult).

(** What happens at the driver's borders, in order: the application asking with
    a final callback, a request handed to the client, one given up, an answer
    taken in, an attempt resumed, a progress report, a final callback run. *)
Inductive Log :=
| Asked (cb : nat)
| Requested (life : nat) (spec : RequestSpec)
| GivenUp (k : nat)
| Answered (life : nat) (r : Result RawResponse)
| Resumed (life : nat)
| Progressed (life : nat) (p : UploadProgress)
| Finished (cb : nat) (r : Result UploadResult).

(** What the application may call. *)
Inductive Command :=
| Cmd_upload (source : ImageSource) (options : UploadOptions) (on_progress : bool) (on_done : option nat)
| Cmd_resume (handle : UploadHandle) (on_done : option nat)
| Cmd_cancel (handle : UploadHandle).

(** The upload half of [ImageManagement], with what it has queued at the client:
    the deferred work, and the requests not yet answered, each with its number
    and the driver whose callback it carries. [lives] and [issued] count the
    drivers made and the requests handed over. *)
Record ImageManagement := mkManagement {
  upload_ : option Upload;
  upload_generation_ : Z;
  deferred : list Work;
  lives : nat;
  issued : nat;
  outstanding : list (nat * nat);
  log : list Log
}.

Definition set_upload_ (x : option Upload) (m : ImageManagement) : ImageManagement :=
  mkManagement x (upload_generation_ m) (deferred m) (lives m) (issued m) (outstanding m) (log m).

Definition set_deferred (x : list Work) (m : ImageManagement) : ImageManagement :=
  mkManagement (upload_ m) (upload_generation_ m) x (lives m) (issued m) (outstanding m) (log m).

Definition add_log (l : Log) (m : ImageManagement) : ImageManagement :=
  mkManagement (upload_ m) (upload_generation_ m) (deferred m) (lives m) (issued m) (outstanding m) (log m ++ [l]).

Definition defer (w : Work) (m : ImageManagement) : ImageManagement :=
  set_deferred (deferred m ++ [w]) m.

(** A request handed to the client. *)
Definition client_request (life : nat) (spec : RequestSpec) (m : ImageManagement) : ImageManagement :=
  mkManagement (upload_ m) (upload_generation_ m) (deferred m) (lives m) (S (issued m))
    (outstanding m ++ [(issued m, life)]) (log m ++ [Requested life spec]).

(** The driver's members, updated. *)
Definition with_driver (f : UploadDriver -> UploadDriver) (m : ImageManagement) : ImageManagement :=
  set_upload_ ((fun u => mkUpload (f (up_driver u)) (up_generation u) (up_life u)) <$> upload_ m) m.

Definition new_management : ImageManagement := mkManagement None 0 [] 0 0 [] [].

(** [groups::reject]. *)
Definition reject (on_done : option nat) (e : Error) (m : ImageManagement) : ImageManagement :=
  match on_done with Some cb => defer (Refusal cb e) m | None => m end.

(** ** Requests on the wire *)

(** The entries of an upload request, in the order they are written. *)
Definition request_entries (image size : Z) (sha : option bytes) (upgrade first : bool) (o : Z)
    (data : bytes) : list Value :=
  (if first then [Text "image"; Uint image; Text "len"; Uint size] else []) ++
  [Text "off"; Uint o] ++
  (if first then
     match sha with Some s => [Text "sha"; Bytes s] | None => [] end ++
     (if upgrade then [Text "upgrade"; Bool true] else [])
   else []) ++
  [Text "data"; Bytes data].

Section driver.
Context `{QDecoder} `{QEncoder}.

(** The payload [UploadDriver::send] writes. *)
Definition encode_request (config : UploadConfig) (r : UploadRequest) (chunk : bytes) : Result bytes :=
  let w := open_map (new_writer kUploadBufferSize) in
  let w := if first_packet r
           then put_uint "len" (image_size config) (put_uint "image" (cfg_image config) w) else w in
  let w := put_uint "off" (off r) w in
  let w := if first_packet r then
             let w := match cfg_sha config with Some s => put_bytes "sha" s w | None => w end in
             if cfg_upgrade_only config then put_bool "upgrade" true w else w
           else w in
  GroupRequests.finish (close_map (put_bytes "data" chunk w)).

(** The probe of [first_packet_overhead]: a first packet with no data, into a
    buffer of its own. UploadSession.v knows of it only the size. *)
Definition probe_request (fields : FirstPacketFields) : Result bytes :=
  let w := open_map (new_writer (Z.to_nat kProbeBufferSize)) in
  let w := put_uint "off" 0 (put_uint "len" (fp_image_size fields) (put_uint "image" (fp_image fields) w)) in
  let w := match fp_sha fields with Some s => put_bytes "sha" s w | None => w end in
  let w := if fp_upgrade_only fields then put_bool "upgrade" true w else w in
  GroupRequests.finish (close_map (put_bytes "data" [] w)).

(** The deadline [send] gives the request. *)
Definition timeout_of (d : UploadDriver) (r : UploadRequest) : Z :=
  let final_chunk := wrap 64 (off r + req_length r) =? image_size (d_config d) in
  if first_packet r then d_first_chunk_timeout d
  else if final_chunk then d_final_chunk_timeout d
  else d_chunk_timeout d.

(** What [UploadDriver::handle] makes of a response. *)
Definition decode_response (response : Result RawResponse) : UploadResponse :=
  match response with
  | Fail e => mkResponse None None (Some e)
  | Success (_, payload) =>
      let '(entered, r) := enter_map (new_reader payload kMaxCborNesting) in
      match entered with
      | Fail e => mkResponse None None (Some e)
      | Success _ =>
          let '(o, r) := r_uint "off" r in
          let '(m, r) := r_boolean "match" r in
          let '(_, r) := leave_map r in
          match status r with
          | Fail e => mkResponse None None (Some e)
          | Success _ => mkResponse o m None
          end
      end
  end.

(** The client's limits and the application. *)
Context (transport_max_message_size transport_message_overhead : Z).
Context `{FirstPacketEncoder}.
Context (react : list Log -> list Command).

(** ** The driver

    [call] is how a callback runs: its place in the log, and what the
    application does from inside it. *)
Section calling.
Context (call : Log -> ImageManagement -> ImageManagement).

(** [UploadDriver::finish]. *)
Definition finish (outcome : Result UploadResult) (m : ImageManagement) : ImageManagement :=
  match upload_ m with
  | None => m
  | Some u =>
      let d := up_driver u in
      if negb (d_active d) then m
      else
        let m := with_driver (fun d => set_d_on_done None (set_d_active false d)) m in
        match d_on_done d with
        | None => m
        | Some cb =>
            if d_starting d then defer (Completion (up_life u) cb outcome) m
            else call (Finished cb outcome) m
        end
  end.

(** [UploadDriver::send]. *)
Definition send (r : UploadRequest) (m : ImageManagement) : ImageManagement :=
  match upload_ m with
  | None => m
  | Some u =>
      let d := up_driver u in
      match src_read (d_source d) (off r) (replicate (Z.to_nat (req_length r)) 0) with
      | Fail e => finish (Fail e) m
      | Success (n, chunk) =>
          if negb (Z.of_nat n =? req_length r)
          then finish (fail InvalidArgument "upload: source returned a short read") m
          else
            match encode_request (d_config d) r chunk with
            | Fail _ => finish (fail Internal "upload: request buffer too small") m
            | Success payload =>
                let spec := mkSpec Write Group_Image kUploadCommand payload (Some (timeout_of d r)) in
                let m := with_driver (fun d => set_d_state (record_sent (d_state d) r) d) m in
                let k := issued m in
                with_driver (set_d_request (Some k)) (client_request (up_life u) spec m)
            end
      end
  end.

(** The report of progress [handle] and [advance] share: only when there is a
    callback and the confirmed offset moved. *)
Definition report_progress (m : ImageManagement) : ImageManagement :=
  match upload_ m with
  | None => m
  | Some u =>
      let d := up_driver u in
      let o := confirmed_off (d_state d) in
      if d_on_progress d && negb (o =? d_reported_off d) then
        call (Progressed (up_life u) (mkProgress o (image_size (d_config d))))
          (with_driver (set_d_reported_off o) m)
      else m
  end.

(** [UploadDriver::advance]. *)
Definition advance (s : Step) (m : ImageManagement) : ImageManagement :=
  match action s with
  | SendChunk => send (request s) m
  | Complete =>
      let m := report_progress m in
      let o := match upload_ m with Some u => confirmed_off (d_state (up_driver u)) | None => 0 end in
      finish (Success (mkUploadResult o (completed_on_first_packet s) (match_ s))) m
  | FailUpload | Suspend => finish (Fail (error s)) m
  end.

(** [UploadDriver::handle], for a driver that is still there. *)
Definition handle (response : Result RawResponse) (m : ImageManagement) : ImageManagement :=
  match upload_ m with
  | None => m
  | Some u =>
      let d := up_driver u in
      if negb (d_active d) then m
      else
        let m := add_log (Answered (up_life u) response) m in
        let '(s, st) := on_response (d_state d) (decode_response response) (d_config d) in
        let m := with_driver (fun d => set_d_state st (set_d_request None d)) m in
        let m := if bool_decide (action s = SendChunk) then report_progress m else m in
        advance s m
  end.

(** [UploadDriver::cancel]. *)
Definition cancel_driver (m : ImageManagement) : ImageManagement :=
  match upload_ m with
  | None => m
  | Some u =>
      let d := up_driver u in
      if negb (d_active d) then m
      else
        let m := match d_request d with Some k => add_log (GivenUp k) m | None => m end in
        with_driver (set_d_request None) m
  end.

(** [UploadDriver::abandon]. *)
Definition abandon (m : ImageManagement) : ImageManagement :=
  match upload_ m with
  | None => m
  | Some u =>
      if negb (d_active (up_driver u)) then m
      else finish (fail Cancelled "upload: image management destroyed") (cancel_driver m)
  end.

End calling.

(** [UploadDriver::start] and [UploadDriver::restart]. While [starting_] is set
    [finish] defers, and neither reports progress: the first request of a session
    or of a resumption moves no offset. So no callback runs inside them, and
    [add_log] is what [call] would at most do. *)
Definition start (m : ImageManagement) : ImageManagement :=
  match upload_ m with
  | None => m
  | Some u =>
      let d := up_driver u in
      let m := with_driver (fun d => set_d_starting true (set_d_active true d)) m in
      let m := advance add_log (plan_next (d_state d) (d_config d)) m in
      with_driver (set_d_starting false) m
  end.

Definition restart (on_done : option nat) (m : ImageManagement) : ImageManagement :=
  match upload_ m with
  | None => m
  | Some u =>
      let d := up_driver u in
      let '(s, st) := resume (d_state d) (d_config d) in
      let m := add_log (Resumed (up_life u)) m in
      let m := with_driver
        (fun d => set_d_state st (set_d_starting true (set_d_active true (set_d_on_done on_done d)))) m in
      let m := advance add_log s m in
      with_driver (set_d_starting false) m
  end.

(** ** The image group *)

Definition is_active (m : ImageManagement) : bool :=
  match upload_ m with Some u => d_active (up_driver u) | None => false end.

(** Whether a handle names the upload that is there. *)
Definition names_upload (h : UploadHandle) (m : ImageManagement) : bool :=
  match upload_ m with Some u => uh_generation h =? up_generation u | None => false end.

(** [ImageManagement::resumable], with [UploadDriver::resumable]. *)
Definition resumable (h : UploadHandle) (m : ImageManagement) : bool :=
  names_upload h m &&
  match upload_ m with Some u => bool_decide (phase (d_state (up_driver u)) = Suspended) | None => false end.

(** [ImageManagement::transferred]. *)
Definition transferred (h : UploadHandle) (m : ImageManagement) : Z :=
  match upload_ m with
  | Some u => if uh_generation h =? up_generation u then confirmed_off (d_state (up_driver u)) else 0
  | None => 0
  end.

(** [ImageManagement::uploading]. *)
Definition uploading (h : UploadHandle) (m : ImageManagement) : bool :=
  names_upload h m && is_active m.

(** The hash [ImageManagement::upload] sends: the caller's, or the digest of the
    source. The digest loop returns ([sha256_total]). *)
Definition upload_sha (source : ImageSource) (options : UploadOptions) : Result bytes :=
  match uo_sha options with
  | Some s => Success s
  | None => default (fail Internal "image: digest") (sha256 source)
  end.

(** The chunk size it settles on. *)
Definition upload_chunk (source : ImageSource) (options : UploadOptions) (sha : bytes) : Result Z :=
  if negb (uo_chunk_size options =? 0) then Success (uo_chunk_size options)
  else
    compute_chunk_size
      (mkBudget (uo_server_buf_size options) transport_max_message_size transport_message_overhead
         kUploadChunkMax)
      (mkFields (src_size source) (uo_image options) (Some sha) (uo_upgrade_only options)).

Definition upload_config (source : ImageSource) (options : UploadOptions) (sha : bytes) (chunk : Z)
  : UploadConfig :=
  mkUploadConfig (src_size source) chunk (uo_image options) (Some sha) (uo_upgrade_only options)
    (uo_max_chunk_retries options) (uo_max_restarts options) (uo_max_no_progress options).

(** What [ImageManagement::upload] refuses before it reads the source. *)
Definition upload_refusal (source : ImageSource) (options : UploadOptions) (m : ImageManagement)
  : option Error :=
  if is_active m then Some (Error_at InvalidState "image: an upload is already running")
  else if src_size source =? 0 then Some (Error_at InvalidArgument "image: empty image source")
  else if kMaxImageSize <? src_size source
  then Some (Error_at InvalidArgument "image: image implausibly large")
  else if negb (uo_chunk_size options =? 0)
          && ((uo_chunk_size options <? kUploadChunkMin) || (kUploadChunkMax <? uo_chunk_size options))
  then Some (Error_at InvalidArgument "image: chunk size out of range")
  else None.

(** The driver [ImageManagement::upload] makes. *)
Definition new_driver (source : ImageSource) (config : UploadConfig) (options : UploadOptions)
    (on_progress : bool) (on_done : option nat) : UploadDriver :=
  mkDriver source config (uo_first_chunk_timeout options) (uo_final_chunk_timeout options)
    (uo_chunk_timeout options) on_progress on_done initial_state None 0 false false.

(** [ImageManagement::upload]. *)
Definition upload (source : ImageSource) (options : UploadOptions) (on_progress : bool)
    (on_done : option nat) (m : ImageManagement) : UploadHandle * ImageManagement :=
  let refuse e := (no_upload, reject on_done e m) in
  match upload_refusal source options m with
  | Some e => refuse e
  | None =>
      match upload_sha source options with
      | Fail e => refuse e
      | Success sha =>
          match upload_chunk source options sha with
          | Fail e => refuse e
          | Success chunk =>
              let g := wrap 64 (upload_generation_ m + 1) in
              let d := new_driver source (upload_config source options sha chunk) options
                         on_progress on_done in
              let m := mkManagement (Some (mkUpload d g (lives m))) g (deferred m) (S (lives m))
                         (issued m) (outstanding m) (log m) in
              let m := start m in
              ((if is_active m then mkUploadHandle g else no_upload), m)
          end
      end
  end.

(** [ImageManagement::resume]. *)
Definition resume_upload (h : UploadHandle) (on_done : option nat) (m : ImageManagement)
  : UploadHandle * ImageManagement :=
  if negb (resumable h m)
  then (no_upload, reject on_done (Error_at InvalidState "image: no upload to resume") m)
  else (h, restart on_done m).

(** [ImageManagement::cancel]. *)
Definition cancel_upload (h : UploadHandle) (m : ImageManagement) : ImageManagement :=
  if names_upload h m then cancel_driver m else m.

(** ** Running it *)

(** A call of the application. *)
Definition note_asked (on_done : option nat) (m : ImageManagement) : ImageManagement :=
  match on_done with Some cb => add_log (Asked cb) m | None => m end.

Definition exec (m : ImageManagement) (c : Command) : ImageManagement :=
  match c with
  | Cmd_upload source options on_progress on_done =>
      (upload source options on_progress on_done (note_asked on_done m)).2
  | Cmd_resume h on_done => (resume_upload h on_done (note_asked on_done m)).2
  | Cmd_cancel h => cancel_upload h m
  end.

(** A callback, and what the application calls from inside it. *)
Definition call (l : Log) (m : ImageManagement) : ImageManagement :=
  let m := add_log l m in foldl exec m (react (log m)).

(** Whether a driver that is referred to weakly is still there. *)
Definition alive (life : nat) (m : ImageManagement) : bool :=
  match upload_ m with Some u => (up_life u =? life)%nat | None => false end.

(** What the rest of the program does: a call of the application, an answer of
    the client to request [k], the oldest deferred work, the destructor. A
    request is answered once: an answer to one that is not outstanding does not
    occur. *)
Inductive Input :=
| I_command (c : Command)
| I_answer (k : nat) (r : Result RawResponse)
| I_deferred
| I_destroy.

Definition take_outstanding (k : nat) (m : ImageManagement) : option nat * ImageManagement :=
  (snd <$> List.find (fun o => (o.1 =? k)%nat) (outstanding m),
   mkManagement (upload_ m) (upload_generation_ m) (deferred m) (lives m) (issued m)
     (filter (fun o => o.1 <> k) (outstanding m)) (log m)).

Definition input_step (m : ImageManagement) (i : Input) : ImageManagement :=
  match i with
  | I_command c => exec m c
  | I_answer k r =>
      match take_outstanding k m with
      | (Some life, m) => if alive life m then handle call r m else m
      | (None, m) => m
      end
  | I_deferred =>
      match deferred m with
      | [] => m
      | w :: ws =>
          let m := set_deferred ws m in
          match w with
          | Refusal cb e => call (Finished cb (Fail e)) m
          | Completion life cb r => if alive life m then call (Finished cb r) m else m
          end
      end
  | I_destroy => set_upload_ None (abandon call m)
  end.

Definition run_inputs (is_ : list Input) (m : ImageManagement) : ImageManagement :=
  foldl input_step m is_.

End driver.
