(* ===== verification/UploadDriverProperties.v ===== *)
(** * Properties of the upload driver

    The driver runs the session of UploadSession.v and puts exactly its requests
    on the wire, each carrying the bytes of the file at the offset it names, in
    an encoding the device's reader parses back and that always fits the
    driver's buffer; no callback runs inside the call that started an upload;
    the callbacks given are the ones that ran and the ones still owed, but for
    those of a failed start that a second upload overtakes. *)

From S2P Require Import Prelude Errors Header Client Minicbor Cbor CborLaws QcborModel GroupCodecs GroupRequests McubootImage UploadSession UploadDriver.

#[local] Arguments encode : simpl never.
#[local] Arguments bytes_of_text : simpl never.

(** ** The encoding of a request *)

(** The size of a flat map. *)
Definition entries_size (es : list Value) : nat := sum_list ((fun v => length (encode v)) <$> es).

Lemma length_flat_map (es : list Value) : length (flat_map encode es) = entries_size es.
Proof.
  induction es as [|v es IH]; [done|]. cbn [flat_map]. rewrite length_app, IH. done.
Qed.

Lemma length_map (es : list Value) :
  zlen es / 2 < 24 -> length (encode (Map es)) = (1 + entries_size es)%nat.
Proof.
  intros Hl. change (encode (Map es)) with (w_map (zlen es / 2) ++ flat_map encode es).
  rewrite length_app, length_flat_map. unfold w_map.
  rewrite length_head_small; [done|]. split; [apply Z.div_pos; lia|done].
Qed.

Lemma entries_size_app es es' : entries_size (es ++ es') = (entries_size es + entries_size es')%nat.
Proof. unfold entries_size. by rewrite fmap_app, sum_list_with_app. Qed.

Lemma entries_size_cons v es : entries_size (v :: es) = (length (encode v) + entries_size es)%nat.
Proof. done. Qed.

Lemma length_any_uint n : 0 <= n -> (length (encode (Uint n)) <= 9)%nat.
Proof.
  intros Hn. change (encode (Uint n)) with (head 0 n). rewrite length_head by done.
  repeat case_match; lia.
Qed.

(** What a request's fields may be: the types, and the driver's own bounds. *)
Record fields_fit (image size o : Z) (sha : option bytes) (data : bytes) : Prop := {
  ff_image : u32 image;
  ff_size : u64 size;
  ff_off : u64 o;
  ff_sha : forall s, sha = Some s -> byte_list s /\ length s = 32%nat;
  ff_data : byte_list data /\ zlen data <= kUploadChunkMax
}.

Section size.
Context (image size o : Z) (sha : option bytes) (upgrade first : bool) (data : bytes).
Let es := request_entries image size sha upgrade first o data.

Lemma request_length : zlen es <= 12.
Proof. unfold es, request_entries. destruct first, sha, upgrade; vm_compute; congruence. Qed.

Lemma request_pairs : zlen es / 2 < 24.
Proof. pose proof request_length. apply Z.div_lt_upper_bound; lia. Qed.

Context (Hfit : fields_fit image size o sha data).

(** The largest request takes 605 bytes of the 640. *)
Lemma request_fits : (length (encode (Map es)) <= kUploadBufferSize)%nat.
Proof using Hfit.
  destruct Hfit as [Hi Hs Ho Hsha [_ Hd]]. unfold fits in *. rewrite (length_map _ request_pairs).
  unfold es, request_entries. rewrite !entries_size_app.
  assert (entries_size [Text "data"; Bytes data] <= 520)%nat as H1.
  { rewrite !entries_size_cons. change (length (encode (Text "data"))) with 5%nat.
    pose proof (length_bytes data 512). unfold kUploadChunkMax in Hd. change (entries_size []) with 0%nat. lia. }
  assert (entries_size [Text "off"; Uint o] <= 13)%nat as H2.
  { rewrite !entries_size_cons. change (length (encode (Text "off"))) with 4%nat.
    pose proof (length_any_uint o). change (entries_size []) with 0%nat. lia. }
  assert (entries_size (if first then [Text "image"; Uint image; Text "len"; Uint size] else []) <= 28)%nat as H3.
  { destruct first; [|cbn; lia]. rewrite !entries_size_cons. change (length (encode (Text "image"))) with 6%nat.
    change (length (encode (Text "len"))) with 4%nat. pose proof (length_any_uint image).
    pose proof (length_any_uint size). change (entries_size []) with 0%nat. lia. }
  assert (entries_size (if first then match sha with Some s => [Text "sha"; Bytes s] | None => [] end ++
            (if upgrade then [Text "upgrade"; Bool true] else []) else []) <= 48)%nat as H4.
  { destruct first; [|cbn; lia]. rewrite entries_size_app.
    assert (entries_size (if upgrade then [Text "upgrade"; Bool true] else []) <= 9)%nat by (destruct upgrade; vm_compute; lia).
    destruct sha as [s|]; [|change (entries_size []) with 0%nat; lia].
    destruct (Hsha s eq_refl) as [_ Hl]. rewrite !entries_size_cons. change (length (encode (Text "sha"))) with 4%nat.
    pose proof (length_bytes s 32). change (entries_size []) with 0%nat. lia. }
  unfold kUploadBufferSize. change (Z.to_nat kUploadChunkMax) with 512%nat. lia.
Qed.

Lemma request_value_ok : value_ok 9 (Map es).
Proof using Hfit.
  destruct Hfit as [Hi Hs Ho Hsha [Hb Hd]]. apply flat_ok; [|pose proof request_length; lia].
  assert (forall k : string, Z.of_nat (String.length k) < 2 ^ 63 -> value_ok 8 (Text k)) as Ht
    by (intros; by apply (text_ok 7)).
  assert (value_ok 8 (Bytes data)).
  { split; [done|]. unfold fits, kUploadChunkMax in *. lia. }
  assert (value_ok 8 (Uint image)) by (unfold fits in *; simpl; unfold fits; lia).
  unfold es, request_entries. destruct first, sha as [s|], upgrade; cbn [app entries_ok];
    try (destruct (Hsha s eq_refl) as [Hsb Hsl]); split_and!; try done; try (by apply Ht);
    split; try done; unfold fits; lia.
Qed.

Lemma request_parses : parse (encode (Map es)) = Some (Map es).
Proof using Hfit. by apply parse_encode, request_value_ok. Qed.
End size.

(** The fields of a request of a configuration. *)
Definition request_fits_config (config : UploadConfig) (r : UploadRequest) (data : bytes) : Prop :=
  fields_fit (cfg_image config) (image_size config) (off r) (cfg_sha config) data.

Definition entries_of (config : UploadConfig) (r : UploadRequest) (data : bytes) : list Value :=
  request_entries (cfg_image config) (image_size config) (cfg_sha config) (cfg_upgrade_only config)
    (first_packet r) (off r) data.

Section writes.
Context `{QEncoderLaws}.

Lemma writing_uint cap es key n w :
  writing cap es w -> plain_key key -> writing cap (es ++ [Text key; Uint n]) (put_uint key n w).
Proof. intros Hw [Hl Hc]. apply put_writing; try done. intros c. apply law_add_uint. Qed.

Lemma writing_bool cap es key b w :
  writing cap es w -> plain_key key -> writing cap (es ++ [Text key; Bool b]) (put_bool key b w).
Proof. intros Hw [Hl Hc]. apply put_writing; try done. intros c. apply law_add_bool. Qed.

Lemma writing_bytes cap es key b w :
  writing cap es w -> plain_key key -> writing cap (es ++ [Text key; Bytes b]) (put_bytes key b w).
Proof. intros Hw [Hl Hc]. apply put_writing; try done. intros c. apply law_add_bytes. Qed.

End writes.

Ltac plain := split; [vm_compute; lia|reflexivity].

(** Opening a map, and one field after another: the entries are whatever the
    writes add up to. *)
Ltac write_fields :=
  eexists; split;
  [repeat match goal with
   | |- writing _ _ (put_uint _ _ _) => apply writing_uint; [|plain]
   | |- writing _ _ (put_bool _ _ _) => apply writing_bool; [|plain]
   | |- writing _ _ (put_bytes _ _ _) => apply writing_bytes; [|plain]
   end; apply open_writing
  |reflexivity].

Lemma encode_request_exact `{QEncoderLaws} config r data :
  request_fits_config config r data ->
  encode_request config r data = Success (encode (Map (entries_of config r data))).
Proof.
  intros Hfit. unfold encode_request. apply (finish_writing kUploadBufferSize); [|by apply request_fits].
  assert (exists es, writing kUploadBufferSize es
    (put_bytes "data" data
       (let w := if first_packet r
                 then put_uint "len" (image_size config) (put_uint "image" (cfg_image config)
                        (open_map (new_writer kUploadBufferSize)))
                 else open_map (new_writer kUploadBufferSize) in
        let w := put_uint "off" (off r) w in
        if first_packet r then
          let w := match cfg_sha config with Some s => put_bytes "sha" s w | None => w end in
          if cfg_upgrade_only config then put_bool "upgrade" true w else w
        else w)) /\ es = entries_of config r data) as (es & Hw & <-); [|exact Hw].
  unfold entries_of, request_entries.
  destruct (first_packet r), (cfg_sha config) as [s|], (cfg_upgrade_only config); write_fields.
Qed.

(** ** The probe of the chunk size *)

(** The entries of a first packet, with [n] bytes of data. *)
Definition first_entries (f : FirstPacketFields) (n : Z) : list Value :=
  request_entries (fp_image f) (fp_image_size f) (fp_sha f) (fp_upgrade_only f) true 0
    (replicate (Z.to_nat n) 0%Z).

Lemma first_entries_split f n :
  exists es, entries_size (first_entries f n) =
    (entries_size es + length (encode (Bytes (replicate (Z.to_nat n) 0%Z))))%nat /\
    forall n', entries_size (first_entries f n') =
    (entries_size es + length (encode (Bytes (replicate (Z.to_nat n') 0%Z))))%nat.
Proof.
  exists (removelast (first_entries f 0)).
  assert (forall n', first_entries f n' =
    removelast (first_entries f 0) ++ [Bytes (replicate (Z.to_nat n') 0%Z)]) as Heq.
  { intros n'. unfold first_entries, request_entries. destruct (fp_sha f), (fp_upgrade_only f); reflexivity. }
  assert (forall n', entries_size (first_entries f n') =
    (entries_size (removelast (first_entries f 0)) + length (encode (Bytes (replicate (Z.to_nat n') 0%Z))))%nat) as Hs.
  { intros n'. rewrite (Heq n') at 1. rewrite entries_size_app, entries_size_cons. cbn. lia. }
  by split.
Qed.

Lemma zlen_replicate_bytes n :
  0 <= n < 2 ^ 32 ->
  Z.of_nat (length (encode (Bytes (replicate (Z.to_nat n) 0%Z)))) = bstr_header_size n + n.
Proof.
  intros Hn. change (encode (Bytes ?b)) with (head 2 (zlen b) ++ b).
  rewrite length_app, length_replicate, length_head by lia. unfold bstr_header_size.
  rewrite Z2Nat.id by lia. repeat case_match; bool_to_prop; lia.
Qed.

(** The sizes UploadSession.v relies on are those of the bytes the encoder
    writes. *)
#[global] Instance wire_encoder : FirstPacketEncoder.
Proof.
  refine {| encoded_size f n := zlen (encode (Map (first_entries f n))) |}.
  - intros f n Hn. destruct (first_entries_split f n) as (es & _ & Hs).
    rewrite !length_map, !Hs by apply request_pairs.
    pose proof (zlen_replicate_bytes n Hn). pose proof (zlen_replicate_bytes 0 ltac:(lia)).
    change (bstr_header_size 0) with 1 in *. lia.
  - intros f. rewrite length_map by apply request_pairs. lia.
Defined.

Lemma probe_exact `{QEncoderLaws} f :
  fields_fit (fp_image f) (fp_image_size f) 0 (fp_sha f) [] ->
  exists p, probe_request f = Success p /\ probe f = Some (zlen p).
Proof.
  intros Hfit. exists (encode (Map (first_entries f 0))).
  assert (length (encode (Map (first_entries f 0))) <= 256)%nat as Hl.
  { destruct Hfit as [Hi Hs Ho Hsha _]. unfold fits in *. rewrite length_map by apply request_pairs.
    unfold first_entries, request_entries. rewrite !entries_size_app, !entries_size_cons.
    pose proof (length_any_uint (fp_image f)). pose proof (length_any_uint (fp_image_size f)).
    assert (entries_size (match fp_sha f with Some s => [Text "sha"; Bytes s] | None => [] end) <= 39)%nat.
    { destruct (fp_sha f) as [s|]; [|cbn; lia]. destruct (Hsha s eq_refl) as [_ Hl].
      rewrite !entries_size_cons. pose proof (length_bytes s 32). change (length (encode (Text "sha"))) with 4%nat.
      change (entries_size []) with 0%nat. lia. }
    assert (entries_size (if fp_upgrade_only f then [Text "upgrade"; Bool true] else []) <= 9)%nat
      by (destruct (fp_upgrade_only f); vm_compute; lia).
    change (length (encode (Text "image"))) with 6%nat. change (length (encode (Text "len"))) with 4%nat.
    change (length (encode (Text "off"))) with 4%nat. change (length (encode (Text "data"))) with 5%nat.
    change (length (encode (Uint 0))) with 1%nat. change (length (encode (Bytes (replicate (Z.to_nat 0) 0%Z)))) with 1%nat.
    change (entries_size []) with 0%nat. lia. }
  split.
  - unfold probe_request. apply (finish_writing (Z.to_nat kProbeBufferSize)); [|exact Hl].
    assert (exists es, writing (Z.to_nat kProbeBufferSize) es
      (put_bytes "data" []
         (let w := put_uint "off" 0 (put_uint "len" (fp_image_size f) (put_uint "image" (fp_image f)
                     (open_map (new_writer (Z.to_nat kProbeBufferSize))))) in
          let w := match fp_sha f with Some s => put_bytes "sha" s w | None => w end in
          if fp_upgrade_only f then put_bool "upgrade" true w else w)) /\ es = first_entries f 0)
      as (es & Hw & <-); [|exact Hw].
    unfold first_entries, request_entries. destruct (fp_sha f) as [s|], (fp_upgrade_only f); write_fields.
  - unfold probe. change (encoded_size f 0) with (zlen (encode (Map (first_entries f 0)))).
    unfold kProbeBufferSize. rewrite (proj2 (Z.leb_le _ _)) by lia. done.
Qed.

(** ** What the log says of a driver *)

Definition sent_of (p : option input * Step) : option UploadRequest :=
  if bool_decide (action p.2 = SendChunk) then Some (request p.2) else None.

(** The requests of a session, in order. *)
Definition requests (t : trace) : list UploadRequest := omap sent_of t.

Section log.
Context `{QDecoder}.

Definition heard_by (life : nat) (l : Log) : option input :=
  match l with
  | Answered i r => if (i =? life)%nat then Some (Answer (decode_response r)) else None
  | Resumed i => if (i =? life)%nat then Some Reconnect else None
  | _ => None
  end.

(** What the session behind a driver was told, and what the driver put on the
    wire. *)
Definition heard (life : nat) (logged : list Log) : list input := omap (heard_by life) logged.

Definition wire_of (life : nat) (l : Log) : option RequestSpec :=
  match l with Requested i spec => if (i =? life)%nat then Some spec else None | _ => None end.

Definition wire (life : nat) (logged : list Log) : list RequestSpec := omap (wire_of life) logged.

Lemma heard_snoc life logged l :
  heard life (logged ++ [l]) = heard life logged ++ match heard_by life l with Some i => [i] | None => [] end.
Proof. unfold heard. rewrite omap_app. simpl. by destruct (heard_by life l). Qed.

Lemma wire_snoc life logged l :
  wire life (logged ++ [l]) = wire life logged ++ match wire_of life l with Some s => [s] | None => [] end.
Proof. unfold wire. rewrite omap_app. simpl. by destruct (wire_of life l). Qed.
End log.

(** The final callbacks given, those that ran, and those still owed: the running
    upload's, and those of deferred work. *)
Definition asked_by (l : Log) : option nat := match l with Asked cb => Some cb | _ => None end.
Definition done_by (l : Log) : option nat := match l with Finished cb _ => Some cb | _ => None end.
Definition asked (logged : list Log) : list nat := omap asked_by logged.
Definition finished (logged : list Log) : list nat := omap done_by logged.

Definition driver_owed (d : UploadDriver) : list nat :=
  if d_active d then match d_on_done d with Some cb => [cb] | None => [] end else [].

Definition work_owed (w : Work) : option nat :=
  match w with Refusal cb _ | Completion _ cb _ => Some cb end.

Definition owed (m : ImageManagement) : list nat :=
  match upload_ m with Some u => driver_owed (up_driver u) | None => [] end ++ omap work_owed (deferred m).

(** Every callback given is accounted for; [held] are in hand. *)
Definition balanced (held : list nat) (m : ImageManagement) : Prop :=
  asked (log m) ≡ₚ finished (log m) ++ held ++ owed m.

Definition is_refusal (w : Work) : Prop := match w with Refusal _ _ => True | Completion _ _ _ => False end.

(** The bytes of the file a request is for, and the request on the wire. *)
Definition chunk_of (file : bytes) (r : UploadRequest) : bytes :=
  take (Z.to_nat (req_length r)) (drop (Z.to_nat (off r)) file).

Definition spec_of (d : UploadDriver) (file : bytes) (r : UploadRequest) : RequestSpec :=
  mkSpec Write Group_Image kUploadCommand (encode (Map (entries_of (d_config d) r (chunk_of file r))))
    (Some (timeout_of d r)).

(** What never changes of a driver, for a source that reads a file. *)
Record static_ok (file : bytes) (d : UploadDriver) : Prop := {
  so_file : ReadsFile (d_source d) file;
  so_bytes : byte_list file;
  so_config : config_ok (d_config d);
  so_size : image_size (d_config d) = zlen file;
  so_chunk : chunk_size (d_config d) <= kUploadChunkMax;
  so_image : u32 (cfg_image (d_config d));
  so_sha : forall s, cfg_sha (d_config d) = Some s -> byte_list s /\ length s = 32%nat
}.

Section refinement.
Context `{QDecoder} `{Hlaws : QEncoderLaws}.

(** What the C++ type of the out-parameter says. *)
Context (uint64_out : forall key c, u64 (GetUInt64InMapSZ key c).1).

Lemma r_uint_typed key r v r' : r_uint key r = (Some v, r') -> u64 v.
Proof using uint64_out.
  unfold r_uint, lookup_key. destruct (error_ r); [done|]. destruct (label key r) as [[name|] r1]; [|done].
  pose proof (uint64_out name (context_ r1)) as Ht. destruct (GetUInt64InMapSZ name (context_ r1)) as [n c].
  destruct (consume_lookup _) as [[] r2]; intros [= <- <-]. exact Ht.
Qed.

Lemma decode_typed r : input_ok (Answer (decode_response r)).
Proof using uint64_out.
  intros o. unfold decode_response. destruct r as [[h payload]|]; [|done].
  destruct (enter_map _) as [[|] r1]; [|done].
  destruct (r_uint "off" r1) as [v r2] eqn:Hu. destruct (r_boolean _ _), (leave_map _), (status _); try done.
  cbn. intros ->. by eapply r_uint_typed.
Qed.

Lemma heard_ok life logged : Forall input_ok (heard life logged).
Proof using uint64_out.
  apply Forall_forall. intros i Hi. apply list_elem_of_omap in Hi as (l & _ & Hl).
  destruct l; cbn in Hl; try done; destruct (_ =? _)%nat; try done; injection Hl as <-; [apply decode_typed|done].
Qed.

(** ** One request *)

Lemma read_chunk file d r :
  static_ok file d -> request_ok (d_config d) r ->
  0 <= req_length r /\
  src_read (d_source d) (off r) (replicate (Z.to_nat (req_length r)) 0) =
    Success (Z.to_nat (req_length r), chunk_of file r).
Proof.
  intros [Hf _ Hc Hs _ _ _] (Ho & Hl & _). pose proof (co_chunk _ Hc). split; [lia|].
  rewrite (reads_at (off r)) by lia. rewrite length_replicate.
  assert (Nat.min (Z.to_nat (req_length r)) (length file - Z.to_nat (off r)) = Z.to_nat (req_length r)) as Hm.
  { rewrite Hs in *. lia. }
  cbn zeta. rewrite Hm, (drop_ge (replicate _ _)), app_nil_r by (by rewrite length_replicate). done.
Qed.

Lemma request_in_bounds file d r :
  static_ok file d -> request_ok (d_config d) r -> request_fits_config (d_config d) r (chunk_of file r).
Proof.
  intros [Hf Hb Hc Hs Hch Hi Hsha] (Ho & Hl & _). pose proof (co_chunk _ Hc). pose proof (co_size _ Hc).
  split; try done; unfold fits; try lia. split.
  - unfold chunk_of. by apply Forall_take, Forall_drop.
  - unfold chunk_of. rewrite length_take. lia.
Qed.

(** With a source that reads the file, a request of the session always goes
    out. *)
Lemma send_ok (call : Log -> ImageManagement -> ImageManagement) file m u r :
  upload_ m = Some u -> static_ok file (up_driver u) -> request_ok (d_config (up_driver u)) r ->
  send call r m =
    with_driver (set_d_request (Some (issued m)))
      (client_request (up_life u) (spec_of (up_driver u) file r)
        (with_driver (fun d => set_d_state (record_sent (d_state d) r) d) m)).
Proof.
  intros Hu Hs Hr. unfold send. rewrite Hu. cbn zeta.
  destruct (read_chunk _ _ _ Hs Hr) as [Hl ->]. rewrite Z2Nat.id, Z.eqb_refl by done. cbn [negb].
  rewrite encode_request_exact by by eapply request_in_bounds. done.
Qed.

(** ** The invariant *)

(** A driver between two inputs: its state is that of the session it was told,
    and what it put on the wire is that session's requests. *)
Record driver_ok (file : bytes) (life : nat) (logged : list Log) (d : UploadDriver) : Prop := {
  do_static : static_ok file d;
  do_state : d_state d = (session (d_config d) (heard life logged)).2;
  do_wire : wire life logged = spec_of d file <$> requests (session (d_config d) (heard life logged)).1;
  do_active : d_active d = true -> phase (d_state d) = Sending;
  do_starting : d_starting d = false
}.

Definition uploads_ok (held : list nat) (m : ImageManagement) : Prop :=
  (balanced held m /\ Forall is_refusal (deferred m)) /\
  (forall life, (lives m <= life)%nat -> heard life (log m) = [] /\ wire life (log m) = []) /\
  forall u, upload_ m = Some u ->
    (up_life u < lives m)%nat /\ exists file, driver_ok file (up_life u) (log m) (up_driver u).

(** Entries that are about no session leave the invariant alone. *)
Definition quiet (l : Log) : Prop := forall life, heard_by life l = None /\ wire_of life l = None.

Definition neutral (l : Log) : Prop := quiet l /\ asked_by l = None /\ done_by l = None.

Lemma balanced_log held held' m l :
  match asked_by l with Some cb => [cb] | None => [] end ++ held ≡ₚ
    match done_by l with Some cb => [cb] | None => [] end ++ held' ->
  balanced held m -> balanced held' (add_log l m).
Proof using.
  intros Hl Hb. unfold balanced, asked, finished in *. cbn [add_log log]. rewrite !omap_app.
  change (owed (add_log l m)) with (owed m).
  transitivity (omap done_by (log m) ++
    (match asked_by l with Some cb => [cb] | None => [] end ++ held) ++ owed m).
  - rewrite Hb. cbn. destruct (asked_by l); solve_Permutation.
  - rewrite Hl. cbn. destruct (done_by l); solve_Permutation.
Qed.

Lemma driver_ok_log file life logged logged' d :
  heard life logged = heard life logged' -> wire life logged = wire life logged' ->
  driver_ok file life logged d -> driver_ok file life logged' d.
Proof. intros Hh Hw [? ? ? ? ?]. split; try done; by rewrite <- ?Hh, <- ?Hw. Qed.

Lemma uploads_ok_quiet held held' m l :
  quiet l ->
  match asked_by l with Some cb => [cb] | None => [] end ++ held ≡ₚ
    match done_by l with Some cb => [cb] | None => [] end ++ held' ->
  uploads_ok held m -> uploads_ok held' (add_log l m).
Proof.
  intros Hn Hp [[Hbal Href] [Hl Hu]]. assert (forall life, heard life (log m ++ [l]) = heard life (log m) /\
    wire life (log m ++ [l]) = wire life (log m)) as Heq.
  { intros life. destruct (Hn life) as [Hh Hw]. by rewrite heard_snoc, wire_snoc, Hh, Hw, !app_nil_r. }
  split; [split; [by eapply balanced_log|done]|].
  split; change (log (add_log l m)) with (log m ++ [l]).
  - intros life Hle. destruct (Heq life) as [-> ->]. by apply Hl.
  - intros u Hup. destruct (Hu u Hup) as (? & file & Hd). split; [done|]. exists file.
    destruct (Heq (up_life u)) as [Hh Hw]. by eapply driver_ok_log; [symmetry; exact Hh|symmetry; exact Hw|].
Qed.

Lemma uploads_ok_neutral held m l : neutral l -> uploads_ok held m -> uploads_ok held (add_log l m).
Proof. intros (Hq & Ha & Hd). apply uploads_ok_quiet; [done|]. by rewrite Ha, Hd. Qed.

Lemma uploads_ok_reject cb e m :
  uploads_ok match cb with Some k => [k] | None => [] end m -> uploads_ok [] (reject cb e m).
Proof.
  destruct cb as [cb|]; [|done]. intros [[Hb Hr] Hu]. split; [|exact Hu]. split.
  - unfold balanced, owed in *. cbn [reject defer set_deferred upload_ deferred log] in *.
    rewrite Hb, omap_app. cbn. solve_Permutation.
  - cbn. apply Forall_app_2; [done|]. by constructor.
Qed.

Lemma uploads_ok_asked cb m :
  uploads_ok [] m -> uploads_ok match cb with Some k => [k] | None => [] end (note_asked cb m).
Proof. destruct cb as [cb|]; [|done]. by apply uploads_ok_quiet. Qed.

(** ** A step decided and not yet carried out *)

(** Where the session is after each kind of step. *)
Lemma on_response_phase config st r :
  phase st = Sending ->
  let '(s, st') := on_response st r config in
  phase st' = match action s with
              | SendChunk => Sending | Complete => Done | FailUpload => Failed | Suspend => Suspended
              end.
Proof.
  intros Hp. unfold on_response, on_failure, on_complete, on_restart, on_offset, fail_with, send_from, adopt.
  repeat (case_match; simplify_eq/=; try done).
Qed.

(** The driver's state is the session's before the last step goes out. *)
Record pending (file : bytes) (m : ImageManagement) (u : Upload) (t : trace) (x : option input)
    (s : Step) (st : UploadState) : Prop := {
  pe_upload : upload_ m = Some u;
  pe_life : (up_life u < lives m)%nat;
  pe_balanced : balanced [] m;
  pe_refusals : Forall is_refusal (deferred m);
  pe_fresh : forall life, (lives m <= life)%nat -> heard life (log m) = [] /\ wire life (log m) = [];
  pe_static : static_ok file (up_driver u);
  pe_session : session (d_config (up_driver u)) (heard (up_life u) (log m)) =
    (t ++ [(x, s)], (sent (s, st)).2);
  pe_state : d_state (up_driver u) = st;
  pe_wire : wire (up_life u) (log m) = spec_of (up_driver u) file <$> requests t;
  pe_active : d_active (up_driver u) = true
}.

(** The last step's request is one of the session's. *)
Lemma pending_request file m u t x s st :
  pending file m u t x s st -> action s = SendChunk -> request_ok (d_config (up_driver u)) (request s).
Proof using uint64_out.
  intros [? ? ? ? ? Hs Hse ? ? ?] Ha.
  pose proof (history_session _ (heard (up_life u) (log m)) (so_config _ _ Hs) (heard_ok _ _)) as Hh.
  rewrite Hse in Hh. pose proof (hi_requests _ _ _ Hh) as Hr. cbn [fst] in Hr.
  apply Forall_app in Hr as [_ Hr]. inversion Hr; subst. auto.
Qed.

Lemma requests_snoc t p :
  requests (t ++ [p]) = requests t ++ match sent_of p with Some r => [r] | None => [] end.
Proof. unfold requests. rewrite omap_app. simpl. by destruct (sent_of p). Qed.

Lemma pending_send (call : Log -> ImageManagement -> ImageManagement) file m u t x s st :
  pending file m u t x s st -> action s = SendChunk ->
  uploads_ok [] (with_driver (set_d_starting false) (send call (request s) m)).
Proof using uint64_out Hlaws.
  intros Hp Ha. pose proof (pending_request _ _ _ _ _ _ _ Hp Ha) as Hr.
  destruct Hp as [Hu Hl Hb Href Hf Hs Hse Hst Hw Hac]. rewrite (send_ok call file m u) by done.
  assert (forall life, heard life (log m ++ [Requested (up_life u) (spec_of (up_driver u) file (request s))])
    = heard life (log m)) as Hh by (intros; rewrite heard_snoc; apply app_nil_r).
  split.
  { split; [|exact Href]. unfold balanced, asked, finished, owed in *.
    unfold client_request, with_driver, set_upload_. cbn [log deferred upload_]. rewrite !omap_app, Hu in *.
    cbn. by rewrite !app_nil_r. }
  split; unfold client_request, with_driver, set_upload_; cbn [lives log upload_]; rewrite ?Hu.
  - intros life Hle. destruct (Hf life Hle) as [Hh0 Hw0]. rewrite Hh, wire_snoc, Hh0, Hw0. cbn [wire_of].
    rewrite (proj2 (Nat.eqb_neq _ _)) by lia. done.
  - intros u' [= <-]. split; [exact Hl|]. exists file. cbn [up_life up_driver]. split.
    + destruct Hs. by split.
    + rewrite Hh. cbn [d_state d_config set_d_starting set_d_request set_d_state]. rewrite Hse, Hst.
      unfold sent. cbn [fst snd]. rewrite bool_decide_eq_true_2 by done. done.
    + rewrite Hh, wire_snoc. cbn [wire_of d_config set_d_starting set_d_request set_d_state].
      rewrite Nat.eqb_refl, Hw, Hse. cbn [fst]. rewrite requests_snoc, fmap_app. f_equal.
      unfold sent_of. cbn [snd]. rewrite bool_decide_eq_true_2 by done. done.
    + cbn. by rewrite Hac.
    + done.
Qed.

(** A callback in the middle of a step: the application can do nothing to the
    driver, whose request is back and whose upload is not over. *)
Definition busy (m : ImageManagement) : Prop :=
  exists u, upload_ m = Some u /\ d_active (up_driver u) = true /\ d_request (up_driver u) = None /\
    phase (d_state (up_driver u)) <> Suspended.

(** What may happen beside a step: the drivers, and what they were told and
    sent, stay as they are, and the callbacks stay accounted for. *)
Record aside (m m' : ImageManagement) : Prop := {
  as_upload : upload_ m' = upload_ m;
  as_lives : lives m' = lives m;
  as_heard : forall life, heard life (log m') = heard life (log m);
  as_wire : forall life, wire life (log m') = wire life (log m);
  as_balanced : forall held, balanced held m -> balanced held m';
  as_refusals : Forall is_refusal (deferred m) -> Forall is_refusal (deferred m')
}.

#[local] Instance aside_preorder : PreOrder aside.
Proof. split; [by split|]. intros ? ? ? [] []. split; try congruence; eauto. Qed.

Lemma aside_log m l : neutral l -> aside m (add_log l m).
Proof using.
  intros (Hq & Ha & Hd). split; try done.
  - intros life. change (heard life (log m ++ [l]) = heard life (log m)). rewrite heard_snoc. destruct (Hq life) as [-> _]. apply app_nil_r.
  - intros life. change (wire life (log m ++ [l]) = wire life (log m)). rewrite wire_snoc. destruct (Hq life) as [_ ->]. apply app_nil_r.
  - intros held. apply balanced_log. by rewrite Ha, Hd.
Qed.

Lemma aside_reject cb e m : aside m (reject cb e (note_asked cb m)).
Proof using.
  destruct cb as [cb|]; [|done]. split; try done.
  - intros life. change (heard life (log m ++ [Asked cb]) = heard life (log m)). rewrite heard_snoc. apply app_nil_r.
  - intros life. change (wire life (log m ++ [Asked cb]) = wire life (log m)). rewrite wire_snoc. apply app_nil_r.
  - intros held Hb. unfold balanced, asked, finished, owed in *. cbn. rewrite !omap_app, Hb. cbn.
    solve_Permutation.
  - intros Hr. cbn. apply Forall_app_2; [done|]. by constructor.
Qed.

(** How a callback may behave: the final one keeps the invariant, and one in the
    middle of a step stays beside it. *)
Record callback_ok (call : Log -> ImageManagement -> ImageManagement) : Prop := {
  cb_keeps : forall cb r m, uploads_ok [cb] m -> uploads_ok [] (call (Finished cb r) m);
  cb_busy : forall l m, neutral l -> busy m -> aside m (call l m)
}.

Lemma add_log_ok : callback_ok add_log.
Proof.
  split; [intros cb r m; by apply uploads_ok_quiet|]. intros l m Hl _. by apply aside_log.
Qed.

Lemma pending_aside file m m' u t x s st :
  aside m m' -> pending file m u t x s st -> pending file m' u t x s st.
Proof using.
  intros [Hup Hlv Hh Hw Hb Hr] [? ? ? ? Hf ? ? ? ? ?].
  split; rewrite ?Hup, ?Hlv, ?Hh, ?Hw; auto. intros life Hle. rewrite Hh, Hw. by apply Hf.
Qed.

(** The running upload's callback, taken in hand. *)
Lemma balanced_finish m u :
  upload_ m = Some u -> balanced [] m ->
  balanced (driver_owed (up_driver u)) (with_driver (fun d => set_d_on_done None (set_d_active false d)) m).
Proof using.
  intros Hu. unfold balanced, owed, with_driver, set_upload_. cbn [upload_ log deferred]. rewrite Hu.
  intros ->. cbn. done.
Qed.

Section with_call.
Context (call : Log -> ImageManagement -> ImageManagement) (Hcall : callback_ok call).

Lemma pending_progress file m u t x s st :
  pending file m u t x s st -> d_request (up_driver u) = None -> phase st <> Suspended ->
  exists u', pending file (report_progress call m) u' t x s st /\
    d_starting (up_driver u') = d_starting (up_driver u).
Proof using Hcall.
  intros Hp Hr Hph. destruct (Hp) as [Hu Hl Hb Href Hf Hs Hse Hst Hw Hac].
  unfold report_progress. rewrite Hu. cbn zeta. destruct (_ && _); [|by exists u].
  set (o := confirmed_off _).
  set (u' := mkUpload (set_d_reported_off o (up_driver u)) (up_generation u) (up_life u)).
  assert (upload_ (with_driver (set_d_reported_off o) m) = Some u') as Hu' by (cbn; by rewrite Hu).
  exists u'. split; [|done]. eapply pending_aside.
  { apply (cb_busy _ Hcall); [by split|]. exists u'. split_and!; try done. cbn. by rewrite Hst. }
  split; try done.
  - unfold balanced, owed in *. rewrite Hu'. rewrite Hu in Hb. exact Hb.
  - destruct Hs. by split.
Qed.

Lemma pending_finish file m u t x s st outcome :
  pending file m u t x s st -> action s <> SendChunk -> phase st <> Sending ->
  d_starting (up_driver u) = false -> uploads_ok [] (finish call outcome m).
Proof using Hcall.
  intros [Hu Hl Hbal Href Hf Hs Hse Hst Hw Hac] Ha Hph Hstart. unfold finish. rewrite Hu. cbn zeta. rewrite Hac. cbn [negb].
  assert (uploads_ok (driver_owed (up_driver u))
    (with_driver (fun d => set_d_on_done None (set_d_active false d)) m)) as Hok.
  { split; [split; [by apply balanced_finish|done]|]. split; unfold with_driver, set_upload_; cbn [lives log upload_]; rewrite ?Hu; [exact Hf|].
    intros u' [= <-]. split; [exact Hl|]. exists file. cbn [up_life up_driver]. split.
    - destruct Hs. by split.
    - cbn. rewrite Hse, Hst. unfold sent. by rewrite bool_decide_eq_false_2.
    - cbn. rewrite Hse, Hw. cbn [fst]. rewrite requests_snoc. unfold sent_of. cbn [snd].
      by rewrite bool_decide_eq_false_2, app_nil_r by done.
    - done.
    - done. }
  rewrite Hstart. unfold driver_owed in Hok. rewrite Hac in Hok.
  destruct (d_on_done _); [|done]. by apply (cb_keeps _ Hcall).
Qed.

(** A step that sends nothing. *)
Lemma pending_end file m u t x s st :
  pending file m u t x s st -> action s <> SendChunk -> phase st <> Sending ->
  (action s = Complete -> phase st = Done) -> d_request (up_driver u) = None ->
  d_starting (up_driver u) = false -> uploads_ok [] (advance call s m).
Proof using Hcall.
  intros Hp Ha Hph Hd Hr Hstart. unfold advance. destruct (action s) eqn:E; [done| | |];
    try (eapply pending_finish; [exact Hp|congruence|done|done]).
  destruct (pending_progress _ _ _ _ _ _ _ Hp Hr) as (u' & Hp' & Hs'); [rewrite Hd; done|].
  eapply pending_finish; [exact Hp'|congruence|done|congruence].
Qed.

Lemma with_driver_self f m : (forall u, upload_ m = Some u -> f (up_driver u) = up_driver u) -> with_driver f m = m.
Proof.
  intros Hf. unfold with_driver, set_upload_. destruct m as [[u|] ? ? ? ? ? ?]; cbn; [|done].
  specialize (Hf u eq_refl). destruct u. cbn in *. by rewrite Hf.
Qed.

(** An answer in the middle of an upload. *)
Lemma answer_pending r m u :
  uploads_ok [] m -> upload_ m = Some u -> d_active (up_driver u) = true ->
  let '(s, st) := on_response (d_state (up_driver u)) (decode_response r) (d_config (up_driver u)) in
  let m' := with_driver (fun d => set_d_state st (set_d_request None d)) (add_log (Answered (up_life u) r) m) in
  exists file u' t x, pending file m' u' t x s st /\ d_request (up_driver u') = None /\
    d_starting (up_driver u') = false /\
    phase st = match action s with
               | SendChunk => Sending | Complete => Done | FailUpload => Failed | Suspend => Suspended
               end.
Proof using.
  intros [[Hbal Href] [Hf Hu]] Eu Eact. destruct (Hu u Eu) as (Hl & file & Hd).
  destruct Hd as [Hs Hst Hw Hac Hstart]. specialize (Hac Eact).
  pose proof (on_response_phase (d_config (up_driver u)) _ (decode_response r) Hac) as Hph.
  destruct (on_response _ _ _) as [s st] eqn:Eon. cbn zeta.
  set (l := Answered (up_life u) r).
  exists file, (mkUpload (set_d_state st (set_d_request None (up_driver u))) (up_generation u) (up_life u)).
  exists (session (d_config (up_driver u)) (heard (up_life u) (log m))).1, (Some (Answer (decode_response r))).
  split; [|done]. split; try done.
  - cbn. by rewrite Eu.
  - apply (balanced_log [] [] m l) in Hbal; [|done]. unfold balanced, owed in *. cbn in *. by rewrite Eu in *.
  - intros life Hle. change (heard life (log m ++ [l]) = [] /\ wire life (log m ++ [l]) = []).
    destruct (Hf life Hle) as [Hh Hwl]. change (lives m <= life)%nat in Hle.
    rewrite heard_snoc, wire_snoc, Hh, Hwl. cbn [heard_by wire_of l].
    by rewrite (proj2 (Nat.eqb_neq (up_life u) life)) by lia.
  - destruct Hs. by split.
  - change (session (d_config (up_driver u)) (heard (up_life u) (log m ++ [l])) =
      ((session (d_config (up_driver u)) (heard (up_life u) (log m))).1 ++ [(Some (Answer (decode_response r)), s)],
       (sent (s, st)).2)).
    rewrite heard_snoc. cbn [heard_by l]. rewrite Nat.eqb_refl, session_snoc. unfold extend, turn.
    by rewrite <- Hst, Hac, Eon.
  - change (wire (up_life u) (log m ++ [l]) = spec_of (up_driver u) file <$>
      requests (session (d_config (up_driver u)) (heard (up_life u) (log m))).1).
    rewrite wire_snoc. cbn [wire_of l]. by rewrite app_nil_r.
Qed.

Lemma set_not_starting m u : upload_ m = Some u -> d_starting (up_driver u) = false ->
  with_driver (set_d_starting false) m = m.
Proof.
  intros Hu Hs. apply with_driver_self. intros u'. rewrite Hu. intros [= <-].
  destruct (up_driver u). cbn in *. by rewrite Hs.
Qed.

Lemma handle_ok r m : uploads_ok [] m -> uploads_ok [] (handle call r m).
Proof using uint64_out Hlaws Hcall.
  intros Hok. unfold handle. destruct (upload_ m) as [u|] eqn:Eu; [|done]. cbn zeta.
  destruct (d_active (up_driver u)) eqn:Eact; cbn [negb]; [|done].
  pose proof (answer_pending r m u Hok Eu Eact) as Hp.
  destruct (on_response _ _ _) as [s st]. destruct Hp as (file & u' & t & x & Hp & Hr & Hs & Hph).
  set (m' := with_driver _ _) in *. destruct (decide (action s = SendChunk)) as [Ha|Ha].
  - rewrite bool_decide_eq_true_2 by done. rewrite Ha in Hph.
    destruct (pending_progress _ _ _ _ _ _ _ Hp Hr) as (u2 & Hp2 & Hs2); [by rewrite Hph|].
    pose proof (pending_send call _ _ _ _ _ _ _ Hp2 Ha) as Hok'. unfold advance. rewrite Ha.
    rewrite (send_ok call file _ u2) in * by
      first [exact (pe_upload _ _ _ _ _ _ _ Hp2)|exact (pe_static _ _ _ _ _ _ _ Hp2)
            |by eapply pending_request].
    erewrite set_not_starting in Hok'; [exact Hok'| |].
    + cbn. rewrite (pe_upload _ _ _ _ _ _ _ Hp2). done.
    + cbn. congruence.
  - rewrite bool_decide_eq_false_2 by done. eapply pending_end; [exact Hp|done| | |done|done];
      rewrite Hph; destruct (action s); done.
Qed.

End with_call.

(** ** Starting and resuming *)

Lemma extend_fresh (m : ImageManagement) d g :
  uploads_ok match d_on_done d with Some k => [k] | None => [] end m -> is_active m = false ->
  d_state d = initial_state ->
  forall file, static_ok file d ->
  uploads_ok [] (start (mkManagement (Some (mkUpload d g (lives m))) g (deferred m) (S (lives m)) (issued m)
                       (outstanding m) (log m))).
Proof using uint64_out Hlaws.
  intros [[Hb Href] [Hf _]] Hin Hst file Hs. unfold start. cbn [upload_ up_driver].
  destruct (Hf (lives m)) as [Hh Hw]; [done|].
  set (m' := with_driver (fun d => set_d_starting true (set_d_active true d)) _). set (s := plan_next _ _).
  assert (action s = SendChunk) as Ha.
  { subst s. rewrite Hst. unfold plan_next. cbn. pose proof (co_size _ (so_config _ _ Hs)).
    destruct (Z.leb_spec (image_size (d_config d)) 0); [lia|done]. }
  assert (pending file m' (mkUpload (set_d_starting true (set_d_active true d)) g (lives m)) [] None s initial_state) as Hp.
  { split; try done; cbn [lives with_driver set_upload_ m' up_life].
    - lia.
    - unfold balanced, owed in *. etransitivity; [exact Hb|]. cbn. unfold driver_owed, is_active in *. cbn.
      destruct (upload_ m) as [u|]; [|done]. by rewrite Hin.
    - intros life Hle. apply Hf. lia.
    - destruct Hs. by split.
    - change (session (d_config d) (heard (lives m) (log m)) = ([] ++ [(None, s)], (sent (s, initial_state)).2)).
      rewrite Hh. unfold session. cbn [foldl]. unfold begin, s. by rewrite Hst. }
  unfold advance. rewrite Ha. by apply (pending_send add_log _ _ _ _ _ _ _ Hp).
Qed.

Lemma restart_ok cb m u :
  uploads_ok match cb with Some k => [k] | None => [] end m -> upload_ m = Some u ->
  phase (d_state (up_driver u)) = Suspended -> uploads_ok [] (restart cb m).
Proof using uint64_out Hlaws.
  intros [[Hb Href] [Hf Hu]] Eu Hph. destruct (Hu u Eu) as (Hl & file & [Hs Hst Hw Hac Hstart]).
  destruct (d_active (up_driver u)) eqn:Eact; [specialize (Hac eq_refl); congruence|].
  unfold restart. rewrite Eu. cbn zeta.
  pose proof (history_session _ _ (so_config _ _ Hs) (heard_ok (up_life u) (log m))) as Hh.
  rewrite <- Hst in Hh. pose proof (resume_spec _ _ (so_config _ _ Hs) (hi_inv _ _ _ Hh) Hph) as Hres.
  assert (exists s st, resume (d_state (up_driver u)) (d_config (up_driver u)) = (s, st) /\ action s = SendChunk)
    as (s & st & Er & Ha).
  { destruct (resume _ _) as [s st] eqn:Er. exists s, st. split; [done|]. by injection Hres as ->. }
  rewrite Er. cbn zeta. set (m' := with_driver (fun d => set_d_state st _) _). set (l := Resumed (up_life u)) in *.
  set (u' := mkUpload (set_d_state st (set_d_starting true (set_d_active true (set_d_on_done cb (up_driver u)))))
               (up_generation u) (up_life u)).
  assert (pending file m' u' (session (d_config (up_driver u)) (heard (up_life u) (log m))).1 (Some Reconnect) s st) as Hp.
  { split; try done.
    - cbn. by rewrite Eu.
    - apply (balanced_log _ match cb with Some k => [k] | None => [] end _ l) in Hb; [|done].
      unfold balanced, owed in *. etransitivity; [exact Hb|]. cbn. rewrite Eu. cbn.
      unfold driver_owed. cbn. by rewrite Eact.
    - intros life Hle. change (heard life (log m ++ [l]) = [] /\ wire life (log m ++ [l]) = []).
      destruct (Hf life Hle) as [Hh0 Hwl]. change (lives m <= life)%nat in Hle.
      rewrite heard_snoc, wire_snoc, Hh0, Hwl. cbn [heard_by wire_of l].
      by rewrite (proj2 (Nat.eqb_neq (up_life u) life)) by lia.
    - destruct Hs. by split.
    - change (session (d_config (up_driver u)) (heard (up_life u) (log m ++ [l])) =
        ((session (d_config (up_driver u)) (heard (up_life u) (log m))).1 ++ [(Some Reconnect, s)],
         (sent (s, st)).2)).
      rewrite heard_snoc. cbn [heard_by l]. rewrite Nat.eqb_refl, session_snoc. unfold extend, turn.
      by rewrite <- Hst, Hph, Er.
    - change (wire (up_life u) (log m ++ [l]) = spec_of (up_driver u) file <$>
        requests (session (d_config (up_driver u)) (heard (up_life u) (log m))).1).
      rewrite wire_snoc. cbn [wire_of l]. by rewrite app_nil_r. }
  unfold advance. rewrite Ha. by apply (pending_send add_log _ _ _ _ _ _ _ Hp).
Qed.

(** ** The application *)

(** What a caller passes: a source that reads a file, and options within their
    types. *)
Record options_ok (options : UploadOptions) : Prop := {
  oo_image : u32 (uo_image options);
  oo_sha : forall s, uo_sha options = Some s -> byte_list s /\ length s = 32%nat;
  oo_chunk : u32 (uo_chunk_size options);
  oo_retries : u32 (uo_max_chunk_retries options);
  oo_restarts : u32 (uo_max_restarts options);
  oo_no_progress : u32 (uo_max_no_progress options)
}.

Definition command_ok (c : Command) : Prop :=
  match c with
  | Cmd_upload source options _ _ =>
      (exists file, ReadsFile source file /\ byte_list file) /\ options_ok options
  | _ => True
  end.

Context (tmax tover : Z) `{FirstPacketEncoder}.

Lemma compute_chunk_range budget fields n :
  configured_max budget <= kUploadChunkMax -> compute_chunk_size budget fields = Success n ->
  kUploadChunkMin <= n <= kUploadChunkMax.
Proof using.
  intros Hmax. unfold compute_chunk_size. cbv zeta.
  set (size := match server_buf_size budget with Some s => _ | None => _ end).
  destruct (size <=? _); [done|]. set (mb := if 0 <? _ then _ else _).
  set (overhead := _ + first_packet_overhead fields). destruct (mb <=? overhead); [done|].
  unfold kUploadChunkMin, kUploadChunkMax in *.
  destruct (Z.ltb_spec (Z.min (mb - overhead) (configured_max budget)) 32); [done|].
  intros [= <-]. rewrite wrap_fits by (unfold fits; lia). lia.
Qed.

(** What is not refused at once. *)
Lemma not_refused source options m :
  upload_refusal source options m = None ->
  src_size source <> 0 /\ src_size source <= kMaxImageSize /\
  (uo_chunk_size options = 0 \/ kUploadChunkMin <= uo_chunk_size options <= kUploadChunkMax).
Proof using.
  unfold upload_refusal. destruct (is_active m); [done|].
  destruct (Z.eqb_spec (src_size source) 0); [done|].
  destruct (Z.ltb_spec kMaxImageSize (src_size source)); [done|].
  destruct (Z.eqb_spec (uo_chunk_size options) 0); cbn [negb andb]; [auto|].
  destruct (Z.ltb_spec (uo_chunk_size options) kUploadChunkMin); [done|].
  destruct (Z.ltb_spec kUploadChunkMax (uo_chunk_size options)); [done|]. auto.
Qed.

Lemma upload_sha_ok source file options sha :
  ReadsFile source file -> zlen file <= kMaxImageSize -> options_ok options ->
  upload_sha source options = Success sha -> byte_list sha /\ length sha = 32%nat.
Proof using.
  intros Hf Hs Ho. unfold upload_sha. destruct (uo_sha options) as [s|] eqn:Eo.
  { intros [= <-]. by apply (oo_sha _ Ho). }
  rewrite (sha256_file source) with (file := file); [|rewrite reads_size; unfold kMaxImageSize in *; lia|done].
  intros [= <-]. destruct (Sha256.sha256_spec_shape file). by split.
Qed.

Lemma upload_chunk_ok source options sha chunk :
  uo_chunk_size options = 0 \/ kUploadChunkMin <= uo_chunk_size options <= kUploadChunkMax ->
  upload_chunk tmax tover source options sha = Success chunk -> kUploadChunkMin <= chunk <= kUploadChunkMax.
Proof using.
  intros Hc. unfold upload_chunk. destruct (Z.eqb_spec (uo_chunk_size options) 0); cbn [negb].
  - by apply compute_chunk_range.
  - intros [= <-]. by destruct Hc.
Qed.

Lemma upload_keeps source options progress cb m :
  command_ok (Cmd_upload source options progress cb) ->
  uploads_ok match cb with Some k => [k] | None => [] end m ->
  uploads_ok [] (upload tmax tover source options progress cb m).2.
Proof using uint64_out Hlaws.
  intros [(file & Hf & Hb) Ho] Hok. unfold upload.
  destruct (upload_refusal source options m) eqn:Er; [by apply uploads_ok_reject|].
  assert (is_active m = false) as Hin
    by (unfold upload_refusal in Er; by destruct (is_active m)).
  apply not_refused in Er as (Hz & Hmax & Hc). rewrite (reads_size (file := file)) in Hz, Hmax.
  destruct (upload_sha source options) as [sha|] eqn:Es; [|by apply uploads_ok_reject].
  pose proof (upload_sha_ok _ _ _ _ Hf Hmax Ho Es) as Hsha.
  destruct (upload_chunk tmax tover source options sha) as [chunk|] eqn:Ec; [|by apply uploads_ok_reject].
  pose proof (upload_chunk_ok _ _ _ _ Hc Ec) as Hch. unfold kUploadChunkMin, kUploadChunkMax, kMaxImageSize in *.
  cbn [snd]. eapply (extend_fresh m); [exact Hok|done|done|]. destruct Ho. split; try done.
  - cbn. split; cbn; try done; rewrite ?(reads_size (file := file)); unfold fits; lia.
  - cbn. by rewrite (reads_size (file := file)).
  - cbn. unfold kUploadChunkMax. lia.
  - cbn. by intros s [= <-].
Qed.

(** Giving the request up changes nothing of the session. *)
Lemma cancel_keeps m : uploads_ok [] m -> uploads_ok [] (cancel_driver m).
Proof using.
  intros Hok. unfold cancel_driver.
  destruct (upload_ m) as [u|] eqn:Eu; [|done]. cbn zeta. destruct (d_active (up_driver u)); cbn [negb]; [|done].
  assert (uploads_ok [] (match d_request (up_driver u) with Some k => add_log (GivenUp k) m | None => m end) /\
    upload_ (match d_request (up_driver u) with Some k => add_log (GivenUp k) m | None => m end) = Some u)
    as [[[Hb Href] [Hf Hu]] Eu'] by (destruct (d_request _); [split; [by apply uploads_ok_neutral|done]|done]).
  split; [split; [|exact Href]|].
  { unfold balanced, owed, with_driver, set_upload_ in *. cbn [upload_ log deferred]. by rewrite Eu' in *. }
  split; [exact Hf|]. unfold with_driver, set_upload_. cbn [upload_ log lives]. rewrite Eu'.
  intros u' [= <-]. destruct (Hu u Eu') as (Hl & file & [Hs Hst Hw Hac Hstart]). split; [done|].
  exists file. split; try done. destruct Hs. by split.
Qed.

(** An upload given up. *)
Lemma finish_keeps (call : Log -> ImageManagement -> ImageManagement) outcome m :
  callback_ok call -> uploads_ok [] m -> uploads_ok [] (finish call outcome m).
Proof using.
  intros Hcall Hok. pose proof Hok as [[Hb Href] [Hf Hu]]. unfold finish.
  destruct (upload_ m) as [u|] eqn:Eu; [|done].
  cbn zeta. destruct (d_active (up_driver u)) eqn:Eact; cbn [negb]; [|done].
  destruct (Hu u eq_refl) as (Hl & file & [Hs Hst Hw Hac Hstart]). rewrite Hstart.
  assert (uploads_ok (driver_owed (up_driver u))
    (with_driver (fun d => set_d_on_done None (set_d_active false d)) m)) as Hok'.
  { split; [split; [by apply balanced_finish|done]|]. split; unfold with_driver, set_upload_; cbn [lives log upload_]; rewrite ?Eu; [exact Hf|].
    intros u' [= <-]. split; [done|]. exists file. split; try done. destruct Hs. by split. }
  unfold driver_owed in Hok'. rewrite Eact in Hok'.
  destruct (d_on_done _); [|done]. by apply (cb_keeps _ Hcall).
Qed.

Lemma exec_keeps m c : command_ok c -> uploads_ok [] m -> uploads_ok [] (exec tmax tover m c).
Proof using uint64_out Hlaws.
  intros Hc Hok. destruct c as [source options progress cb|h cb|h]; cbn [exec].
  - by apply upload_keeps, uploads_ok_asked.
  - apply (uploads_ok_asked cb) in Hok. revert Hok. generalize (note_asked cb m). clear m. intros m Hok.
    unfold resume_upload. destruct (resumable h m) eqn:Er; cbn [negb]; [|by apply uploads_ok_reject].
    unfold resumable in Er. destruct (upload_ m) as [u|] eqn:Eu; [|by rewrite andb_false_r in Er].
    apply andb_true_iff in Er as [_ Er]. apply bool_decide_eq_true in Er. by eapply restart_ok.
  - unfold cancel_upload. destruct (names_upload h m); [|done]. by apply cancel_keeps.
Qed.

(** In the middle of a step the application's calls stay beside it. *)
Lemma exec_busy m c : busy m -> aside m (exec tmax tover m c).
Proof using.
  intros (u & Hu & Ha & Hr & Hp). destruct c as [source options progress cb|h cb|h]; cbn [exec].
  - unfold upload, upload_refusal, is_active.
    assert (upload_ (note_asked cb m) = Some u) as -> by by destruct cb. rewrite Ha. apply aside_reject.
  - unfold resume_upload, resumable. assert (upload_ (note_asked cb m) = Some u) as -> by by destruct cb.
    rewrite bool_decide_eq_false_2, andb_false_r by done. apply aside_reject.
  - unfold cancel_upload, cancel_driver. rewrite Hu, Ha, Hr. cbn [negb].
    destruct (names_upload h m); [|done]. rewrite with_driver_self; [done|].
    intros u'. rewrite Hu. intros [= <-]. destruct (up_driver u). cbn in *. by rewrite Hr.
Qed.

Context (react : list Log -> list Command) (Hreact : forall h, Forall command_ok (react h)).

Lemma aside_busy m m' : aside m m' -> busy m -> busy m'.
Proof using. intros [Hu _ _ _ _ _] (u & Hb). exists u. by rewrite Hu. Qed.

Lemma call_ok : callback_ok (call tmax tover react).
Proof using uint64_out Hlaws Hreact.
  split.
  - intros cb r m Hok. unfold call. cbn zeta. set (l := Finished cb r).
    assert (uploads_ok [] (add_log l m)) as Hok' by by eapply uploads_ok_quiet, Hok.
    revert Hok'. generalize (Hreact (log (add_log l m))). generalize (react (log (add_log l m))).
    intros cs Hcs. generalize (add_log l m).
    induction Hcs as [|c cs Hc _ IH]; intros m' Hok'; [done|].
    cbn [foldl]. apply IH. by apply exec_keeps.
  - intros l m Hl Hb. unfold call. cbn zeta. pose proof (aside_log m l Hl) as Has.
    transitivity (add_log l m); [done|]. pose proof (aside_busy _ _ Has Hb) as Hb'. clear Has Hb.
    generalize (react (log (add_log l m))). intros cs. revert Hb'. generalize (add_log l m).
    induction cs as [|c cs IH]; intros m' Hb'; cbn [foldl]; [done|].
    pose proof (exec_busy m' c Hb') as Has. transitivity (exec tmax tover m' c); [done|].
    apply IH. by eapply aside_busy.
Qed.

(** What the rest of the program may do: pass proper sources and options, and
    destroy the group only when the application starts nothing from inside a
    callback. *)
Definition only_cancels (c : Command) : Prop := match c with Cmd_cancel _ => True | _ => False end.

Definition given_ok (i : Input) : Prop :=
  match i with
  | I_command c => command_ok c
  | I_destroy => forall h, Forall only_cancels (react h)
  | _ => True
  end.

Lemma cancels_inactive cs m :
  Forall only_cancels cs -> is_active m = false -> is_active (foldl (exec tmax tover) m cs) = false.
Proof using.
  intros Hcs. revert m. induction Hcs as [|c cs Hc _ IH]; intros m Hin; [done|].
  cbn [foldl]. apply IH. destruct c; try done. cbn [exec]. unfold cancel_upload, cancel_driver.
  destruct (names_upload _ _); [|done]. unfold is_active in Hin. destruct (upload_ m) eqn:Eu; [|by unfold is_active; rewrite Eu].
  rewrite Hin. cbn [negb]. by unfold is_active; rewrite Eu.
Qed.

Lemma finish_inactive outcome m :
  (forall h, Forall only_cancels (react h)) -> uploads_ok [] m ->
  is_active (finish (call tmax tover react) outcome m) = false.
Proof using.
  intros Hq [_ [_ Hu]]. unfold finish. destruct (upload_ m) as [u|] eqn:Eu; [|by unfold is_active; rewrite Eu].
  cbn zeta. destruct (d_active (up_driver u)) eqn:Eact; cbn [negb]; [|by unfold is_active; rewrite Eu].
  destruct (Hu u eq_refl) as (_ & file & Hd). rewrite (do_starting _ _ _ _ Hd).
  assert (is_active (with_driver (fun d => set_d_on_done None (set_d_active false d)) m) = false) as Hin
    by (unfold is_active; cbn; by rewrite Eu).
  destruct (d_on_done _); [|exact Hin]. unfold call. by apply cancels_inactive.
Qed.

Lemma input_keeps m i : given_ok i -> uploads_ok [] m -> uploads_ok [] (input_step tmax tover react m i).
Proof using uint64_out Hlaws Hreact.
  intros Hi Hok. destruct i as [c|k r| |]; cbn [input_step].
  - by apply exec_keeps.
  - destruct (take_outstanding k m) as [[life|] m'] eqn:Et; unfold take_outstanding in Et;
      injection Et as _ <-; [|done].
    destruct (alive _ _); [|done]. by apply handle_ok; [apply call_ok|].
  - destruct (deferred m) as [|w ws] eqn:Ed; [done|].
    pose proof Hok as [[Hb Href] Hu]. rewrite Ed in Href. apply Forall_cons in Href as [Hw Href].
    destruct w as [cb e|]; [|done]. apply (cb_keeps _ call_ok). split; [|exact Hu]. split; [|exact Href].
    unfold balanced, owed in *. rewrite Ed in Hb. cbn [set_deferred log upload_ deferred]. rewrite Hb. cbn.
    solve_Permutation.
  - assert (uploads_ok [] (abandon (call tmax tover react) m) /\
      is_active (abandon (call tmax tover react) m) = false) as [[[Hb Href] [Hf _]] Hin].
    { unfold abandon. destruct (upload_ m) as [u|] eqn:Eu; [|by unfold is_active; rewrite Eu].
      destruct (d_active (up_driver u)) eqn:Eact; cbn [negb]; [|by unfold is_active; rewrite Eu].
      split; [apply finish_keeps; [apply call_ok|]; by apply cancel_keeps|].
      apply finish_inactive; [exact Hi|by apply cancel_keeps]. }
    split; [split; [|exact Href]|by split].
    unfold balanced, owed, is_active, driver_owed in *. cbn [set_upload_ upload_ log deferred].
    destruct (upload_ (abandon _ _)); [by rewrite Hin in Hb|done].
Qed.

Lemma run_keeps is_ m : Forall given_ok is_ -> uploads_ok [] m -> uploads_ok [] (run_inputs tmax tover react is_ m).
Proof using uint64_out Hlaws Hreact.
  intros His. revert m. induction His as [|i is_ Hi _ IH]; intros m Hok; [done|].
  cbn [run_inputs foldl]. apply IH. by apply input_keeps.
Qed.

Lemma new_management_ok : uploads_ok [] new_management.
Proof using. split; [split; [apply Permutation_refl|constructor]|]. by split. Qed.
End refinement.

(** ** Properties *)

Section properties.
Context `{QDecoder} `{QEncoderLaws} `{FirstPacketEncoder}.
Context (uint64_out : forall key c, u64 (GetUInt64InMapSZ key c).1).
Context (tmax tover : Z) (react : list Log -> list Command).

(** C13. The driver is a refinement of the session. Whatever the application
    asks, from outside or from inside callbacks, and whatever the client
    answers, in any order: the state of the upload that is there is exactly the
    session's on the answers and resumptions it was told, it waits for an answer
    only while the session does, and the requests it put on the wire are the
    session's, one for one, each an image write carrying the bytes of the file
    at the offset it names and the deadline of its kind. *)
Theorem upload_refines_session (inputs : list Input) (u : Upload) :
  (forall h, Forall command_ok (react h)) -> Forall (given_ok react) inputs ->
  let m := run_inputs tmax tover react inputs new_management in
  upload_ m = Some u ->
  let d := up_driver u in
  let told := heard (up_life u) (log m) in
  exists file, ReadsFile (d_source d) file /\ image_size (d_config d) = zlen file /\
    d_state d = (session (d_config d) told).2 /\
    (d_active d = true -> phase (d_state d) = Sending) /\
    wire (up_life u) (log m) = spec_of d file <$> requests (session (d_config d) told).1.
Proof.
  intros Hr Hi m Hu d told.
  destruct (run_keeps uint64_out tmax tover react Hr inputs _ Hi new_management_ok) as [_ [_ Hok]].
  destruct (Hok u Hu) as (_ & file & [Hs Hst Hw Hac _]). exists file.
  split_and!; [apply Hs|apply Hs|exact Hst|exact Hac|exact Hw].
Qed.

(** C14. Every request the driver put on the wire is one the device can read:
    at most the 640 bytes of the driver's buffer, parsed by the device's reader
    to the very fields of a request that lies inside the image, with the file's
    bytes from its offset as data. So the driver's error of a buffer too small
    never happens. *)
Theorem upload_requests_exact (inputs : list Input) (u : Upload) (spec : RequestSpec) :
  (forall h, Forall command_ok (react h)) -> Forall (given_ok react) inputs ->
  let m := run_inputs tmax tover react inputs new_management in
  upload_ m = Some u -> spec ∈ wire (up_life u) (log m) ->
  exists file r, ReadsFile (d_source (up_driver u)) file /\ request_ok (d_config (up_driver u)) r /\
    (length (rs_payload spec) <= kUploadBufferSize)%nat /\
    parse (rs_payload spec) = Some (Map (entries_of (d_config (up_driver u)) r (chunk_of file r))) /\
    zlen (chunk_of file r) = req_length r.
Proof.
  intros Hr Hi m Hu Hin.
  destruct (run_keeps uint64_out tmax tover react Hr inputs _ Hi new_management_ok) as [_ [_ Hok]].
  destruct (Hok u Hu) as (_ & file & [Hs Hst Hw Hac _]). fold m in Hw.
  rewrite Hw in Hin. apply list_elem_of_fmap in Hin as (r & -> & Hin). exists file, r.
  pose proof (history_session _ _ (so_config _ _ Hs) (heard_ok uint64_out (up_life u) (log m))) as Hh.
  assert (request_ok (d_config (up_driver u)) r) as Hrok.
  { apply list_elem_of_omap in Hin as (p & Hp & Hsent). unfold sent_of in Hsent.
    pose proof (proj1 (Forall_forall _ _) (hi_requests _ _ _ Hh) p Hp) as Hreq.
    case_bool_decide; [|done]. injection Hsent as <-. auto. }
  pose proof (request_in_bounds _ _ _ Hs Hrok) as Hfit.
  split_and!; [apply Hs|done|by apply request_fits|by apply request_parses|].
  destruct Hrok as (Ho & Hl & _). pose proof (so_size _ _ Hs). pose proof (co_chunk _ (so_config _ _ Hs)).
  unfold chunk_of. rewrite length_take, length_drop. lia.
Qed.

End properties.

(** ** Samples *)

(** The model of QCBOR with the range of the out-parameter made explicit. *)
#[local] Instance typed_decoder : QDecoder := {|
  ctx := @ctx model_decoder;
  Decode_Init := @Decode_Init model_decoder;
  EnterMap := @EnterMap model_decoder;
  EnterMapFromMapSZ := @EnterMapFromMapSZ model_decoder;
  ExitMap := @ExitMap model_decoder;
  EnterArrayFromMapSZ := @EnterArrayFromMapSZ model_decoder;
  ExitArray := @ExitArray model_decoder;
  GetError := @GetError model_decoder;
  GetAndResetError := @GetAndResetError model_decoder;
  GetUInt64InMapSZ k c := let '(n, c) := @GetUInt64InMapSZ model_decoder k c in (wrap 64 n, c);
  GetInt64InMapSZ := @GetInt64InMapSZ model_decoder;
  GetBoolInMapSZ := @GetBoolInMapSZ model_decoder;
  GetTextStringInMapSZ := @GetTextStringInMapSZ model_decoder;
  GetByteStringInMapSZ := @GetByteStringInMapSZ model_decoder;
  PeekNext := @PeekNext model_decoder;
  VGetNext := @VGetNext model_decoder;
  VGetNextConsume := @VGetNextConsume model_decoder;
  Tell := @Tell model_decoder;
  Rewind := @Rewind model_decoder
|}.

Lemma typed_uint64 key c : u64 (GetUInt64InMapSZ key c).1.
Proof. cbn. destruct (m_get _ _ _ _) as [n c']. by apply fits_wrap. Qed.

Definition tiny_file : bytes := replicate 100 7.

Definition tiny_options : UploadOptions :=
  mkUploadOptions 0 false (Some (replicate 32 1)) 64 None 3 2 3 40000 30000 10000.

Definition begin_upload (cb : nat) : Input :=
  I_command (Cmd_upload (MemoryImageSource tiny_file) tiny_options true (Some cb)).

Definition answer_off (k : nat) (o : Z) : Input :=
  I_answer k (Success (mkHeader WriteResponse V2 0 0 Group_Image 0 kUploadCommand,
                       encode (Map [Text "off"; Uint o]))).

Definition passive (h : list Log) : list Command := [].

Abbreviation run_sample react inputs := (run_inputs 0 0 react inputs new_management).

Lemma tiny_command_ok cb : given_ok passive (begin_upload cb).
Proof.
  split.
  - exists tiny_file. split; [apply _|]. unfold tiny_file. apply Forall_replicate. split; vm_compute; congruence.
  - split; try (vm_compute; split; congruence). cbn. intros s [= <-]. split; [repeat constructor; vm_compute; congruence|done].
Qed.

Definition sample_inputs : list Input := [begin_upload 1; answer_off 0 64].

Lemma sample_uploads_ok : Forall (given_ok passive) sample_inputs.
Proof. constructor; [apply tiny_command_ok|]. by repeat constructor. Qed.

Lemma passive_ok h : Forall command_ok (passive h).
Proof. constructor. Qed.

Lemma sample_there : exists u, upload_ (run_sample passive sample_inputs) = Some u.
Proof.
  assert (is_active (run_sample passive sample_inputs) = true) as Ha by (vm_compute; reflexivity).
  unfold is_active in Ha. destruct (upload_ _) as [u|]; [by exists u|done].
Qed.

Lemma upload_refines_session_witness :
  exists u, upload_ (run_sample passive sample_inputs) = Some u /\
  let d := up_driver u in
  let logged := log (run_sample passive sample_inputs) in
  let told := heard (up_life u) logged in
  exists file, ReadsFile (d_source d) file /\ image_size (d_config d) = zlen file /\
    d_state d = (session (d_config d) told).2 /\
    (d_active d = true -> phase (d_state d) = Sending) /\
    wire (up_life u) logged = spec_of d file <$> requests (session (d_config d) told).1.
Proof.
  destruct sample_there as [u Hu]. exists u. split; [exact Hu|].
  exact (upload_refines_session typed_uint64 0 0 passive sample_inputs u passive_ok sample_uploads_ok Hu).
Defined.

Lemma sample_wire :
  exists u spec, upload_ (run_sample passive sample_inputs) = Some u /\
    spec ∈ wire (up_life u) (log (run_sample passive sample_inputs)).
Proof.
  destruct sample_there as [u Hu]. exists u.
  assert (match upload_ (run_sample passive sample_inputs) with
          | Some u => length (wire (up_life u) (log (run_sample passive sample_inputs)))
          | None => O end = 2%nat) as Hl by (vm_compute; reflexivity).
  rewrite Hu in Hl. destruct (wire _ _) as [|spec l]; [done|]. exists spec. split; [done|]. by left.
Qed.

Lemma upload_requests_exact_witness :
  exists u spec, upload_ (run_sample passive sample_inputs) = Some u /\
    spec ∈ wire (up_life u) (log (run_sample passive sample_inputs)) /\
  exists file r, ReadsFile (d_source (up_driver u)) file /\ request_ok (d_config (up_driver u)) r /\
    (length (rs_payload spec) <= kUploadBufferSize)%nat /\
    parse (rs_payload spec) = Some (Map (entries_of (d_config (up_driver u)) r (chunk_of file r))) /\
    zlen (chunk_of file r) = req_length r.
Proof.
  destruct sample_wire as (u & spec & Hu & Hs). exists u, spec. split; [exact Hu|]. split; [exact Hs|].
  exact (upload_requests_exact typed_uint64 0 0 passive sample_inputs u spec passive_ok sample_uploads_ok Hu Hs).
Defined.


(** ** What the uploads do that their documentation does not say *)

(** Cancelling from inside the progress callback, with the handle of the first
    upload. *)
Definition cancels_on_progress (h : list Log) : list Command :=
  match last h with Some (Progressed _ _) => [Cmd_cancel (mkUploadHandle 1)] | _ => [] end.

(** A cancel from inside the progress callback is lost: the request it would
    give up has just been answered and the next is not out yet, so nothing
    happens, the next chunk is sent and the upload completes. *)
Lemma cancel_in_progress_lost :
  let m := run_sample cancels_on_progress [begin_upload 1; answer_off 0 64; answer_off 1 100] in
  (exists p, Progressed 0 p ∈ log m) /\ (forall k, GivenUp k ∉ log m) /\
  last (log m) = Some (Finished 1 (Success (mkUploadResult 100 false None))).
Proof.
  set (m := run_sample _ _). cbn zeta.
  let l := eval vm_compute in (log m) in assert (log m = l) as -> by (vm_compute; reflexivity).
  split_and!; [eexists; do 3 right; left| |done].
  intros k Hk. apply list_elem_of_In in Hk. cbn [In] in Hk. intuition congruence.
Qed.

(** A source no byte of which can be read. *)
Definition broken_source : ImageSource := mkSource 100 (fun _ _ => fail Internal "source: unreadable").

(** An upload that failed to start has its callback queued, behind a weak
    reference to its driver; a second upload started before the next poll
    replaces the driver, and the first callback never runs: it is neither run
    nor owed once the queue has been worked off. *)
Lemma second_upload_drops_callback :
  let m := run_sample passive
    [I_command (Cmd_upload broken_source tiny_options true (Some 1%nat)); begin_upload 2; I_deferred] in
  asked (log m) = [1%nat; 2%nat] /\ finished (log m) = [] /\ owed m = [2%nat] /\ deferred m = [].
Proof. cbn zeta. split_and!; vm_compute; reflexivity. Qed.
