(* ===== verification/UploadToDevice.v ===== *)
(** * An upload to the pretend device

    The library's upload session (UploadSession.v), the request encoder and the
    response decoder of its driver (UploadDriver.v) and the device of
    StubDevice.v, joined by a link that loses requests and answers and comes
    back. What the session calls complete is in the slot, and once the link
    holds the session completes. *)

From S2P Require Import Prelude Errors Header StoredZip Minicbor ImageReader BootModel BootModelProperties Cbor GroupCodecs CborLaws QcborModel GroupProperties StubDevice StubDeviceProperties GroupRequests McubootImage UploadSession UploadDriver UploadDriverProperties.

(** ** The messages of an exchange *)

(** The request in flight, as it goes out, and what the device makes of a
    message addressed to it. *)
Definition request_message (version : Header.Version) (seq : Z) (config : UploadConfig) (file : bytes)
    (r : UploadRequest) : bytes :=
  let payload := encode (Map (entries_of config r (chunk_of file r))) in
  Header.encode (mkHeader Header.Write version 0 (zlen payload) Group_Image seq kUploadCommand) ++ payload.

(** The answer as the session gets it: the header taken off and the payload
    decoded. *)
Definition response_of `{QDecoder} (message : option bytes) : UploadResponse :=
  match message with
  | None => mkResponse None None (Some (Error_at Timeout "no answer"))
  | Some m =>
      match decode_header m with
      | Fail e => mkResponse None None (Some e)
      | Success h => decode_response (Success (h, drop kHeaderSize m))
      end
  end.

Lemma subspan_all (a b : bytes) n : length a = n -> StoredZip.subspan (a ++ b) (Z.of_nat n) (zlen b) = Some b.
Proof.
  intros <-. unfold StoredZip.subspan. rewrite length_app.
  rewrite (proj2 (Z.leb_le _ _)), (proj2 (Z.leb_le _ _)), (proj2 (Z.leb_le _ _)) by lia. cbn [andb].
  rewrite !Nat2Z.id, drop_app_length, firstn_all. done.
Qed.

Lemma length_encode_header h : length (Header.encode h) = kHeaderSize.
Proof. done. Qed.

(** A framed request is answered by its handler, under its own header. *)
Lemma answer_framed h payload d :
  header_ok h -> h_length h = zlen payload ->
  answer (Header.encode h ++ payload) d =
    let! (reply, d) := answer_payload h (parse payload) d in Some (Some (respond h reply), d).
Proof.
  intros Hh Hl. unfold answer. rewrite decode_encoded by done. rewrite length_app, length_encode_header, Hl.
  destruct (Z.ltb_spec (Z.of_nat (kHeaderSize + length payload)) (Z.of_nat kHeaderSize + zlen payload)); [lia|].
  by rewrite subspan_all by done.
Qed.

(** The header of an answer. *)
Lemma respond_header h payload :
  header_ok h -> exists h', decode_header (respond h payload) = Success h' /\ drop kHeaderSize (respond h payload) = payload.
Proof.
  intros (_ & _ & Hg & Hs & Hc). unfold respond. eexists. split.
  - apply decode_encoded. split_and!; try done. cbn. unfold fits, wrap. apply Z.mod_pos_bound. lia.
  - done.
Qed.

Lemma off_value n : u64 (Z.of_nat n) ->
  parse (offset_reply n) = Some (Map (fields_of [("off", Some (Uint (Z.of_nat n)))]%string)).
Proof.
  intros Hn. assert (offset_reply n = encode (Map [Text "off"; Uint (Z.of_nat n)])) as ->.
  { cbn [encode flat_map]. rewrite app_nil_r. done. }
  change (fields_of _) with [Text "off"; Uint (Z.of_nat n)]. apply parse_encode. by apply flat_1.
Qed.

(** An offset, as the session reads it. *)
Lemma offset_decoded `{QDecoderLaws} h n :
  u64 (Z.of_nat n) -> decode_response (Success (h, offset_reply n)) = mkResponse (Some (Z.of_nat n)) None None.
Proof.
  intros Hn. unfold decode_response.
  destruct (enter_spec _ _ kMaxCborNesting (off_value n Hn) ltac:(by split)) as (r & -> & Hr & _).
  set (l := [("off", Some (Uint (Z.of_nat n)))]%string) in *.
  assert (NoDup l.*1) as Hk by (apply (bool_decide_unpack _); by vm_compute).
  destruct (get_field GetUInt64InMapSZ as_uint (offset_reply n) l [] r "off" (Some (Z.of_nat n))) as (r1 & Hu & Hr1 & _);
    [apply law_uint|done|done|plain|by split|].
  unfold r_uint. rewrite Hu.
  destruct (get_field GetBoolInMapSZ as_bool (offset_reply n) l [] r1 "match" None) as (r2 & Hb & Hr2 & _);
    [apply law_bool|done|done|plain|done|].
  unfold r_boolean. rewrite Hb. destruct (leave_spec _ _ _ _ Hr2) as (r3 & -> & He & _). unfold status. by rewrite He.
Qed.

(** ** One packet of the session *)

(** A file the device takes: an image in one header at least, no larger than a
    slot. *)
Definition installable (file : bytes) : Prop :=
  byte_list file /\ ImageReader.kImageHeaderSize <= zlen file <= kSlotCapacity /\
  read32 file 0 = Some ImageReader.kImageMagic.

(** The configuration the driver makes for the file and the image. *)
Record uploads (config : UploadConfig) (file : bytes) (image : nat) : Prop := {
  us_config : config_ok config;
  us_size : image_size config = zlen file;
  us_chunk : kUploadChunkMin <= chunk_size config <= kUploadChunkMax;
  us_image : cfg_image config = Z.of_nat image /\ u32 (cfg_image config);
  us_sha : forall s, cfg_sha config = Some s -> byte_list s /\ length s = 32%nat
}.

Section exchange.
Context `{QDecoderLaws}.
Context (version : Header.Version) (config : UploadConfig) (file : bytes) (image slot : nat) (others : nat -> option bytes).
Context (Hup : uploads config file image) (Hfile : installable file).

Lemma fields_of_request r : request_ok config r -> request_fits_config config r (chunk_of file r).
Proof using Hup Hfile.
  destruct Hup as [Hc Hs Hch [Hi Hi'] Hsha], Hfile as (Hb & _ & _). intros (Ho & Hl & _).
  pose proof (co_size _ Hc). split; try done; unfold fits; try lia. split.
  - unfold chunk_of. by apply Forall_take, Forall_drop.
  - unfold chunk_of, kUploadChunkMax in *. rewrite length_take. lia.
Qed.

Lemma chunk_length r : request_ok config r -> zlen (chunk_of file r) = req_length r.
Proof using Hup.
  destruct Hup as [Hc Hs _ _ _]. intros (Ho & Hl & _). pose proof (co_chunk _ Hc).
  unfold chunk_of. rewrite length_take, length_drop. lia.
Qed.

(** Every request of the session is a packet of the file, one that starts at
    zero being a first packet. *)
Lemma request_is_packet r :
  request_ok config r -> (off r = 0 -> first_packet r = true) ->
  packet file image (Map (entries_of config r (chunk_of file r))) (Z.to_nat (off r)) (chunk_of file r).
Proof using Hup.
  destruct Hup as [Hc Hs _ [Hi _] _]. intros (Ho & Hl & Hf) Hfirst. unfold entries_of, request_entries.
  split.
  - rewrite Z2Nat.id by lia. by destruct (first_packet r), (cfg_sha config), (cfg_upgrade_only config).
  - by destruct (first_packet r), (cfg_sha config), (cfg_upgrade_only config).
  - eexists. unfold chunk_of. by rewrite take_drop.
  - lia.
  - intros E. rewrite (Hfirst ltac:(lia)), <- Hs, <- Hi. by destruct (cfg_sha config), (cfg_upgrade_only config).
Qed.

Lemma read32_take n (l : bytes) : (4 <= n)%nat -> read32 (take n l) 0 = read32 l 0.
Proof.
  intros Hn. assert (forall i, 0 <= i < 4 -> byte_at (take n l) i = byte_at l i) as Hb.
  { intros i Hi. unfold byte_at. destruct (i <? 0); [done|]. apply lookup_take_lt. lia. }
  unfold read32. cbn [read32_loop]. by rewrite !Hb by lia.
Qed.

Lemma first_opens r : request_ok config r -> off r = 0 -> opens file (chunk_of file r).
Proof using Hup Hfile.
  destruct Hup as [Hc Hs [Hmin _] _ _], Hfile as (_ & [Hl Hcap] & Hmagic). intros Hr E. pose proof (chunk_length r Hr) as Hlen.
  destruct Hr as (Ho & Hlr & _). unfold opens, kUploadChunkMin, ImageReader.kImageHeaderSize in *. split_and!; [lia| |done].
  unfold chunk_of. rewrite E. change (Z.to_nat 0) with 0%nat. rewrite drop_0, read32_take; [done|lia].
Qed.

(** The request in flight reaches the device and its answer comes back. *)
Lemma exchanged seq r d :
  request_ok config r -> (off r = 0 -> first_packet r = true) -> u8 seq -> receiving file image slot others d ->
  let o := Z.to_nat (off r) in
  exists n d' message, answer (request_message version seq config file r) d = Some (Some message, d') /\
    response_of (Some message) = mkResponse (Some (Z.of_nat n)) None None /\
    receiving file image slot others d' /\ (n <= length file)%nat /\
    (n <> 0%nat -> slot_content (d_model d') slot = Some (partly file n)) /\
    (if bool_decide (taken d o)
     then Z.of_nat n = off r + req_length r /\
       d_upload_slot d' = (if (n =? length file)%nat then None else Some slot) /\
       d_received d' = (if (n =? length file)%nat then 0%nat else n)
     else n = d_received d /\ d' = d).
Proof using All.
  intros Hr Hfirst Hseq Hu o. pose proof (request_is_packet r Hr Hfirst) as Hp. pose proof (fields_of_request r Hr) as Hfit.
  pose proof (request_fits _ _ _ _ (cfg_upgrade_only config) (first_packet r) _ Hfit) as Hlen.
  set (h := mkHeader Header.Write version 0 (zlen (encode (Map (entries_of config r (chunk_of file r))))) Group_Image seq kUploadCommand).
  assert (header_ok h) as Hh.
  { unfold header_ok, h. cbn [h_flags h_length h_group h_seq h_command]. split_and!; try done. unfold fits.
    change kUploadBufferSize with 640%nat in Hlen. unfold entries_of. lia. }
  destruct (packet_answered file image slot others h d o _ _ Hu Hp) as (n & d' & Ha & Hu' & Hn & Hc & Hif).
  { intros E. apply first_opens; [done|]. destruct Hr. lia. }
  destruct (respond_header h (offset_reply n) Hh) as (h' & Hd & Hdr).
  exists n, d', (respond h (offset_reply n)). split_and!; try done.
  - unfold request_message. fold h. rewrite answer_framed by done. unfold entries_of.
    rewrite (request_parses _ _ _ _ _ _ _ Hfit). assert (forall v, answer_payload h (Some v) d = answer_upload h (Some v) d) as -> by done.
    unfold entries_of in Ha. by rewrite Ha.
  - unfold response_of. rewrite Hd, Hdr. apply offset_decoded. destruct Hfile as (_ & [_ Hcap] & _).
    unfold kSlotCapacity, fits in *. lia.
  - destruct (bool_decide _); [|done]. destruct Hif as [-> Hif]. split; [|done]. rewrite Nat2Z.inj_add, chunk_length by done.
    destruct Hr. subst o. lia.
Qed.

(** ** A link that loses things *)

(** What becomes of the request in flight: it is answered, the answer or the
    request is lost and the session is told so, or the link comes back for a
    session that waits for it. *)
Inductive fate :=
| ItsAnswered (seq : Z)
| AnswerLost (seq : Z) (e : Error)
| RequestLost (e : Error)
| LinkBack.

Definition fate_ok (f : fate) : Prop :=
  match f with ItsAnswered seq | AnswerLost seq _ => u8 seq | _ => True end.

Definition unanswered (e : Error) : input := Answer (mkResponse None None (Some e)).

(** The session and the device after one fate; one the phase does not allow does
    not occur and is skipped. *)
Definition befall (f : fate) (s : trace * UploadState * StubDevice) : option (trace * UploadState * StubDevice) :=
  let '(t, st, d) := s in
  match phase st, f with
  | Sending, ItsAnswered seq =>
      let! (m, d) := answer (request_message version seq config file (in_flight st)) d in
      Some (extend config (t, st) (Answer (response_of m)), d)
  | Sending, AnswerLost seq e =>
      let! (_, d) := answer (request_message version seq config file (in_flight st)) d in
      Some (extend config (t, st) (unanswered e), d)
  | Sending, RequestLost e => Some (extend config (t, st) (unanswered e), d)
  | Suspended, LinkBack => Some (extend config (t, st) Reconnect, d)
  | _, _ => Some s
  end.

Fixpoint befall_all (fs : list fate) (s : trace * UploadState * StubDevice) : option (trace * UploadState * StubDevice) :=
  match fs with
  | [] => Some s
  | f :: fs => let! s := befall f s in befall_all fs s
  end.

(** An upload begun. *)
Definition under_way (d : StubDevice) : trace * UploadState * StubDevice :=
  ([(None, (begin config).1)], (begin config).2, d).

(** Where the device is with a request that is not a first packet: before it,
    past it, or done with it and the image. *)
Definition placed (st : UploadState) (d : StubDevice) : Prop :=
  (d_upload_slot d = Some slot /\
     (Z.of_nat (d_received d) = in_flight_off st \/ Z.of_nat (d_received d) = in_flight_off st + in_flight_len st)) \/
  (d_upload_slot d = None /\ in_flight_off st + in_flight_len st = zlen file).

Record together (st : UploadState) (d : StubDevice) : Prop := {
  tg_session : sinv config st;
  tg_device : receiving file image slot others d;
  tg_later : phase st = Sending -> in_flight_first_packet st = false -> 0 < in_flight_off st /\ placed st d;
  tg_done : phase st = Done -> slot_content (d_model d) slot = Some file
}.

Lemma in_flight_ok st d : together st d -> phase st = Sending ->
  request_ok config (in_flight st) /\ (off (in_flight st) = 0 -> first_packet (in_flight st) = true).
Proof.
  intros [Hs _ Hl _] Hp. destruct (si_live _ _ Hs (or_introl Hp)) as (_ & _ & Hr & _). split; [done|].
  cbn. intros E. destruct (in_flight_first_packet st); [done|]. destruct (Hl Hp eq_refl). lia.
Qed.

(** A request handed to the device again leaves the device where it may be. *)
Lemma placed_again st d d' (n : nat) :
  together st d -> phase st = Sending ->
  (if bool_decide (taken d (Z.to_nat (in_flight_off st)))
   then Z.of_nat n = in_flight_off st + in_flight_len st /\
     d_upload_slot d' = (if (n =? length file)%nat then None else Some slot) /\
     d_received d' = (if (n =? length file)%nat then 0%nat else n)
   else n = d_received d /\ d' = d) ->
  in_flight_first_packet st = false -> 0 < in_flight_off st /\ placed st d'.
Proof.
  intros Ht Hp Hif Hf. destruct (tg_later _ _ Ht Hp Hf) as [Hpos Hpl]. split; [done|].
  case_bool_decide; [|by destruct Hif as [_ ->]]. destruct Hif as (Hn & Hs & Hr). unfold placed.
  destruct (Nat.eqb_spec n (length file)); [right; split; [done|lia]|left; split; [done|right; lia]].
Qed.

(** No answer: the request goes out again, or the session waits or fails. *)
Lemma together_failure st d e :
  sinv config st -> phase st = Sending -> receiving file image slot others d ->
  (in_flight_first_packet st = false -> 0 < in_flight_off st /\ placed st d) ->
  together (sent (on_response st (mkResponse None None (Some e)) config)).2 d.
Proof using Hup.
  intros Hs Hp Hr Hl. pose proof (sinv_answer config st (mkResponse None None (Some e)) (us_config _ _ _ Hup) Hs Hp ltac:(done)) as Hs'.
  unfold on_response, on_failure, fail_with in *. cbn [failure] in *. destruct (_ && _); [|case_bool_decide]; by split.
Qed.

(** The session with an offset. *)
Definition heard_offset (st : UploadState) (n : nat) : UploadState :=
  (sent (on_response st (mkResponse (Some (Z.of_nat n)) None None) config)).2.

Lemma whole_file_done st n : n = length file -> phase (heard_offset st n) = Done.
Proof using Hup.
  intros ->. unfold heard_offset, on_response. cbn [failure resp_off resp_match]. rewrite (us_size _ _ _ Hup).
  rewrite Z.ltb_irrefl, Z.eqb_refl. unfold on_complete. by rewrite bool_decide_eq_false_2 by done.
Qed.

(** An offset inside the image: followed from there, unless the session gives
    up on a device that does not advance. *)
Lemma inside_followed st n :
  (0 < n < length file)%nat ->
  let st' := heard_offset st n in
  (phase st' = Failed /\ in_flight_first_packet st = false /\ Z.of_nat n <= confirmed_off st) \/
  (phase st' = Sending /\ in_flight_first_packet st' = false /\ in_flight_off st' = Z.of_nat n /\
   in_flight_len st' = Z.min (chunk_size config) (zlen file - Z.of_nat n) /\ restarts st' = restarts st).
Proof using Hup.
  intros Hn. unfold heard_offset, on_response. cbn [failure resp_off resp_match]. rewrite (us_size _ _ _ Hup).
  destruct (Z.ltb_spec (zlen file) (Z.of_nat n)); [lia|]. destruct (Z.eqb_spec (Z.of_nat n) (zlen file)); [lia|].
  destruct (Z.eqb_spec (Z.of_nat n) 0); [lia|].
  assert (forall st0, confirmed_off st0 = Z.of_nat n -> first_packet_pending st0 = false -> restarts st0 = restarts st ->
    let st' := (sent (send_from st0 config, st0)).2 in
    phase st' = Sending /\ in_flight_first_packet st' = false /\ in_flight_off st' = Z.of_nat n /\
    in_flight_len st' = Z.min (chunk_size config) (zlen file - Z.of_nat n) /\ restarts st' = restarts st) as Hsend.
  { intros st0 Hc Hf Hr. rewrite send_from_spec; [|apply Hup|rewrite Hc, (us_size _ _ _ Hup); lia].
    rewrite Hf, Hc, (us_size _ _ _ Hup). done. }
  unfold on_offset. destruct (in_flight_first_packet st) eqn:Ef; [right; by apply Hsend|].
  destruct (Z.ltb_spec (confirmed_off st) (Z.of_nat n)); [right; by apply Hsend|].
  destruct (_ <? consecutive_no_progress _); [left; by split_and!|right; by apply Hsend].
Qed.

(** Offset zero: the upload starts over, while it may. *)
Lemma zero_restarts st :
  let st' := heard_offset st 0 in
  (phase st' = Failed /\ max_restarts config <= restarts st) \/
  (phase st' = Sending /\ in_flight_first_packet st' = true).
Proof using Hup.
  pose proof (co_size _ (us_config _ _ _ Hup)) as Hs.
  unfold heard_offset, on_response. cbn [failure resp_off resp_match]. change (Z.of_nat 0) with 0.
  destruct (Z.ltb_spec (image_size config) 0); [lia|]. destruct (Z.eqb_spec 0 (image_size config)); [lia|].
  rewrite Z.eqb_refl. unfold on_restart. destruct (Z.leb_spec (max_restarts config) (restarts st)); [by left|]. right.
  rewrite send_from_spec; [done|apply Hup|cbn; lia].
Qed.

(** What the device answered, folded into the session. *)
Lemma together_answer st d d' n :
  together st d -> phase st = Sending -> receiving file image slot others d' -> (n <= length file)%nat ->
  (n <> 0%nat -> slot_content (d_model d') slot = Some (partly file n)) ->
  (if bool_decide (taken d (Z.to_nat (in_flight_off st)))
   then Z.of_nat n = in_flight_off st + in_flight_len st /\
     d_upload_slot d' = (if (n =? length file)%nat then None else Some slot) /\
     d_received d' = (if (n =? length file)%nat then 0%nat else n)
   else n = d_received d /\ d' = d) ->
  together (heard_offset st n) d'.
Proof using Hup.
  intros Ht Hp Hr Hn Hc Hif. pose proof (co_size _ (us_config _ _ _ Hup)) as Hs. rewrite (us_size _ _ _ Hup) in Hs.
  split; [|done| |].
  - apply sinv_answer; [apply Hup|by destruct Ht|done|]. intros o [= <-]. lia.
  - intros Hp' Hf'. destruct (decide (n = length file)) as [E|E]; [by rewrite whole_file_done in Hp'|].
    destruct (decide (n = 0%nat)) as [->|E0]; [destruct (zero_restarts st) as [[? _]|[_ ?]]; congruence|].
    destruct (inside_followed st n ltac:(lia)) as [(? & _)|(_ & _ & Ho & Hl & _)]; [congruence|]. split; [lia|].
    left. rewrite Ho. case_bool_decide.
    + destruct Hif as (_ & -> & ->). destruct (Nat.eqb_spec n (length file)); [done|]. split; [done|by left].
    + destruct Hif as [-> ->]. pose proof (up_session _ _ _ _ _ (tg_device _ _ Ht)) as Hsess.
      destruct (d_upload_slot d) as [s|]; [destruct Hsess as [-> _]; split; [done|by left]|congruence].
  - intros Hp'. destruct (decide (n = length file)) as [->|E].
    + rewrite Hc by (intros E; rewrite E in Hs; cbn in Hs; lia). by rewrite partly_whole.
    + exfalso. destruct (decide (n = 0%nat)) as [->|E0]; [destruct (zero_restarts st) as [[? _]|[? _]]; congruence|].
      destruct (inside_followed st n ltac:(lia)) as [(? & _)|(? & _)]; congruence.
Qed.

(** An answered request, with the offset that was answered. *)
Lemma answered seq t st d :
  u8 seq -> together st d -> phase st = Sending ->
  exists t' n d', befall (ItsAnswered seq) (t, st, d) = Some (t', heard_offset st n, d') /\
    receiving file image slot others d' /\ (n <= length file)%nat /\
    (n <> 0%nat -> slot_content (d_model d') slot = Some (partly file n)) /\
    (if bool_decide (taken d (Z.to_nat (in_flight_off st)))
     then Z.of_nat n = in_flight_off st + in_flight_len st /\
       d_upload_slot d' = (if (n =? length file)%nat then None else Some slot) /\
       d_received d' = (if (n =? length file)%nat then 0%nat else n)
     else n = d_received d /\ d' = d).
Proof using All.
  intros Hseq Ht Hp. destruct (in_flight_ok st d Ht Hp) as [Hr Hfirst]. unfold befall. rewrite Hp.
  destruct (exchanged seq _ d Hr Hfirst Hseq (tg_device _ _ Ht)) as (n & d' & m & -> & Hm & Hrest).
  cbn [option_bind]. rewrite Hm. unfold extend, turn, heard_offset. cbn [fst snd]. rewrite Hp.
  exists (t ++ [(Some (Answer (mkResponse (Some (Z.of_nat n)) None None)),
                 (sent (on_response st (mkResponse (Some (Z.of_nat n)) None None) config)).1)]), n, d'.
  split; [|done]. by destruct (sent _).
Qed.

Lemma befall_together f t st d :
  fate_ok f -> together st d ->
  exists t' st' d', befall f (t, st, d) = Some (t', st', d') /\ together st' d'.
Proof using All.
  intros Hf Ht. unfold befall. destruct (phase st) eqn:Hp; try (by exists t, st, d).
  - destruct (in_flight_ok st d Ht Hp) as [Hr Hfirst].
    assert (forall e d', receiving file image slot others d' -> (in_flight_first_packet st = false -> 0 < in_flight_off st /\ placed st d') ->
      exists t' st', extend config (t, st) (unanswered e) = (t', st') /\ together st' d') as Hlost.
    { intros e d' Hu Hl. unfold extend, turn, unanswered. cbn [fst snd]. rewrite Hp.
      pose proof (together_failure st d' e (tg_session _ _ Ht) Hp Hu Hl) as Hto.
      destruct (sent _) as [s st']. by exists (t ++ [(Some (Answer (mkResponse None None (Some e))), s)]), st'. }
    destruct f as [seq|seq e|e|]; [| | |by exists t, st, d].
    + destruct (answered seq t st d Hf Ht Hp) as (t' & n & d' & Hb & Hu & Hn & Hc & Hif). unfold befall in Hb. rewrite Hp in Hb.
      exists t', (heard_offset st n), d'. split; [exact Hb|]. by eapply together_answer.
    + destruct (exchanged seq _ d Hr Hfirst Hf (tg_device _ _ Ht))
        as (n & d' & m & -> & Hm & Hu & Hn & Hc & Hif). cbn [option_bind].
      destruct (Hlost e d' Hu) as (t' & st' & -> & Hto); [by eapply placed_again|]. by exists t', st', d'.
    + destruct (Hlost e d (tg_device _ _ Ht)) as (t' & st' & -> & Hto); [by apply Ht|]. by exists t', st', d.
  - destruct f; try (by exists t, st, d). unfold extend, turn. cbn [fst snd]. rewrite Hp.
    pose proof (sinv_resume config st (us_config _ _ _ Hup) (tg_session _ _ Ht) Hp) as Hs.
    rewrite (resume_spec config st (us_config _ _ _ Hup) (tg_session _ _ Ht) Hp) in *.
    unfold sent in *. cbn [fst snd action bool_decide] in *. do 3 eexists. split; [done|]. split; [done|apply Ht|done|done].
Qed.

Lemma befall_all_together fs t st d :
  Forall fate_ok fs -> together st d ->
  exists t' st' d', befall_all fs (t, st, d) = Some (t', st', d') /\ together st' d'.
Proof using All.
  intros Hf. revert t st d. induction Hf as [|f fs Hf _ IH]; intros t st d Ht; cbn [befall_all]; [by exists t, st, d|].
  destruct (befall_together f t st d Hf Ht) as (t1 & st1 & d1 & -> & Ht1). cbn [option_bind]. by apply IH.
Qed.

Lemma begin_together d : receiving file image slot others d -> together (begin config).2 d.
Proof using Hup.
  intros Hd. pose proof (sinv_begin config (us_config _ _ _ Hup)) as Hs. pose proof (co_size _ (us_config _ _ _ Hup)) as Hsz.
  assert ((begin config).2 = (sent (send_from initial_state config, initial_state)).2) as E.
  { unfold begin, plan_next. rewrite !bool_decide_eq_false_2 by done. cbn [confirmed_off initial_state].
    destruct (Z.leb_spec (image_size config) 0); [lia|done]. }
  split; [done|done| |]; rewrite E, send_from_spec by (apply Hup || (cbn; lia)); done.
Qed.

(** ** Completion over a link that holds *)

(** The rounds a number of bytes takes. *)
Definition rounds (x : Z) : nat := Z.to_nat ((x + chunk_size config - 1) / chunk_size config).

(** What is still to be sent. *)
Definition to_go (st : UploadState) : Z := if in_flight_first_packet st then zlen file else zlen file - in_flight_off st.

(** The request in flight is one that takes the session forward. *)
Definition forward (st : UploadState) (d : StubDevice) : Prop :=
  phase st = Sending /\ (in_flight_first_packet st = false -> d_upload_slot d = Some slot).

Lemma rounds_step x : 0 < x -> exists k, rounds x = S k /\ (chunk_size config < x -> rounds (x - chunk_size config) = k) /\
  (x <= chunk_size config -> k = 0%nat).
Proof using Hup.
  intros Hx. pose proof (co_chunk _ (us_config _ _ _ Hup)) as Hc. unfold rounds.
  set (c := chunk_size config) in *. replace (x + c - 1) with ((x - 1) + 1 * c) by lia. rewrite Z.div_add by lia.
  assert (0 <= (x - 1) / c) by (apply Z.div_pos; lia).
  exists (Z.to_nat ((x - 1) / c)). split_and!; [lia| |].
  - intros Hlt. f_equal. f_equal. lia.
  - intros Hle. rewrite Z.div_small by lia. done.
Qed.

(** One answered request of those that go forward: the session is done, or its
    next request goes forward too and a chunk less is to go. *)
Lemma forward_answered seq t st d :
  u8 seq -> together st d -> forward st d ->
  exists t' st' d', befall (ItsAnswered seq) (t, st, d) = Some (t', st', d') /\ together st' d' /\
    (phase st' = Done \/
     forward st' d' /\ to_go st' = to_go st - chunk_size config /\ chunk_size config < to_go st).
Proof using All.
  intros Hseq Ht [Hp Hopen]. destruct (answered seq t st d Hseq Ht Hp) as (t' & n & d' & Hb & Hu & Hn & Hc & Hif).
  pose proof (together_answer st d d' n Ht Hp Hu Hn Hc Hif) as Hto. exists t', (heard_offset st n), d'. split; [done|]. split; [done|].
  destruct (si_live _ _ (tg_session _ _ Ht) (or_introl Hp)) as (_ & _ & (Ho & Hl & Hf0) & Hs). destruct (Hs Hp) as [_ Hoff].
  cbn [off req_length first_packet in_flight] in Ho, Hl, Hf0. rewrite (us_size _ _ _ Hup) in Ho, Hl.
  pose proof (co_chunk _ (us_config _ _ _ Hup)) as Hch.
  assert (Z.of_nat n = in_flight_off st + in_flight_len st) as En.
  { case_bool_decide as Htk; [by destruct Hif|]. destruct Hif as [-> _].
    destruct (in_flight_first_packet st) eqn:Ef; [exfalso; apply Htk; left; rewrite Hf0 by done; done|].
    destruct (tg_later _ _ Ht Hp Ef) as [_ [[_ [E|E]]|[E _]]]; [|done|by rewrite Hopen in E].
    exfalso. apply Htk. right. split; [by rewrite Hopen|]. lia. }
  destruct (decide (n = length file)) as [E|E]; [left; by apply whole_file_done|]. right.
  assert (in_flight_off st = 0 \/ in_flight_first_packet st = false) as Hcase by (destruct (in_flight_first_packet st); auto).
  destruct (inside_followed st n ltac:(lia)) as [(_ & Hf & Hle)|(Hp' & Hf' & Ho' & Hl' & _)].
  { exfalso. rewrite Hf in Hoff. lia. }
  assert (to_go st = zlen file - in_flight_off st) as Eg.
  { unfold to_go. destruct (in_flight_first_packet st); [|done]. rewrite Hf0 by done. lia. }
  split_and!; [split; [done|]|unfold to_go at 1; rewrite Hf', Ho', Eg; lia|rewrite Eg; lia].
  intros _. case_bool_decide as Htk; [|destruct Hif as [_ ->]].
  - destruct Hif as (_ & -> & _). by destruct (Nat.eqb_spec n (length file)).
  - destruct (in_flight_first_packet st) eqn:Ef; [|by apply Hopen]. exfalso. apply Htk. left. by rewrite Hf0.
Qed.

Lemma forward_completes seqs t st d :
  Forall u8 seqs -> together st d -> forward st d -> (rounds (to_go st) <= length seqs)%nat ->
  exists t' st' d', befall_all (ItsAnswered <$> seqs) (t, st, d) = Some (t', st', d') /\ together st' d' /\ phase st' = Done.
Proof using All.
  intros Hq. revert t st d. induction Hq as [|seq seqs Hs Hss IH]; intros t st d Ht Hf Hle.
  - exfalso. assert (0 < to_go st) as Hpos.
    { destruct Hf as [Hp _]. destruct (si_live _ _ (tg_session _ _ Ht) (or_introl Hp)) as (_ & _ & (Ho & _) & _).
      cbn in Ho. rewrite (us_size _ _ _ Hup) in Ho. unfold to_go. destruct (in_flight_first_packet st); lia. }
    destruct (rounds_step _ Hpos) as (k & Hk & _). cbn in Hle. lia.
  - cbn [fmap list_fmap befall_all]. destruct (forward_answered seq t st d Hs Ht Hf) as (t1 & st1 & d1 & -> & Ht1 & Hc).
    cbn [option_bind]. destruct Hc as [Hd|(Hf1 & Hg & Hlt)].
    + clear IH Hle. exists t1, st1, d1. split; [|done]. clear Hs. induction Hss as [|q qs _ _ IH]; [done|].
      cbn [fmap list_fmap befall_all]. unfold befall at 1. rewrite Hd. by cbn [option_bind].
    + apply IH; [done..|]. pose proof (co_chunk _ (us_config _ _ _ Hup)).
      destruct (rounds_step (to_go st)) as (k & Hk & Hk' & _); [lia|]. rewrite Hg, (Hk' Hlt). cbn in Hle. lia.
Qed.
End exchange.

(** ** Properties *)

(** A device with no upload going on, whose build sends the image's uploads to
    this slot. *)
Record idle (image slot : nat) (d : StubDevice) : Prop := {
  id_active : (xip_active (d_model d) <= 1)%nat;
  id_target : upload_target (d_model d) image = Some slot;
  id_none : d_upload_slot d = None /\ d_received d = 0%nat
}.

Lemma idle_receiving file image slot d :
  idle image slot d -> receiving file image slot (slot_content (d_model d)) d.
Proof. intros [Ha Ht [Hn Hr]]. split; [done..|]. by rewrite Hn. Qed.

Section properties.
Context `{Hlaws : QDecoderLaws}.
Context (version : Header.Version) (config : UploadConfig) (file : bytes) (image slot : nat).

Lemma under_way_together d fates :
  uploads config file image -> installable file -> idle image slot d -> Forall fate_ok fates ->
  exists t st d', befall_all version config file fates (under_way config d) = Some (t, st, d') /\
    together config file image slot (slot_content (d_model d)) st d'.
Proof.
  intros Hu Hf Hd Hfs. apply befall_all_together; [done..|]. apply begin_together; [done|]. by apply idle_receiving.
Qed.

(** C24. What the library calls uploaded is stored. Over any link, whatever
    requests and answers it loses and however often it drops and comes back, an
    upload of an installable file to the pretend device throws nothing on the
    device and leaves every other slot, the running image included, as it was;
    and when the session ends with the upload complete the slot holds exactly
    the file, byte for byte. The messages are the whole wire's: SMP header,
    CBOR request, CBOR answer. *)
Theorem completed_upload_stored d fates :
  uploads config file image -> installable file -> idle image slot d -> Forall fate_ok fates ->
  exists t st d', befall_all version config file fates (under_way config d) = Some (t, st, d') /\
    (forall s, s <> slot -> slot_content (d_model d') s = slot_content (d_model d) s) /\
    (phase st = Done -> slot_content (d_model d') slot = Some file).
Proof.
  intros Hu Hf Hd Hfs. destruct (under_way_together d fates Hu Hf Hd Hfs) as (t & st & d' & Hb & Ht).
  exists t, st, d'. split; [done|]. split; [apply (tg_device _ _ _ _ _ _ _ Ht)|by apply Ht].
Qed.

Lemma rounds_mono x y : 0 < chunk_size config -> x <= y -> (rounds config x <= rounds config y)%nat.
Proof.
  intros Hc Hxy. unfold rounds.
  assert ((x + chunk_size config - 1) / chunk_size config <= (y + chunk_size config - 1) / chunk_size config)
    by (apply Z.div_le_mono; lia).
  lia.
Qed.

(** C25. Once the link holds, the upload completes. After any history of losses
    and reconnects that leaves a request in flight and a restart to spare, one
    answer more than the file has chunks is enough: the session is done and the
    slot holds the file. In particular, with nothing lost, the upload of every
    installable file succeeds. *)
Theorem upload_recovers d fates t st d1 seqs :
  uploads config file image -> installable file -> idle image slot d -> Forall fate_ok fates ->
  befall_all version config file fates (under_way config d) = Some (t, st, d1) ->
  phase st = Sending -> restarts st < max_restarts config ->
  Forall u8 seqs -> (rounds config (zlen file) < length seqs)%nat ->
  exists t' st' d', befall_all version config file (ItsAnswered <$> seqs) (t, st, d1) = Some (t', st', d') /\
    phase st' = Done /\ slot_content (d_model d') slot = Some file.
Proof.
  intros Hu Hf Hd Hfs Hb Hp Hr Hq Hlen. destruct (under_way_together d fates Hu Hf Hd Hfs) as (t0 & st0 & d0 & Hb0 & Ht).
  rewrite Hb in Hb0. injection Hb0 as <- <- <-. pose proof (co_chunk _ (us_config _ _ _ Hu)) as Hc.
  set (others := slot_content (d_model d)) in *.
  assert (forall t st d seqs, Forall u8 seqs -> together config file image slot others st d -> forward slot st d ->
    (rounds config (zlen file) <= length seqs)%nat ->
    exists t' st' d', befall_all version config file (ItsAnswered <$> seqs) (t, st, d) = Some (t', st', d') /\
      phase st' = Done /\ slot_content (d_model d') slot = Some file) as Hgo.
  { clearbody others. clear -Hlaws Hu Hf Hc. intros t st d seqs Hq Ht Hfw Hl. destruct Hfw as [Hp Hopen].
    assert (to_go file st <= zlen file).
    { unfold to_go. destruct (in_flight_first_packet st) eqn:Ef; [lia|]. destruct (tg_later _ _ _ _ _ _ _ Ht Hp Ef). lia. }
    destruct (forward_completes version config file image slot others Hu Hf seqs t st d Hq Ht (conj Hp Hopen))
      as (t' & st' & d' & Hb & Ht' & Hd); [pose proof (rounds_mono (to_go file st) (zlen file)); lia|].
    exists t', st', d'. split_and!; [done..|]. by apply Ht'. }
  destruct (decide (in_flight_first_packet st = false /\ d_upload_slot d1 = None)) as [[Ef En]|Hfw].
  - destruct Hq as [|q seqs Hq Hqs]; [cbn in Hlen; lia|]. cbn [fmap list_fmap befall_all].
    destruct (answered version config file image slot others Hu Hf q t st d1 Hq Ht Hp) as (t1 & n & d2 & -> & Hrec & Hn & Hcn & Hif).
    pose proof (together_answer config file image slot others Hu st d1 d2 n Ht Hp Hrec Hn Hcn Hif) as Ht2.
    destruct (tg_later _ _ _ _ _ _ _ Ht Hp Ef) as [Hpos _]. rewrite bool_decide_eq_false_2 in Hif.
    2:{ intros [E|[E _]]; [lia|done]. }
    destruct Hif as [-> ->]. pose proof (up_session _ _ _ _ _ (tg_device _ _ _ _ _ _ _ Ht)) as Hses. rewrite En in Hses.
    rewrite Hses in *. cbn [option_bind]. destruct (zero_restarts config file image Hu st) as [[_ ?]|[Hp2 Hf2]]; [lia|].
    apply Hgo; [done..| |cbn in Hlen; lia]. split; [done|]. congruence.
  - apply Hgo; [done..| |lia]. split; [done|]. intros Ef. destruct (d_upload_slot d1) as [s|] eqn:En; [|tauto].
    pose proof (up_session _ _ _ _ _ (tg_device _ _ _ _ _ _ _ Ht)) as Hses. rewrite En in Hses. by destruct Hses as [-> _].
Qed.
End properties.

(** ** A sample upload *)

Definition sample_file : bytes := [0x3D; 0xB8; 0xF3; 0x96] ++ replicate 36 7.
Definition sample_upload : UploadConfig := mkUploadConfig 40 32 0 None false 3 2 3.
Definition sample_target : StubDevice := mkStub (new_model (boot_config None None)) None None 0 0 false.
Definition late : Error := Error_at Timeout "late".

(** The first answer is lost, then the link goes down and comes back. *)
Definition sample_fates : list fate := [AnswerLost 0 late; AnswerLost 1 (Error_at Disconnected "down"); LinkBack].

Lemma sample_uploads : uploads sample_upload sample_file 0.
Proof. split; [split; cbn; unfold fits; lia|done|by vm_compute; split|by cbn|done]. Qed.

Lemma sample_installable : installable sample_file.
Proof. split_and!; [|vm_compute; congruence..|by vm_compute]. repeat constructor; vm_compute; congruence. Qed.

Lemma sample_idle : idle 0 1 sample_target.
Proof. split; [cbn; lia|done|done]. Qed.

Lemma sample_fates_ok : Forall fate_ok sample_fates.
Proof. repeat constructor; vm_compute; congruence. Qed.

Lemma completed_upload_stored_witness :
  exists t st d', befall_all V2 sample_upload sample_file (sample_fates ++ [ItsAnswered 2; ItsAnswered 3])
      (under_way sample_upload sample_target) = Some (t, st, d') /\
    (forall s, s <> 1%nat -> slot_content (d_model d') s = slot_content (d_model sample_target) s) /\
    (phase st = Done -> slot_content (d_model d') 1 = Some sample_file).
Proof.
  apply (completed_upload_stored V2 sample_upload sample_file 0 1 sample_target);
    [exact sample_uploads|exact sample_installable|exact sample_idle|].
  apply Forall_app_2; [exact sample_fates_ok|]. repeat constructor; vm_compute; congruence.
Defined.

(** That run does complete. *)
Example sample_upload_completes :
  match befall_all V2 sample_upload sample_file (sample_fates ++ [ItsAnswered 2; ItsAnswered 3])
      (under_way sample_upload sample_target) with
  | Some (_, st, d) => phase st = Done /\ slot_content (d_model d) 1 = Some sample_file
  | None => False
  end.
Proof. vm_compute. by split. Qed.

(** A file that fits in one packet is sent, stored in a slot that held nothing,
    and the completing step says that the device had it already: the first
    packet's answer reports the whole file whether the packet carried it or the
    device found it stored. *)
Lemma one_packet_called_present :
  slot_content (d_model sample_target) 1 = Some [] /\
  match befall_all V2 (mkUploadConfig 40 64 0 None false 3 2 3) sample_file [ItsAnswered 0]
      (under_way (mkUploadConfig 40 64 0 None false 3 2 3) sample_target) with
  | Some (t, _, d) =>
      slot_content (d_model d) 1 = Some sample_file /\
      exists r s, last t = Some (r, s) /\ action s = Complete /\ completed_on_first_packet s = true
  | None => False
  end.
Proof. vm_compute. split; [done|]. split; [done|]. by eexists _, _. Qed.

Lemma upload_recovers_witness :
  match befall_all V2 sample_upload sample_file sample_fates (under_way sample_upload sample_target) with
  | Some (t, st, d1) =>
      exists t' st' d', befall_all V2 sample_upload sample_file (ItsAnswered <$> [2; 3; 4]) (t, st, d1) = Some (t', st', d') /\
        phase st' = Done /\ slot_content (d_model d') 1 = Some sample_file
  | None => False
  end.
Proof.
  destruct (befall_all _ _ _ _ _) as [[[t st] d1]|] eqn:E; [|by vm_compute in E].
  apply (upload_recovers V2 sample_upload sample_file 0 1 sample_target sample_fates);
    [exact sample_uploads|exact sample_installable|exact sample_idle|exact sample_fates_ok|exact E| | | |vm_compute; lia].
  - vm_compute in E. by injection E as _ <- _.
  - vm_compute in E. injection E as _ <- _. vm_compute. done.
  - repeat constructor; vm_compute; congruence.
Defined.
