(* ===== verification/FirmwareUpdater.v ===== *)
(** * The firmware updater

    [src/dfu/firmware_updater.cpp]: the half of an update that does the I/O. It
    owns the [Machine] of UpdateMachine.v, turns what happens into its events and
    carries out the effects of its steps. The image and OS groups and the client
    are seen through what they do for the updater: requests are handed over and
    answered later, the upload's handle, whether it can be resumed and whether
    the link is up are what they say at the time. The application is a
    parameter: what it calls from inside the event callback, as a function of
    everything seen so far. *)

From S2P Require Import Prelude Errors McubootImage GroupCodecs UploadDriver ImageValues UpdateTypes UpdateMachine.

(** ** Data *)

(** [smply::ImageTarget]; a null pointer is [None]. *)
Record ImageTarget := mkImageTarget {
  it_image : Z;
  it_source : option ImageSource;
  it_commit : CommitBy;
  it_secondary_source : option ImageSource
}.

(** [smply::UpdatePlan]: what the machine reads, and what only the updater
    does. *)
Record FullPlan := mkFullPlan {
  decided : UpdatePlan;
  plan_upload : UploadOptions;
  reconnect_hint : Duration
}.

(** [smply::UpdateEvent]. *)
Inductive UpdateEvent :=
| UpdateStateChanged (from to : UpdateState)
| UploadProgressed (p : UploadProgress)
| DisconnectExpected
| ReconnectRequired (hint : Duration)
| ConfirmationRequired
| UpdateFinished (result : Result UpdateReport).

(** What the updater asks of the groups. *)
Inductive Request :=
| Q_parameters
| Q_bootloader
| Q_state
| Q_set_state (hash : ImageHash) (confirm : bool)
| Q_reset (force : bool)
| Q_upload (source : ImageSource) (options : UploadOptions)
| Q_resume (h : UploadHandle).

(** What comes back. *)
Inductive Answer :=
| A_parameters (r : Result McumgrParameters)
| A_bootloader (r : Result BootloaderMode)
| A_table (r : Result ImageState)
| A_reset (r : Result unit)
| A_upload (r : Result UploadResult).

(** What the application may call. *)
Inductive Command :=
| C_start (targets : list ImageTarget) (plan : FullPlan) (on_event : bool)
| C_confirm
| C_resume_after_reconnect
| C_reconnect_failed (e : Error)
| C_cancel.

(** What is seen of the updater: an update accepted (with what was given), any
    other return of a call, an event, a request, an upload told to stop. [O_undefined] stands for the
    undefined behaviour of an index out of range or a null source. *)
Inductive Output :=
| O_started (targets : list ImageTarget) (plan : FullPlan)
| O_returned (r : Result unit)
| O_event (e : UpdateEvent)
| O_request (q : Request)
| O_cancel_upload (h : UploadHandle)
| O_undefined.

(** [FirmwareUpdater::Impl], with the events it has posted to the client and the
    requests not yet answered, by number. The callback [on_event_] is the
    application's: it is there or not. [sources_] holds pairs of pointers;
    [life_] is whether the object still exists. *)
Record Updater := mkUpdater {
  full_plan_ : FullPlan;
  sources_ : list (option ImageSource * option ImageSource);
  on_event_ : bool;
  upload_ : UploadHandle;
  machine_ : option Machine;
  running_ : bool;
  last_poll_ : TimePoint;
  life_ : bool;
  posted : list Event;
  outstanding : list (nat * Request);
  issued : nat;
  log : list Output
}.

Definition set_upload_ (x : UploadHandle) (u : Updater) : Updater :=
  mkUpdater (full_plan_ u) (sources_ u) (on_event_ u) x (machine_ u) (running_ u) (last_poll_ u) (life_ u) (posted u) (outstanding u) (issued u) (log u).

Definition set_machine_ (x : option Machine) (u : Updater) : Updater :=
  mkUpdater (full_plan_ u) (sources_ u) (on_event_ u) (upload_ u) x (running_ u) (last_poll_ u) (life_ u) (posted u) (outstanding u) (issued u) (log u).

Definition set_running_ (x : bool) (u : Updater) : Updater :=
  mkUpdater (full_plan_ u) (sources_ u) (on_event_ u) (upload_ u) (machine_ u) x (last_poll_ u) (life_ u) (posted u) (outstanding u) (issued u) (log u).

Definition set_last_poll_ (x : TimePoint) (u : Updater) : Updater :=
  mkUpdater (full_plan_ u) (sources_ u) (on_event_ u) (upload_ u) (machine_ u) (running_ u) x (life_ u) (posted u) (outstanding u) (issued u) (log u).

Definition set_posted (x : list Event) (u : Updater) : Updater :=
  mkUpdater (full_plan_ u) (sources_ u) (on_event_ u) (upload_ u) (machine_ u) (running_ u) (last_poll_ u) (life_ u) x (outstanding u) (issued u) (log u).

Definition set_outstanding (x : list (nat * Request)) (u : Updater) : Updater :=
  mkUpdater (full_plan_ u) (sources_ u) (on_event_ u) (upload_ u) (machine_ u) (running_ u) (last_poll_ u) (life_ u) (posted u) x (issued u) (log u).

Definition see (o : Output) (u : Updater) : Updater :=
  mkUpdater (full_plan_ u) (sources_ u) (on_event_ u) (upload_ u) (machine_ u) (running_ u) (last_poll_ u) (life_ u) (posted u) (outstanding u) (issued u) (log u ++ [o]).

(** A request handed to a group. *)
Definition ask (q : Request) (u : Updater) : Updater :=
  mkUpdater (full_plan_ u) (sources_ u) (on_event_ u) (upload_ u) (machine_ u) (running_ u) (last_poll_ u) (life_ u) (posted u) (outstanding u ++ [(issued u, q)]) (S (issued u)) (log u ++ [O_request q]).

(** The members [start] sets and [finish] clears. *)
Definition take_update (plan : FullPlan) (sources : list (option ImageSource * option ImageSource))
    (on_event : bool) (m : Machine) (u : Updater) : Updater :=
  mkUpdater plan sources on_event (upload_ u) (Some m) true (last_poll_ u) (life_ u) (posted u) (outstanding u) (issued u) (log u).

Definition drop_update (u : Updater) : Updater :=
  mkUpdater (full_plan_ u) [] false no_upload (machine_ u) (running_ u) (last_poll_ u) (life_ u) (posted u) (outstanding u) (issued u) (log u).

(** What a collaborator says during one input: whether the link is up
    ([SmpClient::connected]), the handle [ImageManagement::upload] returns, and
    whether an upload can be resumed. *)
Record World := mkWorld {
  w_connected : bool;
  w_upload : UploadHandle;
  w_resumable : UploadHandle -> bool
}.

(** ** Events *)

Definition no_bootloader : BootloaderMode := mkBootloaderMode M_Unknown 0 false.

(** [plain]. *)
Definition plain (k : Kind) : Event := mkEvent k 0 0 no_bootloader None 0 false Error_none.

(** [parameters_unavailable], [failure]. *)
Definition parameters_unavailable : Event := plain K_ParametersUnavailable.

Definition failed_event (k : Kind) (e : Error) : Event := mkEvent k 0 0 no_bootloader None 0 false e.
Definition failure_event (e : Error) : Event := failed_event K_Failed e.

Definition stamp (t : TimePoint) (ev : Event) : Event :=
  mkEvent (kind ev) t (ev_buf_size ev) (ev_bootloader ev) (ev_state ev) (ev_transferred ev)
    (ev_already_present ev) (ev_error ev).

(** ** Starting *)

(** [FirmwareUpdater::Impl::validate]: the walk over the targets, with the later
    ones of the list, and what it gathers. *)
Fixpoint validate_targets (targets : list ImageTarget) (device_commits : bool) : Result bool :=
  match targets with
  | [] => Success device_commits
  | t :: rest =>
      match it_source t with
      | None => fail InvalidArgument "updater: image target without a source"
      | Some _ =>
          if existsb (fun other => it_image other =? it_image t) rest
          then fail InvalidArgument "updater: an image is given twice"
          else validate_targets rest (device_commits || bool_decide (it_commit t = Device))
      end
  end.

Definition validate (targets : list ImageTarget) (plan : FullPlan) : Result unit :=
  match targets with
  | [] => fail InvalidArgument "updater: no image to update"
  | _ =>
      let? device_commits := validate_targets targets false in
      let any_builds := existsb (fun t => bool_decide (is_Some (it_secondary_source t))) targets in
      if ((1 <? length targets)%nat || any_builds) && bool_decide (is_Some (uo_sha (plan_upload plan)))
      then fail InvalidArgument "updater: upload.sha with several files"
      else if device_commits && (apply_poll_interval (decided plan) <=? 0)
      then fail InvalidArgument "updater: apply_poll_interval not positive"
      else Success tt
  end.

(** [FirmwareUpdater::Impl::read_target]: the hash TLV and the version of a
    file. *)
Definition read_target (source : ImageSource) : Result (ImageHash * ImageVersion) :=
  let? (n, head) := src_read source 0 (replicate kMcubootHeaderSize 0) in
  if negb (n =? kMcubootHeaderSize)%nat
  then fail InvalidArgument "updater: source shorter than an image header"
  else
    let? info := parse_mcuboot_header head in
    let? found := default (fail Internal "updater: the scan did not return") (find_image_tlv_hash source info) in
    match found with
    | None => fail InvalidArgument "updater: image carries no hash TLV"
    | Some hash => Success (hash, McubootImage.version info)
    end.

(** The loop of [start] over the targets, for one: what the machine is to decide
    on, and the sources to send from. The scan returns for every source
    ([find_total]). *)
Definition read_image_target (t : ImageTarget) : Result Target :=
  match it_source t with
  | None => fail Internal "updater: null source"
  | Some source =>
      let? (hash, version) := read_target source in
      match it_secondary_source t with
      | None => Success (mkTarget (it_image t) (it_commit t) hash version None)
      | Some secondary =>
          let? (hash', version') := read_target secondary in
          Success (mkTarget (it_image t) (it_commit t) hash version
                     (Some (mkBuild hash version, mkBuild hash' version')))
      end
  end.

Fixpoint read_targets (targets : list ImageTarget) : Result (list Target) :=
  match targets with
  | [] => Success []
  | t :: rest =>
      let? decision := read_image_target t in
      let? decisions := read_targets rest in
      Success (decision :: decisions)
  end.

Definition sources_of (targets : list ImageTarget) : list (option ImageSource * option ImageSource) :=
  (fun t => (it_source t, it_secondary_source t)) <$> targets.

(** ** The rest of the public interface, up to the callbacks *)

(** [FirmwareUpdater::Impl::post]. *)
Definition post (ev : Event) (u : Updater) : Updater := set_posted (posted u ++ [ev]) u.

(** [FirmwareUpdater::Impl::state], [next_deadline] and [report]. *)
Definition state (u : Updater) : UpdateState :=
  match machine_ u with Some m => state_ m | None => S_Idle end.

Definition updater_deadline (u : Updater) : option TimePoint :=
  match machine_ u with Some m => next_deadline m | None => None end.

Definition updater_report (u : Updater) : UpdateReport :=
  match machine_ u with Some m => report (context_ m) | None => empty_report end.

(** [FirmwareUpdater::Impl::start]. *)
Definition start (targets : list ImageTarget) (plan : FullPlan) (on_event : bool) (u : Updater)
  : Result unit * Updater :=
  if running_ u then (fail InvalidState "updater: an update is already running", u)
  else if negb on_event then (fail InvalidArgument "updater: no event callback", u)
  else
    match validate targets plan with
    | Fail e => (Fail e, u)
    | Success _ =>
        match read_targets targets with
        | Fail e => (Fail e, u)
        | Success ts =>
            (Success tt,
             post (plain K_Start)
               (take_update plan (sources_of targets) on_event (new_machine ts (decided plan)) u))
        end
    end.

(** [FirmwareUpdater::start] of one image. *)
Definition start_single (source : option ImageSource) (plan : FullPlan) (on_event : bool) (u : Updater)
  : Result unit * Updater :=
  start [mkImageTarget (uo_image (plan_upload plan)) source Client None] plan on_event u.

(** [FirmwareUpdater::Impl::confirm]. *)
Definition confirm (u : Updater) : Result unit * Updater :=
  if bool_decide (state u <> S_AwaitingConfirmation)
  then (fail InvalidState "updater: not awaiting confirmation", u)
  else (Success tt, post (plain K_ConfirmApproved) u).

(** [FirmwareUpdater::Impl::resume_after_reconnect]. *)
Definition resume_after_reconnect (u : Updater) : Result unit * Updater :=
  if bool_decide (state u <> S_AwaitingReconnect)
  then (fail InvalidState "updater: not awaiting a reconnect", u)
  else (Success tt, post (plain K_Reconnected) u).

(** [FirmwareUpdater::Impl::reconnect_failed]. *)
Definition reconnect_failed (e : Error) (u : Updater) : Updater :=
  if negb (running_ u) then u else post (failed_event K_ReconnectFailed e) u.

(** The [image_->cancel] of [cancel] and [abandon]. *)
Definition stop_upload (u : Updater) : Updater :=
  if upload_valid (upload_ u) then see (O_cancel_upload (upload_ u)) u else u.

(** [FirmwareUpdater::Impl::cancel]. *)
Definition cancel (u : Updater) : Updater :=
  if negb (running_ u) then u else post (plain K_Cancel) (stop_upload u).

(** A call of the application, and what it returned. *)
Definition exec (u : Updater) (c : Command) : Updater :=
  match c with
  | C_start targets plan on_event =>
      match start targets plan on_event u with
      | (Success _, u) => see (O_started targets plan) u
      | (r, u) => see (O_returned r) u
      end
  | C_confirm => let '(r, u) := confirm u in see (O_returned r) u
  | C_resume_after_reconnect => let '(r, u) := resume_after_reconnect u in see (O_returned r) u
  | C_reconnect_failed e => reconnect_failed e u
  | C_cancel => cancel u
  end.

Section updater.
Context (react : list Output -> list Command).

(** ** Carrying out the machine's steps *)

(** [FirmwareUpdater::Impl::emit], with what the application does inside. *)
Definition emit (e : UpdateEvent) (u : Updater) : Updater :=
  if on_event_ u then let u := see (O_event e) u in foldl exec u (react (log u)) else u.

(** [FirmwareUpdater::Impl::announce]. *)
Definition announce (previous next : UpdateState) (u : Updater) : Updater :=
  if bool_decide (next = previous) then u else emit (UpdateStateChanged previous next) u.

(** [FirmwareUpdater::Impl::start_upload]. *)
Definition start_upload (s : Step) (w : World) (u : Updater) : Updater :=
  let options := plan_upload (full_plan_ u) in
  let server_buf_size :=
    match uo_server_buf_size options with
    | Some size => Some size
    | None => if negb (st_buf_size s =? 0) then Some (st_buf_size s) else None
    end in
  let options :=
    mkUploadOptions (st_image s) (uo_upgrade_only options) (uo_sha options) (uo_chunk_size options)
      server_buf_size (uo_max_chunk_retries options) (uo_max_restarts options)
      (uo_max_no_progress options) (uo_first_chunk_timeout options) (uo_final_chunk_timeout options)
      (uo_chunk_timeout options) in
  let source :=
    match sources_ u !! st_target s with
    | Some (primary, secondary) =>
        match st_build s with O => primary | 1%nat => secondary | _ => None end
    | None => None
    end in
  match source with
  | None => see O_undefined u
  | Some source => set_upload_ (w_upload w) (ask (Q_upload source options) u)
  end.

(** [FirmwareUpdater::Impl::finish]. *)
Definition finish (u : Updater) : Updater :=
  let u := set_running_ false u in
  let report := updater_report u in
  let outcome :=
    if bool_decide (state u <> S_Completed)
    then Fail (default (Error_at Cancelled "updater: cancelled") (rp_cause report))
    else Success report in
  drop_update (emit (UpdateFinished outcome) u).

(** [FirmwareUpdater::Impl::apply]. *)
Definition carry_out (s : Step) (w : World) (u : Updater) : Updater :=
  match effect s with
  | E_None | E_Continue | E_AwaitApply => u
  | E_QueryParameters => ask Q_parameters u
  | E_QueryBootloader => ask Q_bootloader u
  | E_ReadState => ask Q_state u
  | E_StartUpload => start_upload s w u
  | E_ResumeUpload => ask (Q_resume (upload_ u)) u
  | E_MarkForTest => ask (Q_set_state (st_hash s) false) u
  | E_Reset => ask (Q_reset false) u
  | E_ForceReset => ask (Q_reset true) u
  | E_AwaitDisconnect => emit DisconnectExpected u
  | E_RequestReconnect => emit (ReconnectRequired (reconnect_hint (full_plan_ u))) u
  | E_RequestConfirmation => emit ConfirmationRequired u
  | E_Confirm => ask (Q_set_state (st_hash s) true) u
  | E_Finish => finish u
  end.

(** The loop of [FirmwareUpdater::Impl::dispatch]: [s] is the step [machine_]
    has just taken. [None] is fuel run out. *)
Fixpoint dispatch_loop (fuel : nat) (previous : UpdateState) (s : Step) (w : World) (u : Updater)
  : option Updater :=
  let u := announce previous (next s) u in
  if bool_decide (effect s <> E_Continue) then Some (carry_out s w u)
  else
    match fuel, machine_ u with
    | S fuel, Some m =>
        let '(s', m) := apply (stamp (last_poll_ u) (plain K_Continue)) m in
        dispatch_loop fuel (next s) s' w (set_machine_ (Some m) u)
    | _, _ => None
    end.

(** A decision that needs no I/O is followed by one that does
    ([planning_progresses]), so the loop goes round at most twice. *)
Definition dispatch_fuel : nat := 1.

(** [FirmwareUpdater::Impl::dispatch]. *)
Definition dispatch (ev : Event) (w : World) (u : Updater) : option Updater :=
  match running_ u, machine_ u with
  | true, Some m =>
      let '(s, m') := apply (stamp (last_poll_ u) ev) m in
      dispatch_loop dispatch_fuel (state_ m) s w (set_machine_ (Some m') u)
  | _, _ => Some u
  end.

(** [FirmwareUpdater::Impl::poll]. *)
Definition poll (now : TimePoint) (w : World) (u : Updater) : option Updater :=
  let u := set_last_poll_ now u in
  if negb (running_ u) then Some u
  else if bool_decide (state u = S_AwaitingDisconnect) && negb (w_connected w)
  then dispatch (plain K_Disconnected) w u
  else
    match updater_deadline u with
    | Some due => if due <=? now then dispatch (plain K_Tick) w u else Some u
    | None => Some u
    end.

(** [FirmwareUpdater::Impl::abandon]. *)
Definition abandon (w : World) (u : Updater) : option Updater :=
  if negb (running_ u) then Some u else dispatch (plain K_Cancel) w (stop_upload u).

(** ** The answers: the handlers [apply], [set_state] and [upload_done] pass *)

Definition table_event (k : Kind) (r : Result ImageState) : Event :=
  match r with
  | Fail e => failure_event e
  | Success st => mkEvent k 0 0 no_bootloader (Some st) 0 false Error_none
  end.

Definition upload_event (h : UploadHandle) (w : World) (r : Result UploadResult) : Event :=
  match r with
  | Fail e => if w_resumable w h then plain K_UploadSuspended else failure_event e
  | Success r =>
      mkEvent K_UploadFinished 0 0 no_bootloader None (ur_transferred r) (ur_already_present r) Error_none
  end.

(** The event an answer to a request is handed to the machine as; an answer of
    another type cannot come. *)
Definition answer_event (q : Request) (a : Answer) (w : World) (u : Updater) : option Event :=
  match q, a with
  | Q_parameters, A_parameters (Fail _) => Some parameters_unavailable
  | Q_parameters, A_parameters (Success p) =>
      Some (mkEvent K_ParametersRead 0 (GroupCodecs.buf_size p) no_bootloader None 0 false Error_none)
  | Q_bootloader, A_bootloader (Fail e) => Some (failure_event e)
  | Q_bootloader, A_bootloader (Success m) =>
      Some (mkEvent K_BootloaderRead 0 0 m None 0 false Error_none)
  | Q_state, A_table r => Some (table_event K_StateRead r)
  | Q_set_state _ confirm, A_table r =>
      Some (table_event (if confirm then K_Confirmed else K_MarkedForTest) r)
  | Q_reset _, A_reset (Fail e) => Some (failure_event e)
  | Q_reset _, A_reset (Success _) => Some (plain K_ResetAccepted)
  | (Q_upload _ _ | Q_resume _), A_upload r => Some (upload_event (upload_ u) w r)
  | _, _ => None
  end.

(** ** Running it *)

(** What the rest of the program does: a call of the application, a poll of the
    updater, the client running the oldest posted event, an answer to request
    [n], the upload's progress callback, the destructor. *)
Inductive Input :=
| I_command (c : Command)
| I_poll (now : TimePoint)
| I_posted
| I_answer (n : nat) (a : Answer)
| I_progress (p : UploadProgress)
| I_destroy.

(** A request is answered once; every callback but the progress one holds the
    object weakly, and the progress callback belongs to an upload the destructor
    has stopped. *)
Definition input_step (wi : World * Input) (u : Updater) : option Updater :=
  let '(w, i) := wi in
  if negb (life_ u) then Some u
  else
    match i with
    | I_command c => Some (exec u c)
    | I_poll now => poll now w u
    | I_posted =>
        match posted u with
        | [] => Some u
        | ev :: evs => dispatch ev w (set_posted evs u)
        end
    | I_answer n a =>
        match List.find (fun p => (p.1 =? n)%nat) (outstanding u) with
        | None => Some u
        | Some (_, q) =>
            let u := set_outstanding (filter (fun p => p.1 <> n) (outstanding u)) u in
            match answer_event q a w u with
            | Some ev => dispatch ev w u
            | None => Some u
            end
        end
    | I_progress p => Some (emit (UploadProgressed p) u)
    | I_destroy =>
        (fun u => mkUpdater (full_plan_ u) (sources_ u) (on_event_ u) (upload_ u) (machine_ u)
                    (running_ u) (last_poll_ u) false (posted u) (outstanding u) (issued u) (log u))
          <$> abandon w u
    end.

Fixpoint run_inputs (is_ : list (World * Input)) (u : Updater) : option Updater :=
  match is_ with
  | [] => Some u
  | i :: is_ => match input_step i u with Some u => run_inputs is_ u | None => None end
  end.

End updater.

(** A new updater. *)
Definition no_options : UploadOptions := mkUploadOptions 0 false None 0 None 3 2 3 30000 30000 5000.

Definition default_plan : UpdatePlan :=
  mkPlan TestThenConfirm None false true true 10000 300000 2000.

Definition new_updater : Updater :=
  mkUpdater (mkFullPlan default_plan no_options 3000) [] false no_upload None false 0 true [] [] 0 [].
