(* ===== verification/FirmwareUpdaterProperties.v ===== *)
(** * Properties of the firmware updater

    The updater runs its machine and nothing else: what it says and asks during
    an update is, in order, what the steps of the machine say and ask. Every
    update accepted ends with exactly one [UpdateFinished], and nothing follows
    it. *)

From S2P Require Import Prelude Errors McubootImage GroupCodecs UploadDriver ImageValues UpdateTypes UpdateMachine UpdateLemmas UpdateRuns UpdateProperties FirmwareUpdater.

(** ** What an update does, as a trace of its machine *)

(** What is seen of one update: an event, a request (a resumption without its
    handle), or undefined behaviour. Progress and calls are left out. *)
Inductive Act :=
| Said (e : UpdateEvent)
| Did (q : Request)
| DidResume
| Broke.

Definition act_of (o : Output) : list Act :=
  match o with
  | O_event (UploadProgressed _) => []
  | O_event e => [Said e]
  | O_request (Q_resume _) => [DidResume]
  | O_request q => [Did q]
  | O_undefined => [Broke]
  | O_started _ _ | O_returned _ | O_cancel_upload _ => []
  end.

Definition is_started (o : Output) : bool := match o with O_started _ _ => true | _ => false end.

(** The acts of the update last accepted. *)
Definition acts (l : list Output) : list Act :=
  foldl (fun acc o => if is_started o then [] else acc ++ act_of o) [] l.

(** What it was given. *)
Definition given (l : list Output) : option (list ImageTarget * FullPlan) :=
  foldl (fun acc o => match o with O_started targets plan => Some (targets, plan) | _ => acc end) None l.

Lemma acts_snoc l o : is_started o = false -> acts (l ++ [o]) = acts l ++ act_of o.
Proof. intros Ho. unfold acts. by rewrite foldl_snoc, Ho. Qed.

Lemma given_snoc l o : is_started o = false -> given (l ++ [o]) = given l.
Proof. intros Ho. unfold given. rewrite foldl_snoc. by destruct o. Qed.

(** What a step makes the updater say and ask; [m] is the machine after it. *)
Section trace.
Context (plan : FullPlan) (sources : list (option ImageSource * option ImageSource)).

Definition outcome_of_update (m : Machine) : Result UpdateReport :=
  if bool_decide (state_ m <> S_Completed)
  then Fail (default (Error_at Cancelled "updater: cancelled") (rp_cause (report (context_ m))))
  else Success (report (context_ m)).

(** The source of a target's build, and the options it is sent with. *)
Definition source_at (target build : nat) : option ImageSource :=
  match sources !! target with
  | Some (primary, secondary) =>
      match build with O => primary | 1%nat => secondary | _ => None end
  | None => None
  end.

Definition options_for (s : Step) : UploadOptions :=
  let o := plan_upload plan in
  mkUploadOptions (st_image s) (uo_upgrade_only o) (uo_sha o) (uo_chunk_size o)
    match uo_server_buf_size o with
    | Some size => Some size
    | None => if negb (st_buf_size s =? 0) then Some (st_buf_size s) else None
    end
    (uo_max_chunk_retries o) (uo_max_restarts o) (uo_max_no_progress o) (uo_first_chunk_timeout o)
    (uo_final_chunk_timeout o) (uo_chunk_timeout o).

Definition effect_acts (s : Step) (m : Machine) : list Act :=
  match effect s with
  | E_None | E_Continue | E_AwaitApply => []
  | E_QueryParameters => [Did Q_parameters]
  | E_QueryBootloader => [Did Q_bootloader]
  | E_ReadState => [Did Q_state]
  | E_StartUpload =>
      match source_at (st_target s) (st_build s) with
      | Some source => [Did (Q_upload source (options_for s))]
      | None => [Broke]
      end
  | E_ResumeUpload => [DidResume]
  | E_MarkForTest => [Did (Q_set_state (st_hash s) false)]
  | E_Reset => [Did (Q_reset false)]
  | E_ForceReset => [Did (Q_reset true)]
  | E_AwaitDisconnect => [Said DisconnectExpected]
  | E_RequestReconnect => [Said (ReconnectRequired (reconnect_hint plan))]
  | E_RequestConfirmation => [Said ConfirmationRequired]
  | E_Confirm => [Did (Q_set_state (st_hash s) true)]
  | E_Finish => [Said (UpdateFinished (outcome_of_update m))]
  end.

Definition step_acts (previous : UpdateState) (s : Step) (m : Machine) : list Act :=
  (if bool_decide (next s = previous) then [] else [Said (UpdateStateChanged previous (next s))])
  ++ effect_acts s m.

Fixpoint trace (evs : list Event) (m : Machine) : list Act :=
  match evs with
  | [] => []
  | ev :: evs =>
      let '(s, m') := apply ev m in step_acts (state_ m) s m' ++ trace evs m'
  end.

Lemma trace_snoc evs ev m :
  trace (evs ++ [ev]) m =
    trace evs m ++
    let '(s, m') := apply ev (run evs m).2 in step_acts (state_ (run evs m).2) s m'.
Proof.
  revert m. induction evs as [|e evs IH]; intros m; cbn [trace app run].
  { cbn [snd]. destruct (apply ev m). by rewrite app_nil_r. }
  destruct (apply e m) as [s1 m1]. rewrite IH. destruct (run evs m1) as [ss m2] eqn:Er. cbn [snd].
  by rewrite app_assoc.
Qed.
End trace.

(** ** Facts on the machine's steps *)

(** Every step out of a state that is not terminal finishes the update exactly
    when it leads to one that is, and a step that goes on leads to planning. *)
Lemma step_kind st o :
  is_terminal st = false -> o ∈ outcomes st ->
  is_terminal o.1 = bool_decide (o.2 = E_Finish) /\ (o.2 = E_Continue -> o.1 = S_Planning).
Proof.
  intros Hst.
  assert (Forall (fun o => is_terminal o.1 = bool_decide (o.2 = E_Finish) /\
    (o.2 = E_Continue -> o.1 = S_Planning)) (outcomes st)) as H
    by (destruct st; try done; repeat constructor; done).
  revert o. by apply Forall_forall.
Qed.

Lemma apply_kind ev m s m' :
  is_terminal (state_ m) = false -> apply ev m = (s, m') ->
  state_ m' = next s /\ is_terminal (next s) = bool_decide (effect s = E_Finish) /\
  (effect s = E_Continue -> next s = S_Planning).
Proof.
  intros Ht Ha. pose proof (apply_spec _ _ _ _ Ha) as (_ & Hs & Hn & He & _). split; [done|].
  rewrite Hn, He. apply (step_kind (state_ m) _ Ht (guarded_ends (plan_ m) (state_ m) ev (context_ m))).
Qed.

(** ** The invariant *)

(** How many updates were accepted, and how many finished, is counted. *)
Definition is_finished (o : Output) : bool :=
  match o with O_event (UpdateFinished _) => true | _ => false end.

Definition count (p : Output -> bool) (l : list Output) : nat := length (filter p l).

Lemma count_snoc (p : Output -> bool) l o :
  count p (l ++ [o]) = (count p l + if p o then 1 else 0)%nat.
Proof.
  unfold count. rewrite filter_app, length_app. f_equal. rewrite filter_cons.
  destruct (decide (p o)) as [Hd|Hd]; destruct (p o); naive_solver.
Qed.

#[local] Arguments count : simpl never.
#[local] Arguments acts : simpl never.
#[local] Arguments given : simpl never.

(** The update a machine is of: what [start] accepted and read. *)
Definition accepted (plan : FullPlan) (targets : list ImageTarget) (ts : list Target) : Prop :=
  validate targets plan = Success tt /\ read_targets targets = Success ts.

(** Between two inputs: the machine is where some events have brought the one
    [start] made, and the acts of the update are its trace. *)
Record tracks (u : Updater) : Prop := {
  tk_machine : forall m, machine_ u = Some m ->
    exists plan targets ts evs, given (log u) = Some (targets, plan) /\ accepted plan targets ts /\
      m = (run evs (new_machine ts (decided plan))).2 /\
      acts (log u) = trace plan (sources_of targets) evs (new_machine ts (decided plan)) /\
      (running_ u = true -> full_plan_ u = plan /\ sources_ u = sources_of targets) /\
      is_terminal (state_ m) = negb (running_ u);
  tk_finished : forall m, machine_ u = Some m -> running_ u = false ->
    last (acts (log u)) = Some (Said (UpdateFinished (outcome_of_update m)));
  tk_none : machine_ u = None -> running_ u = false /\ acts (log u) = [];
  tk_callback : on_event_ u = running_ u;
  tk_count : count is_started (log u) =
    (count is_finished (log u) + if running_ u then 1 else 0)%nat
}.

(** What may happen beside the machine: calls of the application during an
    update. *)
Record beside (u u' : Updater) : Prop := {
  be_plan : full_plan_ u' = full_plan_ u;
  be_sources : sources_ u' = sources_ u;
  be_callback : on_event_ u' = on_event_ u;
  be_upload : upload_ u' = upload_ u;
  be_machine : machine_ u' = machine_ u;
  be_running : running_ u' = running_ u;
  be_poll : last_poll_ u' = last_poll_ u;
  be_life : life_ u' = life_ u;
  be_outstanding : outstanding u' = outstanding u;
  be_issued : issued u' = issued u;
  be_given : given (log u') = given (log u);
  be_acts : acts (log u') = acts (log u);
  be_started : count is_started (log u') = count is_started (log u);
  be_finished : count is_finished (log u') = count is_finished (log u)
}.

#[local] Instance beside_preorder : PreOrder beside.
Proof. split; [by split|]. intros ? ? ? [] []. split; congruence. Qed.

(** An output that is no act. *)
Lemma beside_see o u :
  act_of o = [] -> is_started o = false -> is_finished o = false -> beside u (see o u).
Proof.
  intros Ha Hs Hf. split; try done; cbn.
  - by apply given_snoc.
  - by rewrite acts_snoc, Ha, app_nil_r.
  - by rewrite count_snoc, Hs, Nat.add_0_r.
  - by rewrite count_snoc, Hf, Nat.add_0_r.
Qed.

Lemma beside_post ev u : beside u (post ev u).
Proof. by split. Qed.

Lemma beside_stop u : beside u (stop_upload u).
Proof. unfold stop_upload. destruct (upload_valid _); [by apply beside_see|done]. Qed.

Definition not_start (c : Command) : Prop := match c with C_start _ _ _ => False | _ => True end.

(** During an update no call of the application touches it. *)
Lemma exec_beside u c : running_ u = true \/ not_start c -> beside u (exec u c).
Proof.
  intros Hr. destruct c as [targets plan on_event| | |e|]; cbn [exec].
  - destruct Hr as [Hr|[]]. unfold start. rewrite Hr. by apply beside_see.
  - unfold confirm. case_bool_decide; [by apply beside_see|].
    transitivity (post (plain K_ConfirmApproved) u); [apply beside_post|by apply beside_see].
  - unfold resume_after_reconnect. case_bool_decide; [by apply beside_see|].
    transitivity (post (plain K_Reconnected) u); [apply beside_post|by apply beside_see].
  - unfold reconnect_failed. destruct (running_ u); [apply beside_post|done].
  - unfold cancel. destruct (running_ u); [|done]. cbn [negb].
    transitivity (stop_upload u); [apply beside_stop|apply beside_post].
Qed.

Lemma execs_beside cs u : running_ u = true \/ Forall not_start cs -> beside u (foldl exec u cs).
Proof.
  revert u. induction cs as [|c cs IH]; intros u Hr; cbn [foldl]; [done|].
  assert (beside u (exec u c)) as Hb
    by (apply exec_beside; destruct Hr as [?|Hcs]; [by left|right; by inversion Hcs]).
  transitivity (exec u c); [done|]. apply IH. rewrite (be_running _ _ Hb).
  destruct Hr as [?|Hcs]; [by left|right; by inversion Hcs].
Qed.

Lemma tracks_beside u u' : beside u u' -> tracks u -> tracks u'.
Proof.
  intros [] [Hm Hf Hn Hc Hk].
  split; try congruence.
  - intros m. rewrite be_machine0, be_given0, be_acts0, be_running0, be_plan0, be_sources0. apply Hm.
  - intros m. rewrite be_machine0, be_acts0, be_running0. apply Hf.
  - rewrite be_machine0, be_acts0, be_running0. apply Hn.
  - by rewrite be_started0, be_finished0, be_running0.
Qed.

(** More acts of the same update, none of them its end. *)
Record adds (l : list Act) (u u' : Updater) : Prop := {
  ad_plan : full_plan_ u' = full_plan_ u;
  ad_sources : sources_ u' = sources_ u;
  ad_callback : on_event_ u' = on_event_ u;
  ad_machine : machine_ u' = machine_ u;
  ad_running : running_ u' = running_ u;
  ad_poll : last_poll_ u' = last_poll_ u;
  ad_given : given (log u') = given (log u);
  ad_acts : acts (log u') = acts (log u) ++ l;
  ad_started : count is_started (log u') = count is_started (log u);
  ad_finished : count is_finished (log u') = count is_finished (log u)
}.

Lemma adds_beside u u' : beside u u' -> adds [] u u'.
Proof. intros []. split; try done. by rewrite app_nil_r. Qed.

Lemma adds_trans l l' u u' u'' : adds l u u' -> adds l' u' u'' -> adds (l ++ l') u u''.
Proof. intros [] []. split; try congruence. rewrite ad_acts1, ad_acts0. by rewrite app_assoc. Qed.

Lemma adds_see o u : is_started o = false -> is_finished o = false -> adds (act_of o) u (see o u).
Proof.
  intros Ho Hf. split; try done; cbn.
  - by apply given_snoc.
  - by apply acts_snoc.
  - by rewrite count_snoc, Ho, Nat.add_0_r.
  - by rewrite count_snoc, Hf, Nat.add_0_r.
Qed.

Lemma adds_ask q u : adds (act_of (O_request q)) u (ask q u).
Proof.
  split; try done; cbn.
  - by apply given_snoc.
  - by apply acts_snoc.
  - rewrite count_snoc. by rewrite Nat.add_0_r.
  - rewrite count_snoc. by rewrite Nat.add_0_r.
Qed.

Section updater.
Context (react : list Output -> list Command).

(** An application that starts the next update only once the last one's callback
    has returned. *)
Definition restarts_later : Prop :=
  forall h r, Forall not_start (react (h ++ [O_event (UpdateFinished r)])).

(** An event of a running update. *)
Lemma emit_beside e u :
  running_ u = true -> on_event_ u = true -> beside (see (O_event e) u) (emit react e u).
Proof. intros Hr Ho. unfold emit. rewrite Ho. apply execs_beside. by left. Qed.

Lemma emit_finished_beside r u :
  restarts_later -> on_event_ u = true ->
  beside (see (O_event (UpdateFinished r)) u) (emit react (UpdateFinished r) u).
Proof. intros Hl Ho. unfold emit. rewrite Ho. apply execs_beside. right. apply Hl. Qed.

Lemma emit_adds e u :
  running_ u = true -> on_event_ u = true -> is_finished (O_event e) = false ->
  adds (act_of (O_event e)) u (emit react e u).
Proof.
  intros Hr Ho Hf. rewrite <- (app_nil_r (act_of _)). eapply adds_trans; [by apply adds_see|].
  by apply adds_beside, emit_beside.
Qed.

Lemma announce_adds previous next u :
  running_ u = true -> on_event_ u = true ->
  adds (if bool_decide (next = previous) then [] else [Said (UpdateStateChanged previous next)]) u
    (announce react previous next u).
Proof.
  intros Hr Ho. unfold announce. case_bool_decide; [by apply adds_beside|].
  by apply (emit_adds (UpdateStateChanged previous next)).
Qed.

(** A step that does not end the update. *)
Lemma carry_out_adds s m w u :
  running_ u = true -> on_event_ u = true -> effect s <> E_Finish ->
  adds (effect_acts (full_plan_ u) (sources_ u) s m) u (carry_out react s w u).
Proof.
  intros Hr Ho Hf. unfold carry_out, effect_acts. destruct (effect s); try done;
    try (by apply adds_beside);
    try match goal with
        | |- adds _ _ (ask ?q _) => exact (adds_ask q u)
        | |- adds _ _ (emit _ ?e _) => exact (emit_adds e u Hr Ho eq_refl)
        end.
  unfold start_upload. cbn zeta. fold (source_at (sources_ u) (st_target s) (st_build s)).
  destruct (source_at _ _ _) as [source|]; [|by apply (adds_see O_undefined)].
  destruct (adds_ask (Q_upload source (options_for (full_plan_ u) s)) u). by split.
Qed.

(** In the middle of a dispatch: the machine has taken its last event, and the
    acts are those of all before it. *)
Record midway (plan : FullPlan) (targets : list ImageTarget) (ts : list Target) (evs : list Event)
    (ev : Event) (s : Step) (u : Updater) : Prop := {
  mw_given : given (log u) = Some (targets, plan);
  mw_accepted : accepted plan targets ts;
  mw_live : is_terminal (state_ (run evs (new_machine ts (decided plan))).2) = false;
  mw_step : exists m', apply ev (run evs (new_machine ts (decided plan))).2 = (s, m') /\
    machine_ u = Some m';
  mw_acts : acts (log u) = trace plan (sources_of targets) evs (new_machine ts (decided plan));
  mw_plan : full_plan_ u = plan;
  mw_sources : sources_ u = sources_of targets;
  mw_running : running_ u = true;
  mw_callback : on_event_ u = true;
  mw_count : count is_started (log u) = S (count is_finished (log u))
}.

(** The machine's last step carried out, when it does not ask to go on. *)
Lemma settle plan targets ts evs ev s w u :
  restarts_later -> midway plan targets ts evs ev s u -> effect s <> E_Continue ->
  tracks (carry_out react s w
    (announce react (state_ (run evs (new_machine ts (decided plan))).2) (next s) u)).
Proof.
  intros Hl [Hgiven Hacc Hlive (m' & Ha & Hm) Hacts Hp Hs Hr Ho Hc] He.
  set (m := (run evs (new_machine ts (decided plan))).2) in *.
  destruct (apply_kind _ _ _ _ Hlive Ha) as (Hst & Hterm & _).
  pose proof (announce_adds (state_ m) (next s) u Hr Ho) as Han.
  set (u1 := announce _ _ _ _) in *. destruct Han as [Hp1 Hs1 Ho1 Hm1 Hr1 Ht1 Hg1 Ha1 Hc1 Hf1].
  assert (exists plan targets ts evs, given (log u1) = Some (targets, plan) /\ accepted plan targets ts /\
    m' = (run evs (new_machine ts (decided plan))).2 /\
    acts (log u1) ++ effect_acts plan (sources_of targets) s m' =
      trace plan (sources_of targets) evs (new_machine ts (decided plan)) /\
    full_plan_ u1 = plan /\ sources_ u1 = sources_of targets) as Hmach.
  { exists plan, targets, ts, (evs ++ [ev]). split_and!; try congruence.
    - rewrite run_snoc. fold m. destruct (run evs _) as [ss m0] eqn:E. subst m. cbn [snd] in *. by rewrite Ha.
    - rewrite trace_snoc. fold m. rewrite Ha, Ha1, Hacts. unfold step_acts. by rewrite app_assoc. }
  destruct (decide (effect s = E_Finish)) as [Hfin|Hfin].
  - rewrite bool_decide_eq_true_2 in Hterm by done. unfold carry_out. rewrite Hfin. unfold finish. cbn zeta.
    assert (exists u2, u2 = set_running_ false u1) as [u2 Hu2] by eauto. rewrite <- Hu2. set (r := if bool_decide _ then _ else _).
    assert (r = outcome_of_update m') as Hr'.
    { subst r u2. unfold outcome_of_update, state, updater_report. cbn. by rewrite Hm1, Hm. }
    clearbody r. subst r.
    assert (on_event_ u2 = true) as Ho2 by (subst u2; cbn; congruence).
    destruct (emit_finished_beside (outcome_of_update m') u2 Hl Ho2) as [].
    subst u2. cbn in *. split; cbn; try done.
    + intros m0. rewrite be_machine0. cbn. rewrite Hm1, Hm. intros [= <-].
      destruct Hmach as (plan' & targets' & ts' & evs' & ? & ? & ? & Htr & ? & ?).
      exists plan', targets', ts', evs'. split_and!; try done.
      * rewrite be_given0. cbn. by rewrite given_snoc.
      * rewrite be_acts0. cbn. rewrite acts_snoc by done. rewrite <- Htr. unfold effect_acts. by rewrite Hfin.
      * by rewrite be_running0.
      * rewrite be_running0. cbn. by rewrite Hst.
    + intros m0. rewrite be_machine0. cbn. rewrite Hm1, Hm. intros [= <-] _.
      rewrite be_acts0. cbn. rewrite acts_snoc by done. cbn. by rewrite last_snoc.
    + rewrite be_machine0. cbn. by rewrite Hm1, Hm.
    + rewrite be_started0, be_finished0, be_running0. cbn. rewrite !count_snoc. cbn. lia.
  - pose proof (carry_out_adds s m' w u1 ltac:(congruence) ltac:(congruence) Hfin) as [].
    split; try congruence.
    + intros m0. rewrite ad_machine0, Hm1, Hm. intros [= <-].
      destruct Hmach as (plan' & targets' & ts' & evs' & ? & ? & ? & Htr & Hpl & Hsr).
      exists plan', targets', ts', evs'. split_and!; try done.
      * by rewrite ad_given0.
      * rewrite ad_acts0, <- Htr. by rewrite Hpl, Hsr.
      * intros _. split; congruence.
      * rewrite ad_running0, Hr1, Hr, Hst, Hterm. by rewrite bool_decide_eq_false_2.
    + rewrite ad_started0, ad_finished0, ad_running0, Hr1, Hr, Hc1, Hf1, Hc. lia.
Qed.

(** An accepted update has targets. *)
Lemma accepted_nonempty plan targets ts : accepted plan targets ts -> ts <> [].
Proof.
  intros [Hv Hr] ->. destruct targets as [|t targets]; [done|]. cbn in Hr.
  destruct (read_image_target t); [|done]. cbn in Hr. by destruct (read_targets targets).
Qed.

(** An event handed to the machine: the dispatch returns, having taken the
    machine one or two events further and done what its steps ask. *)
Lemma dispatch_tracks ev w u :
  restarts_later -> tracks u -> exists u', dispatch react ev w u = Some u' /\ tracks u'.
Proof.
  intros Hl Ht. pose proof Ht as [Htm _ Htn Htc Htk]. unfold dispatch.
  destruct (running_ u) eqn:Hr; [|by eauto]. destruct (machine_ u) as [m|] eqn:Hm; [|by eauto].
  destruct (Htm m eq_refl) as (plan & targets & ts & evs & Hgiven & Hacc & -> & Hacts & Hsame & Hlive).
  destruct (Hsame eq_refl) as [Hp Hs]. cbn in Hlive.
  destruct (apply _ _) as [s m'] eqn:Ha.
  assert (midway plan targets ts evs (stamp (last_poll_ u) ev) s (set_machine_ (Some m') u)) as Hmid
    by (split; eauto; cbn; by rewrite Htk, Nat.add_1_r).
  unfold dispatch_fuel. cbn [dispatch_loop]. case_bool_decide as He; cbn beta.
  { eexists. split; [done|]. by eapply settle. }
  destruct (apply_kind _ _ _ _ Hlive Ha) as (Hst & Hterm & Hplan).
  rewrite (bool_decide_eq_false_2 (effect s = E_Finish)) in Hterm by congruence.
  pose proof (announce_adds (state_ (run evs (new_machine ts (decided plan))).2) (next s)
                (set_machine_ (Some m') u) Hr Htc) as Han.
  set (u1 := announce _ _ _ _) in *. clearbody u1. destruct Han.
  cbn in *. rewrite ad_machine0. destruct (apply _ m') as [s' m''] eqn:Ha'.
  assert ((run (evs ++ [stamp (last_poll_ u) ev]) (new_machine ts (decided plan))).2 = m') as Hrun.
  { rewrite run_snoc. destruct (run evs _) as [ss m0]. cbn [snd] in Ha. by rewrite Ha. }
  rewrite <- Hrun in Hst, Ha'.
  destruct (apply_kind _ _ _ _ ltac:(by rewrite Hst) Ha') as (Hst' & Hterm' & Hplan').
  assert (effect s' <> E_Continue) as He'.
  { intros Hc. pose proof (Hplan' Hc) as Hn.
    destruct (run (evs ++ _) (new_machine ts (decided plan))) as [ss m1] eqn:E. cbn [snd] in *.
    eapply (planning_progresses ts (decided plan) _ _ _ _ m'' s'); [by eapply accepted_nonempty|done| | |done|].
    - rewrite Hst. by apply Hplan.
    - done.
    - by rewrite Hst'. }
  rewrite bool_decide_eq_true_2 by done. eexists. split; [done|].
  enough (midway plan targets ts (evs ++ [stamp (last_poll_ u) ev]) (stamp (last_poll_ u1) (plain K_Continue)) s'
            (set_machine_ (Some m'') u1)) as Hmid'.
  { pose proof (settle _ _ _ _ _ _ w _ Hl Hmid' He') as Hset. by rewrite Hst in Hset. }
  split; try done; try congruence.
  - cbn. by rewrite ad_given0.
  - by exists m''.
  - cbn. rewrite ad_acts0, Hacts, trace_snoc, Ha. unfold step_acts, effect_acts. by rewrite He, app_nil_r.
  - cbn. by rewrite ad_plan0.
  - cbn. by rewrite ad_sources0.
  - cbn. by rewrite ad_running0.
  - cbn. by rewrite ad_callback0.
  - cbn. rewrite ad_started0, ad_finished0, Htk. lia.
Qed.

(** Only these members matter. *)
Lemma tracks_same u u' :
  tracks u -> full_plan_ u' = full_plan_ u -> sources_ u' = sources_ u -> on_event_ u' = on_event_ u ->
  machine_ u' = machine_ u -> running_ u' = running_ u -> log u' = log u -> tracks u'.
Proof. intros [Hm Hf Hn Hc Hk] Hp Hs Ho Hma Hr Hlog. split; rewrite ?Hp, ?Hs, ?Ho, ?Hma, ?Hr, ?Hlog; done. Qed.

(** An accepted [start] begins a new trace. *)
Lemma tracks_start targets plan on_event u : tracks u -> tracks (exec u (C_start targets plan on_event)).
Proof.
  intros Ht. pose proof Ht as [_ _ _ _ Htk]. cbn [exec]. unfold start.
  destruct (running_ u) eqn:Hr; [by eapply tracks_beside; [apply beside_see|]|].
  destruct on_event; [|by eapply tracks_beside; [apply beside_see|]]. cbn [negb].
  destruct (validate targets plan) as [[]|e] eqn:Hv; [|by eapply tracks_beside; [apply beside_see|]].
  destruct (read_targets targets) as [ts|e] eqn:Hts; [|by eapply tracks_beside; [apply beside_see|]].
  split; cbn; try done.
  - intros m [= <-]. exists plan, targets, ts, []. split_and!; try done.
    + unfold given. by rewrite foldl_snoc.
    + unfold acts. by rewrite foldl_snoc.
  - rewrite !count_snoc. cbn. lia.
Qed.

Lemma tracks_exec c u : tracks u -> tracks (exec u c).
Proof.
  intros Ht. destruct c; [by apply tracks_start|..];
    (eapply tracks_beside; [apply exec_beside; by right|done]).
Qed.

(** Every input is served, and keeps the updater on its machine's track. *)
Lemma input_tracks wi u :
  restarts_later -> tracks u -> exists u', input_step react wi u = Some u' /\ tracks u'.
Proof.
  intros Hl Ht. destruct wi as [w i]. cbn [input_step]. destruct (life_ u); cbn [negb]; [|by eauto].
  destruct i as [c|now| |n a|p|].
  - eexists. split; [done|]. by apply tracks_exec.
  - assert (tracks (set_last_poll_ now u)) as Ht' by by eapply tracks_same.
    unfold poll. cbn zeta. repeat case_match; eauto using dispatch_tracks.
  - destruct (posted u) as [|ev evs]; [by eauto|]. apply dispatch_tracks; [done|]. by eapply tracks_same.
  - destruct (List.find _ _) as [[k q]|]; [|by eauto].
    assert (tracks (set_outstanding (filter (fun p => p.1 <> n) (outstanding u)) u)) as Ht' by by eapply tracks_same.
    destruct (answer_event _ _ _ _); eauto using dispatch_tracks.
  - eexists. split; [done|]. destruct (on_event_ u) eqn:Ho.
    + assert (running_ u = true) as Hr by by rewrite <- (tk_callback _ Ht).
      eapply tracks_beside; [|exact Ht]. transitivity (see (O_event (UploadProgressed p)) u).
      * by apply beside_see.
      * by apply emit_beside.
    + unfold emit. by rewrite Ho.
  - unfold abandon. destruct (running_ u) eqn:Hr; cbn [negb].
    + destruct (dispatch_tracks (plain K_Cancel) w (stop_upload u)) as (u' & -> & Ht'); [done| |].
      { eapply tracks_beside; [apply beside_stop|done]. }
      cbn. eexists. split; [done|]. by eapply tracks_same.
    + cbn. eexists. split; [done|]. by eapply tracks_same.
Qed.

Lemma tracks_new : tracks new_updater.
Proof. by split. Qed.

Lemma runs_track is_ u :
  restarts_later -> tracks u -> exists u', run_inputs react is_ u = Some u' /\ tracks u'.
Proof.
  intros Hl. revert u. induction is_ as [|i is_ IH]; intros u Ht; cbn [run_inputs]; [by eauto|].
  destruct (input_tracks i u Hl Ht) as (u' & -> & Ht'). by apply IH.
Qed.

End updater.

(** ** The files of an update *)

Lemma read_targets_lookup targets ts k t :
  read_targets targets = Success ts -> ts !! k = Some t ->
  exists x, targets !! k = Some x /\ t_image t = it_image x /\ it_source x <> None /\
    (t_builds t <> None -> it_secondary_source x <> None).
Proof.
  revert ts k. induction targets as [|x targets IH]; intros ts k; cbn [read_targets].
  { by intros [= <-]. }
  destruct (read_image_target x) as [t0|e] eqn:Hx; [|done]. cbn.
  destruct (read_targets targets) as [ts0|e]; [|done]. intros [= <-]. destruct k as [|k]; [|intros Ht; by apply (IH ts0 k)].
  intros [= <-]. exists x. split; [done|]. unfold read_image_target in Hx.
  destruct (it_source x) as [source|]; [|done]. destruct (read_target source) as [[h v]|e]; [|done].
  cbn in Hx. destruct (it_secondary_source x) as [source'|].
  - destruct (read_target source') as [[h' v']|e]; [|done]. by injection Hx as <-.
  - by injection Hx as <-.
Qed.

(** What a step asks for is defined, and an upload sends a file of the target it
    is for. *)
Definition defined_act (targets : list ImageTarget) (a : Act) : Prop :=
  match a with
  | Broke => False
  | Did (Q_upload source options) =>
      exists x, x ∈ targets /\ uo_image options = it_image x /\
        (it_source x = Some source \/ it_secondary_source x = Some source)
  | _ => True
  end.

Lemma trace_defined plan targets ts evs :
  accepted plan targets ts ->
  Forall (defined_act targets) (trace plan (sources_of targets) evs (new_machine ts (decided plan))).
Proof.
  intros [_ Hts]. induction evs as [|ev evs IH] using rev_ind; [done|].
  rewrite trace_snoc. apply Forall_app. split; [done|].
  destruct (run evs _) as [ss m] eqn:Hr. cbn [snd]. destruct (apply ev m) as [s m'] eqn:Ha.
  unfold step_acts. apply Forall_app. split; [case_bool_decide; by repeat constructor|].
  unfold effect_acts. destruct (effect s) eqn:He; try (by repeat constructor).
  destruct (upload_step_file _ _ _ _ _ _ _ _ Hr Ha He) as (t & Ht & Him & Hb).
  destruct (read_targets_lookup _ _ _ _ Hts Ht) as (x & Hx & Himx & Hsrc & Hsec).
  unfold source_at, sources_of. rewrite list_lookup_fmap, Hx. cbn.
  assert (x ∈ targets) as Hin by by eapply list_elem_of_lookup_2.
  destruct Hb as [Hb|[Hb Hbs]]; rewrite Hb.
  - destruct (it_source x) as [source|] eqn:Hs; [|done]. repeat constructor. exists x. cbn. split_and!; [done|congruence|auto].
  - destruct (it_secondary_source x) as [source|] eqn:Hs; [|by destruct Hsec]. repeat constructor.
    exists x. cbn. split_and!; [done|congruence|auto].
Qed.

(** ** A sample update

    One signed image, tested and then confirmed, on a device that swaps; the
    application answers the two events that ask for a call. *)

Definition sample_app (h : list Output) : list Command :=
  match last h with
  | Some (O_event (ReconnectRequired _)) => [C_resume_after_reconnect]
  | Some (O_event ConfirmationRequired) => [C_confirm]
  | _ => []
  end.

Lemma sample_app_restarts_later : restarts_later sample_app.
Proof. intros h r. unfold sample_app. rewrite last_snoc. constructor. Qed.

Definition sample_source : ImageSource := MemoryImageSource sample_file.

Definition sample_targets : list ImageTarget := [mkImageTarget 0 (Some sample_source) Client None].

Definition sample_full_plan : FullPlan := mkFullPlan default_plan no_options 3000.

Definition up : World := mkWorld true (mkUploadHandle 1) (fun _ => false).
Definition down : World := mkWorld false no_upload (fun _ => false).

Definition table_answer (l : list ImageSlot) : Answer := A_table (Success (mkImageState l None)).

Definition sample_inputs : list (World * Input) :=
  [(up, I_command (C_start sample_targets sample_full_plan true)); (up, I_posted);
   (up, I_answer 0 (A_parameters (Success (mkParameters 512 4))));
   (up, I_answer 1 (A_bootloader (Success (mkBootloaderMode M_SwapUsingMove 4 false))));
   (up, I_answer 2 (table_answer [slot_of 0 old_hash false true true]));
   (up, I_progress (mkProgress 10 20));
   (up, I_answer 3 (A_upload (Success (mkUploadResult 20 false None))));
   (up, I_answer 4 (table_answer [slot_of 0 old_hash false true true; slot_of 1 sample_hash false false false]));
   (up, I_answer 5 (table_answer [slot_of 0 old_hash false true true; slot_of 1 sample_hash true false false]));
   (up, I_answer 6 (A_reset (Success tt))); (down, I_poll 100); (up, I_posted);
   (up, I_answer 7 (table_answer [slot_of 0 sample_hash false false true; slot_of 1 old_hash false true false]));
   (up, I_posted);
   (up, I_answer 8 (table_answer [slot_of 0 sample_hash false true true; slot_of 1 old_hash false false false]));
   (up, I_answer 9 (table_answer [slot_of 0 sample_hash false true true; slot_of 1 old_hash false false false]))].

Example sample_update_completes :
  state <$> run_inputs sample_app sample_inputs new_updater = Some S_Completed.
Proof. vm_compute. reflexivity. Qed.

(** ** Theorems *)







(** ** What an application can run into *)

Definition quiet (h : list Output) : list Command := [].

(** An application that answers [UpdateFinished] with the next [start]. *)
Definition restarter (h : list Output) : list Command :=
  match last h with
  | Some (O_event (UpdateFinished _)) => [C_start sample_targets sample_full_plan true]
  | _ => []
  end.

Definition begin_update : list (World * Input) :=
  [(up, I_command (C_start sample_targets sample_full_plan true)); (up, I_posted)].

Definition cancel_update : list (World * Input) := [(up, I_command C_cancel); (up, I_posted)].

(** [start] from inside [UpdateFinished] is accepted, and then [finish] drops
    the callback and the sources of the update just accepted: it runs without a
    single event, and the upload it comes to reads past the end of [sources_]. *)
Lemma restart_inside_finished_is_lost :
  exists u,
    run_inputs restarter
      (begin_update ++ cancel_update ++
       [(up, I_posted); (up, I_answer 1 (A_parameters (Success (mkParameters 512 4))));
        (up, I_answer 2 (A_bootloader (Success (mkBootloaderMode M_SwapUsingMove 4 false))));
        (up, I_answer 3 (table_answer [slot_of 0 old_hash false true true]))]) new_updater = Some u /\
    count is_started (log u) = 2%nat /\ count is_finished (log u) = 1%nat /\
    running_ u = true /\ state u = S_Uploading /\
    acts (log u) = [Did Q_parameters; Did Q_bootloader; Did Q_state; Broke].
Proof. eexists. split; [vm_compute; reflexivity|]. vm_compute. done. Qed.

(** The answer to a request of a cancelled update is taken for the next update's:
    its own answer then finds the machine a state further and fails it. *)
Lemma stale_answer_fails_next_update :
  exists u,
    run_inputs quiet
      (begin_update ++ cancel_update ++ begin_update ++
       [(up, I_answer 0 (A_parameters (Success (mkParameters 512 4))));
        (up, I_answer 1 (A_parameters (Success (mkParameters 512 4))))]) new_updater = Some u /\
    state u = S_Failed /\ code <$> rp_cause (updater_report u) = Some Internal.
Proof. eexists. split; [vm_compute; reflexivity|]. vm_compute. done. Qed.

(** A second [resume_after_reconnect] before the next poll is accepted like the
    first, and fails the update. *)
Lemma second_resume_fails_update :
  exists u,
    run_inputs quiet
      (take 11 sample_inputs ++
       [(up, I_command C_resume_after_reconnect); (up, I_command C_resume_after_reconnect);
        (up, I_posted); (up, I_posted)]) new_updater = Some u /\
    state u = S_Failed /\ code <$> rp_cause (updater_report u) = Some Internal.
Proof. eexists. split; [vm_compute; reflexivity|]. vm_compute. done. Qed.

(** [cancel] while a file is being sent stops the upload first; its completion
    reaches the machine before the event [cancel] posted, as a failure like any
    other, so the update ends in [Failed]. *)
Lemma cancel_while_uploading_fails :
  exists u,
    run_inputs quiet
      (take 5 sample_inputs ++
       [(up, I_command C_cancel); (up, I_answer 3 (A_upload (fail Cancelled "client: request cancelled")));
        (up, I_posted)]) new_updater = Some u /\
    O_cancel_upload (mkUploadHandle 1) ∈ log u /\
    state u = S_Failed /\ code <$> rp_cause (updater_report u) = Some Cancelled.
Proof.
  eexists. split; [vm_compute; reflexivity|]. split; [|by vm_compute].
  cbn [log]. repeat (apply list_elem_of_here || apply list_elem_of_further).
Qed.
