(* ===== verification/Console.v ===== *)
(** * What the tools print

    An error as text ([src/core.cpp]) and the console of the update command
    ([support/dfu_app/console_report.cpp], [bootloader_mode.hpp], [printable.cpp]
    and the output of [update_command.cpp]): the lines for an error, an event and
    the end of an update. The text of an error can come from the device or from a
    package; [printable] stands between it and the terminal. A console is what it
    was made with; what a call prints is the pair of what goes to the output
    stream and what goes to the error stream. *)

From S2P Require Import Prelude Errors ImageValues UpdateTypes StoredZip McubootImage GroupCodecs UploadDriver UpdateMachine FirmwareUpdater.

(** ** An error as text *)

(** The digits [append_number] puts into its buffer, the last first; [None] is
    the buffer's [at] throwing. *)
Fixpoint number_digits (room : nat) (value : Z) : option bytes :=
  match room with
  | O => None
  | S room =>
      if value / 10 =? 0 then Some [48 + value mod 10]
      else
        let! ds := number_digits room (value / 10) in
        Some (48 + value mod 10 :: ds)
  end.

(** [append_number]. *)
Definition append_number (out : bytes) (value : Z) : option bytes :=
  let! ds := number_digits 20 value in
  Some (out ++ rev ds).

(** [group_name]. *)
Definition group_name (group : Group) : string :=
  match group with
  | 0 => "os" | 1 => "image" | 2 => "stat" | 3 => "settings" | 4 => "log" | 5 => "crash" | 6 => "split"
  | 7 => "run" | 8 => "fs" | 9 => "shell" | 10 => "enumeration" | 11 => "transport" | 63 => "zephyr-basic"
  | 64 => "per-user" | _ => "unknown"
  end%string.

(** [to_string(ErrorCode)]. *)
Definition code_name (c : ErrorCode) : string :=
  match c with
  | Ok => "ok"
  | InvalidArgument => "invalid argument"
  | InvalidState => "invalid state"
  | MalformedMessage => "malformed SMP message"
  | UnsupportedSmpVersion => "unsupported SMP version"
  | MessageTooLarge => "message too large"
  | CborEncode => "CBOR encode failed"
  | CborDecode => "CBOR decode failed"
  | ProtocolError => "MCUmgr protocol error"
  | UnexpectedResponse => "unexpected response"
  | Timeout => "timed out"
  | Cancelled => "cancelled"
  | TransportError => "transport error"
  | TransportBusy => "transport busy"
  | Disconnected => "disconnected"
  | ImageMismatch => "image mismatch"
  | UpdateFailed => "firmware update failed"
  | UpdateRefused => "firmware update refused"
  | Internal => "internal error"
  end%string.

(** [std::to_string(int)]. *)
Definition to_string_i (n : Z) : string := if n <? 0 then "-" +:+ to_string_u (- n) else to_string_u n.

(** [to_string(McubootMode)], of [os_management.cpp]. *)
Definition mode_name (m : McubootMode) : string :=
  match m with
  | M_Unknown => "unknown"
  | M_SingleSlot => "single-slot"
  | M_SwapUsingScratch => "swap-using-scratch"
  | M_UpgradeOnly => "upgrade-only"
  | M_SwapUsingMove => "swap-using-move"
  | M_DirectXip => "direct-xip"
  | M_DirectXipWithRevert => "direct-xip-with-revert"
  | M_RamLoad => "ram-load"
  | M_FirmwareLoader => "firmware-loader"
  | M_SingleSlotRamLoad => "single-slot-ram-load"
  | M_SwapUsingOffset => "swap-using-offset"
  end%string.

(** [to_string(UpdateState)], of [firmware_updater.cpp]. *)
Definition state_name (s : UpdateState) : string :=
  match s with
  | S_Idle => "Idle"
  | S_QueryingParameters => "QueryingParameters"
  | S_QueryingBootloader => "QueryingBootloader"
  | S_InspectingImages => "InspectingImages"
  | S_Planning => "Planning"
  | S_Uploading => "Uploading"
  | S_VerifyingUpload => "VerifyingUpload"
  | S_MarkingForTest => "MarkingForTest"
  | S_Resetting => "Resetting"
  | S_AwaitingDisconnect => "AwaitingDisconnect"
  | S_AwaitingReconnect => "AwaitingReconnect"
  | S_VerifyingBooted => "VerifyingBooted"
  | S_AwaitingDeviceApply => "AwaitingDeviceApply"
  | S_AwaitingConfirmation => "AwaitingConfirmation"
  | S_Confirming => "Confirming"
  | S_VerifyingConfirmed => "VerifyingConfirmed"
  | S_AwaitingDeviceCommit => "AwaitingDeviceCommit"
  | S_Completed => "Completed"
  | S_Failed => "Failed"
  | S_Cancelled => "Cancelled"
  end%string.

(** ** [printable] *)

(** The lambda [escape]. *)
Definition hex_char (digit : Z) : Z := if digit <? 10 then 48 + digit else 55 + digit.

Definition escape (byte : Z) : bytes :=
  [92; 120; hex_char (Z.land (Z.shiftr byte 4) 15); hex_char (Z.land byte 15)].

(** A byte that is not the first of a C1 character. *)
Definition shown (byte : Z) : bytes := if (byte <? 32) || (byte =? 127) then escape byte else [byte].

(** [printable]. *)
Fixpoint printable (text : bytes) : bytes :=
  match text with
  | [] => []
  | byte :: rest =>
      match rest with
      | next :: rest' =>
          if (byte =? 0xC2) && (0x80 <=? next) && (next <=? 0x9F)
          then escape byte ++ escape next ++ printable rest'
          else shown byte ++ printable rest
      | [] => shown byte
      end
  end.

(** ** The console *)

Section console.

(** [std::error_code::message], the platform's. *)
Context (os_message : string * Z -> bytes).

(** [to_string(Error)]. *)
Definition error_text (e : Error) : option bytes :=
  let out := chars (code_name (code e)) in
  let! out :=
    match mgmt e with
    | None => Some out
    | Some m =>
        let! out :=
          if me_group_scoped m
          then append_number (out ++ chars " [" ++ chars (group_name (me_group m)) ++ chars " rc=") (me_rc m)
          else append_number (out ++ chars " [smp rc=") (me_rc m) in
        Some (out ++ chars "]")
    end in
  let out := if bool_decide (reason e = ""%string) then out else out ++ chars ": " ++ chars (reason e) in
  let '(category, value) := os_error e in
  let out :=
    if value =? 0 then out
    else out ++ chars " [os: " ++ chars category ++ chars ":" ++ chars (to_string_i value) ++ chars " "
           ++ os_message (os_error e) ++ chars "]" in
  Some (match where_ e with Some w => out ++ chars " (at " ++ chars w ++ chars ")" | None => out end).

(** [UpdateConsole]. What [stamped_from_] makes of the clock, the milliseconds
    since [stamp_lines], is the argument [stamp] of the calls. *)
Record UpdateConsole := mkConsole {
  tool_ : string;
  quiet_ : bool
}.

Definition nl : bytes := [10].

(** [UpdateConsole::error]. *)
Definition console_error (c : UpdateConsole) (context : option bytes) (e : Error) : option bytes :=
  let! text := error_text e in
  Some (chars (tool_ c) ++ chars ": "
        ++ match context with Some x => printable x ++ chars ": " | None => [] end
        ++ printable text ++ nl).

(** [UpdateConsole::prefix]. *)
Definition prefix (stamp : option Z) : bytes :=
  match stamp with
  | None => chars "  "
  | Some ms => chars "  [" ++ chars (to_string_i ms) ++ chars " ms] "
  end.

(** [UpdateConsole::event]. *)
Definition console_event (c : UpdateConsole) (stamp : option Z) (e : UpdateEvent) : bytes :=
  if quiet_ c then []
  else
    match e with
    | UpdateStateChanged _ to => prefix stamp ++ chars (state_name to) ++ nl
    | UploadProgressed p =>
        if pr_total p =? 0 then []
        else
          [13] ++ prefix stamp ++ chars "uploading " ++ chars (to_string_u (pr_transferred p)) ++ chars "/"
          ++ chars (to_string_u (pr_total p)) ++ chars " bytes"
          ++ (if pr_transferred p =? pr_total p then nl else [])
    | DisconnectExpected => prefix stamp ++ chars "the device is about to reboot" ++ nl
    | ReconnectRequired _ | ConfirmationRequired | UpdateFinished _ => []
    end.

(** [UpdateConsole::confirming]. *)
Definition confirming (c : UpdateConsole) (stamp : option Z) : bytes :=
  if quiet_ c then [] else prefix stamp ++ chars "the new image is running unconfirmed; confirming" ++ nl.

(** [describe] and [describe_mode]. *)
Definition source_name (s : ModeSource) : string :=
  match s with
  | Reported => "reported by the device"
  | Supplied => "not reported; the fallback was used"
  | Assumed => "not reported; assumed to swap with revert"
  end%string.

Definition describe_mode (r : UpdateReport) : bytes :=
  chars "bootloader: " ++ chars (mode_name (rp_bootloader_mode r)) ++ chars " (" ++ chars (source_name (rp_mode_source r)) ++ chars ")".

(** [device_image_state]. *)
Definition device_image_state (i : ImageReport) : string :=
  if ir_committed i then "committed" else if ir_applied i then "applied, not committed" else "not applied".

(** [print_images]. *)
Definition print_image (i : ImageReport) : bytes :=
  chars "  image " ++ chars (to_string_u (ir_image i)) ++ chars " ("
  ++ chars (if bool_decide (ir_commit i = Client) then "client" else "device") ++ chars "): "
  ++ (if bool_decide (ir_commit i = Device) then chars (device_image_state i)
      else if ir_rolled_back i then chars "reverted"
      else chars (to_string_u (ir_bytes_transferred i)) ++ chars " bytes transferred")
  ++ nl.

Definition print_images (r : UpdateReport) : bytes :=
  if (length (rp_images r) <? 2)%nat then [] else concat (print_image <$> rp_images r).

Definition pending_line (r : UpdateReport) : bytes :=
  if rp_revert_pending r
  then chars "  a swap is scheduled but unconfirmed: it will revert on the next reset" ++ nl else [].

(** [print_failure_details]. *)
Definition print_failure_details (r : UpdateReport) : bytes :=
  chars "  " ++ describe_mode r ++ nl ++ print_images r ++ pending_line r.

(** [UpdateConsole::finish]: the two streams, and what it returns. *)
Definition finish (c : UpdateConsole) (outcome : Result UpdateReport) (r : UpdateReport) : option (bytes * bytes * bool) :=
  match outcome with
  | Fail e =>
      let! text := error_text e in
      Some ([], chars (tool_ c) ++ chars ": update failed: " ++ printable text ++ nl ++ print_failure_details r, false)
  | Success done =>
      Some (chars "update " ++ chars (state_name (rp_final_state done)) ++ nl
            ++ chars "  bytes transferred: " ++ chars (to_string_u (rp_bytes_transferred done))
            ++ (if rp_upload_skipped done then chars " (the device already held this image)" else []) ++ nl
            ++ (if rp_rolled_back done then chars "  the device reverted to its previous image" ++ nl else [])
            ++ pending_line done
            ++ chars "  " ++ describe_mode done ++ nl ++ print_images done,
            [], bool_decide (rp_final_state done = S_Completed))
  end.
End console.

(** ** Text that does not drive the terminal *)

(** A control character of one byte, and the line breaks among them. *)
Definition control (b : Z) : bool := (b <? 32) || (b =? 127).
Definition line_break (b : Z) : bool := (b =? 10) || (b =? 13).

(** No control characters, neither C0 and DEL nor, in UTF-8, C1; line breaks
    only where they may be. *)
Fixpoint tame (breaks : bool) (text : bytes) : bool :=
  match text with
  | [] => true
  | b :: rest =>
      (negb (control b) || breaks && line_break b)
      && negb ((b =? 0xC2) && match rest with c :: _ => (0x80 <=? c) && (c <=? 0x9F) | [] => false end)
      && tame breaks rest
  end.

(** The tools' own words. *)
Definition own_char (breaks : bool) (b : Z) : Prop := 32 <= b < 127 \/ breaks = true /\ line_break b = true.
Definition own_words (breaks : bool) (text : bytes) : Prop := Forall (own_char breaks) text.

Lemma own_char_tame breaks b : own_char breaks b -> (negb (control b) || breaks && line_break b) = true /\ b < 127.
Proof.
  unfold own_char, control, line_break. intros [?|[-> Hb]].
  - rewrite (proj2 (Z.ltb_ge b 32)), (proj2 (Z.eqb_neq b 127)) by lia. split; [done|lia].
  - rewrite Hb. destruct (Z.eqb_spec b 10), (Z.eqb_spec b 13); try done; subst; by split.
Qed.

Lemma tame_own_app breaks a b : own_words breaks a -> tame breaks (a ++ b) = tame breaks b.
Proof.
  induction 1 as [|x a Hx Ha IH]; [done|]. cbn [app tame]. apply own_char_tame in Hx as [-> Hx].
  rewrite (proj2 (Z.eqb_neq x 0xC2)) by lia. cbn [andb negb]. apply IH.
Qed.

Lemma tame_app breaks a b :
  tame breaks a = true -> tame breaks b = true ->
  match b with c :: _ => (0x80 <=? c) && (c <=? 0x9F) = false | [] => True end -> tame breaks (a ++ b) = true.
Proof.
  intros Ha Hb Hc. induction a as [|x a IH]; [done|]. cbn [app tame] in *. rewrite !andb_true_iff in *.
  destruct Ha as [[Hx Hp] Ha]. split; [split; [done|]|by apply IH].
  destruct a as [|y a]; [|done]. cbn [app]. destruct b as [|y b]; [done|]. by rewrite Hc, andb_false_r.
Qed.

Lemma own_words_tame breaks a : own_words breaks a -> tame breaks a = true.
Proof. intros Ha. rewrite <- (app_nil_r a). by rewrite tame_own_app. Qed.

Lemma hex_char_own breaks d : 0 <= d <= 15 -> own_char breaks (hex_char d).
Proof. unfold own_char, hex_char. destruct (Z.ltb_spec d 10); lia. Qed.

Lemma escape_own breaks b : own_words breaks (escape b).
Proof.
  assert (forall x, 0 <= Z.land x 15 <= 15) as Hn.
  { intros x. change (Z.land x 15) with (Z.land x (Z.ones 4)). rewrite (Z.land_ones x 4) by lia. pose proof (Z.mod_pos_bound x (2 ^ 4) ltac:(lia)). lia. }
  unfold escape, own_words. rewrite !Forall_cons, Forall_nil. split_and!; try done; first [by apply hex_char_own|left; lia].
Qed.

(** [printable] on two bytes or more. *)
Lemma printable_cons b c rest :
  printable (b :: c :: rest) =
    if (b =? 0xC2) && (0x80 <=? c) && (c <=? 0x9F)
    then escape b ++ escape c ++ printable rest
    else shown b ++ printable (c :: rest).
Proof. done. Qed.

(** The byte it starts with is the one the text starts with, or the mark of an
    escape. *)
Lemma printable_head c rest : exists d more, printable (c :: rest) = d :: more /\ (d = c \/ d = 92).
Proof.
  assert (exists d more, shown c = d :: more /\ (d = c \/ d = 92)) as (d & more & E & Hd).
  { unfold shown. destruct (_ || _); [by eexists _, _; split; [|right]|by eexists _, _; split; [|left]]. }
  destruct rest as [|e rest]; [by exists d, more|]. rewrite printable_cons. destruct (_ && _ && _).
  - eexists _, _. split; [done|by right].
  - rewrite E. cbn [app]. by eexists _, _.
Qed.

Lemma printable_tame text : tame false (printable text) = true.
Proof.
  induction text as [text IH] using (induction_ltof1 _ (@length Z)). unfold ltof in IH.
  destruct text as [|b [|c rest]]; [done| |].
  - cbn [printable]. unfold shown. destruct ((b <? 32) || (b =? 127)) eqn:E; [apply own_words_tame, escape_own|].
    cbn [tame]. unfold control. rewrite E. cbn. by rewrite andb_false_r.
  - rewrite printable_cons. destruct ((b =? 0xC2) && (0x80 <=? c) && (c <=? 0x9F)) eqn:E1.
    { rewrite !tame_own_app by apply escape_own. apply IH. cbn. lia. }
    assert (tame false (printable (c :: rest)) = true) as Hr by (apply IH; cbn; lia).
    unfold shown. destruct ((b <? 32) || (b =? 127)) eqn:E2; [by rewrite tame_own_app by apply escape_own|].
    destruct (printable_head c rest) as (d & more & Hp & Hd). rewrite Hp in *. cbn [app].
    change (tame false (b :: d :: more)) with
      ((negb (control b) || false && line_break b) && negb ((b =? 0xC2) && ((0x80 <=? d) && (d <=? 0x9F))) && tame false (d :: more)).
    rewrite Hr. unfold control. rewrite E2. cbn [negb orb andb]. rewrite andb_true_r, negb_true_iff.
    destruct Hd as [-> | ->]; [by rewrite andb_assoc|]. change (0x80 <=? 92) with false. by rewrite andb_false_r.
Qed.

(** Text that drives nothing is kept. *)
Lemma printable_keeps text : tame false text = true -> printable text = text.
Proof.
  induction text as [|b text IH]; [done|]. cbn [tame]. rewrite !andb_true_iff, orb_false_r. intros [[Hb Hc] Ht].
  assert (shown b = [b]) as Hs by (unfold shown; change ((b <? 32) || (b =? 127)) with (control b); by destruct (control b)).
  destruct text as [|c text]; [by cbn [printable]|]. rewrite printable_cons, Hs, (IH Ht).
  rewrite negb_true_iff in Hc. rewrite <- andb_assoc, Hc. done.
Qed.

(** ** Numbers *)

Lemma chars_app a b : chars (a +:+ b) = chars a ++ chars b.
Proof. induction a as [|c a IH]; [done|]. change (String c a +:+ b) with (String c (a +:+ b)). cbn [chars app]. by rewrite IH. Qed.

Lemma chars_digit d acc : 0 <= d < 10 -> chars (String (digit_char d) acc) = (48 + d) :: chars acc.
Proof.
  intros Hd. cbn [chars]. f_equal. unfold digit_char. rewrite Ascii.N_ascii_embedding; [lia|]. apply N2Z.inj_lt. lia.
Qed.

Lemma decimal_digits breaks fuel n acc : own_words breaks (chars acc) -> own_words breaks (chars (decimal fuel n acc)).
Proof.
  revert n acc. induction fuel as [|fuel IH]; intros n acc Ha; [done|]. cbn [decimal].
  pose proof (Z.mod_pos_bound n 10 ltac:(lia)).
  assert (own_words breaks (chars (String (digit_char (n mod 10)) acc))) as Hd
    by (rewrite chars_digit by lia; constructor; [left; lia|done]).
  destruct (n <? 10); [done|by apply IH].
Qed.

Lemma unsigned_words breaks n : own_words breaks (chars (to_string_u n)).
Proof. apply decimal_digits. constructor. Qed.

Lemma signed_words breaks n : own_words breaks (chars (to_string_i n)).
Proof.
  unfold to_string_i. destruct (n <? 0); [|apply unsigned_words]. rewrite chars_app. apply Forall_app_2; [|apply unsigned_words].
  constructor; [left; cbn; lia|constructor].
Qed.

(** [append_number] never leaves its buffer and writes what [std::to_string]
    does. *)
Lemma number_written room n acc :
  0 <= n < 10 ^ Z.of_nat room -> (0 < room)%nat ->
  exists ds, number_digits room n = Some ds /\ chars (decimal room n acc) = rev ds ++ chars acc.
Proof.
  revert n acc. induction room as [|room IH]; intros n acc Hn Hr; [lia|]. rewrite Nat2Z.inj_succ, Z.pow_succ_r in Hn by lia.
  pose proof (Z.mod_pos_bound n 10 ltac:(lia)) as Hm. cbn [number_digits decimal].
  destruct (Z.ltb_spec n 10) as [Hl|Hl].
  - rewrite Z.div_small by lia. cbn [Z.eqb]. eexists. split; [done|]. by rewrite chars_digit.
  - pose proof (Z.div_le_mono 10 n 10 ltac:(lia) Hl). change (10 / 10) with 1 in *.
    rewrite (proj2 (Z.eqb_neq (n / 10) 0)) by lia.
    destruct (IH (n / 10) (String (digit_char (n mod 10)) acc)) as (ds & -> & ->).
    + split; [lia|]. apply Z.div_lt_upper_bound; lia.
    + destruct room; [change (10 ^ Z.of_nat 0) with 1 in Hn; lia|lia].
    + cbn [option_bind]. eexists. split; [done|]. cbn [rev]. rewrite chars_digit by lia. by rewrite <- app_assoc.
Qed.

Lemma append_number_exact out n : 0 <= n < 2 ^ 64 -> append_number out n = Some (out ++ chars (to_string_u n)).
Proof.
  intros Hn. unfold append_number, to_string_u.
  destruct (number_written 20 n "" ltac:(lia) ltac:(lia)) as (ds & -> & ->). cbn [option_bind chars]. by rewrite app_nil_r.
Qed.

(** ** The console's lines *)

#[global] Instance own_char_dec breaks b : Decision (own_char breaks b).
Proof. unfold own_char. apply _. Defined.

Lemma own_app breaks a b : own_words breaks a -> own_words breaks b -> own_words breaks (a ++ b).
Proof. apply Forall_app_2. Qed.

(** Words of the tool: literals, numbers and what is made of them. *)
Ltac words :=
  repeat match goal with
  | |- own_words _ (_ ++ _) => apply own_app
  | |- own_words _ (chars (to_string_u _)) => apply unsigned_words
  | |- own_words _ (chars (to_string_i _)) => apply signed_words
  | |- own_words _ [] => constructor
  | H : own_words ?b ?t |- own_words ?b ?t => exact H
  | |- own_words _ (if ?b then _ else _) => destruct b
  | |- own_words _ (chars (if ?b then _ else _)) => destruct b
  | |- own_words _ (chars (String _ _)) => apply (bool_decide_unpack _); vm_compute; exact I
  | |- own_words _ nl => apply (bool_decide_unpack _); vm_compute; exact I
  | |- own_words _ [13] => apply (bool_decide_unpack _); vm_compute; exact I
  end.

Lemma prefix_words stamp : own_words true (prefix stamp).
Proof. unfold prefix. destruct stamp; words. Qed.

Lemma event_words c stamp e : own_words true (console_event c stamp e).
Proof.
  unfold console_event. pose proof (prefix_words stamp) as Hp. destruct (quiet_ c); [words|].
  destruct e as [from to|p| | | |]; words. destruct to; cbn [state_name]; words.
Qed.

Lemma mode_words r : own_words true (describe_mode r).
Proof. unfold describe_mode. destruct (rp_bootloader_mode r), (rp_mode_source r); cbn [mode_name source_name]; words. Qed.

Lemma images_words r : own_words true (print_images r).
Proof.
  unfold print_images. destruct (_ <? _)%nat; [words|]. unfold own_words. apply Forall_concat, Forall_fmap, Forall_true. intros i. cbn.
  change (own_words true (print_image i)). unfold print_image, device_image_state. words.
Qed.

Lemma failure_words r : own_words true (print_failure_details r).
Proof. pose proof (mode_words r). pose proof (images_words r). unfold print_failure_details, pending_line. words. Qed.

Section errors.
Context (os_message : string * Z -> bytes).

(** An error's code is sixteen bits. *)
Definition error_ok (e : Error) : Prop := match mgmt e with Some m => u16 (me_rc m) | None => True end.

Lemma error_text_total e : error_ok e -> exists text, error_text os_message e = Some text.
Proof.
  unfold error_ok, error_text. destruct (mgmt e) as [m|]; cbn [option_bind].
  - intros Hm. unfold u16 in Hm. rewrite !append_number_exact by lia.
    destruct (me_group_scoped m); cbn [option_bind]; destruct (os_error e); by eexists.
  - intros _. destruct (os_error e). by eexists.
Qed.

Lemma line_tame a t : own_words false a -> tame false (a ++ printable t) = true.
Proof. intros Ha. rewrite tame_own_app by done. apply printable_tame. Qed.

(** Whatever text a device, a package or the system put into an error or
    its context, the console prints it as one line without control characters
    behind the tool's name; and everything else it prints of an update, its
    events, its end and what a failure left behind, is its own words and
    numbers. *)
Lemma console_tame c :
  own_words false (chars (tool_ c)) ->
  (forall context e, error_ok e -> exists line, console_error os_message c context e = Some (line ++ nl) /\ tame false line = true) /\
  (forall stamp e, own_words true (console_event c stamp e)) /\
  (forall outcome r, match outcome with Fail e => error_ok e | Success _ => True end ->
    exists out err returned, finish os_message c outcome r = Some (out, err, returned) /\ own_words true out /\
      (returned = true <-> exists done, outcome = Success done /\ rp_final_state done = S_Completed) /\
      match outcome with
      | Success _ => err = []
      | Fail _ => out = [] /\ exists line details, err = line ++ nl ++ details /\ tame false line = true /\ own_words true details
      end).
Proof.
  intros Ht. split; [|split; [intros; apply event_words|]].
  - intros context e He. unfold console_error. destruct (error_text_total e He) as [text ->]. cbn [option_bind].
    set (mid := match context with Some x => printable x ++ chars ": " | None => [] end).
    exists (chars (tool_ c) ++ chars ": " ++ mid ++ printable text). split; [by rewrite <- !app_assoc|].
    rewrite !tame_own_app by (done || words). unfold mid. destruct context as [x|]; [|apply printable_tame].
    rewrite <- app_assoc. apply tame_app; [apply printable_tame| |done]. by rewrite tame_own_app by words; apply printable_tame.
  - intros outcome r Hr. pose proof (failure_words r) as Hf. destruct outcome as [done|e].
    + exists (match finish os_message c (Success done) r with Some (out, _, _) => out | None => [] end), [], (bool_decide (rp_final_state done = S_Completed)).
      unfold finish. split; [done|]. split; [|split; [|done]].
      * pose proof (mode_words done). pose proof (images_words done). unfold pending_line. words. destruct (rp_final_state done); cbn [state_name]; words.
      * rewrite bool_decide_eq_true. split; [by exists done|]. by intros (? & [= <-] & ?).
    + unfold finish. destruct (error_text_total e Hr) as [text ->]. cbn [option_bind]. eexists _, _, _. split; [done|].
      split; [constructor|]. split; [split; [done|]; by intros (? & ? & _)|]. split; [done|].
      exists (chars (tool_ c) ++ chars ": update failed: " ++ printable text), (print_failure_details r).
      split; [by rewrite <- !app_assoc|]. split; [|done]. rewrite !tame_own_app by (done || words). apply printable_tame.
Qed.
End errors.

(** ** A sample: a device that clears the screen *)

Definition sample_console : UpdateConsole := mkConsole "cli_dfu" false.
Definition clear_screen : string := String (Ascii.ascii_of_nat 27) "[2J".
Definition sample_error : Error := with_reason clear_screen (Error_mgmt ProtocolError (MgmtError_smp 3) "os: reset").

Example sample_line :
  console_error (fun _ => []) sample_console None sample_error =
    Some (chars "cli_dfu: MCUmgr protocol error [smp rc=3]: \x1B[2J (at os: reset)" ++ nl).
Proof. reflexivity. Qed.
