(* ===== verification/UpdateCommand.v ===== *)
(** * The update command

    [support/dfu_app/update_command.cpp], [update_inputs.cpp],
    [file_image_source.cpp] and [bootloader_mode.hpp]: the flags every tool
    shares, the rules they are checked by, and the list of images they name, with
    the flags of [examples/cli_dfu/main.cpp] around them. Texts are the bytes of
    a [std::string]. A file is what its path opens, an [std::ifstream]; the
    objects that own the sources are not modelled, a target has its source by
    value. *)

From S2P Require Import Prelude Errors ImageValues UpdateTypes McubootImage StoredZip Json DfuPackage DfuPackageProperties GroupCodecs UploadDriver FirmwareUpdater Console.

(** ** Files *)

(** What the program sees of an [std::ifstream] opened at its end: whether it is
    open, [tellg], and at an offset whether a seek there succeeds and what a read
    of so many bytes delivers. *)
Record ifstream := mkStream {
  is_open : bool;
  tellg : Z;
  seeks : Z -> bool;
  delivers : Z -> nat -> bytes
}.

(** [FileImageSource::read], with the size [open] found. *)
Definition file_read (stream : ifstream) (size : Z) (offset : Z) (out : bytes) : Result (nat * bytes) :=
  if size <=? offset then Success (O, out)
  else
    let remaining := size - offset in
    let wanted := if zlen out <? remaining then length out else Z.to_nat remaining in
    if negb (seeks stream offset) then fail InvalidArgument "seek failed on the image file"
    else
      let got := take wanted (delivers stream offset wanted) in
      if negb (length got =? wanted)%nat then fail InvalidArgument "short read from the image file"
      else Success (length got, got ++ drop (length got) out).

(** [FileImageSource::open]. *)
Definition open_file (stream : ifstream) : Result ImageSource :=
  if negb (is_open stream) then fail InvalidArgument "cannot open the image file"
  else if tellg stream <=? 0 then fail InvalidArgument "the image file is empty"
  else Success (mkSource (tellg stream) (file_read stream (tellg stream))).

(** ** Values of flags *)

(** [std::string_view::find] and [find_first_not_of]. *)
Definition find_char (c : Z) (text : bytes) : option nat := fst <$> list_find (fun x => x = c) text.
Definition first_other (p : Z -> bool) (text : bytes) : option nat := fst <$> list_find (fun x => p x = false) text.

(** The value of a run of digits, in a [std::uint32_t]: the loop of
    [parse_commit] and, of at most nine digits, [std::stoul]. *)
Definition digits_value (text : bytes) : Z :=
  foldl (fun value digit => wrap 32 (wrap 32 (value * 10) + wrap 32 (digit - 48))) 0 text.

(** [parse_commit]. *)
Definition parse_commit (text : bytes) : option (Z * CommitBy) :=
  match find_char 61 text with
  | None => None
  | Some equals =>
      if (equals =? 0)%nat || (3 <? equals)%nat || bool_decide (first_other is_digit text <> Some equals) then None
      else
        let image := digits_value (take equals text) in
        let who := drop (equals + 1) text in
        if bool_decide (who = chars "client") then Some (image, Client)
        else if bool_decide (who = chars "device") then Some (image, Device)
        else None
  end.

(** [parse_board]. *)
Definition parse_board (text : bytes) : option bytes :=
  match BoardName_parse text with Success board => Some board | Fail _ => None end.

(** [parse_update_mode]. *)
Definition parse_update_mode (text : bytes) : option UpdateMode :=
  if bool_decide (text = chars "test-then-confirm") then Some TestThenConfirm
  else if bool_decide (text = chars "confirm-immediately") then Some ConfirmImmediately
  else if bool_decide (text = chars "upload-only") then Some UploadOnly
  else None.

(** [kNamedModes] and [parse_mcuboot_mode]. *)
Definition kNamedModes : list McubootMode :=
  [M_SingleSlot; M_SwapUsingScratch; M_UpgradeOnly; M_SwapUsingMove; M_DirectXip; M_DirectXipWithRevert; M_RamLoad;
   M_FirmwareLoader; M_SingleSlotRamLoad; M_SwapUsingOffset].

Definition parse_mcuboot_mode (text : bytes) : option McubootMode :=
  List.find (fun mode => bool_decide (chars (mode_name mode) = text)) kNamedModes.

(** ** The command *)

(** [UpdateCommand]. *)
Record UpdateCommand := mkCommand {
  image_path : bytes;
  image_secondary_path : bytes;
  package_path : bytes;
  generated_packages : Z;
  commits : list (Z * CommitBy);
  board : option bytes;
  cmd_mode : UpdateMode;
  cmd_fallback_mode : option McubootMode;
  cmd_allow_no_revert : bool;
  cmd_check_downgrade : bool;
  quiet : bool
}.

Definition new_command : UpdateCommand := mkCommand [] [] [] 0 [] None TestThenConfirm None false true false.

Definition set_image_path x c := mkCommand x (image_secondary_path c) (package_path c) (generated_packages c) (commits c) (board c) (cmd_mode c) (cmd_fallback_mode c) (cmd_allow_no_revert c) (cmd_check_downgrade c) (quiet c).
Definition set_image_secondary_path x c := mkCommand (image_path c) x (package_path c) (generated_packages c) (commits c) (board c) (cmd_mode c) (cmd_fallback_mode c) (cmd_allow_no_revert c) (cmd_check_downgrade c) (quiet c).
Definition set_package_path x c := mkCommand (image_path c) (image_secondary_path c) x (generated_packages c) (commits c) (board c) (cmd_mode c) (cmd_fallback_mode c) (cmd_allow_no_revert c) (cmd_check_downgrade c) (quiet c).
Definition set_generated_packages x c := mkCommand (image_path c) (image_secondary_path c) (package_path c) x (commits c) (board c) (cmd_mode c) (cmd_fallback_mode c) (cmd_allow_no_revert c) (cmd_check_downgrade c) (quiet c).
Definition set_commits x c := mkCommand (image_path c) (image_secondary_path c) (package_path c) (generated_packages c) x (board c) (cmd_mode c) (cmd_fallback_mode c) (cmd_allow_no_revert c) (cmd_check_downgrade c) (quiet c).
Definition set_board x c := mkCommand (image_path c) (image_secondary_path c) (package_path c) (generated_packages c) (commits c) x (cmd_mode c) (cmd_fallback_mode c) (cmd_allow_no_revert c) (cmd_check_downgrade c) (quiet c).
Definition set_cmd_mode x c := mkCommand (image_path c) (image_secondary_path c) (package_path c) (generated_packages c) (commits c) (board c) x (cmd_fallback_mode c) (cmd_allow_no_revert c) (cmd_check_downgrade c) (quiet c).
Definition set_cmd_fallback_mode x c := mkCommand (image_path c) (image_secondary_path c) (package_path c) (generated_packages c) (commits c) (board c) (cmd_mode c) x (cmd_allow_no_revert c) (cmd_check_downgrade c) (quiet c).
Definition set_cmd_allow_no_revert x c := mkCommand (image_path c) (image_secondary_path c) (package_path c) (generated_packages c) (commits c) (board c) (cmd_mode c) (cmd_fallback_mode c) x (cmd_check_downgrade c) (quiet c).
Definition set_cmd_check_downgrade x c := mkCommand (image_path c) (image_secondary_path c) (package_path c) (generated_packages c) (commits c) (board c) (cmd_mode c) (cmd_fallback_mode c) (cmd_allow_no_revert c) x (quiet c).
Definition set_quiet x c := mkCommand (image_path c) (image_secondary_path c) (package_path c) (generated_packages c) (commits c) (board c) (cmd_mode c) (cmd_fallback_mode c) (cmd_allow_no_revert c) (cmd_check_downgrade c) x.

(** [UpdateCommand::package_mode]. *)
Definition package_mode (c : UpdateCommand) : bool := (0 <? generated_packages c) || negb (bool_decide (package_path c = [])).

(** [UpdateCommand::plan]. *)
Definition command_plan (c : UpdateCommand) : UpdatePlan :=
  mkPlan (cmd_mode c) (cmd_fallback_mode c) (cmd_allow_no_revert c) (cmd_check_downgrade c)
    (skip_if_already_present default_plan) (disconnect_grace default_plan) (apply_timeout default_plan)
    (apply_poll_interval default_plan).

(** [FlagResult]. *)
Inductive FlagResult := Taken | Unknown | Invalid.

#[global] Instance FlagResult_eq_dec : EqDecision FlagResult.
Proof. solve_decision. Defined.

Definition is_flag (flag : bytes) (name : string) : bool := bool_decide (flag = chars name).

(** [parse_update_flag], with [offered.packages]. [None] is an index out of
    range. *)
Definition parse_update_flag (args : list bytes) (index : nat) (packages : bool) (out : UpdateCommand)
  : option (FlagResult * nat * UpdateCommand) :=
  let! flag := args !! index in
  let has_value := (index + 1 <? length args)%nat in
  if is_flag flag "--quiet" then Some (Taken, index, set_quiet true out)
  else if is_flag flag "--allow-no-revert" then Some (Taken, index, set_cmd_allow_no_revert true out)
  else if is_flag flag "--no-downgrade-check" then Some (Taken, index, set_cmd_check_downgrade false out)
  else
    let takes_value :=
      is_flag flag "--image" || is_flag flag "--image-secondary" || is_flag flag "--mode" || is_flag flag "--fallback-mode"
      || packages && (is_flag flag "--package" || is_flag flag "--commit" || is_flag flag "--board") in
    if negb takes_value then Some (Unknown, index, out)
    else if negb has_value then Some (Invalid, index, out)
    else
      let index := S index in
      let! value := args !! index in
      if is_flag flag "--image" then Some (Taken, index, set_image_path value out)
      else if is_flag flag "--image-secondary" then Some (Taken, index, set_image_secondary_path value out)
      else if is_flag flag "--package" then Some (Taken, index, set_package_path value out)
      else if is_flag flag "--mode" then
        match parse_update_mode value with
        | None => Some (Invalid, index, out)
        | Some mode => Some (Taken, index, set_cmd_mode mode out)
        end
      else if is_flag flag "--fallback-mode" then
        let out := set_cmd_fallback_mode (parse_mcuboot_mode value) out in
        Some (if bool_decide (cmd_fallback_mode out = None) then Invalid else Taken, index, out)
      else if is_flag flag "--commit" then
        match parse_commit value with
        | None => Some (Invalid, index, out)
        | Some commit => Some (Taken, index, set_commits (commits out ++ [commit]) out)
        end
      else
        let out := set_board (parse_board value) out in
        Some (if bool_decide (board out = None) then Invalid else Taken, index, out).

(** [valid]. *)
Definition valid (c : UpdateCommand) (needs_named_input : bool) : bool :=
  let named (path : bytes) := if bool_decide (path = []) then 0 else 1 in
  let sources := wrap 32 (named (image_path c) + named (package_path c) + generated_packages c) in
  if 1 <? sources then false
  else if negb (package_mode c) && (bool_decide (board c <> None) || negb (bool_decide (commits c = []))) then false
  else if negb (bool_decide (image_secondary_path c = [])) && (bool_decide (image_path c = []) || package_mode c) then false
  else negb needs_named_input || negb (bool_decide (image_path c = [])) || negb (bool_decide (package_path c = [])).

(** ** [examples/cli_dfu/main.cpp]: its own flags *)

Record Options := mkOptions {
  command : UpdateCommand;
  demo_builds : bool;
  flaky_reconnect : Z;
  demo_package : bool;
  demo_xip_package : bool;
  apply_fails : bool;
  stub_mode : option McubootMode
}.

Definition new_options : Options := mkOptions new_command false 0 false false false None.

Definition set_command x o := mkOptions x (demo_builds o) (flaky_reconnect o) (demo_package o) (demo_xip_package o) (apply_fails o) (stub_mode o).

(** One more generated package, an [unsigned]. *)
Definition generate (c : UpdateCommand) : UpdateCommand := set_generated_packages (wrap 32 (generated_packages c + 1)) c.

(** The body of the loop of [parse_arguments]: the index after it and the
    options, or a refusal. *)
Definition parse_argument (args : list bytes) (i : nat) (o : Options) : option (option (nat * Options)) :=
  let! arg := args !! i in
  let has_value := (i + 1 <? length args)%nat in
  if is_flag arg "--demo-builds" then
    Some (Some (i, mkOptions (command o) true (flaky_reconnect o) (demo_package o) (demo_xip_package o) (apply_fails o) (stub_mode o)))
  else if is_flag arg "--flaky-reconnect" && has_value then
    let! count := args !! S i in
    if bool_decide (count = []) || (9 <? length count)%nat || bool_decide (first_other is_digit count <> None) then Some None
    else
      Some (Some (S i, mkOptions (command o) (demo_builds o) (digits_value count) (demo_package o) (demo_xip_package o) (apply_fails o) (stub_mode o)))
  else if is_flag arg "--demo-package" then
    Some (Some (i, mkOptions (generate (command o)) (demo_builds o) (flaky_reconnect o) true (demo_xip_package o) (apply_fails o) (stub_mode o)))
  else if is_flag arg "--demo-xip-package" then
    Some (Some (i, mkOptions (generate (command o)) (demo_builds o) (flaky_reconnect o) (demo_package o) true (apply_fails o) (stub_mode o)))
  else if is_flag arg "--apply-fails" then
    Some (Some (i, mkOptions (command o) (demo_builds o) (flaky_reconnect o) (demo_package o) (demo_xip_package o) true (stub_mode o)))
  else if is_flag arg "--stub-mode" && has_value then
    let! value := args !! S i in
    match parse_mcuboot_mode value with
    | None => Some None
    | mode => Some (Some (S i, mkOptions (command o) (demo_builds o) (flaky_reconnect o) (demo_package o) (demo_xip_package o) (apply_fails o) mode))
    end
  else
    let! (result, i, c) := parse_update_flag args i true (command o) in
    Some (if bool_decide (result = Taken) then Some (i, set_command c o) else None).

Definition arguments_body (args : list bytes) (s : nat * Options) : loop (nat * Options) (option (option Options)) :=
  let '(i, o) := s in
  if negb (i <? length args)%nat then Return (Some (Some o))
  else
    match parse_argument args i o with
    | None => Return None
    | Some None => Return (Some None)
    | Some (Some (i, o)) => Continue (S i, o)
    end.

(** [parse_arguments]: the options, if they are accepted. A round moves the index
    on by one at least. *)
Definition parse_arguments (args : list bytes) : option (option Options) :=
  let! parsed := iterate (arguments_body args) (S (length args)) (O, new_options) in
  let! parsed := parsed in
  match parsed with
  | None => Some None
  | Some o =>
      let c := command o in
      Some (if valid c false && (package_mode c || negb (apply_fails o))
               && (negb (demo_builds o) || bool_decide (image_path c = []) && negb (package_mode c))
            then Some o else None)
  end.

(** ** The inputs *)

(** [UpdateInputs::from_files], of the files behind the paths. *)
Definition from_files (disk : bytes -> ifstream) (primary secondary : bytes) : Result (list ImageTarget) :=
  if bool_decide (primary = [])
  then fail InvalidArgument
    (if bool_decide (secondary = []) then "inputs: no image file" else "inputs: a second build needs the first")
  else
    let? source := open_file (disk primary) in
    let? second_build :=
      if bool_decide (secondary = []) then Success None
      else let? second := open_file (disk secondary) in Success (Some second) in
    Success [mkImageTarget 0 (Some source) Client second_build].

(** The target of a package's image. *)
Definition package_target (i : PackageImage) : ImageTarget :=
  mkImageTarget (p_image i) (Some (MemoryImageSource (p_bytes i)))
    (if p_image i =? 0 then Client else Device)
    ((fun b => MemoryImageSource (b_bytes b)) <$> p_secondary i).

(** [UpdateInputs::from_package_bytes]. *)
Definition from_package_bytes (bytes : bytes) (expected_board : option Prelude.bytes) : checked (list ImageTarget) :=
  let!? package := read_package bytes in
  let!? _ := Some (match expected_board with Some b => check_board package b | None => Success tt end) in
  Some (Success (package_target <$> k_images package)).

(** [UpdateInputs::from_package]. *)
Definition from_package (stream : ifstream) (expected_board : option bytes) : checked (list ImageTarget) :=
  if negb (is_open stream) then checked_fail InvalidArgument "package: cannot open the file"
  else if tellg stream <? 0 then checked_fail InvalidArgument "package: cannot read the file"
  else if kMaxPackageSize <? tellg stream then checked_fail MessageTooLarge "package: larger than kMaxPackageSize"
  else
    let size := Z.to_nat (tellg stream) in
    let raw := take size (delivers stream 0 size) in
    if negb (seeks stream 0 && (length raw =? size)%nat)
    then checked_fail InvalidArgument "package: cannot read the file"
    else from_package_bytes raw expected_board.

(** [UpdateInputs::set_commit]. *)
Fixpoint set_commit (image : Z) (commit : CommitBy) (targets : list ImageTarget) : Result (list ImageTarget) :=
  match targets with
  | [] => fail InvalidArgument "inputs: no such image"
  | t :: targets =>
      if it_image t =? image
      then Success (mkImageTarget (it_image t) (it_source t) commit (it_secondary_source t) :: targets)
      else let? targets := set_commit image commit targets in Success (t :: targets)
  end.

(** The loop of [open_inputs] over the [--commit]s; a failure is the text of the
    flag and the error. *)
Fixpoint set_commits_of (cs : list (Z * CommitBy)) (targets : list ImageTarget) : list ImageTarget + bytes * Error :=
  match cs with
  | [] => inl targets
  | (image, commit) :: cs =>
      match set_commit image commit targets with
      | Fail e => inr (chars "--commit " ++ chars (to_string_u image), e)
      | Success targets => set_commits_of cs targets
      end
  end.

(** The lambda [read_inputs] of [open_inputs]: a generated package, else the
    package file, else the image files. *)
Definition read_inputs (disk : bytes -> ifstream) (c : UpdateCommand) (generated_package : option bytes)
  : checked (list ImageTarget) :=
  match generated_package with
  | Some package => from_package_bytes package (board c)
  | None =>
      if negb (bool_decide (package_path c = [])) then from_package (disk (package_path c)) (board c)
      else Some (from_files disk (image_path c) (image_secondary_path c))
  end.

(** [UpdateConsole::open_inputs]: the targets, or what was printed of why
    not. *)
Definition open_inputs (os_message : string * Z -> bytes) (console : UpdateConsole) (disk : bytes -> ifstream)
    (c : UpdateCommand) (generated_package : option bytes) : option (list ImageTarget + bytes) :=
  let! read := read_inputs disk c generated_package in
  match read with
  | Fail e => let! line := console_error os_message console None e in Some (inr line)
  | Success targets =>
      match set_commits_of (commits c) targets with
      | inl targets => Some (inl targets)
      | inr (context, e) => let! line := console_error os_message console (Some context) e in Some (inr line)
      end
  end.
