(* ===== verification/UpdateCommandProperties.v ===== *)
(** * Properties of the update command

    A file is a source in the library's sense; the value of a flag is read as
    documented; the command line is read back from what it says; and the images a
    command names are a list [FirmwareUpdater::start] has nothing against. *)

From Stdlib Require Import Sorted.
From S2P Require Import Prelude Errors ImageValues UpdateTypes McubootImage StoredZip Json DfuPackage DfuPackageProperties GroupCodecs UploadDriver FirmwareUpdater Console UpdateCommand.

(** ** Files *)

(** A file that stays as it is. *)
Definition regular (file : bytes) : ifstream :=
  mkStream true (zlen file) (fun _ => true) (fun offset n => take n (drop (Z.to_nat offset) file)).

Definition FileImageSource (file : bytes) : ImageSource := mkSource (zlen file) (file_read (regular file) (zlen file)).

(** [FileImageSource] keeps the contract of [ImageSource]. *)
#[global] Instance FileImageSource_reads file : ReadsFile (FileImageSource file) file.
Proof.
  split; [done|]. intros offset out Ho n. cbn [src_read FileImageSource]. unfold file_read. cbn [seeks delivers regular negb].
  destruct (Z.leb_spec (zlen file) offset).
  - assert (n = 0%nat) as -> by (unfold n; lia). by rewrite drop_0.
  - set (wanted := if zlen out <? zlen file - offset then length out else Z.to_nat (zlen file - offset)).
    assert (wanted = n) as -> by (unfold wanted, n; destruct (Z.ltb_spec (zlen out) (zlen file - offset)); lia).
    rewrite take_take, Nat.min_id, length_take, length_drop.
    assert (Nat.min n (length file - Z.to_nat offset) = n) as -> by (unfold n; lia). by rewrite Nat.eqb_refl.
Qed.

Lemma open_regular file : 0 < zlen file -> open_file (regular file) = Success (FileImageSource file).
Proof. intros Hf. unfold open_file. cbn [is_open tellg regular negb]. by rewrite (proj2 (Z.leb_gt _ _)). Qed.

(** Whatever became of the file, a read that is not refused has delivered what
    was asked for or what the file had left when it was opened. *)
Lemma file_read_whole stream size offset out n out' :
  0 <= offset -> file_read stream size offset out = Success (n, out') ->
  n = Nat.min (length out) (Z.to_nat (size - offset)) /\ length out' = length out.
Proof.
  intros Ho. unfold file_read. destruct (Z.leb_spec size offset).
  { intros [= <- <-]. split; [lia|done]. }
  destruct (negb (seeks stream offset)); [done|].
  set (wanted := if zlen out <? size - offset then length out else Z.to_nat (size - offset)).
  assert (wanted = Nat.min (length out) (Z.to_nat (size - offset))) as Hw
    by (unfold wanted; destruct (Z.ltb_spec (zlen out) (size - offset)); lia).
  destruct (Nat.eqb_spec (length (take wanted (delivers stream offset wanted))) wanted) as [E|]; [|done].
  intros [= <- <-]. rewrite E. split; [done|]. rewrite length_app, length_drop, E. lia.
Qed.

(** ** Values *)

Definition all_digits (text : bytes) : Prop := Forall (fun c => is_digit c = true) text.

(** What a run of digits denotes. *)
Fixpoint denoted (text : bytes) (value : Z) : Z :=
  match text with [] => value | c :: text => denoted text (value * 10 + (c - 48)) end.

Lemma denoted_bound text value : all_digits text -> 0 <= value -> value * 10 ^ zlen text <= denoted text value < (value + 1) * 10 ^ zlen text.
Proof.
  revert value. induction text as [|c text IH]; intros value Hd Hv; [cbn; lia|].
  inversion Hd as [|? ? Hc Hd']; subst. unfold is_digit in Hc. bool_to_prop.
  specialize (IH (value * 10 + (c - 48)) Hd' ltac:(lia)). cbn [denoted].
  replace (zlen (c :: text)) with (zlen text + 1) by (cbn; lia). rewrite Z.pow_add_r, Z.pow_1_r by lia.
  assert (0 <= 10 ^ zlen text) as Hp by (apply Z.pow_nonneg; lia). revert IH Hp. generalize (10 ^ zlen text) as p. intros p IH Hp.
  assert (0 <= (c - 48) * p <= 9 * p) by nia. lia.
Qed.

Lemma digits_denoted text : all_digits text -> (length text <= 9)%nat -> digits_value text = denoted text 0.
Proof.
  intros Hd Hl. unfold digits_value.
  assert (forall value, 0 <= value -> (value + 1) * 10 ^ zlen text <= 10 ^ 9 ->
    foldl (fun value digit => wrap 32 (wrap 32 (value * 10) + wrap 32 (digit - 48))) value text = denoted text value) as Hv.
  { clear Hl. induction text as [|c text IH]; intros value Hv Hb; [done|].
    inversion Hd as [|? ? Hc Hd']; subst. unfold is_digit in Hc. bool_to_prop. cbn [foldl denoted].
    replace (zlen (c :: text)) with (zlen text + 1) in Hb by (cbn; lia). rewrite Z.pow_add_r, Z.pow_1_r in Hb by lia.
    assert (1 <= 10 ^ zlen text) by (apply (Z.pow_le_mono_r 10 0); lia).
    assert ((value + 1) * 10 <= 10 ^ 9) by nia.
    rewrite (wrap_fits 32 (value * 10)), (wrap_fits 32 (c - 48)) by (unfold fits; lia). rewrite wrap_fits by (unfold fits; lia).
    apply IH; [done|lia|nia]. }
  apply Hv; [lia|]. rewrite Z.mul_1_l. apply Z.pow_le_mono_r; lia.
Qed.

Lemma find_char_split c text k :
  find_char c text = Some k <-> exists pre post, text = pre ++ c :: post /\ length pre = k /\ c ∉ pre.
Proof.
  unfold find_char. rewrite fmap_Some. split.
  - intros ([i x] & E & ->). apply list_find_Some in E as (Hx & -> & Hp). cbn [fst].
    exists (take i text), (drop (S i) text). split; [by rewrite take_drop_middle|].
    split; [rewrite length_take_le; [done|]; apply lookup_lt_Some in Hx; lia|].
    intros [j Hj]%list_elem_of_lookup. apply lookup_take_Some in Hj as [Hj Hlt]. by apply (Hp j c).
  - intros (pre & post & -> & <- & Hp). exists (length pre, c). split; [|done]. apply list_find_Some. split_and!; [|done|].
    + by rewrite lookup_app_r, Nat.sub_diag.
    + intros j y Hj Hlt ->. apply Hp. rewrite lookup_app_l in Hj by done. by eapply list_elem_of_lookup_2.
Qed.

Lemma first_other_split p text k :
  first_other p text = Some k <-> exists pre c post, text = pre ++ c :: post /\ length pre = k /\ p c = false /\ Forall (fun x => p x = true) pre.
Proof.
  unfold first_other. rewrite fmap_Some. split.
  - intros ([i x] & E & ->). apply list_find_Some in E as (Hx & Hc & Hp). cbn [fst].
    exists (take i text), x, (drop (S i) text). split; [by rewrite take_drop_middle|].
    split; [rewrite length_take_le; [done|]; apply lookup_lt_Some in Hx; lia|]. split; [done|].
    apply Forall_forall. intros y [j Hj]%list_elem_of_lookup. apply lookup_take_Some in Hj as [Hj Hlt].
    apply not_false_is_true. intros Hy. by apply (Hp j y).
  - intros (pre & c & post & -> & <- & Hc & Hp). exists (length pre, c). split; [|done]. apply list_find_Some. split_and!; [|done|].
    + by rewrite lookup_app_r, Nat.sub_diag.
    + intros j y Hj Hlt Hy. rewrite lookup_app_l in Hj by done. rewrite Forall_forall in Hp.
      rewrite (Hp y) in Hy; [done|]. by eapply list_elem_of_lookup_2.
Qed.

Lemma first_other_none p text : first_other p text = None <-> Forall (fun x => p x = true) text.
Proof.
  unfold first_other. rewrite fmap_None, list_find_None. rewrite !Forall_forall. split; intros H x Hx; specialize (H x Hx); by destruct (p x).
Qed.

Definition party_name (c : CommitBy) : bytes := chars (if bool_decide (c = Client) then "client" else "device").

(** [parse_commit] accepts one to three digits, an equals sign and the party. *)
Lemma parse_commit_exact text n c :
  parse_commit text = Some (n, c) <->
  exists ds, all_digits ds /\ (1 <= length ds <= 3)%nat /\ text = ds ++ 61 :: party_name c /\ n = denoted ds 0.
Proof.
  unfold parse_commit. split.
  - destruct (find_char 61 text) as [k|] eqn:E; [|done]. apply find_char_split in E as (ds & post & -> & <- & _).
    destruct (Nat.eqb_spec (length ds) 0) as [|H0]; [done|]. destruct (Nat.ltb_spec 3 (length ds)) as [|H3]; [done|]. cbn [orb].
    case_bool_decide as Hf; [done|]. apply first_other_split in Hf as (ds' & x & post' & E & El & Hx & Hd).
    apply app_inj_1 in E as [-> [= -> ->]]; [|done]. rewrite take_app_length, <- drop_drop, drop_app_length. cbn [drop].
    rewrite digits_denoted by (done || lia).
    unfold party_name. repeat case_bool_decide; try done; intros [= <- <-]; exists ds'; (split_and!; [done|lia|lia|rewrite drop_0 in *; congruence|done]).
  - intros (ds & Hd & Hl & -> & ->). assert (find_char 61 (ds ++ 61 :: party_name c) = Some (length ds)) as ->.
    { apply find_char_split. exists ds, (party_name c). split_and!; try done. intros Hin. unfold all_digits in Hd. rewrite Forall_forall in Hd. by apply Hd in Hin. }
    rewrite (proj2 (Nat.eqb_neq _ _)), (proj2 (Nat.ltb_ge _ _)) by lia. cbn [orb]. rewrite bool_decide_eq_false_2.
    2:{ intros H. apply H, first_other_split. by exists ds, 61, (party_name c). }
    rewrite take_app_length, <- drop_drop, drop_app_length. cbn [drop]. rewrite digits_denoted by (done || lia). by destruct c.
Qed.

Lemma parse_mcuboot_mode_named m : m <> M_Unknown -> parse_mcuboot_mode (chars (mode_name m)) = Some m.
Proof. by destruct m. Qed.

Definition mode_text (m : UpdateMode) : bytes :=
  chars (match m with TestThenConfirm => "test-then-confirm" | ConfirmImmediately => "confirm-immediately" | UploadOnly => "upload-only" end).

Lemma parse_update_mode_named m : parse_update_mode (mode_text m) = Some m.
Proof. by destruct m. Qed.

(** A board name: what is left of it is itself. *)
Definition board_ok (b : bytes) : Prop := b <> [] /\ board_name b = b.

Lemma parse_board_named b : board_ok b -> parse_board b = Some b.
Proof. intros [Hb He]. unfold parse_board, BoardName_parse. rewrite He. by rewrite bool_decide_eq_false_2. Qed.

(** Numbers of up to nine digits, as they are written. *)
Lemma decimal_denotes fuel n acc v :
  0 <= n < 10 ^ Z.of_nat fuel -> (0 < fuel)%nat ->
  exists k, denoted (chars (decimal fuel n acc)) v = denoted (chars acc) (v * 10 ^ k + n) /\ 0 <= k.
Proof.
  revert n acc v. induction fuel as [|fuel IH]; intros n acc v Hn Hf; [lia|]. rewrite Nat2Z.inj_succ, Z.pow_succ_r in Hn by lia.
  pose proof (Z.mod_pos_bound n 10 ltac:(lia)) as Hm. cbn [decimal]. destruct (Z.ltb_spec n 10) as [Hl|Hl].
  - exists 1. split; [|lia]. rewrite chars_digit by lia. cbn [denoted]. rewrite Z.mod_small by lia. f_equal. lia.
  - pose proof (Z.div_mod n 10 ltac:(lia)) as Hdm.
    destruct (IH (n / 10) (String (digit_char (n mod 10)) acc) v) as (k & E & Hk).
    + split; [apply Z.div_pos; lia|apply Z.div_lt_upper_bound; lia].
    + destruct fuel; [change (10 ^ Z.of_nat 0) with 1 in Hn; lia|lia].
    + exists (k + 1). split; [|lia]. rewrite E, chars_digit by lia. cbn [denoted]. f_equal. rewrite Z.pow_add_r, Z.pow_1_r by lia. lia.
Qed.

Lemma decimal_all_digits fuel n acc : all_digits (chars acc) -> all_digits (chars (decimal fuel n acc)).
Proof.
  revert n acc. induction fuel as [|fuel IH]; intros n acc Ha; [done|]. cbn [decimal].
  pose proof (Z.mod_pos_bound n 10 ltac:(lia)).
  assert (all_digits (chars (String (digit_char (n mod 10)) acc))) as Hd.
  { rewrite chars_digit by lia. constructor; [|done]. unfold is_digit. rewrite !(proj2 (Z.leb_le _ _)) by lia. done. }
  destruct (n <? 10); [done|by apply IH].
Qed.

Lemma chars_length s : length (chars s) = String.length s.
Proof. induction s as [|c s IH]; [done|]. cbn. by rewrite IH. Qed.

Lemma digits_written n m : 0 <= n < 10 ^ Z.of_nat m -> (0 < m <= 20)%nat ->
  all_digits (chars (to_string_u n)) /\ (1 <= length (chars (to_string_u n)) <= m)%nat /\ denoted (chars (to_string_u n)) 0 = n.
Proof.
  intros Hn Hm. unfold to_string_u. split; [apply decimal_all_digits; constructor|]. split.
  - rewrite chars_length. split; [|pose proof (decimal_length 20 n "" m Hn ltac:(lia)); cbn [String.length] in *; lia].
    assert (forall fuel n acc, (1 <= fuel + String.length acc -> 1 <= String.length (decimal fuel n acc))%nat) as Hl.
    { induction fuel as [|fuel IH]; intros k acc Ha; [done|]. cbn [decimal]. destruct (k <? 10); [cbn; lia|apply IH; cbn; lia]. }
    apply Hl. lia.
  - assert (10 ^ Z.of_nat m <= 10 ^ 20) by (apply Z.pow_le_mono_r; lia).
    destruct (decimal_denotes 20 n "" 0) as (k & E & _); [change (Z.of_nat 20) with 20; lia|lia|]. rewrite E. cbn [chars denoted]. lia.
Qed.

(** ** The command line *)

Section arguments.
Context (args : list bytes).

(** A flag the loop looks at is there, and so is what it moves on to. *)
Lemma update_flag_answers i packages c :
  (i < length args)%nat -> exists r j c', parse_update_flag args i packages c = Some (r, j, c') /\ (i <= j < length args)%nat.
Proof.
  intros Hi. unfold parse_update_flag. destruct (lookup_lt_is_Some_2 args i Hi) as [flag ->]. cbn [option_bind].
  repeat (case_match; [eexists _, _, _; split; [done|lia]|]). rewrite negb_false_iff in *.
  match goal with H : (i + 1 <? length args)%nat = true |- _ => apply Nat.ltb_lt in H end.
  destruct (lookup_lt_is_Some_2 args (S i) ltac:(lia)) as [value ->]. cbn [option_bind].
  repeat case_match; eexists _, _, _; (split; [done|lia]).
Qed.

(** A refusal, or an index to go on from. *)
Definition answered_from (i : nat) (r : option (option (nat * Options))) : Prop :=
  match r with None => False | Some None => True | Some (Some (j, _)) => (i <= j < length args)%nat end.

Lemma argument_answers i o : (i < length args)%nat -> answered_from i (parse_argument args i o).
Proof.
  intros Hi. unfold parse_argument. destruct (lookup_lt_is_Some_2 args i Hi) as [flag ->]. cbn [option_bind].
  assert (answered_from i (let! (result, j, c) := parse_update_flag args i true (command o) in
    Some (if bool_decide (result = Taken) then Some (j, set_command c o) else None))) as Hrest.
  { destruct (update_flag_answers i true (command o) Hi) as (r & j & c & -> & Hj). cbn [option_bind]. by case_bool_decide. }
  revert Hrest. generalize (let! (result, j, c) := parse_update_flag args i true (command o) in
    Some (if bool_decide (result = Taken) then Some (j, set_command c o) else None)) as rest. intros rest Hrest.
  destruct (i + 1 <? length args)%nat eqn:Hv; [|rewrite !andb_false_r; repeat case_match; cbn; done].
  apply Nat.ltb_lt in Hv. destruct (lookup_lt_is_Some_2 args (S i) ltac:(lia)) as [value ->]. cbn [option_bind].
  repeat case_match; try done; cbn; lia.
Qed.

(** The loop ends. *)
Lemma arguments_end n i o : (length args - i < n)%nat -> exists r, iterate (arguments_body args) n (i, o) = Some (Some r).
Proof.
  revert i o. induction n as [|n IH]; intros i o Hn; [lia|]. cbn [iterate]. unfold arguments_body at 1.
  destruct (Nat.ltb_spec i (length args)) as [Hi|]; cbn [negb]; [|by eexists].
  pose proof (argument_answers i o Hi) as Ha. destruct (parse_argument args i o) as [[[j o']|]|]; [|by eexists|done].
  apply IH. cbn in Ha. lia.
Qed.
End arguments.

(** Every command line is accepted or refused. *)
Lemma parse_arguments_total args : exists r, parse_arguments args = Some r.
Proof. unfold parse_arguments. destruct (arguments_end args (S (length args)) O new_options) as ([o|] & ->); [lia|..]; by eexists. Qed.

(** ** The command line of a command *)

(** Arguments that are read, wherever they stand, as a change of the options. *)
Definition reads (front : list bytes) (o o' : Options) : Prop :=
  forall pre post, exists k, (k <= length front)%nat /\
    forall fuel, iterate (arguments_body (pre ++ front ++ post)) (k + fuel) (length pre, o) =
                 iterate (arguments_body (pre ++ front ++ post)) fuel (length (pre ++ front), o').

Lemma reads_nil o : reads [] o o.
Proof. intros pre post. exists O. split; [done|]. intros fuel. by rewrite app_nil_r. Qed.

Lemma reads_app a b o1 o2 o3 : reads a o1 o2 -> reads b o2 o3 -> reads (a ++ b) o1 o3.
Proof.
  intros Ha Hb pre post. destruct (Ha pre (b ++ post)) as (k1 & Hk1 & E1). destruct (Hb (pre ++ a) post) as (k2 & Hk2 & E2).
  exists (k1 + k2)%nat. split; [rewrite length_app; lia|]. intros fuel. rewrite <- Nat.add_assoc.
  rewrite <- (app_assoc a b post), E1. rewrite <- (app_assoc pre a (b ++ post)) in E2. rewrite E2. by rewrite <- app_assoc.
Qed.

Lemma reads_flag flag o o' :
  (forall pre post, parse_argument (pre ++ flag :: post) (length pre) o = Some (Some (length pre, o'))) -> reads [flag] o o'.
Proof.
  intros Hp pre post. exists 1%nat. split; [done|]. intros fuel. cbn [iterate Nat.add app]. unfold arguments_body at 1.
  rewrite (proj2 (Nat.ltb_lt _ _)) by (rewrite length_app; cbn; lia). cbn [negb]. rewrite Hp. by rewrite length_app, Nat.add_1_r.
Qed.

Lemma reads_value flag value o o' :
  (forall pre post, parse_argument (pre ++ flag :: value :: post) (length pre) o = Some (Some (S (length pre), o'))) -> reads [flag; value] o o'.
Proof.
  intros Hp pre post. exists 1%nat. split; [cbn; lia|]. intros fuel. cbn [iterate Nat.add app]. unfold arguments_body at 1.
  rewrite (proj2 (Nat.ltb_lt _ _)) by (rewrite length_app; cbn; lia). cbn [negb]. rewrite Hp. rewrite length_app. cbn [length].
  do 2 f_equal. lia.
Qed.

Lemma at_flag (pre post : list bytes) flag : (pre ++ flag :: post) !! length pre = Some flag.
Proof. by rewrite lookup_app_r, Nat.sub_diag. Qed.

Lemma at_value (pre post : list bytes) flag value : (pre ++ flag :: value :: post) !! S (length pre) = Some value.
Proof. rewrite lookup_app_r by lia. by replace (S (length pre) - length pre)%nat with 1%nat by lia. Qed.

Lemma value_there (pre post : list bytes) flag value : (length pre + 1 <? length (pre ++ flag :: value :: post))%nat = true.
Proof. apply Nat.ltb_lt. rewrite length_app. cbn. lia. Qed.

(** The flags of a literal, told apart by computation. *)
Ltac flags :=
  repeat match goal with
  | |- context [is_flag ?a ?b] => let x := eval vm_compute in (is_flag a b) in change (is_flag a b) with x
  end; cbn [orb andb negb].

Lemma taken A (a b : A) : (if bool_decide (Taken = Taken) then a else b) = a.
Proof. by rewrite bool_decide_eq_true_2. Qed.

Ltac read_flag := intros pre post; unfold parse_argument; rewrite at_flag; cbn [option_bind]; flags; try done;
  unfold parse_update_flag; rewrite at_flag; cbn [option_bind]; flags; rewrite ?taken; try done.
Ltac read_value := intros pre post; unfold parse_argument; rewrite at_flag; cbn [option_bind]; rewrite ?value_there; flags;
  rewrite ?at_value; cbn [option_bind];
  try (unfold parse_update_flag; rewrite at_flag; cbn [option_bind]; rewrite value_there; flags; rewrite at_value; cbn [option_bind]);
  rewrite ?taken; try done.

Definition given (b : bool) (front : list bytes) : list bytes := if b then front else [].

Lemma reads_given (b : bool) front o o' o'' :
  (b = true -> reads front o o') -> o'' = (if b then o' else o) -> reads (given b front) o o''.
Proof. intros Hr ->. destruct b; [by apply Hr|apply reads_nil]. Qed.

(** The path of a flag, where there is one. *)
Definition path_flag (name : string) (path : bytes) : list bytes := given (negb (bool_decide (path = []))) [chars name; path].

Definition commit_text (c : Z * CommitBy) : bytes := chars (to_string_u c.1) ++ 61 :: party_name c.2.

Definition command_line (c : UpdateCommand) : list bytes :=
  path_flag "--image" (image_path c) ++ path_flag "--image-secondary" (image_secondary_path c)
  ++ path_flag "--package" (package_path c)
  ++ concat ((fun x => [chars "--commit"; commit_text x]) <$> commits c)
  ++ match board c with Some b => [chars "--board"; b] | None => [] end
  ++ [chars "--mode"; mode_text (cmd_mode c)]
  ++ match cmd_fallback_mode c with Some m => [chars "--fallback-mode"; chars (mode_name m)] | None => [] end
  ++ given (cmd_allow_no_revert c) [chars "--allow-no-revert"]
  ++ given (negb (cmd_check_downgrade c)) [chars "--no-downgrade-check"]
  ++ given (quiet c) [chars "--quiet"].

Section flags.
Context (o : Options).
Abbreviation change f := (set_command (f (command o)) o).

Lemma unchanged f : f (command o) = command o -> change f = o.
Proof. intros ->. by destruct o. Qed.

Lemma reads_image p : image_path (command o) = [] -> reads (path_flag "--image" p) o (change (set_image_path p)).
Proof.
  intros Hd. apply (reads_given _ _ _ (change (set_image_path p))); [intros _; apply reads_value; read_value|].
  case_bool_decide; [|done]. subst p. apply unchanged. unfold command in Hd. destruct o as [[]]; cbn in *; by subst.
Qed.

Lemma reads_secondary p : image_secondary_path (command o) = [] -> reads (path_flag "--image-secondary" p) o (change (set_image_secondary_path p)).
Proof.
  intros Hd. apply (reads_given _ _ _ (change (set_image_secondary_path p))); [intros _; apply reads_value; read_value|].
  case_bool_decide; [|done]. subst p. apply unchanged. unfold command in Hd. destruct o as [[]]; cbn in *; by subst.
Qed.

Lemma reads_package p : package_path (command o) = [] -> reads (path_flag "--package" p) o (change (set_package_path p)).
Proof.
  intros Hd. apply (reads_given _ _ _ (change (set_package_path p))); [intros _; apply reads_value; read_value|].
  case_bool_decide; [|done]. subst p. apply unchanged. unfold command in Hd. destruct o as [[]]; cbn in *; by subst.
Qed.

Lemma reads_commit n who : 0 <= n < 1000 -> reads [chars "--commit"; commit_text (n, who)] o (change (set_commits (commits (command o) ++ [(n, who)]))).
Proof.
  intros Hn. apply reads_value. read_value.
  rewrite (proj2 (parse_commit_exact (commit_text (n, who)) n who)); [done|].
  destruct (digits_written n 3) as (Hd & Hl & He); [lia|lia|]. by exists (chars (to_string_u n)).
Qed.

Lemma reads_board b : board_ok b -> reads [chars "--board"; b] o (change (set_board (Some b))).
Proof. intros Hb. apply reads_value. read_value. rewrite parse_board_named by done. cbn [board set_board]. by rewrite (bool_decide_eq_false_2 (Some b = None)) by done. Qed.

Lemma reads_mode m : reads [chars "--mode"; mode_text m] o (change (set_cmd_mode m)).
Proof. apply reads_value. read_value. by rewrite parse_update_mode_named. Qed.

Lemma reads_fallback m : m <> M_Unknown -> reads [chars "--fallback-mode"; chars (mode_name m)] o (change (set_cmd_fallback_mode (Some m))).
Proof. intros Hm. apply reads_value. read_value. rewrite parse_mcuboot_mode_named by done. cbn [cmd_fallback_mode set_cmd_fallback_mode]. by rewrite (bool_decide_eq_false_2 (Some m = None)) by done. Qed.

Lemma reads_board_given b :
  board (command o) = None -> (forall x, b = Some x -> board_ok x) ->
  reads match b with Some x => [chars "--board"; x] | None => [] end o (change (set_board b)).
Proof.
  intros Hd Hb. destruct b as [b|]; [by apply reads_board, Hb|].
  rewrite unchanged; [apply reads_nil|]. destruct o as [[]]; cbn in *; by subst.
Qed.

Lemma reads_fallback_given m :
  cmd_fallback_mode (command o) = None -> m <> Some M_Unknown ->
  reads match m with Some x => [chars "--fallback-mode"; chars (mode_name x)] | None => [] end o (change (set_cmd_fallback_mode m)).
Proof.
  intros Hd Hm. destruct m as [m|]; [apply reads_fallback; congruence|].
  rewrite unchanged; [apply reads_nil|]. destruct o as [[]]; cbn in *; by subst.
Qed.

Lemma reads_allow b :
  cmd_allow_no_revert (command o) = false -> reads (given b [chars "--allow-no-revert"]) o (change (set_cmd_allow_no_revert b)).
Proof.
  intros Hd. apply (reads_given _ _ _ (change (set_cmd_allow_no_revert true))); [intros _; apply reads_flag; read_flag|].
  destruct b; [done|]. apply unchanged. destruct o as [[]]; cbn in *; by subst.
Qed.

Lemma reads_no_check b :
  cmd_check_downgrade (command o) = true -> reads (given (negb b) [chars "--no-downgrade-check"]) o (change (set_cmd_check_downgrade b)).
Proof.
  intros Hd. apply (reads_given _ _ _ (change (set_cmd_check_downgrade false))); [intros _; apply reads_flag; read_flag|].
  destruct b; [|done]. apply unchanged. destruct o as [[]]; cbn in *; by subst.
Qed.

Lemma reads_quiet b : quiet (command o) = false -> reads (given b [chars "--quiet"]) o (change (set_quiet b)).
Proof.
  intros Hd. apply (reads_given _ _ _ (change (set_quiet true))); [intros _; apply reads_flag; read_flag|].
  destruct b; [done|]. apply unchanged. destruct o as [[]]; cbn in *; by subst.
Qed.
End flags.

Lemma reads_commits cs o :
  Forall (fun c => 0 <= c.1 < 1000) cs ->
  reads (concat ((fun x => [chars "--commit"; commit_text x]) <$> cs)) o (set_command (set_commits (commits (command o) ++ cs) (command o)) o).
Proof.
  intros Hc. revert o. induction Hc as [|[n who] cs Hn _ IH]; intros o.
  - cbn. rewrite app_nil_r. assert (set_command (set_commits (commits (command o)) (command o)) o = o) as ->
      by (apply (unchanged o (fun c => set_commits (commits c) c)); by destruct (command o)). apply reads_nil.
  - cbn [fmap list_fmap concat]. eapply reads_app; [by apply reads_commit|]. specialize (IH (set_command (set_commits (commits (command o) ++ [(n, who)]) (command o)) o)).
    cbn in IH. rewrite <- app_assoc in IH. exact IH.
Qed.

(** A command as flags can say it. *)
Record command_ok (c : UpdateCommand) : Prop := {
  ck_commits : Forall (fun x => 0 <= x.1 < 1000) (commits c);
  ck_board : forall b, board c = Some b -> board_ok b;
  ck_fallback : cmd_fallback_mode c <> Some M_Unknown
}.

Lemma reads_command o c :
  command_ok c -> command o = set_generated_packages (generated_packages c) new_command ->
  reads (command_line c) o (set_command c o).
Proof.
  intros [Hc Hb Hf] Ho. unfold command_line.
  assert (o = set_command (set_generated_packages (generated_packages c) new_command) o) as -> by (rewrite <- Ho; by destruct o).
  eapply reads_app; [by apply reads_image|]. eapply reads_app; [by apply reads_secondary|]. eapply reads_app; [by apply reads_package|].
  eapply reads_app; [by apply reads_commits|]. eapply reads_app; [by apply reads_board_given|]. eapply reads_app; [apply reads_mode|].
  eapply reads_app; [by apply reads_fallback_given|]. eapply reads_app; [by apply reads_allow|]. eapply reads_app; [by apply reads_no_check|].
  assert (forall front o1 o2 o3, reads front o1 o2 -> o2 = o3 -> reads front o1 o3) as Hfinal by (by intros ? ? ? ? ? <-).
  eapply Hfinal; [by apply reads_quiet|]. by destruct c, o.
Qed.

(** ** The command line of [cli_dfu] *)

Definition options_line (o : Options) : list bytes :=
  given (demo_builds o) [chars "--demo-builds"]
  ++ [chars "--flaky-reconnect"; chars (to_string_u (flaky_reconnect o))]
  ++ given (demo_package o) [chars "--demo-package"]
  ++ given (demo_xip_package o) [chars "--demo-xip-package"]
  ++ given (apply_fails o) [chars "--apply-fails"]
  ++ match stub_mode o with Some m => [chars "--stub-mode"; chars (mode_name m)] | None => [] end
  ++ command_line (command o).

(** Options as a command line can say them. *)
Record options_said (o : Options) : Prop := {
  os_command : command_ok (command o);
  os_flaky : 0 <= flaky_reconnect o < 10 ^ 9;
  os_stub : stub_mode o <> Some M_Unknown;
  os_generated : generated_packages (command o) = Z.b2z (demo_package o) + Z.b2z (demo_xip_package o)
}.

Definition demo_command (a b : bool) : UpdateCommand := set_generated_packages (Z.b2z a + Z.b2z b) new_command.

Lemma reads_options o : options_said o -> reads (options_line o) new_options o.
Proof.
  intros [Hc Hf Hs Hg]. destruct o as [c db fl dp dx af sm]. cbn [command demo_builds flaky_reconnect demo_package demo_xip_package apply_fails stub_mode] in *. unfold options_line. cbn [command demo_builds flaky_reconnect demo_package demo_xip_package apply_fails stub_mode].
  eapply (reads_app _ _ _ (mkOptions new_command db 0 false false false None)).
  { eapply reads_given; [intros _; apply reads_flag; read_flag|by destruct db]. }
  eapply (reads_app _ _ _ (mkOptions new_command db fl false false false None)).
  { apply reads_value. read_value. destruct (digits_written fl 9) as (Hd & Hl & He); [lia|lia|].
    rewrite bool_decide_eq_false_2 by (intros E; rewrite E in Hl; cbn in Hl; lia). rewrite (proj2 (Nat.ltb_ge _ _)) by lia. cbn [orb].
    rewrite bool_decide_eq_false_2 by (intros E; apply E; by apply first_other_none).
    by rewrite digits_denoted, He by (done || lia). }
  eapply (reads_app _ _ _ (mkOptions (demo_command dp false) db fl dp false false None)).
  { eapply reads_given; [intros _; apply reads_flag; read_flag|by destruct dp]. }
  eapply (reads_app _ _ _ (mkOptions (demo_command dp dx) db fl dp dx false None)).
  { eapply reads_given; [intros _; apply reads_flag; read_flag|by destruct dp, dx]. }
  eapply (reads_app _ _ _ (mkOptions (demo_command dp dx) db fl dp dx af None)).
  { eapply reads_given; [intros _; apply reads_flag; read_flag|by destruct af]. }
  eapply (reads_app _ _ _ (mkOptions (demo_command dp dx) db fl dp dx af sm)).
  { destruct sm as [m|]; [|apply reads_nil]. apply reads_value. read_value. by rewrite parse_mcuboot_mode_named by congruence. }
  apply (reads_command (mkOptions (demo_command dp dx) db fl dp dx af sm) c Hc). cbn. by rewrite Hg.
Qed.

(** The rules of the shared flags and of the tool's own, as documented. *)
Record rules (o : Options) : Prop := {
  ru_one : Z.b2z (bool_decide (image_path (command o) <> [])) + Z.b2z (bool_decide (package_path (command o) <> []))
    + Z.b2z (demo_package o) + Z.b2z (demo_xip_package o) <= 1;
  ru_package : (commits (command o) <> [] \/ board (command o) <> None) ->
    package_path (command o) <> [] \/ demo_package o = true \/ demo_xip_package o = true;
  ru_secondary : image_secondary_path (command o) <> [] ->
    image_path (command o) <> [] /\ package_path (command o) = [] /\ demo_package o = false /\ demo_xip_package o = false;
  ru_apply : apply_fails o = true -> package_path (command o) <> [] \/ demo_package o = true \/ demo_xip_package o = true;
  ru_builds : demo_builds o = true ->
    image_path (command o) = [] /\ package_path (command o) = [] /\ demo_package o = false /\ demo_xip_package o = false
}.

Lemma accepted_rules o :
  generated_packages (command o) = Z.b2z (demo_package o) + Z.b2z (demo_xip_package o) ->
  valid (command o) false && (package_mode (command o) || negb (apply_fails o))
    && (negb (demo_builds o) || bool_decide (image_path (command o) = []) && negb (package_mode (command o))) = true <-> rules o.
Proof.
  destruct o as [c db fl dp dx af sm]. cbn [command demo_package demo_xip_package apply_fails demo_builds]. intros Hg.
  unfold valid, package_mode. rewrite Hg. split.
  - intros Hv. split; cbn [command demo_package demo_xip_package apply_fails demo_builds]; revert Hv;
      destruct dp, dx; cbn [Z.b2z Z.add]; repeat case_bool_decide; try done; destruct af, db; cbn; tauto || (intros; congruence) || done.
  - intros [H1 H2 H3 H4 H5]. revert H1 H2 H3 H4 H5. cbn [command demo_package demo_xip_package apply_fails demo_builds].
    destruct dp, dx; cbn [Z.b2z Z.add]; repeat case_bool_decide; try done; destruct af, db; cbn; try done; intuition congruence.
Qed.

(** Every command line [cli_dfu] is given is accepted or refused, without an
    argument read that is not there; one that says options is read as exactly
    these, accepted when they keep the rules and refused when they do not. *)
Lemma command_line_exact :
  (forall args, exists r, parse_arguments args = Some r) /\
  forall o, options_said o ->
    (rules o -> parse_arguments (options_line o) = Some (Some o)) /\
    (~ rules o -> parse_arguments (options_line o) = Some None).
Proof.
  split; [apply parse_arguments_total|]. intros o Ho. pose proof (accepted_rules o (os_generated _ Ho)) as Hr.
  destruct (reads_options o Ho [] []) as (k & Hk & E). cbn [app length] in E. rewrite app_nil_r in E.
  assert (iterate (arguments_body (options_line o)) (S (length (options_line o))) (O, new_options) = Some (Some (Some o))) as Hrun.
  { replace (S (length (options_line o))) with (k + S (length (options_line o) - k))%nat by lia. rewrite E. cbn [iterate].
    unfold arguments_body at 1. by rewrite Nat.ltb_irrefl. }
  unfold parse_arguments. rewrite Hrun. cbn [option_bind]. split.
  - intros H. by rewrite (proj2 Hr H).
  - intros H. destruct (_ && _ && _); [|done]. exfalso. by apply H, Hr.
Qed.

(** ** The inputs *)

(** Who commits an image: the last flag that names it, or what it is by
    default. *)
Fixpoint committed (cs : list (Z * CommitBy)) (image : Z) (default : CommitBy) : CommitBy :=
  match cs with
  | [] => default
  | (n, who) :: cs => committed cs image (if n =? image then who else default)
  end.

Definition with_commits (cs : list (Z * CommitBy)) (t : ImageTarget) : ImageTarget :=
  mkImageTarget (it_image t) (it_source t) (committed cs (it_image t) (it_commit t)) (it_secondary_source t).

Lemma set_commit_spec image who targets :
  NoDup (it_image <$> targets) ->
  set_commit image who targets =
    if bool_decide (image ∈ it_image <$> targets) then Success (with_commits [(image, who)] <$> targets)
    else fail InvalidArgument "inputs: no such image".
Proof.
  induction targets as [|t targets IH]; intros Hn; cbn [fmap list_fmap set_commit]; [done|].
  cbn [fmap list_fmap] in Hn. apply NoDup_cons in Hn as [Ht Hn]. destruct (Z.eqb_spec (it_image t) image) as [E|E].
  - rewrite bool_decide_eq_true_2 by (rewrite <- E; left). f_equal. f_equal.
    + unfold with_commits. cbn [committed]. by rewrite (proj2 (Z.eqb_eq _ _)).
    + rewrite <- (list_fmap_id targets) at 1. apply list_fmap_ext. intros k t' Hk. unfold with_commits. cbn [committed].
      rewrite (proj2 (Z.eqb_neq _ _)); [by destruct t'|]. intros Hi. apply Ht. rewrite E, Hi. apply list_elem_of_fmap. exists t'.
      split; [done|]. by eapply list_elem_of_lookup_2.
  - rewrite (IH Hn). destruct (bool_decide (image ∈ it_image <$> targets)) eqn:Eb; [apply bool_decide_eq_true in Eb|apply bool_decide_eq_false in Eb].
    + rewrite bool_decide_eq_true_2 by (by right). cbn [result_bind]. f_equal. f_equal. unfold with_commits. cbn [committed].
      rewrite (proj2 (Z.eqb_neq _ _)) by congruence. by destruct t.
    + rewrite bool_decide_eq_false_2; [done|]. intros [|]%elem_of_cons; [congruence|done].
Qed.

Lemma with_commits_images cs (targets : list ImageTarget) : it_image <$> (with_commits cs <$> targets) = it_image <$> targets.
Proof. rewrite <- list_fmap_compose. by apply list_fmap_ext. Qed.

Lemma set_commits_spec cs targets :
  NoDup (it_image <$> targets) ->
  if bool_decide (Forall (fun c => c.1 ∈ it_image <$> targets) cs)
  then set_commits_of cs targets = inl (with_commits cs <$> targets)
  else exists n, (n ∉ it_image <$> targets) /\
    set_commits_of cs targets = inr (chars "--commit " ++ chars (to_string_u n), Error_at InvalidArgument "inputs: no such image").
Proof.
  revert targets. induction cs as [|[n who] cs IH]; intros targets Hn; cbn [set_commits_of].
  - rewrite bool_decide_eq_true_2 by constructor. f_equal. rewrite <- (list_fmap_id targets) at 1. apply list_fmap_ext. by intros ? [] ?.
  - rewrite set_commit_spec by done. destruct (decide (n ∈ it_image <$> targets)) as [Hin|Hin];
      [rewrite (bool_decide_eq_true_2 _ Hin)|rewrite (bool_decide_eq_false_2 _ Hin)].
    + specialize (IH (with_commits [(n, who)] <$> targets)). rewrite !with_commits_images in IH. specialize (IH Hn).
      destruct (bool_decide (Forall (fun c => c.1 ∈ it_image <$> targets) cs)) eqn:E;
        [apply bool_decide_eq_true in E|apply bool_decide_eq_false in E].
      * rewrite bool_decide_eq_true_2 by (by constructor). rewrite IH. f_equal. rewrite <- list_fmap_compose. apply list_fmap_ext. by intros ? [] ?.
      * rewrite bool_decide_eq_false_2; [exact IH|]. by intros [_ ?]%Forall_cons.
    + rewrite bool_decide_eq_false_2 by (by intros [? _]%Forall_cons). by exists n.
Qed.

(** A list of targets [start] has nothing against: every image once, in order,
    each with a file. *)
Record listable (ts : list ImageTarget) : Prop := {
  li_some : ts <> [];
  li_sorted : StronglySorted Z.lt (it_image <$> ts);
  li_source : Forall (fun t => it_source t <> None) ts
}.

Lemma sorted_lt_NoDup (l : list Z) : StronglySorted Z.lt l -> NoDup l.
Proof.
  induction 1 as [|x l Hl IH Hx]; constructor; [|done]. intros Hin. rewrite Forall_forall in Hx. specialize (Hx x Hin). lia.
Qed.

Lemma listable_validates ts any :
  NoDup (it_image <$> ts) -> Forall (fun t => it_source t <> None) ts -> exists b, validate_targets ts any = Success b.
Proof.
  intros Hn Hs. revert any. induction Hs as [|t ts Ht Hs IH]; intros any; [by eexists|]. cbn in Hn. apply NoDup_cons in Hn as [Hi Hn].
  cbn [validate_targets]. destruct (it_source t); [|done].
  destruct (existsb _ ts) eqn:E; [|by apply IH]. exfalso. apply existsb_exists in E as (t' & Hin & He). apply Z.eqb_eq in He.
  apply Hi. rewrite <- He. apply list_elem_of_fmap. exists t'. split; [done|]. by apply list_elem_of_In.
Qed.

(** [start] refuses such a list only for what it finds in a file, where the plan
    gives no digest and polls. *)
Lemma listable_starts ts plan u :
  listable ts -> running_ u = false -> uo_sha (plan_upload plan) = None -> 0 < apply_poll_interval (decided plan) ->
  (start ts plan true u).1 = match read_targets ts with Success _ => Success tt | Fail e => Fail e end.
Proof.
  intros [Hne Hso Hsrc] Hu Hsha Hp. unfold start. rewrite Hu. cbn [negb]. unfold validate. destruct ts as [|t ts]; [done|].
  destruct (listable_validates (t :: ts) false (sorted_lt_NoDup _ Hso) Hsrc) as [b ->]. cbn [result_bind].
  rewrite Hsha, andb_false_r. rewrite (proj2 (Z.leb_gt _ _)) by done. rewrite andb_false_r. by destruct (read_targets _).
Qed.

Lemma listable_commits cs ts : listable ts -> listable (with_commits cs <$> ts).
Proof. intros [Hne Hso Hs]. split; [by destruct ts|by rewrite with_commits_images|]. apply Forall_fmap. exact Hs. Qed.

(** The target of a command: image 0 the client's, every other the device's, but
    for what the flags say. *)
Definition by_default (image : Z) : CommitBy := if image =? 0 then Client else Device.

Lemma package_listable archive p : package_ok archive p -> listable (package_target <$> k_images p).
Proof.
  intros ([Hl _] & _ & Hs & _). assert (it_image <$> (package_target <$> k_images p) = p_image <$> k_images p) as Hi
    by (rewrite <- list_fmap_compose; by apply list_fmap_ext).
  split; [destruct (k_images p); [cbn in Hl; lia|done]|by rewrite Hi|]. apply Forall_fmap, Forall_true. done.
Qed.

(** Where the bytes of the inputs come from. *)
Definition from_archive (archive : bytes) (c : UpdateCommand) (targets : list ImageTarget) : Prop :=
  exists p, read_package archive = Some (Success p) /\ package_ok archive p /\ targets = package_target <$> k_images p /\
    forall b, board c = Some b -> check_board p b = Success tt.

Lemma package_inputs archive c :
  byte_list archive -> safe (from_archive archive c) (from_package_bytes archive (board c)).
Proof.
  intros Hb. pose proof (read_package_safe archive Hb) as Hs. unfold from_package_bytes.
  destruct (read_package archive) as [[p|e]|] eqn:E; [|done|done]. cbn [checked_bind].
  destruct (board c) as [b|] eqn:Eb; [destruct (check_board p b) as [[]|] eqn:Ec|]; cbn [checked_bind safe]; try done;
    (exists p; split_and!; [done|done|done|intros b'; rewrite Eb; by intros [= <-]]).
Qed.

Definition from_file_pair (disk : bytes -> ifstream) (c : UpdateCommand) (targets : list ImageTarget) : Prop :=
  exists source second, open_file (disk (image_path c)) = Success source /\ targets = [mkImageTarget 0 (Some source) Client second].

Lemma file_inputs disk c : safe (from_file_pair disk c) (Some (from_files disk (image_path c) (image_secondary_path c))).
Proof.
  unfold from_files. case_bool_decide; [by case_bool_decide|]. destruct (open_file (disk (image_path c))) as [source|e] eqn:E; [|done].
  cbn [result_bind]. case_bool_decide; [by eexists _, _|]. destruct (open_file (disk (image_secondary_path c))) as [second|]; [|done].
  by eexists _, _.
Qed.

Definition disk_ok (disk : bytes -> ifstream) : Prop := forall path offset n, byte_list (delivers (disk path) offset n).

(** Where the inputs of a command come from. *)
Definition named_by (disk : bytes -> ifstream) (c : UpdateCommand) (generated : option bytes) (targets : list ImageTarget) : Prop :=
  (exists archive, byte_list archive /\ from_archive archive c targets) \/
  generated = None /\ package_path c = [] /\ from_file_pair disk c targets.

Lemma read_inputs_safe disk c generated :
  disk_ok disk -> (forall archive, generated = Some archive -> byte_list archive) ->
  safe (named_by disk c generated) (read_inputs disk c generated).
Proof.
  intros Hd Hg. unfold read_inputs. destruct generated as [archive|].
  - eapply safe_weaken; [|apply package_inputs, Hg; done]. intros ts Hts. left. exists archive. split; [by apply Hg|done].
  - case_bool_decide as Hp; cbn [negb].
    + eapply safe_weaken; [|apply file_inputs]. intros ts Hts. by right.
    + unfold from_package. destruct (is_open _); [cbn [negb]|done]. destruct (_ <? 0); [done|]. destruct (_ <? _); [done|].
      destruct (_ && _); [cbn [negb]|done].
      set (archive := take _ _). assert (byte_list archive) as Hb by (apply Forall_take, Hd).
      eapply safe_weaken; [|by apply package_inputs]. intros ts Hts. left. by exists archive.
Qed.

Lemma named_listable disk c generated targets : named_by disk c generated targets -> listable targets.
Proof.
  intros [(archive & _ & p & _ & Hp & -> & _)|(_ & _ & source & second & _ & ->)]; [by eapply package_listable|].
  split; [done|repeat constructor|by repeat constructor].
Qed.

Lemma named_commits disk c generated targets :
  named_by disk c generated targets -> Forall (fun t => it_commit t = by_default (it_image t)) targets.
Proof.
  intros [(archive & _ & p & _ & _ & -> & _)|(_ & _ & source & second & _ & ->)]; [apply Forall_fmap, Forall_true; done|by repeat constructor].
Qed.


(** ** A sample: a package with its second image committed by the client *)

Definition sample_command : UpdateCommand := set_commits [(1, Client)] (set_package_path (chars "update.zip") new_command).

Definition sample_disk (path : bytes) : ifstream := regular (write_zip sample_archive).


(** It does name two images, and the command line says it. *)
Example sample_inputs_read :
  match read_inputs sample_disk sample_command None with
  | Some (Success targets) =>
      match set_commits_of (commits sample_command) targets with
      | inl ts => (fun t => (it_image t, it_commit t)) <$> ts = [(0, Client); (1, Client)]
      | inr _ => False
      end
  | _ => False
  end.
Proof. vm_compute. reflexivity. Qed.

Example sample_line_read :
  parse_arguments (chars <$> ["--package"; "update.zip"; "--commit"; "1=client"]) =
    Some (Some (set_command sample_command new_options)).
Proof. vm_compute. reflexivity. Qed.
