(* ===== verification/UpdateRun.v ===== *)
(** * The update run

    [support/dfu_app/update_run.cpp]: the loop of an application around an
    update. It starts the update, polls the client and the updater, reconnects
    when the updater asks, asks the application whether to confirm, and ends
    with the update, a stop or a deadline. The updater is the one of
    FirmwareUpdater.v; the client is seen through what it hands the updater, and
    the clock, the waiting and the hooks are the application's.

    A [TimePoint] is in nanoseconds, a [Duration] of the settings in
    milliseconds. *)

From S2P Require Import Prelude Errors StoredZip McubootImage GroupCodecs UploadDriver ImageValues UpdateTypes UpdateMachine FirmwareUpdater ReconnectPolicy.

(** ** Data *)

(** What reaches the updater from the client: the oldest posted event, an answer
    to request [n], an upload's progress. *)
Inductive Arrival :=
| V_posted
| V_answer (n : nat) (a : Answer)
| V_progress (p : UploadProgress).

Definition as_input (v : Arrival) : Input :=
  match v with
  | V_posted => I_posted
  | V_answer n a => I_answer n a
  | V_progress p => I_progress p
  end.

(** [dfu_app::ReconnectAttempt]. *)
Record ReconnectAttempt := mkAttempt { number : Z; attempt_bound : Z; waited : Z }.

(** [dfu_app::LinkAttempt]; a link is known by a number. *)
Record LinkAttempt := mkLinkAttempt { la_link : option nat; la_gives_up : bool; la_error : option Error }.

(** [dfu_app::Approval], [dfu_app::RunEnd] and [UpdateRun::Episode]. *)
Inductive Approval := ApproveConfirm | ApproveStop.
Inductive RunEnd := Finished | Refused | StoppedBeforeConfirm | TimedOut.
Inductive Episode := Rebound | GaveUp | EpisodeTimedOut.

#[global] Instance RunEnd_eq_dec : EqDecision RunEnd.
Proof. solve_decision. Defined.

(** [dfu_app::UpdateRunSettings]. *)
Record UpdateRunSettings := mkRunSettings {
  rs_reconnect : ReconnectSettings;
  rs_overall_timeout : option Z;
  rs_unreachable : Error
}.

(** [dfu_app::UpdateRunOutcome]. *)
Record UpdateRunOutcome := mkRunOutcome {
  ro_end : RunEnd;
  ro_result : Result UpdateReport;
  ro_gave_up_reconnecting : bool
}.

(** What a hook does to the updater: calls of its own, and what reaches the
    updater when it polls the client. A hook runs outside every library call, so
    it may. *)
Definition HookCalls : Type := list (World * Input).

(** What is around the run: [UpdateWait], the client, and [UpdateRunHooks], an
    empty hook being [None]. [observe] is for output only. *)
Class RunEnv (E : Type) := {
  env_now : E -> TimePoint * E;
  env_wait_until : option TimePoint -> E -> list (World * Arrival) * E;
  env_sleep_for : Z -> E -> E;
  env_client_poll : TimePoint -> E -> list (World * Arrival) * E;
  env_client_deadline : E -> option TimePoint;
  env_rebind_transport : nat -> E -> list (World * Arrival) * E;
  env_world : E -> World;
  env_open_link : option (ReconnectAttempt -> E -> LinkAttempt * HookCalls * E);
  env_approve : option (E -> Approval * HookCalls * E);
  env_observe : UpdateEvent -> E -> E
}.

(** [UpdateRun], with the updater it drives and what is around it. *)
Record UpdateRun (E : Type) := mkRun {
  r_updater : Updater;
  r_env : E;
  r_settings : UpdateRunSettings;
  r_policy : ReconnectPolicy;
  r_inbox : list UpdateEvent;
  r_running : bool;
  r_reconnect_pending : bool;
  r_confirm_pending : bool;
  r_finished : option (Result UpdateReport);
  r_internal : option Error
}.

Arguments mkRun {E} _ _ _ _ _ _ _ _ _ _.
Arguments r_updater {E} _.
Arguments r_env {E} _.
Arguments r_settings {E} _.
Arguments r_policy {E} _.
Arguments r_inbox {E} _.
Arguments r_running {E} _.
Arguments r_reconnect_pending {E} _.
Arguments r_confirm_pending {E} _.
Arguments r_finished {E} _.
Arguments r_internal {E} _.

Section run.
Context {E : Type} `{RunEnv E}.
Implicit Types r : UpdateRun E.

Definition set_r_updater (x : Updater) r : UpdateRun E :=
  mkRun x (r_env r) (r_settings r) (r_policy r) (r_inbox r) (r_running r) (r_reconnect_pending r) (r_confirm_pending r) (r_finished r) (r_internal r).
Definition set_r_env (x : E) r : UpdateRun E :=
  mkRun (r_updater r) x (r_settings r) (r_policy r) (r_inbox r) (r_running r) (r_reconnect_pending r) (r_confirm_pending r) (r_finished r) (r_internal r).
Definition set_r_policy (x : ReconnectPolicy) r : UpdateRun E :=
  mkRun (r_updater r) (r_env r) (r_settings r) x (r_inbox r) (r_running r) (r_reconnect_pending r) (r_confirm_pending r) (r_finished r) (r_internal r).
Definition set_r_inbox (x : list UpdateEvent) r : UpdateRun E :=
  mkRun (r_updater r) (r_env r) (r_settings r) (r_policy r) x (r_running r) (r_reconnect_pending r) (r_confirm_pending r) (r_finished r) (r_internal r).
Definition set_r_running (x : bool) r : UpdateRun E :=
  mkRun (r_updater r) (r_env r) (r_settings r) (r_policy r) (r_inbox r) x (r_reconnect_pending r) (r_confirm_pending r) (r_finished r) (r_internal r).
Definition set_r_reconnect_pending (x : bool) r : UpdateRun E :=
  mkRun (r_updater r) (r_env r) (r_settings r) (r_policy r) (r_inbox r) (r_running r) x (r_confirm_pending r) (r_finished r) (r_internal r).
Definition set_r_confirm_pending (x : bool) r : UpdateRun E :=
  mkRun (r_updater r) (r_env r) (r_settings r) (r_policy r) (r_inbox r) (r_running r) (r_reconnect_pending r) x (r_finished r) (r_internal r).
Definition set_r_finished (x : option (Result UpdateReport)) r : UpdateRun E :=
  mkRun (r_updater r) (r_env r) (r_settings r) (r_policy r) (r_inbox r) (r_running r) (r_reconnect_pending r) (r_confirm_pending r) x (r_internal r).
Definition set_r_internal (x : option Error) r : UpdateRun E :=
  mkRun (r_updater r) (r_env r) (r_settings r) (r_policy r) (r_inbox r) (r_running r) (r_reconnect_pending r) (r_confirm_pending r) (r_finished r) x.

(** The constructor. *)
Definition new_run (u : Updater) (e : E) (settings : UpdateRunSettings) : UpdateRun E :=
  mkRun u e settings (new_policy (rs_reconnect settings)) [] false false false None None.

(** ** Calls *)

(** [event_handler]: it only queues, so inside it nothing is called. *)
Definition quiet_handler (h : list Output) : list Command := [].

Definition event_of (o : Output) : option UpdateEvent := match o with O_event e => Some e | _ => None end.

(** The updater after a call, and the events the call raised in the queue. *)
Definition after_call (u : Updater) r : UpdateRun E :=
  set_r_inbox (r_inbox r ++ omap event_of (drop (length (log (r_updater r))) (log u))) (set_r_updater u r).

Definition act_one (wi : World * Input) r : option (UpdateRun E) :=
  let! u := input_step quiet_handler wi (r_updater r) in
  Some (after_call u r).

Fixpoint hook_calls (calls : HookCalls) r : option (UpdateRun E) :=
  match calls with
  | [] => Some r
  | call :: calls => let! r := act_one call r in hook_calls calls r
  end.

Definition feed_one (wv : World * Arrival) r : option (UpdateRun E) := act_one (wv.1, as_input wv.2) r.

Fixpoint feed_all (vs : list (World * Arrival)) r : option (UpdateRun E) :=
  match vs with
  | [] => Some r
  | v :: vs => let! r := feed_one v r in feed_all vs r
  end.

(** [wait_.now()]. *)
Definition read_clock r : TimePoint * UpdateRun E :=
  let '(t, e) := env_now (r_env r) in (t, set_r_env e r).

Definition sleep_for (d : Z) r : UpdateRun E := set_r_env (env_sleep_for d (r_env r)) r.

(** [client_.poll(now)], [wait_.wait_until(deadline)] and
    [client_.rebind_transport(link)]. *)
Definition client_poll (now : TimePoint) r : option (UpdateRun E) :=
  let '(vs, e) := env_client_poll now (r_env r) in feed_all vs (set_r_env e r).
Definition wait_until (deadline : option TimePoint) r : option (UpdateRun E) :=
  let '(vs, e) := env_wait_until deadline (r_env r) in feed_all vs (set_r_env e r).
Definition rebind_transport (link : nat) r : option (UpdateRun E) :=
  let '(vs, e) := env_rebind_transport link (r_env r) in feed_all vs (set_r_env e r).

(** [updater_.poll(now)]. *)
Definition updater_poll (now : TimePoint) r : option (UpdateRun E) :=
  let! u := poll quiet_handler now (env_world (r_env r)) (r_updater r) in
  Some (after_call u r).

(** [refused]. *)
Definition refused (call : string) r : UpdateRun E :=
  let r := set_r_internal (Some (Error_at Internal call)) r in
  after_call (cancel (r_updater r)) r.

(** ** The loop *)

(** The body of the loop of [deliver]. *)
Definition deliver_event (event : UpdateEvent) r : UpdateRun E :=
  let r :=
    match event with
    | ReconnectRequired _ => set_r_reconnect_pending true r
    | ConfirmationRequired => set_r_confirm_pending true r
    | UpdateFinished result => set_r_finished (Some result) r
    | _ => r
    end in
  set_r_env (env_observe event (r_env r)) r.

(** [deliver]: with hooks for output only the queue does not grow meanwhile. *)
Definition deliver r : UpdateRun E :=
  foldl (fun r event => deliver_event event r) (set_r_inbox [] r) (r_inbox r).

(** Milliseconds in a [TimePoint], and [std::chrono::ceil<Duration>]. *)
Definition kTicks : Z := 1000000.
Definition ceil_ms (d : Z) : Z := - ((- d) / kTicks).

(** The end of an episode nobody could connect in. *)
Definition end_episode (why : option Error) r : Episode * UpdateRun E :=
  (GaveUp, after_call (reconnect_failed (default (rs_unreachable (r_settings r)) why) (r_updater r)) r).

(** The round of an episode from its [sleep_for(delay)] on. *)
Definition try_link (open_link : ReconnectAttempt -> E -> LinkAttempt * HookCalls * E) (delay : Z)
    (why : option Error) r : loop (UpdateRun E * option Error) (option (Episode * UpdateRun E)) :=
  let r := sleep_for delay r in
  let '(attempt, calls, e) :=
    open_link (mkAttempt (attempts_ (r_policy r)) (max_attempts (settings_ (r_policy r))) delay) (r_env r) in
  match hook_calls calls (set_r_env e r) with
  | None => Return None
  | Some r =>
      match la_link attempt with
      | Some link =>
          Return
            (let! r := rebind_transport link r in
             let r := set_r_policy (succeeded (r_policy r)) r in
             let '(result, u) := resume_after_reconnect (r_updater r) in
             let r := after_call u r in
             Some (Rebound,
                   match result with
                   | Success _ => r
                   | Fail _ => refused "update run: FirmwareUpdater::resume_after_reconnect() refused" r
                   end))
      | None =>
          let why := match la_error attempt with Some e => Some e | None => why end in
          if la_gives_up attempt then Return (Some (end_episode why r)) else Continue (r, why)
      end
  end.

(** The body of the loop of [reconnect]. *)
Definition episode_body (open_link : ReconnectAttempt -> E -> LinkAttempt * HookCalls * E) (deadline : option TimePoint)
    (s : UpdateRun E * option Error) : loop (UpdateRun E * option Error) (option (Episode * UpdateRun E)) :=
  let '(r, why) := s in
  if exhausted (r_policy r) then Return (Some (end_episode why r))
  else
    let with_delay (k : Z -> UpdateRun E -> loop (UpdateRun E * option Error) (option (Episode * UpdateRun E))) r :=
      match next_delay (r_policy r) with
      | None => Return None
      | Some (delay, policy) => k delay (set_r_policy policy r)
      end in
    match deadline with
    | None => with_delay (fun delay r => try_link open_link delay why r) r
    | Some deadline =>
        let '(now, r) := read_clock r in
        if deadline <=? now then Return (Some (EpisodeTimedOut, r))
        else
          with_delay (fun delay r =>
            let '(now, r) := read_clock r in
            let left := ceil_ms (deadline - now) in
            if left <=? delay then Return (Some (EpisodeTimedOut, sleep_for left r))
            else try_link open_link delay why r) r
    end.

(** [reconnect]. Every round takes an attempt of the policy's. *)
Definition reconnect (deadline : option TimePoint) r : option (Episode * UpdateRun E) :=
  match env_open_link with
  | None => Some (end_episode None r)
  | Some open_link =>
      let r := set_r_policy (begin (r_policy r)) r in
      default None
        (iterate (episode_body open_link deadline) (S (Z.to_nat (max_attempts (settings_ (r_policy r))))) (r, None))
  end.

(** [earliest] and [next_wake]. *)
Definition earliest (a b : option TimePoint) : option TimePoint :=
  match a, b with
  | None, _ => b
  | _, None => a
  | Some x, Some y => if x <? y then a else b
  end.

Definition next_wake (deadline : option TimePoint) r : option TimePoint :=
  earliest (earliest (env_client_deadline (r_env r)) (updater_deadline (r_updater r))) deadline.

(** The outcome of a run whose update has finished. *)
Definition finished_outcome (result : Result UpdateReport) (gave_up : bool) r : UpdateRunOutcome * UpdateRun E :=
  let outcome := match r_internal r with Some e => Fail e | None => result end in
  (mkRunOutcome Finished outcome gave_up, set_r_running false (set_r_finished None (set_r_internal None r))).

Definition timed_out (gave_up : bool) : UpdateRunOutcome :=
  mkRunOutcome TimedOut (fail Timeout "update run: overall deadline") gave_up.

(** The body of the loop of [run()]; [None] is a call that does not return. *)
Definition round (deadline : option TimePoint) (s : UpdateRun E * bool)
  : loop (UpdateRun E * bool) (option (UpdateRunOutcome * UpdateRun E)) :=
  let '(r, gave_up) := s in
  let '(now, r) := read_clock r in
  match (let! r := client_poll now r in updater_poll now r) with
  | None => Return None
  | Some r =>
      let r := deliver r in
      match r_finished r with
      | Some result => Return (Some (finished_outcome result gave_up r))
      | None =>
          if r_reconnect_pending r then
            match reconnect deadline r with
            | None => Return None
            | Some (Rebound, r) => Continue (set_r_reconnect_pending false r, gave_up)
            | Some (GaveUp, r) => Continue (set_r_reconnect_pending false r, true)
            | Some (EpisodeTimedOut, r) => Return (Some (timed_out gave_up, r))
            end
          else if r_confirm_pending r then
            let r := set_r_confirm_pending false r in
            let '(approval, calls, e) :=
              match env_approve with
              | Some approve => approve (r_env r)
              | None => (ApproveConfirm, [], r_env r)
              end in
            match hook_calls calls (set_r_env e r) with
            | None => Return None
            | Some r =>
                match approval with
                | ApproveConfirm =>
                    let '(result, u) := confirm (r_updater r) in
                    let r := after_call u r in
                    Continue
                      (match result with
                       | Success _ => r
                       | Fail _ => refused "update run: FirmwareUpdater::confirm() refused" r
                       end, gave_up)
                | ApproveStop =>
                    Return (Some (mkRunOutcome StoppedBeforeConfirm
                                    (fail InvalidState "update run: stopped before confirming") gave_up, r))
                end
            end
          else
            let '(late, r) :=
              match deadline with
              | None => (false, r)
              | Some deadline => let '(now, r) := read_clock r in (deadline <=? now, r)
              end in
            if late then Return (Some (timed_out gave_up, r))
            else
              match wait_until (next_wake deadline r) r with
              | None => Return None
              | Some r => Continue (r, gave_up)
              end
      end
  end.

(** [run()]. It may go on for as long as the update does: [fuel] bounds the
    rounds looked at. *)
Definition run_again (fuel : nat) r : option (option (UpdateRunOutcome * UpdateRun E)) :=
  if negb (r_running r)
  then Some (Some (mkRunOutcome Refused (fail InvalidState "update run: no update to carry on") false, r))
  else
    let '(deadline, r) :=
      match rs_overall_timeout (r_settings r) with
      | Some timeout => let '(now, r) := read_clock r in (Some (now + timeout * kTicks), r)
      | None => (None, r)
      end in
    iterate (round deadline) fuel (r, false).

(** [started]. *)
Definition started (fuel : nat) (result : Result unit) r : option (option (UpdateRunOutcome * UpdateRun E)) :=
  match result with
  | Fail e => Some (Some (mkRunOutcome Refused (Fail e) false, r))
  | Success _ => run_again fuel (set_r_running true r)
  end.

(** [run(targets, plan)]; the other overload passes one target. *)
Definition run_targets (fuel : nat) (targets : list ImageTarget) (plan : FullPlan) r
  : option (option (UpdateRunOutcome * UpdateRun E)) :=
  if r_running r then started fuel (fail InvalidState "update run: an update is running") r
  else
    let '(result, u) := start targets plan true (r_updater r) in
    let u := match result with Success _ => see (O_started targets plan) u | Fail e => see (O_returned (Fail e)) u end in
    started fuel result (after_call u r).

Definition run_source (fuel : nat) (source : option ImageSource) (plan : FullPlan) r
  : option (option (UpdateRunOutcome * UpdateRun E)) :=
  run_targets fuel [mkImageTarget (uo_image (plan_upload plan)) source Client None] plan r.
End run.
