(* ===== verification/UpdateRunProperties.v ===== *)
(** * Properties of the update run

    The comments of the run say that a call it makes on the updater is refused
    only when there is a bug, because nothing has polled since the event that
    asked for the call. That is proved here, against the updater of
    FirmwareUpdater.v and for every behaviour of the client, the device and the
    clock, with hooks that leave the updater alone: while an update waits for the application it has no
    request outstanding and no event posted, so nothing can move it. *)

From S2P Require Import Prelude Errors StoredZip McubootImage GroupCodecs UploadDriver ImageValues UpdateTypes UpdateMachine UpdateLemmas UpdateRuns UpdateProperties FirmwareUpdater FirmwareUpdaterProperties ReconnectPolicy UpdateRun.

(** ** The machine's table, once more *)

(** The effects that hand a request to a group. *)
Definition asks (e : Effect) : bool :=
  match e with
  | E_QueryParameters | E_QueryBootloader | E_ReadState | E_StartUpload | E_ResumeUpload
  | E_MarkForTest | E_Reset | E_ForceReset | E_Confirm => true
  | _ => false
  end.

(** The states in which the updater waits for something else than an answer. *)
Definition resting (st : UpdateState) : bool :=
  match st with
  | S_Idle | S_AwaitingDisconnect | S_AwaitingReconnect | S_AwaitingConfirmation => true
  | _ => false
  end.

(** What holds of every entry of the table. *)
Definition entry_ok (st : UpdateState) (o : outcome) : bool :=
  (negb (bool_decide (o.2 = E_None)) || bool_decide (o.1 = st)) &&
  (negb (resting o.1) || negb (asks o.2)) &&
  (negb (bool_decide (o.2 = E_AwaitApply)) || waiting_state o.1) &&
  (negb (bool_decide (o.2 = E_RequestReconnect)) || bool_decide (o.1 = S_AwaitingReconnect)) &&
  (negb (bool_decide (o.2 = E_RequestConfirmation)) || bool_decide (o.1 = S_AwaitingConfirmation)).

Lemma entries_checked st o : o ∈ outcomes st -> entry_ok st o = true.
Proof.
  assert (forallb (entry_ok st) (outcomes st) = true) as H by by destruct st.
  intros Ho. rewrite forallb_forall in H. by apply H, list_elem_of_In.
Qed.

Record table_entry (st next : UpdateState) (e : Effect) : Prop := {
  te_none : e = E_None -> next = st;
  te_resting : resting next = true -> asks e = false;
  te_await : e = E_AwaitApply -> waiting_state next = true;
  te_reconnect : e = E_RequestReconnect -> next = S_AwaitingReconnect;
  te_confirmation : e = E_RequestConfirmation -> next = S_AwaitingConfirmation
}.

Lemma apply_entry ev m s m' : apply ev m = (s, m') -> table_entry (state_ m) (next s) (effect s).
Proof.
  intros Ha. apply apply_spec in Ha as (_ & _ & -> & -> & _).
  pose proof (entries_checked _ _ (guarded_ends (plan_ m) (state_ m) ev (context_ m))) as H.
  unfold entry_ok, outcome_of in H. cbn [fst snd] in H. rewrite !andb_true_iff, !orb_true_iff, !negb_true_iff in H.
  destruct H as ((((H1 & H2) & H3) & H4) & H5).
  split; intros E.
  - destruct H1 as [H1|H1]; [by apply bool_decide_eq_false in H1|by apply bool_decide_eq_true in H1].
  - destruct H2 as [H2|H2]; congruence.
  - destruct H3 as [H3|H3]; [by apply bool_decide_eq_false in H3|done].
  - destruct H4 as [H4|H4]; [by apply bool_decide_eq_false in H4|by apply bool_decide_eq_true in H4].
  - destruct H5 as [H5|H5]; [by apply bool_decide_eq_false in H5|by apply bool_decide_eq_true in H5].
Qed.

(** A wait for the device is armed by the step that begins it. *)
Lemma apply_arms ev m s m' :
  apply ev m = (s, m') -> apply_poll (context_ m') <> None ->
  effect s = E_AwaitApply \/ apply_poll (context_ m) <> None.
Proof.
  intros Ha Hp. destruct (apply_timers ev m s m' Ha) as (c & Ht & Hc).
  destruct (decide (effect s = E_AwaitApply)) as [|He]; [by left|right].
  assert (apply_poll (context_ m') = apply_poll (keep_time s (now ev) (plan_ m) c)) as Hk by (unfold timers in Ht; congruence).
  assert (apply_poll c <> None) as Hc'.
  { rewrite Hk in Hp. unfold keep_time in Hp. destruct (effect s); try done; by case_bool_decide. }
  destruct Hc as [Hc|[_ Hc]]; unfold timers in Hc.
  - congruence.
  - cbn in Hc. congruence.
Qed.

(** The deadlines after a step are those of the decision, kept. *)
Lemma apply_timers_exact ev m s m' :
  apply ev m = (s, m') ->
  exists c, timers (context_ m') = timers (keep_time s (now ev) (plan_ m) c) /\
    timers c = timers (guarded_step (state_ m) ev (plan_ m) (context_ m)).2.
Proof.
  unfold apply. destruct (guarded_step _ _ _ _) as [s0 c0]. pose proof (timers_parameterise s0 (summarise c0)) as Hp.
  destruct (parameterise s0 (summarise c0)) as [s1 c1]. intros [= <- <-]. exists c1.
  split; [done|]. cbn in *. by rewrite Hp, timers_summarise.
Qed.

(** What a tick can decide. *)
Lemma tick_decision st t c :
  let r := tick st t c in
  is_terminal (next r.1) = true \/
  (next r.1 = st /\ effect r.1 = E_None) \/
  (st = S_AwaitingDisconnect /\ next r.1 = S_AwaitingReconnect /\ effect r.1 = E_RequestReconnect) \/
  (waiting_state st = true /\ apply_poll c <> None /\ next r.1 = st /\ effect r.1 = E_ReadState /\ apply_poll r.2 = None).
Proof.
  unfold tick. cbn zeta. case_bool_decide as Hd; cbn [andb].
  { destruct (due (grace_deadline c) t); [right; right; left; by subst|]. rewrite Hd. right. left. done. }
  destruct (waiting_state st) eqn:Hw; cbn [negb orb]; [|by right; left].
  destruct (due (apply_poll c) t) eqn:Hdue; cbn [negb]; [|by right; left].
  destruct (due (apply_deadline _) t); [by left|]. do 3 right. split_and!; try done.
  intros E. by rewrite E in Hdue.
Qed.

(** A tick asks for something only where a deadline is armed. *)
Lemma tick_step ev m s m' :
  kind ev = K_Tick -> apply ev m = (s, m') ->
  is_terminal (next s) = true \/
  (next s = state_ m /\ effect s = E_None) \/
  (state_ m = S_AwaitingDisconnect /\ next s = S_AwaitingReconnect /\ effect s = E_RequestReconnect) \/
  (waiting_state (state_ m) = true /\ apply_poll (context_ m) <> None /\ next s = state_ m /\
   effect s = E_ReadState /\ apply_poll (context_ m') = None).
Proof.
  intros Hk Ha. destruct (apply_timers_exact _ _ _ _ Ha) as (c & Ht & Hc).
  apply apply_spec in Ha as (_ & _ & Hn & He & _). rewrite Hn, He. clear Hn.
  revert Hc He. unfold guarded_step. destruct (_ || _).
  2:{ unfold fail_code. cbn. intros _ _. by left. }
  unfold decide_step. rewrite Hk. pose proof (tick_decision (state_ m) (now ev) (context_ m)) as Hd. cbn zeta in Hd.
  destruct (tick (state_ m) (now ev) (context_ m)) as [s0 c0]. cbn [fst snd] in *.
  destruct (names_current (effect s0) && _); [intros _ _; by left|]. cbn [fst snd]. intros Hc He.
  destruct Hd as [Hd|[Hd|[Hd|(H1 & H2 & H3 & H4 & H5)]]]; [by left|by right; left|by right; right; left|].
  do 3 right. split_and!; try done. unfold keep_time in Ht. rewrite He, H4 in Ht. unfold timers in *.
  case_bool_decide; cbn in Ht; congruence.
Qed.

(** ** What an event does to the updater, when the handler only queues *)

Definition is_reconnect (e : UpdateEvent) : bool := match e with ReconnectRequired _ => true | _ => false end.
Definition is_confirmation (e : UpdateEvent) : bool := match e with ConfirmationRequired => true | _ => false end.
Definition final_of (e : UpdateEvent) : option (Result UpdateReport) :=
  match e with UpdateFinished x => Some x | _ => None end.
Definition finals (l : list UpdateEvent) : list (Result UpdateReport) := omap final_of l.

Lemma quiet_restarts_later : restarts_later quiet_handler.
Proof. intros h r. constructor. Qed.

(** The effect of a step that does not end the update, and the events raised on
    the way there. *)
Record goes_on (e : Effect) (u u' : Updater) (evs : list UpdateEvent) : Prop := {
  go_running : running_ u' = true;
  go_outstanding : outstanding u' = outstanding u \/
    (asks e = true /\ exists q, outstanding u' = outstanding u ++ [q]);
  go_finals : finals evs = [];
  go_reconnect : existsb is_reconnect evs = true -> e = E_RequestReconnect;
  go_confirmation : existsb is_confirmation evs = true -> e = E_RequestConfirmation
}.

(** How many of the two calls the events ask for. *)
Definition asked (evs : list UpdateEvent) : nat :=
  (Nat.b2n (existsb is_reconnect evs) + Nat.b2n (existsb is_confirmation evs))%nat.

Lemma goes_on_asked e u u' evs :
  goes_on e u u' evs ->
  (asked evs <= 1)%nat /\ (e <> E_RequestReconnect -> e <> E_RequestConfirmation -> asked evs = 0%nat).
Proof.
  intros [_ _ _ Hr Hc]. unfold asked.
  destruct (existsb is_reconnect evs), (existsb is_confirmation evs); cbn.
  - rewrite Hr in Hc by done. by specialize (Hc eq_refl).
  - split; [done|]. intros Hn. by destruct Hn; apply Hr.
  - split; [done|]. intros _ Hn. by destruct Hn; apply Hc.
  - by split; [lia|].
Qed.

(** What was seen in between raised the events [evs], and accepted no update. *)
Definition grown (l l' : list Output) (evs : list UpdateEvent) : Prop :=
  exists os, l' = l ++ os /\ omap event_of os = evs /\ existsb is_started os = false.

Lemma grown_refl l : grown l l [].
Proof. exists []. by rewrite app_nil_r. Qed.

Lemma grown_trans l l' l'' evs evs' : grown l l' evs -> grown l' l'' evs' -> grown l l'' (evs ++ evs').
Proof.
  intros (os & -> & He & Hs) (os' & -> & He' & Hs'). exists (os ++ os'). rewrite <- app_assoc, omap_app, existsb_app.
  by rewrite He, He', Hs, Hs'.
Qed.

Lemma grown_one l o : is_started o = false -> grown l (l ++ [o]) (match event_of o with Some e => [e] | None => [] end).
Proof. intros Ho. exists [o]. split; [done|]. cbn. rewrite Ho. by destruct (event_of o). Qed.

Lemma grown_same l l' evs evs' : grown l l' evs -> grown l l' evs' -> evs = evs'.
Proof. intros (os & -> & <- & _) (os' & Ho & <- & _). apply app_inv_head in Ho. by subst. Qed.

Lemma grown_given l l' evs : grown l l' evs -> given l' = given l.
Proof.
  intros (os & -> & _ & Hs). induction os as [|o os IH] using rev_ind; [by rewrite app_nil_r|].
  rewrite existsb_app, orb_false_iff in Hs. destruct Hs as [Hs Ho]. cbn in Ho. rewrite orb_false_r in Ho.
  rewrite app_assoc, given_snoc by done. by apply IH.
Qed.

(** The members an event handed to the machine leaves alone, and the log. *)
Record logs (u u' : Updater) (evs : list UpdateEvent) : Prop := {
  lg_life : life_ u' = life_ u;
  lg_posted : posted u' = posted u;
  lg_log : grown (log u) (log u') evs
}.

Lemma logs_refl u : logs u u [].
Proof. split; [done..|]. apply grown_refl. Qed.

Lemma logs_trans u u' u'' evs evs' : logs u u' evs -> logs u' u'' evs' -> logs u u'' (evs ++ evs').
Proof.
  intros [Hl Hp Hg] [Hl' Hp' Hg']. split; [congruence..|]. by eapply grown_trans.
Qed.

Lemma logs_see o u : is_started o = false -> logs u (see o u) (match event_of o with Some e => [e] | None => [] end).
Proof. intros Ho. split; [done..|]. by apply grown_one. Qed.

Lemma quiet_emit e u : on_event_ u = true -> emit quiet_handler e u = see (O_event e) u.
Proof. intros Ho. unfold emit. by rewrite Ho. Qed.

(** A step carried out. *)
Lemma carried s w u m' :
  running_ u = true -> on_event_ u = true -> machine_ u = Some m' -> effect s <> E_Continue ->
  exists evs, logs u (carry_out quiet_handler s w u) evs /\
    if bool_decide (effect s = E_Finish)
    then running_ (carry_out quiet_handler s w u) = false /\ finals evs = [outcome_of_update m']
    else goes_on (effect s) u (carry_out quiet_handler s w u) evs.
Proof.
  intros Hr Ho Hm Hc. unfold carry_out. case_bool_decide as Hf.
  - rewrite Hf. unfold finish. cbn zeta. rewrite quiet_emit by done.
    eexists. split; [split; [done..|]|split; [done|]].
    + by apply grown_one.
    + cbn. unfold outcome_of_update, state, updater_report. cbn. by rewrite Hm.
  - assert (forall q, logs u (ask q u) []) as Hask.
    { intros q. split; [done..|]. by apply (grown_one _ (O_request q)). }
    destruct (effect s) eqn:He; try done; rewrite ?quiet_emit by done;
      try (by exists []; split; [apply logs_refl|split; auto]);
      try (by eexists; split; [apply Hask|split; try done; right; split; [done|by eexists]]);
      try (by eexists; split; [by apply logs_see|split; try done; by left]).
    unfold start_upload. cbn zeta. destruct (match sources_ u !! st_target s with Some _ => _ | None => _ end) as [source|].
    + exists []. split; [split; [done..|]; by apply (grown_one _ (O_request _))|]. split; try done. right. split; [done|by eexists].
    + eexists. split; [by apply logs_see|]. split; try done. by left.
Qed.

Lemma carried_machine s w u : on_event_ u = true -> machine_ (carry_out quiet_handler s w u) = machine_ u.
Proof.
  intros Ho. unfold carry_out, finish, start_upload. cbn zeta.
  destruct (effect s); rewrite ?quiet_emit by done; try done.
  by destruct (match sources_ u !! st_target s with Some _ => _ | None => _ end).
Qed.

Lemma announced a b u :
  on_event_ u = true -> exists evs, logs u (announce quiet_handler a b u) evs /\ finals evs = [] /\
    existsb is_reconnect evs = false /\ existsb is_confirmation evs = false /\
    running_ (announce quiet_handler a b u) = running_ u /\ on_event_ (announce quiet_handler a b u) = true /\
    machine_ (announce quiet_handler a b u) = machine_ u /\ outstanding (announce quiet_handler a b u) = outstanding u.
Proof.
  intros Ho. unfold announce. case_bool_decide; [exists []; split; [apply logs_refl|done]|].
  rewrite quiet_emit by done. eexists. split; [by apply logs_see|done].
Qed.

(** The step an event ends in: the machine's own, or the one after a decision
    that needs no answer. *)
Definition leads (ev : Event) (m m' : Machine) (s : Step) : Prop :=
  apply ev m = (s, m') \/
  exists s0 m1 ev1, apply ev m = (s0, m1) /\ effect s0 = E_Continue /\ kind ev1 = K_Continue /\ apply ev1 m1 = (s, m').

(** An event handed to a running updater. *)
Lemma dispatched ev w u m :
  tracks u -> running_ u = true -> machine_ u = Some m ->
  exists u' s m' evs, dispatch quiet_handler ev w u = Some u' /\ tracks u' /\ logs u u' evs /\
    machine_ u' = Some m' /\ state_ m' = next s /\ leads (stamp (last_poll_ u) ev) m m' s /\
    (if is_terminal (next s) then running_ u' = false /\ finals evs = [outcome_of_update m']
     else goes_on (effect s) u u' evs).
Proof.
  intros Ht Hr Hm. destruct (dispatch_tracks quiet_handler ev w u quiet_restarts_later Ht) as (u' & Hd & Ht').
  pose proof (tk_callback _ Ht) as Ho. rewrite Hr in Ho.
  assert (is_terminal (state_ m) = false) as Hlive.
  { destruct (tk_machine _ Ht m Hm) as (?&?&?&?&_&_&_&_&_&H). by rewrite H, Hr. }
  assert (forall m1 u1 s m', is_terminal (state_ m1) = false -> running_ u1 = true -> on_event_ u1 = true -> machine_ u1 = Some m' ->
    forall ev1, apply ev1 m1 = (s, m') -> effect s <> E_Continue ->
    forall prev u2, u2 = carry_out quiet_handler s w (announce quiet_handler prev (next s) u1) ->
    exists evs, logs u1 u2 evs /\ machine_ u2 = Some m' /\ state_ m' = next s /\
      (if is_terminal (next s) then running_ u2 = false /\ finals evs = [outcome_of_update m']
       else goes_on (effect s) u1 u2 evs)) as Hend.
  { intros m1 u1 s m' Hl Hr1 Ho1 Hm1 ev1 Ha Hc prev u2 ->.
    destruct (apply_kind _ _ _ _ Hl Ha) as (Hst & Hterm & _).
    destruct (announced prev (next s) u1 Ho1) as (es & Hlog & Hfin & Hre & Hco & Hra & Hoa & Hma & Hou).
    destruct (carried s w (announce quiet_handler prev (next s) u1) m') as (es' & Hlog' & Hres); [congruence..|].
    exists (es ++ es'). split; [by eapply logs_trans|]. split; [by rewrite carried_machine, Hma|]. split; [done|].
    rewrite Hterm. case_bool_decide.
    - destruct Hres as [? Hf]. split; [done|]. unfold finals in *. by rewrite omap_app, Hfin, Hf.
    - destruct Hres as [H1 H2 H3 H4 H5]. split; [done|by rewrite <- Hou|unfold finals in *; by rewrite omap_app, Hfin, H3|..];
        by rewrite existsb_app, ?Hre, ?Hco. }
  revert Hd. unfold dispatch. rewrite Hr, Hm. destruct (apply _ m) as [s m1] eqn:Ha.
  unfold dispatch_fuel. cbn [dispatch_loop]. case_bool_decide as He.
  - intros [= <-]. destruct (Hend m (set_machine_ (Some m1) u) s m1 Hlive Hr Ho eq_refl _ Ha He (state_ m) _ eq_refl) as (evs & Hlog & Hm' & Hst & Hres).
    eexists _, s, m1, evs. split; [done|]. split; [done|]. split; [by destruct Hlog|]. split; [done|]. split; [done|]. split; [by left|].
    destruct (is_terminal (next s)); [done|]. by destruct Hres.
  - assert (effect s = E_Continue) as He' by (destruct (decide (effect s = E_Continue)); [done|by destruct He]).
    destruct (apply_kind _ _ _ _ Hlive Ha) as (Hst & Hterm & Hplan).
    rewrite (bool_decide_eq_false_2 (effect s = E_Finish)) in Hterm by congruence.
    destruct (announced (state_ m) (next s) (set_machine_ (Some m1) u) Ho) as (es & Hlog & Hfin & Hre & Hco & Hra & Hoa & Hma & Hou).
    set (u1 := announce _ _ _ _) in *. cbn in Hma. rewrite Hma.
    destruct (apply (stamp (last_poll_ u1) (plain K_Continue)) m1) as [s' m'] eqn:Ha'. case_bool_decide as Hc; [|done].
    intros [= <-].
    destruct (Hend m1 (set_machine_ (Some m') u1) s' m' ltac:(by rewrite Hst) ltac:(cbn; rewrite Hra; exact Hr) Hoa eq_refl _ Ha' Hc (next s) _ eq_refl)
      as (evs & Hlog' & Hm' & Hst' & Hres).
    eexists _, s', m', (es ++ evs). split; [done|]. split; [done|].
    split; [by apply (logs_trans u u1); destruct Hlog, Hlog'|]. split; [done|]. split; [done|].
    split; [right; exists s, m1, (stamp (last_poll_ u1) (plain K_Continue)); by split_and!|].
    destruct (is_terminal (next s')).
    + destruct Hres as [? Hf]. split; [done|]. unfold finals in *. by rewrite omap_app, Hfin, Hf.
    + destruct Hres as [H1 H2 H3 H4 H5]. cbn in Hou, H2. split; [done|by rewrite <- Hou|unfold finals in *; by rewrite omap_app, Hfin, H3|..];
        by rewrite existsb_app, ?Hre, ?Hco.
Qed.

(** ** An updater between two calls of the run *)

(** What may be posted: one call of the application, in a state that waits for
    it. *)
Definition posted_ok (st : UpdateState) (l : list Event) : Prop :=
  l = [] \/
  ((st = S_Idle \/ st = S_AwaitingReconnect \/ st = S_AwaitingConfirmation) /\
   exists ev, l = [ev] /\ kind ev <> K_Tick).

(** While an update runs at most one request is outstanding, none where it waits
    for something else; and a wait for the device is armed only there. *)
Record steady (u : Updater) : Prop := {
  sd_tracks : tracks u;
  sd_life : life_ u = true;
  sd_rest : running_ u = true -> resting (state u) = true -> outstanding u = [];
  sd_one : running_ u = true -> (length (outstanding u) <= 1)%nat;
  sd_armed : running_ u = true -> forall m, machine_ u = Some m -> apply_poll (context_ m) <> None ->
    waiting_state (state u) = true /\ outstanding u = [];
  sd_posted : running_ u = true -> posted_ok (state u) (posted u)
}.

(** The two states that wait for the application. *)
Definition owed (st : UpdateState) : bool :=
  match st with S_AwaitingReconnect | S_AwaitingConfirmation => true | _ => false end.

(** From one to the next, with the events raised: an update that goes on raised
    no end, is where it says the application is needed, and stays there; one
    that ends says so, once, with its machine's outcome. *)
Record moved (u u' : Updater) (evs : list UpdateEvent) : Prop := {
  mv_log : grown (log u) (log u') evs;
  mv_idle : running_ u = false -> running_ u' = false /\ evs = [] /\ machine_ u' = machine_ u;
  mv_end : running_ u = true -> running_ u' = false ->
    exists m', machine_ u' = Some m' /\ finals evs = [outcome_of_update m'];
  mv_on : running_ u' = true ->
    finals evs = [] /\
    (existsb is_reconnect evs = true -> state u' = S_AwaitingReconnect /\ posted u' = []) /\
    (existsb is_confirmation evs = true -> state u' = S_AwaitingConfirmation /\ posted u' = []) /\
    (owed (state u) = true -> posted u = [] -> state u' = state u /\ posted u' = [])
}.

(** A poll asks the application for a call only as it leaves the wait for the
    link to go down. *)
Definition awaits_drop (u : Updater) : nat := Nat.b2n (bool_decide (state u = S_AwaitingDisconnect)).
Definition pays (u u' : Updater) (evs : list UpdateEvent) : Prop :=
  running_ u' = true -> (2 * awaits_drop u' + asked evs <= 2 * awaits_drop u)%nat.

Lemma steady_machine u : steady u -> running_ u = true -> exists m, machine_ u = Some m /\ state u = state_ m /\ is_terminal (state_ m) = false.
Proof.
  intros Hs Hr. destruct (machine_ u) as [m|] eqn:Hm; [|destruct (tk_none _ (sd_tracks _ Hs) Hm); congruence].
  exists m. unfold state. rewrite Hm. split_and!; try done.
  destruct (tk_machine _ (sd_tracks _ Hs) m Hm) as (?&?&?&?&_&_&_&_&_&H). by rewrite H, Hr.
Qed.

(** Nothing happened. *)
Lemma moved_refl u : moved u u [].
Proof. split; [apply grown_refl|done|congruence|done]. Qed.

Lemma state_of u m : machine_ u = Some m -> state u = state_ m.
Proof. intros Hm. unfold state. by rewrite Hm. Qed.

(** The machine takes an event that is not a tick, with nothing outstanding,
    posted or armed. *)
Lemma dispatch_fresh ev w u m :
  tracks u -> life_ u = true -> running_ u = true -> machine_ u = Some m -> outstanding u = [] -> posted u = [] ->
  apply_poll (context_ m) = None ->
  exists u' evs, dispatch quiet_handler ev w u = Some u' /\ steady u' /\ logs u u' evs /\
    (if running_ u'
     then finals evs = [] /\
       (existsb is_reconnect evs = true -> state u' = S_AwaitingReconnect) /\
       (existsb is_confirmation evs = true -> state u' = S_AwaitingConfirmation)
     else exists m', machine_ u' = Some m' /\ finals evs = [outcome_of_update m']).
Proof.
  intros Ht Hlife Hr Hm Ho Hp Hap.
  destruct (dispatched ev w u m Ht Hr Hm) as (u' & s & m' & evs & Hd & Ht' & Hlog & Hm' & Hst & Hlead & Hres).
  exists u', evs. split; [done|]. pose proof (state_of _ _ Hm') as Hsu. rewrite Hst in Hsu.
  assert (exists st0, table_entry st0 (next s) (effect s)) as [st0 [_ Hrest Haw Hre Hco]].
  { destruct Hlead as [Ha|(s0 & m1 & ev1 & _ & _ & _ & Ha)]; eexists; by eapply apply_entry. }
  assert (apply_poll (context_ m') <> None -> effect s = E_AwaitApply) as Harm.
  { intros Hn. destruct Hlead as [Ha|(s0 & m1 & ev1 & Ha0 & Hc & _ & Ha)];
      destruct (apply_arms _ _ _ _ Ha Hn) as [|H1]; try done.
    destruct (apply_arms _ _ _ _ Ha0 H1) as [|H2]; [congruence|done]. }
  destruct (is_terminal (next s)) eqn:Hterm.
  - destruct Hres as [Hr' Hf]. rewrite Hr'. split; [|split; [done|by eexists]].
    split; try congruence. by destruct Hlog as [-> _ _].
  - destruct Hres as [Hr' Hou Hf Her Hec]. rewrite Hr'. split; [|split; [done|]].
    2:{ split_and!; [done|intros E; rewrite Hsu; auto|intros E; rewrite Hsu; auto]. }
    split; [done|by destruct Hlog as [-> _ _]|intros _..].
    + intros Hq. rewrite Hsu in Hq. destruct Hou as [->|[Hask _]]; [done|]. rewrite (Hrest Hq) in Hask. done.
    + destruct Hou as [->|[_ [q ->]]]; rewrite Ho; cbn; lia.
    + intros m0 Hm0 Hn. assert (m0 = m') as -> by congruence. pose proof (Harm Hn) as He. rewrite Hsu. split; [auto|].
      destruct Hou as [->|[Hask _]]; [done|]. by rewrite He in Hask.
    + left. destruct Hlog as [_ -> _]. done.
Qed.

Lemma posted_resting u : steady u -> running_ u = true -> owed (state u) = false -> state u <> S_Idle -> posted u = [].
Proof. intros Hs Hr Hw Hi. destruct (sd_posted _ Hs Hr) as [|[[E|[E|E]] _]]; [done|done|by rewrite E in Hw..]. Qed.

(** The machine takes a tick. *)
Lemma dispatch_tick w u :
  steady u -> running_ u = true ->
  exists u' evs, dispatch quiet_handler (plain K_Tick) w u = Some u' /\ steady u' /\ moved u u' evs /\ pays u u' evs.
Proof.
  intros Hs Hr. destruct (steady_machine u Hs Hr) as (m & Hm & Hsm & Hlive).
  destruct (dispatched (plain K_Tick) w u m (sd_tracks _ Hs) Hr Hm) as (u' & s & m' & evs & Hd & Ht' & Hlog & Hm' & Hst & Hlead & Hres).
  exists u', evs. split; [done|]. pose proof (state_of _ _ Hm') as Hsu. rewrite Hst in Hsu.
  assert (apply (stamp (last_poll_ u) (plain K_Tick)) m = (s, m')) as Ha.
  { destruct Hlead as [Ha|(s0 & m1 & ev1 & Ha & Hc & _)]; [done|exfalso].
    destruct (apply_kind _ _ _ _ Hlive Ha) as (_ & Hk & _). rewrite (bool_decide_eq_false_2 (effect s0 = E_Finish)) in Hk by congruence.
    destruct (tick_step (stamp (last_poll_ u) (plain K_Tick)) _ _ _ eq_refl Ha) as [?|[[_ ?]|[(_ & _ & ?)|(_ & _ & _ & ? & _)]]]; congruence. }
  clear Hlead. pose proof (apply_entry _ _ _ _ Ha) as [_ Hrest Haw Hre Hco].
  destruct (is_terminal (next s)) eqn:Hterm.
  { destruct Hres as [Hr' Hf]. split.
    - split; try congruence. destruct Hlog as [-> _ _]. by apply Hs.
    - split; [|intros E; congruence]. split; [by apply Hlog|congruence|intros _ _; by eexists|congruence]. }
  pose proof Hres as Hgo. destruct Hres as [Hr' Hou Hf Her Hec]. pose proof Hlog as [Hli Hpo Hlg]. pose proof (sd_life _ Hs) as Hlife.
  destruct (tick_step (stamp (last_poll_ u) (plain K_Tick)) _ _ _ eq_refl Ha) as [?|[[Hn He]|[(Hd0 & Hn & He)|(Hw & Hap & Hn & He & Hap')]]]; [congruence|..].
  - assert (outstanding u' = outstanding u) as Hou' by (destruct Hou as [|[Hask _]]; [done|by rewrite He in Hask]).
    assert (state u' = state u) as Hst' by congruence.
    split.
    + split; [done|congruence|intros _; rewrite Hst', Hou'; by apply Hs|intros _; rewrite Hou'; by apply Hs| |
        intros _; rewrite Hst', Hpo; by apply Hs].
      intros _ m0 Hm0 Hp0. assert (m0 = m') as -> by congruence. destruct (apply_arms _ _ _ _ Ha Hp0) as [|H1]; [congruence|].
      rewrite Hst', Hou'. by eapply sd_armed.
    + split; [|intros _; unfold awaits_drop; rewrite Hst', (proj2 (goes_on_asked _ _ _ _ Hgo)) by congruence; lia].
      split; [done|congruence|congruence|]. intros _. split_and!; [done|intros E; specialize (Her E); congruence|intros E; specialize (Hec E); congruence|].
      by rewrite Hpo.
  - assert (resting (state u) = true /\ owed (state u) = false /\ state u <> S_Idle) as (Hq & Hw & Hni) by by rewrite Hsm, Hd0.
    pose proof (posted_resting u Hs Hr Hw Hni) as Hpn. pose proof (sd_rest _ Hs Hr Hq) as Hon.
    assert (outstanding u' = []) as Hou' by (destruct Hou as [->|[Hask _]]; [done|by rewrite He in Hask]).
    split.
    + split; [done|congruence|done|intros _; rewrite Hou'; cbn; lia| |intros _; left; congruence].
      intros _ m0 Hm0 Hp0. assert (m0 = m') as -> by congruence. destruct (apply_arms _ _ _ _ Ha Hp0) as [|H1]; [congruence|].
      destruct (sd_armed _ Hs Hr m Hm H1) as [Hws _]. by rewrite Hsm, Hd0 in Hws.
    + split.
      2:{ intros _. pose proof (proj1 (goes_on_asked _ _ _ _ Hgo)). unfold awaits_drop. rewrite Hsu, Hn, Hsm, Hd0, bool_decide_eq_false_2, bool_decide_eq_true_2 by done. cbn. lia. }
      split; [done|congruence|congruence|]. intros _. split_and!; [done|intros _; split; congruence|intros E; specialize (Hec E); congruence|].
      intros E. by rewrite E in Hw.
  - assert (owed (state u) = false /\ state u <> S_Idle) as [Hwn Hni] by (rewrite Hsm; destruct (state_ m); done).
    pose proof (posted_resting u Hs Hr Hwn Hni) as Hpn. destruct (sd_armed _ Hs Hr m Hm Hap) as [_ Hon].
    split.
    + split; [done|congruence|intros _ E; rewrite Hsu in E; apply Hrest in E; by rewrite He in E| |intros _ m0 Hm0; congruence|intros _; left; congruence].
      intros _. destruct Hou as [->|[_ [q ->]]]; rewrite Hon; cbn; lia.
    + split; [|intros _; unfold awaits_drop; rewrite Hsu, Hn, Hsm, (proj2 (goes_on_asked _ _ _ _ Hgo)) by congruence; lia].
      split; [done|congruence|congruence|]. intros _.
      split_and!; [done|intros E; specialize (Her E); congruence|intros E; specialize (Hec E); congruence|].
      intros E. by rewrite E in Hwn.
Qed.

(** Only these members matter to a steady updater. *)
Lemma steady_same u u' :
  steady u -> tracks u' -> machine_ u' = machine_ u -> running_ u' = running_ u -> life_ u' = life_ u ->
  (running_ u = true -> outstanding u' = outstanding u \/ outstanding u' = []) -> (running_ u = true -> posted_ok (state u) (posted u')) -> steady u'.
Proof.
  intros [Ht Hli Hq Ho Ha Hp] Ht' Hm Hr Hl Hou Hpo. assert (state u' = state u) as Hst by (unfold state; by rewrite Hm).
  split; [done|congruence|rewrite Hr, ?Hst..].
  - intros H1 H2. destruct (Hou H1) as [->|]; auto.
  - intros H1. destruct (Hou H1) as [->| ->]; [auto|cbn; lia].
  - intros H1 m Hm0 Hp0. rewrite Hm in Hm0. destruct (Ha H1 m Hm0 Hp0). split; [done|]. by destruct (Hou H1) as [->|].
  - done.
Qed.

(** Nothing was handed to the machine. *)
Lemma moved_same u u' :
  machine_ u' = machine_ u -> running_ u' = running_ u -> log u' = log u ->
  (owed (state u) = true -> posted u = [] -> posted u' = []) -> moved u u' [].
Proof.
  intros Hm Hr Hl Hp. split; [rewrite Hl; apply grown_refl|intros E; by rewrite Hr|congruence|].
  intros _. split_and!; [done..|]. intros E1 E2. split; [unfold state; by rewrite Hm|auto].
Qed.

Lemma owed_resting st : owed st = true -> resting st = true.
Proof. by destruct st. Qed.

Lemma arrives w v u :
  steady u -> exists u' evs, input_step quiet_handler (w, as_input v) u = Some u' /\ steady u' /\ moved u u' evs.
Proof.
  intros Hs. pose proof (sd_tracks _ Hs) as Ht. unfold input_step. rewrite (sd_life _ Hs). cbn [negb].
  destruct v as [|n a|p]; cbn [as_input].
  - destruct (posted u) as [|ev evs] eqn:Hp; [exists u, []; split; [done|]; split; [done|apply moved_refl]|].
    assert (tracks (set_posted evs u)) as Ht' by by eapply tracks_same.
    destruct (running_ u) eqn:Hr.
    2:{ exists (set_posted evs u), []. unfold dispatch. cbn [running_ set_posted]. rewrite Hr. split; [done|].
        split; [eapply steady_same; try done; [by left|congruence]|apply moved_same; try done; congruence]. }
    destruct (steady_machine u Hs Hr) as (m & Hm & Hsm & Hlive).
    destruct (sd_posted _ Hs Hr) as [|[Hst (ev0 & E & Hk)]]; [congruence|]. rewrite Hp in E. injection E as -> ->.
    assert (resting (state u) = true /\ waiting_state (state u) = false) as [Hq Hw] by by destruct Hst as [->|[->| ->]].
    destruct (dispatch_fresh ev0 w (set_posted [] u) m Ht' (sd_life _ Hs) Hr Hm (sd_rest _ Hs Hr Hq) eq_refl) as (u' & es & Hd & Hs' & Hlog & Hres).
    { destruct (apply_poll (context_ m)) eqn:Ea; [|done]. destruct (sd_armed _ Hs Hr m Hm) as [Hc _]; congruence. }
    exists u', es. split; [done|]. split; [done|]. destruct Hlog as [_ Hpo Hlg]. cbn in Hpo.
    split; [done|congruence|intros _ E; by rewrite E in Hres|].
    intros E. rewrite E in Hres. destruct Hres as (Hf & H1 & H2). split_and!; [done|auto..|congruence].
  - destruct (List.find _ (outstanding u)) as [[k q]|] eqn:Hfind; [|exists u, []; split; [done|]; split; [done|apply moved_refl]].
    set (u0 := set_outstanding (filter (fun p => p.1 <> n) (outstanding u)) u).
    assert (tracks u0) as Ht' by by eapply tracks_same.
    destruct (running_ u) eqn:Hr.
    2:{ exists u0, []. destruct (answer_event _ _ _ _); [unfold dispatch; cbn [running_ u0 set_outstanding]; rewrite Hr|];
        (split; [done|]); (split; [eapply steady_same; try done; congruence|by apply moved_same]). }
    destruct (steady_machine u Hs Hr) as (m & Hm & Hsm & Hlive).
    apply List.find_some in Hfind as [Hin Hkn]. apply Nat.eqb_eq in Hkn. cbn in Hkn. subst k.
    assert (outstanding u = [(n, q)]) as Hou.
    { pose proof (sd_one _ Hs Hr) as Ho. destruct (outstanding u) as [|x [|y l]]; cbn in *; [done|by destruct Hin as [->|]|lia]. }
    assert (outstanding u0 = []) as Hou0.
    { unfold u0. cbn. rewrite Hou. unfold filter. cbn. rewrite decide_False by (intros []; done). done. }
    assert (resting (state u) = false) as Hq.
    { destruct (resting (state u)) eqn:E; [|done]. pose proof (sd_rest _ Hs Hr E). congruence. }
    assert (owed (state u) = false) as Hw by (destruct (owed (state u)) eqn:E; [apply owed_resting in E; congruence|done]).
    assert (posted u = []) as Hp by (apply posted_resting; try done; intros E; by rewrite E in Hq).
    destruct (answer_event q a w u0) as [ev|].
    + destruct (dispatch_fresh ev w u0 m Ht' (sd_life _ Hs) Hr Hm Hou0 Hp) as (u' & es & Hd & Hs' & Hlog & Hres).
      { destruct (apply_poll (context_ m)) eqn:Ea; [|done]. destruct (sd_armed _ Hs Hr m Hm) as [_ Hc]; congruence. }
      exists u', es. split; [done|]. split; [done|]. destruct Hlog as [_ Hpo Hlg]. cbn in Hpo.
      split; [done|unfold u0; congruence|intros _ E; by rewrite E in Hres|].
      intros E. rewrite E in Hres. destruct Hres as (Hf & H1 & H2). split_and!; [done|split; [auto|congruence]..|congruence].
    + exists u0, []. split; [done|]. split; [|by apply moved_same].
      eapply steady_same; try done; [by right|]. intros _. by apply Hs.
  - unfold emit. destruct (on_event_ u) eqn:Ho.
    + exists (see (O_event (UploadProgressed p)) u), [UploadProgressed p]. split; [done|].
      split.
      * eapply steady_same; try done; [|by left|apply Hs]. eapply tracks_beside; [by apply beside_see|done].
      * split; [by apply (grown_one _ (O_event _))| |cbn; congruence|done]. intros E. pose proof (tk_callback _ Ht). congruence.
    + exists u, []. split; [done|]. split; [done|apply moved_refl].
Qed.

(** Nor does anything that arrives move an update that waits for the
    application: at most an upload's progress is passed on. *)
Lemma arrives_owed w v u :
  steady u -> running_ u = true -> owed (state u) = true -> posted u = [] ->
  input_step quiet_handler (w, as_input v) u = Some u \/
  exists p, input_step quiet_handler (w, as_input v) u = Some (see (O_event (UploadProgressed p)) u).
Proof.
  intros Hs Hr Hw Hp. pose proof (sd_rest _ Hs Hr (owed_resting _ Hw)) as Ho.
  unfold input_step. rewrite (sd_life _ Hs). cbn [negb]. destruct v as [|n a|p]; cbn [as_input].
  - rewrite Hp. by left.
  - rewrite Ho. by left.
  - rewrite quiet_emit by (rewrite (tk_callback _ (sd_tracks _ Hs)); done). right. by exists p.
Qed.

Lemma steady_last_poll t u : steady u -> steady (set_last_poll_ t u).
Proof. intros Hs. pose proof (sd_tracks _ Hs). eapply steady_same; try done; [by eapply tracks_same|by left|apply Hs]. Qed.

Lemma moved_last_poll t u u' evs : moved (set_last_poll_ t u) u' evs -> moved u u' evs.
Proof. intros [H1 H2 H3 H4]. by split. Qed.

(** The link going down ends the wait for it. *)
Lemma drop_step ev m m' s :
  kind ev = K_Disconnected -> state_ m = S_AwaitingDisconnect -> leads ev m m' s -> is_terminal (next s) = false ->
  next s = S_AwaitingReconnect.
Proof.
  intros Hk Hst Hlead Hn.
  assert (forall s0 m0, apply ev m = (s0, m0) -> is_terminal (next s0) = true \/ next s0 = S_AwaitingReconnect /\ effect s0 = E_RequestReconnect) as Hd.
  { intros s0 m0 Ha. apply apply_spec in Ha as (_ & _ & -> & -> & _). unfold guarded_step. destruct (_ || _); [|by left].
    rewrite Hst. unfold decide_step. rewrite Hk. cbn [fst snd]. by destruct (names_current _ && _); [left|right]. }
  destruct Hlead as [Ha|(s0 & m1 & ev1 & Ha & Hc & _ & _)].
  - destruct (Hd _ _ Ha) as [|[]]; congruence.
  - destruct (Hd _ _ Ha) as [Ht|[_ He]]; [|congruence].
    assert (is_terminal (state_ m) = false) as Hl by by rewrite Hst.
    destruct (apply_kind _ _ _ _ Hl Ha) as (_ & Hterm & _). rewrite Ht in Hterm. symmetry in Hterm. apply bool_decide_eq_true in Hterm. congruence.
Qed.

(** A poll of the updater. *)
Lemma polled t w u :
  steady u -> exists u' evs, poll quiet_handler t w u = Some u' /\ steady u' /\ moved u u' evs /\ pays u u' evs.
Proof.
  intros Hs0. unfold poll. cbn zeta. pose proof (steady_last_poll t u Hs0) as Hs.
  enough (exists u' evs, (if negb (running_ (set_last_poll_ t u)) then Some (set_last_poll_ t u)
    else if bool_decide (state (set_last_poll_ t u) = S_AwaitingDisconnect) && negb (w_connected w)
    then dispatch quiet_handler (plain K_Disconnected) w (set_last_poll_ t u)
    else match updater_deadline (set_last_poll_ t u) with
         | Some due => if due <=? t then dispatch quiet_handler (plain K_Tick) w (set_last_poll_ t u) else Some (set_last_poll_ t u)
         | None => Some (set_last_poll_ t u)
         end) = Some u' /\ steady u' /\ moved (set_last_poll_ t u) u' evs /\ pays (set_last_poll_ t u) u' evs) as (u' & evs & H1 & H2 & H3 & H4).
  { exists u', evs. split; [done|]. split; [done|]. split; [by eapply moved_last_poll|done]. }
  generalize dependent (set_last_poll_ t u). clear u Hs0. intros u Hs.
  assert (exists u' evs, Some u = Some u' /\ steady u' /\ moved u u' evs /\ pays u u' evs) as Hsame.
  { exists u, []. split; [done|]. split; [done|]. split; [apply moved_refl|]. intros _. cbn. lia. }
  destruct (running_ u) eqn:Hr; cbn [negb]; [|done].
  case_bool_decide as Hd; cbn [andb].
  2:{ destruct (updater_deadline u); [|done]. split_if; [|done]. by apply dispatch_tick. }
  destruct (w_connected w); cbn [negb].
  { destruct (updater_deadline u); [|done]. split_if; [|done]. by apply dispatch_tick. }
  destruct (steady_machine u Hs Hr) as (m & Hm & Hsm & Hlive).
  assert (posted u = []) as Hp by (apply posted_resting; try done; by rewrite Hd).
  assert (outstanding u = []) as Ho by (apply (sd_rest _ Hs Hr); by rewrite Hd).
  destruct (dispatch_fresh (plain K_Disconnected) w u m (sd_tracks _ Hs) (sd_life _ Hs) Hr Hm Ho Hp) as (u' & es & Hds & Hs' & Hlog & Hres).
  { destruct (apply_poll (context_ m)) eqn:Ea; [|done]. destruct (sd_armed _ Hs Hr m Hm) as [Hc _]; [congruence|]. by rewrite Hd in Hc. }
  exists u', es. split; [done|]. split; [done|]. destruct Hlog as [_ Hpo Hlg]. split.
  - split; [done|congruence|intros _ E; by rewrite E in Hres|].
    intros E. rewrite E in Hres. destruct Hres as (Hf & H1 & H2).
    split_and!; [done|split; [auto|congruence]..|]. rewrite Hd. done.
  - intros Hr'. destruct (dispatched (plain K_Disconnected) w u m (sd_tracks _ Hs) Hr Hm) as (u2 & s & m' & evs & Hds' & _ & Hlog' & Hm' & Hst & Hlead & Hend).
    rewrite Hds in Hds'. injection Hds' as <-.
    assert (is_terminal (next s) = false) as Hns by (destruct (is_terminal (next s)); [destruct Hend; congruence|done]).
    rewrite Hns in Hend. pose proof (grown_same _ _ _ _ (lg_log _ _ _ Hlog') Hlg) as ->.
    assert (next s = S_AwaitingReconnect) as Hn by (eapply drop_step; [..|exact Hlead|exact Hns]; [done|congruence]).
    pose proof (proj1 (goes_on_asked _ _ _ _ Hend)). unfold awaits_drop.
    rewrite (state_of _ _ Hm'), Hst, Hn, Hd, bool_decide_eq_false_2, bool_decide_eq_true_2 by done. cbn. lia.
Qed.

(** ** The run between two calls *)

(** Hooks that leave the updater alone, as they are meant to. *)
Class QuietHooks (E : Type) `{RunEnv E} : Prop := {
  open_quiet open_link a e : env_open_link = Some open_link -> (open_link a e).1.2 = [];
  approve_quiet approve e : env_approve = Some approve -> (approve e).1.2 = []
}.

Section run.
Context {E : Type} `{Henv : RunEnv E} `{!QuietHooks E}.
Implicit Types r : UpdateRun E.

(** What the update running was accepted with, and the run's settings. *)
Context (g : option (list ImageTarget * FullPlan)) (cfg : UpdateRunSettings).

(** What the run has been told of the end, read or still queued, and what it
    takes the updater to wait for. *)
Definition told r : list (Result UpdateReport) := option_list (r_finished r) ++ finals (r_inbox r).
Definition wants_reconnect r : bool := r_reconnect_pending r || existsb is_reconnect (r_inbox r).
Definition wants_confirmation r : bool := r_confirm_pending r || existsb is_confirmation (r_inbox r).

(** The run knows how its update stands, and nothing of it was refused. *)
Record sound r : Prop := {
  so_given : given (log (r_updater r)) = g;
  so_steady : steady (r_updater r);
  so_internal : r_internal r = None;
  so_settings : r_settings r = cfg;
  so_policy : settings_ok (settings_ (r_policy r));
  so_running : r_running r = true;
  so_on : running_ (r_updater r) = true -> told r = [];
  so_end : running_ (r_updater r) = false -> exists m, machine_ (r_updater r) = Some m /\ told r = [outcome_of_update m];
  so_reconnect : running_ (r_updater r) = true -> wants_reconnect r = true ->
    state (r_updater r) = S_AwaitingReconnect /\ posted (r_updater r) = [];
  so_confirmation : running_ (r_updater r) = true -> wants_confirmation r = true ->
    state (r_updater r) = S_AwaitingConfirmation /\ posted (r_updater r) = []
}.

(** What the updater will ask of the run without anything arriving: a poll turns
    the wait for the link to go down into one more call. *)
Definition owes r : nat :=
  if running_ (r_updater r)
  then (2 * awaits_drop (r_updater r) + Nat.b2n (wants_reconnect r) + Nat.b2n (wants_confirmation r))%nat else 0%nat.

(** The environment after some of what a run asks of it between two waits. *)
Inductive passes (e0 : E) : E -> Prop :=
| passes_refl : passes e0 e0
| passes_now e : passes e0 e -> passes e0 (env_now e).2
| passes_sleep d e : passes e0 e -> passes e0 (env_sleep_for d e)
| passes_open open_link a e : env_open_link = Some open_link -> passes e0 e -> passes e0 (open_link a e).2
| passes_rebind link e : passes e0 e -> passes e0 (env_rebind_transport link e).2
| passes_approve approve e : env_approve = Some approve -> passes e0 e -> passes e0 (approve e).2.

(** The events a call raised are queued. *)
Lemma after_call_told u evs r :
  grown (log (r_updater r)) (log u) evs ->
  r_inbox (after_call u r) = r_inbox r ++ evs.
Proof. intros (os & Hl & He & _). unfold after_call. cbn. by rewrite Hl, drop_app_length, He. Qed.

Lemma sound_moved u evs r : sound r -> steady u -> moved (r_updater r) u evs -> sound (after_call u r).
Proof.
  intros Hso Hs Hmv. pose proof (after_call_told u evs r (mv_log _ _ _ Hmv)) as Hi.
  assert (told (after_call u r) = told r ++ finals evs) as Ht
    by (unfold told, finals; rewrite Hi, omap_app, app_assoc; done).
  assert (wants_reconnect (after_call u r) = wants_reconnect r || existsb is_reconnect evs) as Hwr
    by (unfold wants_reconnect; rewrite Hi, existsb_app, orb_assoc; done).
  assert (wants_confirmation (after_call u r) = wants_confirmation r || existsb is_confirmation evs) as Hwc
    by (unfold wants_confirmation; rewrite Hi, existsb_app, orb_assoc; done).
  assert (running_ u = true -> running_ (r_updater r) = true) as Hback.
  { intros E1. destruct (running_ (r_updater r)) eqn:E2; [done|]. destruct (mv_idle _ _ _ Hmv E2). congruence. }
  split; try apply Hso; change (r_updater (after_call u r)) with u; [rewrite <- (so_given _ Hso); by eapply grown_given, Hmv|done|..].
  - intros E1. rewrite Ht, (so_on _ Hso) by auto. by destruct (mv_on _ _ _ Hmv E1) as [-> _].
  - intros E1. rewrite Ht. destruct (running_ (r_updater r)) eqn:E2.
    + rewrite (so_on _ Hso E2). apply (mv_end _ _ _ Hmv E2 E1).
    + destruct (mv_idle _ _ _ Hmv E2) as (_ & -> & ->). rewrite app_nil_r. by apply (so_end _ Hso).
  - intros E1. rewrite Hwr, orb_true_iff. destruct (mv_on _ _ _ Hmv E1) as (_ & Hr & _ & Ho). intros [Hq|Hq]; [|auto].
    destruct (so_reconnect _ Hso (Hback E1) Hq) as [Hst Hp]. rewrite <- Hst. apply Ho; [by rewrite Hst|done].
  - intros E1. rewrite Hwc, orb_true_iff. destruct (mv_on _ _ _ Hmv E1) as (_ & _ & Hc & Ho). intros [Hq|Hq]; [|auto].
    destruct (so_confirmation _ Hso (Hback E1) Hq) as [Hst Hp]. rewrite <- Hst. apply Ho; [by rewrite Hst|done].
Qed.

Lemma sound_env x r : sound r -> sound (set_r_env x r).
Proof. intros [? ? ? ? ? ? ? ? ? ?]. by split. Qed.

Lemma sound_feed wv r : sound r -> exists r', feed_one wv r = Some r' /\ sound r'.
Proof.
  intros Hso. destruct wv as [w v]. destruct (arrives w v _ (so_steady _ Hso)) as (u' & evs & Hi & Hs & Hm).
  unfold feed_one, act_one. cbn [fst snd]. rewrite Hi. eexists. split; [done|]. by eapply sound_moved.
Qed.

Lemma sound_feed_all vs r : sound r -> exists r', feed_all vs r = Some r' /\ sound r'.
Proof.
  revert r. induction vs as [|v vs IH]; intros r Hso; cbn [feed_all]; [by eauto|].
  destruct (sound_feed v r Hso) as (r' & -> & Hso'). by apply IH.
Qed.

Lemma sound_poll now r : sound r -> exists r', updater_poll now r = Some r' /\ sound r'.
Proof.
  intros Hso. destruct (polled now (env_world (r_env r)) _ (so_steady _ Hso)) as (u' & evs & Hi & Hs & Hm & _).
  unfold updater_poll. rewrite Hi. eexists. split; [done|]. by eapply sound_moved.
Qed.

(** What [deliver] makes of the events. *)
Lemma delivered_list l r :
  let r' := foldl (fun r event => deliver_event event r) r l in
  r_updater r' = r_updater r /\ r_settings r' = r_settings r /\ r_policy r' = r_policy r /\ r_inbox r' = r_inbox r /\
  r_running r' = r_running r /\ r_internal r' = r_internal r /\
  r_reconnect_pending r' = r_reconnect_pending r || existsb is_reconnect l /\
  r_confirm_pending r' = r_confirm_pending r || existsb is_confirmation l /\
  r_finished r' = last (option_list (r_finished r) ++ finals l).
Proof.
  revert r. induction l as [|e l IH]; intros r; cbn zeta; cbn [foldl].
  - rewrite !orb_false_r. cbn. rewrite app_nil_r. split_and!; try done. by destruct (r_finished r).
  - destruct (IH (deliver_event e r)) as (H1 & H2 & H3 & H4 & H5 & H6 & H7 & H8 & H9). clear IH.
    rewrite H1, H2, H3, H4, H5, H6, H7, H8, H9. destruct e; cbn; rewrite ?orb_false_r, ?orb_true_r; split_and!; try done.
    symmetry. apply last_app_cons.
Qed.

Lemma sound_deliver r :
  sound r -> sound (deliver r) /\ r_inbox (deliver r) = [] /\ r_updater (deliver r) = r_updater r.
Proof.
  intros Hso. unfold deliver. destruct (delivered_list (r_inbox r) (set_r_inbox [] r)) as (H1 & H2 & H3 & H4 & H5 & H6 & H7 & H8 & H9).
  set (r' := foldl _ _ _) in *. cbn in H1, H2, H3, H4, H5, H6, H7, H8, H9.
  assert (told r' = told r) as Ht.
  { unfold told. rewrite H9, H4. cbn. rewrite app_nil_r. fold (told r). destruct (running_ (r_updater r)) eqn:Hr.
    - by rewrite (so_on _ Hso Hr).
    - by destruct (so_end _ Hso Hr) as (m & _ & ->). }
  assert (wants_reconnect r' = wants_reconnect r) as Hwr by (unfold wants_reconnect; rewrite H4, H7; cbn; by rewrite orb_false_r).
  assert (wants_confirmation r' = wants_confirmation r) as Hwc by (unfold wants_confirmation; rewrite H4, H8; cbn; by rewrite orb_false_r).
  split; [|done]. split; rewrite ?H1, ?H2, ?H3, ?H5, ?H6, ?Ht, ?Hwr, ?Hwc; apply Hso.
Qed.

(** ** What the run calls *)

(** Nothing but the environment and the policy's counter. *)
Lemma sound_policy p r : sound r -> settings_ok (settings_ p) -> sound (set_r_policy p r).
Proof. intros [? ? ? ? ? ? ? ? ? ?] Hp. by split. Qed.

(** The answer the updater waits for is posted. *)
Lemma steady_post ev u :
  steady u -> running_ u = true -> owed (state u) = true -> posted u = [] -> kind ev <> K_Tick -> steady (post ev u).
Proof.
  intros Hs Hr Hw Hp Hk. pose proof (sd_tracks _ Hs) as Ht. eapply steady_same; try done.
  - eapply tracks_beside; [apply beside_post|done].
  - by left.
  - intros _. right. split; [destruct (state u); try done; auto|]. exists ev. cbn. by rewrite Hp.
Qed.

(** A run whose updater waits for a call of the application, with nothing of
    the kind queued. *)
Record waits (st : UpdateState) r : Prop := {
  wt_sound : sound r;
  wt_owed : owed st = true;
  wt_running : running_ (r_updater r) = true;
  wt_state : state (r_updater r) = st;
  wt_posted : posted (r_updater r) = [];
  wt_reconnect : existsb is_reconnect (r_inbox r) = false;
  wt_confirmation : existsb is_confirmation (r_inbox r) = false
}.

(** The call is made and what it answers is no longer owed. *)
Lemma waits_answered st ev r r' :
  waits st r -> kind ev <> K_Tick -> r_updater r' = post ev (r_updater r) -> r_internal r' = None -> r_settings r' = r_settings r ->
  settings_ok (settings_ (r_policy r')) -> r_running r' = true -> told r' = told r ->
  wants_reconnect r' = false -> wants_confirmation r' = false -> sound r'.
Proof.
  intros [Hso Hw Hr Hst Hp _ _] Hk Hu Hi Hse Hpo Hrun Ht Hwr Hwc.
  split; rewrite ?Hu, ?Hse, ?Hwr, ?Hwc; try done.
  - apply Hso.
  - apply steady_post; try done; [apply Hso|by rewrite Hst].
  - apply Hso.
  - intros _. rewrite Ht. by apply (so_on _ Hso).
  - cbn. congruence.
Qed.

Lemma after_post ev r : after_call (post ev (r_updater r)) r = set_r_updater (post ev (r_updater r)) r.
Proof. unfold after_call. cbn. by rewrite drop_all, app_nil_r. Qed.

Lemma waits_env x st r : waits st r -> waits st (set_r_env x r).
Proof. intros [? ? ? ? ? ? ?]. split; try done. by apply sound_env. Qed.

Lemma waits_policy p st r : waits st r -> settings_ok (settings_ p) -> waits st (set_r_policy p r).
Proof. intros [? ? ? ? ? ? ?] Hp. split; try done. by apply sound_policy. Qed.

Lemma waits_feed wv st r :
  waits st r -> exists r', feed_one wv r = Some r' /\ waits st r' /\ r_policy r' = r_policy r /\ r_env r' = r_env r.
Proof.
  intros [Hso Hw Hr Hst Hp Hnr Hnc]. destruct (sound_feed wv r Hso) as (r' & Hf & Hso'). exists r'. split; [done|].
  revert Hf. destruct wv as [w v]. unfold feed_one, act_one. cbn [fst snd].
  assert (exists es, existsb is_reconnect es = false /\ existsb is_confirmation es = false /\ exists u',
    input_step quiet_handler (w, as_input v) (r_updater r) = Some u' /\ r_inbox (after_call u' r) = r_inbox r ++ es /\
    running_ u' = true /\ state u' = st /\ posted u' = []) as (es & Her & Hec & u' & -> & Hi & Hr' & Hst' & Hp').
  { destruct (arrives_owed w v _ (so_steady _ Hso) Hr) as [->|[p ->]]; [by rewrite Hst|done|exists []|exists [UploadProgressed p]];
      (split; [done|]); (split; [done|]); eexists; (split; [done|]); (split; [apply after_call_told|done]).
    - apply grown_refl.
    - by apply (grown_one _ (O_event _)). }
  intros [= <-]. split; [|done]. split; try done; rewrite Hi, existsb_app; by rewrite ?Hnr, ?Hnc.
Qed.

Lemma waits_feed_all vs st r :
  waits st r -> exists r', feed_all vs r = Some r' /\ waits st r' /\ r_policy r' = r_policy r /\ r_env r' = r_env r.
Proof.
  revert r. induction vs as [|v vs IH]; intros r Hw; cbn [feed_all]; [by eauto|].
  destruct (waits_feed v st r Hw) as (r' & -> & Hw' & Hp & He). cbn [mbind option_bind]. destruct (IH r' Hw') as (r'' & -> & ? & ? & ?).
  exists r''. split_and!; try done; congruence.
Qed.

Lemma waits_elsewhere st r :
  waits st r ->
  (st <> S_AwaitingReconnect -> r_reconnect_pending r = false) /\ (st <> S_AwaitingConfirmation -> r_confirm_pending r = false).
Proof.
  intros [Hso _ Hr Hst _ _ _]. unfold wants_reconnect. split; intros Hne.
  - destruct (r_reconnect_pending r) eqn:Hq; [|done]. destruct (so_reconnect _ Hso Hr); [unfold wants_reconnect; by rewrite Hq|congruence].
  - destruct (r_confirm_pending r) eqn:Hq; [|done]. destruct (so_confirmation _ Hso Hr); [unfold wants_confirmation; by rewrite Hq|congruence].
Qed.

(** Where nothing of the kind is queued, only a pending flag is owed. *)
Lemma waits_owes st r :
  waits st r -> owes r = (Nat.b2n (r_reconnect_pending r) + Nat.b2n (r_confirm_pending r))%nat.
Proof.
  intros [_ Hw Hr Hst _ Hnr Hnc]. unfold owes, awaits_drop, wants_reconnect, wants_confirmation.
  rewrite Hr, Hst, Hnr, Hnc, !orb_false_r, bool_decide_eq_false_2; [done|]. intros E0. by rewrite E0 in Hw.
Qed.

(** The call is made: the flag is dropped, and nothing is owed. *)
Lemma reconnect_answered ev r :
  waits S_AwaitingReconnect r -> kind ev <> K_Tick ->
  let r' := set_r_reconnect_pending false (after_call (post ev (r_updater r)) r) in
  sound r' /\ owes r' = 0%nat.
Proof.
  intros Hw Hk. cbn zeta. rewrite after_post. destruct (waits_elsewhere _ _ Hw) as [_ Hc].
  set (r' := set_r_reconnect_pending _ _).
  assert (wants_reconnect r' = false) as Hwr by apply Hw.
  assert (wants_confirmation r' = false) as Hwc.
  { change (r_confirm_pending r || existsb is_confirmation (r_inbox r) = false). by rewrite (wt_confirmation _ _ Hw), Hc. }
  split; [by eapply waits_answered; try done; apply Hw|]. unfold owes. rewrite Hwr, Hwc.
  change (running_ (r_updater r')) with (running_ (r_updater r)). unfold awaits_drop.
  change (state (r_updater r')) with (state (r_updater r)).
  by rewrite (wt_running _ _ Hw), (wt_state _ _ Hw), bool_decide_eq_false_2.
Qed.

Lemma confirmation_answered r :
  waits S_AwaitingConfirmation r ->
  let r0 := set_r_confirm_pending false r in
  let r' := after_call (post (plain K_ConfirmApproved) (r_updater r0)) r0 in
  sound r' /\ owes r' = 0%nat.
Proof.
  intros Hw r0. cbn zeta. rewrite after_post. destruct (waits_elsewhere _ _ Hw) as [Hc _].
  set (r' := set_r_updater _ _).
  assert (wants_confirmation r' = false) as Hwc by apply Hw.
  assert (wants_reconnect r' = false) as Hwr.
  { change (r_reconnect_pending r || existsb is_reconnect (r_inbox r) = false). by rewrite (wt_reconnect _ _ Hw), Hc. }
  split; [by eapply waits_answered; try done; try apply Hw; discriminate|]. unfold owes. rewrite Hwr, Hwc.
  change (running_ (r_updater r')) with (running_ (r_updater r)). unfold awaits_drop.
  change (state (r_updater r')) with (state (r_updater r)).
  by rewrite (wt_running _ _ Hw), (wt_state _ _ Hw), bool_decide_eq_false_2.
Qed.

(** How an episode may end: the call made, or the deadline met with the call
    still owed. [e0] is the environment it began in. *)
Definition ends_well (e0 : E) (x : option (Episode * UpdateRun E)) : Prop :=
  match x with
  | None => False
  | Some (EpisodeTimedOut, r) => waits S_AwaitingReconnect r
  | Some (_, r) =>
      sound (set_r_reconnect_pending false r) /\ owes (set_r_reconnect_pending false r) = 0%nat /\ passes e0 (r_env r)
  end.

Lemma give_up_ends_well e0 why r :
  waits S_AwaitingReconnect r -> passes e0 (r_env r) -> ends_well e0 (Some (end_episode why r)).
Proof.
  intros Hw He. unfold end_episode, reconnect_failed, ends_well. rewrite (wt_running _ _ Hw). cbn [negb].
  edestruct (reconnect_answered (failed_event K_ReconnectFailed (default (rs_unreachable (r_settings r)) why)) r Hw) as [H1 H2]; [done|].
  by split_and!.
Qed.

(** A round goes on with the environment and the waits counted, or ends the
    episode. *)
Definition goes_round (e0 : E) (p : ReconnectPolicy)
    (x : loop (UpdateRun E * option Error) (option (Episode * UpdateRun E))) : Prop :=
  match x with
  | Continue (r, _) => waits S_AwaitingReconnect r /\ r_policy r = p /\ passes e0 (r_env r)
  | Return x => ends_well e0 x
  end.

Lemma try_link_ok e0 open_link delay why r :
  env_open_link = Some open_link -> waits S_AwaitingReconnect r -> passes e0 (r_env r) ->
  goes_round e0 (r_policy r) (try_link open_link delay why r).
Proof.
  intros Hl Hw He. unfold try_link. cbn zeta.
  set (r1 := sleep_for delay r). assert (waits S_AwaitingReconnect r1 /\ r_policy r1 = r_policy r) as [Hw1 Hp1] by (split; [by apply waits_env|done]).
  assert (passes e0 (r_env r1)) as He1 by by apply passes_sleep.
  clearbody r1. rewrite <- Hp1. clear Hp1 Hw He r. set (a := mkAttempt _ _ _).
  pose proof (passes_open e0 open_link a _ Hl He1) as He2. pose proof (open_quiet open_link a (r_env r1) Hl) as Hq.
  destruct (open_link a _) as [[attempt calls] e]. cbn [fst snd] in Hq. subst calls. cbn [hook_calls].
  pose proof (waits_env e _ _ Hw1) as Hw2.
  destruct (la_link attempt) as [link|].
  - unfold rebind_transport. pose proof (passes_rebind _ link _ He2) as He3. change (r_env (set_r_env e r1)) with e.
    cbn [snd] in He3. destruct (env_rebind_transport link e) as [vs e'].
    destruct (waits_feed_all vs _ _ (waits_env e' _ _ Hw2)) as (r3 & -> & Hw3 & _ & He4).
    cbn [mbind option_bind goes_round]. set (r4 := set_r_policy _ r3).
    assert (waits S_AwaitingReconnect r4) as Hw4 by (apply waits_policy; [done|apply Hw3]).
    unfold resume_after_reconnect. rewrite (wt_state _ _ Hw4). rewrite bool_decide_eq_false_2 by (intros Hn; by apply Hn).
    destruct (reconnect_answered (plain K_Reconnected) r4 Hw4) as [H1 H2]; [done|]. split_and!; [done..|].
    change (passes e0 (r_env r3)). by rewrite He4.
  - destruct (la_gives_up attempt); [by apply give_up_ends_well|]. by split_and!.
Qed.

Lemma episode_round e0 open_link deadline r why :
  env_open_link = Some open_link -> waits S_AwaitingReconnect r -> 0 <= attempts_ (r_policy r) -> passes e0 (r_env r) ->
  exists p, settings_ p = settings_ (r_policy r) /\ (exhausted (r_policy r) = false -> attempts_ p = attempts_ (r_policy r) + 1) /\
    (forall s', episode_body open_link deadline (r, why) = Continue s' -> exhausted (r_policy r) = false) /\
    goes_round e0 p (episode_body open_link deadline (r, why)).
Proof.
  intros Hl Hw Ha He. unfold episode_body. pose proof (so_policy _ (wt_sound _ _ Hw)) as Hok.
  destruct (exhausted (r_policy r)) eqn:Hx.
  { exists (r_policy r). split_and!; [done..|]. by apply give_up_ends_well. }
  set (p := mkPolicy (settings_ (r_policy r)) (attempts_ (r_policy r) + 1)). exists p. split_and!; [done..|].
  destruct deadline as [deadline|]; cbn zeta.
  2:{ rewrite next_delay_spec by done. apply (try_link_ok e0 open_link _ why (set_r_policy p r)); try done. by apply waits_policy. }
  unfold read_clock. pose proof (passes_now _ _ He) as He1. destruct (env_now (r_env r)) as [now e].
  destruct (deadline <=? now); [by apply waits_env|].
  cbn [r_policy set_r_env]. rewrite next_delay_spec by done.
  pose proof (passes_now _ _ He1) as He2. change (r_env (set_r_policy _ _)) with e. cbn [snd] in He2.
  destruct (env_now e) as [now' e']. destruct (_ <=? _).
  - cbn. by repeat first [apply waits_env|apply waits_policy].
  - apply (try_link_ok e0 open_link _ why (set_r_env e' (set_r_policy p (set_r_env e r)))); try done.
    by repeat first [apply waits_env|apply waits_policy].
Qed.

Lemma reconnect_ends_well deadline r :
  waits S_AwaitingReconnect r -> ends_well (r_env r) (reconnect deadline r).
Proof.
  intros Hw. unfold reconnect. destruct env_open_link as [open_link|] eqn:Hl; [|apply give_up_ends_well; [done|apply passes_refl]].
  cbn zeta. set (r1 := set_r_policy _ r). assert (waits S_AwaitingReconnect r1) as Hw1 by (apply waits_policy; [done|apply Hw]).
  set (left_of := fun s : UpdateRun E * option Error => Z.to_nat (max_attempts (settings_ (r_policy r)) - attempts_ (r_policy s.1))).
  set (I := fun s : UpdateRun E * option Error => waits S_AwaitingReconnect s.1 /\ settings_ (r_policy s.1) = settings_ (r_policy r) /\
    0 <= attempts_ (r_policy s.1) /\ passes (r_env r) (r_env s.1)).
  assert (I (r1, None)) as HI by (split_and!; try done; apply passes_refl).
  assert (forall s s', I s -> episode_body open_link deadline s = Continue s' -> I s' /\ (left_of s' < left_of s)%nat) as Hstep.
  { intros [r2 why] [r2' why'] (H1 & H2 & H3 & H4) Hb. cbn [fst] in *.
    destruct (episode_round (r_env r) open_link deadline r2 why Hl H1 H3 H4) as (p & Hp & Hatt & Hx & Hg).
    pose proof (Hx _ Hb) as Hx'. rewrite Hb in Hg. destruct Hg as (Hw' & Hp' & He'). specialize (Hatt Hx').
    unfold exhausted in Hx'. apply Z.leb_gt in Hx'. rewrite H2 in Hx'. unfold I, left_of. cbn [fst].
    rewrite Hp', Hp, Hatt. split_and!; [done|done|lia|done|lia]. }
  destruct (iterate_total (episode_body open_link deadline) I left_of Hstep
    (S (Z.to_nat (max_attempts (settings_ (r_policy r1))))) (r1, None) HI) as [x Hx].
  { unfold left_of. cbn. rewrite Z.sub_0_r. lia. }
  rewrite Hx. cbn. revert Hx. apply (iterate_inv _ I); [intros s s' Hs Hb; by apply (Hstep s s')| |done].
  intros [r2 why] x' (H1 & H2 & H3 & H4) Hb. cbn [fst] in *.
  destruct (episode_round (r_env r) open_link deadline r2 why Hl H1 H3 H4) as (p & _ & _ & _ & Hg).
  by rewrite Hb in Hg.
Qed.

(** ** The loop *)

(** What an outcome says of the update. *)
Definition tells o r : Prop :=
  match ro_end o with
  | Finished =>
      tracks (r_updater r) /\ given (log (r_updater r)) = g /\ exists m, machine_ (r_updater r) = Some m /\ is_terminal (state_ m) = true /\ ro_result o = outcome_of_update m /\
        r_running r = false /\ r_internal r = None
  | TimedOut => sound r /\ running_ (r_updater r) = true
  | StoppedBeforeConfirm =>
      sound r /\ running_ (r_updater r) = true /\ state (r_updater r) = S_AwaitingConfirmation /\ posted (r_updater r) = []
  | Refused => False
  end.

Definition tells_of (x : option (UpdateRunOutcome * UpdateRun E)) : Prop :=
  match x with Some (o, r) => tells o r | None => False end.

Lemma sound_waits r :
  sound r -> r_inbox r = [] -> running_ (r_updater r) = true ->
  (r_reconnect_pending r = true -> waits S_AwaitingReconnect r) /\
  (r_confirm_pending r = true -> waits S_AwaitingConfirmation r).
Proof.
  intros Hso Hi Hr. split; intros Hq.
  - destruct (so_reconnect _ Hso Hr) as [Hst Hp]; [unfold wants_reconnect; by rewrite Hq|].
    split; try done; by rewrite Hi.
  - destruct (so_confirmation _ Hso Hr) as [Hst Hp]; [unfold wants_confirmation; by rewrite Hq|].
    split; try done; by rewrite Hi.
Qed.

Lemma sound_stop r : sound r -> sound (set_r_confirm_pending false r).
Proof.
  intros [? ? ? ? ? ? ? ? ? Hc]. split; try done. intros Hr Hw. apply (Hc Hr).
  unfold wants_confirmation in *. cbn in Hw. by rewrite Hw, orb_true_r.
Qed.

Lemma waits_stop st r : waits st r -> waits st (set_r_confirm_pending false r).
Proof. intros [? ? ? ? ? ? ?]. split; try done. by apply sound_stop. Qed.

Lemma sound_wait deadline r : sound r -> exists r', wait_until deadline r = Some r' /\ sound r'.
Proof.
  intros Hso. unfold wait_until. destruct (env_wait_until _ _) as [vs e]. by apply sound_feed_all, sound_env.
Qed.

Lemma sound_turn now r :
  sound r -> exists r', (let! r := client_poll now r in updater_poll now r) = Some r' /\ sound r'.
Proof.
  intros Hso. unfold client_poll. destruct (env_client_poll _ _) as [vs e].
  destruct (sound_feed_all vs (set_r_env e r)) as (r1 & -> & Hso1); [by apply sound_env|].
  by apply sound_poll.
Qed.

(** Where a round that goes on comes from: the polls and what they raised, then
    the call owed, or a wait with the deadline not reached. *)
Definition turned r r' : Prop :=
  let '(now, e) := env_now (r_env r) in
  exists r1, (let! r := client_poll now (set_r_env e r) in updater_poll now r) = Some r1 /\ r' = deliver r1.

Definition waited_for (deadline : option TimePoint) r r' : Prop :=
  match deadline with
  | None => wait_until (next_wake None r) r = Some r'
  | Some deadline =>
      let '(now, e) := env_now (r_env r) in
      now < deadline /\ wait_until (next_wake (Some deadline) (set_r_env e r)) (set_r_env e r) = Some r'
  end.

Definition goes deadline r r' : Prop :=
  exists r2, turned r r2 /\
    ((0 < owes r2)%nat /\ owes r' = 0%nat /\ passes (r_env r2) (r_env r') \/ waited_for deadline r2 r').

(** The end of a round, and the wait of one. *)
Lemma round_waits deadline r gave_up :
  sound r -> running_ (r_updater r) = true ->
  match (let '(late, r) := match deadline with
                           | None => (false, r)
                           | Some deadline => let '(now, r) := read_clock r in (deadline <=? now, r)
                           end in
         if late then Return (Some (timed_out gave_up, r))
         else match wait_until (next_wake deadline r) r with None => Return None | Some r => Continue (r, gave_up) end) with
  | Continue (r', _) => sound r' /\ waited_for deadline r r'
  | Return x => tells_of x
  end.
Proof.
  intros Hso Hr. unfold waited_for. destruct deadline as [deadline|].
  - unfold read_clock. destruct (env_now (r_env r)) as [now e]. destruct (deadline <=? now) eqn:Hl.
    + split; [by apply sound_env|done].
    + apply Z.leb_gt in Hl.
      by destruct (sound_wait (next_wake (Some deadline) (set_r_env e r)) _ (sound_env e _ Hso)) as (r3 & -> & Hso3).
  - by destruct (sound_wait (next_wake None r) r Hso) as (r3 & -> & Hso3).
Qed.

Lemma round_confirms r gave_up :
  sound r -> waits S_AwaitingConfirmation r -> r_confirm_pending r = true ->
  match (let r := set_r_confirm_pending false r in
         let '(approval, calls, e) :=
           match env_approve with
           | Some approve => approve (r_env r)
           | None => (ApproveConfirm, [], r_env r)
           end in
         match hook_calls calls (set_r_env e r) with
         | None => Return None
         | Some r =>
             match approval with
             | ApproveConfirm =>
                 let '(result, u) := confirm (r_updater r) in
                 let r := after_call u r in
                 Continue
                   (match result with
                    | Success _ => r
                    | Fail _ => refused "update run: FirmwareUpdater::confirm() refused" r
                    end, gave_up)
             | ApproveStop =>
                 Return (Some (mkRunOutcome StoppedBeforeConfirm
                                 (fail InvalidState "update run: stopped before confirming") gave_up, r))
             end
         end) with
  | Continue (r', _) => sound r' /\ (0 < owes r)%nat /\ owes r' = 0%nat /\ passes (r_env r) (r_env r')
  | Return x => tells_of x
  end.
Proof.
  intros Hso Hw Hc. cbn zeta. set (r0 := set_r_confirm_pending false r).
  assert (exists a e, passes (r_env r) e /\ match env_approve with
    | Some approve => approve (r_env r0) | None => (ApproveConfirm, [], r_env r0) end = (a, [], e)) as (a & e & He & ->).
  { destruct env_approve as [approve|] eqn:Hap; [|by exists ApproveConfirm, (r_env r); split; [apply passes_refl|]].
    change (r_env r0) with (r_env r). pose proof (passes_approve _ _ _ Hap (passes_refl (r_env r))) as He.
    pose proof (approve_quiet _ (r_env r) Hap) as Hq.
    destruct (approve (r_env r)) as [[a calls] e]. cbn [fst snd] in *. subst calls. by exists a, e. }
  cbn [hook_calls].
  pose proof (waits_env e _ _ Hw) as Hw'. destruct a.
  - unfold confirm. cbn [r_updater set_r_env set_r_confirm_pending r0]. rewrite (wt_state _ _ Hw).
    rewrite bool_decide_eq_false_2 by (intros Hn; by apply Hn). destruct (confirmation_answered _ Hw') as [H1 H2].
    split; [done|]. split; [|by split]. rewrite (waits_owes _ _ Hw), Hc. cbn. lia.
  - by destruct (waits_stop _ _ Hw').
Qed.

Lemma round_sound deadline r gave_up :
  sound r ->
  match round deadline (r, gave_up) with
  | Continue (r', _) => sound r' /\ goes deadline r r'
  | Return x => tells_of x
  end.
Proof.
  intros Hso. unfold round, goes, turned, read_clock at 1. destruct (env_now (r_env r)) as [now e].
  destruct (sound_turn now _ (sound_env e r Hso)) as (r1 & Ht & Hso1). rewrite Ht. cbn zeta.
  destruct (sound_deliver r1 Hso1) as (Hso2 & Hi & _).
  assert (exists r', Some r1 = Some r' /\ deliver r1 = deliver r') as Hturn by by exists r1.
  set (r2 := deliver r1) in *. clearbody r2. clear Ht e Hso Hso1.
  assert (running_ (r_updater r2) = negb (bool_decide (is_Some (r_finished r2)))) as Hr.
  { destruct (running_ (r_updater r2)) eqn:Hr.
    - pose proof (so_on _ Hso2 Hr) as Hx. unfold told in Hx. by destruct (r_finished r2).
    - destruct (so_end _ Hso2 Hr) as (m & _ & Hx). unfold told in Hx. rewrite Hi in Hx. by destruct (r_finished r2). }
  destruct (r_finished r2) as [result|] eqn:Hf; cbn in Hr.
  { destruct (so_end _ Hso2 Hr) as (m & Hm & Hx). unfold told in Hx. rewrite Hi, Hf in Hx. cbn in Hx. injection Hx as ->.
    cbn. rewrite (so_internal _ Hso2). split; [apply Hso2|]. split; [apply Hso2|]. exists m. split_and!; try done.
    destruct (tk_machine _ (sd_tracks _ (so_steady _ Hso2)) m Hm) as (?&?&?&?&_&_&_&_&_&Hx). by rewrite Hx, Hr. }
  destruct (sound_waits _ Hso2 Hi Hr) as [Hwr Hwc].
  destruct (r_reconnect_pending r2) eqn:Hpr.
  { pose proof (Hwr eq_refl) as Hw. pose proof (reconnect_ends_well deadline r2 Hw) as Hx.
    assert (0 < owes r2)%nat as Ho by (rewrite (waits_owes _ _ Hw), Hpr; cbn; lia).
    destruct (reconnect deadline r2) as [[[] r3]|]; [..|done].
    1,2: destruct Hx as (? & ? & ?); split; [done|]; exists r2; split; [|by left]; done.
    split; [apply Hx|]. apply (wt_running _ _ Hx). }
  destruct (r_confirm_pending r2) eqn:Hpc.
  { pose proof (round_confirms r2 gave_up Hso2 (Hwc eq_refl) Hpc) as Hx. cbn zeta in Hx.
    destruct (let '(a, r) := _ in _) as [[r' g']|x]; [|done]. destruct Hx as (? & ? & ? & ?). split; [done|]. exists r2. split; [done|by left]. }
  pose proof (round_waits deadline r2 gave_up Hso2 Hr) as Hx.
  destruct (let '(a, r) := _ in _) as [[r' g']|x]; [|done]. destruct Hx. split; [done|]. exists r2. split; [done|by right].
Qed.

Lemma run_tells fuel r : sound r -> match run_again fuel r with Some x => tells_of x | None => True end.
Proof.
  intros Hso. unfold run_again. rewrite (so_running _ Hso). cbn [negb].
  assert (forall deadline r1, sound r1 -> match iterate (round deadline) fuel (r1, false) with Some x => tells_of x | None => True end) as Hgo.
  { intros deadline r1 Hso1. destruct (iterate _ _ _) as [x|] eqn:Hx; [|done]. revert Hx.
    apply (iterate_inv _ (fun s => sound s.1)); [| |done].
    - intros [r2 gu] [r3 gu'] H1 H2. pose proof (round_sound deadline r2 gu H1) as H3. rewrite H2 in H3. apply H3.
    - intros [r2 gu] y H1 H2. pose proof (round_sound deadline r2 gu H1) as H3. by rewrite H2 in H3. }
  destruct (rs_overall_timeout _); [|by apply Hgo]. unfold read_clock. destruct (env_now _) as [now e].
  by apply Hgo, sound_env.
Qed.
End run.

(** ** A run from the start *)

Section start.
Context {E : Type} `{Henv : RunEnv E} `{!QuietHooks E}.

(** A run nothing has been asked of, around an updater nothing has been asked
    of. *)
Definition fresh_run (e : E) (settings : UpdateRunSettings) : UpdateRun E := new_run new_updater e settings.

Lemma started_fresh targets plan e settings :
  settings_ok (rs_reconnect settings) ->
  let r := fresh_run e settings in
  match start targets plan true new_updater with
  | (Success _, u) => sound (Some (targets, plan)) settings (set_r_running true (after_call (see (O_started targets plan) u) r))
  | (Fail _, u) => machine_ u = None
  end.
Proof.
  intros Hok. cbn zeta. pose proof (tracks_start targets plan true new_updater tracks_new) as Ht. cbn [exec] in Ht.
  revert Ht. unfold start. cbn [running_ new_updater negb].
  destruct (validate targets plan) as [[]|err]; [|done]. destruct (read_targets targets) as [ts|err]; [|done].
  intros Ht. set (u := see _ _) in *.
  assert (given (log u) = Some (targets, plan)) as Hg by done.
  assert (steady u) as Hs.
  { split; try done; [cbn; lia|intros _ m Hm Hp; cbn in Hm; injection Hm as <-; by destruct Hp|]. intros _. right. split; [by left|]. by eexists. }
  assert (r_inbox (after_call u (fresh_run e settings)) = []) as Hi by done.
  by split.
Qed.

(** How [run(targets, plan)] and then any number of [run()] may have ended. *)
Inductive ended (targets : list ImageTarget) (plan : FullPlan) (r0 : UpdateRun E) : UpdateRunOutcome -> UpdateRun E -> Prop :=
| ended_first fuel o r : run_targets fuel targets plan r0 = Some (Some (o, r)) -> ended targets plan r0 o r
| ended_again fuel o r o' r' :
    ended targets plan r0 o r -> ro_end o = TimedOut \/ ro_end o = StoppedBeforeConfirm ->
    run_again fuel r = Some (Some (o', r')) -> ended targets plan r0 o' r'.

Lemma first_tells fuel targets plan e settings :
  settings_ok (rs_reconnect settings) ->
  match run_targets fuel targets plan (fresh_run e settings) with
  | Some (Some (o, r)) =>
      ro_end o = Refused /\ machine_ (r_updater r) = None /\
        (exists err, (start targets plan true new_updater).1 = Fail err /\ ro_result o = Fail err) \/
      tells (Some (targets, plan)) settings o r
  | Some None => False
  | None => True
  end.
Proof.
  intros Hok. pose proof (started_fresh targets plan e settings Hok) as Hs. revert Hs. cbn zeta.
  unfold run_targets. change (r_running (fresh_run e settings)) with false. cbv iota.
  change (r_updater (fresh_run e settings)) with new_updater.
  destruct (start targets plan true new_updater) as [[[]|err] u]; intros Hs; cbn [started fst].
  - pose proof (run_tells _ _ fuel _ Hs) as Hr. destruct (run_again _ _) as [[[o r]|]|]; [by right|done..].
  - left. split_and!; try done. by exists err.
Qed.

Lemma ended_tells targets plan e settings o r :
  settings_ok (rs_reconnect settings) -> ended targets plan (fresh_run e settings) o r ->
  ro_end o = Refused /\ machine_ (r_updater r) = None /\
    (exists err, (start targets plan true new_updater).1 = Fail err /\ ro_result o = Fail err) \/
  tells (Some (targets, plan)) settings o r.
Proof.
  intros Hok. induction 1 as [fuel o r Hr|fuel o r o' r' _ IH Hend Hr].
  - pose proof (first_tells fuel targets plan e settings Hok) as Ht. by rewrite Hr in Ht.
  - right. assert (sound (Some (targets, plan)) settings r) as Hso.
    { destruct IH as [(Hx & _)|Ht]; [destruct Hend; congruence|]. unfold tells in Ht.
      destruct Hend as [He|He]; rewrite He in Ht; apply Ht. }
    pose proof (run_tells _ _ fuel _ Hso) as Ht. by rewrite Hr in Ht.
Qed.
End start.
