(* ===== verification/UpdateRunEnds.v ===== *)
(** * The update run ends

    With an overall deadline a run returns, whatever the device and the link do
    and whatever links the hooks open, as long as the client has finitely many
    things to hand over and no wait is for nothing; and what it returns is what
    became of the update. Without a deadline a run goes on for as long as its
    update does. The hooks are those of an application that leaves the updater to
    the run ([QuietHooks]); [meddling_hook] is one that does not. *)

From S2P Require Import Prelude Errors StoredZip McubootImage GroupCodecs UploadDriver ImageValues UpdateTypes UpdateMachine UpdateLemmas UpdateRuns UpdateProperties FirmwareUpdater FirmwareUpdaterProperties ReconnectPolicy UpdateRun UpdateRunProperties.

(** ** What is asked of the environment *)

(** Nothing turns the clock back, the client has only so much to hand over, and
    a wait takes time or hands something over. *)
Class FiniteEnv (E : Type) `{RunEnv E} := {
  clock : E -> TimePoint;
  to_come : E -> nat;
  later (e e' : E) := clock e <= clock e' /\ (to_come e' <= to_come e)%nat;
  hands_over (n : nat) (e e' : E) := clock e <= clock e' /\ (n + to_come e' <= to_come e)%nat;
  now_reads e : (env_now e).1 = clock e;
  now_later e : later e (env_now e).2;
  sleep_later d e : later e (env_sleep_for d e);
  observe_later ev e : later e (env_observe ev e);
  open_later open_link a e : env_open_link = Some open_link -> later e (open_link a e).2;
  approve_later approve e : env_approve = Some approve -> later e (approve e).2;
  rebind_hands link e : hands_over (length (env_rebind_transport link e).1) e (env_rebind_transport link e).2;
  poll_hands now e : hands_over (length (env_client_poll now e).1) e (env_client_poll now e).2;
  wait_hands d e : hands_over (length (env_wait_until d e).1) e (env_wait_until d e).2;
  wait_moves d e : (env_wait_until d e).1 = [] -> clock e < clock (env_wait_until d e).2
}.

Section ends.
Context {E : Type} `{Henv : RunEnv E} `{!QuietHooks E} `{!FiniteEnv E}.
Implicit Types r : UpdateRun E.
Context (g : option (list ImageTarget * FullPlan)) (cfg : UpdateRunSettings).

Lemma later_trans (e e' e'' : E) : later e e' -> later e' e'' -> later e e''.
Proof. intros [] []. split; lia. Qed.

Lemma later_hands n (e e' : E) : hands_over n e e' -> later e e'.
Proof. intros []. split; lia. Qed.

Lemma passes_later (e e' : E) : passes e e' -> later e e'.
Proof.
  induction 1 as [|e' _ IH|d e' _ IH|f a e' Hf _ IH|link e' _ IH|f e' Hf _ IH]; [split; lia|eapply later_trans; [done|]..].
  - apply now_later.
  - apply sleep_later.
  - by apply open_later.
  - eapply later_hands, rebind_hands.
  - by apply approve_later.
Qed.

(** ** The measure *)

(** The time to the deadline, what may still arrive, each arrival worth what it
    can make the updater ask for and one more, and what is asked for. *)
Definition room (deadline : TimePoint) (e : E) : nat := (Z.to_nat (deadline - clock e) + 5 * to_come e)%nat.
Definition budget (deadline : TimePoint) r : nat := (room deadline (r_env r) + owes r)%nat.

Lemma room_later d (e e' : E) : later e e' -> (room d e' <= room d e)%nat.
Proof. intros []. unfold room. lia. Qed.

Lemma room_hands d n (e e' : E) : hands_over n e e' -> (5 * n + room d e' <= room d e)%nat.
Proof. intros []. unfold room. lia. Qed.

Lemma owes_bound r : (owes r <= 4)%nat.
Proof.
  unfold owes, awaits_drop. destruct (running_ _); [|lia].
  destruct (bool_decide _), (wants_reconnect r), (wants_confirmation r); cbn; lia.
Qed.

Lemma feed_one_env wv r r' : feed_one wv r = Some r' -> r_env r' = r_env r.
Proof. unfold feed_one, act_one. destruct (input_step _ _ _); [|done]. by intros [= <-]. Qed.

Lemma feed_all_room vs r r' :
  feed_all vs r = Some r' -> r_env r' = r_env r /\ (owes r' <= owes r + 4 * length vs)%nat /\ (vs = [] -> r' = r).
Proof.
  revert r. induction vs as [|v vs IH]; intros r; cbn [feed_all length].
  - intros [= <-]. split_and!; [done|lia|done].
  - destruct (feed_one v r) as [r1|] eqn:Hf; [|done]. intros Hr. destruct (IH r1 Hr) as (He & _ & _).
    apply feed_one_env in Hf. split_and!; [congruence|pose proof (owes_bound r'); lia|done].
Qed.

(** What is handed over costs what it may ask for, and one more. *)
Lemma fed_budget d vs r e r' :
  hands_over (length vs) (r_env r) e -> feed_all vs (set_r_env e r) = Some r' ->
  (length vs + budget d r' <= room d (r_env r) + owes r)%nat /\ r_env r' = e.
Proof.
  intros Hh Hf. destruct (feed_all_room _ _ _ Hf) as (He & Ho & _). cbn in He. pose proof (room_hands d _ _ _ Hh).
  change (owes (set_r_env e r)) with (owes r) in Ho. unfold budget. rewrite He. split; [lia|done].
Qed.

(** A poll pays for what it asks. *)
Lemma poll_budget d now r r' : sound g cfg r -> updater_poll now r = Some r' -> (budget d r' <= budget d r)%nat.
Proof.
  intros Hso. destruct (polled now (env_world (r_env r)) _ (so_steady _ _ _ Hso)) as (u & evs & Hp & Hs & Hm & Hpay).
  unfold updater_poll. rewrite Hp. intros [= <-].
  pose proof (after_call_told u evs r (mv_log _ _ _ Hm)) as Hi.
  unfold budget. change (r_env (after_call u r)) with (r_env r).
  enough (owes (after_call u r) <= owes r)%nat by lia.
  unfold owes. change (r_updater (after_call u r)) with u. destruct (running_ u) eqn:Hr; [|lia].
  assert (running_ (r_updater r) = true) as Hr0.
  { destruct (running_ (r_updater r)) eqn:Hn; [done|]. destruct (mv_idle _ _ _ Hm Hn). congruence. }
  rewrite Hr0. specialize (Hpay Hr). unfold asked in Hpay.
  unfold wants_reconnect, wants_confirmation. rewrite Hi, !existsb_app.
  change (r_reconnect_pending (after_call u r)) with (r_reconnect_pending r).
  change (r_confirm_pending (after_call u r)) with (r_confirm_pending r).
  destruct (r_reconnect_pending r), (r_confirm_pending r), (existsb is_reconnect (r_inbox r)),
    (existsb is_confirmation (r_inbox r)), (existsb is_reconnect evs), (existsb is_confirmation evs); cbn in *; lia.
Qed.

Lemma observed_later l r : later (r_env r) (r_env (foldl (fun r event => deliver_event event r) r l)).
Proof.
  revert r. induction l as [|ev l IH]; intros r; cbn [foldl]; [split; lia|].
  eapply later_trans; [|apply IH]. destruct ev; apply observe_later.
Qed.

Lemma deliver_budget d r : (budget d (deliver r) <= budget d r)%nat.
Proof.
  unfold budget, deliver. destruct (delivered_list (r_inbox r) (set_r_inbox [] r)) as (H1 & _ & _ & H4 & _ & _ & H7 & H8 & _).
  pose proof (room_later d _ _ (observed_later (r_inbox r) (set_r_inbox [] r))) as He. cbn zeta in *.
  set (r' := foldl _ _ _) in *. cbn in H1, H4, H7, H8, He.
  assert (owes r' = owes r) as ->; [|lia].
  unfold owes, wants_reconnect, wants_confirmation. by rewrite H1, H4, H7, H8, !orb_false_r.
Qed.

Lemma turned_budget d r r' : sound g cfg r -> turned r r' -> (budget d r' <= budget d r)%nat.
Proof.
  intros Hso. unfold turned. pose proof (now_later (r_env r)) as Hn. destruct (env_now (r_env r)) as [now e].
  intros (r1 & Hr & ->). unfold client_poll in Hr. cbn [r_env set_r_env] in Hr.
  pose proof (poll_hands now e) as Hh. destruct (env_client_poll now e) as [vs e'].
  destruct (sound_feed_all g cfg vs (set_r_env e' (set_r_env e r))) as (r2 & Hf & Hso2); [by apply sound_env, sound_env|].
  rewrite Hf in Hr. cbn [mbind option_bind] in Hr.
  pose proof (deliver_budget d r1). pose proof (poll_budget d now r2 r1 Hso2 Hr).
  destruct (fed_budget d vs (set_r_env e r) e' r2 Hh Hf) as [Hb _]. pose proof (room_later d _ _ Hn) as Hl.
  cbn in Hb, Hl. change (owes (set_r_env e r)) with (owes r) in Hb. unfold budget in *. cbn [r_env set_r_env] in *. lia.
Qed.

(** A wait that is not for nothing. *)
Lemma wait_budget d t r r' :
  clock (r_env r) < d -> wait_until t r = Some r' -> (budget d r' < budget d r)%nat.
Proof.
  intros Hd. unfold wait_until. pose proof (wait_hands t (r_env r)) as Hh. pose proof (wait_moves t (r_env r)) as Hw.
  destruct (env_wait_until t (r_env r)) as [vs e]. cbn [fst snd] in *. intros Hf.
  destruct (fed_budget d vs r e r' Hh Hf) as [Hb _]. destruct vs as [|v vs]; [|cbn in Hb; unfold budget at 2; lia].
  cbn in Hf. injection Hf as <-. specialize (Hw eq_refl). destruct Hh as [_ Hc]. cbn in Hc.
  unfold budget, room. cbn [r_env set_r_env]. change (owes (set_r_env e r)) with (owes r). lia.
Qed.

(** Every round that goes on leaves less. *)
Lemma goes_budget d r r' : sound g cfg r -> goes (Some d) r r' -> (budget d r' < budget d r)%nat.
Proof.
  intros Hso (r2 & Ht & Hw). pose proof (turned_budget d r r2 Hso Ht) as Hb.
  destruct Hw as [(Ho & Ho' & He)|Hw].
  - pose proof (room_later d _ _ (passes_later _ _ He)). unfold budget in *. lia.
  - unfold waited_for in Hw. pose proof (now_reads (r_env r2)) as Hr. pose proof (now_later (r_env r2)) as Hn.
    destruct (env_now (r_env r2)) as [now e]. cbn [fst snd] in *. destruct Hw as [Hnow Hw]. subst now.
    assert (clock e < d \/ d <= clock e) as [Hlt|Hge] by lia.
    + pose proof (wait_budget d _ (set_r_env e r2) _ Hlt Hw) as Hb'. pose proof (room_later d _ _ Hn).
      unfold budget at 2 in Hb'. cbn [r_env set_r_env] in Hb'. change (owes (set_r_env e r2)) with (owes r2) in Hb'.
      unfold budget in *. lia.
    + (* the time ran out between the two looks at the clock *)
      unfold wait_until in Hw. cbn [r_env set_r_env] in Hw. pose proof (wait_hands (next_wake (Some d) (set_r_env e r2)) e) as Hh.
      destruct (env_wait_until _ e) as [vs e']. cbn [fst snd] in *.
      destruct (fed_budget d vs (set_r_env e r2) e' r' Hh Hw) as [Hb' _]. cbn [r_env set_r_env] in Hb'.
      change (owes (set_r_env e r2)) with (owes r2) in Hb'. destruct Hn as [_ Hc].
      unfold budget, room in *. lia.
Qed.

Lemma run_returns r timeout :
  sound g cfg r -> rs_overall_timeout cfg = Some timeout ->
  exists fuel x, run_again fuel r = Some x.
Proof.
  intros Hso Ht. unfold run_again. rewrite (so_running _ _ _ Hso), (so_settings _ _ _ Hso), Ht. cbn [negb]. unfold read_clock.
  destruct (env_now (r_env r)) as [now e]. set (d := now + timeout * kTicks).
  exists (S (budget d (set_r_env e r))).
  apply (iterate_total (round (Some d)) (fun s => sound g cfg s.1) (fun s => budget d s.1)); [|by apply sound_env|cbn; lia].
  intros [r1 gu] [r2 gu'] Hs Hr. pose proof (round_sound g cfg (Some d) r1 gu Hs) as Hx. rewrite Hr in Hx.
  destruct Hx as [Hs' Hg]. split; [done|]. by apply goes_budget.
Qed.
End ends.

(** ** A sample application

    It polls a client that hands over, poll by poll, what a script says; its
    waits take 600 milliseconds, its links always open, and it confirms. *)

Record Script := mkScript { sc_clock : TimePoint; sc_world : World; sc_turns : list (World * list (World * Arrival)) }.

Definition pass (d : Z) (s : Script) : Script := mkScript (sc_clock s + Z.max 0 d * kTicks) (sc_world s) (sc_turns s).

#[local] Instance sample_env : RunEnv Script := {
  env_now s := (sc_clock s, s);
  env_wait_until _ s := ([], pass 600 s);
  env_sleep_for d s := pass d s;
  env_client_poll _ s :=
    match sc_turns s with
    | [] => ([], s)
    | (w, vs) :: turns => (vs, mkScript (sc_clock s) w turns)
    end;
  env_client_deadline _ := None;
  env_rebind_transport _ s := ([], s);
  env_world s := sc_world s;
  env_open_link := Some (fun _ s => (mkLinkAttempt (Some 1%nat) false None, [], s));
  env_approve := None;
  env_observe _ s := s
}.

#[local] Instance sample_quiet : QuietHooks Script.
Proof. by split; [intros open_link a e [= <-]|]. Qed.

#[local, program] Instance sample_finite : FiniteEnv Script := {
  clock := sc_clock;
  to_come s := sum_list ((fun t => length t.2) <$> sc_turns s)
}.
Solve Obligations with
  (intros; cbn in *; repeat match goal with H : Some _ = Some _ |- _ => injection H as <- end;
   unfold kTicks; cbn; try (split; lia); try (lia); try done).
Next Obligation.
  intros now [t w [|[w' vs] turns]]; cbn; split; cbn; lia.
Qed.

(** The link's first loss is reconnected, and the update confirmed. *)
Definition sample_turns : list (World * list (World * Arrival)) :=
  [(down, [(up, V_posted); (up, V_answer 0 (A_parameters (Success (mkParameters 512 4))));
     (up, V_answer 1 (A_bootloader (Success (mkBootloaderMode M_SwapUsingMove 4 false))));
     (up, V_answer 2 (table_answer [slot_of 0 old_hash false true true]));
     (up, V_progress (mkProgress 10 20));
     (up, V_answer 3 (A_upload (Success (mkUploadResult 20 false None))));
     (up, V_answer 4 (table_answer [slot_of 0 old_hash false true true; slot_of 1 sample_hash false false false]));
     (up, V_answer 5 (table_answer [slot_of 0 old_hash false true true; slot_of 1 sample_hash true false false]));
     (up, V_answer 6 (A_reset (Success tt)))]);
   (up, [(up, V_posted);
     (up, V_answer 7 (table_answer [slot_of 0 sample_hash false false true; slot_of 1 old_hash false true false]))]);
   (up, []);
   (up, [(up, V_posted);
     (up, V_answer 8 (table_answer [slot_of 0 sample_hash false true true; slot_of 1 old_hash false false false]));
     (up, V_answer 9 (table_answer [slot_of 0 sample_hash false true true; slot_of 1 old_hash false false false]))])].

Definition sample_settings (timeout : option Z) : UpdateRunSettings :=
  mkRunSettings (mkSettings 500 8000 6) timeout (Error_at Disconnected "could not reconnect").

Definition sample_run (timeout : option Z) (turns : list (World * list (World * Arrival))) : UpdateRun Script :=
  fresh_run (mkScript 0 up turns) (sample_settings timeout).

Definition answer_of {E} (x : option (option (UpdateRunOutcome * UpdateRun E))) : option (RunEnd * option ErrorCode) :=
  match x with
  | Some (Some (o, _)) => Some (ro_end o, match ro_result o with Success _ => None | Fail e => Some (code e) end)
  | _ => None
  end.

Example sample_run_finishes :
  answer_of (run_targets 10 sample_targets sample_full_plan (sample_run None sample_turns)) = Some (Finished, None).
Proof. vm_compute. reflexivity. Qed.

(** ** Theorems *)


(** C11. With an overall deadline a run returns, and so does every run that
    carries it on, whatever the device, the link and the hooks do: it is enough
    that the client has finitely many things to hand over, that nothing turns
    the clock back, and that a wait with nothing to deliver takes time. *)
Theorem run_ends_by_deadline {E : Type} `{RunEnv E} `{!QuietHooks E} `{!FiniteEnv E} (e : E) (settings : UpdateRunSettings)
    (targets : list ImageTarget) (plan : FullPlan) (timeout : Z) :
  settings_ok (rs_reconnect settings) -> rs_overall_timeout settings = Some timeout ->
  let r0 := new_run new_updater e settings in
  (exists fuel o r, run_targets fuel targets plan r0 = Some (Some (o, r))) /\
  forall o r, ended targets plan r0 o r -> ro_end o = StoppedBeforeConfirm \/ ro_end o = TimedOut ->
    exists fuel o' r', run_again fuel r = Some (Some (o', r')).
Proof.
  intros Hok Htime r0.
  assert (forall r, sound (Some (targets, plan)) settings r -> exists fuel o r', run_again fuel r = Some (Some (o, r'))) as Hgo.
  { intros r Hso. destruct (run_returns _ _ r timeout Hso Htime) as (fuel & x & Hx). exists fuel.
    pose proof (run_tells _ _ fuel r Hso) as Ht. rewrite Hx in Ht. destruct x as [[o r']|]; [by exists o, r'|done]. }
  split.
  - pose proof (started_fresh targets plan e settings Hok) as Hs. cbn zeta in Hs.
    unfold run_targets. change (r_running r0) with false. cbv iota. change (r_updater r0) with new_updater.
    destruct (start targets plan true new_updater) as [[[]|err] u]; cbn [started].
    + destruct (Hgo _ Hs) as (fuel & o & r' & Hr). exists fuel, o, r'. exact Hr.
    + exists 0%nat. by eexists _, _.
  - intros o r He Hend. apply Hgo. destruct (ended_tells targets plan e settings o r Hok He) as [(Hx & _)|Ht].
    + destruct Hend; congruence.
    + unfold tells in Ht. by destruct Hend as [Hx|Hx]; rewrite Hx in Ht; destruct Ht.
Qed.


Lemma run_ends_by_deadline_witness :
  settings_ok (rs_reconnect (sample_settings (Some 1000))) /\
  exists fuel o r, run_targets fuel sample_targets sample_full_plan (sample_run (Some 1000) ((up, []) :: sample_turns)) = Some (Some (o, r)).
Proof.
  assert (settings_ok (rs_reconnect (sample_settings (Some 1000)))) as Hok by (vm_compute; done).
  split; [exact Hok|].
  exact (proj1 (run_ends_by_deadline (mkScript 0 up ((up, []) :: sample_turns)) (sample_settings (Some 1000))
    sample_targets sample_full_plan 1000 Hok eq_refl)).
Defined.

(** A hook that cancels the update itself and polls the client: the run's own
    resume is refused, and the run says so. *)
Definition meddling_env : RunEnv Script := {|
  env_now := env_now;
  env_wait_until := env_wait_until;
  env_sleep_for := env_sleep_for;
  env_client_poll := env_client_poll;
  env_client_deadline := env_client_deadline;
  env_rebind_transport := env_rebind_transport;
  env_world := env_world;
  env_open_link := Some (fun _ s => (mkLinkAttempt (Some 1%nat) false None, [(up, I_command C_cancel); (up, I_posted)], s));
  env_approve := env_approve;
  env_observe := env_observe
|}.

Example meddling_hook :
  answer_of (run_targets (H := meddling_env) 10 sample_targets sample_full_plan (sample_run None sample_turns)) =
    Some (Finished, Some Internal).
Proof. vm_compute. reflexivity. Qed.

(** A reconnect left owed by a run that timed out outlives its update: when the
    application cancels that update and the run reports it finished, the next
    update begins with the old reconnect. It opens a link, the updater refuses
    to resume, and the run cancels the new update as its own error. *)
Definition stale_turns : list (World * list (World * Arrival)) :=
  (up, []) :: take 1 sample_turns ++ [(up, [(up, V_posted)]); (up, [(up, V_posted)]); (up, [(up, V_posted)])].

Definition cancelled (x : option (option (UpdateRunOutcome * UpdateRun Script))) : UpdateRun Script :=
  match x with
  | Some (Some (_, r)) => set_r_updater (cancel (r_updater r)) r
  | _ => sample_run None []
  end.

Definition left_by (x : option (option (UpdateRunOutcome * UpdateRun Script))) : UpdateRun Script :=
  match x with Some (Some (_, r)) => r | _ => sample_run None [] end.

Lemma stale_reconnect_fails_next_update :
  let first := run_targets 10 sample_targets sample_full_plan (sample_run (Some 1000) stale_turns) in
  let second := run_again 10 (cancelled first) in
  let third := run_targets 10 sample_targets sample_full_plan (left_by second) in
  answer_of first = Some (TimedOut, Some Timeout) /\
  answer_of second = Some (Finished, Some Cancelled) /\
  answer_of third = Some (Finished, Some Internal).
Proof. vm_compute. done. Qed.
