(* ===== verification/UpdateScript.v ===== *)
(** * The script of an update

    What the update state machine (UpdateMachine.v) does of a single image when
    everything goes as it should: the events of an update and the step each of
    them leads to, in terms of what the slot tables say of the image. *)

From S2P Require Import Prelude Errors ImageValues UpdateTypes UpdateMachine.

(** The bootloader modes that swap the two slots and can swap them back. *)
Definition swaps (m : McubootMode) : bool :=
  match m with M_SwapUsingScratch | M_SwapUsingMove | M_SwapUsingOffset => true | _ => false end.

(** What a slot table says of image 0 and a hash: another image runs and no slot
    holds it; a slot holds it, unmarked; it runs, confirmed or not. *)
Definition holder (h : ImageHash) (T : ImageState) : option slot_ptr :=
  find_slot (fun s => (sl_image s =? 0) && bool_decide (sl_hash s = Some h)) T.

Definition runs (h : ImageHash) (T : ImageState) : option bool :=
  match UpdateTypes.active_slot 0 T with
  | Some (_, s) => if bool_decide (sl_hash s = Some h) then Some (sl_confirmed s) else None
  | None => None
  end.

Section script.
Context (plan : UpdatePlan) (h : ImageHash) (v : ImageVersion).
Context (Hh : h <> []) (Hmode : mode plan <> UploadOnly).

Definition the_target : Target := mkTarget 0 Client h v None.

Definition say (k : Kind) (t : TimePoint) : Event := mkEvent k t 0 (mkBootloaderMode M_Unknown 0 false) None 0 false Error_none.
Definition say_table (k : Kind) (t : TimePoint) (T : ImageState) : Event :=
  mkEvent k t 0 (mkBootloaderMode M_Unknown 0 false) (Some T) 0 false Error_none.

Lemma holds_runs T t : t_hash t = h -> t_image t = 0 ->
  holds (UpdateTypes.active_slot 0 T) t = bool_decide (is_Some (runs h T)).
Proof using Hh.
  intros Ht Hi. unfold holds, runs. destruct (UpdateTypes.active_slot 0 T) as [[i s]|]; [|done]. rewrite Ht.
  destruct h as [|b l] eqn:E; [done|]. cbn [hash_empty negb andb]. by case_bool_decide.
Qed.

Lemma holds_holder T t : t_hash t = h -> t_image t = 0 ->
  find_slot (fun s => (sl_image s =? t_image t) && holds (Some (0%nat, s)) t) T = holder h T.
Proof using Hh.
  intros Ht Hi. rewrite Hi. unfold holds, holder. rewrite Ht. by destruct h.
Qed.

(** The machine's reading of the tables, in those terms. *)
Lemma reads_active c T t : device c = Some T -> t_hash t = h -> t_image t = 0 ->
  holds (active_of c 0) t = bool_decide (is_Some (runs h T)).
Proof using Hh. intros Hd Ht Hi. unfold active_of. rewrite Hd. by apply holds_runs. Qed.

Lemma reads_holder c T t : device c = Some T -> t_hash t = h -> t_image t = 0 -> slot_holding c t = holder h T.
Proof using Hh. intros Hd Ht Hi. unfold slot_holding. rewrite Hd. by apply holds_holder. Qed.

Lemma reads_confirmed c T b : device c = Some T -> runs h T = Some b -> ptr_confirmed (active_of c 0) = b.
Proof.
  intros Hd. unfold active_of, runs. rewrite Hd. destruct (UpdateTypes.active_slot 0 T) as [[i s]|]; [|done].
  case_bool_decide; [|done]. by intros [= <-].
Qed.

Lemma reads_some c T b : device c = Some T -> runs h T = Some b -> bool_decide (active_of c 0 = None) = false.
Proof.
  intros Hd Hr. apply bool_decide_eq_false_2. unfold active_of, runs in *. rewrite Hd.
  by destruct (UpdateTypes.active_slot 0 T).
Qed.

(** ** The script *)

Context (ts : nat -> TimePoint) (buf : Z) (bm : BootloaderMode) (T0 T1 T2 T3 T4 T5 : ImageState) (n : Z) (p : bool).
Context (i1 : nat) (s1 : ImageSlot).

(** A swapping device runs another image; the upload lands in another slot; the
    reboot puts it on trial, and the confirm keeps it. *)
Record goes_well : Prop := {
  gw_mode : swaps (bm_mode bm) = true /\ bm_no_downgrade bm = false;
  gw_before : runs h T0 = None /\ holder h T0 = None;
  gw_stored : holder h T1 = Some (i1, s1);
  gw_trial : runs h T3 = Some false;
  gw_kept : runs h T5 = Some true
}.

Definition upload_over (t : TimePoint) : Event := mkEvent K_UploadFinished t 0 (mkBootloaderMode M_Unknown 0 false) None n p Error_none.

Lemma not_upload_only : bool_decide (mode plan = UploadOnly) = false.
Proof using Hmode. by apply bool_decide_eq_false_2. Qed.

Lemma some_targets (x : Image) l : bool_decide (x :: l = []) = false.
Proof. done. Qed.

(** The definitions unfolded, the tables' readings kept. *)
Ltac decide_constants :=
  repeat match goal with
  | |- context [@bool_decide (?a = ?b) ?d] => is_constructor a; is_constructor b;
      let x := eval vm_compute in (@bool_decide (a = b) d) in change (@bool_decide (a = b) d) with x
  | |- context [@bool_decide (?a <> ?b) ?d] => is_constructor a; is_constructor b;
      let x := eval vm_compute in (@bool_decide (a <> b) d) in change (@bool_decide (a <> b) d) with x
  | |- context [bool_decide (_ :: _ = [])] => rewrite some_targets
  end.

Ltac settle := repeat (progress (cbv [
    UpdateTypes.set_in_trial UpdateTypes.set_ir_image UpdateTypes.set_ir_commit UpdateTypes.set_ir_target_hash
    UpdateTypes.set_ir_bytes_transferred UpdateTypes.set_ir_upload_skipped UpdateTypes.set_ir_upload_slot
    UpdateTypes.set_ir_rolled_back UpdateTypes.set_ir_applied UpdateTypes.set_ir_committed
    UpdateTypes.set_rp_final_state UpdateTypes.set_rp_bytes_transferred UpdateTypes.set_rp_upload_skipped
    UpdateTypes.set_rp_target_hash UpdateTypes.set_rp_final_device_state UpdateTypes.set_rp_cause
    UpdateTypes.set_rp_rolled_back UpdateTypes.set_rp_upload_slot UpdateTypes.set_rp_revert_pending
    UpdateTypes.set_rp_bootloader_mode UpdateTypes.set_rp_mode_source UpdateTypes.set_rp_refusal
    UpdateTypes.set_rp_images UpdateTypes.set_targets UpdateTypes.set_current UpdateTypes.set_device
    UpdateTypes.set_buf_size UpdateTypes.set_no_downgrade UpdateTypes.set_report UpdateTypes.set_upload_in_progress
    UpdateTypes.set_swap_scheduled UpdateTypes.set_mark_retried UpdateTypes.set_reset_forced
    UpdateTypes.set_confirm_approved UpdateTypes.set_confirm_reread UpdateTypes.set_preconditions_checked
    UpdateTypes.set_grace_deadline UpdateTypes.set_apply_poll UpdateTypes.set_apply_deadline
    UpdateTypes.set_apply_phase UpdateTypes.ir_image UpdateTypes.ir_commit UpdateTypes.ir_target_hash
    UpdateTypes.ir_bytes_transferred UpdateTypes.ir_upload_skipped UpdateTypes.ir_upload_slot
    UpdateTypes.ir_rolled_back UpdateTypes.ir_applied UpdateTypes.ir_committed UpdateTypes.rp_final_state
    UpdateTypes.rp_bytes_transferred UpdateTypes.rp_upload_skipped UpdateTypes.rp_target_hash
    UpdateTypes.rp_final_device_state UpdateTypes.rp_cause UpdateTypes.rp_rolled_back UpdateTypes.rp_upload_slot
    UpdateTypes.rp_revert_pending UpdateTypes.rp_bootloader_mode UpdateTypes.rp_mode_source UpdateTypes.rp_refusal
    UpdateTypes.rp_images UpdateTypes.targets UpdateTypes.current UpdateTypes.device UpdateTypes.buf_size
    UpdateTypes.no_downgrade UpdateTypes.report UpdateTypes.upload_in_progress UpdateTypes.swap_scheduled
    UpdateTypes.mark_retried UpdateTypes.reset_forced UpdateTypes.confirm_approved UpdateTypes.confirm_reread
    UpdateTypes.preconditions_checked UpdateTypes.grace_deadline UpdateTypes.apply_poll UpdateTypes.apply_deadline
    UpdateTypes.apply_phase UpdateTypes.im_target UpdateTypes.chosen UpdateTypes.chosen_known UpdateTypes.in_trial
    UpdateTypes.t_image UpdateTypes.t_commit UpdateTypes.t_hash UpdateTypes.t_version UpdateTypes.t_builds
    alter_image_report alter_target plan_ state_ context_ empty_report initial_report the_target
    UpdateMachine.fail_error UpdateMachine.fail_code UpdateMachine.record_mode UpdateMachine.mode_refusal
    UpdateMachine.without_set_state UpdateMachine.upload_only UpdateMachine.running_on_trial
    UpdateMachine.find_in_trial UpdateMachine.next_in_trial UpdateMachine.check_preconditions
    UpdateMachine.confirmation_fork UpdateMachine.apply_of UpdateMachine.await_commit_loop UpdateMachine.await_commit
    UpdateMachine.await_device_loop UpdateMachine.await_device UpdateMachine.wait_read_failed
    UpdateMachine.confirm_failed UpdateMachine.client_without_active UpdateMachine.inspect_loop UpdateMachine.staged
    UpdateMachine.no_image UpdateMachine.current_image UpdateMachine.current_target UpdateMachine.build_at
    UpdateMachine.take_build UpdateMachine.choose_build UpdateMachine.next_target UpdateMachine.mark_or_skip
    UpdateMachine.plan_loop UpdateMachine.summarise UpdateMachine.upload_finished UpdateMachine.mark_refused
    UpdateMachine.reset_refused UpdateMachine.needs_current UpdateMachine.names_current UpdateMachine.carries_table
    UpdateMachine.parameterise UpdateMachine.waiting_state UpdateMachine.due UpdateMachine.tick
    UpdateMachine.keep_time UpdateMachine.bootloader_failed UpdateMachine.confirmed_one UpdateMachine.verify_confirmed
    UpdateMachine.illegal UpdateMachine.decide_step UpdateMachine.initial_report UpdateMachine.new_machine
    UpdateMachine.consistent UpdateMachine.complete UpdateMachine.guarded_step UpdateMachine.apply
    UpdateMachine.next_deadline UpdateMachine.run is_terminal step say say_table upload_over kind now ev_buf_size
    ev_bootloader ev_state ev_transferred ev_already_present ev_error bm_mode bm_raw_mode bm_no_downgrade next effect
    st_target st_build st_image st_buf_size st_hash fmap list_fmap option_fmap option_map id foldl existsb forallb lookup
    list_lookup alter list_alter length drop default from_option andb orb negb Nat.ltb Nat.leb Nat.eqb is_downgrade
    t_image t_commit t_hash t_version t_builds]; decide_constants; rewrite ?not_upload_only)).

Lemma the_current c im :
  targets c = [im] -> im_target im = the_target -> current c = 0%nat ->
  current_image c = im /\ current_target c = the_target.
Proof. intros Ht Hi Hc. unfold current_target, current_image. by rewrite Ht, Hc. Qed.

(** A table of another image: nothing of the target is there, so it is sent. *)
Lemma plans c im :
  targets c = [im] -> im_target im = the_target -> current c = 0%nat -> device c = Some T0 ->
  runs h T0 = None -> holder h T0 = None -> preconditions_checked c = false -> UpdateTypes.no_downgrade c = false ->
  swaps (rp_bootloader_mode (report c)) = true ->
  plan_from_state plan c = (step S_Uploading E_StartUpload, set_upload_in_progress true (set_preconditions_checked true c)).
Proof using Hh Hmode.
  intros Ht Hi Hc Hd Hr Hho Hp Hn Hs. destruct (the_current c im Ht Hi Hc) as [Hci Hct]. unfold plan_from_state.
  assert (running_on_trial c (im_target im) = false) as Hrun.
  { unfold running_on_trial. rewrite Hi. change (t_image the_target) with 0. rewrite (reads_active c T0), Hr by done. done. }
  rewrite Ht, Hc. cbn [existsb orb andb Nat.eqb]. rewrite Hrun. cbn [orb andb length plan_loop]. rewrite Hc, Ht. cbn [length Nat.ltb Nat.leb negb].
  assert (choose_build c = (None, c)) as -> by (unfold choose_build; by rewrite Hci, Hi).
  rewrite Hct, (reads_holder c T0 the_target Hd eq_refl eq_refl), Hho. unfold check_preconditions, mode_refusal, is_downgrade.
  rewrite Hp. cbn. rewrite Hn. destruct (rp_bootloader_mode (report c)); try done; by rewrite orb_true_r.
Qed.

(** The upload is found in another slot. *)
Lemma verifies c im :
  targets c = [im] -> im_target im = the_target -> current c = 0%nat -> device c = Some T1 ->
  holder h T1 = Some (i1, s1) -> swaps (rp_bootloader_mode (report c)) = true ->
  verify_upload plan c =
    (step S_MarkingForTest E_MarkForTest, alter_image_report (set_ir_upload_slot (Some (sl_slot s1))) 0 c).
Proof using Hh.
  intros Ht Hi Hc Hd Hho Hs. destruct (the_current c im Ht Hi Hc) as [Hci Hct].
  unfold verify_upload. rewrite Hct, (reads_holder c T1 the_target Hd eq_refl eq_refl), Hho. unfold mark_or_skip, without_set_state.
  change (rp_bootloader_mode (report (alter_image_report _ _ c))) with (rp_bootloader_mode (report c)). rewrite Hc.
  by destruct (rp_bootloader_mode (report c)).
Qed.

(** The image runs on trial. *)
Lemma inspects c im :
  targets c = [im] -> im_target im = the_target -> device c = Some T3 -> runs h T3 = Some false ->
  swaps (rp_bootloader_mode (report c)) = true -> confirm_approved c = false ->
  inspect_boot plan c =
    (if bool_decide (mode plan = ConfirmImmediately) then step S_Confirming E_Confirm
     else step S_AwaitingConfirmation E_RequestConfirmation,
     UpdateTypes.set_current 0 (set_swap_scheduled true (set_targets [UpdateTypes.set_in_trial true im] c))).
Proof using Hh.
  intros Ht Hi Hd Hr Hs Hca. unfold inspect_boot, client_without_active. rewrite Ht. cbn [existsb]. rewrite Hi. cbn [t_commit t_image the_target].
  rewrite (reads_some c T3 false) by done. rewrite andb_false_r. cbn [orb inspect_loop].
  rewrite Hi. cbn [t_commit t_image the_target].
  assert (forall c', device c' = Some T3 -> holds (active_of c' 0) the_target = true) as Hrun
    by (intros c' Hd'; rewrite (reads_active c' T3), Hr by done; done).
  rewrite Hrun by done. cbn [negb]. rewrite (reads_confirmed _ T3 false) by done.
  assert (bool_decide (Client <> Client) = false) as -> by done.
  assert (without_set_state (alter_target (UpdateTypes.set_in_trial false) 0 c) = false) as ->.
  { unfold without_set_state. change (rp_bootloader_mode (report (alter_target _ _ c))) with (rp_bootloader_mode (report c)).
    by destruct (rp_bootloader_mode (report c)). }
  cbn [andb negb]. unfold alter_target. rewrite Ht.
  destruct c as [ts_ cu de bu nd re up sw ma rf ca cr pc gd ap ad aph]. cbn in Ht, Hd, Hca |- *. subst ts_ ca. cbn.
  destruct im as [tg ch ck it]. cbn in Hi |- *. subst tg. unfold await_device, confirmation_fork. cbn.
  assert (bool_decide (Client <> Device) = true) as -> by done. cbn. rewrite orb_false_r. by destruct (bool_decide _).
Qed.

(** One turn of the machine, its guards passed. *)
Lemma applied st ev c s c' s' c'' c3 :
  is_terminal st = false -> consistent st c = true -> complete ev = true -> decide_step st ev plan c = (s, c') ->
  names_current (effect s) && (length (targets c') <=? current c')%nat = false -> parameterise s (summarise c') = (s', c'') ->
  keep_time s' (now ev) plan c'' = c3 ->
  apply ev (mkMachine plan st c) = (s', mkMachine plan (next s') c3).
Proof.
  intros Ht Hc He Hd Hn Hp <-. unfold apply, guarded_step. cbn [state_ plan_ context_]. rewrite Ht, Hc, He. cbn [orb andb].
  by rewrite Hd, Hn, Hp.
Qed.

(** The image runs confirmed. *)
Lemma confirms c im :
  targets c = [im] -> im_target im = the_target -> device c = Some T5 -> runs h T5 = Some true ->
  verify_confirmed c = (step S_Completed E_Finish, c).
Proof using Hh.
  intros Ht Hi Hd Hr. unfold verify_confirmed, all_confirmed, await_commit. rewrite Ht. cbn [forallb await_commit_loop]. rewrite Hi.
  cbn [t_commit t_image the_target]. rewrite (reads_active c T5) by done. rewrite Hr.
  rewrite (reads_confirmed c T5 true Hd Hr). done.
Qed.

Ltac evaluate := settle; reflexivity.
Ltac turn_with tac := eapply applied; [reflexivity|reflexivity|reflexivity|tac|reflexivity|evaluate|evaluate].
Ltac turn := eexists; split; [turn_with evaluate|].
Ltac turn_by L := eexists; split; [turn_with ltac:(eapply L; done)|].

Lemma script :
  goes_well ->
  let m0 := new_machine [the_target] plan in
  exists m1, apply (say K_Start (ts 0%nat)) m0 = (step S_QueryingParameters E_QueryParameters, m1) /\
  exists m2, apply (mkEvent K_ParametersRead (ts 1%nat) buf (mkBootloaderMode M_Unknown 0 false) None 0 false Error_none) m1 =
    (step S_QueryingBootloader E_QueryBootloader, m2) /\
  exists m3, apply (mkEvent K_BootloaderRead (ts 2%nat) 0 bm None 0 false Error_none) m2 = (step S_InspectingImages E_ReadState, m3) /\
  exists m4, apply (say_table K_StateRead (ts 3%nat) T0) m3 = (step S_Planning E_Continue, m4) /\
  exists m5, apply (say K_Continue (ts 4%nat)) m4 = (mkStep S_Uploading E_StartUpload 0 0 0 buf [], m5) /\
  exists m6, apply (upload_over (ts 5%nat)) m5 = (step S_VerifyingUpload E_ReadState, m6) /\
  exists m7, apply (say_table K_StateRead (ts 6%nat) T1) m6 = (mkStep S_MarkingForTest E_MarkForTest 0 0 0 0 h, m7) /\
  exists m8, apply (say_table K_MarkedForTest (ts 7%nat) T2) m7 = (step S_Resetting E_Reset, m8) /\
  exists m9, apply (say K_ResetAccepted (ts 8%nat)) m8 = (step S_AwaitingDisconnect E_AwaitDisconnect, m9) /\
  exists m10, apply (say K_Disconnected (ts 9%nat)) m9 = (step S_AwaitingReconnect E_RequestReconnect, m10) /\
  exists m11, apply (say K_Reconnected (ts 10%nat)) m10 = (step S_VerifyingBooted E_ReadState, m11) /\
  exists m12 m13,
    (if bool_decide (mode plan = ConfirmImmediately)
     then apply (say_table K_StateRead (ts 11%nat) T3) m11 = (mkStep S_Confirming E_Confirm 0 0 0 0 h, m13) /\ m12 = m13
     else apply (say_table K_StateRead (ts 11%nat) T3) m11 = (step S_AwaitingConfirmation E_RequestConfirmation, m12) /\
       apply (say K_ConfirmApproved (ts 12%nat)) m12 = (mkStep S_Confirming E_Confirm 0 0 0 0 h, m13)) /\
  exists m14, apply (say_table K_Confirmed (ts 13%nat) T4) m13 = (step S_VerifyingConfirmed E_ReadState, m14) /\
  exists m15, apply (say_table K_StateRead (ts 14%nat) T5) m14 = (step S_Completed E_Finish, m15) /\
    let r := report (context_ m15) in
    rp_final_state r = S_Completed /\ rp_cause r = None /\ rp_rolled_back r = false /\ rp_revert_pending r = false /\
    rp_target_hash r = Some h /\ rp_final_device_state r = Some T5.
Proof using All.
  intros [[Hm Hnd] [Hr0 Hh0] Hs1 Ht3 Hk5] m0. subst m0. destruct bm as [m raw nd]. cbn in Hm, Hnd. subst nd.
  assert (bool_decide (m <> M_Unknown) = true) as Hknown by by destruct m.
  do 2 turn. eexists; split; [turn_with ltac:(settle; rewrite Hknown; evaluate)|].
  turn. turn_by plans. turn. turn_by verifies. do 4 turn.
  destruct (decide (mode plan = ConfirmImmediately)) as [Hci|Hci];
    [rewrite (bool_decide_eq_true_2 _ Hci)|rewrite (bool_decide_eq_false_2 _ Hci)]; eexists _, _; split.
  1: split; [turn_with ltac:(etrans; [eapply inspects; done|by rewrite bool_decide_eq_true_2])|reflexivity].
  2: split; [turn_with ltac:(etrans; [eapply inspects; done|by rewrite bool_decide_eq_false_2])|turn_with evaluate].
  all: turn; turn_by confirms; done.
Qed.
End script.
