(* ===== verification/DeviceExchange.v ===== *)
(** * Group operations against the pretend device

    One request of a management group, from the call to the callback: the
    group's encoder (GroupRequests.v), the header, the device of StubDevice.v,
    the client's look for an error report (Client.v, Cbor.v) and the group's
    decoder (GroupCodecs.v). Each operation an update needs is shown to tell the
    library what the device is. *)

From S2P Require Import Prelude Errors Header ImageValues UpdateTypes StoredZip Minicbor ImageReader BootModel BootModelProperties Cbor Client GroupCodecs CborLaws QcborModel GroupProperties StubDevice StubDeviceProperties GroupRequests McubootImage UploadSession UploadDriver UploadDriverProperties UploadToDevice.

Section exchange.
Context `{QDecoderLaws} `{QEncoderLaws}.
Context (version : Header.Version) (seq : Z).

(** The message of a request. *)
Definition spec_header (spec : RequestSpec) : Header.Header :=
  mkHeader (rs_op spec) version 0 (zlen (rs_payload spec)) (rs_group spec) seq (rs_command spec).

Definition spec_message (spec : RequestSpec) : bytes := Header.encode (spec_header spec) ++ rs_payload spec.

(** What the client and the group make of the message that comes back. *)
Definition hear {A} (decode : Reader -> Result A * Reader) (message : option bytes) : Result A :=
  match message with
  | None => fail Timeout "no answer"
  | Some m =>
      let? h := decode_header m in
      let? (_, payload) := interpret extract_mgmt_error h (drop Header.kHeaderSize m) in
      complete decode payload
  end.

(** A group's operation, asked of the device; [None] is a device that throws. *)
Definition exchange {A} (op : GroupOp) (decode : Reader -> Result A * Reader) (d : StubDevice)
  : option (Result A * StubDevice) :=
  match request_of op with
  | Fail e => Some (Fail e, d)
  | Success spec => let! (m, d) := answer (spec_message spec) d in Some (hear decode m, d)
  end.

(** [groups::decode_nothing]. *)
Definition decode_nothing (r : Reader) : Result unit * Reader := (Success tt, r).

(** A request reaches its handler, and the reply is what the decoder makes of
    it. *)
Lemma exchanged_op {A} op (decode : Reader -> Result A * Reader) d reply d' es :
  accepts op = true -> arguments_ok op -> u8 seq ->
  (zlen (encode (Map (intent op).2)) < 2 ^ 16) ->
  (let '(o, g, c, _, es) := intent op in
   answer_payload (mkHeader o version 0 (zlen (encode (Map es))) g seq c) (Some (Map es)) d = Some (reply, d')) ->
  parse reply = Some (Map es) -> report_keys es -> (exists why, mgmt_spec es = Some (mkOutcome None why)) ->
  exchange op decode d = Some (complete decode reply, d').
Proof.
  intros Ha Hok Hseq Hlen Hans Hp Hk [why Hm].
  pose proof (request_sent op Ha Hok) as Hs. pose proof (parse_encode _ (intent_ok op Ha Hok)) as Hpar.
  unfold exchange. destruct (intent op) as [[[[o g] c] t] rs] eqn:Hi. cbn [snd] in *. rewrite Hs.
  unfold spec_message, spec_header. cbn [rs_op rs_group rs_command rs_payload].
  set (h := mkHeader o version 0 (zlen (encode (Map rs))) g seq c) in *.
  assert (header_ok h) as Hh.
  { assert (u16 g /\ u8 c) as [Hg Hc] by (destruct op; injection Hi as <- <- <- <- <-; done).
    unfold header_ok, h. cbn [h_flags h_length h_group h_seq h_command]. split_and!; try done. unfold fits. lia. }
  rewrite answer_framed, Hpar by done. rewrite Hans. cbn [mbind option_bind].
  do 2 f_equal. destruct (respond_header h reply Hh) as (h' & Hd & Hdr). unfold hear. rewrite Hd, Hdr. cbn [result_bind].
  unfold interpret. destruct (is_user_defined _); [done|]. rewrite (extract_spec reply es) by done. by rewrite Hm.
Qed.

Lemma no_report (l : list (string * option Value)) :
  NoDup l.*1 -> assoc "err" l = None -> assoc "rc" l = None -> assoc "rsn" l = None ->
  report_keys (fields_of l) /\ exists why, mgmt_spec (fields_of l) = Some (mkOutcome None why).
Proof.
  intros Hk He Hc Hr. unfold report_keys, mgmt_spec, scoped_spec, flat_spec, field.
  rewrite !find_fields, He, Hc, Hr by done. split; [split; [by apply map_keys_NoDup|done]|by eexists].
Qed.

(** The keys of a document of known keys are told apart by computation. *)
Ltac keys := apply (bool_decide_unpack _); by vm_compute.

(** [mcumgr_parameters]. *)
Lemma parameters_read d :
  u8 seq -> exchange Parameters decode_parameters d = Some (Success (mkParameters kBufSize kBufCount), d).
Proof.
  intros Hseq. set (l := [("buf_size", Some (Uint kBufSize)); ("buf_count", Some (Uint kBufCount))]%string).
  set (reply := encode (Map (fields_of l))).
  assert (parse reply = Some (Map (fields_of l))) as Hp by (apply parse_encode, flat_2; done).
  assert (NoDup l.*1) as Hk by keys.
  destruct (no_report l Hk) as [Hrk Hrs]; [done..|].
  rewrite (exchanged_op Parameters decode_parameters d reply d (fields_of l)); [|done..].
  do 2 f_equal. unfold complete. destruct (enter_spec reply _ kMaxCborNesting Hp ltac:(by split)) as (r & -> & Hr & _).
  cbn [result_bind]. unfold decode_parameters, r_uint.
  destruct (get_field GetUInt64InMapSZ as_uint reply l [] r "buf_size" (Some kBufSize)) as (r1 & -> & Hr1 & _);
    [apply law_uint|done|done|plain|by split|].
  destruct (get_field GetUInt64InMapSZ as_uint reply l [] r1 "buf_count" (Some kBufCount)) as (r2 & -> & Hr2 & _);
    [apply law_uint|done|done|plain|by split|].
  destruct (leave_spec _ _ _ _ Hr2) as (r3 & -> & He & _). unfold status. by rewrite He.
Qed.

(** [bootloader_mode]. *)
Lemma mode_read d m :
  u8 seq -> d_mode d = Some m -> 0 <= m < 2 ^ 31 ->
  exchange BootloaderMode decode_bootloader_mode d = Some (Success (mkBootloaderMode (mode_from m) m false), d).
Proof.
  intros Hseq Hm Hr0. set (l := [("mode", Some (Uint m))]%string). set (reply := encode (Map (fields_of l))).
  assert (parse reply = Some (Map (fields_of l))) as Hp by (apply parse_encode, flat_1; [done|]; cbn; unfold fits; lia).
  assert (NoDup l.*1) as Hk by keys.
  destruct (no_report l Hk) as [Hrk Hrs]; [done..|].
  rewrite (exchanged_op BootloaderMode decode_bootloader_mode d reply d (fields_of l)); try done.
  2:{ cbn [intent]. unfold answer_payload. cbn [h_group h_command]. cbn [Z.eqb Pos.eqb Group_Os]. unfold answer_os. cbn [h_command].
      cbn [Z.eqb Pos.eqb kOsMcumgrParams kOsBootloaderInfo]. rewrite Hm. cbn [negb].
      destruct (Z.ltb_spec m 0); [lia|]. unfold reply. cbn [fields_of encode flat_map l]. by rewrite app_nil_r. }
  do 2 f_equal. unfold complete. destruct (enter_spec reply _ kMaxCborNesting Hp ltac:(by split)) as (r & -> & Hr & _).
  cbn [result_bind]. unfold decode_bootloader_mode, r_integer, r_boolean.
  destruct (get_field GetInt64InMapSZ as_int reply l [] r "mode" (Some m)) as (r1 & -> & Hr1 & _);
    [apply law_int|done|done|plain| |].
  { split; [done|]. cbn. rewrite (proj2 (Z.ltb_lt _ _)) by lia. done. }
  destruct (get_field GetBoolInMapSZ as_bool reply l [] r1 "no-downgrade" None) as (r2 & -> & Hr2 & _);
    [apply law_bool|done|done|plain|done|].
  destruct (leave_spec _ _ _ _ Hr2) as (r3 & -> & He & _). unfold status. by rewrite He.
Qed.

(** A slot table as the device writes it. *)
Lemma table_reply m :
  flash_ok m -> listing_fits m ->
  exists es, parse (encode_state (listing m)) = Some (Map es) /\ report_keys es /\
    (exists why, mgmt_spec es = Some (mkOutcome None why)) /\
    complete decode_state (encode_state (listing m)) = Success (wire_state (listing m)).
Proof.
  intros Hf Hl. rewrite encode_state_response.
  assert (parse (encode (state_response false (wire_state (listing m)))) = Some (state_response false (wire_state (listing m)))) as Hp
    by (apply parse_encode, wire_state_value; done).
  unfold state_response in Hp at 2. set (l := [("images", _); ("splitStatus", _)]%string) in Hp.
  assert (NoDup l.*1) as Hk by keys. destruct (no_report l Hk) as [Hrk Hrs]; [done..|].
  exists (fields_of l). split_and!; try done. apply (state_decodes false); [by apply wire_state_ok|exact Hp].
Qed.

(** [get_state]. *)
Lemma state_read d :
  u8 seq -> flash_ok (read_state (d_model d)).2 -> listing_fits (read_state (d_model d)).2 ->
  exchange GetState decode_state d =
    Some (Success (wire_state (listing (read_state (d_model d)).2)), set_model (read_state (d_model d)).2 d).
Proof.
  intros Hseq Hf Hl. destruct (table_reply _ Hf Hl) as (es & Hp & Hk & Hm & Hd).
  by rewrite (exchanged_op GetState decode_state d (encode_state (listing (read_state (d_model d)).2)) (set_model (read_state (d_model d)).2 d) es), Hd.
Qed.

(** [set_state], where the device accepts it. *)
Lemma state_set d h confirm m :
  u8 seq -> byte_list h -> (0 < length h <= kMaxImageHashLength)%nat -> supports_set_state (d_model d) = true ->
  BootModel.set_state (Some h) confirm (d_model d) = Some (ImageError_Ok, m) -> flash_ok m -> listing_fits m ->
  exchange (SetState (Some h) confirm) decode_state d = Some (Success (wire_state (listing m)), set_model m d).
Proof.
  intros Hseq Hb [Hh0 Hh] Hsup Hset Hf Hl. destruct (table_reply _ Hf Hl) as (es & Hp & Hk & Hm & Hd).
  rewrite (exchanged_op (SetState (Some h) confirm) decode_state d (encode_state (listing m)) (set_model m d) es); try done.
  - by rewrite Hd.
  - cbn [accepts]. by destruct confirm.
  - unfold kMaxImageHashLength in Hh. pose proof (hash_size h confirm Hh) as Hs. cbn [intent snd app]. lia.
  - cbn [intent app]. set (q := Map [Text "hash"; Bytes h; Text "confirm"; Bool confirm]).
    change (answer_payload (mkHeader Header.Write version 0 (zlen (encode q)) Group_Image seq 0) (Some q) d)
      with (answer_set_state (mkHeader Header.Write version 0 (zlen (encode q)) Group_Image seq 0) (Some q) d).
    unfold answer_set_state. rewrite Hsup. cbn [negb]. change (find "hash" q) with (Some (Bytes h)).
    change (default false (get_bool "confirm" q)) with confirm. cbv iota zeta. by rewrite Hset.
Qed.

(** [reset]. *)
Lemma device_reset d force :
  u8 seq -> exchange (Reset force None) decode_nothing d = Some (Success tt, set_reboot_pending true d).
Proof.
  intros Hseq. destruct (no_report []) as [Hk Hm]; [constructor|done..|].
  assert (parse empty_map = Some (Map (fields_of []))) as Hp by (apply (parse_encode (Map [])); by apply flat_ok).
  rewrite (exchanged_op (Reset force None) decode_nothing d empty_map (set_reboot_pending true d) []); try done; [|by destruct force..].
  do 2 f_equal. unfold complete. destruct (enter_spec empty_map _ kMaxCborNesting Hp ltac:(by split)) as (r & -> & _). done.
Qed.
End exchange.
