(* ===== verification/UpdateOnDevice.v ===== *)
(** * An update of the pretend device

    The library against the device: the firmware updater (FirmwareUpdater.v)
    with its machine, the group operations of DeviceExchange.v, the upload
    session of UploadToDevice.v and the device of StubDevice.v, joined by an
    application that answers what the updater asks, polls, reconnects after the
    reset and approves the confirmation. An update of a swapping device with a
    file that is another image than the one running completes, and leaves the
    device running the file, confirmed, with the old image in the other slot. *)

From S2P Require Import Prelude Errors Header ImageValues UpdateTypes UpdateMachine StoredZip Minicbor ImageReader BootModel BootModelProperties Cbor Client GroupCodecs CborLaws QcborModel GroupProperties StubDevice StubDeviceProperties GroupRequests McubootImage UploadSession UploadDriver UploadDriverProperties UploadToDevice FirmwareUpdater UpdateScript DeviceExchange.

(** ** What an upload touches *)

(** The contents of the slots may differ, and the upload; nothing else. *)
Definition marks (p : ImagePair) : SwapType * option DeviceCommit * option nat * option nat :=
  (swap p, device p, applying p, committing p).

Record flash_only (d d' : StubDevice) : Prop := {
  fo_mode : d_mode d' = d_mode d /\ d_reboot_pending d' = d_reboot_pending d;
  fo_config : config (d_model d') = config (d_model d);
  fo_marks : marks <$> images (d_model d') = marks <$> images (d_model d)
}.

#[global] Instance flash_only_preorder : PreOrder flash_only.
Proof.
  split; [by intros d|]. intros d1 d2 d3 [[Hm Hr] Hc Hk] [[Hm' Hr'] Hc' Hk']. split; [split; congruence|congruence..].
Qed.

Lemma slot_set_marks w b p : marks (slot_set w b p) = marks p.
Proof. by destruct w. Qed.

Lemma with_pair_marks i w b m m' :
  with_pair i (slot_set w b) m = Some m' -> config m' = config m /\ marks <$> images m' = marks <$> images m.
Proof.
  unfold with_pair. destruct (images m !! i) as [p|] eqn:E; [|done]. cbn. intros [= <-]. split; [done|]. cbn.
  rewrite list_fmap_insert, slot_set_marks, list_insert_id; [done|]. by rewrite list_lookup_fmap, E.
Qed.

Lemma stored_flash header off data d reply d' : store_data header off data d = Some (reply, d') -> flash_only d d'.
Proof.
  unfold store_data. destruct (d_upload_slot d); [|by intros [= _ <-]]. destruct (negb _); [by intros [= _ <-]|].
  destruct (write _ _ _ _) as [[w m]|] eqn:E; [|done]. cbn [option_bind].
  assert (config m = config (d_model d) /\ marks <$> images m = marks <$> images (d_model d)) as [Hc Hk].
  { unfold write in E. destruct (slot_content _ _); [|done]. cbn [option_bind] in E. destruct (_ || _); [by injection E as _ <-|].
    destruct (load_slot _ _ _) eqn:El; [|done]. injection E as _ <-. by apply with_pair_marks in El. }
  destruct (negb w); [|case_match]; by intros [= _ <-].
Qed.

Lemma upload_flash header request d reply d' : answer_upload header request d = Some (reply, d') -> flash_only d d'.
Proof.
  unfold answer_upload. destruct request as [request|]; [|by intros [= _ <-]].
  destruct (get_uint "off" request) as [off|]; [|by intros [= _ <-]].
  destruct (find "data" request) as [[]|]; try by intros [= _ <-].
  match goal with |- context [open_upload header request ?x d] => rename x into data end.
  destruct (if off =? 0 then _ else _) as [[refused d1]|] eqn:E; [|done]. cbn [option_bind].
  assert (flash_only d d1) as Hd1.
  { destruct (off =? 0); [|by injection E as _ <-]. revert E. unfold open_upload.
    destruct (get_uint _ _); [|by intros [= _ <-]]. destruct (_ <? _); [by intros [= _ <-]|].
    destruct (read32 _ _); [|done]. cbn [option_bind]. destruct (negb _); [by intros [= _ <-]|].
    destruct (upload_target _ _); [|by intros [= _ <-]]. destruct (_ <? _); [by intros [= _ <-]|].
    destruct (BootModel.begin_upload _ _ _) as [m|] eqn:Eb; [|done]. cbn [option_bind]. intros [= _ <-].
    unfold BootModel.begin_upload in Eb. destruct (with_pair _ _ _) as [m1|] eqn:Ew; [|done]. apply with_pair_marks in Ew as [Hc Hk].
    cbn [option_bind] in Eb. injection Eb as <-. by destruct (_ && _). }
  destruct refused; [by intros [= _ <-]|]. intros E2. etrans; [exact Hd1|]. by eapply stored_flash.
Qed.

(** ** An upload, from the call to its completion *)

(** What the driver tells its caller, from the last step of the session: as
    [UploadDriver.advance] does. *)
Definition upload_outcome (t : trace) (st : UploadState) : Result UploadResult :=
  match last t with
  | Some (_, s) =>
      match action s with
      | Complete => Success (mkUploadResult (confirmed_off st) (completed_on_first_packet s) (match_ s))
      | FailUpload | Suspend => Fail (UploadSession.error s)
      | SendChunk => fail Timeout "no answer"
      end
  | None => fail Timeout "no answer"
  end.

(** A session that is done ended with a [Complete]. *)
Definition told (t : trace) (st : UploadState) : Prop :=
  phase st = Done -> exists i s, last t = Some (i, s) /\ action s = Complete.

Lemma done_is_complete st r config :
  phase st = Sending -> phase (sent (on_response st r config)).2 = Done -> action (sent (on_response st r config)).1 = Complete.
Proof.
  intros Hp. unfold on_response, on_failure, on_complete, on_restart, on_offset, fail_with, sent.
  repeat (case_match || case_bool_decide); cbn in *; try congruence; try done.
Qed.

Lemma answered_told `{QDecoder} version config file seq t st d t' st' d' :
  told t st -> befall version config file (ItsAnswered seq) (t, st, d) = Some (t', st', d') -> told t' st'.
Proof.
  intros Ht. unfold befall. destruct (phase st) eqn:Hp; try by intros [= <- <- <-].
  destruct (answer _ d) as [[m d1]|]; [|done]. cbn [option_bind]. unfold extend, turn. cbn [fst snd]. rewrite Hp.
  pose proof (done_is_complete st (response_of m) config Hp) as Hd.
  destruct (sent (on_response st (response_of m) config)) as [s st1]. cbn [fst snd] in *. intros [= <- <- <-] Hdone.
  eexists _, s. split; [by rewrite last_snoc|auto].
Qed.

Lemma begin_told config : told [(None, (begin config).1)] (begin config).2.
Proof.
  unfold told, begin, plan_next, sent. repeat (case_match || case_bool_decide); cbn in *; try congruence; try done.
  all: intros; eexists _, _; split; [done|]; done.
Qed.

Section sent.
Context `{QDecoderLaws} `{QEncoderLaws}.
Context (version : Header.Version) (seq : Z) (config : UploadConfig) (file : bytes) (image slot : nat) (others : nat -> option bytes).
Context (Hup : uploads config file image) (Hfile : installable file) (Hseq : u8 seq).

Lemma request_flash r d m d' :
  request_ok config r -> answer (request_message version seq config file r) d = Some (m, d') -> flash_only d d'.
Proof using Hup Hfile Hseq.
  intros Hr. pose proof (fields_of_request config file image Hup Hfile r Hr) as Hfit.
  pose proof (request_fits _ _ _ _ (cfg_upgrade_only config) (first_packet r) _ Hfit) as Hlen.
  set (h := mkHeader Header.Write version 0 (zlen (encode (Map (entries_of config r (chunk_of file r))))) Group_Image seq kUploadCommand).
  assert (header_ok h) as Hh.
  { unfold header_ok, h. cbn [h_flags h_length h_group h_seq h_command]. split_and!; try done. unfold fits.
    change kUploadBufferSize with 640%nat in Hlen. unfold entries_of. lia. }
  unfold request_message. fold h. rewrite answer_framed by done.
  change (answer_payload h ?v d) with (answer_upload h v d).
  destruct (answer_upload h _ d) as [[reply d1]|] eqn:E; [|done]. cbn [option_bind]. intros [= _ <-]. by eapply upload_flash.
Qed.

Lemma answered_flash t st d t' st' d' :
  together config file image slot others st d ->
  befall version config file (ItsAnswered seq) (t, st, d) = Some (t', st', d') -> flash_only d d'.
Proof using Hup Hfile Hseq.
  intros Ht. unfold befall. destruct (phase st) eqn:Hp; try by intros [= <- <- <-].
  destruct (in_flight_ok config file image slot others st d Ht Hp) as [Hr _].
  destruct (answer _ d) as [[m d1]|] eqn:E; [|done]. cbn [option_bind]. apply request_flash in E; [|done].
  by destruct (extend _ _ _); intros [= <- <- <-].
Qed.

Lemma sent_through n t st d :
  together config file image slot others st d -> told t st ->
  exists t' st' d', befall_all version config file (replicate n (ItsAnswered seq)) (t, st, d) = Some (t', st', d') /\
    together config file image slot others st' d' /\ told t' st' /\ flash_only d d'.
Proof using All.
  revert t st d. induction n as [|n IH]; intros t st d Ht Hto; cbn [replicate befall_all]; [by exists t, st, d|].
  destruct (befall_together version config file image slot others Hup Hfile (ItsAnswered seq) t st d Hseq Ht) as (t1 & st1 & d1 & E & Ht1).
  rewrite E. cbn [option_bind]. pose proof (answered_told _ _ _ _ _ _ _ _ _ _ Hto E) as Hto1. pose proof (answered_flash _ _ _ _ _ _ Ht E) as Hf1.
  destruct (IH t1 st1 d1 Ht1 Hto1) as (t2 & st2 & d2 & -> & Ht2 & Hto2 & Hf2).
  exists t2, st2, d2. split_and!; try done. by etrans.
Qed.

(** Enough answers complete the upload. *)
Lemma sent_whole d :
  idle image slot d -> others = slot_content (d_model d) ->
  exists t st d' r, befall_all version config file (replicate (length file) (ItsAnswered seq)) (under_way config d) = Some (t, st, d') /\
    upload_outcome t st = Success r /\ slot_content (d_model d') slot = Some file /\ flash_only d d' /\
    (forall s, s <> slot -> slot_content (d_model d') s = slot_content (d_model d) s).
Proof using All.
  intros Hd Ho. pose proof (idle_receiving file image slot d Hd) as Hr. rewrite <- Ho in Hr.
  pose proof (begin_together config file image slot others Hup d Hr) as Ht.
  destruct (sent_through (length file) _ _ d Ht (begin_told config)) as (t & st & d' & E & Ht' & Hto & Hf).
  assert (phase (begin config).2 = Sending /\ in_flight_first_packet (begin config).2 = true) as [Hp Hfp].
  { pose proof (co_size _ (us_config _ _ _ Hup)) as Hsz. unfold begin, plan_next. rewrite !bool_decide_eq_false_2 by done.
    cbn [confirmed_off initial_state]. destruct (Z.leb_spec (UploadSession.image_size config) 0); [lia|].
    rewrite send_from_spec by (apply Hup || (cbn; lia)). done. }
  destruct (forward_completes version config file image slot others Hup Hfile (replicate (length file) seq)
    [(None, (begin config).1)] (begin config).2 d) as (t1 & st1 & d1 & E1 & _ & Hd1); [by apply Forall_replicate|done|by split; [|rewrite Hfp]| |].
  { pose proof (co_chunk _ (us_config _ _ _ Hup)) as Hc. destruct Hfile as (_ & [Hl _] & _). unfold ImageReader.kImageHeaderSize in Hl.
    rewrite length_replicate. unfold to_go, rounds. rewrite Hfp.
    assert ((zlen file + chunk_size config - 1) / chunk_size config <= zlen file); [|lia].
    apply Z.div_le_upper_bound; nia. }
  rewrite fmap_replicate in E1. unfold under_way. rewrite E in E1. injection E1 as <- <- <-.
  destruct (Hto Hd1) as (i & s & Hlast & Hact). exists t, st, d'. eexists. split; [exact E|]. split.
  { unfold upload_outcome. rewrite Hlast. cbv iota beta. by rewrite Hact. }
  split_and!; [by apply Ht'|done|]. rewrite <- Ho. apply (tg_device _ _ _ _ _ _ _ Ht').
Qed.
End sent.

(** ** The bench *)

(** An application that does nothing inside callbacks. *)
Definition no_react (_ : list Output) : list FirmwareUpdater.Command := [].

(** The updater, the device, and whether the link is up. *)
Record Bench := mkBench {
  b_updater : Updater;
  b_device : StubDevice;
  b_up : bool
}.

Section bench.
Context `{QDecoder} `{QEncoder} `{FirstPacketEncoder}.
Context (version : Header.Version) (seq tmax tover : Z) (handle : UploadHandle) (now : TimePoint).

(** The whole of a source. *)
Definition whole (source : ImageSource) : bytes :=
  match src_read source 0 (replicate (Z.to_nat (src_size source)) 0) with Success (_, f) => f | Fail _ => [] end.

(** [ImageManagement::upload], its driver and its session, against the device;
    as many answers as the file has bytes are enough. *)
Definition upload_served (source : ImageSource) (options : UploadOptions) (d : StubDevice)
  : option (Result UploadResult * StubDevice) :=
  match upload_refusal source options new_management with
  | Some e => Some (Fail e, d)
  | None =>
      match upload_sha source options with
      | Fail e => Some (Fail e, d)
      | Success sha =>
          match upload_chunk tmax tover source options sha with
          | Fail e => Some (Fail e, d)
          | Success chunk =>
              let file := whole source in
              let config := upload_config source options sha chunk in
              let! (t, st, d) := befall_all version config file (replicate (length file) (ItsAnswered seq)) (under_way config d) in
              Some (upload_outcome t st, d)
          end
      end
  end.

(** What a request of the updater comes back with. *)
Definition served (q : Request) (d : StubDevice) : option (Answer * StubDevice) :=
  match q with
  | Q_parameters => let! (r, d) := exchange version seq Parameters decode_parameters d in Some (A_parameters r, d)
  | Q_bootloader => let! (r, d) := exchange version seq BootloaderMode decode_bootloader_mode d in Some (A_bootloader r, d)
  | Q_state => let! (r, d) := exchange version seq GetState decode_state d in Some (A_table r, d)
  | Q_set_state hash confirm =>
      let! (r, d) := exchange version seq (SetState (Some hash) confirm) decode_state d in Some (A_table r, d)
  | Q_reset force => let! (r, d) := exchange version seq (Reset force None) decode_nothing d in Some (A_reset r, d)
  | Q_upload source options => let! (r, d) := upload_served source options d in Some (A_upload r, d)
  | Q_resume _ => Some (A_upload (fail InvalidState "image: no upload to resume"), d)
  end.

(** One round: posted work runs, a request is answered (and the device reboots
    when that was a reset, with the link down), a new link is opened when the
    updater waits for one, the confirmation is approved, or the updater is
    polled. *)
Definition bench_round (b : Bench) : option Bench :=
  let u := b_updater b in
  let d := b_device b in
  let drive i := input_step no_react (mkWorld (b_up b) handle (fun _ => false), i) u in
  match posted u, FirmwareUpdater.outstanding u with
  | _ :: _, _ => let! u := drive I_posted in Some (mkBench u d (b_up b))
  | [], (n, q) :: _ =>
      let! (a, d) := served q d in
      let! u := drive (I_answer n a) in
      if d_reboot_pending d
      then let! d := stub_reboot (set_reboot_pending false d) in Some (mkBench u d false)
      else Some (mkBench u d (b_up b))
  | [], [] =>
      match FirmwareUpdater.state u with
      | S_AwaitingReconnect => let! u := drive (I_command C_resume_after_reconnect) in Some (mkBench u d true)
      | S_AwaitingConfirmation => let! u := drive (I_command C_confirm) in Some (mkBench u d (b_up b))
      | _ => let! u := drive (I_poll now) in Some (mkBench u d (b_up b))
      end
  end.

Fixpoint run_bench (n : nat) (b : Bench) : option Bench :=
  match n with
  | O => Some b
  | S n => let! b := bench_round b in run_bench n b
  end.

(** The update asked for: one file for image 0. *)
Definition bench_start (source : ImageSource) (plan : FullPlan) (d : StubDevice) : Bench :=
  mkBench (FirmwareUpdater.exec new_updater (C_start [mkImageTarget 0 (Some source) Client None] plan true)) d true.
End bench.

(** ** A round of the bench *)

Section rounds.
Context `{QDecoder} `{QEncoder} `{FirstPacketEncoder}.
Context (version : Header.Version) (seq tmax tover : Z) (handle : UploadHandle) (now : TimePoint).
Context (plan : FullPlan) (source : ImageSource).

(** The updater of this update, between two inputs. *)
Definition updating (upl : UploadHandle) (m : Machine) (tl : TimePoint) (posted : list Event)
    (out : list (nat * Request)) (k : nat) (log : list Output) : Updater :=
  mkUpdater plan [(Some source, None)] true upl (Some m) true tl true posted out k log.

(** The bench with a request out, with an event posted, and with nothing to
    do, the last poll having been at [tl]. *)
Definition asks (q : Request) (m : Machine) (tl : TimePoint) (d : StubDevice) (up : bool) (b : Bench) : Prop :=
  exists upl k log, b = mkBench (updating upl m tl [] [(k, q)] (S k) log) d up.

Definition posts (ev : Event) (m : Machine) (tl : TimePoint) (d : StubDevice) (up : bool) (b : Bench) : Prop :=
  exists upl k log, b = mkBench (updating upl m tl [ev] [] k log) d up.

Definition rests (m : Machine) (tl : TimePoint) (d : StubDevice) (up : bool) (b : Bench) : Prop :=
  exists upl k log, b = mkBench (updating upl m tl [] [] k log) d up.

(** The request a step asks for, where it is one. *)
Definition asked (s : UpdateTypes.Step) : option Request :=
  match effect s with
  | E_QueryParameters => Some Q_parameters
  | E_QueryBootloader => Some Q_bootloader
  | E_ReadState => Some Q_state
  | E_MarkForTest => Some (Q_set_state (st_hash s) false)
  | E_Reset => Some (Q_reset false)
  | E_Confirm => Some (Q_set_state (st_hash s) true)
  | _ => None
  end.

Definition announced (a b : UpdateState) : list Output :=
  if bool_decide (b = a) then [] else [O_event (UpdateStateChanged a b)].

Lemma dispatched_step ev w upl m tl posted out k log s m' :
  apply (stamp tl ev) m = (s, m') -> effect s <> E_Continue ->
  dispatch no_react ev w (updating upl m tl posted out k log) =
    Some (carry_out no_react s w (updating upl m' tl posted out k (log ++ announced (state_ m) (next s)))).
Proof.
  intros Ha Hs. unfold dispatch, updating. cbn [running_ machine_ last_poll_]. rewrite Ha. unfold dispatch_fuel. cbn [dispatch_loop].
  rewrite bool_decide_eq_true_2 by done. unfold announce, announced. case_bool_decide; [by rewrite app_nil_r|done].
Qed.

Lemma announce_logs a b upl m tl posted out k log :
  announce no_react a b (updating upl m tl posted out k log) = updating upl m tl posted out k (log ++ announced a b).
Proof. unfold announce, announced. case_bool_decide; [by rewrite app_nil_r|done]. Qed.

(** An event that needs no I/O is followed by the step that does. *)
Lemma dispatched_next ev w upl m tl posted out k log s m1 s' m2 :
  apply (stamp tl ev) m = (s, m1) -> effect s = E_Continue -> apply (stamp tl (plain K_Continue)) m1 = (s', m2) ->
  effect s' <> E_Continue ->
  dispatch no_react ev w (updating upl m tl posted out k log) =
    Some (carry_out no_react s' w (updating upl m2 tl posted out k
            ((log ++ announced (state_ m) (next s)) ++ announced (next s) (next s')))).
Proof.
  intros Ha Hs Ha' Hs'. unfold dispatch. cbn [updating running_ machine_ last_poll_]. rewrite Ha. unfold dispatch_fuel. cbn [dispatch_loop].
  change (set_machine_ (Some m1) _) with (updating upl m1 tl posted out k log). rewrite announce_logs.
  rewrite bool_decide_eq_false_2 by (rewrite Hs; tauto). cbn [updating machine_ last_poll_]. rewrite Ha'.
  change (set_machine_ (Some m2) _) with (updating upl m2 tl posted out k (log ++ announced (state_ m) (next s))). rewrite announce_logs.
  by rewrite bool_decide_eq_true_2.
Qed.

(** What a step that asks for something leaves behind. *)
Lemma carried_asks s w upl m tl k log q :
  asked s = Some q -> carry_out no_react s w (updating upl m tl [] [] k log) = updating upl m tl [] [(k, q)] (S k) (log ++ [O_request q]).
Proof. unfold asked, carry_out. by destruct (effect s); intros [= <-]. Qed.

Lemma asked_effect s q : asked s = Some q -> effect s <> E_Continue.
Proof. unfold asked. by destruct (effect s). Qed.

Abbreviation round := (bench_round version seq tmax tover handle now).

(** A request answered: what the updater gets to hear. *)
Lemma answered_round q a d d' m tl up ev b :
  asks q m tl d up b -> served version seq tmax tover q d = Some (a, d') -> d_reboot_pending d' = false ->
  (forall w u, answer_event q a w u = Some ev) ->
  exists w upl k log, w_connected w = up /\
    round b = let! u := dispatch no_react ev w (updating upl m tl [] [] k log) in Some (mkBench u d' up).
Proof.
  intros (upl & k & log & ->) Hs Hr He.
  unfold bench_round. cbn [b_updater b_device b_up posted updating FirmwareUpdater.outstanding]. rewrite Hs. cbn [option_bind].
  unfold input_step. cbn [updating life_ negb FirmwareUpdater.outstanding List.find fst]. rewrite Nat.eqb_refl.
  set (w := mkWorld up handle (fun _ => false)).
  change (set_outstanding _ _) with (updating upl m tl [] (filter (fun p => p.1 <> k) [(k, q)]) (S k) log).
  assert (filter (fun p : nat * Request => p.1 <> k) [(k, q)] = []) as -> by (rewrite filter_cons; by case_decide).
  rewrite (He w). exists w, upl, (S k), log. by rewrite Hr.
Qed.

(** The answer leads to the next request. *)
Lemma answer_round q a d d' m tl up ev s m' q' b :
  asks q m tl d up b -> served version seq tmax tover q d = Some (a, d') -> d_reboot_pending d' = false ->
  (forall w u, answer_event q a w u = Some ev) -> apply (stamp tl ev) m = (s, m') -> asked s = Some q' ->
  exists b', round b = Some b' /\ asks q' m' tl d' up b'.
Proof.
  intros Hb Hs Hr He Ha Hq. destruct (answered_round q a d d' m tl up ev b Hb Hs Hr He) as (w & upl & k & log & _ & ->).
  rewrite (dispatched_step ev w upl m tl [] [] k log s m' Ha (asked_effect _ _ Hq)). cbn [option_bind].
  rewrite (carried_asks s w _ _ _ _ _ q' Hq). eexists. split; [done|]. by eexists _, _, _.
Qed.

(** The options of the upload, as [start_upload] makes them. *)
Definition sent_options (image buf : Z) : UploadOptions :=
  let o := plan_upload plan in
  mkUploadOptions image (uo_upgrade_only o) (uo_sha o) (uo_chunk_size o)
    (match uo_server_buf_size o with Some size => Some size | None => if negb (buf =? 0) then Some buf else None end)
    (uo_max_chunk_retries o) (uo_max_restarts o) (uo_max_no_progress o) (uo_first_chunk_timeout o)
    (uo_final_chunk_timeout o) (uo_chunk_timeout o).

(** The first table: the machine plans, and the upload starts. *)
Lemma planning_round a d d' m tl up ev s m1 buf m2 b :
  asks Q_state m tl d up b -> served version seq tmax tover Q_state d = Some (a, d') -> d_reboot_pending d' = false ->
  (forall w u, answer_event Q_state a w u = Some ev) -> apply (stamp tl ev) m = (s, m1) -> effect s = E_Continue ->
  apply (stamp tl (plain K_Continue)) m1 = (UpdateTypes.mkStep S_Uploading E_StartUpload 0 0 0 buf [], m2) ->
  exists b', round b = Some b' /\ asks (Q_upload source (sent_options 0 buf)) m2 tl d' up b'.
Proof.
  intros Hb Hs Hr He Ha Hc Ha'. destruct (answered_round _ a d d' m tl up ev b Hb Hs Hr He) as (w & upl & k & log & _ & ->).
  rewrite (dispatched_next ev w upl m tl [] [] k log s m1 _ m2 Ha Hc Ha') by done. cbn [option_bind].
  eexists. split; [done|]. by eexists _, _, _.
Qed.

(** The reset: the device reboots and the link is gone. *)
Lemma reset_round a d d' d2 m tl ev s m' b :
  asks (Q_reset false) m tl d true b -> served version seq tmax tover (Q_reset false) d = Some (a, d') ->
  d_reboot_pending d' = true -> stub_reboot (set_reboot_pending false d') = Some d2 ->
  (forall w u, answer_event (Q_reset false) a w u = Some ev) -> apply (stamp tl ev) m = (s, m') -> effect s = E_AwaitDisconnect ->
  exists b', round b = Some b' /\ rests m' tl d2 false b'.
Proof.
  intros (upl & k & log & ->) Hs Hr Hb He Ha Hq.
  unfold bench_round. cbn [b_updater b_device b_up posted updating FirmwareUpdater.outstanding]. rewrite Hs. cbn [option_bind].
  unfold input_step. cbn [updating life_ negb FirmwareUpdater.outstanding List.find fst]. rewrite Nat.eqb_refl.
  set (w := mkWorld true handle (fun _ => false)).
  change (set_outstanding _ _) with (updating upl m tl [] (filter (fun p => p.1 <> k) [(k, Q_reset false)]) (S k) log).
  assert (filter (fun p : nat * Request => p.1 <> k) [(k, Q_reset false)] = []) as -> by (rewrite filter_cons; by case_decide).
  rewrite (He w), (dispatched_step ev w upl m tl [] [] (S k) log s m' Ha) by (by rewrite Hq). cbn [option_bind].
  rewrite Hr, Hb. cbn [option_bind]. unfold carry_out. rewrite Hq. eexists. split; [done|]. by eexists _, _, _.
Qed.

(** The poll that finds the link gone. *)
Lemma lost_round m tl d s m' b :
  rests m tl d false b -> state_ m = S_AwaitingDisconnect ->
  apply (stamp now (plain K_Disconnected)) m = (s, m') -> effect s = E_RequestReconnect ->
  exists b', round b = Some b' /\ rests m' now d false b'.
Proof.
  intros (upl & k & log & ->) Hst Ha Hq. unfold bench_round.
  cbn [b_updater b_device b_up posted updating FirmwareUpdater.outstanding].
  assert (FirmwareUpdater.state (updating upl m tl [] [] k log) = S_AwaitingDisconnect) as Hs by done.
  fold (updating upl m tl [] [] k log). rewrite Hs. unfold input_step. cbn [updating life_ negb].
  fold (updating upl m tl [] [] k log). unfold poll.
  change (set_last_poll_ now (updating upl m tl [] [] k log)) with (updating upl m now [] [] k log).
  assert (FirmwareUpdater.state (updating upl m now [] [] k log) = S_AwaitingDisconnect) as -> by done.
  change (running_ (updating upl m now [] [] k log)) with true. cbn [negb w_connected andb].
  rewrite bool_decide_eq_true_2 by done. cbn [andb].
  rewrite (dispatched_step _ _ upl m now [] [] k log s m' Ha) by (by rewrite Hq). cbn [option_bind]. unfold carry_out. rewrite Hq.
  eexists. split; [done|]. by eexists _, _, _.
Qed.

(** A new link, and the call that says so. *)
Lemma reconnected_round m tl d b :
  rests m tl d false b -> state_ m = S_AwaitingReconnect ->
  exists b', round b = Some b' /\ posts (plain K_Reconnected) m tl d true b'.
Proof.
  intros (upl & k & log & ->) Hst. unfold bench_round.
  cbn [b_updater b_device b_up posted updating FirmwareUpdater.outstanding].
  assert (FirmwareUpdater.state (updating upl m tl [] [] k log) = S_AwaitingReconnect) as Hs by done.
  fold (updating upl m tl [] [] k log). rewrite Hs. unfold input_step. cbn [updating life_ negb].
  fold (updating upl m tl [] [] k log). unfold FirmwareUpdater.exec, resume_after_reconnect. rewrite Hs.
  rewrite bool_decide_eq_false_2 by tauto. eexists. split; [done|]. by eexists _, _, _.
Qed.

(** The confirmation approved. *)
Lemma approved_round m tl d up b :
  rests m tl d up b -> state_ m = S_AwaitingConfirmation ->
  exists b', round b = Some b' /\ posts (plain K_ConfirmApproved) m tl d up b'.
Proof.
  intros (upl & k & log & ->) Hst. unfold bench_round.
  cbn [b_updater b_device b_up posted updating FirmwareUpdater.outstanding].
  assert (FirmwareUpdater.state (updating upl m tl [] [] k log) = S_AwaitingConfirmation) as Hs by done.
  fold (updating upl m tl [] [] k log). rewrite Hs. unfold input_step. cbn [updating life_ negb].
  fold (updating upl m tl [] [] k log). unfold FirmwareUpdater.exec, FirmwareUpdater.confirm. rewrite Hs.
  rewrite bool_decide_eq_false_2 by tauto. eexists. split; [done|]. by eexists _, _, _.
Qed.

(** An event the application had posted leads to a request. *)
Lemma posted_round ev m tl d up s m' q' b :
  posts ev m tl d up b -> apply (stamp tl ev) m = (s, m') -> asked s = Some q' ->
  exists b', round b = Some b' /\ asks q' m' tl d up b'.
Proof.
  intros (upl & k & log & ->) Ha Hq. unfold bench_round. cbn [b_updater b_device b_up posted updating].
  unfold input_step. cbn [updating life_ negb posted]. set (w := mkWorld up handle (fun _ => false)).
  change (set_posted _ _) with (updating upl m tl [] [] k log).
  rewrite (dispatched_step ev w upl m tl [] [] k log s m' Ha (asked_effect _ _ Hq)). cbn [option_bind].
  rewrite (carried_asks s w _ _ _ _ _ q' Hq). eexists. split; [done|]. by eexists _, _, _.
Qed.

(** The table that asks for an approval. *)
Lemma trial_round a d d' m tl up ev s m' b :
  asks Q_state m tl d up b -> served version seq tmax tover Q_state d = Some (a, d') -> d_reboot_pending d' = false ->
  (forall w u, answer_event Q_state a w u = Some ev) -> apply (stamp tl ev) m = (s, m') -> effect s = E_RequestConfirmation ->
  exists b', round b = Some b' /\ rests m' tl d' up b'.
Proof.
  intros Hb Hs Hr He Ha Hc. destruct (answered_round _ a d d' m tl up ev b Hb Hs Hr He) as (w & upl & k & log & _ & ->).
  rewrite (dispatched_step ev w upl m tl [] [] k log s m' Ha) by (by rewrite Hc). cbn [option_bind]. unfold carry_out. rewrite Hc.
  eexists. split; [done|]. by eexists _, _, _.
Qed.

(** The table that ends the update. *)
Lemma last_round a d d' m tl up ev s m' b :
  asks Q_state m tl d up b -> served version seq tmax tover Q_state d = Some (a, d') -> d_reboot_pending d' = false ->
  (forall w u, answer_event Q_state a w u = Some ev) -> apply (stamp tl ev) m = (s, m') ->
  effect s = E_Finish -> state_ m' = S_Completed ->
  exists u, round b = Some (mkBench u d' up) /\ running_ u = false /\
    last (log u) = Some (O_event (UpdateFinished (Success (UpdateTypes.report (UpdateMachine.context_ m'))))).
Proof.
  intros Hb Hs Hr He Ha Hc Hst. destruct (answered_round _ a d d' m tl up ev b Hb Hs Hr He) as (w & upl & k & log & _ & ->).
  rewrite (dispatched_step ev w upl m tl [] [] k log s m' Ha) by (by rewrite Hc). cbn [option_bind]. unfold carry_out. rewrite Hc.
  eexists. split; [done|]. split; [done|]. unfold finish.
  assert (forall l, FirmwareUpdater.state (set_running_ false (updating upl m' tl [] [] k l)) = S_Completed) as -> by done.
  rewrite bool_decide_eq_false_2 by tauto. cbn. by rewrite last_snoc.
Qed.
End rounds.

(** ** The device through an update *)

(** Bytes the flash can hold, whose hash the library can hold. *)
Record content_ok (x : bytes) : Prop := {
  ct_bytes : byte_list x;
  ct_size : zlen x < 2 ^ 62;
  ct_hash : forall i, describe x = Some i -> (length (si_hash i) <= kMaxImageHashLength)%nat
}.

(** A device of one image that swaps with revert, its two slots and its mark. *)
Definition pair_of (x y : bytes) (s : SwapType) : ImagePair := mkPair x y s None None None.

Record shows (x y : bytes) (s : SwapType) (m : BootModel) : Prop := {
  sw_images : images m = [pair_of x y s];
  sw_swaps : behaviour (config m) = SwapWithRevert;
  sw_downgrade : BootModel.no_downgrade (config m) = false
}.

Lemma shows_no_xip x y s m : shows x y s m -> direct_xip m = false.
Proof. intros [_ Hs _]. unfold direct_xip. by rewrite Hs. Qed.

Lemma shows_read x y s m : shows x y s m -> read_state m = (listing m, m).
Proof.
  intros [Hi Hs Hd]. assert (advance_applies m = m) as E; [|unfold read_state; by rewrite E].
  unfold advance_applies. destruct m as [c ps xa xs xt]. cbn in *. subst ps. cbn. case_bool_decide; done.
Qed.

Lemma shows_flash x y s m : shows x y s m -> content_ok x -> content_ok y -> flash_ok m.
Proof. intros [Hi _ _] [? ? _] [? ? _]. unfold flash_ok. rewrite Hi. by constructor. Qed.

(** The listing: the two slots that hold an image. *)
Definition entry (s : SwapType) (slot : nat) (i : SlotImage) : SlotEntry :=
  let active := (slot =? 0)%nat in
  mkEntry 0 slot i (negb active && (bool_decide (s = Perm) || bool_decide (s = Test)))
    (if active then bool_decide (s <> Revert) else bool_decide (s = Revert)) active (negb active && bool_decide (s = Perm)).

Lemma shows_listing x y s m :
  shows x y s m -> listing m = option_list (entry s 0 <$> describe x) ++ option_list (entry s 1 <$> describe y).
Proof.
  intros Hs. pose proof (shows_no_xip _ _ _ _ Hs) as Hx. destruct Hs as [Hi _ _]. unfold listing. rewrite Hi. cbn [imap concat].
  rewrite app_nil_r. unfold image_entries. cbn [omap list_omap]. unfold entry_of_slot. rewrite Hx. cbn [slot_get pair_of primary secondary].
  by destruct (describe x), (describe y).
Qed.

Lemma shows_fits x y s m : shows x y s m -> content_ok x -> content_ok y -> listing_fits m.
Proof.
  intros Hs Hx Hy. split; [destruct Hs as [-> _ _]; cbn; lia|]. rewrite (shows_listing x y s m Hs).
  apply Forall_app. split; [destruct (describe x) eqn:E|destruct (describe y) eqn:E];
    cbn [fmap option_fmap option_map option_list option_rect]; rewrite ?Forall_cons, ?Forall_nil; try (split; [|done]); try done; cbn [entry e_content].
  - by apply (ct_hash _ Hx).
  - by apply (ct_hash _ Hy).
Qed.

Section tables.
Context (h : ImageHash) (Hh : h <> []).

(** The image of a slot has the hash. *)
Definition has (x : bytes) : bool :=
  match describe x with Some i => bool_decide (si_hash i = h) | None => false end.

Lemma slot_hash s slot i : bool_decide (sl_hash (wire_slot (entry s slot i)) = Some h) = bool_decide (si_hash i = h).
Proof using Hh.
  cbn. apply bool_decide_ext. destruct (si_hash i) eqn:E; cbn; [|split; congruence].
  split; [done|]. intros <-. done.
Qed.

Lemma shows_runs x y s m :
  shows x y s m -> runs h (wire_state (listing m)) = if has x then Some (bool_decide (s <> Revert)) else None.
Proof using Hh.
  intros Hs. rewrite (shows_listing x y s m Hs). unfold runs, UpdateTypes.active_slot, find_slot, has, wire_state. cbn [slots].
  destruct (describe x) as [i|]; [|by destruct (describe y)]. cbn [fmap option_fmap option_map option_list option_rect app list_fmap find_slot_from].
  change (sl_active (wire_slot (entry s 0 i))) with true. change (sl_image (wire_slot (entry s 0 i))) with 0. cbn [Z.eqb andb].
  rewrite slot_hash. by case_bool_decide.
Qed.

Lemma shows_holder x y s m :
  shows x y s m -> has x = false ->
  if has y then exists i t, holder h (wire_state (listing m)) = Some (i, t) else holder h (wire_state (listing m)) = None.
Proof using Hh.
  intros Hs. rewrite (shows_listing x y s m Hs). unfold holder, find_slot, has, wire_state. cbn [slots].
  intros Hx.
  assert (forall n l, find_slot_from n (fun s => (sl_image s =? 0) && bool_decide (sl_hash s = Some h))
     (wire_slot <$> (option_list (entry s 0 <$> describe x) ++ l)) =
     find_slot_from (n + length (option_list (describe x))) (fun s => (sl_image s =? 0) && bool_decide (sl_hash s = Some h)) (wire_slot <$> l)) as ->.
  { intros n l. destruct (describe x) as [i|]; cbn -[bool_decide sl_hash]; [|by rewrite Nat.add_0_r].
    rewrite slot_hash, Hx. f_equal. lia. }
  destruct (describe y) as [i|]; cbn -[bool_decide sl_hash]; [|done]. rewrite slot_hash.
  case_bool_decide; [by eexists _, _|done].
Qed.
End tables.

(** What the calls of an update do to such a device. *)
Lemma shows_marked h x y m :
  shows x y None_ m -> has h x = false -> has h y = true ->
  exists m', BootModel.set_state (Some h) false m = Some (ImageError_Ok, m') /\ shows x y Test m'.
Proof.
  intros Hs Hx Hy. pose proof (shows_no_xip _ _ _ _ Hs) as Hn. destruct Hs as [Hi Hb Hd].
  unfold BootModel.set_state, supports_set_state. rewrite Hb, Hn. cbn [negb bool_decide]. rewrite bool_decide_eq_true_2 by done. cbn [negb].
  unfold BootModel.find_by_hash. rewrite Hi. cbn [length Nat.mul Nat.add find_loop]. unfold slot_content. rewrite Hi.
  cbn [Nat.div Nat.divmod fst lookup list_lookup option_bind Nat.modulo Nat.sub snd slot_get pair_of primary secondary].
  unfold has in Hx, Hy. destruct (describe y) as [j|]; [|done]. apply bool_decide_eq_true in Hy.
  assert (forall A (k : option A) (e : SlotImage -> option A), match describe x with
     | Some described => if bool_decide (si_hash described = h) then e described else k | None => k end = k) as ->
    by (intros; destruct (describe x); [by rewrite Hx|done]).
  rewrite bool_decide_eq_true_2 by done. cbn [option_bind].
  unfold set_next_boot_slot. cbn [Nat.div Nat.divmod fst Nat.modulo Nat.sub snd]. rewrite Hi. cbn [lookup list_lookup option_bind].
  unfold boot_slot_denied, with_pair. rewrite Hi. cbn. eexists. split; [done|]. by split.
Qed.

Lemma shows_rebooted x y m : shows x y Test m -> exists m', reboot m = Some m' /\ shows y x Revert m'.
Proof.
  intros Hs. pose proof (shows_no_xip _ _ _ _ Hs) as Hn. destruct Hs as [Hi Hb Hd]. unfold reboot. rewrite Hn, Hi. eexists. split; [done|].
  cbn [fmap list_fmap images set_images]. unfold without_trial, refuses_downgrade. cbn [pair_of swap device]. rewrite Hd, Hb. by split.
Qed.

Lemma shows_confirmed h x y m :
  shows x y Revert m -> has h x = true ->
  exists m', BootModel.set_state (Some h) true m = Some (ImageError_Ok, m') /\ shows x y None_ m'.
Proof.
  intros Hs Hx. pose proof (shows_no_xip _ _ _ _ Hs) as Hn. destruct Hs as [Hi Hb Hd].
  unfold BootModel.set_state, supports_set_state. rewrite Hb, Hn. rewrite bool_decide_eq_true_2 by done. cbn [negb].
  unfold BootModel.find_by_hash. rewrite Hi. cbn [length Nat.mul Nat.add find_loop]. unfold slot_content. rewrite Hi.
  cbn [Nat.div Nat.divmod fst lookup list_lookup option_bind Nat.modulo Nat.sub snd slot_get pair_of primary secondary].
  unfold has in Hx. destruct (describe x) as [j|]; [|done]. rewrite Hx. cbn [option_bind].
  unfold set_next_boot_slot. cbn [Nat.div Nat.divmod fst Nat.modulo Nat.sub snd]. rewrite Hi. cbn [lookup list_lookup option_bind].
  unfold boot_slot_denied, with_pair. rewrite Hi. cbn. eexists. split; [done|]. by split.
Qed.

(** The upload puts the file in the second slot and leaves the rest. *)
Lemma shows_uploaded x y z d d' :
  shows x y None_ (d_model d) -> flash_only d d' -> slot_content (d_model d') 1 = Some z ->
  (forall s, s <> 1%nat -> slot_content (d_model d') s = slot_content (d_model d) s) -> shows x z None_ (d_model d').
Proof.
  intros [Hi Hb Hd] [_ Hc Hk] Hz Ho. specialize (Ho 0%nat ltac:(done)). unfold slot_content in *. rewrite Hi in Hk, Ho.
  destruct (images (d_model d')) as [|p [|q l]] eqn:E; [done| |done]. cbn in Hk, Hz, Ho.
  destruct p as [a b sw dv ap co]. cbn in Hk, Hz, Ho. injection Hk as -> -> -> ->. injection Hz as ->. injection Ho as ->.
  split; [done|by rewrite Hc..].
Qed.

(** ** The whole update *)

Section update.
Context `{QDecoderLaws} `{QEncoderLaws} `{FirstPacketEncoder}.
Context (version : Header.Version) (seq tmax tover : Z) (handle : UploadHandle) (now : TimePoint).
Context (plan : FullPlan) (source : ImageSource) (file : bytes) (h : ImageHash) (v : ImageVersion).

(** What is updated with what: a file that is an image with a hash the device
    holds nowhere, and options the image group accepts. *)
Record file_given : Prop := {
  fg_source : ReadsFile source file;
  fg_file : installable file;
  fg_content : content_ok file;
  fg_target : read_target source = Success (h, v);
  fg_hash : h <> [] /\ has h file = true;
  fg_options : options_ok (plan_upload plan);
  fg_chunk : uo_chunk_size (plan_upload plan) = 0 \/ kUploadChunkMin <= uo_chunk_size (plan_upload plan) <= kUploadChunkMax;
  fg_budget : forall sha, length sha = 32%nat -> exists chunk,
    upload_chunk tmax tover source (sent_options plan 0 StubDevice.kBufSize) sha = Success chunk
}.

Record device_given (old spare : bytes) (d : StubDevice) : Prop := {
  dg_shows : shows old spare None_ (d_model d);
  dg_idle : (xip_active (d_model d) <= 1)%nat /\ d_upload_slot d = None /\ d_received d = 0%nat /\ d_reboot_pending d = false;
  dg_mode : exists raw, d_mode d = Some raw /\ 0 <= raw < 2 ^ 31 /\ swaps (mode_from raw) = true;
  dg_old : content_ok old /\ has h old = false;
  dg_spare : content_ok spare /\ has h spare = false
}.

Context (Hseq : u8 seq) (Hf : file_given).

Abbreviation round := (bench_round version seq tmax tover handle now).
Abbreviation serves := (served version seq tmax tover).

Lemma table_served x y s d :
  shows x y s (d_model d) -> content_ok x -> content_ok y ->
  serves Q_state d = Some (A_table (Success (wire_state (listing (d_model d)))), d).
Proof using All.
  intros Hs Hx Hy. pose proof (shows_read _ _ _ _ Hs) as Hr. unfold served.
  rewrite (state_read version seq d Hseq); rewrite Hr; [|by eapply shows_flash|by eapply shows_fits].
  cbn [option_bind snd]. by destruct d.
Qed.

Lemma hash_given : byte_list h /\ (0 < length h <= kMaxImageHashLength)%nat.
Proof using All.
  destruct (fg_hash Hf) as [Hne Hhas]. unfold has in Hhas. destruct (describe file) as [i|] eqn:E; [|done].
  apply bool_decide_eq_true in Hhas as Ei. destruct (describe_fits file i) as [_ Hb]; [apply (fg_content Hf)..|done|].
  pose proof (ct_hash _ (fg_content Hf) i E) as Hl. rewrite Ei in *. split; [done|]. split; [|done]. destruct h; [done|cbn; lia].
Qed.

Lemma set_state_served x y s x' y' s' d confirm m :
  shows x y s (d_model d) -> BootModel.set_state (Some h) confirm (d_model d) = Some (ImageError_Ok, m) -> shows x' y' s' m ->
  content_ok x' -> content_ok y' ->
  serves (Q_set_state h confirm) d = Some (A_table (Success (wire_state (listing m))), set_model m d).
Proof using All.
  intros Hs Hset Hs' Hx Hy. destruct hash_given as [Hb Hl]. unfold served.
  rewrite (state_set version seq d h confirm m Hseq Hb Hl); [done| |done|by eapply shows_flash|by eapply shows_fits].
  unfold supports_set_state. destruct Hs as [_ -> _]. done.
Qed.

Lemma reset_served d : serves (Q_reset false) d = Some (A_reset (Success tt), set_reboot_pending true d).
Proof using All. unfold served. by rewrite device_reset. Qed.

(** The upload, from the request to its completion. *)
Lemma upload_served_whole old spare d :
  device_given old spare d ->
  exists r d', serves (Q_upload source (sent_options plan 0 StubDevice.kBufSize)) d = Some (A_upload (Success r), d') /\
    shows old file None_ (d_model d') /\ d_reboot_pending d' = false.
Proof using All.
  intros [Hs (Ha & Hu & Hr & Hp) _ _ _]. pose proof Hf as [Hsrc Hin Hct _ _ Hopt Hck Hbud].
  pose proof Hin as (Hbytes & [Hl Hcap] & _). unfold ImageReader.kImageHeaderSize, kSlotCapacity in *.
  set (o := sent_options plan 0 StubDevice.kBufSize) in *.
  assert (options_ok o) as Ho by (destruct Hopt; split; try done; unfold o, sent_options; cbn; unfold fits; lia).
  assert (upload_refusal source o new_management = None) as Href.
  { unfold upload_refusal. cbn [is_active new_management upload_]. rewrite (reads_size (source:=source) (file:=file)).
    change (uo_chunk_size o) with (uo_chunk_size (plan_upload plan)).
    destruct (Z.eqb_spec (zlen file) 0); [lia|]. destruct (Z.ltb_spec kMaxImageSize (zlen file)); [unfold kMaxImageSize in *; lia|].
    destruct (Z.eqb_spec (uo_chunk_size (plan_upload plan)) 0); [done|]. cbn [negb andb].
    destruct Hck as [|[? ?]]; [done|]. destruct (Z.ltb_spec (uo_chunk_size (plan_upload plan)) kUploadChunkMin); [lia|].
    destruct (Z.ltb_spec kUploadChunkMax (uo_chunk_size (plan_upload plan))); [lia|done]. }
  assert (zlen file <= kMaxImageSize) as Hmax by (unfold kMaxImageSize; lia).
  assert (exists sha, upload_sha source o = Success sha) as [sha Hsha].
  { unfold upload_sha. destruct (uo_sha o); [by eexists|].
    rewrite (sha256_file source) with (file := file); [by eexists|rewrite reads_size; unfold kMaxImageSize in *; lia|done]. }
  destruct (upload_sha_ok source file o sha Hsrc Hmax Ho Hsha) as [Hsb Hsl]. destruct (Hbud sha Hsl) as [chunk Hchunk].
  assert (kUploadChunkMin <= chunk <= kUploadChunkMax) as Hcr by (eapply upload_chunk_ok; [|exact Hchunk]; done).
  assert (whole source = file) as Hw.
  { unfold whole. rewrite (reads_at (source:=source) (file:=file)) by lia. rewrite (reads_size (source:=source) (file:=file)).
    rewrite length_replicate, Nat2Z.id, Nat.sub_0_r, Nat.min_id. change (Z.to_nat 0) with 0%nat.
    by rewrite drop_0, firstn_all, drop_replicate, Nat.sub_diag, app_nil_r. }
  set (config := upload_config source o sha chunk).
  assert (uploads config file 0) as Hup.
  { destruct Ho. unfold config, upload_config. split; cbn; rewrite ?(reads_size (source:=source) (file:=file)); try done.
    - split; cbn; rewrite ?(reads_size (source:=source) (file:=file)); try done; unfold kUploadChunkMin, kUploadChunkMax in *; lia.
    - by intros s [= <-]. }
  assert (idle 0 1 d) as Hidle.
  { split; [done| |done]. unfold upload_target. rewrite (shows_no_xip _ _ _ _ Hs). destruct Hs as [-> _ _]. done. }
  destruct (sent_whole version seq config file 0 1 (slot_content (d_model d)) Hup Hin Hseq d Hidle eq_refl)
    as (t & st & d' & r & Hb & Hr' & Hc & Hfl & Hot).
  exists r, d'. split.
  { unfold served, upload_served. fold o. rewrite Href, Hsha, Hchunk, Hw. fold config. rewrite Hb. cbn [option_bind]. by rewrite Hr'. }
  split; [by eapply shows_uploaded|]. destruct Hfl as [[_ ->] _ _]. done.
Qed.

(** A bench that gets to where something holds. *)
Definition ends_up (P : Bench -> Prop) (b : Bench) : Prop :=
  exists n b', run_bench version seq tmax tover handle now n b = Some b' /\ P b'.

Lemma onwards (Q P : Bench -> Prop) b :
  (exists b1, round b = Some b1 /\ Q b1) -> (forall b1, Q b1 -> ends_up P b1) -> ends_up P b.
Proof. intros (b1 & Hr & HQ) Hn. destruct (Hn b1 HQ) as (n & b' & E & HP). exists (S n), b'. cbn [run_bench]. by rewrite Hr. Qed.

(** How the bench ends: the update reported complete, and the device running
    the file, confirmed, with the old image kept. *)
Definition installed (old : bytes) (b : Bench) : Prop :=
  running_ (b_updater b) = false /\ b_up b = true /\ shows file old None_ (d_model (b_device b)) /\
  exists r, last (log (b_updater b)) = Some (O_event (UpdateFinished (Success r))) /\
    rp_final_state r = S_Completed /\ rp_cause r = None /\ rp_rolled_back r = false /\ rp_revert_pending r = false /\
    rp_target_hash r = Some h /\ rp_final_device_state r = Some (wire_state (listing (d_model (b_device b)))).

Lemma started d :
  posts plan source (FirmwareUpdater.plain K_Start) (new_machine [the_target h v] (decided plan)) 0 d true (bench_start source plan d).
Proof using All.
  unfold bench_start. cbn [FirmwareUpdater.exec]. unfold start. cbn [new_updater running_ negb]. unfold validate.
  cbn [validate_targets]. unfold read_targets, read_image_target. cbn [it_source it_secondary_source]. rewrite (fg_target Hf).
  by eexists _, _, _.
Qed.

(** The times the machine is told, the link being lost at the tenth event. *)
Definition times (i : nat) : TimePoint := if (i <=? 8)%nat then 0 else now.

Lemma times_go_well old spare d d1 m3 m4 bm :
  swaps (bm_mode bm) = true -> bm_no_downgrade bm = false ->
  device_given old spare d -> shows old file None_ d1 -> shows file old Revert m3 -> shows file old None_ m4 ->
  exists i1 s1, goes_well h bm (wire_state (listing (d_model d))) (wire_state (listing d1)) (wire_state (listing m3))
    (wire_state (listing m4)) i1 s1.
Proof using All.
  intros Hb Hn [Hs _ _ [_ Ho] [_ Hsp]] Hm1 Hm3 Hm4. destruct (fg_hash Hf) as [Hh Hfile].
  pose proof (shows_holder h Hh _ _ _ _ Hs Ho) as E0. rewrite Hsp in E0.
  pose proof (shows_holder h Hh _ _ _ _ Hm1 Ho) as E1. rewrite Hfile in E1. destruct E1 as (i1 & s1 & E1).
  exists i1, s1. split; [done| |done| |].
  - by rewrite (shows_runs h Hh _ _ _ _ Hs), Ho.
  - by rewrite (shows_runs h Hh _ _ _ _ Hm3), Hfile.
  - by rewrite (shows_runs h Hh _ _ _ _ Hm4), Hfile.
Qed.

Lemma parameters_served d :
  serves Q_parameters d = Some (A_parameters (Success (mkParameters StubDevice.kBufSize StubDevice.kBufCount)), d).
Proof using All. unfold served. by rewrite parameters_read. Qed.

Lemma bootloader_served raw d :
  d_mode d = Some raw -> 0 <= raw < 2 ^ 31 ->
  serves Q_bootloader d = Some (A_bootloader (Success (mkBootloaderMode (mode_from raw) raw false)), d).
Proof using All. intros. unfold served. by rewrite (mode_read version seq d raw). Qed.

Lemma device_rebooted d m2 m3 :
  reboot m2 = Some m3 ->
  stub_reboot (set_reboot_pending false (set_reboot_pending true (set_model m2 d))) =
    Some (set_upload None 0 0 (set_model m3 (set_reboot_pending false (set_reboot_pending true (set_model m2 d))))).
Proof using All. intros E. unfold stub_reboot. cbn [d_model set_reboot_pending set_model]. by rewrite E. Qed.

(** The machine is in the state its last step went to. *)
Lemma reached ev m s m' st : apply ev m = (s, m') -> next s = st -> state_ m' = st.
Proof using Type. unfold apply. destruct (guarded_step _ _ _ _) as [s0 c0]. destruct (parameterise _ _) as [s1 c1]. by intros [= <- <-] <-. Qed.

Ltac next_round rule := eapply onwards; [eapply rule|cbv beta; intros ? ?Hb].

(** C26. An update of the pretend device installs the file: the updater, its
    machine, the groups, the client's framing and the upload session against
    the device, by an application that answers what it is asked. *)
Theorem update_installed old spare d :
  device_given old spare d -> mode (decided plan) <> UploadOnly ->
  ends_up (installed old) (bench_start source plan d).
Proof using All.
  intros Hd Hmode. destruct (upload_served_whole old spare d Hd) as (r & d1 & Hup & Hs1 & Hp1).
  pose proof Hd as [Hs0 (_ & _ & _ & Hp0) (raw & Hraw & Hr & Hsw) [Hold Hho] [Hspare Hhs]].
  pose proof (fg_content Hf) as Hct. destruct (fg_hash Hf) as [Hh Hfile].
  destruct (shows_marked h _ _ _ Hs1 Hho Hfile) as (m2 & Hset & Hs2).
  destruct (shows_rebooted _ _ _ Hs2) as (m3 & Hboot & Hs3).
  destruct (shows_confirmed h _ _ _ Hs3 Hfile) as (m4 & Hconf & Hs4).
  destruct (times_go_well old spare d _ m3 m4 (mkBootloaderMode (mode_from raw) raw false) Hsw eq_refl Hd Hs1 Hs3 Hs4) as (i1 & s1 & Hgo).
  destruct (script (decided plan) h v Hh Hmode times StubDevice.kBufSize _ _ _ (wire_state (listing m2)) _ (wire_state (listing m4)) _
    (ur_transferred r) (ur_already_present r) i1 s1 Hgo)
    as (n1 & A1 & n2 & A2 & n3 & A3 & n4 & A4 & n5 & A5 & n6 & A6 & n7 & A7 & n8 & A8 & n9 & A9 & n10 & A10 & n11 & A11 & n12 & n13 &
        A12 & n14 & A14 & n15 & A15 & Hrep).
  pose proof (started d) as Hb.
  set (d3 := set_upload None 0 0 (set_model m3 (set_reboot_pending false (set_reboot_pending true (set_model m2 d1))))).
  assert (forall b, asks plan source (Q_set_state h true) n13 now d3 true b -> ends_up (installed old) b) as Hlast.
  { intros b Hb'. next_round answer_round; [exact Hb'|by eapply (set_state_served _ _ _ _ _ _ d3)|reflexivity|reflexivity|exact A14|reflexivity|].
    destruct (last_round version seq tmax tover handle now plan source _ _ _ _ _ _ _ _ _ _ Hb0
      (table_served file old None_ (set_model m4 d3) Hs4 Hct Hold) eq_refl (fun _ _ => eq_refl) A15 eq_refl (reached _ _ _ _ _ A15 eq_refl))
      as (u & Hr1 & Hru & Hl).
    exists 1%nat. eexists. split; [cbn [run_bench]; by rewrite Hr1|]. split; [done|]. split; [done|]. split; [done|]. eexists. split; [exact Hl|exact Hrep]. }
  next_round posted_round; [exact Hb|exact A1|reflexivity|].
  next_round answer_round; [exact Hb0|by apply parameters_served|exact Hp0|reflexivity|exact A2|reflexivity|].
  next_round answer_round; [exact Hb1|by eapply bootloader_served|exact Hp0|reflexivity|exact A3|reflexivity|].
  next_round planning_round; [exact Hb2|by eapply table_served|exact Hp0|reflexivity|exact A4|reflexivity|exact A5|].
  next_round answer_round; [exact Hb3|exact Hup|exact Hp1|intros; cbn [answer_event upload_event]; reflexivity|exact A6|reflexivity|].
  next_round answer_round; [exact Hb4|by eapply table_served|exact Hp1|reflexivity|exact A7|reflexivity|].
  next_round answer_round; [exact Hb5|by eapply set_state_served|exact Hp1|reflexivity|exact A8|reflexivity|].
  next_round reset_round; [exact Hb6|by apply reset_served|reflexivity|by apply device_rebooted|reflexivity|exact A9|reflexivity|].
  next_round lost_round; [exact Hb7|by eapply reached|exact A10|reflexivity|].
  next_round reconnected_round; [exact Hb8|by eapply reached|].
  next_round posted_round; [exact Hb9|exact A11|reflexivity|].
  destruct (decide (mode (decided plan) = ConfirmImmediately)) as [Hc|Hc];
    [rewrite (bool_decide_eq_true_2 _ Hc) in A12|rewrite (bool_decide_eq_false_2 _ Hc) in A12]; destruct A12 as [A12 A13].
  - next_round answer_round; [exact Hb10|by eapply (table_served _ _ _ d3)|reflexivity|reflexivity|exact A12|reflexivity|by apply Hlast].
  - next_round trial_round; [exact Hb10|by eapply (table_served _ _ _ d3)|reflexivity|reflexivity|exact A12|reflexivity|].
    next_round approved_round; [exact Hb11|by eapply reached|].
    next_round posted_round; [exact Hb12|exact A13|reflexivity|by apply Hlast].
Qed.
End update.

(** ** A sample *)

Definition bench_file : bytes := BootModelProperties.sample_content 1.
Definition bench_hash : ImageHash := replicate 32 1.

(** Chunks of 32 bytes, so that the upload takes several. *)
Definition bench_plan : FullPlan :=
  mkFullPlan default_plan (mkUploadOptions 0 false None 32 None 3 2 3 30000 30000 5000) 3000.

(** Version 1.0.0 runs on a device that swaps by moving; the other slot is
    erased. *)
Definition bench_device : StubDevice :=
  mkStub (set_images [pair_of (BootModelProperties.sample_content 0) [] None_]
            (new_model (BootModelProperties.sample_config SwapWithRevert))) (Some 3) None 0 0 false.

Lemma bench_content_ok n : n = 0 \/ n = 1 -> content_ok (BootModelProperties.sample_content n).
Proof. intros [-> | ->]; (split; [by apply (bool_decide_unpack _); vm_compute|by vm_compute|vm_compute; intros i [= <-]; cbn; lia]). Qed.

Lemma bench_file_given : file_given 2048 8 bench_plan (MemoryImageSource bench_file) bench_file bench_hash (mkVersion 1 1 0 0).
Proof.
  split; [apply _| |apply bench_content_ok; auto|by vm_compute|split; [done|by vm_compute]| |right; vm_compute; split; congruence|by intros; eexists].
  - split_and!; [apply (ct_bytes _ (bench_content_ok 1 ltac:(auto)))|vm_compute; congruence..|by vm_compute].
  - by split.
Qed.

Lemma bench_device_given : device_given bench_hash (BootModelProperties.sample_content 0) [] bench_device.
Proof.
  split; [by split|split_and!; vm_compute; auto|by exists 3|split; [apply bench_content_ok; auto|by vm_compute]|].
  split; [|by vm_compute]. split; [constructor|done|done].
Qed.

Lemma update_installed_witness :
  ends_up V2 7 2048 8 no_upload 1000 (installed bench_file bench_hash (BootModelProperties.sample_content 0))
    (bench_start (MemoryImageSource bench_file) bench_plan bench_device).
Proof.
  apply (update_installed V2 7 2048 8 no_upload 1000 bench_plan (MemoryImageSource bench_file) bench_file bench_hash (mkVersion 1 1 0 0)
    ltac:(by split) bench_file_given (BootModelProperties.sample_content 0) [] bench_device bench_device_given).
  done.
Defined.
